(* ===== verification/_CoqProject ===== *)
-Q . S2P
Prelude.v
Console.v
Cstring.v
Bytes.v
Bitops.v
Strings.v
Memblock.v
MemblockProps.v
Unaligned.v
Ctype.v
Vsprintf.v
VsprintfProps.v
Sha256.v
Sha256Spec.v
Sha256Props.v
Fdt.v
FdtRo.v
FdtTree.v
FdtLookup.v
Of.v
OfProps.v
FdtBuild.v
DeviceTree.v
OfBoot.v
FdtSafe.v
Machine.v
Mcall.v
Nospec.v
Sv39.v
Keystone.v
KeystoneInv.v
KeystoneSafety.v
KeystoneSpec.v
KeystoneContext.v
KeystoneWitness.v
Certikos.v
CertikosInv.v
CertikosSafety.v
CertikosProps.v
CertikosWitness.v
Komodo.v
KomodoDb.v
KomodoCalls.v
KomodoInv.v
KomodoSafety.v
KomodoProps.v
KomodoContext.v
KomodoWitness.v
Bpf.v
BpfSteps.v
BpfProps.v
Riscv.v
RvEmit.v
RvEnc.v
RvExec.v
BpfJit64.v
BpfJit64Exec.v
BpfJit64Imm.v
BpfJit64Alu.v
BpfJit64Mem.v
BpfJit64Jmp.v
BpfJit64Sim.v
BpfJit64Count.v
BpfJit64Props.v
BpfJit64Witness.v
BpfJit32.v
BpfJit32Half.v
BpfJit32Mem.v
BpfJit32Exec.v
BpfJit32Ops.v
BpfJit32Word.v
BpfJit32Rel.v
BpfJit32Bodies.v
BpfJit32Access.v
BpfJit32Sim.v
BpfJit32Frame.v
BpfJit32Layout.v
BpfJit32Run.v
BpfJit32Props.v
BpfJit32Witness.v
