(* ===== verification/Prelude.v ===== *)
(** Verification of the Serval artefact: security monitors for RISC-V, the kernel
    library below them, and two BPF just-in-time compilers.

    * The program

    The repository holds three security monitors that run in machine mode on a
    64-bit RISC-V processor and isolate the supervisor-mode software below them
    with the physical memory protection unit (PMP):
    - monitors/keystone: enclaves, each with a secure and a shared region;
    - monitors/certikos: processes with page quotas and a round-robin scheduler;
    - monitors/komodo: a database of secure pages out of which the host builds
      enclaves with their own page tables.
    Below them is a small kernel library (kernel/, include/) and the firmware
    services of bios/.  At boot the firmware hands over a device tree: the kernel
    takes the command line and the memory areas from it (kernel/of.c,
    kernel/libfdt/) and gives the areas to the boot memory allocator
    (kernel/memblock.c).  bpf/ holds an interpreter for BPF programs (kbpf.c) and
    compilers that translate them to RISC-V code of 64 bits
    (jit/bpf_jit_riscv64.c) and of 32 bits (jit/bpf_jit_comp32.c); serval/ holds
    the framework with an executable semantics of RISC-V.

    * How the code is translated

    A [w]-bit integer is a [Z] with its conversions written out ([wrap w], [sgn w]
    of this file); an array is a function from indices updated with [<[k := v]>].
    The C code of the monitors is in a state monad (Machine.v) whose outcomes are
    a result, a halt by BUG(), a panic or an access out of bounds, and a shutdown:
    that no such halt happens is a theorem, not an assumption.  A trap handler
    returns to the frame it was given or enters another one with mret.  The
    software below a monitor is a relation ([lower], [user]): it may change its
    registers, its CSRs and every byte the PMP lets it write, in any way.
    Addresses of linker symbols are a class [Layout] with the bounds the linker
    scripts guarantee, and the console drivers a class [Console]; the witnesses
    instantiate both.  The compilers are in a state monad over their context
    (BpfJit64.v, BpfJit32.v), undefined where C indexes outside an array.  The
    device tree is data that the code does not trust: its functions are in a monad
    (Fdt.v) whose outcomes are a result, a read outside the tree, and a loop that
    has not ended.

    The model is the production build: CONFIG_VERIFICATION and
    CONFIG_VERIFICATION_LLVM are 0, messages are dropped, TLB flushes are no-ops.

    * Files

    Prelude       integers, arrays as functions, bit-level proof automation.
    Console       kernel/console.c over drivers given as parameters.
    Cstring       kernel/string.c: memcpy, memmove, memset.
    Bytes         kernel/bswap.c, include/sys/byteorder.h, little-endian accesses.
    Bitops        kernel/bitops.c, include/sys/bitops/: searches in bit arrays.
    Strings       the rest of kernel/string.c, include/asm/word-at-a-time.h.
    Memblock      kernel/memblock.c; MemblockProps: its tables as sets of
                  addresses.
    Unaligned     include/sys/unaligned/: accesses in both byte orders.
    Ctype         kernel/ctype.c, kernel/hexdump.c.
    Vsprintf      kernel/vsprintf.c; VsprintfProps: the text of a format,
                  and the meaning of a directive.
    Sha256        kernel/hacl/, kernel/sha256.c, kernel/hmac256.c; Sha256Spec: the
                  standards; Sha256Props: the equivalence.
    Fdt, FdtRo    kernel/libfdt/fdt.c and fdt_ro.c.  FdtTree: the structure block
                  as tokens and the walk over them; FdtLookup: trees, and lookups
                  against them; FdtBuild: trees written in the flattened form;
                  FdtSafe: data that nobody checked.
    Of            kernel/of.c.  OfProps: the scan of the nodes; OfBoot: from a tree
                  to the memory map; DeviceTree: lookups, parents, cell counts.
    Machine       trap frames, CSRs, the PMP unit and its accessors, the monad.
    Mcall         bios/mcall.c and the dispatch of kernel/traps.c.
    Nospec        include/io/nospec.h.
    Sv39          the architecture's page table walk, against which page tables
                  are judged.
    Keystone      monitors/keystone: enclave.c, pmp.c, cpu.h, traps.c, main.c.
                  KeystoneInv: invariant; KeystoneSafety: reachable states,
                  isolation, integrity; KeystoneSpec: the abstract enclave table
                  and the refinement; KeystoneContext: context round trips and
                  two defects.
    Certikos      monitors/certikos: proc.c, traps.c, main.c.  CertikosInv:
                  invariant; CertikosSafety, CertikosProps: theorems.
    Komodo        monitors/komodo: monitor.c, traps.c, main.c.  KomodoDb: the
                  invariant of the page database; KomodoCalls: the calls in closed
                  form; KomodoInv, KomodoSafety, KomodoProps, KomodoContext.
    Bpf           bpf/jit/filter.h, bpf/jit/bpf_common.h, bpf/bpf.h and the
                  interpreter bpf/kbpf.c; BpfSteps: what one instruction does;
                  BpfProps: the instruction set, stated apart from the interpreter,
                  and the proof that the interpreter implements it.
    Riscv         encoder and instruction semantics of serval/serval/riscv, and a
                  decoder that inverts the encoder.  RvEmit, RvEnc, RvExec: the
                  encoders of the compilers, and running emitted code.
    BpfJit64      bpf/jit/bpf_jit_riscv64.c.  BpfJit64Exec, BpfJit64Imm: rules along
                  the structure of the compiler; Alu, Mem, Jmp: the code of each
                  group of instructions; BpfJit64Sim: simulation of each
                  instruction; BpfJit64Count: sizes and definedness;
                  BpfJit64Props: theorems.
    BpfJit32      bpf/jit/bpf_jit_comp32.c.  Half, Mem: numbers in two registers;
                  Exec, Ops, Word: the code of the operations and jumps; Rel:
                  related states and operands; Bodies, Access, Sim: simulation of
                  each instruction; Frame, Layout, Run: prologue, offsets and
                  whole programs; Props: theorems.
    *Witness      concrete instances of the theorems of a component.

    * What the theorems show

    Every monitor: from each reachable state, whatever the software below does,
    a trap is answered and no assertion fails (keystone_ecall_total,
    certikos_ecall_total, komodo_trap_total); the PMP gives that software exactly
    the intended memory (keystone_isolation, certikos_isolation, komodo_pmp,
    komodo_confinement through the page tables); memory of others keeps its
    contents (keystone_integrity, certikos_integrity, komodo_integrity); contexts
    survive switches (keystone_enclave_roundtrip, komodo_enclave_roundtrip,
    certikos_yield_roundtrip).  Keystone refines an abstract enclave table: each call
    (keystone_refines), and whole executions, answer by answer
    (keystone_simulation).  CertiKOS partitions
    its pages and schedules fairly (certikos_partition, certikos_round_robin) and
    spawn splits quotas (certikos_spawn).  Komodo keeps a well-typed page database
    (komodo_db_typed), maps what it says (komodo_map_secure), leaves the state
    alone on errors (komodo_error_atomic) and moves address spaces forward only
    (komodo_lifecycle).  keystone_refused_run_repeats and keystone_stale_csrs
    state two defects.

    The BPF compilers: the code of a program simulates the interpreter
    (jit_program_simulation, jit32_program), and the interpreter does what the
    instruction set says (bpf_step_correct).  Where the compiled code does not agree
    with the interpreter, the theorems say exactly when.  Twelve 32-bit operations
    of the 64-bit compiler lack a zero extension: their code is right exactly when
    the result happens to need none, and always with the missing instruction
    (jit_alu32_zero_extension); jit_program_simulation asks it of those
    steps.  In the 32-bit compiler, S6 is not restored (the conclusion of
    jit32_program says what it has; jit32_s6_lost is an instance), and a 64-bit
    comparison that takes its first branch too far goes 8192 bytes below its target
    (jit32_far_branch); jit32_program asks that no comparison of the run does,
    which holds in images of less than 4084 bytes (small_image).  The
    simulations leave out calls, and jit32_program is about the first compilation
    of a program.
    Compilation terminates, with a layout that does not depend on the pass
    (jit_layout, emit_imm_correct), and the encoders agree with Serval's, the
    atomic additions, which Serval lacks, with the architecture (rv_encoders).

    Boot: the scan of any well-formed device tree gives the allocator exactly the
    memory that the tree lists (boot_memory_map); lookups in the flattened form
    agree with the tree (device_tree_lookup, device_cells); on data that nobody
    checked the walk stays inside the blob (unchecked_walk), and there are trees
    with an accepted header on which it does not end (boot_scan_hangs, alias_loop,
    scan_areas_hangs).  The allocator returns free, aligned memory when there is
    any, and its tables stay sorted and disjoint (memblock_alloc_correct,
    memblock_add_correct).

    Library: SHA-256 and HMAC are those of the standards, in one call or in pieces
    (sha256_hash_correct, hmac256_hash_correct, sha256_stream); vsnprintf writes
    the text of its format and nothing past its buffer, and decimal digits by
    multiplication are right (vsnprintf_correct, number_correct), and directives are
    decoded to what they mean (format_decode_correct); copying words is
    copying bytes (strscpy_correct); bit_search_correct, memmove_correct,
    byteorder_roundtrip, hex_roundtrip, ctype_ascii, array_index_nospec_spec.

    * Bounds and fuel

    Loops over the monitors' tables recurse on their constant sizes.  Calls of
    emit_imm nest at most three deep (each drops at least 12 of 64 bits), so its
    fuel of 4 suffices, and emit_imm_correct proves it.  The theorems on compiled
    code ask offset table entries below 2^28, far above BPF_MAXINSNS * 32.  The
    fuel of ___bpf_prog_run counts BPF instructions: programs may loop.  The
    searches in bit arrays take one unit per word, which bit_search_correct
    proves to be enough; reads to the end of a string, one per byte.  The fuel of
    the device tree functions bounds the iterations of each loop: more than the
    size of the blob is enough for every well-formed tree, and running out of any
    fuel is how a loop without end is stated.  The loop of vsnprintf takes one
    unit per character of the format (render_ends).

    * Not modelled

    Device drivers, boot and register save assembly, archives and lists: I/O, or
    code that runs before the monitors do.  Of libfdt the functions that nothing
    calls: phandles, reservations, searches by value.  mret's effect on mstatus
    and the WARL behaviour of CSRs are the hardware's.  The Racket part of the
    repository is another verification of the same code; only its RISC-V
    semantics is used here.  *)

From stdpp Require Export base numbers list functions sets relations.
From Stdlib Require Export ZArith Lia.
From Stdlib Require Import FunctionalExtensionality.

#[global] Open Scope Z_scope.

(** * Notations and automation *)

Declare Scope cint_scope.
Delimit Scope cint_scope with cint.

(** The C operators [&] and [|]; shifts are stdpp's [≪] and [≫]. *)
Infix ".&" := Z.land (at level 40, left associativity) : cint_scope.
Infix ".|" := Z.lor (at level 50, left associativity) : cint_scope.
#[global] Open Scope cint_scope.

Create Rewrite HintDb cint.

(** * Machine-width integers

    A [w]-bit unsigned integer is a [Z] in [0, 2^w); [wrap w] is the conversion
    C applies when a value is stored in an unsigned type of that width, and
    [sgn w] is the two's complement reading of the same bits. *)

Definition wrap (w x : Z) : Z := x mod 2 ^ w.

Definition sgn (w x : Z) : Z :=
  let y := x mod 2 ^ w in
  if y <? 2 ^ (w - 1) then y else y - 2 ^ w.

Abbreviation u8 := (wrap 8).
Abbreviation u16 := (wrap 16).
Abbreviation u32 := (wrap 32).
Abbreviation u64 := (wrap 64).
Abbreviation s16 := (sgn 16).
Abbreviation s32 := (sgn 32).
Abbreviation s64 := (sgn 64).

(** [uint w x] : [x] is a value of the [w]-bit unsigned type. *)
Definition uint (w x : Z) : Prop := 0 <= x < 2 ^ w.

Lemma wrap_range w x : 0 <= w -> 0 <= wrap w x < 2 ^ w.
Proof. intros. apply Z.mod_pos_bound. lia. Qed.

Lemma wrap_small w x : 0 <= x < 2 ^ w -> wrap w x = x.
Proof. apply Z.mod_small. Qed.

Lemma wrap_wrap w x : wrap w (wrap w x) = wrap w x.
Proof. unfold wrap. rewrite Zmod_mod. reflexivity. Qed.

Lemma wrap_wrap_le v w x : 0 <= v <= w -> wrap v (wrap w x) = wrap v x.
Proof.
  intros. unfold wrap. apply Z.mod_mod_divide.
  exists (2 ^ (w - v)). rewrite <- Z.pow_add_r by lia. f_equal. lia.
Qed.

Lemma sgn_range w x : 0 < w -> - 2 ^ (w - 1) <= sgn w x < 2 ^ (w - 1).
Proof.
  intros. unfold sgn. pose proof (wrap_range w x ltac:(lia)) as R. unfold wrap in R.
  assert (2 ^ w = 2 * 2 ^ (w - 1)) by (rewrite <- Z.pow_succ_r by lia; f_equal; lia).
  destruct (Z.ltb_spec (x mod 2 ^ w) (2 ^ (w - 1))); lia.
Qed.

Lemma sgn_wrap w x : wrap w (sgn w x) = wrap w x.
Proof.
  unfold sgn, wrap. destruct (_ <? _); [apply Zmod_mod|].
  rewrite Zminus_mod, Z_mod_same_full, Z.sub_0_r, !Zmod_mod. reflexivity.
Qed.

Lemma sgn_of_wrap w x : sgn w (wrap w x) = sgn w x.
Proof. unfold sgn, wrap. rewrite Zmod_mod. reflexivity. Qed.

Lemma sgn_small w x : 0 < w -> - 2 ^ (w - 1) <= x < 2 ^ (w - 1) -> sgn w x = x.
Proof.
  intros Hw Hx. unfold sgn.
  assert (2 ^ w = 2 * 2 ^ (w - 1)) as E by (rewrite <- Z.pow_succ_r by lia; f_equal; lia).
  destruct (Z_lt_ge_dec x 0) as [Hn|Hp].
  - replace (x mod 2 ^ w) with (x + 2 ^ w).
    2:{ symmetry. rewrite <- (Z_mod_plus_full x 1), Z.mul_1_l. apply Z.mod_small. lia. }
    destruct (Z.ltb_spec (x + 2 ^ w) (2 ^ (w - 1))); lia.
  - rewrite Z.mod_small by lia. destruct (Z.ltb_spec x (2 ^ (w - 1))); lia.
Qed.

(** The signed reading is the residue centred at zero. *)
Lemma sgn_alt w x : 0 < w -> sgn w x = (x + 2 ^ (w - 1)) mod 2 ^ w - 2 ^ (w - 1).
Proof.
  intros Hw. unfold sgn.
  assert (2 ^ w = 2 * 2 ^ (w - 1)) as E by (rewrite <- Z.pow_succ_r by lia; f_equal; lia).
  assert (0 < 2 ^ (w - 1)) by (apply Z.pow_pos_nonneg; lia).
  pose proof (Z.mod_pos_bound x (2 ^ w)). pose proof (Z.div_mod x (2 ^ w)).
  destruct (Z.ltb_spec (x mod 2 ^ w) (2 ^ (w - 1))).
  - rewrite <- (Z.mod_unique (x + 2 ^ (w - 1)) (2 ^ w) (x / 2 ^ w) (x mod 2 ^ w + 2 ^ (w - 1))); lia.
  - rewrite <- (Z.mod_unique (x + 2 ^ (w - 1)) (2 ^ w) (x / 2 ^ w + 1) (x mod 2 ^ w - 2 ^ (w - 1))); lia.
Qed.

(** Values with the same low bits have the same signed reading. *)
Lemma sgn_eq w x y : wrap w x = wrap w y -> sgn w x = sgn w y.
Proof. intros E. by rewrite <- (sgn_of_wrap w x), E, sgn_of_wrap. Qed.

(** Operands of modular arithmetic may be reduced or not. *)
Lemma wrap_add_l w a b : wrap w (wrap w a + b) = wrap w (a + b).
Proof. apply Zplus_mod_idemp_l. Qed.
Lemma wrap_add_r w a b : wrap w (a + wrap w b) = wrap w (a + b).
Proof. apply Zplus_mod_idemp_r. Qed.
Lemma wrap_sub_l w a b : wrap w (wrap w a - b) = wrap w (a - b).
Proof. apply Zminus_mod_idemp_l. Qed.
Lemma wrap_sub_r w a b : wrap w (a - wrap w b) = wrap w (a - b).
Proof. apply Zminus_mod_idemp_r. Qed.
Lemma wrap_mul_l w a b : wrap w (wrap w a * b) = wrap w (a * b).
Proof. apply Zmult_mod_idemp_l. Qed.
Lemma wrap_mul_r w a b : wrap w (a * wrap w b) = wrap w (a * b).
Proof. apply Zmult_mod_idemp_r. Qed.
Lemma wrap_opp w a : wrap w (- wrap w a) = wrap w (- a).
Proof. rewrite <- !Z.sub_0_l. apply wrap_sub_r. Qed.

#[export] Hint Rewrite wrap_wrap sgn_wrap sgn_of_wrap : cint.
#[export] Hint Rewrite wrap_add_l wrap_add_r wrap_sub_l wrap_sub_r wrap_mul_l wrap_mul_r wrap_opp : cint.
#[export] Hint Rewrite wrap_wrap_le using lia : cint.

(** * Bit-level reasoning *)

Lemma wrap_spec w x n : 0 <= w -> Z.testbit (wrap w x) n = (n <? w) && Z.testbit x n.
Proof. intros. apply Z.testbit_mod_pow2. lia. Qed.

Lemma ones_spec w n : 0 <= w -> Z.testbit (Z.ones w) n = (0 <=? n) && (n <? w).
Proof. apply Z.testbit_ones. Qed.

Lemma testbit_uint w x n : uint w x -> w <= n -> Z.testbit x n = false.
Proof.
  intros [H0 H1] Hn. destruct (Z_lt_ge_dec w 0).
  { rewrite Z.pow_neg_r in H1 by lia. lia. }
  rewrite <- (Z.mod_small x (2 ^ w)) by lia. apply Z.mod_pow2_bits_high. lia.
Qed.

(** The signed reading repeats the top bit. *)
Lemma sgn_testbit w x n : 0 < w -> 0 <= n -> Z.testbit (sgn w x) n = Z.testbit x (if n <? w then n else w - 1).
Proof.
  intros Hw Hn. unfold sgn. change (x mod 2 ^ w) with (wrap w x).
  pose proof (wrap_range w x ltac:(lia)) as [H0 H1].
  assert (2 ^ w = 2 * 2 ^ (w - 1)) as E2 by (rewrite <- Z.pow_succ_r by lia; f_equal; lia).
  assert (Z.testbit x (w - 1) = (2 ^ (w - 1) <=? wrap w x)) as Et.
  { transitivity (Z.testbit (wrap w x) (w - 1)); [rewrite wrap_spec, (proj2 (Z.ltb_lt _ _)) by lia; done|].
    rewrite Z.testbit_eqb by lia. destruct (Z.leb_spec (2 ^ (w - 1)) (wrap w x)).
    - replace (wrap w x / 2 ^ (w - 1)) with 1; [done|]. apply (Z.div_unique _ _ _ (wrap w x - 2 ^ (w - 1))); lia.
    - by rewrite Z.div_small by lia. }
  destruct (Z.ltb_spec (wrap w x) (2 ^ (w - 1))) as [Hl|Hl].
  - rewrite wrap_spec by lia. destruct (Z.ltb_spec n w); [done|]. rewrite Et. cbn. symmetry. by apply Z.leb_gt.
  - replace (wrap w x - 2 ^ w) with (wrap w x .| ((-1) ≪ w)).
    + rewrite Z.lor_spec, wrap_spec, Z.shiftl_spec by lia. destruct (Z.ltb_spec n w).
      * rewrite (Z.testbit_neg_r (-1)) by lia. apply orb_false_r.
      * rewrite Z.bits_m1, orb_true_r, Et by lia. symmetry. apply Z.leb_le. lia.
    + assert (wrap w x .& ((-1) ≪ w) = 0) as El.
      { apply Z.bits_inj'. intros i Hi. rewrite Z.land_spec, wrap_spec, Z.shiftl_spec, Z.bits_0 by lia.
        destruct (Z.ltb_spec i w); [rewrite (Z.testbit_neg_r (-1)) by lia; apply andb_false_r|done]. }
      rewrite <- Z.lxor_lor, <- Z.add_nocarry_lxor by done. rewrite Z.shiftl_mul_pow2 by lia. lia.
Qed.

(** Rewrites with the equation [E] of a shift read at bit [n], which needs
    [0 <= n]; a read below bit 0, which an outer left shift leaves, is false. *)
Ltac bit_shift t n E :=
  first
    [ rewrite (E n) by lia
    | destruct (Z_lt_ge_dec n 0); [rewrite (Z.testbit_neg_r t n) by lia|rewrite (E n) by lia] ].

(** Pushes [Z.testbit] to the leaves of a bitwise expression. *)
Ltac bit_step :=
  match goal with
  | |- context [Z.testbit ?t ?n] =>
      lazymatch t with
      | 0 => rewrite (Z.bits_0 n)
      | Z.land ?a ?b => rewrite (Z.land_spec a b n)
      | Z.lor ?a ?b => rewrite (Z.lor_spec a b n)
      | Z.lxor ?a ?b => rewrite (Z.lxor_spec a b n)
      | Z.ldiff ?a ?b => rewrite (Z.ldiff_spec a b n)
      | wrap ?w ?x => rewrite (wrap_spec w x n) by lia
      | sgn ?w ?x => rewrite (sgn_testbit w x n) by lia; destruct (Z.ltb_spec n w); try lia
      | Z.ones ?w => rewrite (ones_spec w n) by lia
      | Z.lnot ?x => rewrite (Z.lnot_spec x n) by lia
      | Z.shiftr ?x ?k => bit_shift t n (Z.shiftr_spec x k)
      | Z.shiftl ?x ?k => bit_shift t n (Z.shiftl_spec x k)
      end
  end.
Ltac bit_rewrite := repeat bit_step.

(** Decides the comparisons of bit positions that [bit_rewrite] leaves. *)
Ltac bit_cases :=
  repeat match goal with
    | |- context [?a <? ?b] => destruct (Z.ltb_spec a b); try lia
    | |- context [?a <=? ?b] => destruct (Z.leb_spec a b); try lia
    end;
  cbn [andb orb negb xorb];
  rewrite ?andb_true_r, ?andb_false_r, ?orb_false_r, ?orb_true_r.

(** Proves an equation of bitwise expressions bit by bit; masks are [Z.ones]. *)
Ltac zbits :=
  apply Z.bits_inj'; let n := fresh "n" in let Hn := fresh "Hn" in intros n Hn;
  bit_rewrite; bit_cases;
  repeat match goal with
    | H : uint ?w ?x |- context [Z.testbit ?x ?n] =>
        rewrite (testbit_uint w x n H) by lia
    | |- context [Z.testbit ?x ?n] => rewrite (Z.testbit_neg_r x n) by lia
    end;
  rewrite ?andb_true_r, ?andb_false_r, ?orb_false_r, ?orb_true_r; cbn [andb orb negb xorb];
  try reflexivity; try (f_equal; lia).

Lemma uint_wrap w x : 0 <= w -> uint w (wrap w x).
Proof. apply wrap_range. Qed.

Lemma uint_bits w x : 0 <= w -> (0 <= x /\ forall n, w <= n -> Z.testbit x n = false) -> uint w x.
Proof.
  intros Hw [Hx Hb]. split; [done|]. apply Z.nle_gt. intros Hle.
  destruct (decide (x = 0)) as [->|]; [pose proof (Z.pow_pos_nonneg 2 w); lia|].
  specialize (Hb (Z.log2 x)). rewrite Z.bit_log2 in Hb by lia.
  assert (w <= Z.log2 x) by (apply Z.log2_le_pow2; lia). naive_solver.
Qed.

(** A field below another number. *)
Lemma add_field n x y : 0 <= n -> uint n x -> x + 2 ^ n * y = (y ≪ n) .| x.
Proof.
  intros Hn Hx. assert ((y ≪ n) .& x = 0) as E.
  { apply Z.bits_inj'. intros k Hk. rewrite Z.land_spec, Z.shiftl_spec, Z.bits_0 by done. destruct (Z.ltb_spec k n).
    - by rewrite Z.testbit_neg_r by lia.
    - by rewrite (testbit_uint n x k Hx), andb_false_r by lia. }
  rewrite <- Z.add_nocarry_lor, Z.shiftl_mul_pow2 by done. lia.
Qed.

Lemma uint_land w x y : 0 <= w -> 0 <= x -> uint w y -> uint w (x .& y).
Proof.
  intros Hw Hx Hy. apply uint_bits; [done|]. split; [apply Z.land_nonneg; auto|].
  intros n Hn. rewrite Z.land_spec, (testbit_uint w y) by done. apply andb_false_r.
Qed.

Lemma uint_lor w x y : 0 <= w -> uint w x -> uint w y -> uint w (x .| y).
Proof.
  intros Hw Hx Hy. apply uint_bits; [done|]. split; [apply Z.lor_nonneg; split; [apply Hx|apply Hy]|].
  intros n Hn. by rewrite Z.lor_spec, (testbit_uint w x), (testbit_uint w y).
Qed.

Lemma uint_lxor w x y : 0 <= w -> uint w x -> uint w y -> uint w (Z.lxor x y).
Proof.
  intros Hw Hx Hy. apply uint_bits; [done|]. split; [apply Z.lxor_nonneg; split; intros _; [apply Hy|apply Hx]|].
  intros n Hn. by rewrite Z.lxor_spec, (testbit_uint w x), (testbit_uint w y).
Qed.

Lemma uint_shiftr w x n : 0 <= w -> 0 <= n -> uint w x -> uint w (x ≫ n).
Proof.
  intros Hw Hn Hx. apply uint_bits; [done|]. split; [apply Z.shiftr_nonneg, Hx|].
  intros k Hk. rewrite Z.shiftr_spec by lia. apply (testbit_uint w); [done|lia].
Qed.

(** The top bit of a word says whether it is negative as a signed number. *)
Lemma testbit_top w x : 0 < w -> uint w x -> Z.testbit x (w - 1) = (2 ^ (w - 1) <=? x).
Proof.
  intros Hw [H0 H1]. rewrite Z.testbit_eqb by lia.
  assert (2 ^ w = 2 * 2 ^ (w - 1)) as E by (rewrite <- Z.pow_succ_r by lia; f_equal; lia).
  assert (0 < 2 ^ (w - 1)) by (apply Z.pow_pos_nonneg; lia).
  destruct (Z.leb_spec (2 ^ (w - 1)) x).
  - replace (x / 2 ^ (w - 1)) with 1; [done|]. apply (Z.div_unique _ _ _ (x - 2 ^ (w - 1))); lia.
  - by rewrite Z.div_small by lia.
Qed.

(** Replacing byte [j] of a 64-bit word with the clear-then-set sequence. *)
Lemma set_byte_same x v j : 0 <= j < 8 -> uint 8 v ->
  (u64 (u64 (Z.ldiff x (u64 (0xff ≪ (8 * j)))) .| u64 (v ≪ (8 * j))) ≫ (8 * j)) .& 0xff = v.
Proof. intros. change 0xff with (Z.ones 8). zbits. Qed.

Lemma set_byte_other x v i j : 0 <= i < 8 -> 0 <= j < 8 -> i <> j -> uint 8 v ->
  (u64 (u64 (Z.ldiff x (u64 (0xff ≪ (8 * j)))) .| u64 (v ≪ (8 * j))) ≫ (8 * i)) .& 0xff =
  (x ≫ (8 * i)) .& 0xff.
Proof. intros. change 0xff with (Z.ones 8). zbits. Qed.

Lemma shiftr_shiftl_aligned n x : 0 <= n -> x mod 2 ^ n = 0 -> (x ≫ n) ≪ n = x.
Proof.
  intros Hn Hx. rewrite Z.shiftr_div_pow2, Z.shiftl_mul_pow2 by lia.
  rewrite (Z.div_mod x (2 ^ n)) at 2 by lia. rewrite Hx. lia.
Qed.

(** * Proof steps *)

(** Opens the existentials and conjunctions of the context. *)
Ltac destruct_conjs :=
  repeat match goal with
    | H : exists _, _ |- _ => destruct H
    | H : _ /\ _ |- _ => destruct H
    end.

(** Enumerates the members of a list. *)
Ltac each_of H := repeat (apply elem_of_cons in H as [->|H]); [..|by apply not_elem_of_nil in H].

(** * Function-valued arrays *)

(** Simplifies reads after writes of function-valued arrays and register files. *)
Ltac fn_simpl :=
  repeat first [ rewrite fn_lookup_insert | rewrite fn_lookup_insert_ne by (congruence || lia) ].

Lemma fn_insert_spec {A T} `{EqDecision A} (f : A -> T) a t b :
  <[a := t]> f b = if decide (a = b) then t else f b.
Proof. reflexivity. Qed.

Lemma fn_ext {A T} (f g : A -> T) : (forall a, f a = g a) -> f = g.
Proof. apply functional_extensionality. Qed.

Lemma fn_insert_insert {A T} `{EqDecision A} (f : A -> T) a t t' : <[a := t]> (<[a := t']> f) = <[a := t]> f.
Proof. apply fn_ext. intros b. rewrite !fn_insert_spec. by case_decide. Qed.

Lemma fn_insert_id {A T} `{EqDecision A} (f : A -> T) a t : f a = t -> <[a := t]> f = f.
Proof. intros <-. apply fn_ext. intros b. rewrite fn_insert_spec. case_decide; congruence. Qed.

Lemma fn_insert_comm {A T} `{EqDecision A} (f : A -> T) a b t t' : a <> b ->
  <[a := t]> (<[b := t']> f) = <[b := t']> (<[a := t]> f).
Proof. intros. apply fn_ext. intros c. rewrite !fn_insert_spec. repeat case_decide; congruence. Qed.

(** * Counting *)

(** The number of elements of [l] that satisfy [f]. *)
Fixpoint countb {A} (f : A -> bool) (l : list A) : Z :=
  match l with
  | [] => 0
  | x :: l => Z.b2z (f x) + countb f l
  end.

Lemma countb_ext {A} (f g : A -> bool) l : (forall x, x ∈ l -> f x = g x) -> countb f l = countb g l.
Proof.
  induction l as [|y l IH]; intros E; cbn; [done|].
  rewrite E, IH; [done|intros; apply E; by apply elem_of_cons; right|by apply elem_of_cons; left].
Qed.

Lemma countb_range {A} (f : A -> bool) l : 0 <= countb f l <= Z.of_nat (length l).
Proof. induction l as [|y l IH]; cbn [countb length]; [lia|]. destruct (f y); cbn [Z.b2z]; lia. Qed.

(** Changing the predicate at one element. *)
Lemma countb_upd {A} `{EqDecision A} (f g : A -> bool) x l : NoDup l -> x ∈ l ->
  (forall y, y ∈ l -> y <> x -> f y = g y) -> countb g l = countb f l - Z.b2z (f x) + Z.b2z (g x).
Proof.
  induction l as [|y l IH]; intros Hnd Hx E; [by apply not_elem_of_nil in Hx|].
  apply NoDup_cons in Hnd as [Hy Hnd]. cbn [countb]. destruct (decide (y = x)) as [->|Hne].
  - rewrite (countb_ext g f); [lia|]. intros z Hz. symmetry. apply E; [by apply elem_of_cons; right|by intros ->].
  - apply elem_of_cons in Hx as [->|Hx]; [done|]. rewrite IH by (done || (intros; apply E; [by apply elem_of_cons; right|done])).
    rewrite (E y); [lia|by apply elem_of_cons; left|done].
Qed.

Lemma countb_pos {A} (f : A -> bool) x l : x ∈ l -> f x = true -> 1 <= countb f l.
Proof.
  induction l as [|y l IH]; intros Hx Hf; [by apply not_elem_of_nil in Hx|]. cbn [countb].
  pose proof (countb_range f l). apply elem_of_cons in Hx as [<-|Hx]; [rewrite Hf; cbn; lia|].
  specialize (IH Hx Hf). destruct (f y); cbn; lia.
Qed.

(** A count of one leaves room for one element only. *)
Lemma countb_unique {A} `{EqDecision A} (f : A -> bool) x y l : NoDup l -> x ∈ l -> y ∈ l ->
  f x = true -> f y = true -> countb f l = 1 -> x = y.
Proof.
  intros Hnd Hx Hy Fx Fy Hc. destruct (decide (x = y)) as [|Hne]; [done|exfalso].
  set (g := fun z => if decide (z = x) then false else f z).
  assert (countb g l = countb f l - Z.b2z (f x) + Z.b2z (g x)) as E.
  { apply countb_upd; [done..|]. intros z _ Hz. unfold g. by rewrite decide_False. }
  assert (1 <= countb g l); [apply (countb_pos g y); [done|unfold g; by rewrite decide_False]|].
  unfold g in E at 2. rewrite decide_True in E by done. rewrite Fx in E. cbn in E. lia.
Qed.
