(* ===== verification/Console.v ===== *)
(** The console layer of the kernel library, kernel/console.c: a list of
    registered drivers, each with an optional getchar and putchar callback.  The
    callbacks belong to the drivers and talk to devices, so they are parameters:
    the class [Console] is what a platform gives to the code above it. *)

From S2P Require Import Prelude.

(** struct console, on a platform whose device state is [Dev]. *)
Record console (Dev : Type) : Type := mkConsole {
  con_getchar : option (Dev -> Z * Dev);
  con_putchar : option (Z -> Dev -> Dev)
}.
Arguments mkConsole {Dev}.
Arguments con_getchar {Dev}.
Arguments con_putchar {Dev}.

(** The devices of a platform, and the drivers in the order register_console
    appended them to console_drivers. *)
Class Console := {
  Dev : Type;
  console_drivers : list (console Dev)
}.

Definition EAGAIN : Z := 11.
Definition chr_nl : Z := 10.
Definition chr_cr : Z := 13.

(** register_console: list_add_tail on console_drivers. *)
Definition register_console {D} (newcon : console D) (l : list (console D)) : list (console D) :=
  l ++ [newcon].

Section console.
Context {D : Type}.

(** console_getchar: the first driver that has a character delivers it. *)
Fixpoint console_getchar (drivers : list (console D)) (d : D) : Z * D :=
  match drivers with
  | [] => (- EAGAIN, d)
  | con :: rest =>
      match con_getchar con with
      | None => console_getchar rest d
      | Some get =>
          let '(r, d) := get d in
          if 0 <=? r then (r, d) else console_getchar rest d
      end
  end.

(** console_putchar: every driver gets the character, a newline as CR LF. *)
Fixpoint console_putchar (drivers : list (console D)) (c : Z) (d : D) : D :=
  match drivers with
  | [] => d
  | con :: rest =>
      let d :=
        match con_putchar con with
        | None => d
        | Some put =>
            let d := if c =? chr_nl then put chr_cr d else d in
            put c d
        end in
      console_putchar rest c d
  end.

(** console_write: the bytes of [s] in order. *)
Fixpoint console_write (drivers : list (console D)) (s : list Z) (d : D) : D :=
  match s with
  | [] => d
  | c :: s => console_write drivers s (console_putchar drivers c d)
  end.
End console.

(** What the characters of [s] look like on a device. *)
Definition crlf (s : list Z) : list Z :=
  s ≫= (fun c => if c =? chr_nl then [chr_cr; c] else [c]).

Section lemmas.
Context {D : Type}.

Lemma console_putchar_app (l1 l2 : list (console D)) c d :
  console_putchar (l1 ++ l2) c d = console_putchar l2 c (console_putchar l1 c d).
Proof. revert d. induction l1; simpl; auto. Qed.

Lemma console_write_app (l : list (console D)) s1 s2 d :
  console_write l (s1 ++ s2) d = console_write l s2 (console_write l s1 d).
Proof. revert d. induction s1; simpl; auto. Qed.
End lemmas.

(** A platform whose only device is a log of the characters it received. *)
Definition log_console : Console := {|
  Dev := list Z;
  console_drivers := [mkConsole None (Some (fun c d => d ++ [c]))]
|}.
