(* ===== verification/Cstring.v ===== *)
(** Memory and string routines of kernel/string.c over a byte-addressed memory.
    Each loop is a recursion on its counter; pointers are addresses. *)

From S2P Require Import Prelude.

(** A memory gives the byte at each address. *)
Abbreviation mem := (Z -> Z).

(** * memset, memzero_explicit, memcpy, memmove *)

(** [n] iterations of: *xs++ = c. *)
Fixpoint memset_loop (m : mem) (xs c : Z) (n : nat) : mem :=
  match n with
  | O => m
  | S n => memset_loop (<[xs := u8 c]> m) (xs + 1) c n
  end.

Definition memset (m : mem) (s c count : Z) : mem := memset_loop m s c (Z.to_nat count).

Definition memzero_explicit (m : mem) (s count : Z) : mem := memset m s 0 count.

(** [n] iterations of: *tmp++ = *s++. *)
Fixpoint copy_up (m : mem) (tmp s : Z) (n : nat) : mem :=
  match n with
  | O => m
  | S n => copy_up (<[tmp := m s]> m) (tmp + 1) (s + 1) n
  end.

(** [n] iterations of: *--tmp = *--s. *)
Fixpoint copy_down (m : mem) (tmp s : Z) (n : nat) : mem :=
  match n with
  | O => m
  | S n => let tmp := tmp - 1 in let s := s - 1 in copy_down (<[tmp := m s]> m) tmp s n
  end.

Definition memcpy (m : mem) (dest src count : Z) : mem := copy_up m dest src (Z.to_nat count).

Definition memmove (m : mem) (dest src count : Z) : mem :=
  if dest <=? src then copy_up m dest src (Z.to_nat count)
  else copy_down m (dest + count) (src + count) (Z.to_nat count).

Definition in_range (a lo len : Z) : bool := (lo <=? a) && (a <? lo + len).

Lemma in_range_true a lo len : in_range a lo len = true <-> lo <= a < lo + len.
Proof. unfold in_range. rewrite andb_true_iff, Z.leb_le, Z.ltb_lt. lia. Qed.

Lemma in_range_false a lo len : in_range a lo len = false <-> ~ (lo <= a < lo + len).
Proof. rewrite <- in_range_true. destruct (in_range _ _ _); naive_solver. Qed.

Ltac range_cases :=
  repeat match goal with
    | |- context [in_range ?a ?l ?n] =>
        let E := fresh "E" in
        destruct (in_range a l n) eqn:E;
        [apply in_range_true in E | apply in_range_false in E]
    end.

Lemma memset_loop_spec n m xs c a :
  memset_loop m xs c n a = if in_range a xs (Z.of_nat n) then u8 c else m a.
Proof.
  revert m xs. induction n as [|n IH]; intros m xs; cbn [memset_loop].
  - range_cases; [lia|done].
  - rewrite IH. destruct (decide (xs = a)) as [->|Hne]; range_cases; fn_simpl; (lia || done).
Qed.

(** memset writes the byte to every address of the range, and to no other. *)
Lemma memset_spec m s c count a : 0 <= count ->
  memset m s c count a = if in_range a s count then u8 c else m a.
Proof. intros. unfold memset. rewrite memset_loop_spec, Z2Nat.id by lia. done. Qed.

Lemma copy_up_spec n m tmp s a : tmp <= s \/ s + Z.of_nat n <= tmp ->
  copy_up m tmp s n a = if in_range a tmp (Z.of_nat n) then m (a - tmp + s) else m a.
Proof.
  revert m tmp s. induction n as [|n IH]; intros m tmp s Hsep; cbn [copy_up].
  - range_cases; [lia|done].
  - rewrite IH by lia. range_cases; try lia.
    + rewrite fn_lookup_insert_ne by lia. f_equal; lia.
    + assert (a = tmp) as -> by lia. fn_simpl. f_equal; lia.
    + by rewrite fn_lookup_insert_ne by lia.
Qed.

Lemma copy_down_spec n m tmp s a : s <= tmp ->
  copy_down m tmp s n a =
  if in_range a (tmp - Z.of_nat n) (Z.of_nat n) then m (a - tmp + s) else m a.
Proof.
  revert m tmp s. induction n as [|n IH]; intros m tmp s Hsep; cbn [copy_down].
  - range_cases; [lia|done].
  - rewrite IH by lia. range_cases; try lia.
    + rewrite fn_lookup_insert_ne by lia. f_equal; lia.
    + assert (a = tmp - 1) as -> by lia. fn_simpl. f_equal; lia.
    + by rewrite fn_lookup_insert_ne by lia.
Qed.

Lemma memmove_id m dest src count a : count <= 0 -> memmove m dest src count a = m a.
Proof. intros. unfold memmove. replace (Z.to_nat count) with 0%nat by lia. by destruct (_ <=? _). Qed.

(** Memmove copies the range whatever the overlap of source and destination:
    afterwards each byte of the destination is the byte the source had before,
    and every other byte is unchanged. *)
Theorem memmove_correct m dest src count a :
  memmove m dest src count a = if in_range a dest count then m (a - dest + src) else m a.
Proof.
  destruct (Z_le_gt_dec count 0) as [|Hc]; [rewrite memmove_id by done; range_cases; (lia || done)|].
  unfold memmove. destruct (Z.leb_spec dest src).
  - rewrite copy_up_spec, Z2Nat.id by lia. done.
  - rewrite copy_down_spec, Z2Nat.id by lia. replace (dest + count - count) with dest by lia.
    range_cases; [|done]. f_equal; lia.
Qed.
