(* ===== verification/Bytes.v ===== *)
(** Byte order: the byte-swap routines of kernel/bswap.c, the byte-order
    conversions of include/sys/byteorder.h built on them, and little-endian
    accesses to a byte-addressed memory whose addresses wrap at a given width.
    Values are bit patterns, so equality of two of them is proved bit by bit. *)

From S2P Require Import Prelude Cstring.

(** * Byte swaps *)

Definition __bswapsi2 (u : Z) : Z :=
  u32 (((u .& 0xff000000) ≫ 24) .|
       ((u .& 0x00ff0000) ≫ 8) .|
       u32 ((u .& 0x0000ff00) ≪ 8) .|
       u32 ((u .& 0x000000ff) ≪ 24)).

Definition __bswapdi2 (u : Z) : Z :=
  u64 (((u .& 0xff00000000000000) ≫ 56) .|
       ((u .& 0x00ff000000000000) ≫ 40) .|
       ((u .& 0x0000ff0000000000) ≫ 24) .|
       ((u .& 0x000000ff00000000) ≫ 8) .|
       u64 ((u .& 0x00000000ff000000) ≪ 8) .|
       u64 ((u .& 0x0000000000ff0000) ≪ 24) .|
       u64 ((u .& 0x000000000000ff00) ≪ 40) .|
       u64 ((u .& 0x00000000000000ff) ≪ 56)).

(** The 16-bit swap, which the compiler expands in place. *)
Definition swab16 (x : Z) : Z := u16 (((x .& 0x00ff) ≪ 8) .| ((x .& 0xff00) ≫ 8)).
Definition swab32 (x : Z) : Z := __bswapsi2 x.
Definition swab64 (x : Z) : Z := __bswapdi2 x.

(** The conversions of a little-endian machine. *)
Definition cpu_to_be16 (x : Z) : Z := swab16 (u16 x).
Definition cpu_to_be32 (x : Z) : Z := swab32 (u32 x).
Definition cpu_to_be64 (x : Z) : Z := swab64 (u64 x).
Definition be16_to_cpu (x : Z) : Z := swab16 (u16 x).
Definition be32_to_cpu (x : Z) : Z := swab32 (u32 x).
Definition be64_to_cpu (x : Z) : Z := swab64 (u64 x).
Definition cpu_to_le16 (x : Z) : Z := x.
Definition cpu_to_le32 (x : Z) : Z := x.
Definition cpu_to_le64 (x : Z) : Z := x.

(** * Byte reversal as the reference *)

(** The [n] low bytes of [x], least significant first. *)
Fixpoint to_bytes (n : nat) (x : Z) : list Z :=
  match n with
  | O => []
  | S n => u8 x :: to_bytes n (x ≫ 8)
  end.

(** The number whose bytes are [l], least significant first. *)
Fixpoint of_bytes (l : list Z) : Z :=
  match l with
  | [] => 0
  | b :: l => b .| (of_bytes l ≪ 8)
  end.

Lemma of_to_bytes n x : of_bytes (to_bytes n x) = wrap (8 * Z.of_nat n) x.
Proof.
  revert x. induction n as [|n IH]; intros x; cbn [to_bytes of_bytes].
  - unfold wrap. by rewrite Z.mod_1_r.
  - rewrite IH. zbits.
Qed.

Lemma to_bytes_length n x : length (to_bytes n x) = n.
Proof. revert x. induction n as [|n IH]; intros x; cbn; by rewrite ?IH. Qed.

Lemma to_bytes_uint n x b : b ∈ to_bytes n x -> uint 8 b.
Proof.
  revert x. induction n as [|n IH]; intros x; cbn; [intros []%not_elem_of_nil|].
  intros [->|Hb]%elem_of_cons; [by apply uint_wrap|eauto].
Qed.

(** Opens a byte-wise expression to bits, with every mask a run of ones. *)
Ltac byte_masks :=
  rewrite ?Z.shiftl_0_l, ?Z.lor_0_r, ?Z.shiftl_lor, ?Z.shiftl_shiftl, ?Z.shiftr_shiftr by lia; cbn [Z.add Pos.add Pos.succ];
  change 0xff000000 with (Z.ones 8 ≪ 24); change 0xff0000 with (Z.ones 8 ≪ 16);
  change 0xff00 with (Z.ones 8 ≪ 8); change 0xff00000000000000 with (Z.ones 8 ≪ 56);
  change 0xff000000000000 with (Z.ones 8 ≪ 48); change 0xff0000000000 with (Z.ones 8 ≪ 40);
  change 0xff00000000 with (Z.ones 8 ≪ 32); change 0xff with (Z.ones 8).

Lemma swab16_bytes x : swab16 x = of_bytes (rev (to_bytes 2 x)).
Proof. unfold swab16. cbn -[Z.shiftl Z.shiftr Z.land Z.lor]. byte_masks. zbits. Qed.

Lemma swab32_bytes x : swab32 x = of_bytes (rev (to_bytes 4 x)).
Proof. unfold swab32, __bswapsi2. cbn -[Z.shiftl Z.shiftr Z.land Z.lor]. byte_masks. zbits. Qed.

Lemma swab64_bytes x : swab64 x = of_bytes (rev (to_bytes 8 x)).
Proof. unfold swab64, __bswapdi2. cbn -[Z.shiftl Z.shiftr Z.land Z.lor]. byte_masks. zbits. Qed.

Lemma of_bytes_range l : (forall b, b ∈ l -> uint 8 b) -> uint (8 * Z.of_nat (length l)) (of_bytes l).
Proof.
  induction l as [|b l IH]; intros Hl; [by cbn|]. cbn [of_bytes length].
  destruct IH as [H0 H1]; [intros; apply Hl; by apply elem_of_cons; right|].
  destruct (Hl b ltac:(by apply elem_of_cons; left)) as [Hb0 Hb1].
  replace (8 * Z.of_nat (S (length l))) with (8 * Z.of_nat (length l) + 8) by lia.
  apply uint_lor; [lia|split; [done|]|split].
  - eapply Z.lt_le_trans; [done|]. apply Z.pow_le_mono_r; lia.
  - by apply Z.shiftl_nonneg.
  - rewrite Z.shiftl_mul_pow2, Z.pow_add_r by lia. apply Z.mul_lt_mono_pos_r; lia.
Qed.

(** * Little-endian memory accesses

    [aw] is the address width: an access that runs past the last address
    continues at address 0. *)

Section access.
Context (aw : Z).

Fixpoint read_bytes (n : nat) (m : mem) (a : Z) : list Z :=
  match n with
  | O => []
  | S n => u8 (m (wrap aw a)) :: read_bytes n m (a + 1)
  end.

Fixpoint write_bytes (m : mem) (a : Z) (l : list Z) : mem :=
  match l with
  | [] => m
  | b :: l => write_bytes (<[wrap aw a := b]> m) (a + 1) l
  end.

(** An access of [n] bytes. *)
Definition load_le (n : nat) (m : mem) (a : Z) : Z := of_bytes (read_bytes n m a).
Definition store_le (n : nat) (m : mem) (a v : Z) : mem := write_bytes m a (to_bytes n v).

Lemma read_bytes_length n m a : length (read_bytes n m a) = n.
Proof. revert a. induction n as [|n IH]; intros a; cbn; by rewrite ?IH. Qed.

Lemma read_bytes_uint n m a b : b ∈ read_bytes n m a -> uint 8 b.
Proof.
  revert a. induction n as [|n IH]; intros a; cbn; [intros []%not_elem_of_nil|].
  intros [->|Hb]%elem_of_cons; [by apply uint_wrap|eauto].
Qed.

Lemma load_le_range n m a : uint (8 * Z.of_nat n) (load_le n m a).
Proof.
  rewrite <- (read_bytes_length n m a) at 1. apply of_bytes_range. apply read_bytes_uint.
Qed.

(** Accesses depend on the address up to the width, and stores on the value up
    to the size of the access. *)
Lemma read_bytes_wrap n m a : read_bytes n m (wrap aw a) = read_bytes n m a.
Proof.
  enough (forall b c, wrap aw b = wrap aw c -> read_bytes n m b = read_bytes n m c) as H
    by (apply H, wrap_wrap).
  induction n as [|n IH]; intros b c E; cbn; [done|]. rewrite E. f_equal. apply IH.
  unfold wrap in *. by rewrite Zplus_mod, E, <- Zplus_mod.
Qed.

Lemma write_bytes_wrap l m a : write_bytes m (wrap aw a) l = write_bytes m a l.
Proof.
  enough (forall m b c, wrap aw b = wrap aw c -> write_bytes m b l = write_bytes m c l) as H
    by (apply H, wrap_wrap).
  clear m a. induction l as [|x l IH]; intros m b c E; cbn; [done|]. rewrite E. apply IH.
  unfold wrap in *. by rewrite Zplus_mod, E, <- Zplus_mod.
Qed.

Lemma to_bytes_wrap n w x : 8 * Z.of_nat n <= w -> to_bytes n (wrap w x) = to_bytes n x.
Proof.
  revert w x. induction n as [|n IH]; intros w x Hw; cbn [to_bytes]; [done|].
  rewrite wrap_wrap_le by lia. f_equal.
  replace (wrap w x ≫ 8) with (wrap (w - 8) (x ≫ 8)); [apply IH; lia|]. zbits.
Qed.

Lemma load_le_wrap n m a : load_le n m (wrap aw a) = load_le n m a.
Proof. unfold load_le. by rewrite read_bytes_wrap. Qed.

Lemma store_le_wrap n m a v : store_le n m (wrap aw a) v = store_le n m a v.
Proof. apply write_bytes_wrap. Qed.

Lemma store_le_val n m a w v : 8 * Z.of_nat n <= w -> store_le n m a (wrap w v) = store_le n m a v.
Proof. intros. unfold store_le. by rewrite to_bytes_wrap. Qed.

(** Equal addresses up to the width, and equal values up to the size. *)
Lemma load_le_eq n m a b : wrap aw a = wrap aw b -> load_le n m a = load_le n m b.
Proof. intros E. by rewrite <- (load_le_wrap n m a), E, load_le_wrap. Qed.

Lemma store_le_eq n m a b v w : wrap aw a = wrap aw b -> wrap (8 * Z.of_nat n) v = wrap (8 * Z.of_nat n) w ->
  store_le n m a v = store_le n m b w.
Proof.
  intros E Ev. rewrite <- (store_le_wrap n m a), E, store_le_wrap.
  by rewrite <- (store_le_val n m b (8 * Z.of_nat n) v), Ev, store_le_val by lia.
Qed.
End access.

Lemma wrap_succ aw x : 0 <= aw -> wrap aw x <> 0 -> wrap aw (x - 1) = wrap aw x - 1.
Proof.
  intros Haw Hx. unfold wrap in *. pose proof (Z.div_mod x (2 ^ aw)) as D. pose proof (Z.pow_pos_nonneg 2 aw).
  pose proof (Z.mod_pos_bound x (2 ^ aw)). symmetry. apply (Z.mod_unique _ _ (x / 2 ^ aw)); lia.
Qed.

Lemma wrap_pred aw x : 0 <= aw -> wrap aw x = 0 -> wrap aw (x - 1) = 2 ^ aw - 1.
Proof.
  intros Haw Hx. unfold wrap in *. pose proof (Z.div_mod x (2 ^ aw)) as D. pose proof (Z.pow_pos_nonneg 2 aw).
  symmetry. apply (Z.mod_unique _ _ (x / 2 ^ aw - 1)); lia.
Qed.

(** The byte at [x] after a store. *)
Lemma store_le_byte aw n m a v x : 0 <= aw -> Z.of_nat n <= 2 ^ aw -> uint aw x ->
  store_le aw n m a v x =
  if wrap aw (x - a) <? Z.of_nat n then u8 (v ≫ (8 * wrap aw (x - a))) else m x.
Proof.
  intros Haw. unfold store_le. revert m a v. induction n as [|n IH]; intros m a v Hn Hx; cbn [to_bytes write_bytes].
  { rewrite (proj2 (Z.ltb_ge _ _)); [done|]. apply wrap_range. lia. }
  rewrite IH by (done || lia). replace (x - (a + 1)) with (x - a - 1) by lia. pose proof (wrap_range aw (x - a) ltac:(lia)).
  destruct (decide (wrap aw (x - a) = 0)) as [E|E].
  - rewrite (wrap_pred aw _ Haw E), E. rewrite (proj2 (Z.ltb_ge _ _)), (proj2 (Z.ltb_lt 0 _)) by lia.
    rewrite Z.mul_0_r, Z.shiftr_0_r. assert (wrap aw a = x) as ->; [|apply fn_lookup_insert].
    rewrite <- (wrap_small aw x) by done. replace a with (x - (x - a)) by lia. rewrite <- wrap_sub_r, E, Z.sub_0_r. done.
  - rewrite (wrap_succ aw _ Haw E). destruct (Z.ltb_spec (wrap aw (x - a) - 1) (Z.of_nat n)), (Z.ltb_spec (wrap aw (x - a)) (Z.of_nat (S n))); try lia.
    + rewrite Z.shiftr_shiftr by lia. do 2 f_equal. lia.
    + apply fn_lookup_insert_ne. intros Ea. apply E. rewrite <- Ea, wrap_sub_l, Z.sub_diag. unfold wrap. by apply Z.mod_0_l, Z.pow_nonzero.
Qed.

(** * Properties *)

Lemma to_of_bytes l : (forall b, b ∈ l -> uint 8 b) -> to_bytes (length l) (of_bytes l) = l.
Proof.
  induction l as [|b l IH]; intros Hl; [done|]. cbn [to_bytes of_bytes length].
  destruct (Hl b ltac:(by apply elem_of_cons; left)) as [Hb0 Hb1].
  assert (u8 b = b) as Eb by (apply wrap_small; lia).
  replace (u8 (b .| (of_bytes l ≪ 8))) with b by (rewrite <- Eb; zbits).
  replace ((b .| (of_bytes l ≪ 8)) ≫ 8) with (of_bytes l) by (rewrite <- Eb; zbits).
  f_equal. apply IH. intros. apply Hl. by apply elem_of_cons; right.
Qed.

Lemma of_rev_bytes n x : of_bytes (rev (to_bytes n (of_bytes (rev (to_bytes n x))))) = wrap (8 * Z.of_nat n) x.
Proof.
  assert (length (rev (to_bytes n x)) = n) as Hl by (rewrite length_rev; apply to_bytes_length).
  rewrite <- Hl at 1. rewrite to_of_bytes, rev_involutive; [apply of_to_bytes|].
  intros b Hb. apply (to_bytes_uint n x). apply list_elem_of_In. apply list_elem_of_In in Hb. by apply in_rev in Hb.
Qed.

(** The conversions to big-endian order reverse the bytes of the value, and
    the conversions from it give the value back, truncated to its width. *)
Theorem byteorder_roundtrip x :
  cpu_to_be16 x = of_bytes (rev (to_bytes 2 x)) /\ be16_to_cpu (cpu_to_be16 x) = u16 x /\
  cpu_to_be32 x = of_bytes (rev (to_bytes 4 x)) /\ be32_to_cpu (cpu_to_be32 x) = u32 x /\
  cpu_to_be64 x = of_bytes (rev (to_bytes 8 x)) /\ be64_to_cpu (cpu_to_be64 x) = u64 x.
Proof.
  unfold cpu_to_be16, cpu_to_be32, cpu_to_be64, be16_to_cpu, be32_to_cpu, be64_to_cpu.
  rewrite !swab16_bytes, !swab32_bytes, !swab64_bytes, !to_bytes_wrap by lia.
  by rewrite !of_rev_bytes.
Qed.
