(* ===== verification/Bitops.v ===== *)
(** Bit searches: __ffs, __fls and fls64 of include/sys/bitops/, the searches in bit
    arrays of kernel/bitops.c and the accesses to single bits. An array of words is
    a function of the index. *)

From S2P Require Import Prelude.

(** * Definitions *)

Definition BITS_PER_LONG : Z := 64.
Definition ULONG_MAX : Z := 2 ^ 64 - 1.

(** Find first set bit ; meaningless on zero. *)
Definition __ffs (word : Z) : Z :=
  let '(num, word) := if word .& 0xffffffff =? 0 then (32, word ≫ 32) else (0, word) in
  let '(num, word) := if word .& 0xffff =? 0 then (num + 16, word ≫ 16) else (num, word) in
  let '(num, word) := if word .& 0xff =? 0 then (num + 8, word ≫ 8) else (num, word) in
  let '(num, word) := if word .& 0xf =? 0 then (num + 4, word ≫ 4) else (num, word) in
  let '(num, word) := if word .& 0x3 =? 0 then (num + 2, word ≫ 2) else (num, word) in
  if word .& 0x1 =? 0 then num + 1 else num.

(** Find last set bit; meaningless on zero. *)
Definition __fls (word : Z) : Z :=
  let step k '(num, word) :=
    if word .& u64 (ULONG_MAX ≪ (BITS_PER_LONG - k)) =? 0 then (num - k, u64 (word ≪ k)) else (num, word) in
  let '(num, word) := step 2 (step 4 (step 8 (step 16 (step 32 (BITS_PER_LONG - 1, word))))) in
  if word .& u64 (ULONG_MAX ≪ (BITS_PER_LONG - 1)) =? 0 then num - 1 else num.

Definition fls64 (x : Z) : Z := if x =? 0 then 0 else __fls x + 1.

Definition ffz (x : Z) : Z := __ffs (u64 (Z.lnot x)).

Definition ror32 (word shift : Z) : Z := (word ≫ shift) .| u32 (word ≪ (32 - shift)).

Definition BIT_WORD (nr : Z) : Z := nr / BITS_PER_LONG.
Definition BIT_MOD (nr : Z) : Z := 1 ≪ (nr mod BITS_PER_LONG).

Definition test_bit (nr : Z) (addr : Z -> Z) : Z :=
  1 .& (addr (BIT_WORD nr) ≫ (nr .& (BITS_PER_LONG - 1))).

(** One atomic instruction each. *)
Definition set_bit (nr : Z) (addr : Z -> Z) : Z -> Z :=
  <[BIT_WORD nr := addr (BIT_WORD nr) .| BIT_MOD nr]> addr.
Definition clear_bit (nr : Z) (addr : Z -> Z) : Z -> Z :=
  <[BIT_WORD nr := addr (BIT_WORD nr) .& u64 (Z.lnot (BIT_MOD nr))]> addr.

Definition BITMAP_FIRST_WORD_MASK (start : Z) : Z := u64 (ULONG_MAX ≪ (start .& (BITS_PER_LONG - 1))).
Definition BITMAP_LAST_WORD_MASK (nbits : Z) : Z := ULONG_MAX ≫ (u64 (- nbits) .& (BITS_PER_LONG - 1)).
Definition rounddown_2 (x y : Z) : Z := x .& u64 (Z.lnot (y - 1)).

(** The loop of find_first_bit and find_first_zero_bit: the first word that [hit]
    accepts, searched for a bit with [pos]. *)
Fixpoint find_first_loop (fuel : nat) (hit : Z -> bool) (pos : Z -> Z) (addr : Z -> Z) (size idx : Z) : option Z :=
  match fuel with
  | O => None
  | S fuel =>
      if u64 (idx * BITS_PER_LONG) <? size then
        if hit (addr idx) then Some (Z.min (u64 (idx * BITS_PER_LONG + pos (addr idx))) size)
        else find_first_loop fuel hit pos addr size (u64 (idx + 1))
      else Some size
  end.

(** Iterations that are enough for an array of [size] bits. *)
Definition words (size : Z) : nat := Z.to_nat (size / BITS_PER_LONG + 2).

Definition find_first_bit (addr : Z -> Z) (size : Z) : option Z :=
  find_first_loop (words size) (fun w => negb (w =? 0)) __ffs addr size 0.
Definition find_first_zero_bit (addr : Z -> Z) (size : Z) : option Z :=
  find_first_loop (words size) (fun w => negb (w =? ULONG_MAX)) ffz addr size 0.

(** The loop of find_last_bit, from word [idx] down; [val] masks that word. *)
Fixpoint find_last_loop (fuel : nat) (addr : Z -> Z) (size val idx : Z) : option Z :=
  match fuel with
  | O => None
  | S fuel =>
      let val := val .& addr idx in
      if negb (val =? 0) then Some (idx * BITS_PER_LONG + __fls val)
      else if negb (idx =? 0) then find_last_loop fuel addr size ULONG_MAX (idx - 1)
      else Some size
  end.
Definition find_last_bit (addr : Z -> Z) (size : Z) : option Z :=
  if negb (size =? 0)
  then find_last_loop (words size) addr size (BITMAP_LAST_WORD_MASK size) ((size - 1) / BITS_PER_LONG)
  else Some size.

(** The loop of _find_next_bit; [fetch] reads a word of the searched array. *)
Fixpoint find_next_loop (fuel : nat) (fetch : Z -> Z) (nbits start tmp : Z) : option Z :=
  match fuel with
  | O => None
  | S fuel =>
      if tmp =? 0 then
        let start := u64 (start + BITS_PER_LONG) in
        if nbits <=? start then Some nbits
        else find_next_loop fuel fetch nbits start (fetch (start / BITS_PER_LONG))
      else Some (Z.min (u64 (start + __ffs tmp)) nbits)
  end.

Definition _find_next_bit (addr1 : Z -> Z) (addr2 : option (Z -> Z)) (nbits start invert : Z) : option Z :=
  if nbits <=? start then Some nbits else
  let fetch i := Z.lxor (match addr2 with Some a => addr1 i .& a i | None => addr1 i end) invert in
  let tmp := fetch (start / BITS_PER_LONG) .& BITMAP_FIRST_WORD_MASK start in
  find_next_loop (words nbits) fetch nbits (rounddown_2 start BITS_PER_LONG) tmp.

Definition find_next_bit (addr : Z -> Z) (size offset : Z) : option Z := _find_next_bit addr None size offset 0.
Definition find_next_zero_bit (addr : Z -> Z) (size offset : Z) : option Z := _find_next_bit addr None size offset ULONG_MAX.
Definition find_next_and_bit (addr1 addr2 : Z -> Z) (size offset : Z) : option Z :=
  _find_next_bit addr1 (Some addr2) size offset 0.

(** * Single words *)

(** ** __ffs *)

(** [W] is [word] shifted left by [num], and has a bit set in its low [k] bits. *)
Definition ffs_inv (W k : Z) (nw : Z * Z) : Prop :=
  W = nw.2 * 2 ^ nw.1 /\ 0 <= nw.1 /\ nw.2 mod 2 ^ k <> 0.

Lemma ffs_step W k num word mask : 0 < k -> mask = Z.ones k -> ffs_inv W (2 * k) (num, word) ->
  ffs_inv W k (if word .& mask =? 0 then (num + k, word ≫ k) else (num, word)).
Proof.
  intros Hk -> (E & Hn & Hm). cbn [fst snd] in *. rewrite Z.land_ones by lia.
  assert (0 < 2 ^ k) by (apply Z.pow_pos_nonneg; lia).
  destruct (Z.eqb_spec (word mod 2 ^ k) 0) as [H0|H0]; [|by repeat split].
  rewrite Z.shiftr_div_pow2 by lia. pose proof (Z.div_mod word (2 ^ k)) as D.
  repeat split; cbn [fst snd]; [|lia|].
  - rewrite Z.pow_add_r by lia. rewrite E. rewrite D at 1 by lia. rewrite H0. ring.
  - intros H1. apply Hm. replace (2 * k) with (k + k) by lia.
    rewrite Z.pow_add_r, Z.rem_mul_r, H0, H1 by lia. lia.
Qed.

(** The lowest set bit of a non-zero 64-bit word. *)
Lemma ffs_spec W : uint 64 W -> W <> 0 ->
  0 <= __ffs W /\ exists q, W = q * 2 ^ __ffs W /\ q mod 2 = 1.
Proof.
  intros HW Hne. unfold __ffs.
  assert (ffs_inv W (2 * 32) (0, W)) as I.
  { repeat split; cbn [fst snd]; [lia..|]. rewrite Z.mod_small by apply HW. done. }
  apply (ffs_step W 32 _ _ 0xffffffff) in I; [|lia|done].
  destruct (if W .& 0xffffffff =? 0 then _ else _) as [n1 w1]. change 32 with (2 * 16) in I.
  apply (ffs_step W 16 _ _ 0xffff) in I; [|lia|done]. cbn [Z.add] in I |- *.
  destruct (if w1 .& 0xffff =? 0 then _ else _) as [n2 w2]. change 16 with (2 * 8) in I.
  apply (ffs_step W 8 _ _ 0xff) in I; [|lia|done].
  destruct (if w2 .& 0xff =? 0 then _ else _) as [n3 w3]. change 8 with (2 * 4) in I.
  apply (ffs_step W 4 _ _ 0xf) in I; [|lia|done].
  destruct (if w3 .& 0xf =? 0 then _ else _) as [n4 w4]. change 4 with (2 * 2) in I.
  apply (ffs_step W 2 _ _ 0x3) in I; [|lia|done].
  destruct (if w4 .& 0x3 =? 0 then _ else _) as [n5 w5]. change 2 with (2 * 1) in I at 1.
  apply (ffs_step W 1 _ _ 0x1) in I; [|lia|done].
  destruct (w5 .& 0x1 =? 0); destruct I as (E & Hn & Hm); cbn [fst snd] in *; (split; [done|]).
  - exists (w5 ≫ 1). split; [done|]. change (2 ^ 1) with 2 in Hm. pose proof (Z.mod_pos_bound (w5 ≫ 1) 2). lia.
  - exists w5. split; [done|]. change (2 ^ 1) with 2 in Hm. pose proof (Z.mod_pos_bound w5 2). lia.
Qed.

(** [__ffs] in terms of bits. *)
Lemma ffs_bits W : uint 64 W -> W <> 0 ->
  0 <= __ffs W < 64 /\ Z.testbit W (__ffs W) = true /\ forall j, j < __ffs W -> Z.testbit W j = false.
Proof.
  intros HW Hne. destruct (ffs_spec W HW Hne) as (H0 & q & E & Hq). set (k := __ffs W) in *.
  assert (forall j, Z.testbit W j = Z.testbit q (j - k)) as Hb by (intros j; rewrite E; by apply Z.mul_pow2_bits).
  assert (Z.testbit W k = true) as Hk.
  { rewrite Hb, Z.sub_diag, Z.bit0_odd. apply Z.odd_spec. exists (q / 2). pose proof (Z.div_mod q 2). lia. }
  split; [|split; [done|]].
  - split; [done|]. apply Z.nle_gt. intros Hge. rewrite (testbit_uint 64 W k HW Hge) in Hk. done.
  - intros j Hj. rewrite Hb. apply Z.testbit_neg_r. lia.
Qed.

(** ** __fls *)

Lemma high_mask word j : 0 <= j <= 64 -> uint 64 word -> (word .& u64 (ULONG_MAX ≪ j) =? 0) = (word <? 2 ^ j).
Proof.
  intros Hj Hw. assert (word .& u64 (ULONG_MAX ≪ j) = (word ≫ j) ≪ j) as ->.
  { change ULONG_MAX with (Z.ones 64). zbits. }
  rewrite Z.shiftl_mul_pow2, Z.shiftr_div_pow2 by lia. assert (0 < 2 ^ j) by (apply Z.pow_pos_nonneg; lia).
  destruct Hw as [Hw0 _]. apply eq_true_iff_eq. rewrite Z.eqb_eq, Z.ltb_lt. split; intros H'.
  - apply Z.eq_mul_0_l in H'; [|lia]. apply Z.div_small_iff in H'; lia.
  - rewrite Z.div_small by lia. done.
Qed.

(** [word] is [W] shifted left to bit [num], and has a bit set in its top [k] bits. *)
Definition fls_inv (W k : Z) (nw : Z * Z) : Prop :=
  nw.2 = W * 2 ^ (63 - nw.1) /\ nw.1 <= 63 /\ 2 ^ (64 - k) <= nw.2 < 2 ^ 64.

Definition fls_half (k : Z) (nw : Z * Z) : Z * Z :=
  let '(num, word) := nw in
  if word .& u64 (ULONG_MAX ≪ (BITS_PER_LONG - k)) =? 0 then (num - k, u64 (word ≪ k)) else (num, word).

Lemma fls_half_inv W k nw : 0 < k -> 2 * k <= 64 -> fls_inv W (2 * k) nw -> fls_inv W k (fls_half k nw).
Proof.
  destruct nw as [num word]. intros Hk Hk2 (E & Hn & Hr). cbn [fst snd] in *. unfold fls_half, fls_inv, BITS_PER_LONG.
  assert (0 < 2 ^ (64 - 2 * k)) by (apply Z.pow_pos_nonneg; lia).
  rewrite high_mask by (try lia; unfold uint; lia). destruct (Z.ltb_spec word (2 ^ (64 - k))); cbn [fst snd].
  - assert (2 ^ 64 = 2 ^ (64 - k) * 2 ^ k) as E1 by (rewrite <- Z.pow_add_r by lia; f_equal; lia).
    assert (2 ^ (64 - k) = 2 ^ (64 - 2 * k) * 2 ^ k) as E2 by (rewrite <- Z.pow_add_r by lia; f_equal; lia).
    assert (0 < 2 ^ k) by (apply Z.pow_pos_nonneg; lia).
    rewrite Z.shiftl_mul_pow2 by lia. rewrite wrap_small by nia.
    split; [|split; [lia|nia]]. rewrite E. replace (63 - (num - k)) with (63 - num + k) by lia.
    rewrite Z.pow_add_r by lia. ring.
  - split; [done|]. lia.
Qed.

(** __fls is the binary logarithm. *)
Lemma fls_log2 W : 0 < W < 2 ^ 64 -> __fls W = Z.log2 W.
Proof.
  intros HW. change (__fls W) with
    (let '(num, word) := fls_half 2 (fls_half 4 (fls_half 8 (fls_half 16 (fls_half 32 (63, W))))) in
     if word .& u64 (ULONG_MAX ≪ 63) =? 0 then num - 1 else num).
  assert (fls_inv W (2 * 32) (63, W)) as I by (repeat split; cbn [fst snd]; change (2 ^ (63 - 63)) with 1; lia).
  apply fls_half_inv in I; [|lia..]. change 32 with (2 * 16) in I at 1. apply fls_half_inv in I; [|lia..].
  change 16 with (2 * 8) in I at 1. apply fls_half_inv in I; [|lia..].
  change 8 with (2 * 4) in I at 1. apply fls_half_inv in I; [|lia..].
  change 4 with (2 * 2) in I at 1. apply fls_half_inv in I; [|lia..].
  destruct (fls_half 2 _) as [num word]. destruct I as (E & Hn & Hr). cbn [fst snd] in *.
  change (64 - 2) with 62 in Hr. rewrite high_mask by (try lia; unfold uint; lia).
  assert (0 <= num) as H0.
  { apply Z.nlt_ge. intros Hneg. assert (2 ^ 64 <= 2 ^ (63 - num)) by (apply Z.pow_le_mono_r; lia). nia. }
  symmetry. assert (0 < 2 ^ (63 - num)) by (apply Z.pow_pos_nonneg; lia).
  assert (2 ^ 63 = 2 ^ num * 2 ^ (63 - num)) as E1 by (rewrite <- Z.pow_add_r by lia; f_equal; lia).
  destruct (Z.ltb_spec word (2 ^ 63)).
  - assert (num <> 0) by (intros ->; change (63 - 0) with 63 in *; nia).
    assert (2 ^ num = 2 * 2 ^ (num - 1)) as E2 by (rewrite <- Z.pow_succ_r by lia; f_equal; lia).
    apply Z.log2_unique; [lia|]. replace (Z.succ (num - 1)) with num by lia. nia.
  - apply Z.log2_unique; [lia|]. rewrite Z.pow_succ_r by lia. nia.
Qed.

Lemma fls64_spec W : 0 <= W < 2 ^ 64 -> fls64 W = if W =? 0 then 0 else Z.log2 W + 1.
Proof. intros HW. unfold fls64. destruct (Z.eqb_spec W 0); [done|]. rewrite fls_log2 by lia. done. Qed.

(** * Bit arrays *)

(** Bit [i] of an array of words. *)
Definition abit (addr : Z -> Z) (i : Z) : bool := Z.testbit (addr (BIT_WORD i)) (i mod BITS_PER_LONG).

(** [r] is the first index of [lo, hi) where [f] holds, or [hi]. *)
Definition first_in (f : Z -> bool) (lo hi r : Z) : Prop :=
  lo <= r <= hi /\ (forall j, lo <= j < r -> f j = false) /\ (r < hi -> f r = true).

(** [r] is the last index of [0, hi) where [f] holds, or [hi]. *)
Definition last_in (f : Z -> bool) (hi r : Z) : Prop :=
  (0 <= r < hi /\ f r = true /\ forall j, r < j < hi -> f j = false) \/
  (r = hi /\ forall j, 0 <= j < hi -> f j = false).

Lemma first_in_min f lo hi r : lo <= r -> lo <= hi -> (forall j, lo <= j < r -> f j = false) -> f r = true ->
  first_in f lo hi (Z.min r hi).
Proof.
  intros Hr Hh Hj Ht. split; [lia|]. split; [intros j Hl; apply Hj; lia|]. intros. by replace (Z.min r hi) with r by lia.
Qed.

Lemma abit_word addr k j : 0 <= j < 64 -> abit addr (64 * k + j) = Z.testbit (addr k) j.
Proof.
  intros Hj. unfold abit, BIT_WORD, BITS_PER_LONG. replace (64 * k + j) with (j + k * 64) by lia.
  rewrite Z_div_plus_full, Z_mod_plus_full, Z.div_small, Z.mod_small by lia. done.
Qed.

(** The word [w], as seen from bit [lo] on, is the part of [f] at [64 * k]. *)
Definition window (f : Z -> bool) (lo k w : Z) : Prop :=
  uint 64 w /\ forall j, 0 <= j < 64 -> Z.testbit w j = (lo <=? 64 * k + j) && f (64 * k + j).

Lemma window_zero f lo k j : window f lo k 0 -> lo <= j -> 64 * k <= j < 64 * k + 64 -> f j = false.
Proof.
  intros [_ Hw] Hlo Hj. specialize (Hw (j - 64 * k) ltac:(lia)). replace (64 * k + (j - 64 * k)) with j in Hw by lia.
  rewrite Z.bits_0 in Hw. destruct (Z.leb_spec lo j); [done|lia].
Qed.

Lemma window_ffs f lo k w : window f lo k w -> w <> 0 -> 64 * k <= lo ->
  0 <= __ffs w < 64 /\ lo <= 64 * k + __ffs w /\ f (64 * k + __ffs w) = true /\
  forall j, lo <= j < 64 * k + __ffs w -> f j = false.
Proof.
  intros [Hu Hw] Hne Hk. destruct (ffs_bits w Hu Hne) as (Hr & Ht & Hlow).
  rewrite Hw in Ht by done. apply andb_prop in Ht as [Hlo%Z.leb_le Hf]. repeat (split; [done|]).
  intros j Hj. specialize (Hlow (j - 64 * k) ltac:(lia)). rewrite Hw in Hlow by lia.
  replace (64 * k + (j - 64 * k)) with j in Hlow by lia. destruct (Z.leb_spec lo j); [done|lia].
Qed.

(** The loop of _find_next_bit, from a word whose window starts at [lo]. *)
Lemma find_next_loop_spec fuel fetch f nbits lo k tmp : nbits <= 2 ^ 64 - 64 ->
  (forall i, window f (64 * i) i (fetch i)) -> window f lo k tmp ->
  0 <= k -> 64 * k <= lo <= 64 * k + 64 -> lo <= nbits -> 64 * k < nbits -> nbits < 64 * (k + Z.of_nat fuel) ->
  exists r, find_next_loop fuel fetch nbits (64 * k) tmp = Some r /\ first_in f lo nbits r.
Proof.
  intros Hn Hf. revert lo k tmp. induction fuel as [|fuel IH]; intros lo k tmp Hw Hk Hlo Hln Hkn Hfuel; [lia|].
  cbn [find_next_loop]. unfold BITS_PER_LONG. destruct (Z.eqb_spec tmp 0) as [->|Hne].
  - rewrite wrap_small by lia. destruct (Z.leb_spec nbits (64 * k + 64)) as [Hend|Hmore].
    + exists nbits. split; [done|]. split; [lia|]. split; [|lia].
      intros j Hj. apply (window_zero f lo k j Hw); lia.
    + replace (64 * k + 64) with (64 * (k + 1)) by lia. rewrite Z.mul_comm, Z.div_mul, Z.mul_comm by lia.
      destruct (IH (64 * (k + 1)) (k + 1) (fetch (k + 1))) as (r & E & (Hr & Hlow & Hhit)); [apply Hf|lia..|].
      exists r. split; [done|]. split; [lia|]. split; [|done].
      intros j Hj. destruct (Z_lt_ge_dec j (64 * (k + 1))); [apply (window_zero f lo k j Hw)|apply Hlow]; lia.
  - destruct (window_ffs f lo k tmp Hw Hne) as (Hr & Hge & Ht & Hlow); [lia|].
    rewrite wrap_small by lia. eexists. split; [done|]. apply first_in_min; [lia|lia|done|done].
Qed.

Lemma and_63 x : x .& (BITS_PER_LONG - 1) = x mod 64.
Proof. change (BITS_PER_LONG - 1) with (Z.ones 6). by rewrite Z.land_ones. Qed.

Lemma window_word f w k : uint 64 w -> (forall j, 0 <= j < 64 -> Z.testbit w j = f (64 * k + j)) -> window f (64 * k) k w.
Proof.
  intros Hu Hw. split; [done|]. intros j Hj. rewrite Hw by done. by rewrite (proj2 (Z.leb_le _ _)) by lia.
Qed.

(** The mask of the first word. *)
Lemma window_first f w start : 0 <= start -> window f (64 * (start / 64)) (start / 64) w ->
  window f start (start / 64) (w .& BITMAP_FIRST_WORD_MASK start).
Proof.
  intros Hs [Hu Hw]. pose proof (Z.mod_pos_bound start 64 ltac:(lia)). pose proof (Z.div_mod start 64 ltac:(lia)).
  unfold BITMAP_FIRST_WORD_MASK. rewrite and_63. split; [apply uint_land; [lia|apply Hu|by apply uint_wrap]|].
  intros j Hj. change ULONG_MAX with (Z.ones 64). bit_rewrite. rewrite Hw by done.
  destruct (Z.leb_spec start (64 * (start / 64) + j)); bit_cases; try done.
  all: destruct (Z.leb_spec (64 * (start / 64)) (64 * (start / 64) + j)); [done|lia].
Qed.

Lemma rounddown_64 x : uint 64 x -> rounddown_2 x BITS_PER_LONG = 64 * (x / 64).
Proof.
  intros Hx. unfold rounddown_2. assert (x .& u64 (Z.lnot (BITS_PER_LONG - 1)) = (x ≫ 6) ≪ 6) as ->.
  { change (BITS_PER_LONG - 1) with (Z.ones 6). zbits. }
  rewrite Z.shiftl_mul_pow2, Z.shiftr_div_pow2 by lia. change (2 ^ 6) with 64. lia.
Qed.

(** The bits _find_next_bit looks for. *)
Definition searched (addr1 : Z -> Z) (addr2 : option (Z -> Z)) (inv : bool) (i : Z) : bool :=
  xorb (match addr2 with Some a => abit addr1 i && abit a i | None => abit addr1 i end) inv.

Lemma find_next_spec addr1 addr2 nbits start (inv : bool) : (forall i, uint 64 (addr1 i)) ->
  (forall a i, addr2 = Some a -> uint 64 (a i)) -> 0 <= start < nbits -> nbits <= 2 ^ 64 - 64 ->
  exists r, _find_next_bit addr1 addr2 nbits start (if inv then ULONG_MAX else 0) = Some r /\
    first_in (searched addr1 addr2 inv) start nbits r.
Proof.
  intros H1 H2 Hs Hn. unfold _find_next_bit. rewrite (proj2 (Z.leb_gt nbits start)) by lia.
  set (fetch := fun i => Z.lxor (match addr2 with Some a => addr1 i .& a i | None => addr1 i end) (if inv then ULONG_MAX else 0)).
  change (Z.lxor _ (if inv then ULONG_MAX else 0)) with (fetch (start / BITS_PER_LONG)).
  assert (forall i, window (searched addr1 addr2 inv) (64 * i) i (fetch i)) as Hf.
  { intros i. apply window_word.
    - apply uint_lxor; [lia| |destruct inv; by vm_compute].
      destruct addr2 as [a|]; [apply uint_land; [lia|apply H1|by apply H2]|apply H1].
    - intros j Hj. subst fetch. cbv beta. unfold searched. rewrite Z.lxor_spec.
      rewrite (abit_word addr1) by done. replace (Z.testbit (if inv then ULONG_MAX else 0) j) with inv.
      2:{ destruct inv; [|by rewrite Z.bits_0]. change ULONG_MAX with (Z.ones 64). rewrite ones_spec by lia. symmetry. lia. }
      destruct addr2 as [a|]; [|done]. by rewrite Z.land_spec, (abit_word a). }
  rewrite rounddown_64 by (unfold uint; lia). unfold BITS_PER_LONG.
  pose proof (Z.mod_pos_bound start 64 ltac:(lia)). pose proof (Z.div_mod start 64 ltac:(lia)).
  pose proof (Z.mod_pos_bound nbits 64 ltac:(lia)). pose proof (Z.div_mod nbits 64 ltac:(lia)).
  apply (find_next_loop_spec _ _ (searched addr1 addr2 inv)); [done|done|apply window_first; [lia|apply Hf]| |lia..|].
  - apply Z.div_pos; lia.
  - unfold words, BITS_PER_LONG. rewrite Z2Nat.id by (pose proof (Z.div_pos nbits 64); lia).
    pose proof (Z.div_pos start 64). lia.
Qed.

(** The loops of find_first_bit and find_first_zero_bit. *)
Lemma find_first_loop_spec fuel hit pos addr f size idx : size <= 2 ^ 64 - 64 ->
  (forall i, hit (addr i) = false -> forall j, 0 <= j < 64 -> f (64 * i + j) = false) ->
  (forall i, hit (addr i) = true -> 0 <= pos (addr i) < 64 /\ f (64 * i + pos (addr i)) = true /\
     forall j, 0 <= j < pos (addr i) -> f (64 * i + j) = false) ->
  0 <= idx -> 64 * idx <= size + 63 -> 0 <= size -> size + 64 <= 64 * (idx + Z.of_nat fuel) ->
  (forall j, 0 <= j < Z.min size (64 * idx) -> f j = false) ->
  exists r, find_first_loop fuel hit pos addr size idx = Some r /\ first_in f 0 size r.
Proof.
  intros Hs Hmiss Hhit. revert idx. induction fuel as [|fuel IH]; intros idx Hi Hle H0 Hfuel Hlow; [lia|].
  cbn [find_first_loop]. unfold BITS_PER_LONG. rewrite wrap_small by lia.
  destruct (Z.ltb_spec (idx * 64) size) as [Hin|Hout].
  - destruct (hit (addr idx)) eqn:E.
    + destruct (Hhit idx E) as (Hp & Ht & Hl). rewrite wrap_small by lia. eexists. split; [done|].
      replace (idx * 64) with (64 * idx) by lia. apply first_in_min; [lia|lia| |done].
      intros j Hj. destruct (Z_lt_ge_dec j (64 * idx)); [apply Hlow; lia|].
      replace j with (64 * idx + (j - 64 * idx)) by lia. apply Hl. lia.
    + rewrite wrap_small by lia. apply IH; [lia..|]. intros j Hj. destruct (Z_lt_ge_dec j (64 * idx)); [apply Hlow; lia|].
      replace j with (64 * idx + (j - 64 * idx)) by lia. apply (Hmiss idx E). lia.
  - exists size. split; [done|]. split; [lia|]. split; [|lia]. intros j Hj. apply Hlow. lia.
Qed.

Lemma words_enough size : 0 <= size -> size + 64 <= 64 * Z.of_nat (words size).
Proof.
  intros. unfold words, BITS_PER_LONG. pose proof (Z.div_pos size 64 ltac:(lia) ltac:(lia)).
  pose proof (Z.mod_pos_bound size 64 ltac:(lia)). pose proof (Z.div_mod size 64 ltac:(lia)). lia.
Qed.

Section arrays.
Context (addr : Z -> Z) (size : Z).
Hypothesis Haddr : forall i, uint 64 (addr i).
Hypothesis Hsize : 0 <= size <= 2 ^ 64 - 64.

Lemma find_first_bit_spec : exists r, find_first_bit addr size = Some r /\ first_in (abit addr) 0 size r.
Proof.
  pose proof (words_enough size). apply find_first_loop_spec; [lia| | |lia..|intros; lia].
  - intros i E j Hj. rewrite abit_word by done. apply negb_false_iff, Z.eqb_eq in E. by rewrite E, Z.bits_0.
  - intros i E. apply negb_true_iff, Z.eqb_neq in E. destruct (ffs_bits (addr i) (Haddr i) E) as (Hr & Ht & Hl).
    split; [done|]. rewrite abit_word by done. split; [done|]. intros j Hj. rewrite abit_word by lia. apply Hl. lia.
Qed.

Lemma find_first_zero_bit_spec : exists r, find_first_zero_bit addr size = Some r /\
  first_in (fun i => negb (abit addr i)) 0 size r.
Proof.
  pose proof (words_enough size). apply find_first_loop_spec; [lia| | |lia..|intros; lia].
  - intros i E j Hj. rewrite abit_word by done. apply negb_false_iff, Z.eqb_eq in E. rewrite E.
    change ULONG_MAX with (Z.ones 64). rewrite ones_spec by lia. lia.
  - intros i E. apply negb_true_iff, Z.eqb_neq in E.
    assert (forall j, 0 <= j < 64 -> Z.testbit (u64 (Z.lnot (addr i))) j = negb (Z.testbit (addr i) j)) as Hb.
    { intros j Hj. bit_rewrite. bit_cases. done. }
    destruct (ffs_bits (u64 (Z.lnot (addr i)))) as (Hr & Ht & Hl); [by apply uint_wrap| |].
    { intros E0. apply E. pose proof (Haddr i). change ULONG_MAX with (Z.ones 64).
      apply Z.bits_inj'. intros n Hn. rewrite ones_spec by lia. destruct (Z.ltb_spec n 64).
      - pose proof (Hb n ltac:(lia)) as Hb'. rewrite E0, Z.bits_0 in Hb'. apply eq_sym, negb_false_iff in Hb'. rewrite Hb'. lia.
      - rewrite (testbit_uint 64) by done. lia. }
    unfold ffz. split; [done|]. rewrite abit_word by done. rewrite <- Hb by done. split; [done|].
    intros j Hj. rewrite abit_word, <- Hb by lia. apply Hl. lia.
Qed.
(** The loop of find_last_bit: above word [idx] everything is clear. *)
Lemma find_last_loop_spec fuel val idx : 0 <= idx < Z.of_nat fuel -> 64 * idx < size -> uint 64 val ->
  (forall j, 0 <= j < 64 -> Z.testbit val j = (64 * idx + j <? size)) ->
  (forall j, 64 * idx + 64 <= j < size -> abit addr j = false) ->
  exists r, find_last_loop fuel addr size val idx = Some r /\ last_in (abit addr) size r.
Proof.
  revert val idx. induction fuel as [|fuel IH]; intros val idx Hi Hs Hv Hb Hhigh; [lia|]. cbn [find_last_loop].
  assert (forall j, 0 <= j < 64 -> Z.testbit (val .& addr idx) j = (64 * idx + j <? size) && abit addr (64 * idx + j)) as Hw.
  { intros j Hj. by rewrite Z.land_spec, Hb, abit_word. }
  assert (uint 64 (val .& addr idx)) as Hu by (apply uint_land; [lia|apply Hv|apply Haddr]).
  destruct (Z.eqb_spec (val .& addr idx) 0) as [E|E]; cbn [negb].
  - assert (forall j, 64 * idx <= j < size -> abit addr j = false) as Hlow.
    { intros j Hj. destruct (Z_lt_ge_dec j (64 * idx + 64)); [|apply Hhigh; lia].
      specialize (Hw (j - 64 * idx) ltac:(lia)). rewrite E, Z.bits_0 in Hw. replace (64 * idx + (j - 64 * idx)) with j in Hw by lia.
      destruct (Z.ltb_spec j size); [done|lia]. }
    destruct (Z.eqb_spec idx 0) as [->|]; cbn [negb].
    + exists size. split; [done|]. right. split; [done|]. intros j Hj. apply Hlow. lia.
    + apply IH; [lia|lia|by vm_compute| |intros; apply Hlow; lia]. intros j Hj. change ULONG_MAX with (Z.ones 64).
      rewrite ones_spec by lia. lia.
  - assert (0 < val .& addr idx < 2 ^ 64) by (destruct Hu; lia). rewrite fls_log2 by done.
    set (w := val .& addr idx) in *. pose proof (Z.bit_log2 w ltac:(lia)) as Ht. pose proof (Z.log2_nonneg w).
    assert (Z.log2 w < 64) by (apply Z.log2_lt_pow2; lia).
    rewrite Hw in Ht by lia. apply andb_prop in Ht as [Hin%Z.ltb_lt Ht].
    eexists. split; [done|]. unfold BITS_PER_LONG. replace (idx * 64) with (64 * idx) by lia. left. split; [lia|]. split; [done|].
    intros j Hj. destruct (Z_lt_ge_dec j (64 * idx + 64)); [|apply Hhigh; lia].
    pose proof (Hw (j - 64 * idx) ltac:(lia)) as Hj'. rewrite Z.bits_above_log2 in Hj' by lia.
    replace (64 * idx + (j - 64 * idx)) with j in Hj' by lia. destruct (Z.ltb_spec j size); [done|lia].
Qed.

Lemma last_word_mask j : 0 < size -> 0 <= j < 64 ->
  Z.testbit (BITMAP_LAST_WORD_MASK size) j = (64 * ((size - 1) / 64) + j <? size).
Proof.
  intros H0 Hj. unfold BITMAP_LAST_WORD_MASK. rewrite and_63.
  pose proof (Z.mod_pos_bound (size - 1) 64 ltac:(lia)). pose proof (Z.div_mod (size - 1) 64 ltac:(lia)).
  assert (u64 (- size) mod 64 = 63 - (size - 1) mod 64) as ->.
  { unfold wrap. change 64 with (2 ^ 6) at 2. rewrite Z.mod_mod_divide by (by exists (2 ^ 58)).
    symmetry. apply (Z.mod_unique _ _ (- ((size - 1) / 64) - 1)); change (2 ^ 6) with 64; lia. }
  change ULONG_MAX with (Z.ones 64). bit_rewrite. destruct (Z.ltb_spec (64 * ((size - 1) / 64) + j) size); bit_cases; done.
Qed.

Lemma find_last_bit_spec : exists r, find_last_bit addr size = Some r /\ last_in (abit addr) size r.
Proof.
  unfold find_last_bit, BITS_PER_LONG. destruct (Z.eqb_spec size 0) as [->|]; cbn [negb].
  { exists 0. split; [done|]. right. split; [done|]. lia. }
  pose proof (Z.mod_pos_bound (size - 1) 64 ltac:(lia)). pose proof (Z.div_mod (size - 1) 64 ltac:(lia)).
  pose proof (words_enough size ltac:(lia)). pose proof (Z.div_pos (size - 1) 64 ltac:(lia) ltac:(lia)).
  apply find_last_loop_spec; [lia|lia| |intros; apply last_word_mask; lia|lia].
  unfold BITMAP_LAST_WORD_MASK. apply uint_shiftr; [lia| |by vm_compute]. rewrite and_63. apply Z.mod_pos_bound. lia.
Qed.
End arrays.

(** C36: the searches in bit arrays. On an array of [size] bits, find_first_bit and
    find_first_zero_bit return the first set and the first clear bit, find_last_bit
    the last set bit, and find_next_bit, find_next_zero_bit and find_next_and_bit
    the first set, clear, or common set bit from [offset] on; each returns [size]
    when there is none. *)
Theorem bit_search_correct addr addr2 size offset : (forall i, uint 64 (addr i)) -> (forall i, uint 64 (addr2 i)) ->
  0 <= offset < size -> size <= 2 ^ 64 - 64 ->
  (exists r, find_first_bit addr size = Some r /\ first_in (abit addr) 0 size r) /\
  (exists r, find_first_zero_bit addr size = Some r /\ first_in (fun i => negb (abit addr i)) 0 size r) /\
  (exists r, find_last_bit addr size = Some r /\ last_in (abit addr) size r) /\
  (exists r, find_next_bit addr size offset = Some r /\ first_in (abit addr) offset size r) /\
  (exists r, find_next_zero_bit addr size offset = Some r /\ first_in (fun i => negb (abit addr i)) offset size r) /\
  (exists r, find_next_and_bit addr addr2 size offset = Some r /\ first_in (fun i => abit addr i && abit addr2 i) offset size r).
Proof.
  intros H1 H2 Ho Hs.
  split; [apply find_first_bit_spec; (done || lia)|]. split; [apply find_first_zero_bit_spec; (done || lia)|].
  split; [apply find_last_bit_spec; (done || lia)|].
  assert (forall f g r, (forall i, f i = g i) -> first_in f offset size r -> first_in g offset size r) as Hext.
  { intros f g r E (Hr & Hl & Ht). split; [done|]. split; intros; rewrite <- E; auto. }
  destruct (find_next_spec addr None size offset false H1) as (r1 & E1 & F1); [done..|].
  destruct (find_next_spec addr None size offset true H1) as (r2 & E2 & F2); [done..|].
  destruct (find_next_spec addr (Some addr2) size offset false H1) as (r3 & E3 & F3); [by intros a i [= <-]|done..|].
  split; [exists r1; split; [done|]; apply (Hext _ _ _ (fun i => xorb_false_r (abit addr i)) F1)|].
  split; [exists r2; split; [done|]; apply (Hext _ _ _ (fun i => xorb_true_r (abit addr i)) F2)|].
  exists r3. split; [done|]. apply (Hext _ _ _ (fun i => xorb_false_r (abit addr i && abit addr2 i)) F3).
Qed.

Lemma bit_search_correct_witness :
  let addr := fun i => if i =? 1 then 6 else 0 in
  exists r, find_next_bit addr 100 3 = Some r /\ first_in (abit addr) 3 100 r.
Proof.
  intros addr. assert (forall i, uint 64 (addr i)) as H by (intros i; unfold addr; destruct (i =? 1); by vm_compute).
  apply (bit_search_correct addr addr 100 3); [done|done|lia|lia].
Defined.

(** * Single bits *)

Lemma bit_index i nr : 0 <= i -> 0 <= nr -> BIT_WORD nr = BIT_WORD i ->
  (nr mod BITS_PER_LONG =? i mod BITS_PER_LONG) = (nr =? i).
Proof.
  unfold BIT_WORD, BITS_PER_LONG. intros Hi Hn E. pose proof (Z.div_mod i 64 ltac:(lia)). pose proof (Z.div_mod nr 64 ltac:(lia)).
  apply eq_true_iff_eq. rewrite !Z.eqb_eq. split; intros; [lia|]. by subst.
Qed.

Lemma bit_word_ne i nr : BIT_WORD nr <> BIT_WORD i -> (nr =? i) = false.
Proof. intros H. apply Z.eqb_neq. by intros ->. Qed.

Lemma bit_mod_spec nr j : 0 <= j -> Z.testbit (BIT_MOD nr) j = (nr mod BITS_PER_LONG =? j).
Proof.
  intros Hj. unfold BIT_MOD. pose proof (Z.mod_pos_bound nr BITS_PER_LONG ltac:(done)).
  rewrite Z.shiftl_1_l. apply Z.pow2_bits_eqb. lia.
Qed.

Lemma set_bit_spec nr addr i : 0 <= nr -> 0 <= i -> abit (set_bit nr addr) i = (nr =? i) || abit addr i.
Proof.
  intros Hn Hi. pose proof (Z.mod_pos_bound i BITS_PER_LONG ltac:(done)). unfold abit, set_bit. rewrite fn_insert_spec.
  destruct (decide (BIT_WORD nr = BIT_WORD i)) as [E|E]; [|by rewrite bit_word_ne].
  rewrite Z.lor_spec, bit_mod_spec, bit_index, E by (done || lia). apply orb_comm.
Qed.

Lemma clear_bit_spec nr addr i : 0 <= nr -> 0 <= i -> abit (clear_bit nr addr) i = negb (nr =? i) && abit addr i.
Proof.
  intros Hn Hi. pose proof (Z.mod_pos_bound i BITS_PER_LONG ltac:(done)). unfold abit, clear_bit. rewrite fn_insert_spec.
  destruct (decide (BIT_WORD nr = BIT_WORD i)) as [E|E]; [|by rewrite bit_word_ne].
  rewrite Z.land_spec, wrap_spec, Z.lnot_spec, bit_mod_spec, bit_index, E by (done || lia).
  rewrite (proj2 (Z.ltb_lt _ _)) by (unfold BITS_PER_LONG in *; lia). apply andb_comm.
Qed.

Lemma test_bit_spec nr addr : test_bit nr addr = Z.b2z (abit addr nr).
Proof.
  unfold test_bit, abit. rewrite and_63. pose proof (Z.mod_pos_bound nr 64 ltac:(lia)).
  rewrite Z.land_comm. change 1 with (Z.ones 1) at 1. rewrite Z.land_ones by lia. change (2 ^ 1) with 2.
  rewrite <- Z.bit0_mod. rewrite Z.shiftr_spec by lia. done.
Qed.
