(* ===== verification/Strings.v ===== *)
(** Strings: the searching, comparing and copying routines of kernel/string.c, and
    the word-at-a-time tests of include/asm/word-at-a-time.h that strscpy uses. A
    string is a run of non-zero bytes in memory that ends in a zero byte. Loops
    that run to the end of a string take fuel; [None] is running out of it. *)

From S2P Require Import Prelude Cstring Bytes Bitops.

Definition E2BIG : Z := 7.

(** * Bounded memory searches *)

(** memchr: the address found, or NULL ([None]). *)
Fixpoint memchr_loop (m : mem) (p c : Z) (n : nat) : option Z :=
  match n with
  | O => None
  | S n => if u8 c =? m p then Some p else memchr_loop m (p + 1) c n
  end.
Definition memchr (m : mem) (s c n : Z) : option Z := memchr_loop m s c (Z.to_nat n).

Fixpoint memcmp_loop (m : mem) (su1 su2 : Z) (count : nat) (res : Z) : Z :=
  match count with
  | O => res
  | S count =>
      let res := m su1 - m su2 in
      if negb (res =? 0) then res else memcmp_loop m (su1 + 1) (su2 + 1) count res
  end.
Definition memcmp (m : mem) (cs ct count : Z) : Z := memcmp_loop m cs ct (Z.to_nat count) 0.

(** memfind64 and memfind128, on an array of values: the index of the first
    occurrence, or [n]. *)
Fixpoint memfind_loop (s : Z -> Z) (v i : Z) (n : nat) : Z :=
  match n with
  | O => i
  | S n => if s i =? v then i else memfind_loop s v (i + 1) n
  end.
Definition memfind64 (s : Z -> Z) (v n : Z) : Z := memfind_loop s v 0 (Z.to_nat n).
Definition memfind128 (s : Z -> Z) (v n : Z) : Z := memfind_loop s v 0 (Z.to_nat n).

Fixpoint memset64_loop (m : mem) (xs v : Z) (count : nat) : mem :=
  match count with
  | O => m
  | S count => memset64_loop (store_le 64 8 m xs v) (xs + 8) v count
  end.
Definition memset64 (m : mem) (s v count : Z) : mem := memset64_loop m s v (Z.to_nat count).

(** * Strings *)

(** strchr: [Some None] is NULL. *)
Fixpoint strchr (fuel : nat) (m : mem) (s c : Z) : option (option Z) :=
  match fuel with
  | O => None
  | S fuel =>
      if negb (m s =? u8 c) then
        if m s =? 0 then Some None else strchr fuel m (s + 1) c
      else Some (Some s)
  end.

Fixpoint strcmp (fuel : nat) (m : mem) (cs ct : Z) : option Z :=
  match fuel with
  | O => None
  | S fuel =>
      let c1 := m cs in
      let c2 := m ct in
      if negb (c1 =? c2) then Some (if c1 <? c2 then -1 else 1)
      else if c1 =? 0 then Some 0 else strcmp fuel m (cs + 1) (ct + 1)
  end.

Fixpoint strncmp_loop (m : mem) (cs ct : Z) (count : nat) : Z :=
  match count with
  | O => 0
  | S count =>
      let c1 := m cs in
      let c2 := m ct in
      if negb (c1 =? c2) then (if c1 <? c2 then -1 else 1)
      else if c1 =? 0 then 0 else strncmp_loop m (cs + 1) (ct + 1) count
  end.
Definition strncmp (m : mem) (cs ct count : Z) : Z := strncmp_loop m cs ct (Z.to_nat count).

(** The end of the string at [sc]. *)
Fixpoint strend (fuel : nat) (m : mem) (sc : Z) : option Z :=
  match fuel with
  | O => None
  | S fuel => if negb (m sc =? 0) then strend fuel m (sc + 1) else Some sc
  end.
Definition strlen (fuel : nat) (m : mem) (s : Z) : option Z := sc ← strend fuel m s; Some (sc - s).

Fixpoint strnlen_loop (m : mem) (s sc : Z) (count : nat) : Z :=
  match count with
  | O => sc - s
  | S count => if negb (m sc =? 0) then strnlen_loop m s (sc + 1) count else sc - s
  end.
Definition strnlen (m : mem) (s count : Z) : Z := strnlen_loop m s s (Z.to_nat count).

(** The inner loop of strpbrk: whether the byte [c] is in the string at [sc2]. *)
Fixpoint strpbrk_in (fuel : nat) (m : mem) (c sc2 : Z) : option bool :=
  match fuel with
  | O => None
  | S fuel =>
      if negb (m sc2 =? 0) then (if c =? m sc2 then Some true else strpbrk_in fuel m c (sc2 + 1))
      else Some false
  end.
Fixpoint strpbrk (fuel : nat) (m : mem) (sc1 ct : Z) : option (option Z) :=
  match fuel with
  | O => None
  | S fuel' =>
      if negb (m sc1 =? 0) then
        b ← strpbrk_in fuel m (m sc1) ct;
        if (b : bool) then Some (Some sc1) else strpbrk fuel' m (sc1 + 1) ct
      else Some None
  end.

Fixpoint strrchr_loop (fuel : nat) (m : mem) (s c : Z) (last : option Z) : option (option Z) :=
  match fuel with
  | O => None
  | S fuel =>
      let last := if m s =? u8 c then Some s else last in
      if m s =? 0 then Some last else strrchr_loop fuel m (s + 1) c last
  end.
Definition strrchr (fuel : nat) (m : mem) (s c : Z) : option (option Z) := strrchr_loop fuel m s c None.

Definition kbasename (fuel : nat) (m : mem) (path : Z) : option Z :=
  tail ← strrchr fuel m path 47;
  Some match tail with Some tail => tail + 1 | None => path end.

(** strsep: the memory, the new value of [*s] and the token. *)
Definition strsep (fuel : nat) (m : mem) (s : option Z) (ct : Z) : option (mem * option Z * option Z) :=
  match s with
  | None => Some (m, None, None)
  | Some sbegin =>
      e ← strpbrk fuel m sbegin ct;
      Some match e with
        | Some e => (<[e := 0]> m, Some (e + 1), Some sbegin)
        | None => (m, None, Some sbegin)
        end
  end.

(** The loop of strstr, with [n] starting points left. *)
Fixpoint strstr_loop (m : mem) (s1 s2 l2 : Z) (n : nat) : option Z :=
  match n with
  | O => None
  | S n => if memcmp m s1 s2 l2 =? 0 then Some s1 else strstr_loop m (s1 + 1) s2 l2 n
  end.
Definition strstr (fuel : nat) (m : mem) (s1 s2 : Z) : option (option Z) :=
  l2 ← strlen fuel m s2;
  if l2 =? 0 then Some (Some s1) else
  l1 ← strlen fuel m s1;
  Some (strstr_loop m s1 s2 l2 (Z.to_nat (l1 - l2 + 1))).

(** * strscpy *)

Definition REPEAT_BYTE (x : Z) : Z := u64 ((ULONG_MAX / 0xff) * x).
Definition one_bits : Z := REPEAT_BYTE 0x01.
Definition high_bits : Z := REPEAT_BYTE 0x80.

Definition has_zero (val : Z) : Z := (u64 (val - one_bits) .& u64 (Z.lnot val)) .& high_bits.
Definition prep_zero_mask (val bits : Z) : Z := bits.
Definition create_zero_mask (bits : Z) : Z := (u64 (bits - 1) .& u64 (Z.lnot bits)) ≫ 7.
Definition find_zero (mask : Z) : Z := fls64 mask ≫ 3.
Definition zero_bytemask (mask : Z) : Z := mask.

(** Result of a copying loop: the function has returned, or goes on after [res] bytes. *)
Inductive copy := Done (m : mem) (r : Z) | More (m : mem) (res : Z).

(** [n] words. *)
Fixpoint strscpy_words (m : mem) (dest src res : Z) (n : nat) : copy :=
  match n with
  | O => More m res
  | S n =>
      let c := load_le 64 8 m (src + res) in
      let data := has_zero c in
      if negb (data =? 0) then
        let data := prep_zero_mask c data in
        let data := create_zero_mask data in
        Done (store_le 64 8 m (dest + res) (c .& zero_bytemask data)) (res + find_zero data)
      else strscpy_words (store_le 64 8 m (dest + res) c) dest src (res + 8) n
  end.

(** [n] bytes. *)
Fixpoint strscpy_bytes (m : mem) (dest src res : Z) (n : nat) : copy :=
  match n with
  | O => More m res
  | S n =>
      let c := m (src + res) in
      let m := <[dest + res := c]> m in
      if c =? 0 then Done m res else strscpy_bytes m dest src (res + 1) n
  end.

(** The memory and the result. *)
Definition strscpy (m : mem) (dest src count : Z) : mem * Z :=
  if count =? 0 then (m, - E2BIG) else
  let max := if negb ((dest .| src) .& 7 =? 0) then 0 else count in
  match strscpy_words m dest src 0 (Z.to_nat (max / 8)) with
  | Done m r => (m, r)
  | More m res =>
      match strscpy_bytes m dest src res (Z.to_nat (count - res)) with
      | Done m r => (m, r)
      | More m res => ((if negb (res =? 0) then <[dest + (res - 1) := 0]> m else m), - E2BIG)
      end
  end.

(** * Zero bytes in a word *)

(** 1 in each of the [n] low bytes. *)
Fixpoint ones_in (n : nat) : Z := match n with O => 0 | S n => 1 + 256 * ones_in n end.

Lemma ones_in_8 : one_bits = ones_in 8 /\ high_bits = 128 * ones_in 8.
Proof. by vm_compute. Qed.

(** The test of has_zero on the [n] low bytes. *)
Definition zero_test (n : nat) (x : Z) : Z := ((x - ones_in n) .& Z.lnot x) .& (128 * ones_in n).

Lemma ones_in_bound n : 0 <= 255 * ones_in n < 2 ^ (8 * Z.of_nat n).
Proof.
  induction n as [|n IH]; [by vm_compute|]. cbn [ones_in].
  replace (8 * Z.of_nat (S n)) with (8 + 8 * Z.of_nat n) by lia. rewrite Z.pow_add_r by lia. change (2 ^ 8) with 256. lia.
Qed.

Lemma byte_add a b n : 0 <= a < 256 -> 0 <= n -> Z.testbit (a + 256 * b) n = if n <? 8 then Z.testbit a n else Z.testbit b (n - 8).
Proof.
  intros Ha Hn. destruct (Z.ltb_spec n 8).
  - rewrite <- (Z.mod_pow2_bits_low _ 8) by lia. f_equal. change (2 ^ 8) with 256.
    symmetry. apply (Z.mod_unique _ _ b); lia.
  - replace n with (n - 8 + 8) at 1 by lia. rewrite <- Z.div_pow2_bits by lia. f_equal. change (2 ^ 8) with 256.
    symmetry. apply (Z.div_unique _ _ _ a); lia.
Qed.

(** One more byte: a byte other than zero adds nothing, and no borrow. *)
Lemma zero_test_nonzero n b y : 0 < b < 256 -> zero_test (S n) (b + 256 * y) = 256 * zero_test n y.
Proof.
  intros Hb. unfold zero_test. cbn [ones_in].
  replace (b + 256 * y - (1 + 256 * ones_in n)) with ((b - 1) + 256 * (y - ones_in n)) by lia.
  replace (Z.lnot (b + 256 * y)) with ((255 - b) + 256 * Z.lnot y) by (unfold Z.lnot; lia).
  replace (128 * (1 + 256 * ones_in n)) with (128 + 256 * (128 * ones_in n)) by lia.
  apply Z.bits_inj'. intros k Hk. rewrite !Z.land_spec, !byte_add by lia.
  rewrite (byte_add 0 ((y - ones_in n) .& Z.lnot y .& (128 * ones_in n))) by lia.
  destruct (Z.ltb_spec k 8); [|by rewrite !Z.land_spec]. rewrite Z.bits_0. change 128 with (2 ^ 7). rewrite Z.pow2_bits_eqb by lia.
  destruct (Z.eqb_spec 7 k) as [<-|]; [|apply andb_false_r]. rewrite andb_true_r, !Z.testbit_eqb by lia.
  change (2 ^ 7) with 128. destruct (Z_lt_ge_dec b 129) as [|].
  - rewrite (Z.div_small (b - 1)) by lia. done.
  - rewrite (Z.div_small (255 - b)) by lia. apply andb_false_r.
Qed.

Lemma zero_test_zero n y : exists q, zero_test (S n) (0 + 256 * y) = (2 * q + 1) * 2 ^ 7.
Proof.
  set (z := zero_test _ _). exists (z / 2 ^ 8).
  assert (z mod 2 ^ 8 = 2 ^ 7) as E.
  { apply Z.bits_inj'. intros k Hk. rewrite Z.pow2_bits_eqb by lia. destruct (Z_lt_ge_dec k 8).
    - rewrite Z.mod_pow2_bits_low by lia. unfold z, zero_test. cbn [ones_in].
      replace (0 + 256 * y - (1 + 256 * ones_in n)) with (255 + 256 * (y - ones_in n - 1)) by lia.
      replace (Z.lnot (0 + 256 * y)) with (255 + 256 * Z.lnot y) by (unfold Z.lnot; lia).
      replace (128 * (1 + 256 * ones_in n)) with (128 + 256 * (128 * ones_in n)) by lia.
      rewrite !Z.land_spec, !byte_add by lia. rewrite (proj2 (Z.ltb_lt k 8)) by lia. change 255 with (Z.ones 8).
      rewrite ones_spec by lia. change 128 with (2 ^ 7). rewrite Z.pow2_bits_eqb by lia. lia.
    - rewrite Z.mod_pow2_bits_high by lia. lia. }
  pose proof (Z.div_mod z (2 ^ 8) ltac:(lia)). change (2 ^ 8) with 256 in *. change (2 ^ 7) with 128 in *. lia.
Qed.

(** The position of the first zero byte of a list of bytes. *)
Fixpoint first_zero (l : list Z) : option nat :=
  match l with
  | [] => None
  | b :: l => if b =? 0 then Some O else S <$> first_zero l
  end.

Lemma of_bytes_cons b l : uint 8 b -> of_bytes (b :: l) = b + 256 * of_bytes l.
Proof.
  intros Hb. cbn [of_bytes]. apply Z.bits_inj'. intros k Hk. rewrite byte_add by (done || unfold uint in Hb; lia). bit_rewrite.
  destruct (Z.ltb_spec k 8); [rewrite (Z.testbit_neg_r (of_bytes l)) by lia; apply orb_false_r|].
  by rewrite (testbit_uint 8) by done.
Qed.

(** The lowest bit of the test marks the first zero byte. *)
Lemma zero_test_spec l : (forall b, b ∈ l -> uint 8 b) ->
  match first_zero l with
  | None => zero_test (length l) (of_bytes l) = 0
  | Some k => exists q, zero_test (length l) (of_bytes l) = (2 * q + 1) * 2 ^ (8 * Z.of_nat k + 7)
  end.
Proof.
  induction l as [|b l IH]; intros Hl; [done|]. cbn [first_zero length].
  assert (uint 8 b) as Hb by (apply Hl; by left). rewrite of_bytes_cons by done.
  destruct (Z.eqb_spec b 0) as [->|Hne]; [apply zero_test_zero|].
  rewrite zero_test_nonzero by (unfold uint in Hb; lia). specialize (IH (fun x Hx => Hl x (list_elem_of_further _ _ _ Hx))).
  destruct (first_zero l) as [k|]; cbn [fmap option_fmap option_map]; [|lia].
  destruct IH as [q ->]. exists q. replace (8 * Z.of_nat (S k) + 7) with (8 + (8 * Z.of_nat k + 7)) by lia.
  rewrite (Z.pow_add_r 2 8) by lia. change (2 ^ 8) with 256. ring.
Qed.

Lemma has_zero_test x : has_zero x = zero_test 8 x.
Proof.
  unfold has_zero, zero_test. destruct ones_in_8 as [-> ->].
  assert (uint 64 (128 * ones_in 8)) by (by vm_compute). set (h := 128 * ones_in 8) in *. clearbody h. zbits.
Qed.

Lemma has_zero_range x : uint 64 (has_zero x).
Proof. unfold has_zero. apply uint_land; [lia| |by vm_compute]. apply Z.land_nonneg. left. by apply uint_wrap. Qed.

(** The bits below the lowest set bit. *)
Lemma low_mask q j : 0 <= j -> ((2 * q + 1) * 2 ^ j - 1) .& Z.lnot ((2 * q + 1) * 2 ^ j) = Z.ones j.
Proof.
  intros Hj. apply Z.bits_inj'. intros n Hn. rewrite Z.land_spec, Z.lnot_spec, ones_spec, Z.mul_pow2_bits by lia.
  assert (0 < 2 ^ j) by (apply Z.pow_pos_nonneg; lia). destruct (Z.ltb_spec n j).
  - rewrite (Z.testbit_neg_r (2 * q + 1)) by lia. rewrite <- (Z.mod_pow2_bits_low _ j) by lia.
    replace (((2 * q + 1) * 2 ^ j - 1) mod 2 ^ j) with (Z.ones j).
    + rewrite ones_spec by lia. lia.
    + rewrite Z.ones_equiv. apply (Z.mod_unique _ _ (2 * q)); lia.
  - replace n with (n - j + j) at 1 by lia. rewrite <- Z.div_pow2_bits by lia.
    replace (((2 * q + 1) * 2 ^ j - 1) / 2 ^ j) with (2 * q) by (apply (Z.div_unique _ _ _ (2 ^ j - 1)); lia).
    destruct (Z.eqb_spec n j) as [->|].
    + rewrite Z.sub_diag, Z.testbit_even_0. lia.
    + replace (n - j) with (Z.succ (n - j - 1)) by lia. rewrite Z.testbit_even_succ, Z.testbit_odd_succ by lia.
      destruct (Z.testbit q _); lia.
Qed.

Lemma create_zero_mask_spec q k : 0 <= k < 8 -> uint 64 ((2 * q + 1) * 2 ^ (8 * k + 7)) ->
  create_zero_mask ((2 * q + 1) * 2 ^ (8 * k + 7)) = Z.ones (8 * k).
Proof.
  intros Hk Hu. unfold create_zero_mask. set (b := _ * 2 ^ _) in *.
  replace (u64 (b - 1) .& u64 (Z.lnot b)) with (u64 ((b - 1) .& Z.lnot b)) by zbits.
  unfold b. rewrite low_mask by lia. zbits.
Qed.

Lemma find_zero_spec k : 0 <= k < 8 -> find_zero (Z.ones (8 * k)) = k.
Proof.
  intros Hk. assert (k ∈ [0; 1; 2; 3; 4; 5; 6; 7]) as Hi by (rewrite !elem_of_cons; lia).
  each_of Hi; by vm_compute.
Qed.

(** * Words in memory *)

(** Bytes of the memory from [a] on. *)
Fixpoint bytes_at (m : mem) (a : Z) (n : nat) : list Z :=
  match n with
  | O => []
  | S n => m a :: bytes_at m (a + 1) n
  end.

Lemma bytes_at_length m a n : length (bytes_at m a n) = n.
Proof. revert a. induction n as [|n IH]; intros a; cbn; by rewrite ?IH. Qed.

Lemma bytes_at_lookup m a n i : (i < n)%nat -> bytes_at m a n !! i = Some (m (a + Z.of_nat i)).
Proof.
  revert a i. induction n as [|n IH]; intros a [|i] Hi; [lia|lia|cbn; by rewrite Z.add_0_r|].
  cbn. rewrite IH by lia. do 2 f_equal. lia.
Qed.

Definition mem_ok (m : mem) : Prop := forall a, uint 8 (m a).

Lemma bytes_at_ok m a n b : mem_ok m -> b ∈ bytes_at m a n -> uint 8 b.
Proof.
  intros Hm. revert a. induction n as [|n IH]; intros a; cbn; [by intros ?%not_elem_of_nil|].
  intros [->|Hb]%elem_of_cons; [apply Hm|by eapply IH].
Qed.

Lemma read_bytes_at m a n : mem_ok m -> 0 <= a -> a + Z.of_nat n <= 2 ^ 64 -> read_bytes 64 n m a = bytes_at m a n.
Proof.
  intros Hm. revert a. induction n as [|n IH]; intros a H0 H1; [done|]. cbn [read_bytes bytes_at].
  rewrite (wrap_small 64 a), (wrap_small 8 (m a)) by (lia || apply Hm). f_equal. apply IH; lia.
Qed.

Lemma write_bytes_spec m a l x : 0 <= a -> a + Z.of_nat (length l) <= 2 ^ 64 ->
  write_bytes 64 m a l x = if in_range x a (Z.of_nat (length l)) then default 0 (l !! Z.to_nat (x - a)) else m x.
Proof.
  revert m a. induction l as [|b l IH]; intros m a H0 H1; cbn [write_bytes length] in *; [range_cases; (lia || done)|].
  rewrite IH by lia. rewrite (wrap_small 64 a) by lia. range_cases; try lia.
  - replace (Z.to_nat (x - a)) with (S (Z.to_nat (x - (a + 1)))) by lia. done.
  - assert (x = a) as -> by lia. rewrite Z.sub_diag. cbn. apply fn_lookup_insert.
  - apply fn_lookup_insert_ne. lia.
Qed.

Lemma to_bytes_lookup n x i : (i < n)%nat -> to_bytes n x !! i = Some (u8 (x ≫ (8 * Z.of_nat i))).
Proof.
  revert x i. induction n as [|n IH]; intros x [|i] Hi; [lia|lia|done|]. cbn. rewrite IH by lia.
  rewrite Z.shiftr_shiftr by lia. do 3 f_equal. lia.
Qed.

Lemma load_bytes m a : mem_ok m -> 0 <= a -> a + 8 <= 2 ^ 64 ->
  to_bytes 8 (load_le 64 8 m a) = bytes_at m a 8 /\ load_le 64 8 m a = of_bytes (bytes_at m a 8).
Proof.
  intros Hm H0 H1. assert (load_le 64 8 m a = of_bytes (bytes_at m a 8)) as E by (unfold load_le; rewrite read_bytes_at by (done || lia); done).
  split; [|done]. rewrite E. rewrite <- (bytes_at_length m a 8) at 1. apply to_of_bytes. intros b. by apply bytes_at_ok.
Qed.

(** Byte [i] of a loaded word. *)
Lemma load_byte m a i : mem_ok m -> 0 <= a -> a + 8 <= 2 ^ 64 -> 0 <= i < 8 ->
  u8 (load_le 64 8 m a ≫ (8 * i)) = m (a + i).
Proof.
  intros Hm H0 H1 Hi. destruct (load_bytes m a Hm H0 H1) as [E _].
  pose proof (to_bytes_lookup 8 (load_le 64 8 m a) (Z.to_nat i) ltac:(lia)) as L.
  rewrite E, bytes_at_lookup, !Z2Nat.id in L by lia. by injection L.
Qed.

(** Storing a loaded word, cut to its first [k] bytes. *)
Lemma copy_word m d s k x : mem_ok m -> 0 <= s -> s + 8 <= 2 ^ 64 -> 0 <= d -> d + 8 <= 2 ^ 64 -> 0 <= k <= 8 ->
  store_le 64 8 m d (load_le 64 8 m s .& Z.ones (8 * k)) x =
  if in_range x d 8 then (if x - d <? k then m (x - d + s) else 0) else m x.
Proof.
  intros Hm Hs0 Hs1 Hd0 Hd1 Hk. unfold store_le. rewrite write_bytes_spec, to_bytes_length by (rewrite ?to_bytes_length; lia).
  change (Z.of_nat 8) with 8. destruct (in_range x d 8) eqn:E; [|done]. apply in_range_true in E.
  rewrite to_bytes_lookup by lia. cbv [from_option id]. rewrite Z2Nat.id by lia. set (c := load_le 64 8 m s).
  destruct (Z.ltb_spec (x - d) k).
  - replace (x - d + s) with (s + (x - d)) by lia. rewrite <- load_byte by (done || lia). fold c. zbits.
  - zbits.
Qed.

Lemma copy_word_all m d s x : mem_ok m -> 0 <= s -> s + 8 <= 2 ^ 64 -> 0 <= d -> d + 8 <= 2 ^ 64 ->
  store_le 64 8 m d (load_le 64 8 m s) x = if in_range x d 8 then m (x - d + s) else m x.
Proof.
  intros. replace (load_le 64 8 m s) with (load_le 64 8 m s .& Z.ones (8 * 8)).
  - rewrite copy_word by (done || lia). range_cases; [|done]. by rewrite (proj2 (Z.ltb_lt _ _)) by lia.
  - pose proof (load_le_range 64 8 m s) as Hr. rewrite Z.land_ones by lia. apply Z.mod_small, Hr.
Qed.

(** The first zero byte at or after [a], within [n] bytes. *)
Lemma first_zero_at m a n : match first_zero (bytes_at m a n) with
  | None => forall i, 0 <= i < Z.of_nat n -> m (a + i) <> 0
  | Some k => (k < n)%nat /\ m (a + Z.of_nat k) = 0 /\ forall i, 0 <= i < Z.of_nat k -> m (a + i) <> 0
  end.
Proof.
  revert a. induction n as [|n IH]; intros a; cbn [bytes_at first_zero]; [lia|].
  destruct (Z.eqb_spec (m a) 0) as [E|E]; [rewrite Z.add_0_r; split; [lia|split; [done|lia]]|].
  specialize (IH (a + 1)). destruct (first_zero _) as [k|]; cbn [fmap option_fmap option_map].
  - destruct IH as (Hk & Hz & Hl). split; [lia|]. split; [rewrite <- Hz; f_equal; lia|].
    intros i Hi. destruct (Z.eq_dec i 0) as [->|]; [by rewrite Z.add_0_r|].
    replace (a + i) with (a + 1 + (i - 1)) by lia. apply Hl. lia.
  - intros i Hi. destruct (Z.eq_dec i 0) as [->|]; [by rewrite Z.add_0_r|].
    replace (a + i) with (a + 1 + (i - 1)) by lia. apply IH. lia.
Qed.

(** * strscpy *)

Section strscpy.
Context (m : mem) (dest src count : Z).
Hypothesis Hm : mem_ok m.
Hypothesis Hdest : 0 <= dest /\ dest + count <= 2 ^ 64.
Hypothesis Hsrc : 0 <= src /\ src + count <= 2 ^ 64.
Hypothesis Hsep : dest + count <= src \/ src + count <= dest.

(** [res] bytes, none of them zero, have been copied. *)
Definition copied (m1 : mem) (res : Z) : Prop :=
  0 <= res <= count /\ (forall i, 0 <= i < res -> m (src + i) <> 0) /\
  forall a, m1 a = if in_range a dest res then m (a - dest + src) else m a.

(** The string of length [n] and its zero byte have been copied. *)
Definition copied_all (m1 : mem) (n : Z) : Prop :=
  0 <= n < count /\ m (src + n) = 0 /\ (forall i, 0 <= i < n -> m (src + i) <> 0) /\
  (forall i, 0 <= i <= n -> m1 (dest + i) = m (src + i)) /\
  forall a, in_range a dest count = false -> m1 a = m a.

Lemma copied_src m1 res i : copied m1 res -> 0 <= i < count -> m1 (src + i) = m (src + i).
Proof. intros (Hr & _ & E) Hi. rewrite E. range_cases; [lia|done]. Qed.

Lemma copied_ok m1 res : copied m1 res -> mem_ok m1.
Proof. intros (_ & _ & E) a. rewrite E. destruct (in_range _ _ _); apply Hm. Qed.

Lemma words_spec n m1 res : copied m1 res -> res + 8 * Z.of_nat n <= count ->
  match strscpy_words m1 dest src res n with
  | Done m' r => copied_all m' r
  | More m' res' => res' = res + 8 * Z.of_nat n /\ copied m' res'
  end.
Proof.
  revert m1 res. induction n as [|n IH]; intros m1 res Hc Hn; cbn [strscpy_words]; [split; [lia|done]|].
  pose proof (copied_ok _ _ Hc) as Hm1. pose proof Hc as (Hr & Hnz & E).
  rewrite has_zero_test. destruct (load_bytes m1 (src + res)) as [_ El]; [done|lia..|].
  pose proof (zero_test_spec (bytes_at m1 (src + res) 8) (fun b => bytes_at_ok _ _ _ b Hm1)) as Hz.
  rewrite bytes_at_length, <- El in Hz. pose proof (first_zero_at m1 (src + res) 8) as Hf.
  assert (forall i, 0 <= i < 8 -> m1 (src + res + i) = m (src + (res + i))) as Hrd.
  { intros i Hi. rewrite <- Z.add_assoc. apply (copied_src m1 res); [done|lia]. }
  destruct (first_zero _) as [k|].
  - destruct Hz as [q Eq]. destruct Hf as (Hk & Hz & Hl). 
    assert (zero_test 8 (load_le 64 8 m1 (src + res)) <> 0) as Hne.
    { rewrite Eq. apply Z.neq_mul_0. split; [lia|]. apply Z.pow_nonzero; lia. }
    rewrite (proj2 (Z.eqb_neq _ _) Hne). cbn [negb]. unfold prep_zero_mask, zero_bytemask.
    pose proof (has_zero_range (load_le 64 8 m1 (src + res))) as Hu. rewrite has_zero_test in Hu. rewrite Eq in *.
    rewrite create_zero_mask_spec, find_zero_spec by (done || lia).
    split; [lia|]. split; [rewrite <- (Hrd (Z.of_nat k)) by lia; done|]. split; [|split].
    + intros i Hi. destruct (Z_lt_ge_dec i res); [apply Hnz; lia|]. replace i with (res + (i - res)) by lia.
      rewrite <- Hrd by lia. apply Hl. lia.
    + intros i Hi. rewrite copy_word by (done || lia). range_cases.
      * destruct (Z.ltb_spec (dest + i - (dest + res)) (Z.of_nat k)).
        { replace (dest + i - (dest + res) + (src + res)) with (src + res + (i - res)) by lia. rewrite Hrd by lia. f_equal. lia. }
        assert (i = res + Z.of_nat k) as -> by lia. rewrite <- (Hrd (Z.of_nat k)) by lia. done.
      * rewrite E. range_cases; [|lia]. f_equal. lia.
    + intros a Ha%in_range_false. rewrite copy_word by (done || lia). range_cases; [lia|]. rewrite E. range_cases; [lia|done].
  - rewrite Hz. cbn [negb Z.eqb]. replace (res + 8 * Z.of_nat (S n)) with (res + 8 + 8 * Z.of_nat n) by lia.
    apply IH; [|lia]. split; [lia|]. split.
    + intros i Hi. destruct (Z_lt_ge_dec i res); [apply Hnz; lia|]. replace i with (res + (i - res)) by lia.
      rewrite <- Hrd by lia. apply Hf. lia.
    + intros a. rewrite copy_word_all by (done || lia). range_cases; try lia; rewrite ?E; range_cases; try lia; try done.
      all: try (replace (a - (dest + res) + (src + res)) with (src + (a - dest)) by lia); try (f_equal; lia).
Qed.

Lemma bytes_spec n m1 res : copied m1 res -> res + Z.of_nat n <= count ->
  match strscpy_bytes m1 dest src res n with
  | Done m' r => copied_all m' r
  | More m' res' => res' = res + Z.of_nat n /\ copied m' res'
  end.
Proof.
  revert m1 res. induction n as [|n IH]; intros m1 res Hc Hn; cbn [strscpy_bytes]; [split; [lia|done]|].
  pose proof Hc as (Hr & Hnz & E). rewrite (copied_src m1 res res) by (done || lia).
  destruct (Z.eqb_spec (m (src + res)) 0) as [Hz|Hz].
  - split; [lia|]. split; [done|]. split; [done|]. split.
    + intros i Hi. destruct (Z.eq_dec i res) as [->|]; [apply fn_lookup_insert|].
      rewrite fn_lookup_insert_ne, E by lia. range_cases; [|lia]. f_equal. lia.
    + intros a Ha%in_range_false. rewrite fn_lookup_insert_ne, E by lia. range_cases; [lia|done].
  - replace (res + Z.of_nat (S n)) with (res + 1 + Z.of_nat n) by lia. apply IH; [|lia]. split; [lia|]. split.
    + intros i Hi. destruct (Z.eq_dec i res) as [->|]; [done|]. apply Hnz. lia.
    + intros a. destruct (Z.eq_dec a (dest + res)) as [->|].
      * rewrite fn_lookup_insert. range_cases; [|lia]. f_equal. lia.
      * rewrite fn_lookup_insert_ne, E by lia. range_cases; (lia || done).
Qed.

(** No zero byte among [count]: the copy is cut and terminated. *)
Definition truncated (m1 : mem) : Prop :=
  (forall i, 0 <= i < count -> m (src + i) <> 0) /\
  (forall i, 0 <= i < count - 1 -> m1 (dest + i) = m (src + i)) /\ (0 < count -> m1 (dest + (count - 1)) = 0) /\
  forall a, in_range a dest count = false -> m1 a = m a.

Lemma strscpy_spec : 0 <= count -> let '(m', r) := strscpy m dest src count in
  (0 <= r /\ copied_all m' r) \/ (r = - E2BIG /\ truncated m').
Proof.
  intros H0. unfold strscpy. destruct (Z.eqb_spec count 0) as [E0|E0].
  { right. split; [done|]. by repeat (split; [lia|]). }
  set (max := if negb ((dest .| src) .& 7 =? 0) then 0 else count).
  assert (0 <= max / 8 /\ 8 * (max / 8) <= count) as [Hmax0 Hmax].
  { assert (0 <= max <= count) by (unfold max; destruct (negb _); lia). pose proof (Z.mul_div_le max 8). pose proof (Z.div_pos max 8). lia. }
  assert (copied m 0) as Hc0 by (split; [lia|split; [lia|intros a; range_cases; (lia || done)]]).
  pose proof (words_spec (Z.to_nat (max / 8)) m 0 Hc0 ltac:(lia)) as Hw.
  destruct (strscpy_words _ _ _ _ _) as [m1 r|m1 res]; [left; split; [apply Hw|done]|]. destruct Hw as [Er Hc].
  pose proof (bytes_spec (Z.to_nat (count - res)) m1 res Hc ltac:(lia)) as Hb.
  destruct (strscpy_bytes _ _ _ _ _) as [m2 r|m2 res2]; [left; split; [apply Hb|done]|]. destruct Hb as [Er2 (Hr2 & Hnz & E)].
  right. split; [done|]. replace res2 with count in * by lia. rewrite (proj2 (Z.eqb_neq count 0)) by done. cbn [negb].
  split; [done|]. split; [|split].
  - intros i Hi. rewrite fn_lookup_insert_ne, E by lia. range_cases; [|lia]. f_equal. lia.
  - intros _. apply fn_lookup_insert.
  - intros a Ha. pose proof Ha as Ha'%in_range_false. rewrite fn_lookup_insert_ne, E, Ha by lia. done.
Qed.
End strscpy.

(** C35: strscpy, whether it copies words or bytes. When the source has a zero byte
    within [count] bytes, the result is the length of the string, and the string
    with its zero byte is in the destination; otherwise the result is -E2BIG and
    the destination, if it has room at all, holds the first [count - 1] bytes and
    a zero byte. Nothing outside the destination buffer changes. *)
Theorem strscpy_correct m dest src count : mem_ok m -> 0 <= count ->
  0 <= dest /\ dest + count <= 2 ^ 64 -> 0 <= src /\ src + count <= 2 ^ 64 ->
  dest + count <= src \/ src + count <= dest ->
  let '(m', r) := strscpy m dest src count in
  (0 <= r /\ copied_all m dest src count m' r) \/ (r = - E2BIG /\ truncated m dest src count m').
Proof. intros Hm H0 Hd Hs Hsep. by apply strscpy_spec. Qed.

Lemma strscpy_correct_witness :
  let m := fun a => if (16 <=? a) && (a <? 29) then 65 else 0 in
  let '(m', r) := strscpy m 64 16 32 in
  (0 <= r /\ copied_all m 64 16 32 m' r) \/ (r = - E2BIG /\ truncated m 64 16 32 m').
Proof.
  intros m. apply (strscpy_correct m 64 16 32); [|lia..]. intros a. unfold m. destruct (_ && _); by vm_compute.
Defined.

(** * Strings as lists *)

(** The string at [s] consists of the bytes [l]. *)
Fixpoint cstr (m : mem) (s : Z) (l : list Z) : Prop :=
  match l with
  | [] => m s = 0
  | b :: l => m s = b /\ 0 < b /\ cstr m (s + 1) l
  end.

Lemma strend_spec fuel m s l : cstr m s l -> (length l < fuel)%nat -> strend fuel m s = Some (s + Z.of_nat (length l)).
Proof.
  revert fuel s. induction l as [|b l IH]; intros [|fuel] s H Hf; cbn [strend cstr length] in *; try lia.
  - rewrite H. cbn. f_equal. lia.
  - destruct H as (-> & Hb & H). rewrite (proj2 (Z.eqb_neq b 0)) by lia. cbn [negb]. rewrite IH by (done || lia). f_equal. lia.
Qed.

Lemma strlen_spec fuel m s l : cstr m s l -> (length l < fuel)%nat -> strlen fuel m s = Some (Z.of_nat (length l)).
Proof. intros H Hf. unfold strlen. rewrite (strend_spec fuel m s l) by done. cbn. f_equal. lia. Qed.

Lemma strnlen_spec m s l count : cstr m s l -> 0 <= count -> strnlen m s count = Z.min count (Z.of_nat (length l)).
Proof.
  intros H Hc. unfold strnlen. enough (forall n sc, cstr m sc l -> strnlen_loop m s sc n = sc - s + Z.min (Z.of_nat n) (Z.of_nat (length l))) as E.
  { rewrite (E _ s H). lia. }
  clear H. induction l as [|b l IH]; intros [|n] sc H; cbn [strnlen_loop cstr length] in *; [lia| |lia|].
  - rewrite H. cbn. lia.
  - destruct H as (-> & Hb & H). rewrite (proj2 (Z.eqb_neq b 0)) by lia. cbn [negb]. rewrite IH by done. lia.
Qed.

(** Lexicographic order, as strcmp reports it. *)
Fixpoint lexcmp (l1 l2 : list Z) : Z :=
  match l1, l2 with
  | [], [] => 0
  | [], _ :: _ => -1
  | _ :: _, [] => 1
  | a :: l1, b :: l2 => if a =? b then lexcmp l1 l2 else if a <? b then -1 else 1
  end.

Lemma strcmp_spec fuel m s1 s2 l1 l2 : cstr m s1 l1 -> cstr m s2 l2 -> (length l1 < fuel)%nat ->
  strcmp fuel m s1 s2 = Some (lexcmp l1 l2).
Proof.
  revert fuel s1 s2 l2. induction l1 as [|a l1 IH]; intros [|fuel] s1 s2 [|b l2] H1 H2 Hf; cbn [length] in Hf; try lia;
    cbn [strcmp cstr lexcmp] in *.
  - by rewrite H1, H2.
  - destruct H2 as (-> & Hb & _). rewrite H1, (proj2 (Z.eqb_neq 0 b)), (proj2 (Z.ltb_lt 0 b)) by lia. done.
  - destruct H1 as (-> & Ha & _). rewrite H2, (proj2 (Z.eqb_neq a 0)), (proj2 (Z.ltb_ge a 0)) by lia. done.
  - destruct H1 as (-> & Ha & H1), H2 as (-> & Hb & H2). destruct (Z.eqb_spec a b) as [<-|]; cbn [negb]; [|done].
    rewrite (proj2 (Z.eqb_neq a 0)) by lia. apply IH; (done || lia).
Qed.

(** strcmp reports equality of the strings. *)
Lemma lexcmp_eq l1 l2 : lexcmp l1 l2 = 0 <-> l1 = l2.
Proof.
  revert l2. induction l1 as [|a l1 IH]; intros [|b l2]; cbn [lexcmp]; try done.
  destruct (Z.eqb_spec a b) as [->|]; [rewrite IH; naive_solver|]. destruct (_ <? _); naive_solver.
Qed.

Lemma memcmp_eq m cs ct count : 0 <= count -> memcmp m cs ct count = 0 <-> forall i, 0 <= i < count -> m (cs + i) = m (ct + i).
Proof.
  intros Hc. unfold memcmp. set (n := Z.to_nat count). replace count with (Z.of_nat n) by lia. clearbody n. clear Hc.
  revert cs ct. induction n as [|n IH]; intros cs ct; cbn [memcmp_loop]; [split; [lia|done]|].
  destruct (Z.eqb_spec (m cs - m ct) 0) as [E|E]; cbn [negb].
  - rewrite E, IH. split.
    + intros H i Hi. destruct (Z.eq_dec i 0) as [->|]; [rewrite !Z.add_0_r; lia|].
      replace (cs + i) with (cs + 1 + (i - 1)) by lia. replace (ct + i) with (ct + 1 + (i - 1)) by lia. apply H. lia.
    + intros H i Hi. rewrite <- !Z.add_assoc. apply H. lia.
  - split; [lia|]. intros H. specialize (H 0 ltac:(lia)). rewrite !Z.add_0_r in H. lia.
Qed.

(** [needle] occurs in [m] at [a]. *)
Definition occurs (m : mem) (s2 l2 a : Z) : Prop := forall i, 0 <= i < l2 -> m (a + i) = m (s2 + i).

(** strstr returns the first place, within the first string, where the second occurs. *)
Lemma strstr_spec fuel m s1 s2 l1 l2 : cstr m s1 l1 -> cstr m s2 l2 -> (length l1 < fuel)%nat -> (length l2 < fuel)%nat ->
  exists r, strstr fuel m s1 s2 = Some r /\
  let n := Z.of_nat (length l2) in let hi := s1 + Z.of_nat (length l1) - n in
  match r with
  | Some a => occurs m s2 n a /\ s1 <= a /\ (0 < n -> a <= hi) /\ forall j, s1 <= j < a -> ~ occurs m s2 n j
  | None => forall j, s1 <= j <= hi -> ~ occurs m s2 n j
  end.
Proof.
  intros H1 H2 Hf1 Hf2. unfold strstr. rewrite (strlen_spec fuel m s2 l2) by done. cbn [mbind option_bind].
  set (n := Z.of_nat (length l2)). destruct (Z.eqb_spec n 0) as [E|E].
  { eexists. split; [done|]. cbn. rewrite E. repeat split; [intros i Hi; lia|lia|lia|lia]. }
  rewrite (strlen_spec fuel m s1 l1) by done. cbn [mbind option_bind]. eexists. split; [done|].
  enough (forall k a, match strstr_loop m a s2 n k with
    | Some b => occurs m s2 n b /\ a <= b < a + Z.of_nat k /\ forall j, a <= j < b -> ~ occurs m s2 n j
    | None => forall j, a <= j < a + Z.of_nat k -> ~ occurs m s2 n j end) as Hl.
  { specialize (Hl (Z.to_nat (Z.of_nat (length l1) - n + 1)) s1). cbv zeta. destruct (strstr_loop _ _ _ _ _) as [b|].
    - destruct Hl as (Ho & Hb & Hlow). split; [done|]. split; [lia|]. split; [intros; lia|done].
    - intros j Hj. apply Hl. lia. }
  induction k as [|k IH]; intros a; cbn [strstr_loop]; [lia|].
  destruct (Z.eqb_spec (memcmp m a s2 n) 0) as [Em|Em].
  - rewrite memcmp_eq in Em by lia. split; [exact Em|]. split; lia.
  - assert (~ occurs m s2 n a) as Hno by (intros Ho; apply Em; rewrite memcmp_eq by lia; exact Ho).
    specialize (IH (a + 1)). destruct (strstr_loop _ _ _ _ _) as [b|].
    + destruct IH as (Ho & Hb & Hlow). split; [done|]. split; [lia|]. intros j Hj. destruct (Z.eq_dec j a) as [->|]; [done|]. apply Hlow. lia.
    + intros j Hj. destruct (Z.eq_dec j a) as [->|]; [done|]. apply IH. lia.
Qed.
