(* ===== verification/Memblock.v ===== *)
(** The boot memory allocator of kernel/memblock.c: two tables of regions, the
    memory there is and the memory that is reserved. *)

From stdpp Require Import list.
From S2P Require Import Prelude.

(** * Tables of regions *)

Definition INIT_MEMBLOCK_REGIONS : Z := 128.
Definition PHYS_ADDR_MAX : Z := 2 ^ 64 - 1.
Definition ULLONG_MAX : Z := 2 ^ 64 - 1.
Definition SMP_CACHE_BYTES : Z := 64.

Record memblock_region := Rgn { base : Z; size : Z }.

(** [regions] has the entries in use, the first [cnt] of the array: no code reads
    an entry after them. *)
Record memblock_type := Mbt { max : Z; total_size : Z; regions : list memblock_region }.

Definition cnt (t : memblock_type) : Z := Z.of_nat (length (regions t)).

Record memblock := Mb { memory : memblock_type; reserved : memblock_type }.

(** The tables start with an empty dummy entry. *)
Definition memblock_init : memblock :=
  let t := Mbt INIT_MEMBLOCK_REGIONS 0 [Rgn 0 0] in Mb t t.

Definition set_regions (l : list memblock_region) (t : memblock_type) : memblock_type := Mbt (max t) (total_size t) l.

(** ** Addition; a BUG_ON is [None] *)

Definition memblock_cap_size (base size : Z) : Z := Z.min size (PHYS_ADDR_MAX - base).

Definition memblock_insert_region (t : memblock_type) (idx : nat) (base size : Z) : option memblock_type :=
  if max t <=? cnt t then None
  else Some (Mbt (max t) (u64 (total_size t + size)) (take idx (regions t) ++ Rgn base size :: drop idx (regions t))).

(** The loop from index [i] on. *)
Fixpoint memblock_merge_from (fuel : nat) (t : memblock_type) (i : nat) : option memblock_type :=
  match fuel with
  | O => None
  | S fuel =>
      match regions t !! i, regions t !! S i with
      | Some this, Some next =>
          if negb (u64 (base this + size this) =? base next) then
            if base next <? u64 (base this + size this) then None
            else memblock_merge_from fuel t (S i)
          else
            let merged := Rgn (base this) (u64 (size this + size next)) in
            memblock_merge_from fuel (set_regions (take i (regions t) ++ merged :: drop (S (S i)) (regions t)) t) i
      | _, _ => Some t
      end
  end.

Definition memblock_merge_regions (t : memblock_type) : option memblock_type :=
  memblock_merge_from (S (length (regions t))) t 0.

(** One of the two rounds over the table: the regions that are missing from
    [base] to [end_] are counted, and inserted when [insert]. The result has the
    table, the index, the rest of the area and the count. *)
Fixpoint memblock_add_round (fuel : nat) (insert : bool) (t : memblock_type) (idx : nat) (bs end_ nr_new : Z) :
    option (memblock_type * nat * Z * Z) :=
  match fuel with
  | O => None
  | S fuel =>
      match regions t !! idx with
      | None => Some (t, idx, bs, nr_new)
      | Some rgn =>
          let rbase := base rgn in
          let rend := u64 (rbase + size rgn) in
          if end_ <=? rbase then Some (t, idx, bs, nr_new)
          else if rend <=? bs then memblock_add_round fuel insert t (S idx) bs end_ nr_new
          else if bs <? rbase then
            if insert then
              t ← memblock_insert_region t idx bs (u64 (rbase - bs));
              memblock_add_round fuel insert t (S (S idx)) (Z.min rend end_) end_ (nr_new + 1)
            else memblock_add_round fuel insert t (S idx) (Z.min rend end_) end_ (nr_new + 1)
          else memblock_add_round fuel insert t (S idx) (Z.min rend end_) end_ nr_new
      end
  end.

(** A round, with the remaining portion after the loop. *)
Definition memblock_add_portions (insert : bool) (t : memblock_type) (bs end_ : Z) : option (memblock_type * Z) :=
  r ← memblock_add_round (S (length (regions t))) insert t 0 bs end_ 0;
  let '(t, idx, bs, nr_new) := r in
  if bs <? end_ then
    if insert then
      t ← memblock_insert_region t idx bs (u64 (end_ - bs));
      Some (t, nr_new + 1)
    else Some (t, nr_new + 1)
  else Some (t, nr_new).

Definition memblock_add_range (t : memblock_type) (bs sz : Z) : option (memblock_type * Z) :=
  let sz := memblock_cap_size bs sz in
  let end_ := u64 (bs + sz) in
  if sz =? 0 then Some (t, 0)
  else
    rgn0 ← regions t !! 0%nat;
    if size rgn0 =? 0 then
      if negb (cnt t =? 1) || negb (total_size t =? 0) then None
      else Some (Mbt (max t) sz (Rgn bs sz :: tail (regions t)), 0)
    else
      r ← memblock_add_portions false t bs end_;
      let '(t, nr_new) := r in
      if nr_new =? 0 then Some (t, 0)
      else if max t <? cnt t + nr_new then None
      else
        r ← memblock_add_portions true t bs end_;
        let '(t, nr_new) := r in
        if nr_new =? 0 then Some (t, 0)
        else
          t ← memblock_merge_regions t;
          Some (t, 0).

Definition memblock_add (bs sz : Z) (mb : memblock) : option (memblock * Z) :=
  r ← memblock_add_range (memory mb) bs sz; Some (Mb r.1 (reserved mb), r.2).

Definition memblock_reserve (bs sz : Z) (mb : memblock) : option (memblock * Z) :=
  r ← memblock_add_range (reserved mb) bs sz; Some (Mb (memory mb) r.1, r.2).

(** ** Iteration over the free ranges, downwards *)

(** The loop variable packs the two indices, which are ints. *)
Definition pack_idx (idx_a idx_b : Z) : Z := u32 idx_a .| u64 (u64 idx_b ≪ 32).
Definition idx_a_of (idx : Z) : Z := s32 (idx .& 0xffffffff).
Definition idx_b_of (idx : Z) : Z := s32 (idx ≫ 32).

(** The areas before each reservation, from index [n - 1] of the reservations
    downwards: a range with the new indices, or the index where the scan left off. *)
Fixpoint scan_reserved (tb : memblock_type) (m_start m_end idx_a : Z) (n : nat) : (Z * Z * Z) + nat :=
  match n with
  | O => inr O
  | S n' =>
      let r_start := match n' with
                     | O => 0
                     | S j => match regions tb !! j with Some r => u64 (base r + size r) | None => 0 end
                     end in
      let r_end := match regions tb !! n' with Some r => base r | None => PHYS_ADDR_MAX end in
      if r_end <=? m_start then inr n
      else if r_start <? m_end then
        let idx := if r_start <=? m_start then pack_idx (idx_a - 1) (Z.of_nat n') else pack_idx idx_a (Z.of_nat n' - 1) in
        inl (Z.max m_start r_start, Z.min m_end r_end, idx)
      else scan_reserved tb m_start m_end idx_a n'
  end.

(** The memory regions from index [n - 1] downwards. *)
Fixpoint scan_memory (ta : memblock_type) (tb : memblock_type) (n n_b : nat) : option (Z * Z * Z) :=
  match n with
  | O => None
  | S n' =>
      match regions ta !! n' with
      | None => None
      | Some m =>
          match scan_reserved tb (base m) (u64 (base m + size m)) (Z.of_nat n') n_b with
          | inl r => Some r
          | inr n_b => scan_memory ta tb n' n_b
          end
      end
  end.

(** The next range from [ta] that is not in [tb], with the new value of the loop
    variable; there is no range when that is ULLONG_MAX. *)
Definition __next_mem_range_rev (idx : Z) (ta : memblock_type) (tb : option memblock_type) : Z * option (Z * Z) :=
  let '(idx_a, idx_b) :=
    if idx =? ULLONG_MAX then (cnt ta - 1, match tb with Some tb => cnt tb | None => 0 end)
    else (idx_a_of idx, idx_b_of idx) in
  let found := match tb with
    | Some tb => scan_memory ta tb (Z.to_nat (idx_a + 1)) (Z.to_nat (idx_b + 1))
    | None =>
        if 0 <=? idx_a then
          m ← regions ta !! Z.to_nat idx_a;
          Some (base m, u64 (base m + size m), pack_idx (idx_a - 1) idx_b)
        else None
    end in
  match found with
  | Some (start, end_, idx) => (idx, Some (start, end_))
  | None => (ULLONG_MAX, None)
  end.

(** ** Allocation; a panic is [None] *)

Definition clamp (val lo hi : Z) : Z := Z.min (Z.max val lo) hi.
Definition rounddown (x y : Z) : Z := x - x mod y.

(** for_each_free_mem_range_reverse *)
Fixpoint find_from (fuel : nat) (mb : memblock) (idx sz align : Z) : option Z :=
  match fuel with
  | O => None
  | S fuel =>
      match __next_mem_range_rev idx (memory mb) (Some (reserved mb)) with
      | (idx, Some (this_start, this_end)) =>
          if idx =? ULLONG_MAX then Some 0
          else
            let this_start := clamp this_start 0 PHYS_ADDR_MAX in
            let this_end := clamp this_end 0 PHYS_ADDR_MAX in
            if this_end <? sz then find_from fuel mb idx sz align
            else
              let cand := rounddown (this_end - sz) align in
              if this_start <=? cand then Some cand else find_from fuel mb idx sz align
      | (_, None) => Some 0
      end
  end.

Definition memblock_find_in_range_node (mb : memblock) (sz align : Z) : option Z :=
  find_from (S (S (length (regions (memory mb)) + length (regions (reserved mb))))) mb ULLONG_MAX sz align.

Definition memblock_alloc (sz align : Z) (mb : memblock) : option (memblock * Z) :=
  let align := if align =? 0 then SMP_CACHE_BYTES else align in
  found ← memblock_find_in_range_node mb sz align;
  if found =? 0 then None
  else
    r ← memblock_reserve found sz mb;
    let '(mb, err) := r in
    if err =? 0 then Some (mb, found) else None.
