(* ===== verification/MemblockProps.v ===== *)
(** Correctness of the boot memory allocator: the tables stay sorted, disjoint and
    minimal, an addition adds exactly the area it is given, and an allocation
    returns free memory whenever there is some. *)

From stdpp Require Import list.
From S2P Require Import Prelude Memblock.

(** * Areas *)

Definition rend (r : memblock_region) : Z := base r + size r.
Definition in_rgn (r : memblock_region) (x : Z) : Prop := base r <= x < rend r.
Definition covers (l : list memblock_region) (x : Z) : Prop := exists r, r ∈ l /\ in_rgn r x.

Lemma covers_nil x : covers [] x <-> False.
Proof. split; [|done]. intros (r & Hr & _). by apply not_elem_of_nil in Hr. Qed.

Lemma covers_cons r l x : covers (r :: l) x <-> in_rgn r x \/ covers l x.
Proof.
  unfold covers. setoid_rewrite elem_of_cons. split.
  - intros (r' & [->|H] & Hx); eauto.
  - intros [H|(r' & H & Hx)]; eauto.
Qed.

Lemma covers_app l l' x : covers (l ++ l') x <-> covers l x \/ covers l' x.
Proof.
  induction l as [|r l IH]; cbn [app]; [rewrite covers_nil; tauto|]. rewrite !covers_cons, IH. tauto.
Qed.

(** Regions from [lo] on, in order and disjoint; [apart] with a gap before each. *)
Fixpoint from (lo : Z) (l : list memblock_region) : Prop :=
  match l with
  | [] => True
  | r :: l => lo <= base r /\ 0 < size r /\ rend r <= PHYS_ADDR_MAX /\ from (rend r) l
  end.

Fixpoint apart (lo : Z) (l : list memblock_region) : Prop :=
  match l with
  | [] => True
  | r :: l => lo < base r /\ 0 < size r /\ rend r <= PHYS_ADDR_MAX /\ apart (rend r) l
  end.

Fixpoint sum (l : list memblock_region) : Z := match l with [] => 0 | r :: l => size r + sum l end.

Lemma apart_from lo l : apart lo l -> from (lo + 1) l.
Proof.
  revert lo. induction l as [|r l IH]; intros lo; cbn; [done|]. intros (? & ? & ? & H%IH). split_and!; [lia|done|done|].
  clear -H. destruct l; cbn in *; [done|]. intuition lia.
Qed.

Lemma from_mono lo lo' l : lo' <= lo -> from lo l -> from lo' l.
Proof. destruct l; cbn; [done|]. intuition lia. Qed.

Lemma from_covers lo l x : from lo l -> covers l x -> lo <= x < PHYS_ADDR_MAX.
Proof.
  revert lo. induction l as [|r l IH]; intros lo; cbn; [by rewrite covers_nil|]. intros (? & ? & ? & H). rewrite covers_cons.
  unfold rend in *. intros [[? ?]|Hc]; [unfold rend in *; lia|]. specialize (IH _ H Hc). lia.
Qed.

Lemma from_sum lo l : lo <= PHYS_ADDR_MAX -> from lo l -> 0 <= sum l <= PHYS_ADDR_MAX - lo.
Proof.
  revert lo. induction l as [|r l IH]; intros lo Hlo; cbn; [lia|]. intros (? & ? & ? & H). apply IH in H; [|done]. unfold rend in *. lia.
Qed.

(** * Filling the gaps of an area *)

Definition piece (b e : Z) : list memblock_region := if b <? e then [Rgn b (e - b)] else [].

(** The table with the parts of [b, e) that it lacks. *)
Fixpoint fill (l : list memblock_region) (b e : Z) : list memblock_region :=
  match l with
  | [] => piece b e
  | r :: l =>
      if e <=? base r then piece b e ++ r :: l
      else if rend r <=? b then r :: fill l b e
      else piece b (base r) ++ r :: fill l (Z.min (rend r) e) e
  end.

Lemma piece_none b e : e <= b -> piece b e = [].
Proof. intros H. unfold piece. by rewrite (proj2 (Z.ltb_ge b e)). Qed.

Lemma piece_covers b e x : covers (piece b e) x <-> b <= x < e.
Proof.
  unfold piece. destruct (Z.ltb_spec b e).
  - rewrite covers_cons, covers_nil. unfold in_rgn, rend. cbn. lia.
  - rewrite covers_nil. lia.
Qed.

Lemma piece_from lo b e l : lo <= b -> lo <= e -> e <= PHYS_ADDR_MAX -> from (Z.max lo e) l -> from lo (piece b e ++ l).
Proof.
  intros Hb He Hm Hl. unfold piece. destruct (Z.ltb_spec b e); cbn [app from].
  - unfold rend. cbn. split_and!; [lia..|]. eapply from_mono; [|exact Hl]. lia.
  - eapply from_mono; [|exact Hl]. lia.
Qed.

Lemma fill_done l lo b e : from lo l -> e <= b -> fill l b e = l.
Proof.
  revert lo b. induction l as [|r l IH]; intros lo b Hl Hb; cbn [fill from] in *; [by apply piece_none|].
  destruct Hl as (? & ? & ? & Hl). destruct (Z.leb_spec e (base r)); [by rewrite piece_none|].
  destruct (Z.leb_spec (rend r) b); [f_equal; by eapply IH|]. rewrite piece_none by lia. cbn [app]. f_equal. eapply IH; [done|lia].
Qed.

Lemma fill_from l : forall lo b e, from lo l -> lo <= b -> b <= e <= PHYS_ADDR_MAX -> from lo (fill l b e).
Proof.
  induction l as [|r l IH]; intros lo b e Hl Hlo Hb; cbn [fill].
  { rewrite <- (app_nil_r (piece b e)). by apply piece_from; [lia..|]. }
  pose proof Hl as (? & ? & ? & Hl'). destruct (Z.leb_spec e (base r)).
  { apply piece_from; [lia..|]. cbn. split_and!; [lia|done..]. }
  destruct (Z.leb_spec (rend r) b).
  { cbn. split_and!; [done..|]. apply IH; [done|lia|lia]. }
  apply piece_from; [lia|lia|lia|]. cbn. split_and!; [lia|done|done|].
  destruct (Z_le_gt_dec (rend r) e); [apply IH; [done|lia|lia]|]. rewrite (fill_done l (rend r)) by (done || lia). done.
Qed.

Lemma fill_covers l : forall lo b e x, from lo l -> covers (fill l b e) x <-> covers l x \/ b <= x < e.
Proof.
  induction l as [|r l IH]; intros lo b e x Hl; cbn [fill].
  { rewrite piece_covers, covers_nil. tauto. }
  pose proof Hl as (? & ? & ? & Hl'). destruct (Z.leb_spec e (base r)).
  { rewrite covers_app, piece_covers. tauto. }
  destruct (Z.leb_spec (rend r) b).
  { rewrite !covers_cons, (IH (rend r)) by done. tauto. }
  rewrite covers_app, piece_covers, !covers_cons, (IH (rend r)) by done.
  assert (b <= x < e -> b <= x < base r \/ in_rgn r x \/ Z.min (rend r) e <= x < e) by (unfold in_rgn; lia).
  assert (b <= x < base r -> b <= x < e) by lia. assert (Z.min (rend r) e <= x < e -> b <= x < e \/ in_rgn r x) by (unfold in_rgn; lia). tauto.
Qed.

Lemma fill_length l : forall b e, (length l <= length (fill l b e) <= 2 * length l + 1)%nat.
Proof.
  assert (forall b e, (length (piece b e) <= 1)%nat) as Hp by (intros b e; unfold piece; destruct (_ <? _); cbn; lia).
  induction l as [|r l IH]; intros b e; cbn [fill length]; [specialize (Hp b e); lia|].
  destruct (e <=? base r); [rewrite length_app; specialize (Hp b e); cbn; lia|].
  destruct (rend r <=? b); [specialize (IH b e); cbn; lia|].
  rewrite length_app. specialize (Hp b (base r)). specialize (IH (Z.min (rend r) e) e). cbn. lia.
Qed.

(** * The rounds of an addition *)

Lemma addr_small x : 0 <= x <= PHYS_ADDR_MAX -> u64 x = x.
Proof. unfold PHYS_ADDR_MAX. intros. apply wrap_small. unfold uint. lia. Qed.

Lemma sum_app l l' : sum (l ++ l') = sum l + sum l'.
Proof. induction l as [|r l IH]; cbn; [done|]. rewrite IH. lia. Qed.

Lemma insert_at t pre l b z : regions t = pre ++ l -> cnt t < max t ->
  memblock_insert_region t (length pre) b z = Some (Mbt (max t) (u64 (total_size t + z)) (pre ++ Rgn b z :: l)).
Proof.
  intros E Hc. unfold memblock_insert_region. rewrite (proj2 (Z.leb_gt _ _)) by done. by rewrite E, take_app_length, drop_app_length.
Qed.

(** The first round counts. *)
Lemma round_count t e : forall fuel pre l lo b n, regions t = pre ++ l -> (length l < fuel)%nat -> 0 <= lo -> from lo l ->
  exists idx b' n', memblock_add_round fuel false t (length pre) b e n = Some (t, idx, b', n') /\
    n' + Z.of_nat (length (piece b' e)) = n + Z.of_nat (length (fill l b e)) - Z.of_nat (length l).
Proof.
  induction fuel as [|fuel IH]; intros pre l lo b n E Hf Hlo Hl; [lia|]. cbn [memblock_add_round]. rewrite E.
  destruct l as [|r l]; cbn [length] in Hf; [rewrite lookup_ge_None_2 by (rewrite app_nil_r; lia); eexists _, _, _; split; [done|cbn; lia]|].
  destruct Hl as (? & ? & ? & Hl). rewrite list_lookup_middle by done. unfold rend in *. rewrite addr_small by lia. fold (rend r) in *. cbn [fill length].
  specialize (IH (pre ++ [r]) l (rend r)). rewrite <- app_assoc, length_app, Nat.add_1_r in IH. unfold rend in IH at 1.
  destruct (Z.leb_spec e (base r)).
  { eexists _, _, _. split; [done|]. rewrite length_app. cbn. lia. }
  destruct (Z.leb_spec (rend r) b); unfold rend in *.
  { destruct (IH b n) as (idx & b' & n' & -> & Hn); [done|lia|lia|done|]. eexists _, _, _. split; [done|]. cbn. lia. }
  destruct (Z.ltb_spec b (base r)).
  - destruct (IH (Z.min (base r + size r) e) (n + 1)) as (idx & b' & n' & -> & Hn); [done|lia|lia|done|]. eexists _, _, _. split; [done|].
    unfold piece at 2. rewrite (proj2 (Z.ltb_lt _ _)) by done. cbn. lia.
  - destruct (IH (Z.min (base r + size r) e) n) as (idx & b' & n' & -> & Hn); [done|lia|lia|done|]. eexists _, _, _. split; [done|].
    rewrite (piece_none b) by lia. cbn. lia.
Qed.

(** The total is the sum of the sizes. *)
Definition counted (t : memblock_type) : Prop := total_size t = sum (regions t).

Lemma piece_sum b e : 0 <= sum (piece b e).
Proof. unfold piece. destruct (Z.ltb_spec b e); cbn; lia. Qed.

Lemma fill_sum l : forall b e, sum l <= sum (fill l b e).
Proof.
  induction l as [|r l IH]; intros b e; cbn [fill sum]; [apply piece_sum|]. pose proof (piece_sum b e). pose proof (piece_sum b (base r)).
  destruct (e <=? base r); [rewrite sum_app; cbn; lia|]. destruct (rend r <=? b); [specialize (IH b e); cbn; lia|].
  rewrite sum_app. specialize (IH (Z.min (rend r) e) e). cbn. lia.
Qed.

(** The second inserts. *)
Lemma round_insert e : forall fuel t pre l lo b n, regions t = pre ++ l -> (length l < fuel)%nat -> 0 <= lo -> from lo l ->
  counted t -> 0 <= b -> 0 <= sum pre -> sum pre + sum (fill l b e) <= PHYS_ADDR_MAX -> Z.of_nat (length pre + length (fill l b e)) <= max t ->
  exists t' pre' l' b' n', memblock_add_round fuel true t (length pre) b e n = Some (t', length pre', b', n') /\
    regions t' = pre' ++ l' /\ pre' ++ piece b' e ++ l' = pre ++ fill l b e /\ max t' = max t /\ counted t' /\ 0 <= b' /\
    n' + Z.of_nat (length (piece b' e)) = n + Z.of_nat (length (fill l b e)) - Z.of_nat (length l).
Proof.
  induction fuel as [|fuel IH]; intros t pre l lo b n E Hf Hlo Hl Ht Hb Hs Hsum Hmax; [lia|]. cbn [memblock_add_round]. rewrite E.
  destruct l as [|r l]; cbn [length] in Hf.
  { rewrite lookup_ge_None_2 by (rewrite app_nil_r; lia). exists t, pre, [], b, n. rewrite E, !app_nil_r. cbn. split_and!; try done. lia. }
  pose proof Hl as (? & ? & ? & Hl'). rewrite list_lookup_middle by done.
  assert (u64 (base r + size r) = rend r) as -> by (unfold rend in *; apply addr_small; lia). unfold rend in *.
  cbn [fill] in *. fold (rend r) in *. unfold rend in *. pose proof (fill_sum l (Z.min (base r + size r) e) e) as Hfs.
  pose proof (fill_length l (Z.min (base r + size r) e) e) as Hfl. pose proof (from_sum (base r + size r) l ltac:(lia) Hl') as Hsl.
  destruct (Z.leb_spec e (base r)).
  { exists t, pre, (r :: l), b, n. rewrite E. split_and!; try done. rewrite length_app. cbn. lia. }
  assert (forall x b1 n1 t1, regions t1 = (pre ++ x ++ [r]) ++ l -> counted t1 -> max t1 = max t -> 0 <= b1 ->
    0 <= sum (pre ++ x ++ [r]) -> sum (pre ++ x ++ [r]) + sum (fill l b1 e) <= PHYS_ADDR_MAX ->
    Z.of_nat (length (pre ++ x ++ [r]) + length (fill l b1 e)) <= max t ->
    n1 = n + Z.of_nat (length x) -> exists t' pre' l' b' n',
      memblock_add_round fuel true t1 (length (pre ++ x ++ [r])) b1 e n1 = Some (t', length pre', b', n') /\ regions t' = pre' ++ l' /\
      pre' ++ piece b' e ++ l' = pre ++ x ++ r :: fill l b1 e /\ max t' = max t /\ counted t' /\ 0 <= b' /\
      n' + Z.of_nat (length (piece b' e)) = n + Z.of_nat (length (x ++ r :: fill l b1 e)) - Z.of_nat (length (r :: l))) as Hnext.
  { intros x b1 n1 t1 E1 Ht1 Em1 Hb1 Hs1 Hsum1 Hmax1 ->. destruct (IH t1 (pre ++ x ++ [r]) l (base r + size r) b1 (n + Z.of_nat (length x)))
      as (t' & pre' & l' & b' & n' & R & E' & Ef & Em & Hc & Hb' & Hn); [done|lia|lia|done|done|done|done|lia|rewrite Em1; lia|].
    exists t', pre', l', b', n'. rewrite R, Ef, Em, Em1, <- !app_assoc. split_and!; try done. rewrite length_app. cbn. lia. }
  destruct (Z.leb_spec (base r + size r) b).
  { cbn [sum length] in Hsum, Hmax. replace (S (length pre)) with (length (pre ++ [] ++ [r])) by (rewrite length_app; cbn; lia).
    apply (Hnext [] b n t); [rewrite E; by rewrite <- app_assoc|done|done|done| | | |cbn; lia]; rewrite ?sum_app, ?length_app; cbn; lia. }
  rewrite sum_app in Hsum. rewrite length_app in Hmax. destruct (Z.ltb_spec b (base r)) as [Hlt|Hge].
  - assert (piece b (base r) = [Rgn b (base r - b)]) as Ep by (unfold piece; by rewrite (proj2 (Z.ltb_lt _ _)) by done).
    rewrite Ep in *. cbn [sum length size] in Hsum, Hmax.
    assert (cnt t < max t) by (unfold cnt; rewrite E, length_app; cbn; lia). unfold counted in Ht. rewrite E, sum_app in Ht. cbn [sum] in Ht.
    rewrite (insert_at t pre (r :: l)), (addr_small (base r - b)) by (done || lia). cbn [mbind option_bind].
    replace (S (S (length pre))) with (length (pre ++ [Rgn b (base r - b)] ++ [r])) by (rewrite length_app; cbn; lia).
    eapply (Hnext [Rgn b (base r - b)]); cbn [regions max];
      [by rewrite <- app_assoc| |done|lia| | | |cbn; lia]; unfold counted; cbn [regions total_size]; rewrite ?sum_app, ?length_app; cbn [sum length app size];
      rewrite ?addr_small; lia.
  - rewrite (piece_none b (base r)) in * by lia. cbn [sum length app] in Hsum, Hmax |- *. replace (S (length pre)) with (length (pre ++ [] ++ [r])) by (rewrite length_app; cbn; lia).
    apply (Hnext [] _ n t); [rewrite E; by rewrite <- app_assoc|done|done|lia| | | |cbn; lia]; rewrite ?sum_app, ?length_app; cbn; lia.
Qed.

(** * Merging *)

(** The list [r :: l] with neighbours merged. *)
Fixpoint merge (r : memblock_region) (l : list memblock_region) : list memblock_region :=
  match l with
  | [] => [r]
  | r' :: l => if rend r =? base r' then merge (Rgn (base r) (size r + size r')) l else r :: merge r' l
  end.

Lemma merge_covers l : forall lo r x, from lo (r :: l) -> covers (merge r l) x <-> covers (r :: l) x.
Proof.
  induction l as [|r' l IH]; intros lo r x; [done|]. cbn [merge]. intros (? & ? & ? & ? & ? & ? & Hl). destruct (Z.eqb_spec (rend r) (base r')) as [E|E].
  - rewrite (IH lo); [|cbn; unfold rend in *; cbn; split_and!; [lia..|]; by replace (base r + (size r + size r')) with (base r' + size r') by lia].
    rewrite !covers_cons. unfold in_rgn, rend in *. cbn. intuition lia.
  - rewrite covers_cons, (IH (rend r)) by done. rewrite !covers_cons. tauto.
Qed.

Lemma merge_sum l : forall r, sum (merge r l) = sum (r :: l).
Proof. induction l as [|r' l IH]; intros r; [done|]. cbn [merge]. destruct (_ =? _); [rewrite IH|cbn [sum]; rewrite IH]; cbn; lia. Qed.

Lemma merge_length l : forall r, (1 <= length (merge r l) <= S (length l))%nat.
Proof. induction l as [|r' l IH]; intros r; cbn [merge length]; [lia|]. destruct (_ =? _); [specialize (IH (Rgn (base r) (size r + size r')))|specialize (IH r'); cbn]; lia. Qed.

Lemma merge_apart l : forall lo r, from lo (r :: l) -> apart (lo - 1) (merge r l).
Proof.
  induction l as [|r' l IH]; intros lo r; [cbn; intuition lia|]. cbn [merge]. intros (? & ? & ? & ? & ? & ? & Hl). destruct (Z.eqb_spec (rend r) (base r')).
  - apply IH. cbn. unfold rend in *. cbn. split_and!; [lia..|]. by replace (base r + (size r + size r')) with (base r' + size r') by lia.
  - cbn. split_and!; [lia|done|done|]. replace (rend r) with (rend r + 1 - 1) by lia. apply IH. cbn. split_and!; [lia|done..].
Qed.

Lemma merge_from_ok : forall fuel t pre r l lo, regions t = pre ++ r :: l -> (length l < fuel)%nat -> 0 <= lo -> from lo (r :: l) ->
  memblock_merge_from fuel t (length pre) = Some (set_regions (pre ++ merge r l) t).
Proof.
  induction fuel as [|fuel IH]; intros t pre r l lo E Hf Hlo Hl; [lia|]. cbn [memblock_merge_from]. rewrite E, list_lookup_middle by done.
  replace (S (length pre)) with (length (pre ++ [r])) by (rewrite length_app; cbn; lia).
  replace (pre ++ r :: l) with ((pre ++ [r]) ++ l) by (by rewrite <- app_assoc).
  destruct l as [|r' l]; cbn [length] in Hf.
  { rewrite lookup_ge_None_2 by (rewrite !length_app; cbn; lia). cbn [merge]. f_equal. destruct t. cbn in *. by subst. }
  destruct Hl as (? & ? & ? & ? & ? & ? & Hl). rewrite list_lookup_middle by done. cbn [merge].
  assert (u64 (base r + size r) = rend r) as -> by (unfold rend in *; apply addr_small; lia).
  destruct (Z.eqb_spec (rend r) (base r')) as [Er|Er]; cbn [negb].
  - rewrite (addr_small (size r + size r')) by (unfold rend in *; lia).
    replace (take (length pre) _) with pre by (rewrite <- app_assoc; by rewrite take_app_length).
    replace (drop (S (length (pre ++ [r]))) _) with l
      by (replace (S (length (pre ++ [r]))) with (length ((pre ++ [r]) ++ [r'])) by (rewrite !length_app; cbn; lia);
          replace ((pre ++ [r]) ++ r' :: l) with (((pre ++ [r]) ++ [r']) ++ l) by (by rewrite <- !app_assoc); by rewrite drop_app_length).
    rewrite (IH _ pre (Rgn (base r) (size r + size r')) l lo); [done|done|lia|lia|].
    cbn. unfold rend in *. cbn. split_and!; [lia..|]. by replace (base r + (size r + size r')) with (base r' + size r') by lia.
  - rewrite (proj2 (Z.ltb_ge _ _)) by lia. rewrite (IH t (pre ++ [r]) r' l (rend r)); [by rewrite <- app_assoc|by rewrite E, <- app_assoc|lia|unfold rend in *; lia|].
    cbn. split_and!; done.
Qed.

(** * The addition *)

(** A table: empty, with the dummy entry, or regions in order with gaps between
    them; the array has room for them. *)
Definition table_ok (t : memblock_type) : Prop :=
  cnt t <= max t < 2 ^ 30 /\
  ((regions t = [Rgn 0 0] /\ total_size t = 0) \/ (regions t <> [] /\ apart (-1) (regions t) /\ counted t)).

Lemma add_portions insert t b e : 0 <= b <= e -> e <= PHYS_ADDR_MAX -> apart (-1) (regions t) -> counted t -> 
  (insert = true -> Z.of_nat (length (fill (regions t) b e)) <= max t) ->
  exists t', memblock_add_portions insert t b e = Some (t', Z.of_nat (length (fill (regions t) b e)) - cnt t) /\
    max t' = max t /\ counted t' /\ regions t' = if insert then fill (regions t) b e else regions t.
Proof.
  intros Hb He Ha Ht Hins. apply apart_from in Ha. change (-1 + 1) with 0 in Ha. unfold memblock_add_portions, cnt. destruct insert.
  - specialize (Hins eq_refl). pose proof (fill_from (regions t) 0 b e Ha ltac:(lia) ltac:(lia)) as Hf. apply from_sum in Hf; [|unfold PHYS_ADDR_MAX; lia].
    destruct (round_insert e (S (length (regions t))) t [] (regions t) 0 b 0) as (t' & pre & l & b' & n & R & Er & Ef & Em & Hc & Hb' & Hn);
      [done|lia|lia|done|done|lia|done|cbn; lia|cbn; lia|].
    cbn [length] in R. rewrite R. cbn [mbind option_bind]. cbn [app] in Ef. unfold piece in *. destruct (Z.ltb_spec b' e).
    + cbn [app length] in *. assert (length (regions t') < length (fill (regions t) b e))%nat by (rewrite Er, <- Ef, !length_app; cbn; lia).
      rewrite (insert_at t' pre l) by (unfold cnt; done || lia). cbn [mbind option_bind]. eexists. split; [f_equal; f_equal; lia|].
      cbn [max regions]. rewrite (addr_small (e - b')) by lia. split_and!; [done| |done]. unfold counted in *. cbn [total_size regions].
      rewrite <- Ef in Hf. rewrite Hc, Er. rewrite !sum_app in *. cbn [sum size] in *. rewrite addr_small by lia. lia.
    + cbn [app length] in *. exists t'. rewrite <- Ef, Er in *. split_and!; [f_equal; f_equal; lia|done..].
  - destruct (round_count t e (S (length (regions t))) [] (regions t) 0 b 0) as (idx & b' & n & R & Hn); [done|lia|lia|done|].
    cbn [length] in R. rewrite R. cbn [mbind option_bind]. exists t. unfold piece in *. destruct (Z.ltb_spec b' e); cbn [length] in Hn;
      (split_and!; [f_equal; f_equal; lia|done..]).
Qed.

(** The regions that do not start where the one before them ends. *)
Fixpoint starts (pe : Z) (l : list memblock_region) : nat :=
  match l with
  | [] => O
  | r :: l => ((if (base r =? pe)%Z then 0 else 1) + starts (rend r) l)%nat
  end.

Lemma starts_length l : forall pe, (starts pe l <= length l)%nat.
Proof. induction l as [|r l IH]; intros pe; cbn; [lia|]. specialize (IH (rend r)). destruct (_ =? _); lia. Qed.

Lemma merge_starts l : forall r, length (merge r l) = S (starts (rend r) l).
Proof.
  induction l as [|r' l IH]; intros r; [done|]. cbn [merge starts]. rewrite (Z.eqb_sym (base r')). destruct (Z.eqb_spec (rend r) (base r')) as [E|E].
  - rewrite IH. replace (rend (Rgn (base r) (size r + size r'))) with (rend r') by (unfold rend in *; cbn; lia). done.
  - cbn [length]. by rewrite IH.
Qed.

(** An area adds at most one start. *)
Lemma fill_starts l : forall lo pe b e, from lo l -> pe <= lo -> (starts pe (fill l b e) <= length l + if (b =? pe)%Z then 0 else 1)%nat.
Proof.
  induction l as [|r l IH]; intros lo pe b e Hl Hpe; cbn [fill length].
  { unfold piece. destruct (b <? e); cbn; destruct (b =? pe); lia. }
  pose proof (starts_length (r :: l)) as Hs. cbn [length] in Hs. destruct Hl as (? & ? & ? & Hl).
  destruct (Z.leb_spec e (base r)).
  { unfold piece. destruct (Z.ltb_spec b e); cbn [app starts base rend]; [specialize (Hs (rend (Rgn b (e - b))))|specialize (Hs pe)]; cbn [starts] in Hs; destruct (b =? pe); lia. }
  destruct (Z.leb_spec (rend r) b).
  { cbn [starts]. specialize (IH (rend r) (rend r) b e Hl ltac:(lia)). rewrite (proj2 (Z.eqb_neq b pe)) by (unfold rend in *; lia). destruct (b =? rend r), (base r =? pe); lia. }
  assert (starts (rend r) (fill l (Z.min (rend r) e) e) <= length l)%nat as Hrest.
  { destruct (Z_le_gt_dec (rend r) e).
    - specialize (IH (rend r) (rend r) (Z.min (rend r) e) e Hl ltac:(lia)). rewrite (proj2 (Z.eqb_eq (Z.min (rend r) e) (rend r))) in IH by lia. lia.
    - rewrite (fill_done l (rend r)) by (done || lia). apply starts_length. }
  unfold piece. destruct (Z.ltb_spec b (base r)); cbn [app starts]; [|destruct (base r =? pe); lia].
  unfold rend at 1. cbn [base size]. rewrite (proj2 (Z.eqb_eq (base r) (b + (base r - b)))) by lia. destruct (b =? pe); lia.
Qed.

(** No portion is missing: nothing changes. *)
Lemma fill_full l : forall b e, length (fill l b e) = length l -> fill l b e = l.
Proof.
  induction l as [|r l IH]; intros b e; cbn [fill length]; [by intros ->%nil_length_inv|].
  destruct (e <=? base r); [rewrite length_app; cbn; unfold piece; destruct (_ <? _); cbn; [lia|done]|].
  destruct (rend r <=? b); [cbn; intros [= H%IH]; by rewrite H|]. rewrite length_app. cbn. intros H.
  pose proof (fill_length l (Z.min (rend r) e) e). assert (piece b (base r) = []) as -> by (apply nil_length_inv; lia).
  cbn. f_equal. apply IH. lia.
Qed.

Lemma apart_not_dummy r l : apart (-1) (r :: l) -> size r <> 0.
Proof. cbn. intros (? & ? & _). lia. Qed.

Lemma add_range_ok t b z : table_ok t -> uint 64 b -> uint 64 z ->
  match memblock_add_range t b z with
  | Some (t', err) => err = 0 /\ table_ok t' /\ (max t' = max t /\ cnt t' <= cnt t + 1) /\
      forall x, covers (regions t') x <-> covers (regions t) x \/ (b <= x < b + z /\ x < PHYS_ADDR_MAX)
  | None => max t < 2 * cnt t + 1
  end.
Proof.
  intros (Hmax & Ht) Hb Hz. unfold memblock_add_range, memblock_cap_size. unfold uint in *.
  set (sz := Z.min z (PHYS_ADDR_MAX - b)). assert (0 <= sz <= PHYS_ADDR_MAX - b) by (unfold PHYS_ADDR_MAX in *; lia).
  assert (forall x, b <= x < b + sz <-> b <= x < b + z /\ x < PHYS_ADDR_MAX) as Hx by lia. rewrite addr_small by lia.
  destruct (Z.eqb_spec sz 0) as [E0|E0].
  { split_and!; [done|by split|done|lia|]. intros x. specialize (Hx x). rewrite <- Hx. assert (~ b <= x < b + sz) by lia. tauto. }
  destruct Ht as [[Er E]|(Hne & Ha & Ht)].
  - rewrite Er. unfold cnt in *. rewrite Er in *. cbn. rewrite E. cbn. split_and!; [done| |done|unfold cnt; cbn; lia|].
    + split; [done|]. right. unfold counted. cbn. unfold rend. cbn. split_and!; first [done | lia].
    + intros x. cbn [regions tail]. rewrite <- Hx, !covers_cons, !covers_nil. clearbody sz. unfold in_rgn, rend. cbn. lia.
  - assert (exists r, regions t !! 0%nat = Some r /\ size r <> 0) as (r & -> & Hr).
    { destruct (regions t) as [|r l]; [done|]. exists r. split; [done|by eapply apart_not_dummy]. }
    cbn [mbind option_bind]. rewrite (proj2 (Z.eqb_neq _ _)) by done.
    destruct (add_portions false t b (b + sz)) as (t1 & -> & Em1 & Hc1 & Er1); [lia|lia|done|done|done|]. cbn [mbind option_bind].
    pose proof (fill_length (regions t) b (b + sz)) as Hfl. pose proof (apart_from _ _ Ha) as Hf. change (-1 + 1) with 0 in Hf.
    destruct (Z.eqb_spec (Z.of_nat (length (fill (regions t) b (b + sz))) - cnt t) 0) as [En|En].
    { unfold table_ok, cnt in *. rewrite Er1, Em1. split_and!; [done|lia|lia|by right|done|lia|]. intros x.
      rewrite <- Hx, <- (fill_covers _ 0) by done. rewrite fill_full by lia. done. }
    unfold cnt at 1. rewrite Er1, Em1. destruct (Z.ltb_spec (max t) (Z.of_nat (length (regions t)) + (Z.of_nat (length (fill (regions t) b (b + sz))) - cnt t)));
      [unfold cnt in *; lia|].
    destruct (add_portions true t1 b (b + sz)) as (t2 & -> & Em2 & Hc2 & Er2); [lia|lia|by rewrite Er1|done|rewrite Er1, Em1; unfold cnt in *; lia|].
    cbn [mbind option_bind]. rewrite Er1 in Er2 |- *. unfold cnt at 1. rewrite Er1. rewrite (proj2 (Z.eqb_neq _ _)) by done.
    pose proof (fill_from _ _ b (b + sz) Hf ltac:(lia) ltac:(lia)) as Hff. pose proof (fun x => fill_covers (regions t) 0 b (b + sz) x Hf) as Hcov.
    destruct (fill (regions t) b (b + sz)) as [|r2 l2] eqn:Efill; [destruct (regions t); [done|cbn in Hfl; lia]|].
    unfold memblock_merge_regions. rewrite Er2. rewrite (merge_from_ok _ t2 [] r2 l2 0) by (done || (cbn; lia)). cbn [mbind option_bind app].
    pose proof (merge_length l2 r2) as Hml. pose proof (fill_starts (regions t) 0 (-1) b (b + sz) Hf ltac:(lia)) as Hst. split_and!; [done| |cbn; congruence| |].
    + unfold table_ok, cnt in *. cbn [set_regions regions max]. split; [rewrite Em2, Em1; cbn [length] in *; lia|]. right.
      split_and!; [intros E1; rewrite E1 in Hml; cbn in Hml; lia|by apply (merge_apart l2 0)|]. unfold counted in *. cbn. by rewrite merge_sum, Hc2, Er2.
    + unfold cnt. cbn [set_regions regions]. rewrite merge_starts. rewrite Efill in Hst. cbn [starts] in Hst. destruct Hff as (? & _).
      rewrite (proj2 (Z.eqb_neq (base r2) (-1))) in Hst by lia. destruct (b =? -1); lia.
    + intros x. cbn [set_regions regions]. rewrite (merge_covers l2 0), Hcov, Hx by done. done.
Qed.

(** * The free ranges *)

(** The gap before reservation [j], and after the last one. *)
Definition gap_lo (l : list memblock_region) (j : nat) : Z :=
  match j with O => 0 | S i => match l !! i with Some r => rend r | None => 0 end end.
Definition gap_hi (l : list memblock_region) (j : nat) : Z :=
  match l !! j with Some r => base r | None => PHYS_ADDR_MAX end.

(** Like [from], with the dummy entry. *)
Fixpoint spaced (lo : Z) (l : list memblock_region) : Prop :=
  match l with
  | [] => True
  | r :: l => lo <= base r /\ 0 <= size r /\ rend r <= PHYS_ADDR_MAX /\ spaced (rend r) l
  end.

Lemma from_spaced lo l : from lo l -> spaced lo l.
Proof. revert lo. induction l as [|r l IH]; intros lo; cbn; [done|]. intros (? & ? & ? & ?). split_and!; [done|lia|done|auto]. Qed.

Lemma table_spaced t : table_ok t -> spaced 0 (regions t).
Proof.
  intros (_ & [[-> _]|(_ & H & _)]); [cbn; unfold rend, PHYS_ADDR_MAX; cbn; lia|]. apply from_spaced. by apply apart_from in H.
Qed.

Lemma spaced_at l : forall lo i r, spaced lo l -> l !! i = Some r -> lo <= base r /\ 0 <= size r /\ rend r <= PHYS_ADDR_MAX.
Proof.
  induction l as [|r' l IH]; intros lo [|i] r; cbn; try done.
  - intros (? & ? & ? & _) [= ->]. done.
  - intros (? & ? & ? & Hl) Hi. destruct (IH _ _ _ Hl Hi) as (? & ? & ?). unfold rend in *. lia.
Qed.

Lemma spaced_lt l : forall lo i j r r', spaced lo l -> l !! i = Some r -> l !! j = Some r' -> (i < j)%nat -> rend r <= base r'.
Proof.
  induction l as [|r0 l IH]; intros lo [|i] [|j] r r'; cbn; try done; try lia.
  - intros (? & ? & ? & Hl) [= ->] Hj _. by apply (spaced_at l (rend r)) in Hj as (? & _).
  - intros (? & ? & ? & Hl) Hi Hj Hlt. eapply IH; [done..|lia].
Qed.

Lemma gap_order l i j : spaced 0 l -> (i < j <= length l)%nat -> gap_hi l i <= gap_lo l j.
Proof.
  intros Hl Hij. destruct (lookup_lt_is_Some_2 l i) as [r Hr]; [lia|]. destruct j as [|j]; [lia|]. destruct (lookup_lt_is_Some_2 l j) as [r' Hr']; [lia|].
  unfold gap_hi, gap_lo. rewrite Hr, Hr'. destruct (decide (i = j)) as [->|Hne].
  - rewrite Hr in Hr'. injection Hr' as <-. apply (spaced_at _ _ _ _ Hl) in Hr as (? & ? & ?). unfold rend. lia.
  - pose proof (spaced_lt _ _ _ _ _ _ Hl Hr Hr' ltac:(lia)). apply (spaced_at _ _ _ _ Hl) in Hr as (? & ? & ?).
    apply (spaced_at _ _ _ _ Hl) in Hr' as (? & ? & ?). unfold rend in *. lia.
Qed.

Lemma gap_lo_hi l j : spaced 0 l -> (j <= length l)%nat -> gap_lo l j <= gap_hi l j.
Proof.
  intros Hl Hj. unfold gap_hi. destruct j as [|j]; cbn [gap_lo].
  - destruct (l !! 0%nat) as [r|] eqn:Hr; [by apply (spaced_at _ _ _ _ Hl) in Hr as (? & ? & ?)|unfold PHYS_ADDR_MAX; lia].
  - destruct (lookup_lt_is_Some_2 l j) as [r Hr]; [lia|]. rewrite Hr. destruct (l !! S j) as [r'|] eqn:Hr'.
    + apply (spaced_lt _ _ _ _ _ _ Hl Hr Hr'). lia.
    + by apply (spaced_at _ _ _ _ Hl) in Hr as (? & ? & ?).
Qed.

Lemma gap_lo_pos l j : spaced 0 l -> 0 <= gap_lo l j.
Proof.
  intros Hl. destruct j as [|j]; [done|]. cbn. destruct (l !! j) as [r|] eqn:Hr; [|done].
  apply (spaced_at _ _ _ _ Hl) in Hr as (? & ? & ?). unfold rend. lia.
Qed.

Lemma gap_hi_mono l i j : spaced 0 l -> (i <= j <= length l)%nat -> gap_hi l i <= gap_hi l j.
Proof.
  intros Hl Hij. destruct (decide (i = j)) as [->|]; [done|]. pose proof (gap_order l i j Hl ltac:(lia)). pose proof (gap_lo_hi l j Hl ltac:(lia)). lia.
Qed.

(** A point of a gap is in no region. *)
Lemma gap_free l j x : spaced 0 l -> (j <= length l)%nat -> gap_lo l j <= x < gap_hi l j -> ~ covers l x.
Proof.
  intros Hl Hj Hx (r & (i & Hi)%list_elem_of_lookup_1 & Hin). unfold in_rgn in Hin.
  destruct (decide (i < j)%nat) as [Hlt|Hge].
  - destruct j as [|j]; [lia|]. cbn [gap_lo] in Hx. pose proof (lookup_lt_Some _ _ _ Hi). destruct (lookup_lt_is_Some_2 l j) as [r' Hr']; [lia|]. rewrite Hr' in Hx.
    destruct (decide (i = j)) as [->|]; [rewrite Hi in Hr'; injection Hr' as <-; lia|].
    pose proof (spaced_lt _ _ _ _ _ _ Hl Hi Hr' ltac:(lia)). apply (spaced_at _ _ _ _ Hl) in Hr' as (? & ? & ?). unfold rend in *. lia.
  - assert (j < length l)%nat as Hlt by (pose proof (lookup_lt_Some _ _ _ Hi); lia). destruct (lookup_lt_is_Some_2 l j) as [r' Hr']; [done|].
    unfold gap_hi in Hx. rewrite Hr' in Hx. destruct (decide (i = j)) as [->|]; [rewrite Hi in Hr'; injection Hr' as <-; lia|].
    pose proof (spaced_lt _ _ _ _ _ _ Hl Hr' Hi ltac:(lia)). apply (spaced_at _ _ _ _ Hl) in Hr' as (? & ? & ?). unfold rend in *. lia.
Qed.

(** A run of free points is in one gap: only the dummy entry is empty. *)
Definition no_holes (l : list memblock_region) : Prop := forall r, r ∈ l -> 0 < size r \/ rend r = 0.

Lemma free_gap l c z : spaced 0 l -> no_holes l -> 0 <= c -> 0 < z -> c + z <= PHYS_ADDR_MAX -> (forall x, c <= x < c + z -> ~ covers l x) ->
  exists j, (j <= length l)%nat /\ gap_lo l j <= c /\ c + z <= gap_hi l j.
Proof.
  intros Hl Hpos Hc Hz Hm Hfree.
  assert (forall n, (n <= length l)%nat -> (exists j, (j <= n)%nat /\ gap_lo l j <= c /\ c + z <= gap_hi l j) \/ gap_lo l n <= c) as H.
  { induction n as [|n IH]; intros Hn; [by right|]. destruct IH as [(j & ? & ? & ?)|Hlo]; [lia|left; exists j; lia|].
    destruct (lookup_lt_is_Some_2 l n) as [r Hr]; [lia|]. cbn [gap_lo]. rewrite Hr. destruct (Z_le_gt_dec (rend r) c); [by right|].
    left. exists n. split; [lia|]. split; [done|]. unfold gap_hi. rewrite Hr. destruct (Z_le_gt_dec (c + z) (base r)); [done|].
    exfalso. apply (Hfree (Z.max c (base r))); [lia|]. exists r. split; [by eapply list_elem_of_lookup_2|]. unfold in_rgn.
    destruct (Hpos r ltac:(by eapply list_elem_of_lookup_2)); unfold rend in *; lia. }
  destruct (H (length l)) as [(j & ? & ? & ?)|Hlo]; [lia|by exists j|]. exists (length l). split; [lia|]. split; [done|].
  unfold gap_hi. by rewrite lookup_ge_None_2.
Qed.

Lemma table_no_holes t : table_ok t -> no_holes (regions t).
Proof.
  intros (_ & [[-> _]|(_ & H & _)]) r Hr; [right; by apply list_elem_of_singleton in Hr as ->|]. left.
  apply apart_from in H. revert H. generalize (-1 + 1). induction (regions t) as [|r' l IH]; intros lo; [by apply not_elem_of_nil in Hr|].
  intros (_ & ? & _ & H). apply elem_of_cons in Hr as [->|Hr]; [done|by eapply IH].
Qed.

(** A run of memory is in one region. *)
Lemma run_region l : forall lo c z, apart lo l -> 0 < z -> (forall x, c <= x < c + z -> covers l x) ->
  exists i m, l !! i = Some m /\ base m <= c /\ c + z <= rend m.
Proof.
  induction l as [|r l IH]; intros lo c z Hl Hz Hc; [destruct (proj1 (covers_nil c)); apply Hc; lia|].
  destruct Hl as (? & ? & ? & Hl). assert (forall x, covers l x -> rend r < x) as Hgt.
  { intros x Hx. apply apart_from in Hl. apply (from_covers _ _ _ Hl) in Hx. lia. }
  destruct (Z_lt_ge_dec c (rend r)).
  - exists 0%nat, r. split; [done|]. pose proof (Hc c ltac:(lia)) as Hcc. rewrite covers_cons in Hcc. unfold in_rgn in Hcc.
    destruct Hcc as [Hcc|Hcc%Hgt]; [|lia]. split; [lia|]. destruct (Z_le_gt_dec (c + z) (rend r)); [done|].
    specialize (Hc (rend r) ltac:(lia)). rewrite covers_cons in Hc. unfold in_rgn in Hc. destruct Hc as [Hc|Hc%Hgt]; lia.
  - destruct (IH (rend r) c z) as (i & m & Hi & Hm); [done|done| |by exists (S i), m].
    intros x Hx. specialize (Hc x Hx). rewrite covers_cons in Hc. unfold in_rgn in Hc. destruct Hc as [Hc|Hc]; [lia|done].
Qed.

(** * The loop variable *)

Lemma pack_unpack a b : -1 <= a < 2 ^ 31 -> -1 <= b < 2 ^ 31 -> idx_a_of (pack_idx a b) = a /\ idx_b_of (pack_idx a b) = b.
Proof.
  intros Ha Hb. unfold idx_a_of, idx_b_of, pack_idx. change 0xffffffff with (Z.ones 32).
  assert ((u32 a .| u64 (u64 b ≪ 32)) .& Z.ones 32 = u32 a) as -> by zbits.
  assert ((u32 a .| u64 (u64 b ≪ 32)) ≫ 32 = u32 b) as -> by zbits.
  rewrite !sgn_of_wrap. split; apply sgn_small; lia.
Qed.

Lemma pack_end a b : -1 <= a < 2 ^ 31 -> -1 <= b < 2 ^ 31 -> 0 <= a \/ 0 <= b -> pack_idx a b <> ULLONG_MAX.
Proof.
  intros Ha Hb H E. destruct (pack_unpack a b Ha Hb) as [Ea Eb]. rewrite E in Ea, Eb. vm_compute in Ea, Eb. lia.
Qed.

(** * The search *)

Section search.
Context (mb : memblock).
Abbreviation A := (regions (memory mb)).
Abbreviation B := (regions (reserved mb)).
Hypothesis HA : spaced 0 A.
Hypothesis HB : spaced 0 B.

(** Memory region [m] meets gap [j]. *)
Definition meets (m : memblock_region) (j : nat) : Prop := base m < gap_hi B j /\ gap_lo B j < rend m.

Lemma gap_lo_eq j : (j <= length B)%nat ->
  match j with O => 0 | S i => match B !! i with Some r => u64 (base r + size r) | None => 0 end end = gap_lo B j.
Proof.
  intros Hj. destruct j as [|j]; [done|]. cbn. destruct (B !! j) as [r|] eqn:Hr; [|done].
  apply (spaced_at _ _ _ _ HB) in Hr as (? & ? & ?). unfold rend in *. apply addr_small. lia.
Qed.

Lemma scan_reserved_ok m ia n : (n <= S (length B))%nat ->
  match scan_reserved (reserved mb) (base m) (rend m) ia n with
  | inl (s, e, idx) => exists j, (j < n)%nat /\ meets m j /\ s = Z.max (base m) (gap_lo B j) /\ e = Z.min (rend m) (gap_hi B j) /\
      idx = (if gap_lo B j <=? base m then pack_idx (ia - 1) (Z.of_nat j) else pack_idx ia (Z.of_nat j - 1)) /\
      forall j', (j < j' < n)%nat -> rend m <= gap_lo B j'
  | inr n' => (n' <= n)%nat /\ (forall j', (n' <= j' < n)%nat -> rend m <= gap_lo B j') /\ (forall j', (j' < n')%nat -> gap_hi B j' <= base m)
  end.
Proof.
  induction n as [|n IH]; intros Hn; cbn [scan_reserved].
  { split_and!; [lia|intros; lia|intros; lia]. }
  rewrite gap_lo_eq by lia. change (match B !! n with Some r => base r | None => PHYS_ADDR_MAX end) with (gap_hi B n).
  destruct (Z.leb_spec (gap_hi B n) (base m)) as [Hb|Hb].
  { split_and!; [lia|intros; lia|]. intros j' Hj'. pose proof (gap_hi_mono B j' n HB ltac:(lia)). lia. }
  destruct (Z.ltb_spec (gap_lo B n) (rend m)) as [Hm|Hm].
  { exists n. do 5 (split; [first [lia | by split | done]|]). intros; lia. }
  specialize (IH ltac:(lia)). destruct (scan_reserved _ _ _ _ n) as [[[s e] idx]|n'].
  - destruct IH as (j & Hj & Hmj & Es & Ee & Ei & Hno). exists j. do 5 (split; [first [lia | done]|]).
    intros j' Hj'. destruct (decide (j' = n)) as [->|]; [done|]. apply Hno. lia.
  - destruct IH as (Hn' & Hno & Hlow). split_and!; [lia| |done]. intros j' Hj'. destruct (decide (j' = n)) as [->|]; [done|]. apply Hno. lia.
Qed.

(** The pairs of a memory region and a gap, from a pair downwards. *)
Definition remaining (n nb i j : nat) (m : memblock_region) : Prop := (i < n)%nat /\ (j < nb)%nat /\ A !! i = Some m /\ meets m j.

Lemma scan_memory_ok : forall n, (n <= length A)%nat -> forall nb, (nb <= S (length B))%nat ->
  match scan_memory (memory mb) (reserved mb) n nb with
  | Some (s, e, idx) => exists i j m n' nb', remaining n nb i j m /\ s = Z.max (base m) (gap_lo B j) /\ e = Z.min (rend m) (gap_hi B j) /\
      idx = pack_idx (Z.of_nat n' - 1) (Z.of_nat nb' - 1) /\ (n' + nb' < n + nb)%nat /\ (n' <= n)%nat /\ (nb' <= nb)%nat /\ (0 < n' + nb')%nat /\
      forall i' j' m', remaining n nb i' j' m' -> (i' = i /\ j' = j) \/ (remaining n' nb' i' j' m' /\ Z.min (rend m') (gap_hi B j') <= s)
  | None => forall i' j' m', ~ remaining n nb i' j' m'
  end.
Proof.
  induction n as [|n IH]; intros Hn nb' Hnb; cbn [scan_memory]; [intros i' j' m' (? & _); lia|].
  destruct (lookup_lt_is_Some_2 A n) as [m Hm]; [lia|]. rewrite Hm.
  destruct (spaced_at _ _ _ _ HA Hm) as (? & ? & ?). assert (u64 (base m + size m) = rend m) as -> by (unfold rend in *; apply addr_small; lia).
  pose proof (scan_reserved_ok m (Z.of_nat n) nb' Hnb) as Hscan.
  assert (forall i' m', (i' < n)%nat -> A !! i' = Some m' -> rend m' <= base m) as Hbelow by (intros i' m' Hi' Hm'; exact (spaced_lt _ _ _ _ _ _ HA Hm' Hm Hi')).
  assert (base m <= rend m) by (unfold rend; lia).
  destruct (scan_reserved _ _ _ _ nb') as [[[s e] idx]|n'].
  - destruct Hscan as (j & Hj & Hmj & Es & Ee & Ei & Hno).
    exists n, j, m. destruct (Z.leb_spec (gap_lo B j) (base m)) as [Hc|Hc]; [exists n, (S j)|exists (S n), j];
      (split; [by repeat (split; [lia|])|]; do 7 (split; [first [done | lia | rewrite Ei; f_equal; lia]|]));
      intros i' j' m' (Hi' & Hj' & Hm' & Hme); pose proof Hme as [Hme1 Hme2].
    all: destruct (decide (i' = n)) as [->|Hine]; [rewrite Hm in Hm'; injection Hm' as <-|pose proof (Hbelow i' m' ltac:(lia) Hm')].
    all: destruct (decide (j' = j)) as [->|]; [try (by left)|destruct (decide (j < j')%nat) as [Hlt|]; [specialize (Hno j' ltac:(lia)); lia|
      pose proof (gap_order B j' j HB ltac:(lia))]]; try lia.
    all: right; (split; [by repeat (split; [lia|])|lia]).
  - destruct Hscan as (Hn' & Hno & Hlow). specialize (IH ltac:(lia) n' ltac:(lia)).
    assert (forall i' j' m', remaining (S n) nb' i' j' m' -> remaining n n' i' j' m') as Hsub.
    { intros i' j' m' (Hi' & Hj' & Hm' & Hme). pose proof Hme as [Hme1 Hme2]. destruct (decide (j' < n')%nat) as [Hlt|Hge].
      - specialize (Hlow j' Hlt). destruct (decide (i' = n)) as [->|]; [rewrite Hm in Hm'; injection Hm' as <-; lia|]. by repeat (split; [lia|]).
      - specialize (Hno j' ltac:(lia)). destruct (decide (i' = n)) as [->|]; [rewrite Hm in Hm'; injection Hm' as <-; lia|].
        specialize (Hbelow i' m' ltac:(lia) Hm'). lia. }
    destruct (scan_memory _ _ n n') as [[[s e] idx]|].
    + destruct IH as (i & j & m0 & n1 & nb1 & (? & ? & ? & ?) & Es & Ee & Ei & ? & ? & ? & ? & Hrest).
      exists i, j, m0, n1, nb1. split; [by repeat (split; [lia|])|]. do 7 (split; [first [done | lia]|]). intros i' j' m' Hl%Hsub. by apply Hrest.
    + intros i' j' m' Hl%Hsub. by eapply IH.
Qed.

(** [n] memory regions and [nb] gaps are left when the loop variable is [idx]. *)
Definition at_idx (idx : Z) (n nb : nat) : Prop :=
  (n <= length A)%nat /\ (nb <= S (length B))%nat /\
  ((idx = ULLONG_MAX /\ n = length A /\ nb = S (length B)) \/
   (idx <> ULLONG_MAX /\ idx_a_of idx + 1 = Z.of_nat n /\ idx_b_of idx + 1 = Z.of_nat nb)).

Lemma next_scan idx n nb : at_idx idx n nb -> __next_mem_range_rev idx (memory mb) (Some (reserved mb)) =
  match scan_memory (memory mb) (reserved mb) n nb with Some (s, e, idx) => (idx, Some (s, e)) | None => (ULLONG_MAX, None) end.
Proof.
  intros (_ & _ & H). unfold __next_mem_range_rev. destruct H as [(-> & -> & ->)|(Hne & Ha & Hb)].
  - rewrite Z.eqb_refl. unfold cnt. replace (Z.to_nat (Z.of_nat (length A) - 1 + 1)) with (length A) by lia.
    by replace (Z.to_nat (Z.of_nat (length B) + 1)) with (S (length B)) by lia.
  - rewrite (proj2 (Z.eqb_neq _ _)) by done. by rewrite Ha, Hb, !Nat2Z.id.
Qed.

(** The block of [z] bytes at [c] is in memory region [m] and in gap [j]. *)
Definition within (m : memblock_region) (j : nat) (c z : Z) : Prop :=
  Z.max (base m) (gap_lo B j) <= c /\ c + z <= Z.min (rend m) (gap_hi B j).

Lemma rounddown_spec x al : 0 <= x -> 0 < al -> 0 <= rounddown x al <= x /\ rounddown x al mod al = 0 /\
  forall c, c mod al = 0 -> c <= x -> c <= rounddown x al.
Proof.
  intros Hx Hal. unfold rounddown. pose proof (Z.div_mod x al ltac:(lia)) as D. pose proof (Z.mod_pos_bound x al Hal).
  assert (x - x mod al = x / al * al) as -> by lia. split_and!; [pose proof (Z.div_pos x al); nia|lia|apply Z_mod_mult|].
  intros c Hc Hle. pose proof (Z.div_mod c al ltac:(lia)) as Dc. rewrite Hc in Dc. pose proof (Z.div_le_mono c x al Hal Hle). nia.
Qed.

Lemma find_from_ok z al : 0 < z -> 0 < al -> cnt (memory mb) < 2 ^ 30 -> cnt (reserved mb) < 2 ^ 30 -> forall fuel n nb idx,
  at_idx idx n nb -> (n + nb < fuel)%nat ->
  exists c, find_from fuel mb idx z al = Some c /\
    (c <> 0 -> c mod al = 0 /\ exists i j m, A !! i = Some m /\ (j <= length B)%nat /\ within m j c z) /\
    (c = 0 -> forall i j m c', (i < n)%nat -> (j < nb)%nat -> A !! i = Some m -> 0 < c' -> c' mod al = 0 -> ~ within m j c' z).
Proof.
  unfold cnt. intros Hz Hal HlA HlB. induction fuel as [|fuel IH]; intros n nb idx Hat Hf; [lia|]. cbn [find_from]. rewrite (next_scan _ n nb Hat).
  destruct Hat as (Hn & Hnb & _). pose proof (scan_memory_ok n Hn nb Hnb) as Hs.
  assert (forall i j m c', (i < n)%nat -> (j < nb)%nat -> A !! i = Some m -> within m j c' z -> remaining n nb i j m) as Hleft.
  { intros i j m c' ? ? ? [? ?]. split_and!; [done..|]. unfold meets. lia. }
  destruct (scan_memory _ _ n nb) as [[[s e] idx']|].
  - destruct Hs as (i & j & m & n' & nb' & (? & ? & Hm & Hme) & Es & Ee & -> & ? & ? & ? & ? & Hrest).
    rewrite (proj2 (Z.eqb_neq _ _)) by (apply pack_end; lia).
    assert (at_idx (pack_idx (Z.of_nat n' - 1) (Z.of_nat nb' - 1)) n' nb') as Hat'.
    { split; [lia|]. split; [lia|]. right. split; [apply pack_end; lia|]. destruct (pack_unpack (Z.of_nat n' - 1) (Z.of_nat nb' - 1)) as [-> ->]; lia. }
    specialize (IH n' nb' _ Hat' ltac:(lia)).
    destruct (spaced_at _ _ _ _ HA Hm) as (? & ? & ?). pose proof (gap_lo_hi B j HB ltac:(lia)).
    assert (gap_hi B j <= PHYS_ADDR_MAX) as Hgm.
    { unfold gap_hi. destruct (B !! j) as [r|] eqn:Er; [apply (spaced_at _ _ _ _ HB) in Er; unfold rend in *; lia|done]. }
    pose proof (gap_lo_pos B j HB).
    unfold clamp. destruct Hme as [Hme1 Hme2]. unfold rend in *.
    replace (Z.min (Z.max s 0) PHYS_ADDR_MAX) with s by lia. replace (Z.min (Z.max e 0) PHYS_ADDR_MAX) with e by lia.
    assert (forall i' j' m' c', (i' < n)%nat -> (j' < nb)%nat -> A !! i' = Some m' -> within m' j' c' z ->
      within m j c' z \/ (remaining n' nb' i' j' m' /\ c' + z <= s)) as Hcase.
    { intros i' j' m' c' Hi' Hj' Hm' Hw. destruct (Hrest _ _ _ (Hleft _ _ _ _ Hi' Hj' Hm' Hw)) as [[-> ->]|[Hl' Hle]].
      - left. rewrite Hm in Hm'. by injection Hm' as <-.
      - right. split; [done|]. destruct Hw as [_ Hw]. unfold rend in *. lia. }
    assert ((forall c', 0 < c' -> c' mod al = 0 -> ~ within m j c' z) -> exists c, find_from fuel mb (pack_idx (Z.of_nat n' - 1) (Z.of_nat nb' - 1)) z al = Some c /\
      (c <> 0 -> c mod al = 0 /\ exists i j m, A !! i = Some m /\ (j <= length B)%nat /\ within m j c z) /\
      (c = 0 -> forall i j m c', (i < n)%nat -> (j < nb)%nat -> A !! i = Some m -> 0 < c' -> c' mod al = 0 -> ~ within m j c' z)) as Hgo.
    { intros Hno. destruct IH as (c & Rc & Hsound & Hcomp). exists c. split; [done|]. split; [done|]. intros Ec i' j' m' c' Hi' Hj' Hm' Hc' Hal' Hw.
      destruct (Hcase i' j' m' c' Hi' Hj' Hm' Hw) as [Hw'|[(? & ? & _) _]]; [by apply (Hno c')|]. by apply (Hcomp Ec i' j' m' c'). }
    assert (forall c', within m j c' z <-> s <= c' /\ c' + z <= e) as Hin by (intros c'; unfold within, rend; rewrite Es, Ee; done).
    destruct (Z.ltb_spec e z) as [Hlt|Hge].
    { apply Hgo. intros c' Hc' _ Hw%Hin. lia. }
    destruct (rounddown_spec (e - z) al ltac:(lia) Hal) as (Hr & Hra & Hrm). set (cand := rounddown (e - z) al) in *.
    destruct (Z.leb_spec s cand) as [Hle|Hgt].
    + exists cand. split; [done|]. split.
      * intros _. split; [done|]. exists i, j, m. split; [done|]. split; [lia|]. apply Hin. lia.
      * intros E0 i' j' m' c' Hi' Hj' Hm' Hc' Hal' Hw. destruct (Hcase i' j' m' c' Hi' Hj' Hm' Hw) as [Hw'%Hin|[_ Hw']]; [|lia].
        specialize (Hrm c' Hal' ltac:(lia)). lia.
    + apply Hgo. intros c' Hc' Hal' Hw%Hin. specialize (Hrm c' Hal' ltac:(lia)). lia.
  - exists 0. split; [done|]. split; [done|]. intros _ i j m c' Hi Hj Hm _ _ Hw. by apply (Hs i j m), (Hleft i j m c').
Qed.
End search.

(** * Theorems *)

Definition mb_ok (mb : memblock) : Prop := table_ok (memory mb) /\ table_ok (reserved mb).

(** Memory that is not reserved. *)
Definition free (mb : memblock) (x : Z) : Prop := covers (regions (memory mb)) x /\ ~ covers (regions (reserved mb)) x.

(** What the table covers after the area is added. *)
Definition added (t : memblock_type) (b z : Z) (t' : memblock_type) : Prop :=
  forall x, covers (regions t') x <-> covers (regions t) x \/ (b <= x < b + z /\ x < PHYS_ADDR_MAX).

(** An addition to the memory or to the reservations keeps both tables sorted,
    disjoint, with no two neighbouring regions and with the right total, and the
    table then covers what it covered before and the new area, cut at the last
    address. It fails only when the array may be too small: when it has no room
    for a portion before, between and after the regions. *)
Theorem memblock_add_correct mb b z : mb_ok mb -> uint 64 b -> uint 64 z ->
  match memblock_add b z mb with
  | Some (mb', err) => err = 0 /\ mb_ok mb' /\ reserved mb' = reserved mb /\ added (memory mb) b z (memory mb')
  | None => max (memory mb) < 2 * cnt (memory mb) + 1
  end /\
  match memblock_reserve b z mb with
  | Some (mb', err) => err = 0 /\ mb_ok mb' /\ memory mb' = memory mb /\ added (reserved mb) b z (reserved mb')
  | None => max (reserved mb) < 2 * cnt (reserved mb) + 1
  end.
Proof.
  intros [Hm Hr] Hb Hz. unfold memblock_add, memblock_reserve. split.
  - pose proof (add_range_ok _ b z Hm Hb Hz) as H. destruct (memblock_add_range (memory mb) b z) as [[t err]|]; [|done].
    destruct H as (-> & Ht & _ & Hx). split_and!; [done|by split|done|exact Hx].
  - pose proof (add_range_ok _ b z Hr Hb Hz) as H. destruct (memblock_add_range (reserved mb) b z) as [[t err]|]; [|done].
    destruct H as (-> & Ht & _ & Hx). split_and!; [done|by split|done|exact Hx].
Qed.

Lemma find_node_ok mb z al : mb_ok mb -> 0 < z -> 0 < al -> exists c, memblock_find_in_range_node mb z al = Some c /\
  (c <> 0 -> 0 <= c /\ c + z <= PHYS_ADDR_MAX /\ c mod al = 0 /\ forall x, c <= x < c + z -> free mb x) /\
  (c = 0 -> forall c', 0 < c' -> c' mod al = 0 -> ~ forall x, c' <= x < c' + z -> free mb x).
Proof.
  intros [Hm Hr] Hz Hal. pose proof (table_spaced _ Hm) as HA. pose proof (table_spaced _ Hr) as HB. pose proof Hm as [[? ?] _]. pose proof Hr as [[? ?] _].
  destruct (find_from_ok mb HA HB z al Hz Hal ltac:(lia) ltac:(lia) (S (S (length (regions (memory mb)) + length (regions (reserved mb)))))
    (length (regions (memory mb))) (S (length (regions (reserved mb)))) ULLONG_MAX) as (c & R & Hsound & Hcomp).
  { split; [lia|]. split; [lia|]. by left. }
  { lia. }
  exists c. split; [exact R|]. split.
  - intros Hc. destruct (Hsound Hc) as (Hmod & i & j & m & Hi & Hj & [Hlo Hhi]). destruct (spaced_at _ _ _ _ HA Hi) as (? & ? & ?).
    split_and!; [lia|lia|done|]. intros x Hx. split.
    + exists m. split; [by eapply list_elem_of_lookup_2|]. unfold in_rgn. lia.
    + apply (gap_free _ j); [done|done|lia].
  - intros Hc c' Hc' Hmod Hfree. destruct Hm as (_ & [[Em _]|(_ & Ha & _)]).
    { destruct (Hfree c' ltac:(lia)) as [Hcov _]. rewrite Em in Hcov. apply covers_cons in Hcov as [[? ?]|Hcov]; [unfold rend in *; cbn in *; lia|by apply covers_nil in Hcov]. }
    destruct (run_region _ _ c' z Ha Hz ltac:(intros x Hx; by apply Hfree)) as (i & m & Hi & Hlo & Hhi). destruct (spaced_at _ _ _ _ HA Hi) as (? & ? & ?).
    destruct (free_gap (regions (reserved mb)) c' z HB (table_no_holes _ Hr) ltac:(lia) Hz ltac:(lia) ltac:(intros x Hx; by apply Hfree)) as (j & Hj & Hjlo & Hjhi).
    apply (Hcomp Hc i j m c'); [by eapply lookup_lt_Some|lia|done|done|done|]. unfold within. lia.
Qed.

(** C31: an allocation returns an aligned address, not 0, of a block that was free,
    and reserves exactly that block; the memory table stays as it is. When it
    fails, no aligned block of that size is free, other than at address 0, or the
    array of reservations may be too small for one more. *)
Theorem memblock_alloc_correct mb z align : mb_ok mb -> 0 < z < 2 ^ 64 -> uint 64 align ->
  let al := if align =? 0 then SMP_CACHE_BYTES else align in
  match memblock_alloc z align mb with
  | Some (mb', c) => mb_ok mb' /\ memory mb' = memory mb /\ c <> 0 /\ c mod al = 0 /\ (forall x, c <= x < c + z -> free mb x) /\
      forall x, covers (regions (reserved mb')) x <-> covers (regions (reserved mb)) x \/ c <= x < c + z
  | None => max (reserved mb) < 2 * cnt (reserved mb) + 1 \/
      forall c, 0 < c -> c mod al = 0 -> ~ forall x, c <= x < c + z -> free mb x
  end.
Proof.
  intros Hmb Hz Hal al. assert (0 < al) as Hal'.
  { unfold al, uint, SMP_CACHE_BYTES in *. destruct (Z.eqb_spec align 0); lia. }
  unfold memblock_alloc. fold al. destruct (find_node_ok mb z al Hmb ltac:(lia) Hal') as (c & -> & Hsound & Hcomp). cbn [mbind option_bind].
  destruct (Z.eqb_spec c 0) as [Hc|Hc]; [right; by apply Hcomp|]. destruct (Hsound Hc) as (H0 & Hmax & Hmod & Hfree). destruct Hmb as [Hm Hr].
  unfold memblock_reserve. pose proof (add_range_ok _ c z Hr ltac:(unfold uint, PHYS_ADDR_MAX in *; lia) ltac:(unfold uint; lia)) as H.
  destruct (memblock_add_range (reserved mb) c z) as [[t err]|]; [|by left]. destruct H as (-> & Ht & _ & Hx). cbn [mbind option_bind fst snd Z.eqb].
  split_and!; try done. intros x. cbn [reserved]. rewrite Hx. assert (c <= x < c + z /\ x < PHYS_ADDR_MAX <-> c <= x < c + z) by lia. tauto.
Qed.

(** ** A machine with 128 MB, its first 2 MB reserved for the kernel *)

Definition ram : memblock :=
  Mb (Mbt INIT_MEMBLOCK_REGIONS 0x8000000 [Rgn 0x80000000 0x8000000]) (Mbt INIT_MEMBLOCK_REGIONS 0x200000 [Rgn 0x80000000 0x200000]).

Lemma ram_booted : (mb1 ← memblock_add 0x80000000 0x8000000 memblock_init; memblock_reserve 0x80000000 0x200000 mb1.1) = Some (ram, 0).
Proof. by vm_compute. Qed.

Lemma ram_ok : mb_ok ram.
Proof. split; (split; [by vm_compute|right; split; [done|]; split; [by vm_compute|done]]). Qed.

Lemma memblock_add_correct_witness : exists mb', memblock_reserve 0x80400000 0x1000 ram = Some (mb', 0) /\ added (reserved ram) 0x80400000 0x1000 (reserved mb').
Proof.
  destruct (memblock_add_correct ram 0x80400000 0x1000 ram_ok ltac:(by vm_compute) ltac:(by vm_compute)) as [_ H].
  destruct (memblock_reserve 0x80400000 0x1000 ram) as [[mb' err]|] eqn:E; [|by vm_compute in E].
  destruct H as (-> & _ & _ & H). exists mb'. split; [done|exact H].
Defined.

Lemma memblock_alloc_correct_witness : exists mb', memblock_alloc 0x1800 0x1000 ram = Some (mb', 0x87ffe000) /\
  forall x, 0x87ffe000 <= x < 0x87ffe000 + 0x1800 -> free ram x.
Proof.
  pose proof (memblock_alloc_correct ram 0x1800 0x1000 ram_ok ltac:(lia) ltac:(by vm_compute)) as H. cbv zeta in H.
  destruct (memblock_alloc 0x1800 0x1000 ram) as [[mb' c]|] eqn:E; [|by vm_compute in E].
  assert (c = 0x87ffe000) as -> by (vm_compute in E; congruence). destruct H as (_ & _ & _ & _ & H & _). exists mb'. split; [done|exact H].
Defined.
