(* ===== verification/Unaligned.v ===== *)
(** Byte arrays, and the unaligned accesses of include/sys/unaligned/be_byteshift.h
    and le_byteshift.h: integers are put together from bytes, and taken apart,
    with shifts. *)

From stdpp Require Import list.
From S2P Require Import Prelude Cstring Bytes.

(** * Big-endian accesses *)

Definition get_unaligned_be16 (m : mem) (p : Z) : Z := u16 ((u8 (m p) ≪ 8) .| u8 (m (p + 1))).

Definition get_unaligned_be32 (m : mem) (p : Z) : Z :=
  u32 (u8 (m p) ≪ 24) .| u32 (u8 (m (p + 1)) ≪ 16) .| u32 (u8 (m (p + 2)) ≪ 8) .| u8 (m (p + 3)).

Definition get_unaligned_be64 (m : mem) (p : Z) : Z :=
  u64 (get_unaligned_be32 m p ≪ 32) .| get_unaligned_be32 m (p + 4).

Definition put_unaligned_be16 (val : Z) (m : mem) (p : Z) : mem :=
  let val := u16 val in
  let m := <[p := u8 (val ≫ 8)]> m in
  <[p + 1 := u8 val]> m.

Definition put_unaligned_be32 (val : Z) (m : mem) (p : Z) : mem :=
  let val := u32 val in
  let m := put_unaligned_be16 (val ≫ 16) m p in
  put_unaligned_be16 val m (p + 2).

Definition put_unaligned_be64 (val : Z) (m : mem) (p : Z) : mem :=
  let val := u64 val in
  let m := put_unaligned_be32 (val ≫ 32) m p in
  put_unaligned_be32 val m (p + 4).

(** * Little-endian accesses *)

(** The shifts are of ints: the sum is converted at the end. *)
Definition get_unaligned_le16 (m : mem) (p : Z) : Z := u16 (u8 (m p) .| (u8 (m (p + 1)) ≪ 8)).

Definition get_unaligned_le32 (m : mem) (p : Z) : Z :=
  u32 (u8 (m p) .| (u8 (m (p + 1)) ≪ 8) .| (u8 (m (p + 2)) ≪ 16) .| s32 (u8 (m (p + 3)) ≪ 24)).

Definition get_unaligned_le64 (m : mem) (p : Z) : Z :=
  u64 (get_unaligned_le32 m (p + 4) ≪ 32) .| get_unaligned_le32 m p.

Definition put_unaligned_le16 (val : Z) (m : mem) (p : Z) : mem :=
  let val := u16 val in
  let m := <[p := u8 val]> m in
  <[p + 1 := u8 (val ≫ 8)]> m.

Definition put_unaligned_le32 (val : Z) (m : mem) (p : Z) : mem :=
  let val := u32 val in
  let m := put_unaligned_le16 (val ≫ 16) m (p + 2) in
  put_unaligned_le16 val m p.

Definition put_unaligned_le64 (val : Z) (m : mem) (p : Z) : mem :=
  let val := u64 val in
  let m := put_unaligned_le32 (val ≫ 32) m (p + 4) in
  put_unaligned_le32 val m p.

(** * Byte arrays as lists *)

(** The [n] bytes at [p]. *)
Fixpoint u8s_at (m : mem) (p : Z) (n : nat) : list Z :=
  match n with
  | O => []
  | S n => u8 (m p) :: u8s_at m (p + 1) n
  end.

(** The array with [l] written at [p]. *)
Fixpoint put_at (m : mem) (p : Z) (l : list Z) : mem :=
  match l with
  | [] => m
  | b :: l => <[p := b]> (put_at m (p + 1) l)
  end.

Lemma u8s_at_length m p n : length (u8s_at m p n) = n.
Proof. revert p. induction n as [|n IH]; intros p; cbn; by rewrite ?IH. Qed.

Lemma u8s_at_app m p n k : u8s_at m p (n + k) = u8s_at m p n ++ u8s_at m (p + Z.of_nat n) k.
Proof.
  revert p. induction n as [|n IH]; intros p; cbn [u8s_at Nat.add app]; [by rewrite Z.add_0_r|]. rewrite IH. do 3 f_equal. lia.
Qed.

Lemma u8s_at_ext m m' p p' n : (forall i, 0 <= i < Z.of_nat n -> u8 (m (p + i)) = u8 (m' (p' + i))) -> u8s_at m p n = u8s_at m' p' n.
Proof.
  revert p p'. induction n as [|n IH]; intros p p' H; cbn; [done|]. f_equal.
  - specialize (H 0). rewrite !Z.add_0_r in H. apply H. lia.
  - apply IH. intros i Hi. replace (p + 1 + i) with (p + (1 + i)) by lia. replace (p' + 1 + i) with (p' + (1 + i)) by lia. apply H. lia.
Qed.

Lemma u8s_at_uint m p n : Forall (uint 8) (u8s_at m p n).
Proof. revert p. induction n as [|n IH]; intros p; cbn; constructor; [apply uint_wrap; lia|apply IH]. Qed.

Lemma put_at_out m p l a : a < p \/ p + Z.of_nat (length l) <= a -> put_at m p l a = m a.
Proof. revert p. induction l as [|b l IH]; intros p Ha; cbn in *; [done|]. fn_simpl. apply IH. lia. Qed.

Lemma put_at_app m p l l' : put_at m p (l ++ l') = put_at (put_at m (p + Z.of_nat (length l)) l') p l.
Proof.
  revert p. induction l as [|b l IH]; intros p; cbn [app put_at length]; [by rewrite Z.add_0_r|]. rewrite IH. do 3 f_equal. lia.
Qed.

Lemma bytes_put_at m p l : Forall (uint 8) l -> u8s_at (put_at m p l) p (length l) = l.
Proof.
  revert p. induction l as [|b l IH]; intros p Hl; cbn; [done|]. apply Forall_cons in Hl as [Hb Hl]. fn_simpl. f_equal; [by apply wrap_small|].
  etrans; [|by apply (IH (p + 1))]. apply u8s_at_ext. intros i Hi. by fn_simpl.
Qed.

Lemma u8s_at_put_out m q l p n : p + Z.of_nat n <= q \/ q + Z.of_nat (length l) <= p -> u8s_at (put_at m q l) p n = u8s_at m p n.
Proof. intros H. apply u8s_at_ext. intros i Hi. rewrite put_at_out by lia. done. Qed.

(** * The accesses on lists *)

(** The bytes of an integer and the integer of some bytes, most significant first. *)
Definition be_bytes (n : nat) (x : Z) : list Z := rev (to_bytes n x).
Definition be_value (l : list Z) : Z := of_bytes (rev l).

Lemma be_bytes_length n x : length (be_bytes n x) = n.
Proof. unfold be_bytes. by rewrite length_rev, to_bytes_length. Qed.

Lemma to_bytes_Forall n x : Forall (uint 8) (to_bytes n x).
Proof. apply Forall_forall. intros b. apply to_bytes_uint. Qed.

Lemma be_bytes_uint n x : Forall (uint 8) (be_bytes n x).
Proof. apply Forall_forall. intros b Hb. apply (to_bytes_uint n x). apply list_elem_of_In. apply list_elem_of_In, in_rev in Hb. exact Hb. Qed.

Lemma be_value_bytes n x : be_value (be_bytes n x) = wrap (8 * Z.of_nat n) x.
Proof. unfold be_value, be_bytes. rewrite rev_involutive. apply of_to_bytes. Qed.

Ltac get_tac := intros; unfold get_unaligned_be64, get_unaligned_le64, get_unaligned_be16, get_unaligned_be32, get_unaligned_le16, get_unaligned_le32, be_value;
  cbn [u8s_at rev app of_bytes]; rewrite <- ?Z.add_assoc; cbn [Z.add Pos.add Pos.succ]; zbits.

Lemma get_be16 m p : get_unaligned_be16 m p = be_value (u8s_at m p 2).
Proof. get_tac. Qed.

Lemma get_be32 m p : get_unaligned_be32 m p = be_value (u8s_at m p 4).
Proof. get_tac. Qed.

Lemma get_le16 m p : get_unaligned_le16 m p = of_bytes (u8s_at m p 2).
Proof. get_tac. Qed.

Lemma get_le32 m p : get_unaligned_le32 m p = of_bytes (u8s_at m p 4).
Proof. get_tac. Qed.

Lemma get_be64 m p : get_unaligned_be64 m p = be_value (u8s_at m p 8).
Proof. unfold get_unaligned_be64. rewrite !get_be32. get_tac. Qed.

Lemma get_le64 m p : get_unaligned_le64 m p = of_bytes (u8s_at m p 8).
Proof. unfold get_unaligned_le64. rewrite !get_le32. get_tac. Qed.

Lemma put_at_insert m p l q b : q < p \/ p + Z.of_nat (length l) <= q -> put_at (<[q := b]> m) p l = <[q := b]> (put_at m p l).
Proof.
  revert p. induction l as [|c l IH]; intros p Hq; cbn in *; [done|]. rewrite IH by lia. apply fn_insert_comm. lia.
Qed.

Lemma put_at_comm m p l q l' : p + Z.of_nat (length l) <= q \/ q + Z.of_nat (length l') <= p ->
  put_at (put_at m p l) q l' = put_at (put_at m q l') p l.
Proof.
  revert p. induction l as [|b l IH]; intros p H; cbn in *; [done|]. rewrite <- IH by lia. apply put_at_insert. lia.
Qed.

(** Two halves, the first one at the lower address and written first or last. *)
Lemma put_halves m p l l' n : n = Z.of_nat (length l) -> put_at (put_at m p l) (p + n) l' = put_at m p (l ++ l').
Proof. intros ->. rewrite put_at_app. apply put_at_comm. lia. Qed.

Lemma be_split n k x : be_bytes (n + k) x = be_bytes n (x ≫ (8 * Z.of_nat k)) ++ be_bytes k x.
Proof.
  unfold be_bytes. rewrite <- rev_app_distr. f_equal. revert x. induction k as [|k IH]; intros x.
  - rewrite Nat.add_0_r. by rewrite Z.shiftr_0_r.
  - rewrite Nat.add_succ_r. cbn [to_bytes app]. f_equal. rewrite IH, Z.shiftr_shiftr by lia. do 3 f_equal. lia.
Qed.

Lemma le_split n k x : to_bytes (k + n) x = to_bytes k x ++ to_bytes n (x ≫ (8 * Z.of_nat k)).
Proof.
  revert x. induction k as [|k IH]; intros x; cbn [to_bytes Nat.add app]; [by rewrite Z.shiftr_0_r|].
  f_equal. rewrite IH, Z.shiftr_shiftr by lia. do 3 f_equal. lia.
Qed.

Lemma be_bytes_wrap n w x : 8 * Z.of_nat n <= w -> be_bytes n (wrap w x) = be_bytes n x.
Proof. intros. unfold be_bytes. by rewrite to_bytes_wrap. Qed.

Lemma shiftr_wrap v w n x : 0 <= n -> v + n <= w -> 0 <= v -> wrap v (wrap w x ≫ n) = wrap v (x ≫ n).
Proof. intros. zbits. Qed.

Lemma to_bytes_shift n w k x : 8 * Z.of_nat n + k <= w -> 0 <= k -> to_bytes n (wrap w x ≫ k) = to_bytes n (x ≫ k).
Proof.
  intros. rewrite <- (to_bytes_wrap n (8 * Z.of_nat n)), shiftr_wrap, to_bytes_wrap by lia. done.
Qed.

Lemma put_be16 v m p : put_unaligned_be16 v m p = put_at m p (be_bytes 2 v).
Proof.
  unfold put_unaligned_be16, be_bytes. cbn [to_bytes rev app put_at]. rewrite fn_insert_comm by lia. f_equal; [zbits|]. f_equal. zbits.
Qed.

Lemma put_be32 v m p : put_unaligned_be32 v m p = put_at m p (be_bytes 4 v).
Proof.
  unfold put_unaligned_be32. rewrite !put_be16. rewrite (put_halves _ _ _ _ 2) by done. f_equal.
  rewrite (be_split 2 2). f_equal; [|by apply be_bytes_wrap]. unfold be_bytes. by rewrite to_bytes_shift.
Qed.

Lemma put_be64 v m p : put_unaligned_be64 v m p = put_at m p (be_bytes 8 v).
Proof.
  unfold put_unaligned_be64. rewrite !put_be32. rewrite (put_halves _ _ _ _ 4) by (by rewrite be_bytes_length). f_equal.
  rewrite (be_split 4 4). f_equal; [|by apply be_bytes_wrap]. unfold be_bytes. by rewrite to_bytes_shift.
Qed.

Lemma put_le16 v m p : put_unaligned_le16 v m p = put_at m p (to_bytes 2 v).
Proof.
  unfold put_unaligned_le16. cbn [to_bytes put_at]. rewrite fn_insert_comm by lia. f_equal; [zbits|]. f_equal. zbits.
Qed.

Lemma put_le32 v m p : put_unaligned_le32 v m p = put_at m p (to_bytes 4 v).
Proof.
  unfold put_unaligned_le32. rewrite !put_le16. rewrite put_at_comm by (rewrite !to_bytes_length; lia).
  rewrite (put_halves _ _ _ _ 2) by done. f_equal. rewrite (le_split 2 2). f_equal; [by apply to_bytes_wrap|by apply to_bytes_shift].
Qed.

Lemma put_le64 v m p : put_unaligned_le64 v m p = put_at m p (to_bytes 8 v).
Proof.
  unfold put_unaligned_le64. rewrite !put_le32. rewrite put_at_comm by (rewrite !to_bytes_length; lia).
  rewrite (put_halves _ _ _ _ 4) by (by rewrite to_bytes_length). f_equal. rewrite (le_split 4 4). f_equal; [by apply to_bytes_wrap|by apply to_bytes_shift].
Qed.

(** An integer that is put is read back, in either byte order. *)
Theorem unaligned_roundtrip v m p :
  get_unaligned_be16 (put_unaligned_be16 v m p) p = u16 v /\ get_unaligned_le16 (put_unaligned_le16 v m p) p = u16 v /\
  get_unaligned_be32 (put_unaligned_be32 v m p) p = u32 v /\ get_unaligned_le32 (put_unaligned_le32 v m p) p = u32 v /\
  get_unaligned_be64 (put_unaligned_be64 v m p) p = u64 v /\ get_unaligned_le64 (put_unaligned_le64 v m p) p = u64 v.
Proof.
  rewrite get_be16, get_be32, get_be64, get_le16, get_le32, get_le64, put_be16, put_be32, put_be64, put_le16, put_le32, put_le64.
  assert (forall n, be_value (u8s_at (put_at m p (be_bytes n v)) p n) = wrap (8 * Z.of_nat n) v) as Hb.
  { intros n. pose proof (bytes_put_at m p _ (be_bytes_uint n v)) as E. rewrite be_bytes_length in E. rewrite E. apply be_value_bytes. }
  assert (forall n, of_bytes (u8s_at (put_at m p (to_bytes n v)) p n) = wrap (8 * Z.of_nat n) v) as Hl.
  { intros n. pose proof (bytes_put_at m p _ (to_bytes_Forall n v)) as E. rewrite to_bytes_length in E. rewrite E. apply of_to_bytes. }
  split_and!; first [apply Hb|apply Hl].
Qed.
