(* ===== verification/Ctype.v ===== *)
(** Character classes, kernel/ctype.c and include/sys/ctype.h, and hexadecimal text,
    kernel/hexdump.c. *)

From stdpp Require Import list.
From S2P Require Import Prelude Cstring Bytes.

(** * Classes *)

Definition _U : Z := 0x01.
Definition _L : Z := 0x02.
Definition _D : Z := 0x04.
Definition _C : Z := 0x08.
Definition _P : Z := 0x10.
Definition _S : Z := 0x20.
Definition _X : Z := 0x40.
Definition _SP : Z := 0x80.

Definition _ctype : list Z := [
  _C; _C; _C; _C; _C; _C; _C; _C;
  _C; _C .| _S; _C .| _S; _C .| _S; _C .| _S; _C .| _S; _C; _C;
  _C; _C; _C; _C; _C; _C; _C; _C;
  _C; _C; _C; _C; _C; _C; _C; _C;
  _S .| _SP; _P; _P; _P; _P; _P; _P; _P;
  _P; _P; _P; _P; _P; _P; _P; _P;
  _D; _D; _D; _D; _D; _D; _D; _D;
  _D; _D; _P; _P; _P; _P; _P; _P;
  _P; _U .| _X; _U .| _X; _U .| _X; _U .| _X; _U .| _X; _U .| _X; _U;
  _U; _U; _U; _U; _U; _U; _U; _U;
  _U; _U; _U; _U; _U; _U; _U; _U;
  _U; _U; _U; _P; _P; _P; _P; _P;
  _P; _L .| _X; _L .| _X; _L .| _X; _L .| _X; _L .| _X; _L .| _X; _L;
  _L; _L; _L; _L; _L; _L; _L; _L;
  _L; _L; _L; _L; _L; _L; _L; _L;
  _L; _L; _L; _P; _P; _P; _P; _C;
  0; 0; 0; 0; 0; 0; 0; 0; 0; 0; 0; 0; 0; 0; 0; 0;
  0; 0; 0; 0; 0; 0; 0; 0; 0; 0; 0; 0; 0; 0; 0; 0;
  _S .| _SP; _P; _P; _P; _P; _P; _P; _P; _P; _P; _P; _P; _P; _P; _P; _P;
  _P; _P; _P; _P; _P; _P; _P; _P; _P; _P; _P; _P; _P; _P; _P; _P;
  _U; _U; _U; _U; _U; _U; _U; _U; _U; _U; _U; _U; _U; _U; _U; _U;
  _U; _U; _U; _U; _U; _U; _U; _P; _U; _U; _U; _U; _U; _U; _U; _L;
  _L; _L; _L; _L; _L; _L; _L; _L; _L; _L; _L; _L; _L; _L; _L; _L;
  _L; _L; _L; _L; _L; _L; _L; _P; _L; _L; _L; _L; _L; _L; _L; _L].

Definition __ismask (x : Z) : Z := nth (Z.to_nat (u8 x)) _ctype 0.

Definition isalnum (c : Z) : bool := negb (__ismask c .& (_U .| _L .| _D) =? 0).
Definition isalpha (c : Z) : bool := negb (__ismask c .& (_U .| _L) =? 0).
Definition iscntrl (c : Z) : bool := negb (__ismask c .& _C =? 0).
Definition isdigit (c : Z) : bool := (0x30 <=? c) && (c <=? 0x39).
Definition isgraph (c : Z) : bool := negb (__ismask c .& (_P .| _U .| _L .| _D) =? 0).
Definition islower (c : Z) : bool := negb (__ismask c .& _L =? 0).
Definition isprint (c : Z) : bool := negb (__ismask c .& (_P .| _U .| _L .| _D .| _SP) =? 0).
Definition ispunct (c : Z) : bool := negb (__ismask c .& _P =? 0).
Definition isspace (c : Z) : bool := negb (__ismask c .& _S =? 0).
Definition isupper (c : Z) : bool := negb (__ismask c .& _U =? 0).
Definition isxdigit (c : Z) : bool := negb (__ismask c .& (_D .| _X) =? 0).
Definition isodigit (c : Z) : bool := (0x30 <=? c) && (c <=? 0x37).

Definition __tolower (c : Z) : Z := if isupper c then u8 (c - (0x41 - 0x61)) else c.
Definition __toupper (c : Z) : Z := if islower c then u8 (c - (0x61 - 0x41)) else c.
Definition _tolower (c : Z) : Z := c .| 0x20.

(** * Hexadecimal text *)

Definition hex_asc (i : Z) : Z := nth (Z.to_nat i) [48; 49; 50; 51; 52; 53; 54; 55; 56; 57; 97; 98; 99; 100; 101; 102] 0.
Definition hex_asc_upper (i : Z) : Z := nth (Z.to_nat i) [48; 49; 50; 51; 52; 53; 54; 55; 56; 57; 65; 66; 67; 68; 69; 70] 0.
Definition hex_asc_lo (x : Z) : Z := hex_asc (x .& 0x0f).
Definition hex_asc_hi (x : Z) : Z := hex_asc ((x .& 0xf0) ≫ 4).
Definition hex_asc_upper_lo (x : Z) : Z := hex_asc_upper (x .& 0x0f).
Definition hex_asc_upper_hi (x : Z) : Z := hex_asc_upper ((x .& 0xf0) ≫ 4).

(** The memory and the new position. *)
Definition hex_byte_pack (m : mem) (buf byte : Z) : mem * Z := (<[buf + 1 := hex_asc_lo byte]> (<[buf := hex_asc_hi byte]> m), buf + 2).
Definition hex_byte_pack_upper (m : mem) (buf byte : Z) : mem * Z := (<[buf + 1 := hex_asc_upper_lo byte]> (<[buf := hex_asc_upper_hi byte]> m), buf + 2).

Definition hex_to_bin (ch : Z) : Z :=
  if (0x30 <=? ch) && (ch <=? 0x39) then ch - 0x30
  else
    let ch := __tolower ch in
    if (0x61 <=? ch) && (ch <=? 0x66) then ch - 0x61 + 10 else - 1.

Definition EINVAL : Z := 22.

Fixpoint hex2bin_loop (m : mem) (dst src : Z) (count : nat) : mem * Z :=
  match count with
  | O => (m, 0)
  | S count =>
      let hi := hex_to_bin (m src) in
      let lo := hex_to_bin (m (src + 1)) in
      if (hi <? 0) || (lo <? 0) then (m, - EINVAL)
      else hex2bin_loop (<[dst := u8 ((hi ≪ 4) .| lo)]> m) (dst + 1) (src + 2) count
  end.

Definition hex2bin (m : mem) (dst src count : Z) : mem * Z := hex2bin_loop m dst src (Z.to_nat count).

Fixpoint bin2hex_loop (m : mem) (dst src : Z) (count : nat) : mem * Z :=
  match count with
  | O => (m, dst)
  | S count => let '(m, dst) := hex_byte_pack m dst (m src) in bin2hex_loop m dst (src + 1) count
  end.

Definition bin2hex (m : mem) (dst src count : Z) : mem * Z := bin2hex_loop m dst src (Z.to_nat count).

(** * The table is ASCII *)

(** The classes of the characters below 128, by their ranges. *)
Definition between (c lo hi : Z) : bool := (lo <=? c) && (c <=? hi).

Theorem ctype_ascii c : 0 <= c < 128 ->
  isupper c = between c 0x41 0x5a /\ islower c = between c 0x61 0x7a /\ isalpha c = isupper c || islower c /\ isalnum c = isalpha c || isdigit c /\
  isxdigit c = isdigit c || between c 0x41 0x46 || between c 0x61 0x66 /\ iscntrl c = (c <? 0x20) || (c =? 0x7f) /\ isspace c = (c =? 0x20) || between c 0x09 0x0d /\
  isgraph c = between c 0x21 0x7e /\ isprint c = between c 0x20 0x7e /\ ispunct c = isgraph c && negb (isalnum c).
Proof.
  intros Hc. assert (forallb (fun k => let c := Z.of_nat k in
    eqb (isupper c) (between c 0x41 0x5a) && eqb (islower c) (between c 0x61 0x7a) && eqb (isalpha c) (isupper c || islower c) && eqb (isalnum c) (isalpha c || isdigit c) &&
    eqb (isxdigit c) (isdigit c || between c 0x41 0x46 || between c 0x61 0x66) && eqb (iscntrl c) ((c <? 0x20) || (c =? 0x7f)) && eqb (isspace c) ((c =? 0x20) || between c 0x09 0x0d) &&
    eqb (isgraph c) (between c 0x21 0x7e) && eqb (isprint c) (between c 0x20 0x7e) && eqb (ispunct c) (isgraph c && negb (isalnum c))) (seq 0 128) = true) as H by (by vm_compute).
  rewrite forallb_forall in H. specialize (H (Z.to_nat c)). rewrite Z2Nat.id in H by lia. rewrite !andb_true_iff, !eqb_true_iff in H.
  destruct H as [[[[[[[[[? ?] ?] ?] ?] ?] ?] ?] ?] ?]; [apply in_seq; lia|]. by split_and!.
Qed.

(** * Hexadecimal text and back *)

Lemma hex_byte c : uint 8 c -> hex_to_bin (hex_asc_hi c) = c / 16 /\ hex_to_bin (hex_asc_lo c) = c mod 16 /\ u8 (((c / 16) ≪ 4) .| (c mod 16)) = c.
Proof.
  intros Hc. assert (forallb (fun k => let c := Z.of_nat k in (hex_to_bin (hex_asc_hi c) =? c / 16) && (hex_to_bin (hex_asc_lo c) =? c mod 16) && (u8 (((c / 16) ≪ 4) .| (c mod 16)) =? c)) (seq 0 256) = true) as H by (by vm_compute).
  rewrite forallb_forall in H. unfold uint in Hc. specialize (H (Z.to_nat c)). rewrite Z2Nat.id in H by lia. rewrite !andb_true_iff, !Z.eqb_eq in H. destruct H as [[? ?] ?]; [apply in_seq; lia|done].
Qed.

(** The text of [n] bytes: two characters for each, and nothing else changes. *)
Lemma bin2hex_ok n : forall m dst src, dst + 2 * Z.of_nat n <= src \/ src + Z.of_nat n <= dst -> let r := bin2hex_loop m dst src n in
  r.2 = dst + 2 * Z.of_nat n /\ (forall i, 0 <= i < Z.of_nat n -> r.1 (dst + 2 * i) = hex_asc_hi (m (src + i)) /\ r.1 (dst + 2 * i + 1) = hex_asc_lo (m (src + i))) /\
  forall a, in_range a dst (2 * Z.of_nat n) = false -> r.1 a = m a.
Proof.
  induction n as [|n IH]; intros m dst src Hd; [cbn; split_and!; [lia|lia|done]|]. cbn [bin2hex_loop hex_byte_pack]. set (m1 := <[dst + 1 := _]> _). destruct (IH m1 (dst + 2) (src + 1) ltac:(lia)) as (E & Hin & Hout).
  assert (forall a, a <> dst -> a <> dst + 1 -> m1 a = m a) as Hm1 by (intros; unfold m1; fn_simpl; done). split_and!; [lia| |].
  - intros i Hi. destruct (decide (i = 0)) as [->|].
    + rewrite !Hout by (apply in_range_false; lia). replace (dst + 2 * 0) with dst by lia. rewrite Z.add_0_r. unfold m1. split; fn_simpl; done.
    + destruct (Hin (i - 1) ltac:(lia)) as [E1 E2]. replace (dst + 2 + 2 * (i - 1)) with (dst + 2 * i) in * by lia. replace (src + 1 + (i - 1)) with (src + i) in * by lia. by rewrite E1, E2, Hm1 by lia.
  - intros a Ha. apply in_range_false in Ha. rewrite Hout by (apply in_range_false; lia). apply Hm1; lia.
Qed.

Lemma hex2bin_ok n (f : Z -> Z) : forall m dst src, dst + Z.of_nat n <= src \/ src + 2 * Z.of_nat n <= dst ->
  (forall i, 0 <= i < Z.of_nat n -> uint 8 (f i) /\ m (src + 2 * i) = hex_asc_hi (f i) /\ m (src + 2 * i + 1) = hex_asc_lo (f i)) ->
  let r := hex2bin_loop m dst src n in r.2 = 0 /\ forall a, r.1 a = if in_range a dst (Z.of_nat n) then f (a - dst) else m a.
Proof.
  revert f. induction n as [|n IH]; intros f m dst src Hd Ht; [cbn; split; [done|]; intros a; range_cases; [lia|done]|]. cbn [hex2bin_loop]. destruct (Ht 0 ltac:(lia)) as (H0 & Hhi & Hlo).
  replace (src + 2 * 0) with src in * by lia. destruct (hex_byte _ H0) as (E1 & E2 & E3). rewrite Hhi, Hlo, E1, E2, E3. unfold uint in H0. pose proof (Z.div_pos (f 0) 16 ltac:(lia) ltac:(lia)). pose proof (Z.mod_pos_bound (f 0) 16 ltac:(lia)).
  rewrite !(proj2 (Z.ltb_ge _ 0)) by lia. cbn [orb]. destruct (IH (fun i => f (i + 1)) (<[dst := f 0]> m) (dst + 1) (src + 2)) as [Er Ea]; [lia| |].
  - intros i Hi. destruct (Ht (i + 1) ltac:(lia)) as (Hu & Hh1 & Hh2). replace (src + 2 + 2 * i) with (src + 2 * (i + 1)) by lia. split; [done|]. fn_simpl. done.
  - cbv zeta in *. split; [done|]. intros a. rewrite Ea. range_cases; try lia; [f_equal; lia| |fn_simpl; done]. replace a with dst by lia. fn_simpl. by rewrite Z.sub_diag.
Qed.

(** Bytes in hexadecimal and back: bin2hex writes two characters for each byte and
    returns the end of the text, hex2bin accepts the text and writes the bytes, and
    neither writes anything else. *)
Theorem hex_roundtrip m bin text back n : 0 <= n -> (forall i, 0 <= i < n -> uint 8 (m (bin + i))) ->
  text + 2 * n <= bin \/ bin + n <= text -> back + n <= text \/ text + 2 * n <= back ->
  let '(m1, p) := bin2hex m text bin n in let '(m2, r) := hex2bin m1 back text n in
  p = text + 2 * n /\ r = 0 /\ forall a, m2 a = if in_range a back n then m (bin + (a - back)) else m1 a.
Proof.
  intros Hn Hu Hd Hd'. unfold bin2hex, hex2bin. destruct (bin2hex_ok (Z.to_nat n) m text bin ltac:(lia)) as (E & Hin & Hout). destruct (bin2hex_loop m text bin (Z.to_nat n)) as [m1 p]. cbn [fst snd] in *. rewrite Z2Nat.id in * by lia.
  destruct (hex2bin_ok (Z.to_nat n) (fun i => m (bin + i)) m1 back text) as [Er Ea]; [lia| |].
  - intros i Hi. rewrite Z2Nat.id in Hi by lia. destruct (Hin i Hi) as [-> ->]. split_and!; [by apply Hu|done|done].
  - destruct (hex2bin_loop m1 back text (Z.to_nat n)) as [m2 r]. cbn [fst snd] in *. rewrite Z2Nat.id in Ea by lia. by split_and!.
Qed.
