(* ===== verification/Vsprintf.v ===== *)
(** Formatted output, kernel/vsprintf.c: numbers, strings, the directives of a format,
    and vsnprintf over a buffer of a given size. *)

From stdpp Require Import list.
From S2P Require Import Prelude Cstring Bytes Unaligned Ctype.

(** * Numbers in decimal *)

(** The 16-bit entry of a number below 100: its two digits, the last one first. *)
Definition decpair (x : Z) : Z := u16 (((x mod 10) .| ((x / 10) ≪ 8)) + 0x3030).

(** A 16-bit store to a buffer. *)
Definition put16 (t : Z -> Z) (i v : Z) : Z -> Z := <[i + 1 := u8 (v ≫ 8)]> (<[i := u8 v]> t).

(** The position is the index of the pointer in the buffer. *)
Definition put_dec_trunc8 (t : Z -> Z) (i r : Z) : (Z -> Z) * Z :=
  let out_r (t : Z -> Z) (i r : Z) := (put16 t i (decpair r), i + if r <? 10 then 1 else 2) in
  if r <? 100 then out_r t i r
  else
    let q := u32 (u64 (r * 0x28f5c29) ≫ 32) in
    let t := put16 t i (decpair (u32 (r - 100 * q))) in
    let i := i + 2 in
    if q <? 100 then out_r t i q
    else
      let r := u32 (u64 (q * 0x28f5c29) ≫ 32) in
      let t := put16 t i (decpair (u32 (q - 100 * r))) in
      let i := i + 2 in
      if r <? 100 then out_r t i r
      else
        let q := u32 (r * 0x147b) ≫ 19 in
        let t := put16 t i (decpair (u32 (r - 100 * q))) in
        out_r t (i + 2) q.

Definition put_dec_full8 (t : Z -> Z) (i r : Z) : (Z -> Z) * Z :=
  let q := u32 (u64 (r * 0x28f5c29) ≫ 32) in
  let t := put16 t i (decpair (u32 (r - 100 * q))) in
  let i := i + 2 in
  let r := u32 (u64 (q * 0x28f5c29) ≫ 32) in
  let t := put16 t i (decpair (u32 (q - 100 * r))) in
  let i := i + 2 in
  let q := u32 (r * 0x147b) ≫ 19 in
  let t := put16 t i (decpair (u32 (r - 100 * q))) in
  let i := i + 2 in
  (put16 t i (decpair q), i + 2).

Definition put_dec (t : Z -> Z) (i n : Z) : (Z -> Z) * Z :=
  let base := 100 * 1000 * 1000 in
  let '(t, i, n) := if base <=? n then (put_dec_full8 t i (n mod base), n / base) else (t, i, n) in
  let '(t, i, n) := if base <=? n then (put_dec_full8 t i (n mod base), n / base) else (t, i, n) in
  put_dec_trunc8 t i (u32 n).

(** * Directives *)

Definition SIGN : Z := 1.
Definition LEFT : Z := 2.
Definition PLUS : Z := 4.
Definition SPACE : Z := 8.
Definition ZEROPAD : Z := 16.
Definition SMALL : Z := 32.
Definition SPECIAL : Z := 64.

Definition FORMAT_TYPE_NONE : Z := 0.
Definition FORMAT_TYPE_WIDTH : Z := 1.
Definition FORMAT_TYPE_PRECISION : Z := 2.
Definition FORMAT_TYPE_CHAR : Z := 3.
Definition FORMAT_TYPE_STR : Z := 4.
Definition FORMAT_TYPE_PTR : Z := 5.
Definition FORMAT_TYPE_PERCENT_CHAR : Z := 6.
Definition FORMAT_TYPE_INVALID : Z := 7.
Definition FORMAT_TYPE_LONG_LONG : Z := 8.
Definition FORMAT_TYPE_ULONG : Z := 9.
Definition FORMAT_TYPE_LONG : Z := 10.
Definition FORMAT_TYPE_UBYTE : Z := 11.
Definition FORMAT_TYPE_BYTE : Z := 12.
Definition FORMAT_TYPE_USHORT : Z := 13.
Definition FORMAT_TYPE_SHORT : Z := 14.
Definition FORMAT_TYPE_UINT : Z := 15.
Definition FORMAT_TYPE_INT : Z := 16.
Definition FORMAT_TYPE_SIZE_T : Z := 17.
Definition FORMAT_TYPE_PTRDIFF : Z := 18.

(** The width has 24 bits and the precision 16, both signed. *)
Record printf_spec := Spec { type : Z; field_width : Z; flags : Z; base : Z; precision : Z }.

Definition set_type (t : Z) (s : printf_spec) : printf_spec := Spec t (field_width s) (flags s) (base s) (precision s).
Definition set_field_width (w : Z) (s : printf_spec) : printf_spec := Spec (type s) (sgn 24 w) (flags s) (base s) (precision s).
Definition set_flags (f : Z) (s : printf_spec) : printf_spec := Spec (type s) (field_width s) (u8 f) (base s) (precision s).
Definition set_base (b : Z) (s : printf_spec) : printf_spec := Spec (type s) (field_width s) (flags s) b (precision s).
Definition set_precision (p : Z) (s : printf_spec) : printf_spec := Spec (type s) (field_width s) (flags s) (base s) (sgn 16 p).

(** A flag of a directive. *)
Definition has_flag (s : printf_spec) (f : Z) : bool := negb (flags s .& f =? 0).
Definition add_flag (f : Z) (s : printf_spec) : printf_spec := set_flags (flags s .| f) s.

(** * Output *)

(** The memory and the position in it; writes at or past the end are left out. *)
Abbreviation out := (mem * Z)%type.

Definition put (e c : Z) (o : out) : out := (if o.2 <? e then <[o.2 := u8 c]> o.1 else o.1, o.2 + 1).

Fixpoint puts (e c : Z) (n : nat) (o : out) : out :=
  match n with
  | O => o
  | S n => puts e c n (put e c o)
  end.

(** [while (--n >= 0)]: a character, as often as the count says, and the count after
    the loop. *)
Definition pad (e c n : Z) (o : out) : out * Z := (puts e c (Z.to_nat n) o, Z.min n 0 - 1).

(** [while (--i >= 0)]: the bytes of a buffer from the last one on. *)
Fixpoint put_rev (e : Z) (t : Z -> Z) (i : nat) (o : out) : out :=
  match i with
  | O => o
  | S i => put_rev e t i (put e (t (Z.of_nat i)) o)
  end.

(** ** Numbers *)

(** The digits in base 8 or 16, the last one first; a number has at most 64 bits. *)
Fixpoint hex_digits (n : nat) (t : Z -> Z) (i num mask shift locase : Z) : (Z -> Z) * Z :=
  match n with
  | O => (t, i)
  | S n =>
      let t := <[i := u8 (hex_asc_upper (u8 num .& mask) .| locase)]> t in
      let i := i + 1 in
      let num := num ≫ shift in
      if negb (num =? 0) then hex_digits n t i num mask shift locase else (t, i)
  end.

(** The sign, which is 0 for none, the number without it, and the width that is left. *)
Definition number_sign (spec : printf_spec) (num field_width : Z) : Z * Z * Z :=
  if has_flag spec SIGN then
    if s64 num <? 0 then (0x2d, u64 (- s64 num), field_width - 1)
    else if has_flag spec PLUS then (0x2b, num, field_width - 1)
    else if has_flag spec SPACE then (0x20, num, field_width - 1)
    else (0, num, field_width)
  else (0, num, field_width).

(** The digits in reverse order, in a buffer of 24 bytes, and their number. *)
Definition number_digits (base num locase : Z) : (Z -> Z) * Z :=
  let tmp : Z -> Z := fun _ => 0 in
  if num <? base then (<[0 := u8 (hex_asc_upper num .| locase)]> tmp, 1)
  else if negb (base =? 10) then hex_digits 64 tmp 0 num (base - 1) (if base =? 16 then 4 else 3) locase
  else put_dec tmp 0 num.

Definition number_prefix (e : Z) (need_pfx is_zero : bool) (base locase : Z) (o : out) : out :=
  if need_pfx then
    let o := if (base =? 16) || negb is_zero then put e 0x30 o else o in
    if base =? 16 then put e (0x58 .| locase) o else o
  else o.

Definition number (o : out) (e num : Z) (spec : printf_spec) : out :=
  let need_pfx := has_flag spec SPECIAL && negb (base spec =? 10) in
  let is_zero := num =? 0 in
  let field_width := field_width spec in
  let precision := precision spec in
  let locase := flags spec .& SMALL in
  let spec := if has_flag spec LEFT then set_flags (flags spec .& Z.lnot ZEROPAD) spec else spec in
  let '(sign, num, field_width) := number_sign spec num field_width in
  let field_width :=
    if need_pfx then
      if base spec =? 16 then field_width - 2
      else if negb is_zero then field_width - 1
      else field_width
    else field_width in
  let '(tmp, i) := number_digits (base spec) num locase in
  let precision := if precision <? i then i else precision in
  let field_width := field_width - precision in
  let '(o, field_width) := if negb (has_flag spec ZEROPAD || has_flag spec LEFT) then pad e 0x20 field_width o else (o, field_width) in
  let o := if negb (sign =? 0) then put e sign o else o in
  let o := number_prefix e need_pfx is_zero (base spec) locase o in
  let '(o, field_width) := if negb (has_flag spec LEFT) then pad e (0x20 + (flags spec .& ZEROPAD)) field_width o else (o, field_width) in
  let o := puts e 0x30 (Z.to_nat (precision - i)) o in
  let o := put_rev e tmp (Z.to_nat i) o in
  fst (pad e 0x20 field_width o).

Definition special_hex_number (o : out) (e num size : Z) : out :=
  number o e num (Spec FORMAT_TYPE_PTR (2 + 2 * size) (SPECIAL .| SMALL .| ZEROPAD) 16 (- 1)).

(** ** Strings *)

Definition move_right (m : mem) (buf e len spaces : Z) : mem :=
  if e <=? buf then m
  else
    let size := e - buf in
    if size <=? spaces then memset m buf 0x20 size
    else
      let m := if negb (len =? 0) then memmove m (buf + spaces) buf (if size - spaces <? len then size - spaces else len) else m in
      memset m buf 0x20 spaces.

Definition widen_string (o : out) (n e : Z) (spec : printf_spec) : out :=
  if field_width spec <=? n then o
  else
    let spaces := field_width spec - n in
    if negb (has_flag spec LEFT) then (move_right o.1 (o.2 - n) e n spaces, o.2 + spaces)
    else puts e 0x20 (Z.to_nat spaces) o.

(** Where the characters of a string are: the byte at an index, in the memory at that
    time; a literal is outside the memory. *)
Abbreviation source := (mem -> Z -> Z).
Definition at_address (s : Z) : source := fun m i => m (s + i).
Definition literal (l : list Z) : source := fun _ i => nth (Z.to_nat i) l 0.

Definition str_null : list Z := [0x28; 0x6e; 0x75; 0x6c; 0x6c; 0x29].

(** The loop over at most [lim] characters; it has the index in the string and the
    length so far. *)
Fixpoint put_string (n : nat) (e : Z) (s : source) (i lim : Z) (o : out) : option (out * Z) :=
  match n with
  | O => None
  | S n =>
      if lim =? 0 then Some (o, i)
      else
        let c := s o.1 i in
        if c =? 0 then Some (o, i) else put_string n e s (i + 1) (lim - 1) (put e c o)
  end.

(** The fuel bounds the length of the string. *)
Definition string (fuel : nat) (o : out) (e : Z) (s : source) (spec : printf_spec) : option out :=
  '(o, len) ← put_string fuel e s 0 (u64 (precision spec)) o;
  Some (widen_string o len e spec).

(** ** Pointers *)

Definition symbol_string (o : out) (e ptr : Z) : out := special_hex_number o e ptr 8.

Definition IORESOURCE_IO : Z := 0x00000100.
Definition IORESOURCE_MEM : Z := 0x00000200.
Definition IORESOURCE_IRQ : Z := 0x00000400.
Definition IORESOURCE_DMA : Z := 0x00000800.
Definition IORESOURCE_BUS : Z := 0x00001000.
Definition IORESOURCE_PREFETCH : Z := 0x00002000.
Definition IORESOURCE_MEM_64 : Z := 0x00100000.
Definition IORESOURCE_WINDOW : Z := 0x00200000.
Definition IORESOURCE_DISABLED : Z := 0x10000000.
Definition IORESOURCE_UNSET : Z := 0x20000000.

Definition io_spec : printf_spec := Spec 0 6 (SPECIAL .| SMALL .| ZEROPAD) 16 (- 1).
Definition mem_spec : printf_spec := Spec 0 10 (SPECIAL .| SMALL .| ZEROPAD) 16 (- 1).
Definition bus_spec : printf_spec := Spec 0 2 (SMALL .| ZEROPAD) 16 (- 1).
Definition dec_spec : printf_spec := Spec 0 0 0 10 (- 1).
Definition str_spec : printf_spec := Spec 0 (- 1) LEFT 0 10.
Definition flag_spec : printf_spec := Spec 0 0 (SPECIAL .| SMALL) 16 (- 1).

Definition str_io : list Z := [0x69; 0x6f; 0x20; 0x20].
Definition str_mem : list Z := [0x6d; 0x65; 0x6d; 0x20].
Definition str_irq : list Z := [0x69; 0x72; 0x71; 0x20].
Definition str_dma : list Z := [0x64; 0x6d; 0x61; 0x20].
Definition str_bus : list Z := [0x62; 0x75; 0x73; 0x20].
Definition str_unknown : list Z := [0x3f; 0x3f; 0x3f; 0x20].
Definition str_size : list Z := [0x73; 0x69; 0x7a; 0x65; 0x20].
Definition str_64bit : list Z := [0x20; 0x36; 0x34; 0x62; 0x69; 0x74].
Definition str_pref : list Z := [0x20; 0x70; 0x72; 0x65; 0x66].
Definition str_window : list Z := [0x20; 0x77; 0x69; 0x6e; 0x64; 0x6f; 0x77].
Definition str_disabled : list Z := [0x20; 0x64; 0x69; 0x73; 0x61; 0x62; 0x6c; 0x65; 0x64].
Definition str_flags : list Z := [0x20; 0x66; 0x6c; 0x61; 0x67; 0x73; 0x20].

(** The size of the buffer for the text of a resource. *)
Definition SYM_SIZE : Z := 75.

(** The name of the kind of a resource, how its numbers look, and whether its flags
    are decoded. *)
Definition resource_kind (r_flags : Z) (fmt : list Z) : list Z * printf_spec * bool :=
  let flag (f : Z) := negb (r_flags .& f =? 0) in
  let decode := nth 0 fmt 0 =? 0x52 in
  if flag IORESOURCE_IO then (str_io, io_spec, decode)
  else if flag IORESOURCE_MEM then (str_mem, mem_spec, decode)
  else if flag IORESOURCE_IRQ then (str_irq, dec_spec, decode)
  else if flag IORESOURCE_DMA then (str_dma, dec_spec, decode)
  else if flag IORESOURCE_BUS then (str_bus, bus_spec, decode)
  else (str_unknown, mem_spec, false).

(** A resource is its start, its end and its flags, at [res]. The text is built in a
    buffer of its own. *)
Definition resource_string (fuel : nat) (o : out) (e res : Z) (spec : printf_spec) (fmt : list Z) : option out :=
  let r_start := load_le 64 8 o.1 res in
  let r_end := load_le 64 8 o.1 (res + 8) in
  let r_flags := load_le 64 8 o.1 (res + 16) in
  let flag (f : Z) := negb (r_flags .& f =? 0) in
  let text (s : list Z) (p : out) := string 11 p SYM_SIZE (literal s) str_spec in
  let put_in (c : Z) (p : out) : out := (<[p.2 := c]> p.1, p.2 + 1) in
  let p : out := put_in 0x5b (fun _ => 0, 0) in
  let '(name, specp, decode) := resource_kind r_flags fmt in
  p ← text name p;
  p ← (if decode && flag IORESOURCE_UNSET then
         p ← text str_size p; Some (number p SYM_SIZE (u64 (r_end - r_start + 1)) specp)
       else
         let p := number p SYM_SIZE r_start specp in
         Some (if negb (r_start =? r_end) then number (put_in 0x2d p) SYM_SIZE r_end specp else p));
  p ← (if decode : bool then
         p ← (if flag IORESOURCE_MEM_64 then text str_64bit p else Some p);
         p ← (if flag IORESOURCE_PREFETCH then text str_pref p else Some p);
         p ← (if flag IORESOURCE_WINDOW then text str_window p else Some p);
         (if flag IORESOURCE_DISABLED then text str_disabled p else Some p)
       else
         p ← text str_flags p; Some (number p SYM_SIZE r_flags flag_spec));
  let p := put_in 0x5d p in
  let sym := <[p.2 := 0]> p.1 in
  string fuel o e (fun _ i => sym i) spec.

(** The loop from byte [i] on, [n] bytes to go. *)
Fixpoint hex_string_loop (n : nat) (o : out) (e addr i len separator : Z) : out :=
  match n with
  | O => o
  | S n =>
      let o := put e (hex_asc_hi (o.1 (addr + i))) o in
      let o := put e (hex_asc_lo (o.1 (addr + i))) o in
      let o := if negb (separator =? 0) && negb (i =? len - 1) then put e separator o else o in
      hex_string_loop n o e addr (i + 1) len separator
  end.

Definition hex_string (fuel : nat) (o : out) (e addr : Z) (spec : printf_spec) (fmt : list Z) : option out :=
  if field_width spec =? 0 then Some o
  else if addr =? 0 then string fuel o e (literal str_null) spec
  else
    let c := nth 1 fmt 0 in
    let separator := if c =? 0x43 then 0x3a else if c =? 0x44 then 0x2d else if c =? 0x4e then 0 else 0x20 in
    let len := if 0 <? field_width spec then Z.min (field_width spec) 64 else 1 in
    Some (hex_string_loop (Z.to_nat len) o e addr 0 len separator).

Fixpoint mac_loop (n : nat) (p : out) (m : mem) (addr i separator : Z) (reversed colons : bool) : out :=
  match n with
  | O => p
  | S n =>
      let p := hex_byte_pack p.1 p.2 (m (addr + if reversed then 5 - i else i)) in
      let p := if colons && negb (i =? 5) then (<[p.2 := separator]> p.1, p.2 + 1) else p in
      mac_loop n p m addr (i + 1) separator reversed colons
  end.

Definition mac_address_string (fuel : nat) (o : out) (e addr : Z) (spec : printf_spec) (fmt : list Z) : option out :=
  let c := nth 1 fmt 0 in
  let separator := if c =? 0x46 then 0x2d else 0x3a in
  let reversed := c =? 0x52 in
  let p := mac_loop 6 (fun _ => 0, 0) o.1 addr 0 separator reversed (nth 0 fmt 0 =? 0x4d) in
  let mac_addr := <[p.2 := 0]> p.1 in
  string fuel o e (fun _ i => mac_addr i) spec.

Definition pointer_string (o : out) (e ptr : Z) (spec : printf_spec) : out :=
  let spec := add_flag SMALL (set_base 16 spec) in
  let spec := if field_width spec =? - 1 then add_flag ZEROPAD (set_field_width (2 * 8) spec) else spec in
  number o e ptr spec.

(** Both kinds of addresses have 64 bits. *)
Definition address_val (o : out) (e addr : Z) : out := special_hex_number o e (load_le 64 8 o.1 addr) 8.

(** [fmt] is what follows the p. *)
Definition pointer (fuel : nat) (fmt : list Z) (o : out) (e ptr : Z) (spec : printf_spec) : option out :=
  let default_width := 2 * 8 in
  if ptr =? 0 then
    let spec := if field_width spec =? - 1 then set_field_width default_width spec else spec in
    string fuel o e (literal str_null) spec
  else
    let c := nth 0 fmt 0 in
    if (c =? 0x46) || (c =? 0x66) || (c =? 0x53) || (c =? 0x73) || (c =? 0x42) then Some (symbol_string o e ptr)
    else if (c =? 0x52) || (c =? 0x72) then resource_string fuel o e ptr spec fmt
    else if c =? 0x68 then hex_string fuel o e ptr spec fmt
    else if (c =? 0x4d) || (c =? 0x6d) then mac_address_string fuel o e ptr spec fmt
    else if c =? 0x61 then Some (address_val o e ptr)
    else Some (pointer_string o e ptr spec).

(** * Formats *)

(** A format is the list of its characters, without the zero at its end; a pointer
    into it is what is left of the list. *)

(** The digits after the first one. *)
Fixpoint atoi_from (fmt : list Z) (i : Z) : Z * list Z :=
  match fmt with
  | [] => (i, [])
  | c :: rest => if isdigit c then atoi_from rest (s32 (i * 10 + c - 0x30)) else (i, fmt)
  end.

Definition skip_atoi (fmt : list Z) : Z * list Z := atoi_from (tail fmt) (s32 (nth 0 fmt 0 - 0x30)).

(** The text before the next directive, as what is left after it. *)
Fixpoint skip_text (fmt : list Z) : list Z :=
  match fmt with
  | [] => []
  | c :: rest => if c =? 0x25 then fmt else skip_text rest
  end.

(** The flags of a directive. *)
Fixpoint decode_flags (fmt : list Z) (spec : printf_spec) : list Z * printf_spec :=
  match fmt with
  | [] => ([], spec)
  | c :: rest =>
      if c =? 0x2d then decode_flags rest (add_flag LEFT spec)
      else if c =? 0x2b then decode_flags rest (add_flag PLUS spec)
      else if c =? 0x20 then decode_flags rest (add_flag SPACE spec)
      else if c =? 0x23 then decode_flags rest (add_flag SPECIAL spec)
      else if c =? 0x30 then decode_flags rest (add_flag ZEROPAD spec)
      else (fmt, spec)
  end.

(** From the label qualifier on. *)
Definition decode_qualifier (fmt : list Z) (spec : printf_spec) : list Z * printf_spec :=
  let c := nth 0 fmt 0 in
  let '(qualifier, fmt) :=
    if (c =? 0x68) || (_tolower c =? 0x6c) || (c =? 0x7a) || (c =? 0x74) then
      let fmt := tail fmt in
      if c =? nth 0 fmt 0 then
        if c =? 0x6c then (0x4c, tail fmt)
        else if c =? 0x68 then (0x48, tail fmt)
        else (c, fmt)
      else (c, fmt)
    else (0, fmt) in
  let spec := set_base 10 spec in
  let c := nth 0 fmt 0 in
  let rest := tail fmt in
  let integer (spec : printf_spec) :=
    let sign := flags spec .& SIGN in
    (rest, set_type (if qualifier =? 0x4c then FORMAT_TYPE_LONG_LONG
                     else if qualifier =? 0x6c then FORMAT_TYPE_ULONG + sign
                     else if qualifier =? 0x7a then FORMAT_TYPE_SIZE_T
                     else if qualifier =? 0x74 then FORMAT_TYPE_PTRDIFF
                     else if qualifier =? 0x48 then FORMAT_TYPE_UBYTE + sign
                     else if qualifier =? 0x68 then FORMAT_TYPE_USHORT + sign
                     else FORMAT_TYPE_UINT + sign) spec) in
  if c =? 0x63 then (rest, set_type FORMAT_TYPE_CHAR spec)
  else if c =? 0x73 then (rest, set_type FORMAT_TYPE_STR spec)
  else if c =? 0x70 then (rest, set_type FORMAT_TYPE_PTR spec)
  else if c =? 0x25 then (rest, set_type FORMAT_TYPE_PERCENT_CHAR spec)
  else if c =? 0x6f then integer (set_base 8 spec)
  else if c =? 0x78 then integer (set_base 16 (add_flag SMALL spec))
  else if c =? 0x58 then integer (set_base 16 spec)
  else if (c =? 0x64) || (c =? 0x69) then integer (add_flag SIGN spec)
  else if c =? 0x75 then integer spec
  else (fmt, set_type FORMAT_TYPE_INVALID spec).

(** From the label precision on. *)
Definition decode_precision (fmt : list Z) (spec : printf_spec) : list Z * printf_spec :=
  let spec := set_precision (- 1) spec in
  if nth 0 fmt 0 =? 0x2e then
    let fmt := tail fmt in
    if isdigit (nth 0 fmt 0) then
      let '(p, fmt) := skip_atoi fmt in
      let spec := set_precision p spec in
      decode_qualifier fmt (if precision spec <? 0 then set_precision 0 spec else spec)
    else if nth 0 fmt 0 =? 0x2a then (tail fmt, set_type FORMAT_TYPE_PRECISION spec)
    else decode_qualifier fmt spec
  else decode_qualifier fmt spec.

(** What is left of the format after one step, and the directive. *)
Definition format_decode (fmt : list Z) (spec : printf_spec) : list Z * printf_spec :=
  if type spec =? FORMAT_TYPE_WIDTH then
    let spec := if field_width spec <? 0 then add_flag LEFT (set_field_width (- field_width spec) spec) else spec in
    decode_precision fmt (set_type FORMAT_TYPE_NONE spec)
  else if type spec =? FORMAT_TYPE_PRECISION then
    let spec := if precision spec <? 0 then set_precision 0 spec else spec in
    decode_qualifier fmt (set_type FORMAT_TYPE_NONE spec)
  else
    let spec := set_type FORMAT_TYPE_NONE spec in
    let rest := skip_text fmt in
    if negb (length rest =? length fmt)%nat || (length rest =? 0)%nat then (rest, spec)
    else
      let '(fmt, spec) := decode_flags (tail fmt) (set_flags 0 spec) in
      let spec := set_field_width (- 1) spec in
      if isdigit (nth 0 fmt 0) then let '(w, fmt) := skip_atoi fmt in decode_precision fmt (set_field_width w spec)
      else if nth 0 fmt 0 =? 0x2a then (tail fmt, set_type FORMAT_TYPE_WIDTH spec)
      else decode_precision fmt spec.

(** * vsnprintf *)

(** The number that a directive takes from an argument. *)
Definition int_arg (spec : printf_spec) (a : Z) : Z :=
  let t := type spec in
  if (t =? FORMAT_TYPE_LONG_LONG) || (t =? FORMAT_TYPE_ULONG) || (t =? FORMAT_TYPE_LONG) || (t =? FORMAT_TYPE_SIZE_T) || (t =? FORMAT_TYPE_PTRDIFF) then u64 a
  else if t =? FORMAT_TYPE_UBYTE then u8 a
  else if t =? FORMAT_TYPE_BYTE then u64 (sgn 8 a)
  else if t =? FORMAT_TYPE_USHORT then u16 a
  else if t =? FORMAT_TYPE_SHORT then u64 (sgn 16 a)
  else if t =? FORMAT_TYPE_INT then u64 (s32 a)
  else u32 a.

(** [while (--spec.field_width > 0)], on 24 bits: a blank each time. *)
Definition pad_char (e : Z) (spec : printf_spec) (o : out) : out * printf_spec :=
  let w := sgn 24 (field_width spec - 1) in
  (puts e 0x20 (Z.to_nat w) o, set_field_width (Z.min w 0) spec).

Definition put_char (e c : Z) (spec : printf_spec) (o : out) : out * printf_spec :=
  let '(o, spec) := if negb (has_flag spec LEFT) then pad_char e spec o else (o, spec) in
  pad_char e spec (put e (u8 c) o).

(** The characters of a text, as far as they fit. *)
Definition put_text (e : Z) (text : list Z) (o : out) : out :=
  let copy := if e - o.2 <? Z.of_nat (length text) then e - o.2 else Z.of_nat (length text) in
  (if o.2 <? e then put_at o.1 o.2 (take (Z.to_nat copy) text) else o.1, o.2 + Z.of_nat (length text)).

Fixpoint skip_alnum (fmt : list Z) : list Z :=
  match fmt with
  | [] => []
  | c :: rest => if isalnum c then skip_alnum rest else fmt
  end.

Section vsnprintf.
(** A bound on the length of strings. *)
Context (fuel : nat).

(** The loop: one directive or the text before it in each iteration. An argument that
    is missing has no defined value. *)
Fixpoint format_loop (n : nat) (e : Z) (fmt : list Z) (args : list Z) (spec : printf_spec) (o : out) : option out :=
  match n with
  | O => None
  | S n =>
      match fmt with
      | [] => Some o
      | _ =>
          let '(rest, spec) := format_decode fmt spec in
          let t := type spec in
          if t =? FORMAT_TYPE_NONE then format_loop n e rest args spec (put_text e (take (length fmt - length rest) fmt) o)
          else if t =? FORMAT_TYPE_PERCENT_CHAR then format_loop n e rest args spec (put e 0x25 o)
          else if t =? FORMAT_TYPE_INVALID then Some o
          else
            match args with
            | [] => None
            | a :: args =>
                if t =? FORMAT_TYPE_WIDTH then format_loop n e rest args (set_field_width (s32 a) spec) o
                else if t =? FORMAT_TYPE_PRECISION then format_loop n e rest args (set_precision (s32 a) spec) o
                else if t =? FORMAT_TYPE_CHAR then let '(o, spec) := put_char e a spec o in format_loop n e rest args spec o
                else if t =? FORMAT_TYPE_STR then
                  o ← string fuel o e (if a =? 0 then literal str_null else at_address a) spec; format_loop n e rest args spec o
                else if t =? FORMAT_TYPE_PTR then
                  o ← pointer fuel rest o e a spec; format_loop n e (skip_alnum rest) args spec o
                else format_loop n e rest args spec (number o e (int_arg spec a) spec)
            end
      end
  end.

Definition INT_MAX : Z := 2 ^ 31 - 1.

(** The memory, and the length of the text. *)
Definition vsnprintf (m : mem) (buf size : Z) (fmt args : list Z) : option (mem * Z) :=
  if INT_MAX <? size then Some (m, 0)
  else
    let e := u64 (buf + size) in
    let '(e, size) := if e <? buf then (2 ^ 64 - 1, 2 ^ 64 - 1 - buf) else (e, size) in
    o ← format_loop (S (length fmt)) e fmt args (Spec 0 0 0 0 0) (m, buf);
    let m := if 0 <? size then if o.2 <? e then <[o.2 := 0]> o.1 else <[e - 1 := 0]> o.1 else o.1 in
    Some (m, s32 (o.2 - buf)).

Definition vscnprintf (m : mem) (buf size : Z) (fmt args : list Z) : option (mem * Z) :=
  '(m, i) ← vsnprintf m buf size fmt args;
  Some (m, if u64 i <? size then i else if negb (size =? 0) then s32 (size - 1) else 0).

Definition scnprintf (m : mem) (buf size : Z) (fmt args : list Z) : option (mem * Z) := vscnprintf m buf size fmt args.
End vsnprintf.
