(* ===== verification/VsprintfProps.v ===== *)
(** Formatted output: decimal digits by multiplication, numbers, strings and pointers
    against their text, and vsnprintf against a rendering of the format. *)

From stdpp Require Import list.
From S2P Require Import Prelude Cstring Bytes Unaligned Ctype Vsprintf.

(** * Digits *)

Fixpoint rdigits_from (n : nat) (b x : Z) : list Z :=
  match n with
  | O => []
  | S n => x mod b :: if x / b =? 0 then [] else rdigits_from n b (x / b)
  end.

(** The digits of a number in base [b], the last one first. *)
Definition rdigits (b x : Z) : list Z := rdigits_from (S (Z.to_nat (Z.log2 x))) b x.

Lemma log2_div b x : 2 <= b -> b <= x -> Z.log2 (x / b) < Z.log2 x.
Proof.
  intros Hb Hx. assert (x / b <= x / 2) by (apply Z.div_le_compat_l; lia). assert (0 < x / b) by (apply Z.div_str_pos; lia).
  assert (Z.log2 (x / b) <= Z.log2 (x / 2)) by (by apply Z.log2_le_mono). assert (Z.log2 (x / 2) = Z.log2 x - 1) as E; [|lia].
  change 2 with (2 ^ 1) at 1. rewrite <- Z.shiftr_div_pow2, Z.log2_shiftr by lia. assert (1 <= Z.log2 x) by (apply Z.log2_le_pow2; lia). lia.
Qed.

Lemma rdigits_enough b : 2 <= b -> forall n x, 0 <= x -> Z.log2 x < Z.of_nat n -> rdigits_from n b x = rdigits b x.
Proof.
  intros Hb n. unfold rdigits. induction n as [n IH] using lt_wf_ind. intros x Hx Hn. pose proof (Z.log2_nonneg x). destruct n as [|n]; [lia|]. cbn [rdigits_from].
  destruct (Z.eqb_spec (x / b) 0) as [|Hd]; [done|]. f_equal. assert (b <= x) by (destruct (Z_lt_ge_dec x b); [rewrite Z.div_small in Hd by lia; lia|lia]).
  pose proof (log2_div b x Hb ltac:(lia)). assert (0 <= x / b) by (apply Z.div_pos; lia). pose proof (Z.log2_nonneg (x / b)).
  rewrite (IH n ltac:(lia) (x / b)), (IH (Z.to_nat (Z.log2 x)) ltac:(lia) (x / b)) by lia. done.
Qed.

Lemma rdigits_small b x : 0 <= x < b -> rdigits b x = [x].
Proof. intros Hx. unfold rdigits. cbn [rdigits_from]. by rewrite Z.mod_small, Z.div_small by lia. Qed.

Lemma rdigits_step b x : 2 <= b -> b <= x -> rdigits b x = x mod b :: rdigits b (x / b).
Proof.
  intros Hb Hx. unfold rdigits at 1. cbn [rdigits_from]. assert (0 < x / b) by (apply Z.div_str_pos; lia). rewrite (proj2 (Z.eqb_neq (x / b) 0)) by lia. f_equal.
  pose proof (log2_div b x Hb Hx). pose proof (Z.log2_nonneg (x / b)). apply rdigits_enough; lia.
Qed.

(** The digits are the number: each is below the base, together they have its value,
    and there is no zero in front. *)
Fixpoint rvalue (b : Z) (l : list Z) : Z :=
  match l with
  | [] => 0
  | d :: l => d + b * rvalue b l
  end.

Lemma rdigits_spec b : 2 <= b -> forall x, 0 <= x -> rvalue b (rdigits b x) = x /\ Forall (fun d => 0 <= d < b) (rdigits b x) /\ (last (rdigits b x) = Some 0 -> x = 0).
Proof.
  intros Hb x. induction x as [x IH] using (well_founded_induction (Z.lt_wf 0)). intros Hx. destruct (Z_lt_ge_dec x b).
  - rewrite rdigits_small by lia. cbn. split; [lia|]. split; [by repeat constructor|]. by intros [= ->].
  - rewrite rdigits_step by lia. assert (0 < x / b) by (apply Z.div_str_pos; lia). assert (x / b < x) by (apply Z.div_lt; lia). destruct (IH (x / b)) as (Hv & Hf & Hl); [lia|lia|].
    cbn [rvalue]. pose proof (Z.mod_pos_bound x b ltac:(lia)). pose proof (Z.div_mod x b ltac:(lia)). split; [lia|]. split; [by constructor|].
    destruct (rdigits b (x / b)) as [|d l]; [cbn in Hv; lia|]. rewrite last_cons_cons. intros E%Hl. lia.
Qed.

(** ** Decimal, two digits at a time *)

Definition pair10 (x : Z) : list Z := [x mod 10; x / 10 mod 10].

Lemma rdigits_pair x : 100 <= x -> rdigits 10 x = pair10 x ++ rdigits 10 (x / 100).
Proof.
  intros Hx. assert (10 <= x / 10) by (apply Z.div_le_lower_bound; lia). rewrite !rdigits_step by lia. rewrite Z.div_div by lia. done.
Qed.

Lemma rdigits_100 x : 0 <= x < 100 -> rdigits 10 x = if x <? 10 then [x] else pair10 x.
Proof.
  intros Hx. destruct (Z.ltb_spec x 10); [apply rdigits_small; lia|]. rewrite rdigits_step by lia. assert (0 <= x / 10 < 10) by (split; [apply Z.div_pos; lia|apply Z.div_lt_upper_bound; lia]).
  unfold pair10. by rewrite rdigits_small, (Z.mod_small (x / 10)) by lia.
Qed.

(** The quotients by multiplication. *)
Lemma div100 x : 0 <= x < 10 ^ 8 -> u32 (u64 (x * 0x28f5c29) ≫ 32) = x / 100.
Proof.
  intros Hx. pose proof (Z.div_mod x 100 ltac:(lia)). pose proof (Z.mod_pos_bound x 100 ltac:(lia)). assert (0 <= x / 100 < 10 ^ 6) by (split; [apply Z.div_pos; lia|apply Z.div_lt_upper_bound; lia]).
  rewrite (wrap_small 64), Z.shiftr_div_pow2 by lia. assert (x * 0x28f5c29 / 2 ^ 32 = x / 100) as ->; [|apply wrap_small; lia].
  symmetry. apply (Z.div_unique _ _ _ (4 * (x / 100) + 0x28f5c29 * (x mod 100))); lia.
Qed.

Lemma div100_small x : 0 <= x < 10 ^ 4 -> u32 (x * 0x147b) ≫ 19 = x / 100.
Proof.
  intros Hx. pose proof (Z.div_mod x 100 ltac:(lia)). pose proof (Z.mod_pos_bound x 100 ltac:(lia)). assert (0 <= x / 100 < 100) by (split; [apply Z.div_pos; lia|apply Z.div_lt_upper_bound; lia]).
  rewrite (wrap_small 32), Z.shiftr_div_pow2 by lia. symmetry. apply (Z.div_unique _ _ _ (12 * (x / 100) + 0x147b * (x mod 100))); lia.
Qed.

Lemma rem100 x : 0 <= x < 2 ^ 32 -> u32 (x - 100 * (x / 100)) = x mod 100.
Proof. intros Hx. pose proof (Z.div_mod x 100 ltac:(lia)). pose proof (Z.mod_pos_bound x 100 ltac:(lia)). rewrite wrap_small by lia. lia. Qed.

Lemma pair_mod x k : 0 <= x -> 0 < k -> pair10 (x mod (100 * k)) = pair10 x.
Proof.
  intros Hx Hk. unfold pair10. rewrite Z.rem_mul_r by lia. pose proof (Z.mod_pos_bound x 100 ltac:(lia)). pose proof (Z.div_mod x 100 ltac:(lia)).
  set (q := x / 100 mod k). f_equal; [|f_equal].
  - replace (x mod 100 + 100 * q) with (x mod 100 + 10 * q * 10) by lia. rewrite Z_mod_plus_full. rewrite (Z.div_mod x 100) at 2 by lia. replace (100 * (x / 100)) with (10 * (x / 100) * 10) by lia.
    by rewrite Z.add_comm, Z_mod_plus_full.
  - replace (x mod 100 + 100 * q) with (x mod 100 + 10 * q * 10) by lia. rewrite Z.div_add by lia. replace (x mod 100 / 10 + 10 * q) with (x mod 100 / 10 + q * 10) by lia. rewrite Z_mod_plus_full.
    rewrite (Z.div_mod x 100) at 2 by lia. replace (100 * (x / 100) + x mod 100) with (x mod 100 + 10 * (x / 100) * 10) by lia. rewrite Z.div_add by lia.
    replace (x mod 100 / 10 + 10 * (x / 100)) with (x mod 100 / 10 + (x / 100) * 10) by lia. by rewrite Z_mod_plus_full.
Qed.

(** ** The buffer of digits *)

(** The bytes [l] are written at [i], with at most one byte after them. *)
Record wrote (t : Z -> Z) (i : Z) (l : list Z) (r : (Z -> Z) * Z) : Prop := {
  w_next : r.2 = i + Z.of_nat (length l);
  w_bytes : forall k c, l !! k = Some c -> r.1 (i + Z.of_nat k) = c;
  w_before : forall a, a < i -> r.1 a = t a;
  w_after : forall a, i + Z.of_nat (length l) < a -> r.1 a = t a
}.

Lemma wrote_trans t i l r l' r' : wrote t i l r -> wrote r.1 r.2 l' r' -> wrote t i (l ++ l') r'.
Proof.
  intros [Hn Hb Hp Ha] [Hn' Hb' Hp' Ha']. split.
  - rewrite length_app. lia.
  - intros k c E. apply lookup_app_Some in E as [E|[Hk E]].
    + pose proof (lookup_lt_Some _ _ _ E). rewrite Hp' by lia. by apply Hb.
    + rewrite <- (Hb' _ _ E). f_equal. lia.
  - intros a H. rewrite Hp' by lia. by apply Hp.
  - intros a H. rewrite length_app in H. rewrite Ha' by lia. apply Ha. lia.
Qed.

Definition dec_char (d : Z) : Z := 0x30 + d.

Lemma decpair_bytes x : 0 <= x < 100 -> u8 (decpair x) = dec_char (x mod 10) /\ u8 (decpair x ≫ 8) = dec_char (x / 10).
Proof.
  intros Hx. assert (forallb (fun k => let x := Z.of_nat k in (u8 (decpair x) =? dec_char (x mod 10)) && (u8 (decpair x ≫ 8) =? dec_char (x / 10))) (seq 0 100) = true) as H by (by vm_compute).
  rewrite forallb_forall in H. specialize (H (Z.to_nat x)). rewrite Z2Nat.id in H by lia. rewrite andb_true_iff, !Z.eqb_eq in H. apply H, in_seq. lia.
Qed.

Lemma wrote_pair t i x : 0 <= x < 100 -> wrote t i (dec_char <$> pair10 x) (put16 t i (decpair x), i + 2).
Proof.
  intros Hx. destruct (decpair_bytes x Hx) as [E0 E1]. assert (0 <= x / 10 < 10) by (split; [apply Z.div_pos; lia|apply Z.div_lt_upper_bound; lia]).
  unfold put16, pair10. rewrite E0, E1, (Z.mod_small (x / 10)) by lia. split; cbn [fmap list_fmap length fst snd]; [done| |intros a Ha; fn_simpl; done|intros a Ha; fn_simpl; done].
  intros [|[|k]] c E; cbn in E; [injection E as <-; cbn [Z.of_nat Pos.of_succ_nat]; rewrite ?Z.add_0_r; fn_simpl; done..|done].
Qed.

Lemma wrote_last t i x : 0 <= x < 100 -> wrote t i (dec_char <$> rdigits 10 x) (put16 t i (decpair x), i + if x <? 10 then 1 else 2).
Proof.
  intros Hx. rewrite rdigits_100 by done. destruct (Z.ltb_spec x 10); [|by apply wrote_pair]. destruct (wrote_pair t i x Hx) as [_ Hb Hp Ha]. split; cbn [fmap list_fmap length fst snd] in *.
  - done.
  - intros [|k] c E; [|done]. injection E as <-. apply (Hb 0%nat). unfold pair10. by rewrite Z.mod_small by lia.
  - done.
  - intros a H'. unfold put16. fn_simpl. done.
Qed.

Lemma put_dec_trunc8_ok t i r : 0 <= r < 10 ^ 8 -> wrote t i (dec_char <$> rdigits 10 r) (put_dec_trunc8 t i r).
Proof.
  intros Hr. unfold put_dec_trunc8. destruct (Z.ltb_spec r 100); [apply wrote_last; lia|]. rewrite div100, rem100 by lia.
  assert (0 <= r / 100 < 10 ^ 6) by (split; [apply Z.div_pos; lia|apply Z.div_lt_upper_bound; lia]). pose proof (Z.mod_pos_bound r 100 ltac:(lia)).
  rewrite rdigits_pair by done. rewrite <- (pair_mod r 1), fmap_app by lia. change (100 * 1) with 100. eapply wrote_trans; [by apply wrote_pair|]. cbn [fst snd]. generalize (put16 t i (decpair (r mod 100))). clear t. intros t.
  set (q := r / 100) in *. clearbody q. destruct (Z.ltb_spec q 100); [apply wrote_last; lia|]. rewrite div100, rem100 by lia.
  assert (0 <= q / 100 < 10 ^ 4) by (split; [apply Z.div_pos; lia|apply Z.div_lt_upper_bound; lia]). pose proof (Z.mod_pos_bound q 100 ltac:(lia)).
  rewrite (rdigits_pair q) by done. rewrite <- (pair_mod q 1), fmap_app by lia. change (100 * 1) with 100. eapply wrote_trans; [by apply wrote_pair|]. cbn [fst snd]. generalize (put16 t (i + 2) (decpair (q mod 100))). clear t. intros t.
  set (p := q / 100) in *. clearbody p. destruct (Z.ltb_spec p 100); [apply wrote_last; lia|]. rewrite div100_small, rem100 by lia.
  assert (0 <= p / 100 < 100) by (split; [apply Z.div_pos; lia|apply Z.div_lt_upper_bound; lia]). pose proof (Z.mod_pos_bound p 100 ltac:(lia)).
  rewrite (rdigits_pair p) by done. rewrite <- (pair_mod p 1), fmap_app by lia. change (100 * 1) with 100. eapply wrote_trans; [by apply wrote_pair|]. apply wrote_last; lia.
Qed.

(** The last eight digits. *)
Definition dec8 (r : Z) : list Z := pair10 r ++ pair10 (r / 100) ++ pair10 (r / 100 / 100) ++ pair10 (r / 100 / 100 / 100).

Lemma put_dec_full8_ok t i r : 0 <= r < 10 ^ 8 -> wrote t i (dec_char <$> dec8 r) (put_dec_full8 t i r).
Proof.
  intros Hr. unfold put_dec_full8, dec8. rewrite div100, rem100 by lia. assert (0 <= r / 100 < 10 ^ 6) by (split; [apply Z.div_pos; lia|apply Z.div_lt_upper_bound; lia]).
  rewrite (div100 (r / 100)), (rem100 (r / 100)) by lia. assert (0 <= r / 100 / 100 < 10 ^ 4) by (split; [apply Z.div_pos; lia|apply Z.div_lt_upper_bound; lia]).
  rewrite (div100_small (r / 100 / 100)), (rem100 (r / 100 / 100)) by lia. assert (0 <= r / 100 / 100 / 100 < 100) by (split; [apply Z.div_pos; lia|apply Z.div_lt_upper_bound; lia]).
  rewrite !fmap_app. rewrite <- (pair_mod r 1), <- (pair_mod (r / 100) 1), <- (pair_mod (r / 100 / 100) 1) by lia. change (100 * 1) with 100.
  pose proof (Z.mod_pos_bound r 100 ltac:(lia)). pose proof (Z.mod_pos_bound (r / 100) 100 ltac:(lia)). pose proof (Z.mod_pos_bound (r / 100 / 100) 100 ltac:(lia)).
  do 3 (eapply wrote_trans; [by apply wrote_pair|]; cbn [fst snd]). by apply wrote_pair.
Qed.

Lemma rdigits_dec8 n : 10 ^ 8 <= n -> rdigits 10 n = dec8 (n mod 10 ^ 8) ++ rdigits 10 (n / 10 ^ 8).
Proof.
  intros Hn. assert (10 ^ 6 <= n / 100) by (apply Z.div_le_lower_bound; lia). assert (10 ^ 4 <= n / 100 / 100) by (apply Z.div_le_lower_bound; lia). assert (100 <= n / 100 / 100 / 100) by (apply Z.div_le_lower_bound; lia).
  rewrite !rdigits_pair by lia. unfold dec8. rewrite <- !app_assoc. rewrite !Z.div_div by lia.
  assert (forall a b, 0 < a -> 0 < b -> n mod (a * b) / a = n / a mod b) as Hd.
  { intros a b Ha Hb. rewrite Z.rem_mul_r by lia. rewrite Z.mul_comm, Z.div_add by lia. by rewrite (Z.div_small (n mod a)) by (apply Z.mod_pos_bound; lia). }
  assert (n mod 10 ^ 8 / 100 = n / 100 mod (100 * 10 ^ 4)) as -> by (exact (Hd 100 (10 ^ 6) ltac:(lia) ltac:(lia))).
  assert (n mod 10 ^ 8 / (100 * 100) = n / (100 * 100) mod (100 * 100)) as -> by (exact (Hd (100 * 100) (10 ^ 4) ltac:(lia) ltac:(lia))).
  assert (n mod 10 ^ 8 / (100 * 100 * 100) = n / (100 * 100 * 100) mod (100 * 1)) as -> by (exact (Hd (100 * 100 * 100) 100 ltac:(lia) ltac:(lia))).
  change (10 ^ 8) with (100 * 10 ^ 6) at 1. rewrite !pair_mod by first [lia|apply Z.div_pos; lia]. done.
Qed.

Lemma put_dec_ok t i n : uint 64 n -> wrote t i (dec_char <$> rdigits 10 n) (put_dec t i n).
Proof.
  unfold uint. intros Hn. unfold put_dec. cbv zeta. change (100 * 1000 * 1000) with (10 ^ 8). pose proof (Z.mod_pos_bound n (10 ^ 8) ltac:(lia)).
  assert (n / 10 ^ 8 < 2 * 10 ^ 11) by (apply Z.div_lt_upper_bound; lia).
  destruct (Z.leb_spec (10 ^ 8) n).
  2: { rewrite (proj2 (Z.leb_gt (10 ^ 8) n)) by lia. rewrite wrap_small by lia. apply put_dec_trunc8_ok. lia. }
  rewrite rdigits_dec8, fmap_app by lia. pose proof (put_dec_full8_ok t i (n mod 10 ^ 8) ltac:(lia)) as Hw. destruct (put_dec_full8 t i (n mod 10 ^ 8)) as [t1 i1].
  eapply wrote_trans; [exact Hw|]. cbn [fst snd]. clear Hw. assert (0 < n / 10 ^ 8) by (apply Z.div_str_pos; lia). set (q := n / 10 ^ 8) in *. clearbody q.
  pose proof (Z.mod_pos_bound q (10 ^ 8) ltac:(lia)). assert (q / 10 ^ 8 < 10 ^ 4) by (apply Z.div_lt_upper_bound; lia). destruct (Z.leb_spec (10 ^ 8) q).
  2: { rewrite wrap_small by lia. apply put_dec_trunc8_ok. lia. }
  rewrite rdigits_dec8, fmap_app by lia. pose proof (put_dec_full8_ok t1 i1 (q mod 10 ^ 8) ltac:(lia)) as Hw. destruct (put_dec_full8 t1 i1 (q mod 10 ^ 8)) as [t2 i2].
  eapply wrote_trans; [exact Hw|]. cbn [fst snd]. assert (0 < q / 10 ^ 8) by (apply Z.div_str_pos; lia). rewrite wrap_small by lia. apply put_dec_trunc8_ok. lia.
Qed.

Lemma rdigits_length b k : 2 <= b -> forall x, 0 <= x < b ^ Z.of_nat (S k) -> (length (rdigits b x) <= S k)%nat.
Proof.
  intros Hb. induction k as [|k IH]; intros x Hx.
  - rewrite rdigits_small by (change (Z.of_nat 1) with 1 in Hx; rewrite Z.pow_1_r in Hx; lia). done.
  - destruct (Z_lt_ge_dec x b); [rewrite rdigits_small by lia; cbn; lia|]. rewrite rdigits_step by lia. cbn [length]. apply le_n_S, IH.
    rewrite (Nat2Z.inj_succ (S k)), Z.pow_succ_r in Hx by lia. split; [apply Z.div_pos; lia|apply Z.div_lt_upper_bound; lia].
Qed.

(** ** Octal and hexadecimal *)

(** A digit; [locase] is 0x20 for small letters. *)
Definition digit_char (locase d : Z) : Z := if d <? 10 then 0x30 + d else 0x37 + d + locase.

Lemma hex_char locase d : locase = 0 \/ locase = 32 -> 0 <= d < 16 -> u8 (hex_asc_upper d .| locase) = digit_char locase d.
Proof.
  intros Hl Hd. assert (forallb (fun k => let d := Z.of_nat k in (u8 (hex_asc_upper d .| 0) =? digit_char 0 d) && (u8 (hex_asc_upper d .| 32) =? digit_char 32 d)) (seq 0 16) = true) as H by (by vm_compute).
  rewrite forallb_forall in H. specialize (H (Z.to_nat d)). rewrite Z2Nat.id in H by lia. rewrite andb_true_iff, !Z.eqb_eq in H. destruct H as [H0 H1]; [apply in_seq; lia|]. by destruct Hl as [-> | ->].
Qed.

Lemma wrote_one t i c : wrote t i [c] (<[i := c]> t, i + 1).
Proof.
  split; cbn [length fst snd]; [done| |intros a Ha; fn_simpl; done|intros a Ha; fn_simpl; done].
  intros [|k] c' E; [|done]. injection E as <-. cbn [Z.of_nat]. rewrite Z.add_0_r. fn_simpl. done.
Qed.

Lemma hex_digits_ok locase shift : locase = 0 \/ locase = 32 -> shift = 3 \/ shift = 4 -> forall n t i x, 0 <= x < (2 ^ shift) ^ Z.of_nat n -> (0 < n)%nat ->
  wrote t i (digit_char locase <$> rdigits (2 ^ shift) x) (hex_digits n t i x (2 ^ shift - 1) shift locase).
Proof.
  intros Hl Hs. assert (8 <= 2 ^ shift <= 16) as Hb by (by destruct Hs as [-> | ->]). induction n as [|n IH]; intros t i x Hx Hn; [lia|]. cbn [hex_digits].
  assert (u8 x .& (2 ^ shift - 1) = x mod 2 ^ shift) as ->.
  { rewrite <- (Z.land_ones x) by lia. replace (2 ^ shift - 1) with (Z.ones shift) by (rewrite Z.ones_equiv; lia). apply Z.bits_inj'. intros k Hk.
    rewrite !Z.land_spec, wrap_spec by lia. destruct (Z.ltb_spec k 8); [done|]. rewrite (Z.ones_spec_high shift k) by lia. by rewrite !andb_false_r. }
  pose proof (Z.mod_pos_bound x (2 ^ shift) ltac:(lia)). rewrite hex_char by (done || lia). rewrite Z.shiftr_div_pow2 by lia. destruct (Z.eqb_spec (x / 2 ^ shift) 0) as [E|Hne]; cbn [negb].
  - assert (x < 2 ^ shift) by (destruct (Z_lt_ge_dec x (2 ^ shift)); [done|]; assert (0 < x / 2 ^ shift) by (apply Z.div_str_pos; lia); lia).
    rewrite rdigits_small, Z.mod_small by lia. apply wrote_one.
  - assert (2 ^ shift <= x) by (destruct (Z_lt_ge_dec x (2 ^ shift)); [rewrite Z.div_small in Hne by lia; lia|lia]). rewrite rdigits_step by lia. cbn [fmap list_fmap].
    change (?c :: ?l) with ([c] ++ l). eapply wrote_trans; [apply wrote_one|]. cbn [fst snd]. rewrite Nat2Z.inj_succ, Z.pow_succ_r in Hx by lia. apply IH.
    + split; [apply Z.div_pos; lia|apply Z.div_lt_upper_bound; lia].
    + destruct n; [|lia]. cbn in Hx. lia.
Qed.

(** * Text in the output *)

(** The output with a text appended: what lies at or past the end is dropped. *)
Definition wr (e : Z) (l : list Z) (o : out) : out :=
  (fun a => if (o.2 <=? a) && (a <? e) then default (o.1 a) (l !! Z.to_nat (a - o.2)) else o.1 a, o.2 + Z.of_nat (length l)).

Lemma out_eq (o o' : out) : (forall a, o.1 a = o'.1 a) -> o.2 = o'.2 -> o = o'.
Proof. destruct o as [m b], o' as [m' b']. cbn. intros H ->. f_equal. by apply fn_ext. Qed.

Lemma wr_nil e o : wr e [] o = o.
Proof. apply out_eq; cbn; [|lia]. intros a. by destruct (_ && _). Qed.

Lemma wr_app e l l' o : wr e l' (wr e l o) = wr e (l ++ l') o.
Proof.
  apply out_eq; cbn [fst snd wr]; [|rewrite length_app; lia]. intros a. destruct (Z.leb_spec o.2 a), (Z.ltb_spec a e); cbn [andb]; try (destruct (Z.leb_spec (o.2 + Z.of_nat (length l)) a); [lia || done|done]).
  destruct (Z.leb_spec (o.2 + Z.of_nat (length l)) a); cbn [andb].
  - rewrite (lookup_ge_None_2 l) by lia. cbn [from_option]. rewrite lookup_app_r by lia. do 2 f_equal. lia.
  - rewrite lookup_app_l by lia. done.
Qed.

Lemma put_wr e c o : uint 8 c -> put e c o = wr e [c] o.
Proof.
  intros Hc. unfold put. rewrite wrap_small by done. apply out_eq; cbn [fst snd wr length]; [|done]. intros a. destruct (Z.ltb_spec o.2 e), (Z.leb_spec o.2 a), (Z.ltb_spec a e); cbn [andb]; try (fn_simpl; done).
  - destruct (decide (a = o.2)) as [->|]; fn_simpl; [by rewrite Z.sub_diag|]. by rewrite lookup_ge_None_2 by (cbn; lia).
  - lia.
Qed.

Lemma puts_wr e c n : uint 8 c -> forall o, puts e c n o = wr e (replicate n c) o.
Proof. intros Hc. induction n as [|n IH]; intros o; cbn [puts replicate]; [by rewrite wr_nil|]. rewrite IH, put_wr by done. by rewrite wr_app. Qed.

Lemma put_rev_wr e t l : Forall (uint 8) l -> (forall k c, l !! k = Some c -> t (Z.of_nat k) = c) -> forall o, put_rev e t (length l) o = wr e (rev l) o.
Proof.
  induction l as [|c l IH] using rev_ind; intros Hu Ht o; [by rewrite wr_nil|]. apply Forall_app in Hu as [Hl [Hc _]%Forall_cons]. rewrite length_app, rev_app_distr. cbn [length rev app]. rewrite Nat.add_1_r. cbn [put_rev].
  rewrite (Ht (length l) c) by (by rewrite lookup_app_r, Nat.sub_diag by lia). rewrite put_wr by done. rewrite IH; [by rewrite wr_app|done|]. intros k c' E. apply Ht. by apply lookup_app_l_Some.
Qed.

(** * Numbers *)

Definition blanks (c n : Z) : list Z := replicate (Z.to_nat n) c.

Lemma pad_wr e c n o : uint 8 c -> pad e c n o = (wr e (blanks c n) o, Z.min n 0 - 1).
Proof. intros Hc. unfold pad. by rewrite puts_wr. Qed.

(** The sign as a text. *)
Definition sign_text (spec : printf_spec) (num : Z) : list Z :=
  if has_flag spec SIGN && (s64 num <? 0) then [0x2d]
  else if has_flag spec SIGN && has_flag spec PLUS then [0x2b]
  else if has_flag spec SIGN && has_flag spec SPACE then [0x20]
  else [].

(** The prefix of hexadecimal and octal numbers. *)
Definition prefix_text (spec : printf_spec) (num : Z) : list Z :=
  if has_flag spec SPECIAL then if base spec =? 16 then [0x30; 0x58 + (flags spec .& SMALL)] else if (base spec =? 8) && negb (num =? 0) then [0x30] else [] else [].

(** The digits, with zeros in front up to the precision. *)
Definition digits_text (spec : printf_spec) (num : Z) : list Z :=
  let digits := rev (digit_char (flags spec .& SMALL) <$> rdigits (base spec) (if has_flag spec SIGN && (s64 num <? 0) then - s64 num else num)) in
  blanks 0x30 (precision spec - Z.of_nat (length digits)) ++ digits.

(** The text of a number: sign, prefix and digits, filled up to the width with blanks
    on the right, with zeros before the digits, or with blanks on the left. *)
Definition render_number (num : Z) (spec : printf_spec) : list Z :=
  let sign := sign_text spec num in
  let prefix := prefix_text spec num in
  let digits := digits_text spec num in
  let fill := field_width spec - Z.of_nat (length sign) - Z.of_nat (length prefix) - Z.of_nat (length digits) in
  if has_flag spec LEFT then sign ++ prefix ++ digits ++ blanks 0x20 fill
  else if has_flag spec ZEROPAD then sign ++ prefix ++ blanks 0x30 fill ++ digits
  else blanks 0x20 fill ++ sign ++ prefix ++ digits.

Definition spec_ok (spec : printf_spec) : Prop := (base spec = 8 \/ base spec = 10 \/ base spec = 16) /\ uint 8 (flags spec).

(** Without the flag for zeros, the others stay. *)
Lemma clear_zeropad F : uint 8 F -> let F' := u8 (F .& Z.lnot ZEROPAD) in
  F' .& SIGN = F .& SIGN /\ F' .& LEFT = F .& LEFT /\ F' .& PLUS = F .& PLUS /\ F' .& SPACE = F .& SPACE /\ F' .& ZEROPAD = 0.
Proof.
  intros HF. assert (forallb (fun k => let F := Z.of_nat k in let F' := u8 (F .& Z.lnot ZEROPAD) in (F' .& SIGN =? F .& SIGN) && (F' .& LEFT =? F .& LEFT) &&
    (F' .& PLUS =? F .& PLUS) && (F' .& SPACE =? F .& SPACE) && (F' .& ZEROPAD =? 0)) (seq 0 256) = true) as H by (by vm_compute).
  rewrite forallb_forall in H. unfold uint in HF. specialize (H (Z.to_nat F)). rewrite Z2Nat.id in H by lia. rewrite !andb_true_iff, !Z.eqb_eq in H. destruct H as [[[[? ?] ?] ?] ?]; [apply in_seq; lia|done].
Qed.

Lemma small_flag F : uint 8 F -> F .& SMALL = 0 \/ F .& SMALL = 32.
Proof.
  intros HF. assert (forallb (fun k => let F := Z.of_nat k in (F .& SMALL =? 0) || (F .& SMALL =? 32)) (seq 0 256) = true) as H by (by vm_compute).
  rewrite forallb_forall in H. unfold uint in HF. specialize (H (Z.to_nat F)). rewrite Z2Nat.id, orb_true_iff, !Z.eqb_eq in H by lia. apply H, in_seq. lia.
Qed.

Lemma zero_flag F : uint 8 F -> F .& ZEROPAD = 0 \/ F .& ZEROPAD = 16.
Proof.
  intros HF. assert (forallb (fun k => let F := Z.of_nat k in (F .& ZEROPAD =? 0) || (F .& ZEROPAD =? 16)) (seq 0 256) = true) as H by (by vm_compute).
  rewrite forallb_forall in H. unfold uint in HF. specialize (H (Z.to_nat F)). rewrite Z2Nat.id, orb_true_iff, !Z.eqb_eq in H by lia. apply H, in_seq. lia.
Qed.

Lemma digit_char_uint locase d : locase = 0 \/ locase = 32 -> 0 <= d < 16 -> uint 8 (digit_char locase d).
Proof. intros Hl Hd. unfold digit_char, uint. destruct (Z.ltb_spec d 10); lia. Qed.

Lemma number_digits_ok b v locase : b = 8 \/ b = 10 \/ b = 16 -> uint 64 v -> locase = 0 \/ locase = 32 ->
  let r := number_digits b v locase in let ds := digit_char locase <$> rdigits b v in
  r.2 = Z.of_nat (length ds) /\ forall e o, put_rev e r.1 (Z.to_nat r.2) o = wr e (rev ds) o.
Proof.
  intros Hb Hv Hl r ds. assert (Forall (uint 8) ds) as Hu.
  { apply Forall_fmap. eapply Forall_impl; [apply (rdigits_spec b); [lia|unfold uint in Hv; lia]|]. intros d Hd. cbv beta in Hd. apply digit_char_uint; [done|lia]. }
  assert (wrote (fun _ => 0) 0 ds r) as [Hn Hbytes _ _].
  { unfold r, ds, number_digits. unfold uint in Hv. destruct (Z.ltb_spec v b).
    - rewrite rdigits_small, hex_char by lia. apply wrote_one.
    - destruct Hb as [-> |[-> | ->]]; cbn [Z.eqb Pos.eqb negb].
      + apply (hex_digits_ok locase 3); [done|by left|cbn; lia|lia].
      + assert (digit_char locase <$> rdigits 10 v = dec_char <$> rdigits 10 v) as ->; [|by apply put_dec_ok].
        apply Forall_fmap_ext. eapply Forall_impl; [apply (rdigits_spec 10); lia|]. intros d Hd. cbv beta in Hd. unfold digit_char, dec_char. by rewrite (proj2 (Z.ltb_lt d 10)) by lia.
      + apply (hex_digits_ok locase 4); [done|by right|cbn; lia|lia]. }
  rewrite Z.add_0_l in Hn. split; [done|]. intros e o. rewrite Hn, Nat2Z.id. apply put_rev_wr; [done|]. intros k c E. by apply (Hbytes k).
Qed.

Lemma number_sign_ok spec num w : uint 64 num -> exists sign, number_sign spec num w = (sign, if has_flag spec SIGN && (s64 num <? 0) then - s64 num else num, w - Z.of_nat (length (sign_text spec num))) /\
  forall e o, (if negb (sign =? 0) then put e sign o else o) = wr e (sign_text spec num) o.
Proof.
  intros Hn. unfold number_sign, sign_text. pose proof (sgn_range 64 num ltac:(lia)) as Hr. destruct (has_flag spec SIGN); cbn [andb]; [|exists 0; split; [f_equal; cbn; lia|intros; by rewrite wr_nil]].
  destruct (Z.ltb_spec (s64 num) 0).
  { exists 0x2d. rewrite wrap_small by lia. split; [done|]. intros. by apply put_wr. }
  destruct (has_flag spec PLUS); [exists 0x2b; split; [done|intros; by apply put_wr]|]. destruct (has_flag spec SPACE); [exists 0x20; split; [done|intros; by apply put_wr]|].
  exists 0. split; [f_equal; cbn; lia|]. intros. by rewrite wr_nil.
Qed.

Lemma number_prefix_ok spec num e o w : spec_ok spec -> let need_pfx := has_flag spec SPECIAL && negb (base spec =? 10) in
  number_prefix e need_pfx (num =? 0) (base spec) (flags spec .& SMALL) o = wr e (prefix_text spec num) o /\
  (if need_pfx then if base spec =? 16 then w - 2 else if negb (num =? 0) then w - 1 else w else w) = w - Z.of_nat (length (prefix_text spec num)).
Proof.
  intros [Hb Hf]. unfold number_prefix, prefix_text. destruct (has_flag spec SPECIAL); cbn [andb]; [|rewrite wr_nil; cbn; split; [done|lia]].
  destruct Hb as [-> |[-> | ->]]; cbn [Z.eqb Pos.eqb negb andb orb]; [|rewrite wr_nil; cbn; split; [done|lia]|].
  - destruct (num =? 0); cbn [negb]; [rewrite wr_nil; cbn; split; [done|lia]|]. rewrite put_wr by done. by split.
  - assert (0x58 .| (flags spec .& SMALL) = 0x58 + (flags spec .& SMALL)) as -> by (destruct (small_flag _ Hf) as [-> | ->]; done).
    rewrite !put_wr by (done || destruct (small_flag _ Hf) as [-> | ->]; done). rewrite wr_app. by split.
Qed.

Lemma number_ok o e num spec : spec_ok spec -> uint 64 num -> number o e num spec = wr e (render_number num spec) o.
Proof.
  intros Hs Hn. pose proof Hs as [Hb Hf]. unfold number. set (spec' := if has_flag spec LEFT then set_flags (flags spec .& Z.lnot ZEROPAD) spec else spec).
  assert (base spec' = base spec) as -> by (unfold spec'; by destruct (has_flag spec LEFT)).
  assert (has_flag spec' SIGN = has_flag spec SIGN /\ has_flag spec' PLUS = has_flag spec PLUS /\ has_flag spec' SPACE = has_flag spec SPACE /\ has_flag spec' LEFT = has_flag spec LEFT /\
    has_flag spec' ZEROPAD = has_flag spec ZEROPAD && negb (has_flag spec LEFT)) as (E1 & E2 & E3 & E4 & E5).
  { unfold spec'. destruct (has_flag spec LEFT) eqn:EL; [|by rewrite andb_true_r]. destruct (clear_zeropad _ Hf) as (H1 & H2 & H3 & H4 & H5). cbv zeta in *. unfold has_flag in *. cbn [set_flags flags].
    rewrite H1, H2, H3, H4, H5, EL. by rewrite andb_false_r. }
  assert (number_sign spec' num (field_width spec) = number_sign spec num (field_width spec)) as -> by (unfold number_sign; by rewrite E1, E2, E3).
  destruct (number_sign_ok spec num (field_width spec) Hn) as (sign & -> & Hsign). cbv iota. set (v := if has_flag spec SIGN && _ then _ else num). set (w1 := field_width spec - _).
  assert (uint 64 v) as Hv. { unfold v, uint in *. pose proof (sgn_range 64 num ltac:(lia)). destruct (has_flag spec SIGN); cbn [andb]; [|done]. destruct (Z.ltb_spec (s64 num) 0); lia. }
  pose proof (number_digits_ok (base spec) v _ Hb Hv (small_flag _ Hf)) as [Hi Hd]. destruct (number_digits (base spec) v (flags spec .& SMALL)) as [tmp i]. cbn [fst snd] in *.
  rewrite (proj2 (number_prefix_ok spec num e o w1 Hs)). set (ds := rev (digit_char (flags spec .& SMALL) <$> rdigits (base spec) v)) in *.
  assert (Z.of_nat (length ds) = i) as Hlen by (unfold ds; rewrite length_rev; lia). set (p := if precision spec <? i then i else precision spec).
  assert (digits_text spec num = blanks 0x30 (p - i) ++ ds) as Hdt.
  { unfold digits_text. fold v ds. rewrite Hlen. unfold blanks. do 2 f_equal. unfold p. destruct (Z.ltb_spec (precision spec) i); lia. }
  assert (Z.of_nat (length (digits_text spec num)) = p) as Hp by (rewrite Hdt; unfold blanks; rewrite length_app, length_replicate; unfold p; destruct (Z.ltb_spec (precision spec) i); lia).
  unfold render_number. rewrite Hp, E4, E5. fold w1. set (w := w1 - _ - p). assert (forall o, number_prefix e (has_flag spec SPECIAL && negb (base spec =? 10)) (num =? 0) (base spec) (flags spec .& SMALL) o = wr e (prefix_text spec num) o) as Hpre.
  { intros o'. apply (proj1 (number_prefix_ok spec num e o' 0 Hs)). }
  assert (forall c k, k <= 0 -> blanks c k = []) as Hnil by (intros c k Hk; unfold blanks; by replace (Z.to_nat k) with 0%nat by lia).
  assert (flags spec' .& ZEROPAD = if has_flag spec ZEROPAD && negb (has_flag spec LEFT) then 16 else 0) as Hz.
  { rewrite <- E5. unfold has_flag. destruct (zero_flag (flags spec')) as [-> | ->]; [|done|done]. unfold spec'. destruct (has_flag spec LEFT); [apply uint_wrap; lia|done]. }
  destruct (has_flag spec LEFT); cbn [negb andb orb] in *; [rewrite ?andb_false_r, ?orb_true_r; cbn [negb]|rewrite ?andb_true_r, ?orb_false_r in *; destruct (has_flag spec ZEROPAD); cbn [negb]];
    rewrite ?Hz, ?pad_wr by done; cbn [fst snd]; rewrite Hsign, Hpre, ?puts_wr, ?Hd by done; fold (blanks 0x30 (p - i)); rewrite ?pad_wr by done; cbn [fst snd]; rewrite ?puts_wr, ?Hd by done; fold (blanks 0x30 (p - i)); fold ds;
    rewrite ?wr_app, ?Hdt, <- ?app_assoc; repeat rewrite (Hnil _ (Z.min _ 0 - 1)) by lia; rewrite ?app_nil_r; try done.
Qed.

(** * Strings *)

Definition render_string (l : list Z) (spec : printf_spec) : list Z :=
  let fill := field_width spec - Z.of_nat (length l) in
  if has_flag spec LEFT then l ++ blanks 0x20 fill else blanks 0x20 fill ++ l.

Lemma wr_at e l o a : (wr e l o).1 a = if (o.2 <=? a) && (a <? e) then default (o.1 a) (l !! Z.to_nat (a - o.2)) else o.1 a.
Proof. done. Qed.

(** Moving a text to the right in a buffer, which may cut it. *)
Lemma move_right_ok e l o k : 0 < k -> forall a, move_right (wr e l o).1 o.2 e (Z.of_nat (length l)) k a = (wr e (blanks 0x20 k ++ l) o).1 a.
Proof.
  intros Hk a. unfold move_right. rewrite wr_at. destruct (Z.leb_spec e o.2).
  { rewrite wr_at. destruct (Z.leb_spec o.2 a), (Z.ltb_spec a e); cbn [andb]; try done. lia. }
  assert (forall i, (i < Z.to_nat k)%nat -> (blanks 0x20 k ++ l) !! i = Some 0x20) as Hb.
  { intros i Hi. rewrite lookup_app_l by (unfold blanks; by rewrite length_replicate). unfold blanks. by apply lookup_replicate_2. }
  assert (forall i, (Z.to_nat k <= i)%nat -> (blanks 0x20 k ++ l) !! i = l !! (i - Z.to_nat k)%nat) as Hl.
  { intros i Hi. rewrite lookup_app_r by (unfold blanks; by rewrite length_replicate). unfold blanks. by rewrite length_replicate. }
  destruct (Z.leb_spec (e - o.2) k).
  { rewrite memset_spec by lia. range_cases; [rewrite (proj2 (Z.leb_le _ _)), (proj2 (Z.ltb_lt _ _)) by lia; cbn [andb]; by rewrite Hb by lia|].
    rewrite wr_at. destruct (Z.leb_spec o.2 a), (Z.ltb_spec a e); cbn [andb]; try done. lia. }
  rewrite memset_spec by lia. range_cases; [rewrite (proj2 (Z.leb_le _ _)), (proj2 (Z.ltb_lt _ _)) by lia; cbn [andb]; by rewrite Hb by lia|].
  set (len := if _ <? _ then _ else _). assert (0 <= len /\ o.2 + k + len <= e /\ len <= Z.of_nat (length l) /\ (len = Z.of_nat (length l) \/ o.2 + k + len = e)) as (Hn0 & Hn1 & Hn2 & Hn3).
  { unfold len. destruct (Z.ltb_spec (e - o.2 - k) (Z.of_nat (length l))); lia. }
  assert ((if negb (Z.of_nat (length l) =? 0) then memmove (wr e l o).1 (o.2 + k) o.2 len else (wr e l o).1) a = if in_range a (o.2 + k) len then (wr e l o).1 (a - k) else (wr e l o).1 a) as ->.
  { destruct (Z.eqb_spec (Z.of_nat (length l)) 0); cbn [negb]; [range_cases; [lia|done]|]. rewrite memmove_correct. range_cases; [f_equal; lia|done]. }
  range_cases; rewrite !wr_at.
  - rewrite !(proj2 (Z.leb_le _ _)), !(proj2 (Z.ltb_lt _ _)) by lia. cbn [andb]. rewrite Hl by lia. replace (Z.to_nat (a - o.2) - Z.to_nat k)%nat with (Z.to_nat (a - k - o.2)) by lia.
    destruct (lookup_lt_is_Some_2 l (Z.to_nat (a - k - o.2))) as [c ->]; [lia|done].
  - destruct (Z.leb_spec o.2 a), (Z.ltb_spec a e); cbn [andb]; try done. rewrite Hl by lia. by rewrite !lookup_ge_None_2 by lia.
Qed.

Lemma widen_ok e l o spec : widen_string (wr e l o) (Z.of_nat (length l)) e spec = wr e (render_string l spec) o.
Proof.
  unfold widen_string, render_string. destruct (Z.leb_spec (field_width spec) (Z.of_nat (length l))).
  { unfold blanks. replace (Z.to_nat (field_width spec - Z.of_nat (length l))) with 0%nat by lia. cbn [replicate app]. rewrite app_nil_r. by destruct (has_flag spec LEFT). }
  destruct (has_flag spec LEFT); cbn [negb]; [by rewrite puts_wr, wr_app by done|]. apply out_eq; cbn [snd].
  - intros a. cbn [wr snd]. replace (o.2 + Z.of_nat (length l) - Z.of_nat (length l)) with o.2 by lia. apply move_right_ok. lia.
  - cbn [wr snd]. rewrite length_app. unfold blanks. rewrite length_replicate. lia.
Qed.

(** The characters that a source gives; a byte may be out of reach. *)
Fixpoint text_of (n : nat) (R : Z -> option Z) (i lim : Z) : option (list Z) :=
  match n with
  | O => None
  | S n =>
      if lim =? 0 then Some []
      else
        c ← R i;
        if c =? 0 then Some [] else cons c <$> text_of n R (i + 1) (lim - 1)
  end.

(** What a source gives does not depend on what is written to the output [o]. *)
Definition steady (e : Z) (o : out) (s : source) (R : Z -> option Z) : Prop := forall i c, 0 <= i -> R i = Some c -> uint 8 c /\ forall l, s (wr e l o).1 i = c.

Lemma put_string_ok e o s R : steady e o s R -> forall n i lim acc l, 0 <= i -> text_of n R i lim = Some l ->
  put_string n e s i lim (wr e acc o) = Some (wr e (acc ++ l) o, i + Z.of_nat (length l)).
Proof.
  intros Hs. induction n as [|n IH]; intros i lim acc l Hi E; [done|]. cbn [text_of put_string] in *. destruct (lim =? 0).
  { injection E as <-. rewrite app_nil_r. cbn. by rewrite Z.add_0_r. }
  destruct (R i) as [c|] eqn:ER; [|done]. cbn [mbind option_bind] in E. destruct (Hs _ _ Hi ER) as [Hc ->]. destruct (c =? 0).
  { injection E as <-. rewrite app_nil_r. cbn. by rewrite Z.add_0_r. }
  apply fmap_Some in E as (l' & E & ->). rewrite put_wr, wr_app by done. rewrite (IH (i + 1) _ _ _ ltac:(lia) E). rewrite <- app_assoc. cbn [length app]. do 2 f_equal. lia.
Qed.

Lemma string_ok e o s R fuel acc l spec : steady e o s R -> text_of fuel R 0 (u64 (precision spec)) = Some l ->
  string fuel (wr e acc o) e s spec = Some (wr e (acc ++ render_string l spec) o).
Proof.
  intros Hs E. unfold string. rewrite (put_string_ok _ _ _ _ Hs _ _ _ _ _ ltac:(done) E). cbn [mbind option_bind]. rewrite Z.add_0_l, <- wr_app, widen_ok. by rewrite wr_app.
Qed.

(** A literal. *)
Definition chars_of (l : list Z) : Z -> option Z := fun i => Some (nth (Z.to_nat i) l 0).

Lemma steady_literal e o l : Forall (uint 8) l -> steady e o (literal l) (chars_of l).
Proof.
  intros Hl i c _ [= <-]. split; [|done]. rewrite nth_lookup. destruct (l !! Z.to_nat i) as [c|] eqn:E; [by apply (Forall_lookup_1 _ _ _ _ Hl E)|done].
Qed.

(** * Pointers *)

Lemma blanks_length c n : Z.of_nat (length (blanks c n)) = Z.max n 0.
Proof. unfold blanks. rewrite length_replicate. lia. Qed.

Lemma render_number_length num spec : Z.of_nat (length (render_number num spec)) =
  Z.max (field_width spec) (Z.of_nat (length (sign_text spec num)) + Z.of_nat (length (prefix_text spec num)) + Z.of_nat (length (digits_text spec num))).
Proof. unfold render_number. destruct (has_flag spec LEFT); [|destruct (has_flag spec ZEROPAD)]; rewrite !length_app, !Nat2Z.inj_add, blanks_length; lia. Qed.

(** Numbers without a sign and without a precision. *)
Lemma unsigned_length num spec k : has_flag spec SIGN = false -> precision spec <= 0 -> base spec = 8 \/ base spec = 10 \/ base spec = 16 -> 0 <= num < base spec ^ Z.of_nat (S k) ->
  Z.of_nat (length (render_number num spec)) <= Z.max (field_width spec) (Z.of_nat (length (prefix_text spec num)) + Z.of_nat (S k)).
Proof.
  intros Hs Hp Hb Hn. rewrite render_number_length. unfold sign_text, digits_text. rewrite Hs. cbn [andb length]. rewrite length_app, Nat2Z.inj_add, blanks_length, length_rev, length_fmap.
  pose proof (rdigits_length (base spec) k ltac:(lia) num Hn). lia.
Qed.

(** ** Resources *)

Definition resource_text (r_start r_end r_flags : Z) (fmt : list Z) : list Z :=
  let flag (f : Z) := negb (r_flags .& f =? 0) in
  let '(name, specp, decode) := resource_kind r_flags fmt in
  [0x5b] ++ name ++
  (if decode && flag IORESOURCE_UNSET then str_size ++ render_number (u64 (r_end - r_start + 1)) specp
   else render_number r_start specp ++ if negb (r_start =? r_end) then [0x2d] ++ render_number r_end specp else []) ++
  (if decode : bool then
     (if flag IORESOURCE_MEM_64 then str_64bit else []) ++ (if flag IORESOURCE_PREFETCH then str_pref else []) ++
     (if flag IORESOURCE_WINDOW then str_window else []) ++ (if flag IORESOURCE_DISABLED then str_disabled else [])
   else str_flags ++ render_number r_flags flag_spec) ++
  [0x5d].

Lemma resource_kind_ok r_flags fmt : exists name specp decode, resource_kind r_flags fmt = (name, specp, decode) /\ length name = 4%nat /\ text_of 11 (chars_of name) 0 10 = Some name /\ Forall (uint 8) name /\
  spec_ok specp /\ forall v, uint 64 v -> (length (render_number v specp) <= 20)%nat.
Proof.
  assert (forall name specp (decode : bool), length name = 4%nat -> text_of 11 (chars_of name) 0 10 = Some name -> Forall (uint 8) name -> spec_ok specp -> (forall v, uint 64 v -> (length (render_number v specp) <= 20)%nat) ->
    exists name' specp' decode', (name, specp, decode) = (name', specp', decode') /\ length name' = 4%nat /\ text_of 11 (chars_of name') 0 10 = Some name' /\ Forall (uint 8) name' /\
    spec_ok specp' /\ forall v, uint 64 v -> (length (render_number v specp') <= 20)%nat) as H by (intros; by eexists _, _, _).
  assert (forall w f v, uint 64 v -> w <= 20 -> (f = SPECIAL .| SMALL .| ZEROPAD \/ f = SMALL .| ZEROPAD) -> (length (render_number v (Spec 0 w f 16 (- 1))) <= 20)%nat) as Hhex.
  { intros w f v Hv Hw Hf. assert (Z.of_nat (length (render_number v (Spec 0 w f 16 (- 1)))) <= Z.max w (2 + 16)); [|lia]. etrans; [apply (unsigned_length _ _ 15); [by destruct Hf as [-> | ->]|cbn; lia|cbn; lia|]|].
    - cbn. unfold uint in Hv. lia.
    - cbn [field_width]. assert (length (prefix_text (Spec 0 w f 16 (- 1)) v) <= 2)%nat by (destruct Hf as [-> | ->]; vm_compute; lia). lia. }
  assert (forall v, uint 64 v -> (length (render_number v dec_spec) <= 20)%nat) as Hdec.
  { intros v Hv. assert (Z.of_nat (length (render_number v dec_spec)) <= Z.max 0 (0 + 20)); [|lia]. etrans; [apply (unsigned_length _ _ 19); [done|cbn; lia|cbn; lia|]|by vm_compute].
    cbn. unfold uint in Hv. lia. }
  unfold resource_kind. repeat case_match; (apply H; [done|by vm_compute|apply (bool_decide_unpack _); by vm_compute|split; [cbn; lia|by vm_compute]|]); first [exact Hdec|intros v Hv; apply Hhex; [done|cbn; lia|cbn; tauto]].
Qed.

(** The buffer for the text of a resource. *)
Definition fresh : out := (fun _ => 0, 0).

Lemma text_in s acc : text_of 11 (chars_of s) 0 10 = Some s -> Forall (uint 8) s -> string 11 (wr SYM_SIZE acc fresh) SYM_SIZE (literal s) str_spec = Some (wr SYM_SIZE (acc ++ s) fresh).
Proof.
  intros E Hs. rewrite (string_ok _ _ _ (chars_of s) _ _ s) by (by apply steady_literal || done). unfold render_string. change (has_flag str_spec LEFT) with true. cbv iota. unfold blanks.
  replace (Z.to_nat _) with 0%nat by (cbn; lia). by rewrite app_nil_r.
Qed.

Lemma put_in_ok c acc : uint 8 c -> (length acc < 75)%nat -> (<[(wr SYM_SIZE acc fresh).2 := c]> (wr SYM_SIZE acc fresh).1, (wr SYM_SIZE acc fresh).2 + 1) = wr SYM_SIZE (acc ++ [c]) fresh.
Proof.
  intros Hc Hl. rewrite <- wr_app, <- put_wr by done. unfold put. rewrite (proj2 (Z.ltb_lt _ SYM_SIZE)) by (cbn [wr fresh snd]; unfold SYM_SIZE; lia). by rewrite wrap_small.
Qed.

Lemma resource_text_length rs re rf fmt : uint 64 rs -> uint 64 re -> uint 64 rf -> (length (resource_text rs re rf fmt) <= 74)%nat.
Proof.
  intros Hs He Hf. unfold resource_text. destruct (resource_kind_ok rf fmt) as (name & specp & decode & -> & Hn & _ & _ & _ & Hlen).
  assert (length (render_number rf flag_spec) <= 18)%nat.
  { assert (Z.of_nat (length (render_number rf flag_spec)) <= Z.max 0 (2 + 16)); [|lia]. apply (unsigned_length _ flag_spec 15); [done|cbn; lia|cbn; lia|]. cbn. unfold uint in Hf. lia. }
  pose proof (Hlen rs Hs). pose proof (Hlen re He). pose proof (Hlen (u64 (re - rs + 1)) (uint_wrap 64 _ ltac:(lia))).
  destruct decode; cbn [andb]; repeat case_match; rewrite ?length_app, ?Hn; cbn [length app str_size str_64bit str_pref str_window str_disabled str_flags]; rewrite ?length_app; cbn [length]; lia.
Qed.

(** A buffer of [n] bytes as a source. *)
Lemma sym_source n e o l : Z.of_nat (length l) < n -> Forall (uint 8) l -> steady e o (fun _ i => (<[(wr n l fresh).2 := 0]> (wr n l fresh).1) i) (chars_of l).
Proof.
  intros Hl Hu i c Hi [= <-]. split.
  - rewrite nth_lookup. destruct (l !! Z.to_nat i) as [c|] eqn:E; [by apply (Forall_lookup_1 _ _ _ _ Hu E)|done].
  - intros _. rewrite nth_lookup. cbn [wr fresh fst snd]. destruct (decide (i = 0 + Z.of_nat (length l))) as [->|]; fn_simpl; [by rewrite lookup_ge_None_2 by lia|].
    rewrite Z.sub_0_r. rewrite (proj2 (Z.leb_le 0 i)) by done. destruct (Z.ltb_spec i n); cbn [andb]; [done|]. by rewrite lookup_ge_None_2 by lia.
Qed.

Lemma render_number_uint num spec : spec_ok spec -> uint 64 num -> Forall (uint 8) (render_number num spec).
Proof.
  intros [Hb Hf] Hn. pose proof (small_flag _ Hf) as Hsm.
  assert (Forall (uint 8) (sign_text spec num)) as Hs by (unfold sign_text; repeat case_match; repeat constructor; by vm_compute).
  assert (Forall (uint 8) (prefix_text spec num)) as Hp by (unfold prefix_text; repeat case_match; repeat constructor; first [by vm_compute|by destruct Hsm as [-> | ->]; vm_compute]).
  assert (forall c n, uint 8 c -> Forall (uint 8) (blanks c n)) as Hbl by (intros; by apply Forall_replicate).
  assert (Forall (uint 8) (digits_text spec num)) as Hd.
  { apply Forall_app. split; [by apply Hbl|]. apply Forall_rev, Forall_fmap. eapply Forall_impl; [apply (rdigits_spec (base spec)); [lia|]|intros d Hd; cbv beta in Hd; apply digit_char_uint; [done|lia]].
    unfold uint in Hn. destruct (has_flag spec SIGN && _) eqn:E; [|lia]. apply andb_true_iff in E as [_ E%Z.ltb_lt]. lia. }
  unfold render_number. repeat case_match; rewrite !Forall_app; split_and!; first [done|apply Hbl; by vm_compute].
Qed.

Lemma resource_text_uint rs re rf fmt : uint 64 rs -> uint 64 re -> uint 64 rf -> Forall (uint 8) (resource_text rs re rf fmt).
Proof.
  intros Hs He Hf. unfold resource_text. destruct (resource_kind_ok rf fmt) as (name & specp & decode & -> & _ & _ & Hu & Hok & _).
  assert (Forall (uint 8) (render_number rf flag_spec)) as H by (apply render_number_uint; [split; [cbn; lia|by vm_compute]|done]).
  pose proof (render_number_uint rs specp Hok Hs). pose proof (render_number_uint re specp Hok He). pose proof (render_number_uint (u64 (re - rs + 1)) specp Hok (uint_wrap 64 _ ltac:(lia))).
  destruct decode; cbn [andb]; repeat case_match; rewrite ?Forall_app; split_and!; try done; apply (bool_decide_unpack _); by vm_compute.
Qed.

Lemma resource_ok e o fuel acc res spec fmt l : let m := (wr e acc o).1 in let rs := load_le 64 8 m res in let re := load_le 64 8 m (res + 8) in let rf := load_le 64 8 m (res + 16) in
  text_of fuel (chars_of (resource_text rs re rf fmt)) 0 (u64 (precision spec)) = Some l ->
  resource_string fuel (wr e acc o) e res spec fmt = Some (wr e (acc ++ render_string l spec) o).
Proof.
  intros m rs re rf E. assert (uint 64 rs) as Hs by apply load_le_range. assert (uint 64 re) as He by apply load_le_range. assert (uint 64 rf) as Hf by apply load_le_range.
  pose proof (resource_text_length rs re rf fmt Hs He Hf) as Hlen. pose proof (resource_text_uint rs re rf fmt Hs He Hf) as Hu. unfold resource_string. fold m rs re rf.
  assert (Z.of_nat (length (resource_text rs re rf fmt)) < SYM_SIZE) as Hlt0 by (unfold SYM_SIZE; lia).
  rewrite <- (string_ok e o (fun _ i => (<[(wr SYM_SIZE (resource_text rs re rf fmt) fresh).2 := 0]> (wr SYM_SIZE (resource_text rs re rf fmt) fresh).1) i) _ fuel acc l spec (sym_source SYM_SIZE e o _ Hlt0 Hu) E).
  unfold resource_text in *. destruct (resource_kind_ok rf fmt) as (name & specp & decode & Ek & Hn & Ht & Hun & Hok & Hl). rewrite Ek in *.
  assert (((<[0 := 0x5b]> (fun _ => 0), 0 + 1) : out) = wr SYM_SIZE [0x5b] fresh) as E0.
  { pose proof (put_in_ok 0x5b [] ltac:(done) ltac:(cbn; lia)) as E0. rewrite wr_nil in E0. exact E0. }
  cbn [fst snd]. rewrite E0, text_in by done. cbn [mbind option_bind]. clear E0. set (fu := negb (rf .& IORESOURCE_UNSET =? 0)) in *. set (f64 := negb (rf .& IORESOURCE_MEM_64 =? 0)) in *. set (fp := negb (rf .& IORESOURCE_PREFETCH =? 0)) in *.
  set (fw := negb (rf .& IORESOURCE_WINDOW =? 0)) in *. set (fd := negb (rf .& IORESOURCE_DISABLED =? 0)) in *. clearbody fu f64 fp fw fd.
  set (nums := if decode && fu then str_size ++ _ else _) in *. set (tl := if decode then _ else str_flags ++ _) in *.
  set (k := if decode && fu then _ else Some _). assert (k = Some (wr SYM_SIZE ([0x5b] ++ name ++ nums) fresh)) as ->.
  { unfold k, nums. assert (spec_ok specp) by done. destruct (decode && fu).
    - rewrite text_in by first [by vm_compute|apply (bool_decide_unpack _); by vm_compute]. cbn [mbind option_bind]. rewrite number_ok, wr_app by (done || apply uint_wrap; lia). by rewrite <- !app_assoc.
    - rewrite !(number_ok (wr SYM_SIZE ([0x5b] ++ name) fresh)), !wr_app by done. destruct (negb (rs =? re)); [|by rewrite app_nil_r, <- !app_assoc]. rewrite put_in_ok, number_ok, wr_app, <- !app_assoc; [done|done|done|by vm_compute|].
      pose proof (Hl rs Hs). rewrite !length_app, Hn. cbn [length]. lia. }
  cbn [mbind option_bind]. set (k := if decode then _ else (_ ≫= _)). assert (k = Some (wr SYM_SIZE ([0x5b] ++ name ++ nums ++ tl) fresh)) as ->.
  { unfold k, tl. destruct decode.
    - destruct f64, fp, fw, fd; cbn [mbind option_bind];
        repeat (rewrite text_in by first [by vm_compute|apply (bool_decide_unpack _); by vm_compute]; cbn [mbind option_bind]); rewrite ?app_nil_l, ?app_nil_r, <- ?app_assoc; done.
    - rewrite text_in by first [by vm_compute|apply (bool_decide_unpack _); by vm_compute]. cbn [mbind option_bind]. rewrite number_ok, wr_app, <- !app_assoc; [done|split; [cbn; lia|by vm_compute]|done]. }
  cbn [mbind option_bind]. rewrite !length_app in Hlen. cbn [length] in Hlen. 
  assert (length ([0x5b%Z] ++ name ++ nums ++ tl) < 75)%nat as Hlt by (rewrite !length_app; cbn [length]; lia). pose proof (put_in_ok 0x5d _ ltac:(by vm_compute) Hlt) as Ep. rewrite <- !app_assoc in Ep.
  pose proof (f_equal fst Ep) as Ep1. pose proof (f_equal snd Ep) as Ep2. cbn [fst snd] in *. rewrite <- Ep1, <- Ep2. done.
Qed.

(** ** Bytes in hexadecimal *)

(** The memory outside the buffer. *)
Definition outside (m : mem) (b e : Z) : Z -> option Z := fun a => if (b <=? a) && (a <? e) then None else Some (m a).

Lemma outside_wr m b e a c l : outside m b e a = Some c -> (wr e l (m, b)).1 a = c.
Proof. unfold outside. rewrite wr_at. cbn [fst snd]. destruct (_ && _); [done|]. by intros [= <-]. Qed.

Lemma outside_uint m b e a c : (forall a, uint 8 (m a)) -> outside m b e a = Some c -> uint 8 c.
Proof. intros Hm. unfold outside. destruct (_ && _); [done|]. intros [= <-]. apply Hm. Qed.

Lemma steady_address m b e s : (forall a, uint 8 (m a)) -> steady e (m, b) (at_address s) (fun i => outside m b e (s + i)).
Proof. intros Hm i c _ E. split; [by eapply outside_uint|]. intros l. by apply outside_wr. Qed.

Fixpoint bytes_of (n : nat) (mm : Z -> option Z) (a : Z) : option (list Z) :=
  match n with
  | O => Some []
  | S n => c ← mm (u64 a); cons c <$> bytes_of n mm (a + 1)
  end.

Definition word_of (mm : Z -> option Z) (a : Z) : option Z := of_bytes <$> bytes_of 8 mm a.

Lemma word_of_ok m b e a v l : (forall a, uint 8 (m a)) -> word_of (outside m b e) a = Some v -> load_le 64 8 (wr e l (m, b)).1 a = v.
Proof.
  intros Hm E. unfold word_of in E. apply fmap_Some in E as (bs & E & ->). unfold load_le. f_equal. revert a bs E. generalize 8%nat. induction n as [|n IH]; intros a bs E; cbn [bytes_of read_bytes] in *; [by injection E as <-|].
  destruct (outside m b e (u64 a)) as [c|] eqn:Ec; [|done]. cbn [mbind option_bind] in E. apply fmap_Some in E as (bs' & E & ->). f_equal; [|by apply IH].
  rewrite (outside_wr _ _ _ _ _ l Ec). apply wrap_small. by eapply outside_uint.
Qed.

Definition hex_pair (c : Z) : list Z := [hex_asc_hi c; hex_asc_lo c].

Lemma hex_pair_uint c : uint 8 c -> Forall (uint 8) (hex_pair c).
Proof.
  intros Hc. assert (forallb (fun k => forallb (fun x => (0 <=? x) && (x <? 256)) (hex_pair (Z.of_nat k))) (seq 0 256) = true) as H by (by vm_compute).
  rewrite forallb_forall in H. unfold uint in Hc. specialize (H (Z.to_nat c)). rewrite Z2Nat.id in H by lia. specialize (H ltac:(apply in_seq; lia)). rewrite forallb_forall in H.
  apply Forall_forall. intros x Hx. rewrite list_elem_of_In in Hx. apply H in Hx. rewrite andb_true_iff, Z.leb_le, Z.ltb_lt in Hx. unfold uint. lia.
Qed.

(** Bytes from [i] on, [n] of them, with a separator between them unless it is 0. *)
Fixpoint hex_text (n : nat) (get : Z -> option Z) (i len separator : Z) : option (list Z) :=
  match n with
  | O => Some []
  | S n =>
      c ← get i;
      l ← hex_text n get (i + 1) len separator;
      Some (hex_pair c ++ (if negb (separator =? 0) && negb (i =? len - 1) then [separator] else []) ++ l)
  end.

Lemma hex_text_uint n get sep : (forall i c, get i = Some c -> uint 8 c) -> uint 8 sep -> forall i len l, hex_text n get i len sep = Some l -> Forall (uint 8) l /\ (length l <= 3 * n)%nat.
Proof.
  intros Hg Hs. induction n as [|n IH]; intros i len l E; cbn [hex_text] in E; [injection E as <-; done|]. destruct (get i) as [c|] eqn:Ec; [|done]. cbn [mbind option_bind] in E.
  destruct (hex_text n get (i + 1) len sep) as [l'|] eqn:El; [|done]. apply (inj Some) in E as <-. destruct (IH _ _ _ El) as [Hu Hlen]. split.
  - apply Forall_app. split; [by apply hex_pair_uint, (Hg i)|]. apply Forall_app. split; [destruct (_ && _); [by apply Forall_singleton|constructor]|done].
  - rewrite !length_app. destruct (_ && _); cbn [length hex_pair]; lia.
Qed.

Lemma hex_string_ok m b e addr sep : (forall a, uint 8 (m a)) -> uint 8 sep -> forall n i len acc l, hex_text n (fun i => outside m b e (addr + i)) i len sep = Some l ->
  hex_string_loop n (wr e acc (m, b)) e addr i len sep = wr e (acc ++ l) (m, b).
Proof.
  intros Hm Hs. induction n as [|n IH]; intros i len acc l E; cbn [hex_text hex_string_loop] in *; [injection E as <-; by rewrite app_nil_r|].
  destruct (outside m b e (addr + i)) as [c|] eqn:Ec; [|done]. cbn [mbind option_bind] in E. destruct (hex_text n _ (i + 1) len sep) as [l'|] eqn:El; [|done]. apply (inj Some) in E as <-.
  pose proof (hex_pair_uint c (outside_uint _ _ _ _ _ Hm Ec)) as [Hhi [Hlo _]%Forall_cons]%Forall_cons. rewrite (outside_wr _ _ _ _ _ _ Ec), (put_wr e (hex_asc_hi c)), wr_app by done.
  rewrite (outside_wr _ _ _ _ _ _ Ec), (put_wr e (hex_asc_lo c)), wr_app by done. destruct (negb (sep =? 0) && _).
  - rewrite put_wr, wr_app by done. rewrite (IH _ _ _ _ El). f_equal. by rewrite <- !app_assoc.
  - rewrite (IH _ _ _ _ El). f_equal. by rewrite <- !app_assoc.
Qed.

(** An address of six bytes, in a buffer of its own. *)
Lemma mac_loop_ok m0 addr (reversed colons : bool) sep get : (forall i c, 0 <= i -> get i = Some c -> m0 (addr + if reversed then 5 - i else i) = c /\ uint 8 c) -> uint 8 sep -> sep <> 0 ->
  forall n i acc l, 0 <= i -> (length acc + 3 * n <= 18)%nat -> hex_text n get i 6 (if colons then sep else 0) = Some l ->
  mac_loop n (wr 18 acc fresh) m0 addr i sep reversed colons = wr 18 (acc ++ l) fresh.
Proof.
  intros Hg Hs Hs0. induction n as [|n IH]; intros i acc l Hi Hlen E; cbn [hex_text mac_loop] in *; [injection E as <-; by rewrite app_nil_r|].
  destruct (get i) as [c|] eqn:Ec; [|done]. cbn [mbind option_bind] in E. destruct (hex_text n get (i + 1) 6 _) as [l'|] eqn:El; [|done]. apply (inj Some) in E as <-. destruct (Hg i c Hi Ec) as [-> Hc].
  pose proof (hex_pair_uint c Hc) as [Hhi [Hlo _]%Forall_cons]%Forall_cons.
  assert (forall x acc, uint 8 x -> (length acc < 18)%nat -> (<[(wr 18 acc fresh).2 := x]> (wr 18 acc fresh).1, (wr 18 acc fresh).2 + 1) = wr 18 (acc ++ [x]) fresh) as Hput.
  { intros x a Hx Ha. rewrite <- wr_app, <- put_wr by done. unfold put. rewrite (proj2 (Z.ltb_lt _ 18)) by (cbn [wr fresh snd]; lia). by rewrite wrap_small. }
  cbn [mbind option_bind]. assert (hex_byte_pack (wr 18 acc fresh).1 (wr 18 acc fresh).2 c = wr 18 (acc ++ hex_pair c) fresh) as ->.
  { unfold hex_byte_pack, hex_pair. pose proof (Hput (hex_asc_hi c) acc Hhi ltac:(lia)) as E1. pose proof (Hput (hex_asc_lo c) (acc ++ [hex_asc_hi c]) Hlo ltac:(rewrite length_app; cbn [length]; lia)) as E2.
    rewrite <- app_assoc in E2. cbn [app] in E2. rewrite <- E2, <- E1. cbn [fst snd]. f_equal. lia. }
  assert (length (acc ++ hex_pair c) + 1 <= 18)%nat by (rewrite length_app; cbn [length hex_pair]; lia). destruct colons; cbn [andb negb Z.eqb] in *.
  - rewrite (proj2 (Z.eqb_neq sep 0)) by done. change (6 - 1) with 5. cbn [negb andb]. destruct (negb (i =? 5)).
    + rewrite Hput by (done || lia). rewrite (IH (i + 1) _ l'); [by rewrite <- !app_assoc|lia|rewrite !length_app; cbn [length hex_pair]; lia|done].
    + rewrite (IH (i + 1) _ l'); [by rewrite <- !app_assoc|lia|rewrite !length_app; cbn [length hex_pair]; lia|done].
  - rewrite (IH (i + 1) _ l'); [by rewrite <- !app_assoc|lia|rewrite !length_app; cbn [length hex_pair]; lia|done].
Qed.

(** ** All kinds of pointers *)

Definition hex_spec : printf_spec := Spec FORMAT_TYPE_PTR 18 (SPECIAL .| SMALL .| ZEROPAD) 16 (- 1).

Definition separator_of (c : Z) : Z := if c =? 0x43 then 0x3a else if c =? 0x44 then 0x2d else if c =? 0x4e then 0 else 0x20.

Definition pointer_spec (spec : printf_spec) : printf_spec :=
  let spec := add_flag SMALL (set_base 16 spec) in
  if field_width spec =? - 1 then add_flag ZEROPAD (set_field_width (2 * 8) spec) else spec.

(** A text that is cut and filled as a string. *)
Definition as_string (fuel : nat) (R : Z -> option Z) (spec : printf_spec) : option (list Z) :=
  l ← text_of fuel R 0 (u64 (precision spec)); Some (render_string l spec).

(** The text of a pointer, with the memory that can be read. *)
Definition render_pointer (fuel : nat) (fmt : list Z) (mm : Z -> option Z) (ptr : Z) (spec : printf_spec) : option (list Z) :=
  if ptr =? 0 then as_string fuel (chars_of str_null) (if field_width spec =? - 1 then set_field_width (2 * 8) spec else spec)
  else
    let c := nth 0 fmt 0 in
    let c1 := nth 1 fmt 0 in
    if (c =? 0x46) || (c =? 0x66) || (c =? 0x53) || (c =? 0x73) || (c =? 0x42) then Some (render_number ptr hex_spec)
    else if (c =? 0x52) || (c =? 0x72) then
      r_start ← word_of mm ptr; r_end ← word_of mm (ptr + 8); r_flags ← word_of mm (ptr + 16);
      as_string fuel (chars_of (resource_text r_start r_end r_flags fmt)) spec
    else if c =? 0x68 then
      if field_width spec =? 0 then Some []
      else
        let len := if 0 <? field_width spec then Z.min (field_width spec) 64 else 1 in
        hex_text (Z.to_nat len) (fun i => mm (ptr + i)) 0 len (separator_of c1)
    else if (c =? 0x4d) || (c =? 0x6d) then
      l ← hex_text 6 (fun i => mm (ptr + if c1 =? 0x52 then 5 - i else i)) 0 6 (if c =? 0x4d then if c1 =? 0x46 then 0x2d else 0x3a else 0);
      as_string fuel (chars_of l) spec
    else if c =? 0x61 then v ← word_of mm ptr; Some (render_number v hex_spec)
    else Some (render_number ptr (pointer_spec spec)).

(** Six bytes with five separators. *)
Lemma mac_length get sep l : hex_text 6 get 0 6 sep = Some l -> (length l <= 17)%nat.
Proof.
  cbn [hex_text]. destruct (get 0); [|done]. destruct (get (0 + 1)); [|done]. destruct (get (0 + 1 + 1)); [|done]. destruct (get (0 + 1 + 1 + 1)); [|done].
  destruct (get (0 + 1 + 1 + 1 + 1)); [|done]. destruct (get (0 + 1 + 1 + 1 + 1 + 1)); [|done]. cbn [mbind option_bind]. intros E%(inj Some). subst l.
  rewrite !length_app. change (0 + 1 + 1 + 1 + 1 + 1 =? 6 - 1) with true. rewrite andb_false_r. cbn [length hex_pair]. destruct (negb (sep =? 0)); cbn [andb length]; repeat destruct (negb _); cbn [length]; lia.
Qed.

Section text.
Context (m : mem) (b e : Z) (Hm : forall a, uint 8 (m a)).

Abbreviation mm := (outside m b e).

Lemma as_string_ok fuel acc s R spec l : steady e (m, b) s R -> as_string fuel R spec = Some l -> string fuel (wr e acc (m, b)) e s spec = Some (wr e (acc ++ l) (m, b)).
Proof. intros Hs E. unfold as_string in E. destruct (text_of _ _ _ _) as [l'|] eqn:El; [|done]. apply (inj Some) in E as <-. by eapply string_ok. Qed.

Lemma special_hex_ok o v : uint 64 v -> special_hex_number o e v 8 = wr e (render_number v hex_spec) o.
Proof. intros Hv. unfold special_hex_number. change (2 + 2 * 8) with 18. apply number_ok; [split; [cbn; lia|by vm_compute]|done]. Qed.

Lemma word_of_uint a v : word_of mm a = Some v -> uint 64 v.
Proof. intros E. rewrite <- (word_of_ok m b e a v [] Hm E). apply load_le_range. Qed.

Lemma pointer_ok fuel fmt ptr spec acc l : uint 8 (flags spec) -> uint 64 ptr -> render_pointer fuel fmt mm ptr spec = Some l ->
  pointer fuel fmt (wr e acc (m, b)) e ptr spec = Some (wr e (acc ++ l) (m, b)).
Proof.
  intros Hf Hp E. unfold render_pointer in E. unfold pointer. assert (Forall (uint 8) str_null) as Hnull by (apply (bool_decide_unpack _); by vm_compute). destruct (ptr =? 0) eqn:E0.
  { apply as_string_ok with (R := chars_of str_null); [by apply steady_literal|]. exact E. }
  cbv zeta in *. destruct (_ || _ || _ || _ || _); [apply (inj Some) in E as <-; unfold symbol_string; by rewrite special_hex_ok, wr_app|]. destruct (_ || _).
  { destruct (word_of mm ptr) as [rs|] eqn:E1; [|done]. destruct (word_of mm (ptr + 8)) as [re|] eqn:E2; [|done]. destruct (word_of mm (ptr + 16)) as [rf|] eqn:E3; [|done]. cbn [mbind option_bind] in E.
    unfold as_string in E. destruct (text_of _ _ _ _) as [l'|] eqn:El; [|done]. apply (inj Some) in E as <-. apply resource_ok. by rewrite (word_of_ok _ _ _ _ _ _ Hm E1), (word_of_ok _ _ _ _ _ _ Hm E2), (word_of_ok _ _ _ _ _ _ Hm E3). }
  destruct (_ =? 0x68).
  { unfold hex_string. destruct (field_width spec =? 0); [apply (inj Some) in E as <-; by rewrite app_nil_r|]. rewrite E0. f_equal. apply hex_string_ok; [done| |exact E]. unfold separator_of. repeat case_match; by vm_compute. }
  destruct (_ || _) eqn:EM.
  { destruct (hex_text 6 _ 0 6 _) as [t|] eqn:Et; [|done]. cbn [mbind option_bind] in E. unfold mac_address_string. pose proof (mac_length _ _ _ Et) as Hlen.
    assert (uint 8 (if nth 0 fmt 0 =? 0x4d then if nth 1 fmt 0 =? 0x46 then 0x2d else 0x3a else 0)) as Hsep by (repeat case_match; by vm_compute).
    pose proof (hex_text_uint 6 _ _ (fun i c Ec => outside_uint m b e _ c Hm Ec) Hsep 0 6 t Et) as [Hu _].
    assert ((fun _ => 0, 0) = wr 18 [] fresh) as -> by (by rewrite wr_nil).
    rewrite (mac_loop_ok _ _ _ _ _ (fun i => mm (ptr + if nth 1 fmt 0 =? 0x52 then 5 - i else i))) with (l := t); [|..].
    - apply as_string_ok with (R := chars_of t); [apply (sym_source 18); [lia|done]|done].
    - intros i c _ Ec. split; [by apply outside_wr|by eapply outside_uint].
    - destruct (nth 1 fmt 0 =? 0x46); by vm_compute.
    - by destruct (nth 1 fmt 0 =? 0x46).
    - done.
    - cbn; lia.
    - done. }
  destruct (_ =? 0x61); [|apply (inj Some) in E as <-; unfold pointer_string; fold (pointer_spec spec); rewrite number_ok, wr_app; [done| |done]].
  - destruct (word_of mm ptr) as [v|] eqn:E1; [|done]. cbn [mbind option_bind] in E. apply (inj Some) in E as <-. unfold address_val. rewrite (word_of_ok _ _ _ _ _ _ Hm E1). by rewrite special_hex_ok, wr_app by (by eapply word_of_uint).
  - unfold pointer_spec. destruct (_ =? - 1); (split; [cbn; lia|cbn; apply uint_wrap; lia]).
Qed.
End text.

(** * Formats *)

(** ** What a directive says *)

Definition base_ok (spec : printf_spec) : Prop := base spec = 8 \/ base spec = 10 \/ base spec = 16.

Lemma decode_qualifier_ok fmt spec : uint 8 (flags spec) -> let r := decode_qualifier fmt spec in uint 8 (flags r.2) /\ base_ok r.2.
Proof.
  intros Hf. unfold decode_qualifier, base_ok. cbv zeta. set (q := if _ || _ || _ || _ then _ else (0, fmt)). destruct q as [q fmt'].
  assert (forall s, uint 8 (flags (add_flag s (set_base 10 spec)))) as Ha by (intros s; apply uint_wrap; lia).
  repeat (match goal with |- context [if ?c then _ else _] => destruct c end; [cbn; first [split; [done|lia]|split; [apply uint_wrap; lia|lia]]|]). cbn. split; [done|lia].
Qed.

Lemma decode_flags_ok fmt : forall spec, uint 8 (flags spec) -> uint 8 (flags (decode_flags fmt spec).2).
Proof.
  induction fmt as [|c fmt IH]; intros spec Hf; cbn [decode_flags]; [done|].
  repeat (match goal with |- context [if ?c then _ else _] => destruct c end; [apply IH, uint_wrap; lia|]). done.
Qed.

(** The base is set for every directive that is complete. *)
Definition directive_ok (spec : printf_spec) : Prop :=
  uint 8 (flags spec) /\ (base_ok spec \/ type spec = FORMAT_TYPE_NONE \/ type spec = FORMAT_TYPE_WIDTH \/ type spec = FORMAT_TYPE_PRECISION).

Lemma decode_precision_ok fmt spec : uint 8 (flags spec) -> directive_ok (decode_precision fmt spec).2.
Proof.
  intros Hf. assert (forall fmt spec, uint 8 (flags spec) -> directive_ok (decode_qualifier fmt spec).2) as Hq.
  { intros fmt' spec' Hf'. destruct (decode_qualifier_ok fmt' spec' Hf') as [? ?]. split; [done|by left]. }
  unfold decode_precision. destruct (_ =? 0x2e); [|by apply Hq]. destruct (isdigit _).
  - destruct (skip_atoi _) as [p fmt']. apply Hq. by destruct (_ <? 0).
  - destruct (_ =? 0x2a); [|by apply Hq]. cbn. split; [done|]. cbn. tauto.
Qed.

Lemma format_decode_ok fmt spec : uint 8 (flags spec) -> directive_ok (format_decode fmt spec).2.
Proof.
  intros Hf. unfold format_decode. destruct (type spec =? FORMAT_TYPE_WIDTH); [apply decode_precision_ok; destruct (_ <? 0); [apply uint_wrap; lia|done]|].
  destruct (type spec =? FORMAT_TYPE_PRECISION).
  { destruct (decode_qualifier_ok fmt (set_type FORMAT_TYPE_NONE (if precision spec <? 0 then set_precision 0 spec else spec))) as [? ?]; [by destruct (_ <? 0)|]. split; [done|by left]. }
  destruct (_ || _); [split; [done|]; right; by left|]. pose proof (decode_flags_ok (tail fmt) (set_flags 0 (set_type FORMAT_TYPE_NONE spec)) ltac:(by vm_compute)) as Hd.
  destruct (decode_flags _ _) as [fmt' spec']. cbn [snd] in Hd. destruct (isdigit _); [destruct (skip_atoi _) as [w fmt'']; by apply decode_precision_ok|].
  destruct (_ =? 0x2a); [split; [done|]; cbn; tauto|by apply decode_precision_ok].
Qed.

(** ** Progress *)

Lemma atoi_length fmt : forall i, (length (atoi_from fmt i).2 <= length fmt)%nat.
Proof. induction fmt as [|c fmt IH]; intros i; cbn [atoi_from]; [done|]. destruct (isdigit c); cbn [length snd]; [|done]. specialize (IH (s32 (i * 10 + c - 0x30))). lia. Qed.

Lemma tail_length (fmt : list Z) : (length (tail fmt) <= length fmt)%nat.
Proof. destruct fmt; cbn; lia. Qed.

Lemma skip_atoi_length fmt : (length (skip_atoi fmt).2 <= length fmt)%nat.
Proof. unfold skip_atoi. pose proof (atoi_length (tail fmt) (s32 (nth 0 fmt 0 - 0x30))). pose proof (tail_length fmt). lia. Qed.

Lemma decode_flags_length fmt : forall spec, (length (decode_flags fmt spec).1 <= length fmt)%nat.
Proof.
  induction fmt as [|c fmt IH]; intros spec; cbn [decode_flags]; [done|].
  repeat (match goal with |- context [if ?c then _ else _] => destruct c end; [cbn [length]; etrans; [apply IH|lia]|]). done.
Qed.

Lemma skip_text_length fmt : (length (skip_text fmt) <= length fmt)%nat.
Proof. induction fmt as [|c fmt IH]; cbn [skip_text]; [done|]. destruct (c =? 0x25); cbn [length]; lia. Qed.

(** A complete directive takes at least one character. *)
Lemma decode_qualifier_length fmt spec : let r := decode_qualifier fmt spec in
  (length r.1 <= length fmt)%nat /\ (type r.2 = FORMAT_TYPE_INVALID \/ (length r.1 < length fmt)%nat).
Proof.
  unfold decode_qualifier. cbv zeta. set (q := if _ || _ || _ || _ then _ else (0, fmt)). assert (length q.2 <= length fmt)%nat as Hq.
  { unfold q. pose proof (tail_length fmt). pose proof (tail_length (tail fmt)). repeat case_match; cbn [snd]; lia. }
  destruct q as [q fmt']. cbn [snd] in Hq. destruct fmt' as [|c fmt'].
  { cbn [nth Z.eqb orb tail length fst snd]. split; [lia|by left]. }
  cbn [nth tail length] in *. repeat (match goal with |- context [if ?c then _ else _] => destruct c end; [cbn [fst snd]; lia|]). cbn [fst snd length]. split; [done|by left].
Qed.

Lemma decode_precision_length fmt spec : let r := decode_precision fmt spec in
  (length r.1 <= length fmt)%nat /\ (type r.2 = FORMAT_TYPE_INVALID \/ (length r.1 < length fmt)%nat).
Proof.
  unfold decode_precision. cbv zeta. destruct (Z.eqb_spec (nth 0 fmt 0) 0x2e) as [E|]; [|apply decode_qualifier_length]. destruct fmt as [|c fmt]; [done|]. cbn [tail length]. destruct (isdigit _).
  - pose proof (skip_atoi_length fmt). destruct (skip_atoi fmt) as [p fmt']. cbn [snd] in *. pose proof (decode_qualifier_length fmt' (if precision (set_precision p (set_precision (- 1) spec)) <? 0 then set_precision 0 (set_precision p (set_precision (- 1) spec)) else set_precision p (set_precision (- 1) spec))) as [? ?].
    cbv zeta in *. split; [lia|right; lia].
  - destruct (_ =? 0x2a).
    + pose proof (tail_length fmt). cbn [fst snd]. split; [lia|right; lia].
    + destruct (decode_qualifier_length fmt (set_precision (- 1) spec)) as [? ?]. cbv zeta in *. split; [lia|right; lia].
Qed.

Lemma format_decode_length fmt spec : fmt <> [] -> let r := format_decode fmt spec in
  (length r.1 <= length fmt)%nat /\ (type r.2 = FORMAT_TYPE_INVALID \/ (length r.1 < length fmt)%nat).
Proof.
  intros Hne. unfold format_decode. cbv zeta. destruct (type spec =? FORMAT_TYPE_WIDTH); [apply decode_precision_length|]. destruct (type spec =? FORMAT_TYPE_PRECISION); [apply decode_qualifier_length|].
  pose proof (skip_text_length fmt). destruct (negb _ || _) eqn:E.
  { cbn [fst snd]. split; [lia|]. right. rewrite orb_true_iff, negb_true_iff, Nat.eqb_neq, Nat.eqb_eq in E. destruct fmt; [done|]. cbn [length] in *. lia. }
  destruct fmt as [|c fmt]; [done|]. cbn [tail length]. pose proof (decode_flags_length fmt (set_flags 0 (set_type FORMAT_TYPE_NONE spec))) as Hd. destruct (decode_flags _ _) as [fmt' spec']. cbn [fst] in Hd.
  destruct (isdigit _); [|destruct (_ =? 0x2a)].
  - pose proof (skip_atoi_length fmt'). destruct (skip_atoi fmt') as [w fmt'']. cbn [snd] in *. destruct (decode_precision_length fmt'' (set_field_width w (set_field_width (- 1) spec'))) as [? ?]. cbv zeta in *. split; [lia|right; lia].
  - pose proof (tail_length fmt'). cbn [fst snd]. split; [lia|right; lia].
  - destruct (decode_precision_length fmt' (set_field_width (- 1) spec')) as [? ?]. cbv zeta in *. split; [lia|right; lia].
Qed.

(** ** The text of a format *)

(** A character, with blanks before or after it, and what is left of the width. *)
Definition render_char (c : Z) (spec : printf_spec) : list Z * printf_spec :=
  let blank (spec : printf_spec) := (blanks 0x20 (sgn 24 (field_width spec - 1)), set_field_width (Z.min (sgn 24 (field_width spec - 1)) 0) spec) in
  let '(before, spec) := if negb (has_flag spec LEFT) then blank spec else ([], spec) in
  let '(after, spec) := blank spec in
  (before ++ [u8 c] ++ after, spec).

Section render.
Context (fuel : nat) (mm : Z -> option Z).

(** What vsnprintf writes for a format, without a bound on its size. *)
Fixpoint render (n : nat) (fmt args : list Z) (spec : printf_spec) : option (list Z) :=
  match n with
  | O => None
  | S n =>
      match fmt with
      | [] => Some []
      | _ =>
          let '(rest, spec) := format_decode fmt spec in
          let t := type spec in
          if t =? FORMAT_TYPE_NONE then app (take (length fmt - length rest) fmt) <$> render n rest args spec
          else if t =? FORMAT_TYPE_PERCENT_CHAR then app [0x25] <$> render n rest args spec
          else if t =? FORMAT_TYPE_INVALID then Some []
          else
            match args with
            | [] => None
            | a :: args =>
                if t =? FORMAT_TYPE_WIDTH then render n rest args (set_field_width (s32 a) spec)
                else if t =? FORMAT_TYPE_PRECISION then render n rest args (set_precision (s32 a) spec)
                else if t =? FORMAT_TYPE_CHAR then app (render_char a spec).1 <$> render n rest args (render_char a spec).2
                else if t =? FORMAT_TYPE_STR then
                  l ← as_string fuel (if a =? 0 then chars_of str_null else fun i => mm (a + i)) spec; app l <$> render n rest args spec
                else if t =? FORMAT_TYPE_PTR then
                  l ← render_pointer fuel rest mm a spec; app l <$> render n (skip_alnum rest) args spec
                else app (render_number (int_arg spec a) spec) <$> render n rest args spec
            end
      end
  end.

Lemma skip_alnum_length fmt : (length (skip_alnum fmt) <= length fmt)%nat.
Proof. induction fmt as [|c fmt IH]; cbn [skip_alnum]; [done|]. destruct (isalnum c); cbn [length]; lia. Qed.

(** The loop ends: more iterations than characters make no difference. *)
Lemma render_ends : forall n n' fmt args spec, (length fmt < n)%nat -> (length fmt < n')%nat -> render n fmt args spec = render n' fmt args spec.
Proof.
  induction n as [|n IH]; intros [|n'] fmt args spec Hn Hn'; try lia. cbn [render]. destruct fmt as [|c fmt]; [done|]. pose proof (format_decode_length (c :: fmt) spec ltac:(done)) as [Hle Hlt]. cbv zeta in *.
  destruct (format_decode (c :: fmt) spec) as [rest spec']. cbn [fst snd] in *. destruct (type spec' =? FORMAT_TYPE_INVALID) eqn:EI; [apply Z.eqb_eq in EI; by rewrite EI|]. apply Z.eqb_neq in EI.
  assert (forall args spec, render n rest args spec = render n' rest args spec) as Hr by (intros; apply IH; lia). pose proof (skip_alnum_length rest).
  assert (forall args spec, render n (skip_alnum rest) args spec = render n' (skip_alnum rest) args spec) as Hs by (intros; apply IH; lia).
  rewrite Hr. destruct (_ =? FORMAT_TYPE_NONE); [done|]. destruct (_ =? FORMAT_TYPE_PERCENT_CHAR); [done|]. destruct args as [|a args]; [done|]. rewrite !Hr.
  repeat (match goal with |- context [if ?c then _ else _] => destruct c end; [first [done|by destruct (as_string _ _ _); cbn; [rewrite Hr|]|by destruct (render_pointer _ _ _ _ _); cbn; [rewrite Hs|]]|]). done.
Qed.
End render.

Lemma put_at_at l : forall m p a, put_at m p l a = if p <=? a then default (m a) (l !! Z.to_nat (a - p)) else m a.
Proof.
  induction l as [|c l IH]; intros m p a; cbn [put_at]; [by destruct (_ <=? _)|]. destruct (decide (a = p)) as [->|]; fn_simpl; [by rewrite Z.leb_refl, Z.sub_diag|]. rewrite IH.
  destruct (Z.leb_spec (p + 1) a), (Z.leb_spec p a); try lia. by replace (Z.to_nat (a - p)) with (S (Z.to_nat (a - (p + 1)))) by lia.
Qed.

Lemma put_text_ok e text o : put_text e text o = wr e text o.
Proof.
  unfold put_text. apply out_eq; cbn [fst snd]; [|done]. intros a. rewrite wr_at. destruct (Z.ltb_spec o.2 e).
  - rewrite put_at_at. destruct (Z.leb_spec o.2 a); cbn [andb]; [|done]. set (copy := if _ <? _ then _ else _).
    assert (copy = Z.min (e - o.2) (Z.of_nat (length text))) as -> by (unfold copy; destruct (Z.ltb_spec (e - o.2) (Z.of_nat (length text))); lia). destruct (Z.ltb_spec a e).
    + destruct (decide (Z.to_nat (a - o.2) < length text)%nat); [by rewrite lookup_take_lt by lia|]. by rewrite !lookup_ge_None_2 by (rewrite ?length_take; lia).
    + by rewrite lookup_ge_None_2 by (rewrite ?length_take; lia).
  - destruct (Z.leb_spec o.2 a), (Z.ltb_spec a e); cbn [andb]; try done. lia.
Qed.

Lemma put_char_ok e c spec o : put_char e c spec o = (wr e (render_char c spec).1 o, (render_char c spec).2).
Proof.
  unfold put_char, pad_char, render_char. destruct (negb (has_flag spec LEFT)); rewrite ?put_wr, ?puts_wr by first [apply uint_wrap; lia|by vm_compute]; cbn [fst snd]; rewrite ?wr_app; fold (blanks 0x20 (sgn 24 (field_width spec - 1)));
    rewrite ?put_wr, ?puts_wr, ?wr_app by first [apply uint_wrap; lia|by vm_compute]; by rewrite <- ?app_assoc.
Qed.

(** ** vsnprintf *)

Lemma render_char_flags c spec : flags (render_char c spec).2 = flags spec.
Proof. unfold render_char. by destruct (negb _). Qed.

Lemma int_arg_uint spec a : uint 64 (int_arg spec a).
Proof.
  unfold int_arg. repeat match goal with |- context [if ?c then _ else _] => destruct c end; unfold uint; match goal with |- context [wrap ?w ?x] => pose proof (wrap_range w x ltac:(lia)) end; lia.
Qed.

(** An integer directive: its base is set. *)
Lemma integer_spec spec : directive_ok spec -> type spec <> FORMAT_TYPE_NONE -> type spec <> FORMAT_TYPE_WIDTH -> type spec <> FORMAT_TYPE_PRECISION -> spec_ok spec.
Proof. intros [Hf [Hb|[?|[?|?]]]] H1 H2 H3; try done. Qed.

Section loop.
Context (fuel : nat) (m : mem) (b e : Z) (Hm : forall a, uint 8 (m a)).

Lemma format_loop_ok : forall n fmt args spec acc l, uint 8 (flags spec) -> Forall (uint 64) args -> render fuel (outside m b e) n fmt args spec = Some l ->
  format_loop fuel n e fmt args spec (wr e acc (m, b)) = Some (wr e (acc ++ l) (m, b)).
Proof.
  induction n as [|n IH]; intros fmt args spec acc l Hf Ha E; [done|]. cbn [render format_loop] in *. destruct fmt as [|c fmt]; [injection E as <-; by rewrite app_nil_r|].
  pose proof (format_decode_ok (c :: fmt) spec Hf) as Hd. destruct (format_decode (c :: fmt) spec) as [rest spec']. cbn [snd] in Hd. pose proof (proj1 Hd) as Hf'.
  assert (forall x fmt args spec l, uint 8 (flags spec) -> Forall (uint 64) args -> app x <$> render fuel (outside m b e) n fmt args spec = Some l ->
    format_loop fuel n e fmt args spec (wr e (acc ++ x) (m, b)) = Some (wr e (acc ++ l) (m, b))) as Hstep.
  { intros x fmt' args' s' l' Hs' Ha' E'. apply fmap_Some in E' as (l'' & E' & ->). rewrite (IH _ _ _ _ _ Hs' Ha' E'). by rewrite app_assoc. }
  destruct (Z.eqb_spec (type spec') FORMAT_TYPE_NONE) as [|H1]; [rewrite put_text_ok, wr_app; by apply Hstep|].
  destruct (type spec' =? FORMAT_TYPE_PERCENT_CHAR); [rewrite put_wr, wr_app by (by vm_compute); by apply Hstep|].
  destruct (type spec' =? FORMAT_TYPE_INVALID); [injection E as <-; by rewrite app_nil_r|]. destruct args as [|a args]; [done|]. apply Forall_cons in Ha as [Ha0 Ha].
  destruct (Z.eqb_spec (type spec') FORMAT_TYPE_WIDTH) as [|H2]; [by apply IH|]. destruct (Z.eqb_spec (type spec') FORMAT_TYPE_PRECISION) as [|H3]; [by apply IH|].
  destruct (type spec' =? FORMAT_TYPE_CHAR).
  { rewrite put_char_ok, wr_app. apply Hstep; [by rewrite render_char_flags|done|done]. }
  destruct (type spec' =? FORMAT_TYPE_STR).
  { destruct (as_string _ _ _) as [t|] eqn:Et; [|done]. cbn [mbind option_bind] in E. rewrite (as_string_ok m b e fuel acc _ (if a =? 0 then chars_of str_null else fun i => outside m b e (a + i)) spec' t); [by apply Hstep| |exact Et].
    destruct (a =? 0); [apply steady_literal, (bool_decide_unpack _); by vm_compute|by apply steady_address]. }
  destruct (type spec' =? FORMAT_TYPE_PTR).
  { destruct (render_pointer _ _ _ _ _) as [t|] eqn:Et; [|done]. cbn [mbind option_bind] in E. rewrite (pointer_ok m b e Hm _ _ _ _ _ _ Hf' Ha0 Et). by apply Hstep. }
  rewrite number_ok, wr_app; [by apply Hstep|by apply integer_spec|apply int_arg_uint].
Qed.
End loop.


(** C33: numbers. Whatever the width, the precision and the flags, number writes the text
    of the number: sign, prefix and digits with the fill where the flags put it. The
    digits are right although decimal ones come from multiplications: each is below
    the base, their value is the number, and there is no zero in front. *)
Theorem number_correct o e num spec : spec_ok spec -> uint 64 num ->
  number o e num spec = wr e (render_number num spec) o /\
  (rvalue (base spec) (rdigits (base spec) num) = num /\ Forall (fun d => 0 <= d < base spec) (rdigits (base spec) num) /\ (last (rdigits (base spec) num) = Some 0 -> num = 0)).
Proof. intros Hs Hn. split; [by apply number_ok|]. apply rdigits_spec; [destruct Hs as [? _]; lia|unfold uint in Hn; lia]. Qed.

(** ** Witnesses *)

(** The string hello at 0x1000. *)
Definition hello : mem := put_at (fun _ => 0) 0x1000 [0x68; 0x65; 0x6c; 0x6c; 0x6f].

Lemma hello_uint a : uint 8 (hello a).
Proof.
  unfold hello. rewrite put_at_at. destruct (_ <=? a); [|by vm_compute]. destruct (_ !! _) as [c|] eqn:E; [|by vm_compute].
  assert (Forall (uint 8) [0x68; 0x65; 0x6c; 0x6c; 0x6f]) as H by (apply (bool_decide_unpack _); by vm_compute). by apply (Forall_lookup_1 _ _ _ _ H E).
Qed.


(** 18446744073709551615 in a field of 24. *)
Lemma number_correct_witness : exists m', number (fun _ => 0, 0) 64 (2 ^ 64 - 1) (Spec 0 24 ZEROPAD 10 (- 1)) = (m', 24) /\ m' 3 = 0x30 /\ m' 4 = 0x31 /\ m' 23 = 0x35.
Proof.
  destruct (number_correct (fun _ => 0, 0) 64 (2 ^ 64 - 1) (Spec 0 24 ZEROPAD 10 (- 1))) as [E _].
  - split; [cbn; lia|by vm_compute].
  - by vm_compute.
  - exists (wr 64 (render_number (2 ^ 64 - 1) (Spec 0 24 ZEROPAD 10 (- 1))) (fun _ => 0, 0)).1. split; [rewrite E; apply out_eq; [done|by vm_compute]|]. split_and!; vm_compute; reflexivity.
Defined.

(** * Directives *)

(** What format_decode makes of a directive, from how directives are written. *)
Module Directive.

(** The parts of a directive, as they are written. *)
Inductive flag_char := Fminus | Fplus | Fspace | Fhash | Fzero.
Inductive size_char := Lnone | Lhh | Lh | Ll | Lll | LL | Lz | Lt.
Inductive conv_char := Cd | Ci | Cu | Co | Cx | CX | Cc | Cs | Cp | Cpercent.

(** A width or a precision: none, the digits of a number, or an argument. *)
Inductive amount := Anone | Adigits (ds : list Z) | Aarg.

Record directive := Directive { d_flags : list flag_char; d_width : amount; d_precision : amount; d_size : size_char; d_conv : conv_char }.

Definition flag_text (f : flag_char) : Z := match f with Fminus => 0x2d | Fplus => 0x2b | Fspace => 0x20 | Fhash => 0x23 | Fzero => 0x30 end.
Definition size_text (l : size_char) : list Z :=
  match l with Lnone => [] | Lhh => [0x68; 0x68] | Lh => [0x68] | Ll => [0x6c] | Lll => [0x6c; 0x6c] | LL => [0x4c] | Lz => [0x7a] | Lt => [0x74] end.
Definition conv_text (c : conv_char) : Z :=
  match c with Cd => 0x64 | Ci => 0x69 | Cu => 0x75 | Co => 0x6f | Cx => 0x78 | CX => 0x58 | Cc => 0x63 | Cs => 0x73 | Cp => 0x70 | Cpercent => 0x25 end.
Definition amount_text (a : amount) : list Z :=
  match a with Anone => [] | Adigits ds => Z.add 0x30 <$> ds | Aarg => [0x2a] end.
Definition precision_text (a : amount) : list Z := match a with Anone => [] | _ => 0x2e :: amount_text a end.

(** %[flags][width][.precision][size]conversion *)
Definition directive_text (d : directive) : list Z :=
  0x25 :: (flag_text <$> d_flags d) ++ amount_text (d_width d) ++ precision_text (d_precision d) ++ size_text (d_size d) ++ [conv_text (d_conv d)].

(** ** Their meaning *)

Definition flag_bit (f : flag_char) : Z := match f with Fminus => LEFT | Fplus => PLUS | Fspace => SPACE | Fhash => SPECIAL | Fzero => ZEROPAD end.
Definition flag_bits (l : list flag_char) : Z := foldr (fun f bits => flag_bit f .| bits) 0 l.

Definition signed_conv (c : conv_char) : bool := match c with Cd | Ci => true | _ => false end.
Definition conv_bits (c : conv_char) : Z := match c with Cd | Ci => SIGN | Cx => SMALL | _ => 0 end.
Definition conv_base (c : conv_char) : Z := match c with Co => 8 | Cx | CX => 16 | _ => 10 end.

Definition conv_type (l : size_char) (c : conv_char) : Z :=
  match c with
  | Cc => FORMAT_TYPE_CHAR
  | Cs => FORMAT_TYPE_STR
  | Cp => FORMAT_TYPE_PTR
  | Cpercent => FORMAT_TYPE_PERCENT_CHAR
  | _ =>
      match l, signed_conv c with
      | (Lll | LL), _ => FORMAT_TYPE_LONG_LONG
      | Lz, _ => FORMAT_TYPE_SIZE_T
      | Lt, _ => FORMAT_TYPE_PTRDIFF
      | Ll, true => FORMAT_TYPE_LONG
      | Ll, false => FORMAT_TYPE_ULONG
      | Lhh, true => FORMAT_TYPE_BYTE
      | Lhh, false => FORMAT_TYPE_UBYTE
      | Lh, true => FORMAT_TYPE_SHORT
      | Lh, false => FORMAT_TYPE_USHORT
      | Lnone, true => FORMAT_TYPE_INT
      | Lnone, false => FORMAT_TYPE_UINT
      end
  end.

Definition value (ds : list Z) : Z := foldl (fun n d => 10 * n + d) 0 ds.

(** The arguments that the width and the precision take, and their values: a negative
    width stands for the flag -, and a negative precision for 0. *)
Definition width_value (a : amount) (arg : Z) : Z := match a with Anone => - 1 | Adigits ds => value ds | Aarg => Z.abs arg end.
Definition precision_value (a : amount) (arg : Z) : Z := match a with Anone => - 1 | Adigits ds => value ds | Aarg => Z.max arg 0 end.
Definition left_bit (a : amount) (arg : Z) : Z := match a with Aarg => if arg <? 0 then LEFT else 0 | _ => 0 end.

Definition meaning (d : directive) (w p : Z) : printf_spec :=
  Spec (conv_type (d_size d) (d_conv d)) (width_value (d_width d) w) (flag_bits (d_flags d) .| left_bit (d_width d) w .| conv_bits (d_conv d))
    (conv_base (d_conv d)) (precision_value (d_precision d) p).

(** What is written is in range: the width has no zero in front, which would be a flag. *)
Definition digits_ok (ds : list Z) : Prop := ds <> [] /\ Forall (fun d => 0 <= d <= 9) ds.
Definition width_ok (a : amount) : Prop := match a with Adigits ds => digits_ok ds /\ head ds <> Some 0 /\ value ds < 2 ^ 23 | _ => True end.
Definition precision_ok (a : amount) : Prop := match a with Adigits ds => digits_ok ds /\ value ds < 2 ^ 15 | _ => True end.

(** The calls of format_decode for one directive: when it asks for a width or a
    precision, vsnprintf takes it from the arguments. *)
Fixpoint decode_all (n : nat) (fmt : list Z) (args : list Z) (spec : printf_spec) : option (list Z * printf_spec * list Z) :=
  match n with
  | O => None
  | S n =>
      let '(rest, spec) := format_decode fmt spec in
      if type spec =? FORMAT_TYPE_WIDTH then match args with [] => None | a :: args => decode_all n rest args (set_field_width (s32 a) spec) end
      else if type spec =? FORMAT_TYPE_PRECISION then match args with [] => None | a :: args => decode_all n rest args (set_precision (s32 a) spec) end
      else Some (rest, spec, args)
  end.

Definition amount_args (a : amount) (arg : Z) : list Z := match a with Aarg => [u64 arg] | _ => [] end.

(** ** Decoding *)

Lemma flag_bits_ok l : uint 8 (flag_bits l) /\ flag_bits l .& SIGN = 0.
Proof.
  induction l as [|f l [IH1 IH2]]; [by vm_compute|]. cbn [flag_bits foldr]. fold (flag_bits l). split.
  - apply uint_lor; [lia|destruct f; by vm_compute|done].
  - rewrite Z.land_lor_distr_l, IH2. by destruct f.
Qed.

(** The text after the flags does not go on with one. *)
Definition no_flag (tl : list Z) : Prop := forall f, nth 0 tl 0 <> flag_text f.

Lemma decode_flags_text l : forall tl t w f b p, uint 8 f -> no_flag tl -> tl <> [] ->
  decode_flags ((flag_text <$> l) ++ tl) (Spec t w f b p) = (tl, Spec t w (f .| flag_bits l) b p).
Proof.
  induction l as [|x l IH]; intros tl t w f b p Hf Hn Ht.
  - cbn [fmap list_fmap app flag_bits foldr]. rewrite Z.lor_0_r. destruct tl as [|c tl]; [done|]. cbn [decode_flags].
    pose proof (Hn Fminus). pose proof (Hn Fplus). pose proof (Hn Fspace). pose proof (Hn Fhash). pose proof (Hn Fzero). cbn [nth flag_text] in *.
    by rewrite !(proj2 (Z.eqb_neq c _)) by done.
  - assert (forall y, uint 8 y -> decode_flags ((flag_text <$> l) ++ tl) (add_flag y (Spec t w f b p)) = (tl, Spec t w (f .| (y .| flag_bits l)) b p)) as Hs.
    { intros y Hy. unfold add_flag, set_flags. cbn [type field_width flags base precision]. pose proof (uint_lor 8 f y ltac:(lia) Hf Hy).
      rewrite wrap_small, IH by done. by rewrite Z.lor_assoc. }
    destruct x; cbn [fmap list_fmap app flag_text decode_flags Z.eqb Pos.eqb]; (apply Hs; by vm_compute).
Qed.

Lemma value_from ds : forall i, 0 <= i -> Forall (fun d => 0 <= d <= 9) ds -> i <= foldl (fun n d => 10 * n + d) i ds.
Proof.
  induction ds as [|x ds IH]; intros i Hi Hd; [done|]. apply Forall_cons in Hd as [Hx Hd]. cbn [foldl]. specialize (IH (10 * i + x) ltac:(lia) Hd). lia.
Qed.

Lemma value_nonneg ds : Forall (fun d => 0 <= d <= 9) ds -> 0 <= value ds.
Proof. by apply value_from. Qed.

Lemma atoi_text ds : forall i tl, Forall (fun d => 0 <= d <= 9) ds -> 0 <= i -> isdigit (nth 0 tl 0) = false ->
  foldl (fun n d => 10 * n + d) i ds < 2 ^ 31 -> atoi_from ((Z.add 0x30 <$> ds) ++ tl) i = (foldl (fun n d => 10 * n + d) i ds, tl).
Proof.
  induction ds as [|d ds IH]; intros i tl Hd Hi Ht Hv; cbn [fmap list_fmap app foldl].
  - destruct tl as [|c tl]; [done|]. cbn [nth] in Ht. cbn [atoi_from]. by rewrite Ht.
  - apply Forall_cons in Hd as [Hd Hds]. cbn [foldl] in Hv. cbn [atoi_from]. unfold isdigit. rewrite !(proj2 (Z.leb_le _ _)) by lia. cbn [andb].
    pose proof (value_from ds (10 * i + d) ltac:(lia) Hds). rewrite sgn_small by lia. replace (i * 10 + (48 + d) - 48) with (10 * i + d) by lia. apply IH; [done|lia|done|done].
Qed.

Lemma skip_atoi_text ds tl : digits_ok ds -> isdigit (nth 0 tl 0) = false -> value ds < 2 ^ 31 ->
  isdigit (nth 0 ((Z.add 0x30 <$> ds) ++ tl) 0) = true /\ skip_atoi ((Z.add 0x30 <$> ds) ++ tl) = (value ds, tl).
Proof.
  intros [Hne Hd] Ht Hv. destruct ds as [|d ds]; [done|]. pose proof Hd as [Hd0 Hds]%Forall_cons. split.
  - cbn [fmap list_fmap app nth]. unfold isdigit. rewrite !(proj2 (Z.leb_le _ _)) by lia. done.
  - unfold skip_atoi. cbn [fmap list_fmap app nth tail]. rewrite sgn_small by lia. replace (48 + d - 48) with d by lia.
    unfold value in *. cbn [foldl] in *. replace (10 * 0 + d) with d in * by lia. apply atoi_text; [done|lia|done|done].
Qed.

(** What follows the precision, and how it goes on. *)
Definition conv_tail (d : directive) (rest : list Z) : list Z := size_text (d_size d) ++ conv_text (d_conv d) :: rest.

Lemma conv_tail_starts d rest : let c := nth 0 (conv_tail d rest) 0 in
  no_flag (conv_tail d rest) /\ conv_tail d rest <> [] /\ isdigit c = false /\ c <> 0x2e /\ c <> 0x2a.
Proof. unfold conv_tail, no_flag. destruct (d_size d), (d_conv d); cbn; repeat split; try done; intros []; done. Qed.

Lemma conv_tail_text d rest t w f b p : uint 8 f -> f .& SIGN = 0 -> decode_qualifier (conv_tail d rest) (Spec t w f b p) =
  (rest, Spec (conv_type (d_size d) (d_conv d)) w (f .| conv_bits (d_conv d)) (conv_base (d_conv d)) p).
Proof.
  intros Hf Hs. unfold conv_tail, decode_qualifier, set_type, add_flag, set_flags, set_base.
  assert (u8 (f .| SIGN) = f .| SIGN /\ u8 (f .| SMALL) = f .| SMALL) as [E1 E2] by (split; apply wrap_small, uint_lor; first [lia|done|by vm_compute]).
  assert ((f .| SIGN) .& SIGN = 1 /\ (f .| SMALL) .& SIGN = 0) as [E3 E4] by (by rewrite !Z.land_lor_distr_l, Hs).
  destruct (d_size d), (d_conv d); cbn -[Z.land Z.lor wrap SIGN SMALL]; rewrite ?Z.lor_0_r, ?E1, ?E2, ?E3, ?E4, ?Hs; done.
Qed.

Definition precision_tail (d : directive) (rest : list Z) : list Z := precision_text (d_precision d) ++ conv_tail d rest.

(** The directive, given the flags and the width that it has. *)
Definition result (d : directive) (w f p : Z) : printf_spec :=
  Spec (conv_type (d_size d) (d_conv d)) w (f .| conv_bits (d_conv d)) (conv_base (d_conv d)) p.

(** The calls that begin after the width. *)
Lemma precision_tail_text d rest p t w f b p0 : precision_ok (d_precision d) -> - 2 ^ 15 <= p < 2 ^ 15 -> uint 8 f -> f .& SIGN = 0 ->
  decode_precision (precision_tail d rest) (Spec t w f b p0) =
    match d_precision d with
    | Aarg => (conv_tail d rest, Spec FORMAT_TYPE_PRECISION w f b (- 1))
    | _ => (rest, result d w f (precision_value (d_precision d) p))
    end.
Proof.
  intros Hok Hp Hf Hs. destruct (conv_tail_starts d rest) as (_ & _ & H1 & H2 & H3). cbv zeta in *.
  unfold precision_tail, decode_precision, set_precision, precision_text. cbn [type field_width flags base precision].
  rewrite (sgn_small 16 (- 1)) by lia. destruct (d_precision d) as [|ds|]; cbn [app amount_text precision_value].
  - rewrite (proj2 (Z.eqb_neq _ 0x2e)) by done. by apply conv_tail_text.
  - destruct Hok as [Hds Hv]. cbn [nth tail Z.eqb Pos.eqb]. destruct (skip_atoi_text ds (conv_tail d rest)) as [-> ->]; [done|done|lia|].
    pose proof (value_nonneg ds (proj2 Hds)). rewrite sgn_small by lia. rewrite (proj2 (Z.ltb_ge _ _)) by lia. by apply conv_tail_text.
  - done.
Qed.

Lemma precision_tail_starts d rest : let c := nth 0 (precision_tail d rest) 0 in
  no_flag (precision_tail d rest) /\ precision_tail d rest <> [] /\ isdigit c = false /\ c <> 0x2a.
Proof.
  unfold precision_tail, precision_text. destruct (d_precision d) as [|ds|]; cbn [app]; [by destruct (conv_tail_starts d rest) as (? & ? & ? & _ & ?)| |];
    (repeat split; try done; intros []; done).
Qed.

(** The first call. *)
Lemma directive_text_decode d rest spec : type spec <> FORMAT_TYPE_WIDTH -> type spec <> FORMAT_TYPE_PRECISION -> width_ok (d_width d) ->
  exists b p0, format_decode (directive_text d ++ rest) spec =
    match d_width d with
    | Aarg => (precision_tail d rest, Spec FORMAT_TYPE_WIDTH (- 1) (flag_bits (d_flags d)) b p0)
    | _ => decode_precision (precision_tail d rest) (Spec FORMAT_TYPE_NONE (width_value (d_width d) 0) (flag_bits (d_flags d)) b p0)
    end.
Proof.
  intros Ht1 Ht2 Hw. exists (base spec), (precision spec). destruct (precision_tail_starts d rest) as (H1 & H2 & H3 & H4). cbv zeta in *.
  unfold format_decode. rewrite !(proj2 (Z.eqb_neq (type spec) _)) by done.
  assert (directive_text d ++ rest = 0x25 :: (flag_text <$> d_flags d) ++ amount_text (d_width d) ++ precision_tail d rest) as ->.
  { unfold directive_text, precision_tail, conv_tail. cbn [app]. by rewrite <- !app_assoc. }
  cbn [skip_text Z.eqb Pos.eqb tail length]. rewrite Nat.eqb_refl. cbn [negb orb Nat.eqb]. unfold set_flags, set_type. cbn [type field_width flags base precision].
  rewrite decode_flags_text; [|by vm_compute| |by destruct (d_width d) as [|[]|]].
  2: { destruct (d_width d) as [|[|x ds]|]; cbn [amount_text app fmap list_fmap]; [done|by destruct Hw as [[]]| |by intros []]. destruct Hw as ([_ [Hx _]%Forall_cons] & Hx0 & _).
    assert (x <> 0) by (intros ->; done). intros []; cbn [nth flag_text]; lia. }
  change (u8 0) with 0. rewrite Z.lor_0_l. unfold set_field_width. cbn [type field_width flags base precision]. rewrite (sgn_small 24 (- 1)) by lia.
  destruct (d_width d) as [|ds|]; cbn [amount_text app width_value].
  - by rewrite H3, (proj2 (Z.eqb_neq _ 0x2a)).
  - destruct Hw as (Hds & _ & Hv). destruct (skip_atoi_text ds (precision_tail d rest)) as [-> ->]; [done|done|lia|]. pose proof (value_nonneg ds (proj2 Hds)). by rewrite sgn_small by lia.
  - done.
Qed.

Lemma decode_all_ended n fmt args spec d rest w f p : format_decode fmt spec = (rest, result d w f p) -> decode_all (S n) fmt args spec = Some (rest, result d w f p, args).
Proof. intros E. cbn [decode_all]. rewrite E. unfold result. cbn [type]. by destruct (d_size d), (d_conv d). Qed.

Lemma s32_arg x : - 2 ^ 31 <= x < 2 ^ 31 -> s32 (u64 x) = x.
Proof. intros. rewrite <- (sgn_small 32 x) at 2 by lia. apply sgn_eq, wrap_wrap_le. lia. Qed.

(** The calls from the one that reads the precision. *)
Lemma decode_all_precision n fmt args spec d rest p t w f b p0 : precision_ok (d_precision d) -> - 2 ^ 15 <= p < 2 ^ 15 -> uint 8 f -> f .& SIGN = 0 ->
  format_decode fmt spec = decode_precision (precision_tail d rest) (Spec t w f b p0) ->
  decode_all (S (S n)) fmt (amount_args (d_precision d) p ++ args) spec =
    Some (rest, result d w f (precision_value (d_precision d) p), args).
Proof.
  intros Hok Hp Hf Hs E. rewrite (precision_tail_text d rest p) in E by done. destruct (d_precision d) as [|ds|]; [by apply decode_all_ended..|].
  cbn [decode_all amount_args app]. rewrite E. cbn [type]. change (FORMAT_TYPE_PRECISION =? FORMAT_TYPE_WIDTH) with false. change (FORMAT_TYPE_PRECISION =? FORMAT_TYPE_PRECISION) with true. cbv iota.
  apply decode_all_ended. rewrite s32_arg by lia. unfold set_precision, format_decode. cbn [type field_width flags base precision]. rewrite (sgn_small 16 p) by lia.
  change (FORMAT_TYPE_PRECISION =? FORMAT_TYPE_WIDTH) with false. change (FORMAT_TYPE_PRECISION =? FORMAT_TYPE_PRECISION) with true. cbv iota.
  destruct (Z.ltb_spec p 0); unfold set_type; cbn [type field_width flags base precision]; rewrite conv_tail_text by done; cbn [precision_value]; [by rewrite Z.max_r by lia|by rewrite Z.max_l by lia].
Qed.

(** C34: Every directive %[flags][width][.precision][size]conversion that is written with
    flags among - + space # 0, a width and a precision that are absent, decimal or taken
    from the arguments, a size among hh h l ll L z t or none, and a conversion among d i
    u o x X c s p %, is decoded to what it means, and the format goes on right after it:
    the type of the argument by the size and the sign of the conversion, the base, the
    flags written, - for a negative width, and 0 for a negative precision. The calls of
    format_decode are as many as the arguments that it asks for and one more. The width
    has 24 bits and the precision 16, the fields of the directive. *)
Theorem format_decode_correct d w p rest args spec : type spec <> FORMAT_TYPE_WIDTH -> type spec <> FORMAT_TYPE_PRECISION ->
  width_ok (d_width d) -> precision_ok (d_precision d) -> - 2 ^ 23 < w < 2 ^ 23 -> - 2 ^ 15 <= p < 2 ^ 15 ->
  decode_all 3 (directive_text d ++ rest) (amount_args (d_width d) w ++ amount_args (d_precision d) p ++ args) spec = Some (rest, meaning d w p, args).
Proof.
  intros Ht1 Ht2 Hwd Hpd Hw Hp. destruct (directive_text_decode d rest spec Ht1 Ht2 Hwd) as (b & p0 & E). destruct (flag_bits_ok (d_flags d)) as [Hf Hs].
  change (meaning d w p) with (result d (width_value (d_width d) w) (flag_bits (d_flags d) .| left_bit (d_width d) w) (precision_value (d_precision d) p)).
  destruct (d_width d) as [|ds|]; cbn [amount_args app width_value left_bit] in *; rewrite ?Z.lor_0_r; [by eapply decode_all_precision..|].
  set (fmt := directive_text d ++ rest) in *. remember 2%nat as n eqn:En. cbn [decode_all]. rewrite E. cbn [type]. change (FORMAT_TYPE_WIDTH =? FORMAT_TYPE_WIDTH) with true. cbv iota.
  rewrite s32_arg by lia. unfold set_field_width. cbn [type field_width flags base precision]. rewrite (sgn_small 24 w) by lia. subst n.
  assert (uint 8 (flag_bits (d_flags d) .| LEFT)) as Hf' by (apply uint_lor; [lia|done|by vm_compute]).
  destruct (Z.ltb_spec w 0).
  - rewrite Z.abs_neq by lia. eapply decode_all_precision; [done|done|done|by rewrite Z.land_lor_distr_l, Hs|]. unfold format_decode, add_flag, set_flags, set_field_width, set_type. cbn [type field_width flags base precision].
    change (FORMAT_TYPE_WIDTH =? FORMAT_TYPE_WIDTH) with true. cbv iota. rewrite (proj2 (Z.ltb_lt w 0)) by done. cbn [type field_width flags base precision]. rewrite sgn_small, wrap_small by (done || lia). done.
  - rewrite Z.abs_eq, Z.lor_0_r by lia. eapply decode_all_precision; [done..|]. unfold format_decode, set_type. cbn [type field_width flags base precision].
    change (FORMAT_TYPE_WIDTH =? FORMAT_TYPE_WIDTH) with true. cbv iota. rewrite (proj2 (Z.ltb_ge w 0)) by done. done.
Qed.

Lemma format_decode_correct_witness :
  decode_all 3 [0x25; 0x2d; 0x30; 0x31; 0x32; 0x2e; 0x2a; 0x6c; 0x78; 0x0a] [u64 (- 3); 7] (Spec 0 0 0 0 0) =
    Some ([0x0a], Spec FORMAT_TYPE_ULONG 12 (LEFT .| ZEROPAD .| SMALL) 16 0, [7]).
Proof.
  refine (format_decode_correct (Directive [Fminus; Fzero] (Adigits [1; 2]) Aarg Ll Cx) 0 (- 3) [0x0a] [7] (Spec 0 0 0 0 0) _ _ _ I _ _); [done|done| |lia|lia].
  split; [split; [done|repeat constructor; lia]|]. split; [done|vm_compute; done].
Defined.
End Directive.
