(* ===== verification/Sha256.v ===== *)
(** SHA-256 and HMAC-SHA-256 as kernel/hacl/Hacl_SHA2_256.c and
    Hacl_HMAC_SHA2_256.c compute them, with the interfaces of kernel/sha256.c and
    kernel/hmac256.c. A pointer into an array is the array and an index. *)

From stdpp Require Import list.
From S2P Require Import Prelude Cstring Bytes Unaligned.

(** An array of 32-bit words. *)
Abbreviation words := (Z -> Z).

(** for (i = lo; i < lo + n; i++) *)
Fixpoint for_range {A} (lo : Z) (n : nat) (body : Z -> A -> A) (a : A) : A :=
  match n with
  | O => a
  | S n => for_range (lo + 1) n body (body lo a)
  end.

(** * Words *)

Definition add32 (x y : Z) : Z := u32 (x + y).
Definition shl32 (x n : Z) : Z := u32 (x ≪ n).
Definition not32 (x : Z) : Z := u32 (Z.lnot x).

Declare Scope word_scope.
Delimit Scope word_scope with w.
Infix "+" := add32 : word_scope.
Infix ".^" := Z.lxor (at level 50, left associativity) : word_scope.
Infix ".&" := Z.land : word_scope.
Infix ".|" := Z.lor : word_scope.
Infix "≪" := shl32 : word_scope.
Infix "≫" := Z.shiftr : word_scope.

(** * Loads and stores *)

Definition load32_be (b : mem) (p : Z) : Z := get_unaligned_be32 b p.
Definition store32_be (b : mem) (p v : Z) : mem := put_unaligned_be32 v b p.
Definition store64_be (b : mem) (p v : Z) : mem := put_unaligned_be64 v b p.

Definition Hacl_Hash_Lib_LoadStore_uint32s_from_be_bytes (output : words) (input : mem) (p len : Z) : words :=
  for_range 0 (Z.to_nat len) (fun i output => <[i := load32_be input (p + 4 * i)]> output) output.

Definition Hacl_Hash_Lib_LoadStore_uint32s_to_be_bytes (output : mem) (p : Z) (input : words) (q len : Z) : mem :=
  for_range 0 (Z.to_nat len) (fun i output => store32_be output (p + 4 * i) (input (q + i))) output.

(** memcpy between two arrays. *)
Definition copy_from (dest : mem) (d : Z) (src : mem) (s count : Z) : mem :=
  for_range 0 (Z.to_nat count) (fun i dest => <[d + i := src (s + i)]> dest) dest.

(** * The hash

    The state of 137 words has the constants, the message schedule at 64, the hash
    at 128 and the number of blocks at 136. *)

Definition k_init : list Z :=
  [0x428a2f98; 0x71374491; 0xb5c0fbcf; 0xe9b5dba5] ++ [0x3956c25b; 0x59f111f1; 0x923f82a4; 0xab1c5ed5] ++
  [0xd807aa98; 0x12835b01; 0x243185be; 0x550c7dc3] ++ [0x72be5d74; 0x80deb1fe; 0x9bdc06a7; 0xc19bf174] ++
  [0xe49b69c1; 0xefbe4786; 0x0fc19dc6; 0x240ca1cc] ++ [0x2de92c6f; 0x4a7484aa; 0x5cb0a9dc; 0x76f988da] ++
  [0x983e5152; 0xa831c66d; 0xb00327c8; 0xbf597fc7] ++ [0xc6e00bf3; 0xd5a79147; 0x06ca6351; 0x14292967] ++
  [0x27b70a85; 0x2e1b2138; 0x4d2c6dfc; 0x53380d13] ++ [0x650a7354; 0x766a0abb; 0x81c2c92e; 0x92722c85] ++
  [0xa2bfe8a1; 0xa81a664b; 0xc24b8b70; 0xc76c51a3] ++ [0xd192e819; 0xd6990624; 0xf40e3585; 0x106aa070] ++
  [0x19a4c116; 0x1e376c08; 0x2748774c; 0x34b0bcb5] ++ [0x391c0cb3; 0x4ed8aa4a; 0x5b9cca4f; 0x682e6ff3] ++
  [0x748f82ee; 0x78a5636f; 0x84c87814; 0x8cc70208] ++ [0x90befffa; 0xa4506ceb; 0xbef9a3f7; 0xc67178f2].

Definition h_init : list Z :=
  [0x6a09e667; 0xbb67ae85; 0x3c6ef372; 0xa54ff53a; 0x510e527f; 0x9b05688c; 0x1f83d9ab; 0x5be0cd19].

Definition Hacl_Impl_SHA2_256_init (state : words) : words :=
  let state := put_at state 0 k_init in
  let state := put_at state 128 h_init in
  <[136 := 0]> state.

(** The schedule. *)
Definition schedule_word (t16 t15 t7 t2 : Z) : Z :=
  ((((t2 ≫ 17) .| (t2 ≪ (32 - 17))) .^ (((t2 ≫ 19) .| (t2 ≪ (32 - 19))) .^ (t2 ≫ 10)))
   + t7
   + (((t15 ≫ 7) .| (t15 ≪ (32 - 7))) .^ (((t15 ≫ 18) .| (t15 ≪ (32 - 18))) .^ (t15 ≫ 3)))
   + t16)%w.

Definition schedule (state data_w : words) : words :=
  let ws_w := 64 in
  let state := for_range 0 16 (fun i state => <[ws_w + i := data_w i]> state) state in
  for_range 16 48 (fun i state =>
    let t16 := state (ws_w + (i - 16)) in
    let t15 := state (ws_w + (i - 15)) in
    let t7 := state (ws_w + (i - 7)) in
    let t2 := state (ws_w + (i - 2)) in
    <[ws_w + i := schedule_word t16 t15 t7 t2]> state) state.

(** One round on the eight working variables. *)
Definition shuffle_round (kt wst : Z) (hash_0 : words) : words :=
  let a := hash_0 0 in
  let b := hash_0 1 in
  let c := hash_0 2 in
  let d := hash_0 3 in
  let e := hash_0 4 in
  let f1 := hash_0 5 in
  let g := hash_0 6 in
  let h := hash_0 7 in
  let t1 := (h
    + (((e ≫ 6) .| (e ≪ (32 - 6))) .^ (((e ≫ 11) .| (e ≪ (32 - 11))) .^ ((e ≫ 25) .| (e ≪ (32 - 25)))))
    + ((e .& f1) .^ (not32 e .& g))
    + kt
    + wst)%w in
  let t2 := ((((a ≫ 2) .| (a ≪ (32 - 2))) .^ (((a ≫ 13) .| (a ≪ (32 - 13))) .^ ((a ≫ 22) .| (a ≪ (32 - 22)))))
    + ((a .& b) .^ ((a .& c) .^ (b .& c))))%w in
  let x1 := (t1 + t2)%w in
  let x5 := (d + t1)%w in
  put_at hash_0 0 [x1; a; b; c; x5; e; f1; g].

Definition shuffle (state hash_0 : words) : words :=
  for_range 0 64 (fun i hash_0 => shuffle_round (state i) (state (64 + i)) hash_0) hash_0.

Definition sum_hash (state hash_0 : words) : words :=
  for_range 0 8 (fun i state =>
    let xi := state (128 + i) in
    let yi := hash_0 i in
    <[128 + i := (xi + yi)%w]> state) state.

Definition Hacl_Impl_SHA2_256_update (state : words) (data : mem) (p : Z) : words :=
  let data_w := Hacl_Hash_Lib_LoadStore_uint32s_from_be_bytes (fun _ => 0) data p 16 in
  let state := schedule state data_w in
  let hash_0 := copy_from (fun _ => 0) 0 state 128 8 in
  let hash_0 := shuffle state hash_0 in
  let state := sum_hash state hash_0 in
  <[136 := (state 136 + 1)%w]> state.

Definition Hacl_Impl_SHA2_256_update_multi (state : words) (data : mem) (p n1 : Z) : words :=
  for_range 0 (Z.to_nat n1) (fun i state => Hacl_Impl_SHA2_256_update state data (p + u32 (i * 64))) state.

Definition Hacl_Impl_SHA2_256_update_last (state : words) (data : mem) (p len : Z) : words :=
  let blocks : mem := fun _ => 0 in
  let nb := if len <? 56 then 1 else 2 in
  let final_blocks := if len <? 56 then 64 else 0 in
  let blocks := copy_from blocks final_blocks data p len in
  let n1 := state 136 in
  let padding := final_blocks + len in
  let pad0len := u32 (64 - u32 (len + 8 + 1) mod 64) mod 64 in
  let buf1 := padding in
  let buf2 := padding + 1 + pad0len in
  let encodedlen := u64 (u64 (u64 (n1 * 64) + len) * 8) in
  let blocks := <[buf1 := 0x80]> blocks in
  let blocks := store64_be blocks buf2 encodedlen in
  Hacl_Impl_SHA2_256_update_multi state blocks final_blocks nb.

Definition Hacl_Impl_SHA2_256_finish (state : words) (m : mem) (hash1 : Z) : mem :=
  Hacl_Hash_Lib_LoadStore_uint32s_to_be_bytes m hash1 state 128 8.

Definition Hacl_Impl_SHA2_256_hash (m : mem) (hash1 : Z) (input : mem) (p len : Z) : mem :=
  let state : words := fun _ => 0 in
  let n1 := len / 64 in
  let r := len mod 64 in
  let input_last := p + u32 (n1 * 64) in
  let state := Hacl_Impl_SHA2_256_init state in
  let state := Hacl_Impl_SHA2_256_update_multi state input p n1 in
  let state := Hacl_Impl_SHA2_256_update_last state input input_last r in
  Hacl_Impl_SHA2_256_finish state m hash1.

(** * The message authentication code *)

Definition Hacl_Impl_HMAC_SHA2_256_xor_bytes_inplace (a b : mem) (len : Z) : mem :=
  for_range 0 (Z.to_nat len) (fun i a => <[i := u8 (Z.lxor (u8 (a i)) (u8 (b i)))]> a) a.

(** An array of 64 bytes [c]. *)
Definition fill64 (c : Z) : mem := for_range 0 64 (fun i a => <[i := c]> a) (fun _ => 0).

Definition Hacl_Impl_HMAC_SHA2_256_hmac_core (m : mem) (mac : Z) (key : mem) (data len : Z) : mem :=
  let ipad := fill64 0x36 in
  let opad := fill64 0x5c in
  let ipad := Hacl_Impl_HMAC_SHA2_256_xor_bytes_inplace ipad key 64 in
  let state0 : words := fun _ => 0 in
  let n0 := len / 64 in
  let r0 := len mod 64 in
  let last0 := data + u32 (n0 * 64) in
  let state0 := Hacl_Impl_SHA2_256_init state0 in
  let state0 := Hacl_Impl_SHA2_256_update state0 ipad 0 in
  let state0 := Hacl_Impl_SHA2_256_update_multi state0 m data n0 in
  let state0 := Hacl_Impl_SHA2_256_update_last state0 m last0 r0 in
  let ipad := Hacl_Impl_SHA2_256_finish state0 ipad 0 in
  let opad := Hacl_Impl_HMAC_SHA2_256_xor_bytes_inplace opad key 64 in
  let state1 : words := fun _ => 0 in
  let state1 := Hacl_Impl_SHA2_256_init state1 in
  let state1 := Hacl_Impl_SHA2_256_update state1 opad 0 in
  let state1 := Hacl_Impl_SHA2_256_update_last state1 ipad 0 32 in
  Hacl_Impl_SHA2_256_finish state1 m mac.

Definition Hacl_Impl_HMAC_SHA2_256_hmac (m : mem) (mac key keylen data datalen : Z) : mem :=
  let nkey := fill64 0 in
  let nkey :=
    if keylen <=? 64 then copy_from nkey 0 m key keylen
    else Hacl_Impl_SHA2_256_hash nkey 0 m key keylen in
  Hacl_Impl_HMAC_SHA2_256_hmac_core m mac nkey data datalen.

(** * The interfaces of the kernel *)

Definition sha256_init (ctx : words) : words := Hacl_Impl_SHA2_256_init ctx.
Definition sha256_update (ctx : words) (m : mem) (data : Z) : words := Hacl_Impl_SHA2_256_update ctx m data.
Definition sha256_update_last (ctx : words) (m : mem) (data len : Z) : words := Hacl_Impl_SHA2_256_update_last ctx m data (u32 len).
Definition sha256_finish (ctx : words) (m : mem) (out : Z) : mem := Hacl_Impl_SHA2_256_finish ctx m out.
Definition sha256_update_multi (ctx : words) (m : mem) (data n : Z) : words := Hacl_Impl_SHA2_256_update_multi ctx m data (u32 n).
Definition sha256_hash (m : mem) (out data len : Z) : mem := Hacl_Impl_SHA2_256_hash m out m data (u32 len).
Definition hmac256_hash (m : mem) (out key keylen data datalen : Z) : mem :=
  Hacl_Impl_HMAC_SHA2_256_hmac m out key (u32 keylen) data (u32 datalen).
