(* ===== verification/Sha256Spec.v ===== *)
(** The secure hash standard for SHA-256 and the keyed hash HMAC over it, on
    messages as lists of bytes. The constants are not copied from a table: they
    are the fractional parts of roots of primes, as the standard defines them. *)

From stdpp Require Import list.
From S2P Require Import Prelude Bytes Unaligned Sha256.

(** * Constants *)

(** The largest [r] with [r ^ n <= N], bit by bit. *)
Fixpoint root_from (n N : Z) (bits : nat) (r : Z) : Z :=
  match bits with
  | O => r
  | S bits => let r' := r + 2 ^ Z.of_nat bits in root_from n N bits (if r' ^ n <=? N then r' else r)
  end.

Definition is_prime (p : Z) : bool := forallb (fun d => negb (p mod d =? 0)) (seqZ 2 (p - 2)).

(** The first [n] primes, for [n] up to 64. *)
Definition primes (n : nat) : list Z := take n (List.filter is_prime (seqZ 2 310)).

(** The first 32 bits of the fractional part of the [n]th root of [p]. *)
Definition frac_root (n p : Z) : Z := root_from n (p * 2 ^ (32 * n)) 40 0 mod 2 ^ 32.

Definition K256 : list Z := map (frac_root 3) (primes 64).
Definition H256 : list Z := map (frac_root 2) (primes 8).

Lemma root_from_spec n N bits : 0 < n -> forall r, 0 <= r -> r ^ n <= N < (r + 2 ^ Z.of_nat bits) ^ n ->
  0 <= root_from n N bits r /\ root_from n N bits r ^ n <= N < (root_from n N bits r + 1) ^ n.
Proof.
  intros Hn. induction bits as [|bits IH]; intros r Hr HN; cbn [root_from]; [done|].
  replace (2 ^ Z.of_nat (S bits)) with (2 ^ Z.of_nat bits + 2 ^ Z.of_nat bits) in HN by (rewrite Nat2Z.inj_succ, Z.pow_succ_r by lia; lia).
  pose proof (Z.pow_pos_nonneg 2 (Z.of_nat bits)). destruct (Z.leb_spec ((r + 2 ^ Z.of_nat bits) ^ n) N).
  - apply IH; [lia|]. split; [done|]. rewrite <- Z.add_assoc. apply HN.
  - apply IH; [done|]. split; [apply HN|done].
Qed.

(** [frac_root] has the 32 bits after the binary point of the root. *)
Lemma frac_root_spec n p : 0 < n -> 0 <= p < 2 ^ (8 * n) -> exists t,
  (t * 2 ^ 32 + frac_root n p) ^ n <= p * 2 ^ (32 * n) < (t * 2 ^ 32 + frac_root n p + 1) ^ n.
Proof.
  intros Hn Hp. destruct (root_from_spec n (p * 2 ^ (32 * n)) 40 Hn 0 ltac:(done)) as [_ H].
  - rewrite Z.pow_0_l, Z.add_0_l by done. pose proof (Z.pow_pos_nonneg 2 (32 * n)). split; [nia|].
    rewrite <- Z.pow_mul_r by lia. change (Z.of_nat 40) with 40. replace (40 * n) with (8 * n + 32 * n) by lia. rewrite Z.pow_add_r by lia. nia.
  - exists (root_from n (p * 2 ^ (32 * n)) 40 0 / 2 ^ 32). unfold frac_root. set (r := root_from _ _ _ _) in *. clearbody r.
    pose proof (Z.div_mod r (2 ^ 32) ltac:(done)) as E. rewrite (Z.mul_comm (2 ^ 32)) in E. by rewrite <- E.
Qed.

(** * Functions on words *)

Local Open Scope word_scope.

Definition ROTR (n x : Z) : Z := (x ≫ n) .| (x ≪ (32 - n)).
Definition SHR (n x : Z) : Z := x ≫ n.
Definition Ch (x y z : Z) : Z := (x .& y) .^ (not32 x .& z).
Definition Maj (x y z : Z) : Z := (x .& y) .^ (x .& z) .^ (y .& z).
Definition Sigma0 (x : Z) : Z := ROTR 2 x .^ ROTR 13 x .^ ROTR 22 x.
Definition Sigma1 (x : Z) : Z := ROTR 6 x .^ ROTR 11 x .^ ROTR 25 x.
Definition sigma0 (x : Z) : Z := ROTR 7 x .^ ROTR 18 x .^ SHR 3 x.
Definition sigma1 (x : Z) : Z := ROTR 17 x .^ ROTR 19 x .^ SHR 10 x.

(** * Hash computation *)

(** [n] more words of the schedule; [l] has the last word first. *)
Fixpoint extend (n : nat) (l : list Z) : list Z :=
  match n with
  | O => l
  | S n => extend n ((sigma1 (l !!! 1%nat) + l !!! 6%nat + sigma0 (l !!! 14%nat) + l !!! 15%nat) :: l)
  end.

Definition W (block : list Z) : list Z := reverse (extend 48 (reverse block)).

Definition round (s : list Z) (kw : Z * Z) : list Z :=
  match s with
  | [a; b; c; d; e; f; g; h] =>
      let T1 := h + Sigma1 e + Ch e f g + kw.1 + kw.2 in
      let T2 := Sigma0 a + Maj a b c in
      [T1 + T2; a; b; c; d + T1; e; f; g]
  | _ => s
  end.

(** The hash value after one more block of 16 words. *)
Definition compress (H : list Z) (block : list Z) : list Z :=
  zip_with add32 H (fold_left round (zip K256 (W block)) H).

Local Close Scope word_scope.

(** The first [n] pieces of [k] elements each. *)
Fixpoint chunks {A} (k n : nat) (l : list A) : list (list A) :=
  match n with
  | O => []
  | S n => take k l :: chunks k n (drop k l)
  end.

Definition block_words (b : list Z) : list Z := map be_value (chunks 4 16 b).

(** The hash value after the blocks of [l]. *)
Definition absorb (H : list Z) (l : list Z) : list Z :=
  fold_left (fun H b => compress H (block_words b)) (chunks 64 (length l / 64) l) H.

(** What follows a message of [total] bytes. *)
Definition padding (total : Z) : list Z :=
  0x80 :: replicate (Z.to_nat ((55 - total) mod 64)) 0 ++ be_bytes 8 (8 * total).

Definition pad (msg : list Z) : list Z := msg ++ padding (Z.of_nat (length msg)).

Definition digest (H : list Z) : list Z := concat (map (be_bytes 4) H).

Definition SHA256 (msg : list Z) : list Z := digest (absorb H256 (pad msg)).

(** * Keyed hash *)

Definition block_key (key : list Z) : list Z :=
  let k := if (length key <=? 64)%nat then key else SHA256 key in
  k ++ replicate (64 - length k) 0.

Definition HMAC (key text : list Z) : list Z :=
  let k := block_key key in
  SHA256 (map (Z.lxor 0x5c) k ++ SHA256 (map (Z.lxor 0x36) k ++ text)).
