(* ===== verification/Sha256Props.v ===== *)
(** The hash functions of the kernel compute SHA-256 and HMAC. *)

From stdpp Require Import list.
From S2P Require Import Prelude Cstring Bytes Unaligned Sha256 Sha256Spec.

(** * Loops and arrays of words *)

Lemma for_range_ind {A} (P : Z -> A -> Prop) body n : forall lo a, P lo a ->
  (forall i a, lo <= i < lo + Z.of_nat n -> P i a -> P (i + 1) (body i a)) -> P (lo + Z.of_nat n) (for_range lo n body a).
Proof.
  induction n as [|n IH]; intros lo a Ha Hb; cbn [for_range]; [by rewrite Z.add_0_r|].
  replace (lo + Z.of_nat (S n)) with (lo + 1 + Z.of_nat n) by lia. apply IH; [apply Hb; [lia|done]|]. intros i a' Hi. apply Hb. lia.
Qed.

(** The [n] words at [p]. *)
Fixpoint words_at (a : words) (p : Z) (n : nat) : list Z :=
  match n with
  | O => []
  | S n => a p :: words_at a (p + 1) n
  end.

Lemma words_at_cons a p n : words_at a p (S n) = a p :: words_at a (p + 1) n.
Proof. done. Qed.

Lemma words_at_length a p n : length (words_at a p n) = n.
Proof. revert p. induction n as [|n IH]; intros p; cbn; by rewrite ?IH. Qed.

Lemma words_at_lookup a n : forall p j, (j < n)%nat -> words_at a p n !! j = Some (a (p + Z.of_nat j)).
Proof.
  induction n as [|n IH]; intros p [|j] Hj; cbn; try lia; [by rewrite Z.add_0_r|]. rewrite IH by lia. do 2 f_equal. lia.
Qed.

Lemma words_at_ext a b p q n : (forall i, 0 <= i < Z.of_nat n -> a (p + i) = b (q + i)) -> words_at a p n = words_at b q n.
Proof.
  intros H. apply list_eq_same_length with n; rewrite ?words_at_length; try done. intros i x y Hi.
  rewrite !words_at_lookup by lia. intros [= <-] [= <-]. apply H. lia.
Qed.

Lemma words_at_snoc a p n : words_at a p (S n) = words_at a p n ++ [a (p + Z.of_nat n)].
Proof.
  revert p. induction n as [|n IH]; intros p; cbn [words_at app] in *; [by rewrite Z.add_0_r|]. rewrite IH. do 4 f_equal. lia.
Qed.

(** Writing one word per iteration. *)
Lemma for_range_fill {A} (off : Z) (v : Z -> A) n : forall lo (a : Z -> A) x,
  for_range lo n (fun i a => <[off + i := v i]> a) a x =
  if in_range x (off + lo) (Z.of_nat n) then v (x - off) else a x.
Proof.
  induction n as [|n IH]; intros lo a x; cbn [for_range]; [range_cases; [lia|done]|]. rewrite IH, fn_insert_spec.
  destruct (decide (off + lo = x)) as [<-|]; range_cases; try lia; try done. f_equal. lia.
Qed.

Lemma copy_from_put dest d src s n : copy_from dest d src s (Z.of_nat n) = put_at dest d (words_at src s n).
Proof.
  apply fn_ext. intros x. unfold copy_from. rewrite Nat2Z.id, (for_range_fill d (fun i => src (s + i)) n 0), Z.add_0_r.
  revert d s. induction n as [|n IH]; intros d s; cbn [words_at put_at]; [range_cases; [lia|done]|].
  rewrite fn_insert_spec. destruct (decide (d = x)) as [<-|].
  - range_cases; [|lia]. f_equal. lia.
  - rewrite <- IH. range_cases; try lia; try done. f_equal. lia.
Qed.

Lemma words_put_at a p l : words_at (put_at a p l) p (length l) = l.
Proof.
  revert p. induction l as [|x l IH]; intros p; cbn; [done|]. fn_simpl. f_equal.
  etrans; [|apply (IH (p + 1))]. apply words_at_ext. intros i Hi. by fn_simpl.
Qed.

Lemma words_put_len a p l n : length l = n -> words_at (put_at a p l) p n = l.
Proof. intros <-. apply words_put_at. Qed.

Lemma words_at_put_out m q l p n : p + Z.of_nat n <= q \/ q + Z.of_nat (length l) <= p -> words_at (put_at m q l) p n = words_at m p n.
Proof. intros H. apply words_at_ext. intros i Hi. by rewrite put_at_out by lia. Qed.

(** * One block *)

Lemma words_chunks m n : forall a q p, (forall i, 0 <= i < Z.of_nat n -> a (q + i) = be_value (u8s_at m (p + 4 * i) 4)) ->
  words_at a q n = map be_value (chunks 4 n (u8s_at m p (4 * n))).
Proof.
  induction n as [|n IH]; intros a q p H; [done|]. replace (4 * S n)%nat with (4 + 4 * n)%nat by lia. rewrite u8s_at_app. cbn [chunks words_at map].
  rewrite take_app_length', drop_app_length' by (by rewrite u8s_at_length). f_equal.
  - specialize (H 0 ltac:(lia)). by rewrite !Z.add_0_r in H.
  - apply IH. intros i Hi. rewrite <- Z.add_assoc, H by lia. do 2 f_equal. lia.
Qed.

Lemma from_be_bytes_ok m p n : words_at (Hacl_Hash_Lib_LoadStore_uint32s_from_be_bytes (fun _ => 0) m p (Z.of_nat n)) 0 n =
  map be_value (chunks 4 n (u8s_at m p (4 * n))).
Proof.
  apply words_chunks. intros i Hi. unfold Hacl_Hash_Lib_LoadStore_uint32s_from_be_bytes. rewrite Nat2Z.id.
  rewrite (for_range_fill 0 (fun i => load32_be m (p + 4 * i)) n 0). range_cases; [|lia]. rewrite Z.sub_0_r. apply get_be32.
Qed.

(** The schedule is the list of the standard. *)
Lemma schedule_word_ok t16 t15 t7 t2 : schedule_word t16 t15 t7 t2 = (sigma1 t2 + t7 + sigma0 t15 + t16)%w.
Proof. unfold schedule_word, sigma1, sigma0, ROTR, SHR. by rewrite !Z.lxor_assoc. Qed.

Lemma reverse_words_lookup a p n j : (j < n)%nat -> reverse (words_at a p n) !!! j = a (p + (Z.of_nat n - 1 - Z.of_nat j)).
Proof.
  intros Hj. apply list_lookup_total_correct. rewrite reverse_lookup by (by rewrite words_at_length).
  rewrite words_at_length, words_at_lookup by lia. do 2 f_equal. lia.
Qed.

Lemma schedule_ok st data_w : words_at (schedule st data_w) 64 64 = W (words_at data_w 0 16) /\
  forall x, x < 64 \/ 128 <= x -> schedule st data_w x = st x.
Proof.
  unfold schedule. set (st1 := for_range 0 16 _ st).
  assert (forall x, st1 x = if in_range x 64 16 then data_w (x - 64) else st x) as Hst1 by (intros x; apply (for_range_fill 64 data_w 16 0)).
  assert (words_at st1 64 16 = words_at data_w 0 16) as <-.
  { apply words_at_ext. intros i Hi. rewrite Hst1. range_cases; [|lia]. f_equal. lia. }
  set (step := fun i st => _). unfold W. set (l := extend 48 _).
  assert (extend (Z.to_nat (64 - 64)) (reverse (words_at (for_range 16 48 step st1) 64 (Z.to_nat 64))) = l /\
    forall x, x < 64 \/ 128 <= x -> for_range 16 48 step st1 x = st1 x) as [Hl Hx].
  { apply (for_range_ind (fun i s => extend (Z.to_nat (64 - i)) (reverse (words_at s 64 (Z.to_nat i))) = l /\ forall x, x < 64 \/ 128 <= x -> s x = st1 x) step 48 16); [done|].
    intros i s Hi [He Hx]. split; [|intros x Hx'; unfold step; fn_simpl; by apply Hx]. rewrite <- He. unfold step.
    replace (Z.to_nat (64 - i)) with (S (Z.to_nat (64 - (i + 1)))) by lia. cbn [extend]. f_equal.
    replace (Z.to_nat (i + 1)) with (S (Z.to_nat i)) by lia. rewrite words_at_snoc, reverse_snoc, Z2Nat.id by lia. fn_simpl. f_equal.
    - rewrite schedule_word_ok, !reverse_words_lookup, Z2Nat.id by lia. f_equal; [f_equal; [f_equal|]|]; f_equal; f_equal; lia.
    - f_equal. apply words_at_ext. intros j Hj. by fn_simpl. }
  change (Z.to_nat (64 - 64)) with 0%nat in Hl. change (Z.to_nat 64) with 64%nat in Hl. cbn [extend] in Hl. rewrite <- Hl, reverse_involutive. split; [done|].
  intros x Hx'. rewrite Hx, Hst1 by done. range_cases; [lia|done].
Qed.

(** The rounds. *)
Lemma shuffle_round_ok k w h : words_at (shuffle_round k w h) 0 8 = round (words_at h 0 8) (k, w).
Proof.
  unfold shuffle_round. rewrite (words_put_at _ _ [_; _; _; _; _; _; _; _]). cbn [words_at round fst snd Z.add Pos.add Pos.succ].
  unfold Sigma0, Sigma1, ROTR, Ch, Maj. by rewrite !Z.lxor_assoc.
Qed.

Lemma shuffle_ok st h : words_at (shuffle st h) 0 8 = fold_left round (zip (words_at st 0 64) (words_at st 64 64)) (words_at h 0 8).
Proof.
  assert (forall n i h, words_at (for_range i n (fun i h => shuffle_round (st i) (st (64 + i)) h) h) 0 8 =
    fold_left round (zip (words_at st i n) (words_at st (64 + i) n)) (words_at h 0 8)) as H; [|apply (H 64%nat 0)].
  induction n as [|n IH]; intros i h'; [done|]. cbn [for_range]. rewrite IH, shuffle_round_ok, !(words_at_cons st), Z.add_assoc. done.
Qed.

Lemma sum_hash_at st h x : sum_hash st h x = if in_range x 128 8 then add32 (st x) (h (x - 128)) else st x.
Proof.
  revert x. apply (for_range_ind (fun i s => forall x, s x = if in_range x 128 i then add32 (st x) (h (x - 128)) else st x) _ 8 0).
  - intros x. range_cases; [lia|done].
  - intros i s Hi Hs x. rewrite fn_insert_spec, !Hs. case_decide as E; [subst x|]; range_cases; try lia; try done. do 2 f_equal. lia.
Qed.

Lemma sum_hash_ok st h : words_at (sum_hash st h) 128 8 = zip_with add32 (words_at st 128 8) (words_at h 0 8) /\
  forall x, x < 128 \/ 136 <= x -> sum_hash st h x = st x.
Proof.
  split; [by cbn [words_at zip_with]; rewrite !sum_hash_at|]. intros x Hx. rewrite sum_hash_at. range_cases; [lia|done].
Qed.

(** The state after blocks that give the hash value [H], [n] of them. *)
Definition holds (st : words) (H : list Z) (n : Z) : Prop :=
  words_at st 0 64 = K256 /\ words_at st 128 8 = H /\ st 136 = n.

Lemma K256_init : K256 = k_init.
Proof. by vm_compute. Qed.

Lemma H256_init : H256 = h_init.
Proof. by vm_compute. Qed.

Lemma init_holds st : holds (Hacl_Impl_SHA2_256_init st) H256 0.
Proof.
  unfold Hacl_Impl_SHA2_256_init, holds. rewrite K256_init, H256_init. fn_simpl. split_and!; [| |done].
  - etrans; [|apply (words_put_at st 0 k_init)]. apply words_at_ext. change (length k_init) with 64%nat. intros i Hi. fn_simpl. apply put_at_out. lia.
  - etrans; [|apply (words_put_at (put_at st 0 k_init) 128 h_init)]. apply words_at_ext. change (length h_init) with 8%nat. intros i Hi. by fn_simpl.
Qed.

Lemma update_holds st H n m p : holds st H n ->
  holds (Hacl_Impl_SHA2_256_update st m p) (compress H (block_words (u8s_at m p 64))) (u32 (n + 1)).
Proof.
  intros (HK & HH & Hn). unfold Hacl_Impl_SHA2_256_update. set (data_w := Hacl_Hash_Lib_LoadStore_uint32s_from_be_bytes _ _ _ _).
  pose proof (from_be_bytes_ok m p 16) as Hd. change (Z.of_nat 16) with 16 in Hd. fold data_w in Hd.
  destruct (schedule_ok st data_w) as [Hw Hx]. set (st1 := schedule st data_w) in *. clearbody st1 data_w.
  rewrite (copy_from_put _ 0 st1 128 8). set (h0 := put_at _ 0 (words_at st1 128 8)).
  pose proof (shuffle_ok st1 h0) as Hs. assert (words_at h0 0 8 = words_at st1 128 8) as Hh by (apply words_put_len, words_at_length).
  set (h := shuffle st1 h0) in *. clearbody h h0.
  assert (words_at st1 0 64 = K256) as HK1 by (rewrite <- HK; apply words_at_ext; intros; apply Hx; lia).
  assert (words_at st1 128 8 = H) as HH1 by (rewrite <- HH; apply words_at_ext; intros; apply Hx; lia).
  rewrite Hh, Hw, HK1, HH1, Hd in Hs. destruct (sum_hash_ok st1 h) as [Hsum Hsx]. split_and!.
  - rewrite <- HK1. apply words_at_ext. intros i Hi. fn_simpl. apply Hsx. lia.
  - transitivity (words_at (sum_hash st1 h) 128 8); [apply words_at_ext; intros i Hi; fn_simpl; reflexivity|]. rewrite Hsum, HH1, Hs. reflexivity.
  - fn_simpl. rewrite Hsx, Hx, Hn by lia. reflexivity.
Qed.

(** * Messages *)

Lemma chunks_app {A} k n n' (l l' : list A) : length l = (k * n)%nat -> chunks k (n + n') (l ++ l') = chunks k n l ++ chunks k n' l'.
Proof.
  revert l. induction n as [|n IH]; intros l Hl.
  - destruct l; [done|cbn in Hl; lia].
  - cbn [chunks Nat.add app]. rewrite take_app_le, drop_app_le by lia. f_equal. apply IH. rewrite length_drop. lia.
Qed.

Lemma absorb_app H l l' n : length l = (64 * n)%nat -> absorb H (l ++ l') = absorb (absorb H l) l'.
Proof.
  intros Hl. unfold absorb. rewrite <- fold_left_app. f_equal. rewrite length_app, Hl, (Nat.mul_comm 64 n).
  rewrite Nat.div_add_l, Nat.div_mul by done. apply chunks_app. lia.
Qed.

Lemma absorb_block H l : length l = 64%nat -> absorb H l = compress H (block_words l).
Proof. intros Hl. unfold absorb. rewrite Hl. change (64 / 64)%nat with 1%nat. cbn [chunks fold_left]. by rewrite firstn_all2 by lia. Qed.

Lemma update_multi_holds st H c m p n : holds st H c -> uint 32 c -> 0 <= n <= 2 ^ 26 ->
  holds (Hacl_Impl_SHA2_256_update_multi st m p n) (absorb H (u8s_at m p (64 * Z.to_nat n))) (u32 (c + n)).
Proof.
  intros Hst Hc Hn. unfold Hacl_Impl_SHA2_256_update_multi. set (body := fun i st => _).
  pose proof (for_range_ind (fun i st => holds st (absorb H (u8s_at m p (64 * Z.to_nat i))) (u32 (c + i))) body (Z.to_nat n) 0 st) as P.
  cbv beta in P. rewrite Z.add_0_l, Z2Nat.id in P by lia. apply P.
  - rewrite Z.add_0_r, wrap_small by done. exact Hst.
  - intros i st' Hi Hst'. subst body. cbv beta. rewrite (wrap_small 32 (i * 64)) by lia.
    replace (64 * Z.to_nat (i + 1))%nat with (64 * Z.to_nat i + 64)%nat by lia.
    rewrite u8s_at_app, (absorb_app _ _ _ (Z.to_nat i)), absorb_block by (by rewrite u8s_at_length).
    pose proof (update_holds _ _ _ m (p + i * 64) Hst') as Hu. rewrite wrap_add_l, <- Z.add_assoc in Hu.
    replace (Z.of_nat (64 * Z.to_nat i)) with (i * 64) by lia. exact Hu.
Qed.

(** ** The last blocks *)

Lemma bytes_replicate p n : u8s_at (fun _ => 0) p n = replicate n 0.
Proof. revert p. induction n as [|n IH]; intros p; cbn; [done|]. by rewrite IH. Qed.


(** A message of [len] bytes, the byte 0x80, zeros, and the encoded length at [buf2]. *)
Lemma padded_bytes m p fb l k e : length e = 8%nat -> Forall (uint 8) e ->
  let len := Z.of_nat l in
  u8s_at (put_at (<[fb + len := 0x80]> (copy_from (fun _ => 0) fb m p len)) (fb + len + 1 + Z.of_nat k) e) fb (l + (1 + (k + 8))) =
  u8s_at m p l ++ 0x80 :: replicate k 0 ++ e.
Proof.
  intros He Hu len. rewrite (copy_from_put _ fb m p l), !u8s_at_app. change (<[fb + len := 0x80]> (put_at ?f ?a ?l)) with (put_at (put_at f a l) (fb + len) [0x80]).
  change (0x80 :: replicate k 0 ++ e) with ([0x80] ++ replicate k 0 ++ e). f_equal; [|f_equal; [|f_equal]].
  - rewrite !u8s_at_put_out by (cbn; lia). apply u8s_at_ext. intros i Hi. 
    pose proof (words_put_at (fun _ => 0) fb (words_at m p l)) as E. rewrite words_at_length in E.
    apply (f_equal (.!! Z.to_nat i)) in E. rewrite !words_at_lookup, Z2Nat.id in E by lia. injection E as ->. done.
  - rewrite u8s_at_put_out by (cbn; lia). cbn [u8s_at]. fold len. cbn [put_at]. by fn_simpl.
  - rewrite !u8s_at_put_out by (rewrite ?words_at_length; cbn; lia). apply bytes_replicate.
  - rewrite <- He. replace (fb + len + Z.of_nat 1 + Z.of_nat k) with (fb + len + 1 + Z.of_nat k) by lia. by apply bytes_put_at.
Qed.

(** ** The interface *)

(** The context after the blocks of [msg]. *)
Definition ctx_of (ctx : words) (msg : list Z) : Prop :=
  exists n, length msg = (64 * n)%nat /\ holds ctx (absorb H256 msg) (u32 (Z.of_nat n)).

Lemma update_last_holds st H c m p l : holds st H c -> uint 32 c -> (l < 120)%nat ->
  exists c', holds (Hacl_Impl_SHA2_256_update_last st m p (Z.of_nat l)) (absorb H (u8s_at m p l ++ padding (c * 64 + Z.of_nat l))) c'.
Proof.
  intros Hst Hc Hl. unfold Hacl_Impl_SHA2_256_update_last. set (len := Z.of_nat l). set (fb := if len <? 56 then 64 else 0). set (nb := if len <? 56 then 1 else 2).
  set (k := (55 - (c * 64 + len)) mod 64). unfold uint in Hc. assert (0 <= len < 120) as Hlen by (unfold len; lia).
  assert (u32 (64 - u32 (len + 8 + 1) mod 64) mod 64 = k) as ->.
  { rewrite (wrap_small 32 (len + 8 + 1)) by lia. pose proof (Z.mod_pos_bound (len + 8 + 1) 64 ltac:(lia)). rewrite wrap_small by lia. unfold k. rewrite Zminus_mod_idemp_r.
    replace (55 - (c * 64 + len)) with (64 - (len + 8 + 1) + - c * 64) by lia. by rewrite Z_mod_plus_full. }
  assert (0 <= k) as Hk by (apply Z.mod_pos_bound; lia). assert ((64 * Z.to_nat nb = l + (1 + (Z.to_nat k + 8)))%nat) as Hnb.
  { unfold nb, k. replace (55 - (c * 64 + len)) with (55 - len + - c * 64) by lia. rewrite Z_mod_plus_full. unfold len in *.
    destruct (Z.ltb_spec (Z.of_nat l) 56); [rewrite Z.mod_small by lia; lia|]. rewrite <- (Z_mod_plus_full _ 1), Z.mod_small by lia. lia. }
  destruct Hst as (HK & HH & Hn). rewrite Hn. exists (u32 (c + nb)).
  assert (u64 (u64 (u64 (c * 64) + len) * 8) = 8 * (c * 64 + len)) as -> by (rewrite wrap_add_l, wrap_mul_l, wrap_small by lia; lia).
  unfold store64_be. rewrite put_be64. pose proof (padded_bytes m p fb l (Z.to_nat k) (be_bytes 8 (8 * (c * 64 + len))) (be_bytes_length _ _) (be_bytes_uint _ _)) as Hb.
  cbv zeta in Hb. fold len in Hb. rewrite Z2Nat.id in Hb by done. unfold padding. fold k. rewrite <- Hb, <- Hnb.
  refine (update_multi_holds st H c _ fb nb (conj HK (conj HH Hn)) Hc _). unfold nb. destruct (len <? 56); lia.
Qed.

Lemma to_be_bytes_ok m p w q n : Hacl_Hash_Lib_LoadStore_uint32s_to_be_bytes m p w q (Z.of_nat n) = put_at m p (digest (words_at w q n)).
Proof.
  unfold Hacl_Hash_Lib_LoadStore_uint32s_to_be_bytes, digest. rewrite Nat2Z.id.
  assert (forall lo m, for_range lo n (fun i m => store32_be m (p + 4 * i) (w (q + i))) m = put_at m (p + 4 * lo) (concat (map (be_bytes 4) (words_at w (q + lo) n)))) as H.
  { clear m. induction n as [|n IH]; intros lo m; [done|]. cbn [for_range words_at map concat]. rewrite IH. unfold store32_be. rewrite put_be32.
    replace (p + 4 * (lo + 1)) with (p + 4 * lo + 4) by lia. rewrite put_halves by (by rewrite be_bytes_length). by rewrite Z.add_assoc. }
  rewrite H. by rewrite Z.mul_0_r, !Z.add_0_r.
Qed.

Lemma finish_ok st H c m out : holds st H c -> Hacl_Impl_SHA2_256_finish st m out = put_at m out (digest H).
Proof. intros (_ & <- & _). apply (to_be_bytes_ok m out st 128 8). Qed.

Lemma last_ok st msg m p l o out : ctx_of st msg -> (l < 120)%nat -> Z.of_nat (length msg) < 2 ^ 38 ->
  Hacl_Impl_SHA2_256_finish (Hacl_Impl_SHA2_256_update_last st m p (Z.of_nat l)) o out = put_at o out (SHA256 (msg ++ u8s_at m p l)).
Proof.
  intros (n & Hn & Hst) Hl Hmax. rewrite wrap_small in Hst by lia. destruct (update_last_holds _ _ _ m p l Hst ltac:(unfold uint; lia) Hl) as [c' Hc].
  rewrite (finish_ok _ _ _ _ _ Hc). unfold SHA256, pad. rewrite <- app_assoc, (absorb_app H256 msg _ n Hn).
  assert (Z.of_nat n * 64 + Z.of_nat l = Z.of_nat (length (msg ++ u8s_at m p l))) as <-; [|reflexivity]. rewrite length_app, u8s_at_length, Hn. lia.
Qed.

Lemma ctx_init st : ctx_of (Hacl_Impl_SHA2_256_init st) [].
Proof. exists 0%nat. split; [reflexivity|]. apply init_holds. Qed.

Lemma ctx_update st msg m p : ctx_of st msg -> ctx_of (Hacl_Impl_SHA2_256_update st m p) (msg ++ u8s_at m p 64).
Proof.
  intros (k & Hk & Hst). exists (S k). split; [rewrite length_app, u8s_at_length; lia|].
  rewrite (absorb_app _ _ _ k Hk), absorb_block by apply u8s_at_length.
  pose proof (update_holds _ _ _ m p Hst) as Hu. rewrite wrap_add_l in Hu. by rewrite Nat2Z.inj_succ, <- Z.add_1_r.
Qed.

Lemma ctx_update_multi st msg m p n : ctx_of st msg -> 0 <= n <= 2 ^ 26 ->
  ctx_of (Hacl_Impl_SHA2_256_update_multi st m p n) (msg ++ u8s_at m p (64 * Z.to_nat n)).
Proof.
  intros (k & Hk & Hst) Hn. exists (k + Z.to_nat n)%nat. split; [rewrite length_app, u8s_at_length; lia|]. rewrite (absorb_app _ _ _ k Hk).
  pose proof (update_multi_holds _ _ _ m p n Hst ltac:(apply uint_wrap; lia) Hn) as Hu.
  rewrite wrap_add_l in Hu. by rewrite Nat2Z.inj_add, Z2Nat.id by lia.
Qed.

(** The full blocks of a message of [l] bytes and its rest. *)
Lemma rest_ok st msg m p l o out : ctx_of st msg -> Z.of_nat (length msg) <= 64 -> uint 32 (Z.of_nat l) ->
  Hacl_Impl_SHA2_256_finish (Hacl_Impl_SHA2_256_update_last (Hacl_Impl_SHA2_256_update_multi st m p (Z.of_nat l / 64)) m
    (p + u32 (Z.of_nat l / 64 * 64)) (Z.of_nat l mod 64)) o out = put_at o out (SHA256 (msg ++ u8s_at m p l)).
Proof.
  unfold uint. intros Hst Hmsg Hl. pose proof (Z.div_mod (Z.of_nat l) 64 ltac:(lia)) as E. pose proof (Z.mod_pos_bound (Z.of_nat l) 64 ltac:(lia)).
  set (n := Z.of_nat l / 64) in *. set (r := Z.of_nat l mod 64) in *. clearbody n r. rewrite (wrap_small 32 (n * 64)) by lia.
  rewrite <- (Z2Nat.id r) by lia. rewrite (last_ok _ _ _ _ _ _ _ (ctx_update_multi st msg m p n Hst ltac:(lia))).
  - replace l with (64 * Z.to_nat n + Z.to_nat r)%nat at 1 by lia. rewrite u8s_at_app, app_assoc. do 5 f_equal. lia.
  - lia.
  - rewrite length_app, u8s_at_length. lia.
Qed.

Lemma hash_ok o out m p l : uint 32 (Z.of_nat l) -> Hacl_Impl_SHA2_256_hash o out m p (Z.of_nat l) = put_at o out (SHA256 (u8s_at m p l)).
Proof. intros Hl. rewrite <- (app_nil_l (u8s_at m p l)). unfold Hacl_Impl_SHA2_256_hash. apply (rest_ok _ [] m p l o out (ctx_init _)); [cbn; lia|exact Hl]. Qed.

(** ** The keyed hash *)

Lemma round_length s kw : length (round s kw) = length s.
Proof. by destruct s as [|? [|? [|? [|? [|? [|? [|? [|? [|]]]]]]]]]. Qed.

Lemma compress_length H b : length H = 8%nat -> length (compress H b) = 8%nat.
Proof.
  intros HH. unfold compress. rewrite length_zip_with. enough (forall l H, length (fold_left round l H) = length H) as -> by lia.
  induction l as [|kw l IH]; intros H'; [done|]. cbn [fold_left]. by rewrite IH, round_length.
Qed.

Lemma absorb_length H l : length H = 8%nat -> length (absorb H l) = 8%nat.
Proof. unfold absorb. revert H. induction (chunks _ _ l) as [|b bs IH]; intros H HH; cbn [fold_left]; [done|]. by apply IH, compress_length. Qed.

Lemma SHA256_length msg : length (SHA256 msg) = 32%nat.
Proof.
  unfold SHA256. assert (length (absorb H256 (pad msg)) = 8%nat) as E by (apply absorb_length; by vm_compute).
  destruct (absorb _ _) as [|? [|? [|? [|? [|? [|? [|? [|? [|]]]]]]]]] eqn:Ea; try discriminate E. unfold digest. cbn [map concat]. by rewrite !length_app, !be_bytes_length.
Qed.

Lemma SHA256_uint msg : Forall (uint 8) (SHA256 msg).
Proof. unfold SHA256, digest. apply Forall_concat, Forall_map, Forall_true. intros x. apply be_bytes_uint. Qed.

Lemma u8s_at_map f m m' p p' n : (forall i, 0 <= i < Z.of_nat n -> u8 (m (p + i)) = f (u8 (m' (p' + i)))) -> u8s_at m p n = map f (u8s_at m' p' n).
Proof.
  revert p p'. induction n as [|n IH]; intros p p' H; cbn [u8s_at map]; [done|]. f_equal.
  - specialize (H 0). rewrite !Z.add_0_r in H. apply H. lia.
  - apply IH. intros i Hi. rewrite <- !Z.add_assoc. apply H. lia.
Qed.

Lemma xor_inplace_at a b n x : Hacl_Impl_HMAC_SHA2_256_xor_bytes_inplace a b (Z.of_nat n) x =
  if in_range x 0 (Z.of_nat n) then u8 (Z.lxor (u8 (a x)) (u8 (b x))) else a x.
Proof.
  revert x. unfold Hacl_Impl_HMAC_SHA2_256_xor_bytes_inplace. rewrite Nat2Z.id.
  apply (for_range_ind (fun i s => forall x, s x = if in_range x 0 i then u8 (Z.lxor (u8 (a x)) (u8 (b x))) else a x) _ n 0).
  - intros x. range_cases; [lia|done].
  - intros i s Hi Hs x. rewrite fn_insert_spec, !Hs. case_decide as E; [subst x|]; range_cases; try lia; done.
Qed.

Lemma fill64_at c x : fill64 c x = if in_range x 0 64 then c else 0.
Proof. apply (for_range_fill 0 (fun _ => c) 64 0). Qed.

Lemma pad_key c key : uint 8 c -> u8s_at (Hacl_Impl_HMAC_SHA2_256_xor_bytes_inplace (fill64 c) key 64) 0 64 = map (Z.lxor c) (u8s_at key 0 64).
Proof.
  intros Hc. apply u8s_at_map. intros i Hi. rewrite (xor_inplace_at _ _ 64), fill64_at. range_cases; try lia. rewrite (wrap_small 8 c) by exact Hc.
  rewrite wrap_wrap. apply wrap_small, uint_lxor; [lia|done|]. apply uint_wrap. lia.
Qed.

Lemma hmac_core_ok m mac key data l text : uint 32 (Z.of_nat l) -> text = u8s_at m data l ->
  Hacl_Impl_HMAC_SHA2_256_hmac_core m mac key data (Z.of_nat l) =
  put_at m mac (SHA256 (map (Z.lxor 0x5c) (u8s_at key 0 64) ++ SHA256 (map (Z.lxor 0x36) (u8s_at key 0 64) ++ text))).
Proof.
  intros Hl ->. unfold Hacl_Impl_HMAC_SHA2_256_hmac_core. set (ipad := Hacl_Impl_HMAC_SHA2_256_xor_bytes_inplace (fill64 0x36) key 64).
  set (opad := Hacl_Impl_HMAC_SHA2_256_xor_bytes_inplace (fill64 0x5c) key 64).
  rewrite <- (pad_key 0x36), <- (pad_key 0x5c) by (unfold uint; lia). fold ipad opad.
  rewrite (rest_ok _ _ m data l ipad 0 (ctx_update _ _ ipad 0 (ctx_init _))) by (done || by rewrite length_app, u8s_at_length).
  set (inner := SHA256 _). assert (u8s_at (put_at ipad 0 inner) 0 32 = inner) as Ei.
  { rewrite <- (SHA256_length (([] ++ u8s_at ipad 0 64) ++ u8s_at m data l)). apply bytes_put_at, SHA256_uint. }
  rewrite (last_ok _ _ (put_at ipad 0 inner) 0 32 m mac (ctx_update _ _ opad 0 (ctx_init _))) by (lia || by rewrite length_app, u8s_at_length).
  by rewrite Ei.
Qed.

Lemma fill64_bytes p n : u8s_at (fill64 0) p n = replicate n 0.
Proof. rewrite <- (bytes_replicate p n). apply u8s_at_ext. intros i _. rewrite fill64_at. by destruct (in_range _ _ _). Qed.

Lemma put_key l : (length l <= 64)%nat -> Forall (uint 8) l -> u8s_at (put_at (fill64 0) 0 l) 0 64 = l ++ replicate (64 - length l) 0.
Proof.
  intros Hl Hu. replace 64%nat with (length l + (64 - length l))%nat at 1 by lia. rewrite u8s_at_app, bytes_put_at by done. f_equal.
  rewrite u8s_at_put_out by lia. apply fill64_bytes.
Qed.

Lemma put_at_bytes m p q a n k : u8s_at (put_at a 0 (words_at m p n)) q k = u8s_at (put_at a 0 (u8s_at m p n)) q k.
Proof.
  apply u8s_at_ext. intros i _. generalize (q + i). generalize 0 at 1 2. clear q i k. revert p. induction n as [|n IH]; intros p z x; [done|].
  cbn [words_at u8s_at put_at]. rewrite !fn_insert_spec. case_decide; [by rewrite wrap_wrap|]. apply IH.
Qed.

Lemma nkey_ok m key l : uint 32 (Z.of_nat l) ->
  u8s_at (if Z.of_nat l <=? 64 then copy_from (fill64 0) 0 m key (Z.of_nat l) else Hacl_Impl_SHA2_256_hash (fill64 0) 0 m key (Z.of_nat l)) 0 64 =
  block_key (u8s_at m key l).
Proof.
  intros Hl. unfold block_key. rewrite u8s_at_length. destruct (Z.leb_spec (Z.of_nat l) 64), (Nat.leb_spec l 64); try lia.
  - rewrite copy_from_put, put_at_bytes. apply put_key; [by rewrite u8s_at_length|apply u8s_at_uint].
  - rewrite hash_ok by exact Hl. apply put_key; [rewrite SHA256_length; lia|apply SHA256_uint].
Qed.

(** * Theorems *)

(** C30: the incremental interface keeps the context of a SHA-256 computation:
    sha256_init gives that of the empty message, sha256_update and
    sha256_update_multi append blocks of 64 bytes, and sha256_update_last with
    sha256_finish write the hash of the whole message and nothing else, for a rest
    of up to 119 bytes and messages of less than 2^38 bytes. *)
Theorem sha256_stream ctx msg m data n out : ctx_of ctx msg -> 0 <= n <= 2 ^ 26 -> Z.of_nat (length msg) < 2 ^ 38 ->
  (forall ctx, ctx_of (sha256_init ctx) []) /\
  ctx_of (sha256_update ctx m data) (msg ++ u8s_at m data 64) /\
  ctx_of (sha256_update_multi ctx m data n) (msg ++ u8s_at m data (64 * Z.to_nat n)) /\
  (n < 120 -> sha256_finish (sha256_update_last ctx m data n) m out = put_at m out (SHA256 (msg ++ u8s_at m data (Z.to_nat n)))).
Proof.
  intros Hctx Hn Hmax. split_and!.
  - intros ctx'. apply ctx_init.
  - by apply ctx_update.
  - unfold sha256_update_multi. rewrite (wrap_small 32 n) by lia. by apply ctx_update_multi.
  - intros Hn'. unfold sha256_finish, sha256_update_last. rewrite (wrap_small 32 n) by lia. rewrite <- (Z2Nat.id n) at 1 by lia. apply last_ok; [done|lia|done].
Qed.

(** C28: sha256_hash writes the SHA-256 hash of the message at the output and changes
    nothing else; the message is that of the low 32 bits of the length. *)
Theorem sha256_hash_correct m out data len :
  sha256_hash m out data len = put_at m out (SHA256 (u8s_at m data (Z.to_nat (u32 len)))).
Proof.
  unfold sha256_hash. pose proof (uint_wrap 32 len ltac:(lia)) as H. rewrite <- (Z2Nat.id (u32 len)) at 1 by apply H.
  apply hash_ok. rewrite Z2Nat.id by apply H. exact H.
Qed.

(** C29: hmac256_hash writes the keyed hash of the message at the output and changes
    nothing else, for keys of any length; the lengths are those of the low 32 bits. *)
Theorem hmac256_hash_correct m out key keylen data datalen :
  hmac256_hash m out key keylen data datalen =
  put_at m out (HMAC (u8s_at m key (Z.to_nat (u32 keylen))) (u8s_at m data (Z.to_nat (u32 datalen)))).
Proof.
  unfold hmac256_hash, Hacl_Impl_HMAC_SHA2_256_hmac, HMAC. pose proof (uint_wrap 32 keylen ltac:(lia)) as Hk. pose proof (uint_wrap 32 datalen ltac:(lia)) as Hd.
  rewrite <- (nkey_ok m key) by (rewrite Z2Nat.id by apply Hk; exact Hk). rewrite Z2Nat.id by apply Hk.
  rewrite <- (Z2Nat.id (u32 datalen)) at 1 by apply Hd. apply hmac_core_ok; [rewrite Z2Nat.id by apply Hd; exact Hd|reflexivity].
Qed.

(** ** Test vectors of the standard and of RFC 4231 *)

Definition abc : mem := put_at (fun _ => 0) 0 [0x61; 0x62; 0x63].

Lemma sha256_abc : be_value (u8s_at (sha256_hash abc 0x1000 0 3) 0x1000 32) = 0xba7816bf8f01cfea414140de5dae2223b00361a396177a9cb410ff61f20015ad.
Proof. by vm_compute. Qed.

(** The key is the string of 4 bytes, the text the 28 bytes of test case 2. *)
Definition jefe : mem :=
  put_at (put_at (fun _ => 0) 0 [0x4a; 0x65; 0x66; 0x65]) 0x100
    [0x77; 0x68; 0x61; 0x74; 0x20; 0x64; 0x6f; 0x20; 0x79; 0x61; 0x20; 0x77; 0x61; 0x6e; 0x74; 0x20; 0x66; 0x6f; 0x72; 0x20; 0x6e; 0x6f; 0x74; 0x68; 0x69; 0x6e; 0x67; 0x3f].

Lemma hmac256_jefe : be_value (u8s_at (hmac256_hash jefe 0x1000 0 4 0x100 28) 0x1000 32) = 0x5bdcc146bf60754e6a042426089575c75a003f089d2739839dec58b964ec3843.
Proof. by vm_compute. Qed.

Lemma sha256_stream_witness : sha256_finish (sha256_update_last (sha256_init (fun _ => 0)) abc 0 3) abc 0x1000 = put_at abc 0x1000 (SHA256 [0x61; 0x62; 0x63]).
Proof. refine (proj2 (proj2 (proj2 (sha256_stream _ [] abc 0 3 0x1000 (ctx_init _) _ _))) _); cbn [length Z.of_nat]; lia. Defined.
