(* ===== verification/Fdt.v ===== *)
(** The device tree library, kernel/libfdt/fdt.c: the header of a flattened tree,
    and the walk over the tags of its structure block. The tree is firmware data,
    which the code does not trust: a read outside the blob is an outcome of the
    model of its own. *)

From stdpp Require Import list.
From S2P Require Import Prelude Cstring Bytes.

(** * Outcomes *)

(** A call returns, reads outside the blob, or has not returned after the given
    number of iterations of some loop. *)
Inductive run (A : Type) : Type :=
| Ret (a : A)
| Fault
| Spin.
Arguments Ret {A}.
Arguments Fault {A}.
Arguments Spin {A}.

#[export] Instance run_bind : MBind run := fun A B f m =>
  match m with
  | Ret a => f a
  | Fault => Fault
  | Spin => Spin
  end.

(** A pointer, which may be NULL, and a result that is a pointer with a length, or
    an error number. *)
Abbreviation ptr := (option Z).
Abbreviation found := (Z * Z + Z)%type.

(** * Constants *)

Definition FDT_MAGIC : Z := 0xd00dfeed.
Definition FDT_SW_MAGIC : Z := u32 (Z.lnot FDT_MAGIC).
Definition FDT_TAGSIZE : Z := 4.
Definition FDT_BEGIN_NODE : Z := 1.
Definition FDT_END_NODE : Z := 2.
Definition FDT_PROP : Z := 3.
Definition FDT_NOP : Z := 4.
Definition FDT_END : Z := 9.
Definition FDT_V1_SIZE : Z := 7 * 4.
Definition FDT_V2_SIZE : Z := FDT_V1_SIZE + 4.
Definition FDT_V3_SIZE : Z := FDT_V2_SIZE + 4.
Definition FDT_V16_SIZE : Z := FDT_V3_SIZE.
Definition FDT_V17_SIZE : Z := FDT_V16_SIZE + 4.
Definition FDT_FIRST_SUPPORTED_VERSION : Z := 0x02.
Definition FDT_LAST_SUPPORTED_VERSION : Z := 0x11.
Definition FDT_ERR_NOTFOUND : Z := 1.
Definition FDT_ERR_NOSPACE : Z := 3.
Definition FDT_ERR_BADOFFSET : Z := 4.
Definition FDT_ERR_BADPATH : Z := 5.
Definition FDT_ERR_BADPHANDLE : Z := 6.
Definition FDT_ERR_BADSTATE : Z := 7.
Definition FDT_ERR_TRUNCATED : Z := 8.
Definition FDT_ERR_BADMAGIC : Z := 9.
Definition FDT_ERR_BADVERSION : Z := 10.
Definition FDT_ERR_BADSTRUCTURE : Z := 11.
Definition FDT_ERR_INTERNAL : Z := 13.
Definition FDT_ERR_BADNCELLS : Z := 14.
Definition FDT_ERR_BADVALUE : Z := 15.
Definition INT_MAX : Z := 2 ^ 31 - 1.

(** FDT_TAGALIGN, on an int. *)
Definition FDT_TAGALIGN (x : Z) : Z := s32 (u64 (x + 4 - 1) .& Z.lnot (4 - 1)).

Section fdt.
(** The bytes of the blob, from its start, and the bound on the iterations of each
    loop. *)
Context (fdt : Z -> option Z) (fuel : nat).

Definition ld8 (p : Z) : run Z := match fdt p with Some b => Ret (u8 b) | None => Fault end.

Definition fdt32_ld (p : Z) : run Z :=
  b0 ← ld8 p; b1 ← ld8 (p + 1); b2 ← ld8 (p + 2); b3 ← ld8 (p + 3);
  Ret (be32_to_cpu (of_bytes [b0; b1; b2; b3])).

Definition fdt64_ld (p : Z) : run Z :=
  b0 ← ld8 p; b1 ← ld8 (p + 1); b2 ← ld8 (p + 2); b3 ← ld8 (p + 3);
  b4 ← ld8 (p + 4); b5 ← ld8 (p + 5); b6 ← ld8 (p + 6); b7 ← ld8 (p + 7);
  Ret (be64_to_cpu (of_bytes [b0; b1; b2; b3; b4; b5; b6; b7])).

(** ** Header *)

Definition fdt_magic : run Z := fdt32_ld 0.
Definition fdt_totalsize : run Z := fdt32_ld 4.
Definition fdt_off_dt_struct : run Z := fdt32_ld 8.
Definition fdt_off_dt_strings : run Z := fdt32_ld 12.
Definition fdt_off_mem_rsvmap : run Z := fdt32_ld 16.
Definition fdt_version : run Z := fdt32_ld 20.
Definition fdt_last_comp_version : run Z := fdt32_ld 24.
Definition fdt_size_dt_strings : run Z := fdt32_ld 32.
Definition fdt_size_dt_struct : run Z := fdt32_ld 36.

Definition fdt_ro_probe_ : run Z :=
  magic ← fdt_magic;
  if magic =? FDT_MAGIC then
    version ← fdt_version;
    if version <? FDT_FIRST_SUPPORTED_VERSION then Ret (- FDT_ERR_BADVERSION)
    else
      last ← fdt_last_comp_version;
      if FDT_LAST_SUPPORTED_VERSION <? last then Ret (- FDT_ERR_BADVERSION) else Ret 0
  else if magic =? FDT_SW_MAGIC then
    size ← fdt_size_dt_struct;
    if size =? 0 then Ret (- FDT_ERR_BADSTATE) else Ret 0
  else Ret (- FDT_ERR_BADMAGIC).

Definition check_off_ (hdrsize totalsize off : Z) : bool := (hdrsize <=? off) && (off <=? totalsize).

Definition check_block_ (hdrsize totalsize base size : Z) : bool :=
  if negb (check_off_ hdrsize totalsize base) then false
  else if u32 (base + size) <? base then false
  else if negb (check_off_ hdrsize totalsize (u32 (base + size))) then false
  else true.

Definition fdt_header_size_ (version : Z) : Z :=
  if version <=? 1 then FDT_V1_SIZE
  else if version <=? 2 then FDT_V2_SIZE
  else if version <=? 3 then FDT_V3_SIZE
  else if version <=? 16 then FDT_V16_SIZE
  else FDT_V17_SIZE.

Definition fdt_check_header : run Z :=
  magic ← fdt_magic;
  if negb (magic =? FDT_MAGIC) then Ret (- FDT_ERR_BADMAGIC)
  else
    version ← fdt_version;
    last ← fdt_last_comp_version;
    let hdrsize := fdt_header_size_ version in
    if (version <? FDT_FIRST_SUPPORTED_VERSION) || (FDT_LAST_SUPPORTED_VERSION <? last) then Ret (- FDT_ERR_BADVERSION)
    else if version <? last then Ret (- FDT_ERR_BADVERSION)
    else
      totalsize ← fdt_totalsize;
      if (totalsize <? hdrsize) || (INT_MAX <? totalsize) then Ret (- FDT_ERR_TRUNCATED)
      else
        off_mem_rsvmap ← fdt_off_mem_rsvmap;
        if negb (check_off_ hdrsize totalsize off_mem_rsvmap) then Ret (- FDT_ERR_TRUNCATED)
        else
          off_dt_struct ← fdt_off_dt_struct;
          struct_ok ← (if version <? 17 then Ret (check_off_ hdrsize totalsize off_dt_struct)
                       else size_dt_struct ← fdt_size_dt_struct; Ret (check_block_ hdrsize totalsize off_dt_struct size_dt_struct));
          if negb struct_ok then Ret (- FDT_ERR_TRUNCATED)
          else
            off_dt_strings ← fdt_off_dt_strings;
            size_dt_strings ← fdt_size_dt_strings;
            if negb (check_block_ hdrsize totalsize off_dt_strings size_dt_strings) then Ret (- FDT_ERR_TRUNCATED)
            else Ret 0.

(** ** Structure block *)

(** The offset is an int, the length unsigned. *)
Definition fdt_offset_ptr_ (offset : Z) : run Z := off ← fdt_off_dt_struct; Ret (off + offset).

Definition fdt_offset_ptr (offset len : Z) : run ptr :=
  off ← fdt_off_dt_struct;
  totalsize ← fdt_totalsize;
  version ← fdt_version;
  let absoffset := u32 (offset + off) in
  if (absoffset <? u32 offset) || (u32 (absoffset + len) <? absoffset) || (totalsize <? u32 (absoffset + len)) then Ret None
  else
    out ← (if 0x11 <=? version then
             size ← fdt_size_dt_struct;
             Ret ((u32 (offset + len) <? u32 offset) || (size <? u32 (offset + len)))
           else Ret false);
    if out : bool then Ret None
    else p ← fdt_offset_ptr_ offset; Ret (Some p).

(** The loop over the name of a node: the offset after its zero byte. *)
Fixpoint skip_name (n : nat) (offset : Z) : run (option Z) :=
  match n with
  | O => Spin
  | S n =>
      p ← fdt_offset_ptr offset 1;
      let offset := s32 (offset + 1) in
      match p with
      | None => Ret None
      | Some p => c ← ld8 p; if negb (c =? 0) then skip_name n offset else Ret (Some offset)
      end
  end.

(** The offset after the value of a property. *)
Definition skip_prop (offset : Z) : run (option Z) :=
  lenp ← fdt_offset_ptr offset 4;
  match lenp with
  | None => Ret None
  | Some lenp =>
      len ← fdt32_ld lenp;
      version ← fdt_version;
      let offset := s32 (offset + (12 - FDT_TAGSIZE + len)) in
      if (version <? 0x10) && (8 <=? len) && negb (u32 (offset - len) mod 8 =? 0) then Ret (Some (s32 (offset + 4)))
      else Ret (Some offset)
  end.

(** The tag, and the offset of the next one or an error number. *)
Definition fdt_next_tag (startoffset : Z) : run (Z * Z) :=
  tagp ← fdt_offset_ptr startoffset FDT_TAGSIZE;
  match tagp with
  | None => Ret (FDT_END, - FDT_ERR_TRUNCATED)
  | Some tagp =>
      tag ← fdt32_ld tagp;
      let offset := s32 (startoffset + FDT_TAGSIZE) in
      next ← (if tag =? FDT_BEGIN_NODE then skip_name fuel offset
              else if tag =? FDT_PROP then skip_prop offset
              else if (tag =? FDT_END) || (tag =? FDT_END_NODE) || (tag =? FDT_NOP) then Ret (Some offset)
              else Ret None);
      match next with
      | None => Ret (FDT_END, - FDT_ERR_BADSTRUCTURE)
      | Some offset =>
          p ← fdt_offset_ptr startoffset (u32 (offset - startoffset));
          match p with
          | None => Ret (FDT_END, - FDT_ERR_BADSTRUCTURE)
          | Some _ => Ret (tag, FDT_TAGALIGN offset)
          end
      end
  end.

(** ** Nodes *)

Definition check_tag_offset (tag offset : Z) : run Z :=
  if (offset <? 0) || negb (offset mod FDT_TAGSIZE =? 0) then Ret (- FDT_ERR_BADOFFSET)
  else
    '(tag', offset) ← fdt_next_tag offset;
    if negb (tag' =? tag) then Ret (- FDT_ERR_BADOFFSET) else Ret offset.

Definition fdt_check_node_offset_ (offset : Z) : run Z := check_tag_offset FDT_BEGIN_NODE offset.
Definition fdt_check_prop_offset_ (offset : Z) : run Z := check_tag_offset FDT_PROP offset.

(** The loop from an offset on, with the depth when the caller asks for it. *)
Fixpoint next_node_from (n : nat) (offset : Z) (depth : option Z) : run (Z * option Z) :=
  match n with
  | O => Spin
  | S n =>
      '(tag, nextoffset) ← fdt_next_tag offset;
      if tag =? FDT_BEGIN_NODE then Ret (offset, (fun d => s32 (d + 1)) <$> depth)
      else if tag =? FDT_END_NODE then
        match depth with
        | Some d =>
            let d := s32 (d - 1) in
            if d <? 0 then Ret (nextoffset, Some d) else next_node_from n nextoffset (Some d)
        | None => next_node_from n nextoffset depth
        end
      else if tag =? FDT_END then
        if (0 <=? nextoffset) || ((nextoffset =? - FDT_ERR_TRUNCATED) && bool_decide (depth = None)) then Ret (- FDT_ERR_NOTFOUND, depth)
        else Ret (nextoffset, depth)
      else next_node_from n nextoffset depth
  end.

Definition fdt_next_node (offset : Z) (depth : option Z) : run (Z * option Z) :=
  if 0 <=? offset then
    nextoffset ← fdt_check_node_offset_ offset;
    if nextoffset <? 0 then Ret (nextoffset, depth) else next_node_from fuel nextoffset depth
  else next_node_from fuel 0 depth.

Definition fdt_first_subnode (offset : Z) : run Z :=
  '(offset, depth) ← fdt_next_node offset (Some 0);
  if (offset <? 0) || negb (bool_decide (depth = Some 1)) then Ret (- FDT_ERR_NOTFOUND) else Ret offset.

Fixpoint next_subnode_from (n : nat) (offset depth : Z) : run Z :=
  match n with
  | O => Spin
  | S n =>
      '(offset, d) ← fdt_next_node offset (Some depth);
      let depth := default depth d in
      if (offset <? 0) || (depth <? 1) then Ret (- FDT_ERR_NOTFOUND)
      else if 1 <? depth then next_subnode_from n offset depth
      else Ret offset
  end.

Definition fdt_next_subnode (offset : Z) : run Z := next_subnode_from fuel offset 1.

End fdt.
