(* ===== verification/FdtRo.v ===== *)
(** Read-only access to a flattened device tree, kernel/libfdt/fdt_ro.c: strings,
    properties, paths, parents and string lists. A name that the caller gives is
    the list of its characters. *)

From stdpp Require Import list.
From S2P Require Import Prelude Cstring Bytes Fdt.

Definition chr_slash : Z := 0x2f.
Definition chr_at : Z := 0x40.

Definition str_compatible : list Z := [99; 111; 109; 112; 97; 116; 105; 98; 108; 101].
Definition str_aliases : list Z := [chr_slash; 97; 108; 105; 97; 115; 101; 115].

(** The characters up to a separator. *)
Definition is_slash (c : Z) : bool := c =? chr_slash.
Fixpoint span {A} (f : A -> bool) (l : list A) : list A * list A :=
  match l with
  | [] => ([], [])
  | x :: l' => if f x then let '(a, b) := span f l' in (x :: a, b) else ([], l)
  end.

Section fdt.
Context (fdt : Z -> option Z) (fuel : nat).

Abbreviation ld8 := (Fdt.ld8 fdt).
Abbreviation fdt32_ld := (Fdt.fdt32_ld fdt).
Abbreviation fdt64_ld := (Fdt.fdt64_ld fdt).
Abbreviation fdt_magic := (Fdt.fdt_magic fdt).
Abbreviation fdt_totalsize := (Fdt.fdt_totalsize fdt).
Abbreviation fdt_version := (Fdt.fdt_version fdt).
Abbreviation fdt_off_dt_strings := (Fdt.fdt_off_dt_strings fdt).
Abbreviation fdt_size_dt_strings := (Fdt.fdt_size_dt_strings fdt).
Abbreviation fdt_off_mem_rsvmap := (Fdt.fdt_off_mem_rsvmap fdt).
Abbreviation fdt_ro_probe_ := (Fdt.fdt_ro_probe_ fdt).
Abbreviation fdt_check_header := (Fdt.fdt_check_header fdt).
Abbreviation fdt_offset_ptr_ := (Fdt.fdt_offset_ptr_ fdt).
Abbreviation fdt_next_tag := (Fdt.fdt_next_tag fdt fuel).
Abbreviation fdt_next_node := (Fdt.fdt_next_node fdt fuel).
Abbreviation fdt_check_node_offset_ := (Fdt.fdt_check_node_offset_ fdt fuel).
Abbreviation fdt_check_prop_offset_ := (Fdt.fdt_check_prop_offset_ fdt fuel).

(** FDT_RO_PROBE *)
Definition probed (k : run Z) : run Z := err ← fdt_ro_probe_; if negb (err =? 0) then Ret err else k.

(** ** Bytes and strings of the blob *)

(** memcmp(p, s, len) == 0, for the characters [s]. *)
Fixpoint mem_eq (p : Z) (s : list Z) : run bool :=
  match s with
  | [] => Ret true
  | c :: s => b ← ld8 p; if b =? c then mem_eq (p + 1) s else Ret false
  end.

(** memchr(p, '\0', len) *)
Fixpoint memchr0 (p : Z) (len : nat) : run ptr :=
  match len with
  | O => Ret None
  | S len => b ← ld8 p; if b =? 0 then Ret (Some p) else memchr0 (p + 1) len
  end.

(** The string at [p]; its length is strlen(p). *)
Fixpoint read_string (n : nat) (p : Z) : run (list Z) :=
  match n with
  | O => Spin
  | S n => b ← ld8 p; if b =? 0 then Ret [] else s ← read_string n (p + 1); Ret (b :: s)
  end.

Definition fdt_get_string (stroffset : Z) : run found :=
  off ← fdt_off_dt_strings;
  let absoffset := u32 (stroffset + off) in
  err ← fdt_ro_probe_;
  if negb (err =? 0) then Ret (inr err)
  else
    totalsize ← fdt_totalsize;
    if totalsize <=? absoffset then Ret (inr (- FDT_ERR_BADOFFSET))
    else
      let len := totalsize - absoffset in
      magic ← fdt_magic;
      bound ← (if magic =? FDT_MAGIC then
                 if stroffset <? 0 then Ret (inr (- FDT_ERR_BADOFFSET))
                 else
                   version ← fdt_version;
                   if 17 <=? version then
                     size ← fdt_size_dt_strings;
                     if size <=? stroffset then Ret (inr (- FDT_ERR_BADOFFSET))
                     else Ret (inl (if size - stroffset <? len then size - stroffset else len))
                   else Ret (inl len)
               else if magic =? FDT_SW_MAGIC then
                 size ← fdt_size_dt_strings;
                 if (0 <=? stroffset) || (u32 stroffset <? u32 (- size)) then Ret (inr (- FDT_ERR_BADOFFSET))
                 else Ret (inl (if u64 (- stroffset) <? len then u64 (- stroffset) else len))
               else Ret (inr (- FDT_ERR_INTERNAL)));
      match bound with
      | inr err => Ret (inr err)
      | inl len =>
          n ← memchr0 absoffset (Z.to_nat len);
          match n with
          | None => Ret (inr (- FDT_ERR_TRUNCATED))
          | Some n => Ret (inl (absoffset, n - absoffset))
          end
      end.

Definition fdt_string_eq_ (stroffset : Z) (s : list Z) : run bool :=
  p ← fdt_get_string stroffset;
  match p with
  | inr _ => Ret false
  | inl (p, slen) => if negb (slen =? Z.of_nat (length s)) then Ret false else mem_eq p s
  end.

(** ** Names *)

(** strrchr(p, '/') + 1: the string after its last slash. *)
Definition leaf (s : list Z) : option (list Z) :=
  if existsb is_slash s then Some (rev (fst (span (fun c => negb (is_slash c)) (rev s)))) else None.

Definition fdt_get_name (nodeoffset : Z) : run found :=
  nh ← fdt_offset_ptr_ nodeoffset;
  err ← fdt_ro_probe_;
  if negb (err =? 0) then Ret (inr err)
  else
    err ← fdt_check_node_offset_ nodeoffset;
    if err <? 0 then Ret (inr err)
    else
      let nameptr := nh + 4 in
      version ← fdt_version;
      s ← read_string fuel nameptr;
      if version <? 0x10 then
        match leaf s with
        | None => Ret (inr (- FDT_ERR_BADSTRUCTURE))
        | Some l => Ret (inl (nameptr + Z.of_nat (length s - length l), Z.of_nat (length l)))
        end
      else Ret (inl (nameptr, Z.of_nat (length s))).

Definition fdt_nodename_eq_ (offset : Z) (s : list Z) : run bool :=
  let len := Z.of_nat (length s) in
  p ← fdt_get_name offset;
  match p with
  | inr _ => Ret false
  | inl (p, olen) =>
      if olen <? len then Ret false
      else
        eq ← mem_eq p s;
        if negb eq then Ret false
        else
          c ← ld8 (p + len);
          if c =? 0 then Ret true
          else if negb (existsb (Z.eqb chr_at) s) && (c =? chr_at) then Ret true
          else Ret false
  end.

(** ** Properties *)

Fixpoint nextprop_from (n : nat) (offset : Z) : run Z :=
  match n with
  | O => Spin
  | S n =>
      '(tag, nextoffset) ← fdt_next_tag offset;
      if tag =? FDT_END then Ret (if 0 <=? nextoffset then - FDT_ERR_BADSTRUCTURE else nextoffset)
      else if tag =? FDT_PROP then Ret offset
      else if tag =? FDT_NOP then nextprop_from n nextoffset
      else Ret (- FDT_ERR_NOTFOUND)
  end.

Definition nextprop_ (offset : Z) : run Z := nextprop_from fuel offset.

Definition fdt_first_property_offset (nodeoffset : Z) : run Z :=
  offset ← fdt_check_node_offset_ nodeoffset;
  if offset <? 0 then Ret offset else nextprop_ offset.

Definition fdt_next_property_offset (offset : Z) : run Z :=
  offset ← fdt_check_prop_offset_ offset;
  if offset <? 0 then Ret offset else nextprop_ offset.

(** The property and its length. *)
Definition fdt_get_property_by_offset_ (offset : Z) : run found :=
  err ← fdt_check_prop_offset_ offset;
  if err <? 0 then Ret (inr err)
  else
    prop ← fdt_offset_ptr_ offset;
    len ← fdt32_ld (prop + 4);
    Ret (inl (prop, s32 len)).

(** The loop over the properties: the property, its offset and its length. *)
Fixpoint get_property_from (n : nat) (offset : Z) (name : list Z) : run (Z * Z * Z + Z) :=
  match n with
  | O => Spin
  | S n =>
      if 0 <=? offset then
        prop ← fdt_get_property_by_offset_ offset;
        match prop with
        | inr _ => Ret (inr (- FDT_ERR_INTERNAL))
        | inl (prop, len) =>
            nameoff ← fdt32_ld (prop + 8);
            eq ← fdt_string_eq_ (s32 nameoff) name;
            if eq : bool then Ret (inl (prop, offset, len))
            else offset ← fdt_next_property_offset offset; get_property_from n offset name
        end
      else Ret (inr offset)
  end.

Definition fdt_get_property_namelen_ (offset : Z) (name : list Z) : run (Z * Z * Z + Z) :=
  offset ← fdt_first_property_offset offset;
  get_property_from fuel offset name.

(** The value and its length. *)
Definition fdt_getprop (nodeoffset : Z) (name : list Z) : run found :=
  prop ← fdt_get_property_namelen_ nodeoffset name;
  match prop with
  | inr err => Ret (inr err)
  | inl (prop, poffset, len) =>
      version ← fdt_version;
      len' ← fdt32_ld (prop + 4);
      if (version <? 0x10) && negb ((poffset + 12) mod 8 =? 0) && (8 <=? len') then Ret (inl (prop + 12 + 4, len))
      else Ret (inl (prop + 12, len))
  end.

(** ** Paths *)

Fixpoint subnode_from (n : nat) (offset depth : Z) (name : list Z) : run Z :=
  match n with
  | O => Spin
  | S n =>
      if (0 <=? offset) && (0 <=? depth) then
        eq ← (if depth =? 1 then fdt_nodename_eq_ offset name else Ret false);
        if eq : bool then Ret offset
        else
          '(offset, d) ← fdt_next_node offset (Some depth);
          subnode_from n offset (default depth d) name
      else if depth <? 0 then Ret (- FDT_ERR_NOTFOUND)
      else Ret offset
  end.

Definition fdt_subnode_offset_namelen (offset : Z) (name : list Z) : run Z := probed (subnode_from fuel offset 0 name).

(** The components of a path, from the node at an offset on. *)
Fixpoint walk_path (n : nat) (offset : Z) (p : list Z) : run Z :=
  match n with
  | O => Spin
  | S n =>
      match p with
      | [] => Ret offset
      | _ =>
          match snd (span is_slash p) with
          | [] => Ret offset
          | p =>
              let '(name, p) := span (fun c => negb (is_slash c)) p in
              offset ← fdt_subnode_offset_namelen offset name;
              if offset <? 0 then Ret offset else walk_path n offset p
          end
      end
  end.

(** The value of an alias: a path with aliases is never asked for here. *)
Definition fdt_get_alias_namelen (name : list Z) : run ptr :=
  aliasoffset ← probed (walk_path fuel 0 str_aliases);
  if aliasoffset <? 0 then Ret None
  else
    p ← fdt_getprop aliasoffset name;
    match p with
    | inl (p, _) => Ret (Some p)
    | inr _ => Ret None
    end.

(** A path that starts with an alias is looked up from where the alias leads to. *)
Fixpoint path_offset_from (n : nat) (path : list Z) : run Z :=
  match n with
  | O => Spin
  | S n =>
      probed (
        if negb (bool_decide (head path = Some chr_slash)) then
          let '(alias, rest) := span (fun c => negb (is_slash c)) path in
          p ← fdt_get_alias_namelen alias;
          match p with
          | None => Ret (- FDT_ERR_BADPATH)
          | Some p =>
              target ← read_string fuel p;
              offset ← path_offset_from n target;
              walk_path fuel offset rest
          end
        else walk_path fuel 0 path)
  end.

Definition fdt_path_offset (path : list Z) : run Z := path_offset_from fuel path.

(** ** Parents *)

(** The loop over the nodes up to [nodeoffset]: the ancestor at a depth, and the
    depth of the node. *)
Fixpoint supernode_from (n : nat) (offset depth nodeoffset supernodedepth supernodeoffset : Z) : run (Z * option Z) :=
  match n with
  | O => Spin
  | S n =>
      if (0 <=? offset) && (offset <=? nodeoffset) then
        let supernodeoffset := if depth =? supernodedepth then offset else supernodeoffset in
        if offset =? nodeoffset then
          if depth <? supernodedepth then Ret (- FDT_ERR_NOTFOUND, Some depth) else Ret (supernodeoffset, Some depth)
        else
          '(offset, d) ← fdt_next_node offset (Some depth);
          supernode_from n offset (default depth d) nodeoffset supernodedepth supernodeoffset
      else if (offset =? - FDT_ERR_NOTFOUND) || (0 <=? offset) then Ret (- FDT_ERR_BADOFFSET, None)
      else if offset =? - FDT_ERR_BADOFFSET then Ret (- FDT_ERR_BADSTRUCTURE, None)
      else Ret (offset, None)
  end.

Definition fdt_supernode_atdepth_offset (nodeoffset supernodedepth : Z) : run (Z * option Z) :=
  err ← fdt_ro_probe_;
  if negb (err =? 0) then Ret (err, None)
  else if supernodedepth <? 0 then Ret (- FDT_ERR_NOTFOUND, None)
  else supernode_from fuel 0 0 nodeoffset supernodedepth (- FDT_ERR_INTERNAL).

Definition fdt_node_depth (nodeoffset : Z) : run Z :=
  '(err, nodedepth) ← fdt_supernode_atdepth_offset nodeoffset 0;
  if negb (err =? 0) then Ret (if err <? 0 then err else - FDT_ERR_INTERNAL)
  else match nodedepth with Some d => Ret d | None => Fault end.

Definition fdt_parent_offset (nodeoffset : Z) : run Z :=
  nodedepth ← fdt_node_depth nodeoffset;
  if nodedepth <? 0 then Ret nodedepth
  else '(offset, _) ← fdt_supernode_atdepth_offset nodeoffset (nodedepth - 1); Ret offset.

(** ** String lists *)

Fixpoint stringlist_contains_from (n : nat) (strlist listlen : Z) (str : list Z) : run bool :=
  match n with
  | O => Spin
  | S n =>
      if Z.of_nat (length str) <=? listlen then
        eq ← mem_eq strlist (str ++ [0]);
        if eq : bool then Ret true
        else
          p ← memchr0 strlist (Z.to_nat listlen);
          match p with
          | None => Ret false
          | Some p => stringlist_contains_from n (p + 1) (listlen - (p - strlist + 1)) str
          end
      else Ret false
  end.

Definition fdt_stringlist_contains (strlist listlen : Z) (str : list Z) : run bool :=
  stringlist_contains_from fuel strlist listlen str.

Definition fdt_node_check_compatible (nodeoffset : Z) (compatible : list Z) : run Z :=
  prop ← fdt_getprop nodeoffset str_compatible;
  match prop with
  | inr len => Ret len
  | inl (prop, len) => yes ← fdt_stringlist_contains prop len compatible; Ret (if yes : bool then 0 else 1)
  end.

End fdt.
