(* ===== verification/FdtTree.v ===== *)
(** Device trees and their flattened form: the structure block as a list of tokens,
    the tree they come from, and the walk of the library over the tokens. *)

From stdpp Require Import list.
From S2P Require Import Prelude Cstring Bytes Unaligned Fdt FdtRo.

(** * Bytes of a blob *)

(** The bytes [l] are at [p]. *)
Definition has (fdt : Z -> option Z) (p : Z) (l : list Z) : Prop := forall i b, l !! i = Some b -> fdt (p + Z.of_nat i) = Some b.

Lemma has_app fdt p l l' : has fdt p (l ++ l') <-> has fdt p l /\ has fdt (p + Z.of_nat (length l)) l'.
Proof.
  unfold has. split.
  - intros H. split; intros i b Hi.
    + apply H. by apply lookup_app_l_Some.
    + rewrite <- Z.add_assoc, <- Nat2Z.inj_add. apply H. rewrite lookup_app_r by lia. rewrite <- Hi. f_equal. lia.
  - intros [H H'] i b Hi. apply lookup_app_Some in Hi as [Hi|[Hl Hi]]; [by apply H|]. apply H' in Hi. rewrite <- Hi. f_equal. lia.
Qed.

Lemma has_cons fdt p b l : has fdt p (b :: l) <-> fdt p = Some b /\ has fdt (p + 1) l.
Proof.
  change (b :: l) with ([b] ++ l). rewrite has_app. change (Z.of_nat (length [b])) with 1.
  assert (has fdt p [b] <-> fdt p = Some b) as ->; [|done]. unfold has. split.
  - intros H. specialize (H 0%nat b eq_refl). by rewrite Z.add_0_r in H.
  - intros H [|i] b' Hi; [|done]. injection Hi as <-. by rewrite Z.add_0_r.
Qed.

Lemma ld8_has fdt p b l : has fdt p (b :: l) -> uint 8 b -> Fdt.ld8 fdt p = Ret b.
Proof. rewrite has_cons. intros [H _] Hb. unfold Fdt.ld8. rewrite H. by rewrite wrap_small. Qed.

Lemma be32_bytes v : be_bytes 4 v = [u8 (v ≫ 24); u8 (v ≫ 16); u8 (v ≫ 8); u8 v].
Proof. unfold be_bytes. cbn [to_bytes rev app]. rewrite !Z.shiftr_shiftr by lia. done. Qed.

Lemma fdt32_ld_has fdt p v l : has fdt p (be_bytes 4 v ++ l) -> Fdt.fdt32_ld fdt p = Ret (u32 v).
Proof.
  rewrite has_app. intros [H _]. pose proof (be_bytes_uint 4 v) as Hu. rewrite be32_bytes in H, Hu.
  rewrite !has_cons, <- !Z.add_assoc in H. change (1 + (1 + 1)) with 3 in H. change (1 + 1) with 2 in H. destruct H as (H0 & H1 & H2 & H3 & _).
  unfold Fdt.fdt32_ld, Fdt.ld8. rewrite H0, H1, H2, H3. cbn [mbind run_bind]. do 2 f_equal. unfold be32_to_cpu.
  rewrite swab32_bytes. rewrite !wrap_wrap. rewrite to_bytes_wrap by lia.
  pose proof (to_of_bytes [u8 (v ≫ 24); u8 (v ≫ 16); u8 (v ≫ 8); u8 v]) as E. cbn [length] in E. rewrite E by (by apply Forall_forall).
  cbn [rev app]. change [u8 v; u8 (v ≫ 8); u8 (v ≫ 16); u8 (v ≫ 24)] with (rev [u8 (v ≫ 24); u8 (v ≫ 16); u8 (v ≫ 8); u8 v]).
  rewrite <- be32_bytes. apply (be_value_bytes 4).
Qed.

(** * Tokens and trees *)

(** A property has the offset of its name in the strings block, and the name. *)
Inductive tok : Type :=
| TBegin (name : list Z)
| TEnd
| TProp (nameoff : Z) (pname data : list Z)
| TNop.

Definition tag_of (t : tok) : Z :=
  match t with
  | TBegin _ => FDT_BEGIN_NODE
  | TEnd => FDT_END_NODE
  | TProp _ _ _ => FDT_PROP
  | TNop => FDT_NOP
  end.

(** Zeros up to the next multiple of four. *)
Definition pad4 (n : nat) : list Z := replicate (Z.to_nat ((- Z.of_nat n) mod 4)) 0.

(** What follows the tag, without the padding. *)
Definition body (t : tok) : list Z :=
  match t with
  | TBegin name => name ++ [0]
  | TProp nameoff _ data => be_bytes 4 (Z.of_nat (length data)) ++ be_bytes 4 nameoff ++ data
  | _ => []
  end.

Definition enc (t : tok) : list Z := be_bytes 4 (tag_of t) ++ body t ++ pad4 (length (body t)).

Definition enc_all (ts : list tok) : list Z := concat (map enc ts) ++ be_bytes 4 FDT_END.

Definition tsize (t : tok) : Z := Z.of_nat (length (enc t)).

Lemma pad4_length n : Z.of_nat (length (pad4 n)) = (- Z.of_nat n) mod 4.
Proof. unfold pad4. rewrite length_replicate. apply Z2Nat.id. apply Z.mod_pos_bound. lia. Qed.

Lemma tsize_eq t : tsize t = 4 + Z.of_nat (length (body t)) + (- Z.of_nat (length (body t))) mod 4.
Proof. unfold tsize, enc. rewrite !length_app, be_bytes_length, !Nat2Z.inj_add, pad4_length. lia. Qed.

Lemma tsize_mod t : tsize t mod 4 = 0.
Proof.
  rewrite tsize_eq. set (n := Z.of_nat _). rewrite Zplus_mod_idemp_r. replace (4 + n + - n) with 4 by lia. done.
Qed.

Lemma tsize_ge t : 4 <= tsize t.
Proof. unfold tsize, enc. rewrite length_app, be_bytes_length. lia. Qed.

(** FDT_TAGALIGN rounds up. *)
Lemma tagalign_ok o n : 0 <= o -> o mod 4 = 0 -> 0 <= n -> o + n + 3 < 2 ^ 31 -> FDT_TAGALIGN (o + n) = o + n + (- n) mod 4.
Proof.
  intros Ho Hm Hn Hmax. unfold FDT_TAGALIGN. rewrite (wrap_small 64) by lia. change (Z.lnot (4 - 1)) with (Z.lnot (Z.ones 2)).
  rewrite <- Z.ldiff_land, Z.ldiff_ones_r, Z.shiftl_mul_pow2, Z.shiftr_div_pow2 by lia. change (2 ^ 2) with 4.
  pose proof (Z.div_mod (o + n + 4 - 1) 4 ltac:(lia)). pose proof (Z.mod_pos_bound (o + n + 4 - 1) 4 ltac:(lia)). rewrite sgn_small by lia.
  pose proof (Z.div_mod o 4 ltac:(lia)). pose proof (Z.div_mod (- n) 4 ltac:(lia)). pose proof (Z.mod_pos_bound (- n) 4 ltac:(lia)). lia.
Qed.

(** * Blobs *)

Record layout := Layout {
  l_total : Z; l_struct : Z; l_strings : Z; l_version : Z; l_last : Z; l_size_strings : Z; l_size_struct : Z
}.

(** A blob of a supported version from 16 on, whose header describes blocks inside
    it. *)
Record laid_out (fdt : Z -> option Z) (L : layout) : Prop := {
  lo_magic : Fdt.fdt_magic fdt = Ret FDT_MAGIC;
  lo_total : Fdt.fdt_totalsize fdt = Ret (l_total L);
  lo_struct : Fdt.fdt_off_dt_struct fdt = Ret (l_struct L);
  lo_strings : Fdt.fdt_off_dt_strings fdt = Ret (l_strings L);
  lo_version : Fdt.fdt_version fdt = Ret (l_version L);
  lo_last : Fdt.fdt_last_comp_version fdt = Ret (l_last L);
  lo_size_strings : Fdt.fdt_size_dt_strings fdt = Ret (l_size_strings L);
  lo_size_struct : Fdt.fdt_size_dt_struct fdt = Ret (l_size_struct L);
  lo_versions : 16 <= l_version L /\ l_last L <= 17;
  lo_range : 0 <= l_struct L /\ 0 <= l_strings L /\ l_total L <= INT_MAX - 4
}.

(** [n] bytes from [o] of the structure block are inside it. *)
Definition inside (L : layout) (o n : Z) : Prop :=
  0 <= o /\ 0 <= n /\ l_struct L + o + n <= l_total L /\ (17 <= l_version L -> o + n <= l_size_struct L).

(** The string [s] is at [nameoff] of the strings block. *)
Definition str_at (fdt : Z -> option Z) (L : layout) (nameoff : Z) (s : list Z) : Prop :=
  0 <= nameoff /\ has fdt (l_strings L + nameoff) (s ++ [0]) /\ l_strings L + nameoff + Z.of_nat (length s) < l_total L /\
  (17 <= l_version L -> nameoff + Z.of_nat (length s) < l_size_strings L).

(** Characters of a string. *)
Definition chr (c : Z) : Prop := 0 < c < 2 ^ 8.

Definition tok_ok (fdt : Z -> option Z) (L : layout) (t : tok) : Prop :=
  match t with
  | TBegin name => Forall chr name
  | TProp nameoff pname data => Forall (uint 8) data /\ Forall chr pname /\ str_at fdt L nameoff pname
  | _ => True
  end.

(** The tokens [ts] and the end tag are at the offset [o] of the structure block. *)
Definition at_toks (fdt : Z -> option Z) (L : layout) (o : Z) (ts : list tok) : Prop :=
  o mod 4 = 0 /\ has fdt (l_struct L + o) (enc_all ts) /\ inside L o (Z.of_nat (length (enc_all ts))) /\ Forall (tok_ok fdt L) ts.

(** * The tags *)

Section walk.
Context (fdt : Z -> option Z) (fuel : nat) (L : layout) (HL : laid_out fdt L).

Lemma probe_ok : Fdt.fdt_ro_probe_ fdt = Ret 0.
Proof.
  unfold Fdt.fdt_ro_probe_. rewrite (lo_magic _ _ HL), (lo_version _ _ HL), (lo_last _ _ HL). cbn [mbind run_bind]. rewrite Z.eqb_refl.
  pose proof (lo_versions _ _ HL). unfold FDT_FIRST_SUPPORTED_VERSION, FDT_LAST_SUPPORTED_VERSION.
  destruct (Z.ltb_spec (l_version L) 2); [lia|]. by destruct (Z.ltb_spec 17 (l_last L)); [lia|].
Qed.

Lemma ptr_ok o : Fdt.fdt_offset_ptr_ fdt o = Ret (l_struct L + o).
Proof. unfold Fdt.fdt_offset_ptr_. by rewrite (lo_struct _ _ HL). Qed.

Lemma offset_ptr_ok o n : inside L o n -> Fdt.fdt_offset_ptr fdt o n = Ret (Some (l_struct L + o)).
Proof.
  intros (Ho & Hn & Ht & Hs). destruct (lo_range _ _ HL) as (Hr & _ & Hm). unfold INT_MAX in Hm. unfold Fdt.fdt_offset_ptr.
  rewrite (lo_struct _ _ HL), (lo_total _ _ HL), (lo_version _ _ HL), ptr_ok. cbn [mbind run_bind]. rewrite !(wrap_small 32) by lia.
  destruct (Z.ltb_spec (o + l_struct L) o); [lia|]. destruct (Z.ltb_spec (o + l_struct L + n) (o + l_struct L)); [lia|].
  destruct (Z.ltb_spec (l_total L) (o + l_struct L + n)); [lia|]. cbn [orb]. destruct (Z.leb_spec 17 (l_version L)); [|done].
  rewrite (lo_size_struct _ _ HL). cbn [mbind run_bind]. destruct (Z.ltb_spec (o + n) o); [lia|]. by destruct (Z.ltb_spec (l_size_struct L) (o + n)); [lia|].
Qed.

Lemma inside_le o n o' n' : inside L o n -> o <= o' -> 0 <= n' -> o' + n' <= o + n -> inside L o' n'.
Proof. clear fuel. unfold inside. intros (? & ? & ? & H) ? ? ?. split_and!; lia. Qed.

Lemma inside_max o n : inside L o n -> o + n < 2 ^ 31 - 4.
Proof. clear fuel. intros (? & ? & ? & _). pose proof (lo_range _ _ HL) as Hr. unfold INT_MAX in Hr. lia. Qed.

Lemma skip_name_ok name : Forall chr name -> forall o n, has fdt (l_struct L + o) (name ++ [0]) -> inside L o (Z.of_nat (length name) + 1) -> (length name < n)%nat ->
  Fdt.skip_name fdt n o = Ret (Some (o + Z.of_nat (length name) + 1)).
Proof.
  induction 1 as [|c name Hc _ IH]; intros o [|n] H Hin Hn; try (cbn in Hn; lia); cbn [Fdt.skip_name app length] in *.
  - pose proof (inside_max _ _ Hin). pose proof Hin as (? & _). rewrite offset_ptr_ok by (by eapply inside_le; [exact Hin|lia..]). cbn [mbind run_bind].
    rewrite (ld8_has _ _ 0 []) by (done || unfold uint; lia). cbn [mbind run_bind Z.eqb negb]. rewrite sgn_small by lia. do 2 f_equal. lia.
  - pose proof (inside_max _ _ Hin). pose proof Hin as (? & _). rewrite offset_ptr_ok by (by eapply inside_le; [exact Hin|lia..]). cbn [mbind run_bind].
    rewrite (ld8_has _ _ c (name ++ [0])) by (done || unfold chr in Hc; unfold uint; lia). cbn [mbind run_bind].
    unfold chr in Hc. rewrite (proj2 (Z.eqb_neq c 0)) by lia. cbn [negb]. rewrite sgn_small by lia. rewrite IH.
    + do 2 f_equal. lia.
    + apply has_cons in H as [_ H]. by rewrite Z.add_assoc.
    + eapply inside_le; [exact Hin|lia..].
    + lia.
Qed.

Lemma enc_all_cons t ts : enc_all (t :: ts) = enc t ++ enc_all ts.
Proof. unfold enc_all. cbn [map concat]. by rewrite app_assoc. Qed.

Lemma at_toks_next o t ts : at_toks fdt L o (t :: ts) -> at_toks fdt L (o + tsize t) ts.
Proof. clear fuel.
  intros (Hm & Hh & Hin & Hts). rewrite enc_all_cons in Hh, Hin. apply has_app in Hh as [_ Hh]. rewrite length_app in Hin. pose proof (tsize_mod t) as Ht. fold (tsize t) in Hh.
  split_and!.
  - by rewrite Z.add_mod, Hm, Ht by lia.
  - by rewrite Z.add_assoc.
  - eapply inside_le; [exact Hin|unfold tsize; lia..].
  - by apply Forall_cons in Hts as [_ ?].
Qed.

Lemma mod_tag t : u32 (tag_of t) = tag_of t.
Proof. by destruct t. Qed.

(** The offset after a token, before the padding. *)
Lemma skip_body o t ts : at_toks fdt L o (t :: ts) -> (length (body t) < fuel)%nat ->
  (if tag_of t =? FDT_BEGIN_NODE then Fdt.skip_name fdt fuel (o + 4)
   else if tag_of t =? FDT_PROP then Fdt.skip_prop fdt (o + 4)
   else if (tag_of t =? FDT_END) || (tag_of t =? FDT_END_NODE) || (tag_of t =? FDT_NOP) then Ret (Some (o + 4))
   else Ret None) = Ret (Some (o + (4 + Z.of_nat (length (body t))))).
Proof.
  intros (Hm & Hh & Hin & Hts) Hf. apply Forall_cons in Hts as [Ht _]. rewrite enc_all_cons in Hh, Hin. unfold enc in Hh, Hin.
  rewrite <- !app_assoc in Hh. rewrite !length_app, be_bytes_length in Hin. apply has_app in Hh as [_ Hh]. rewrite be_bytes_length in Hh.
  change (Z.of_nat 4) with 4 in Hh. rewrite <- Z.add_assoc in Hh. pose proof (inside_max _ _ Hin). pose proof Hin as (Ho & _).
  destruct t as [name| |nameoff pname data|]; cbn [tag_of body length] in *; try (cbn; do 2 f_equal; lia).
  - change (FDT_BEGIN_NODE =? FDT_BEGIN_NODE) with true. cbv iota. rewrite length_app in *. cbn [length] in *. apply has_app in Hh as [Hh _].
    rewrite (skip_name_ok name); [do 2 f_equal; lia|done|done|eapply inside_le; [exact Hin|lia..]|lia].
  - change (FDT_PROP =? FDT_BEGIN_NODE) with false. change (FDT_PROP =? FDT_PROP) with true. cbv iota. destruct Ht as (Hd & _).
    unfold Fdt.skip_prop. rewrite !length_app, !be_bytes_length in *. rewrite offset_ptr_ok by (eapply inside_le; [exact Hin|lia..]). cbn [mbind run_bind].
    rewrite <- !app_assoc in Hh. rewrite (fdt32_ld_has _ _ _ _ Hh), (lo_version _ _ HL). cbn [mbind run_bind].
    rewrite (proj2 (Z.ltb_ge (l_version L) 16)) by (pose proof (lo_versions _ _ HL); lia). cbn [andb]. rewrite (wrap_small 32) by lia.
    unfold FDT_TAGSIZE. rewrite sgn_small by lia. do 2 f_equal. lia.
Qed.

Lemma next_tag_tok o t ts : at_toks fdt L o (t :: ts) -> (length (body t) < fuel)%nat -> Fdt.fdt_next_tag fdt fuel o = Ret (tag_of t, o + tsize t).
Proof.
  intros Hat Hf. pose proof (skip_body _ _ _ Hat Hf) as Hskip. destruct Hat as (Hm & Hh & Hin & _). rewrite enc_all_cons in Hh, Hin. unfold enc in Hh, Hin.
  rewrite <- !app_assoc in Hh. rewrite !length_app, be_bytes_length, !Nat2Z.inj_add in Hin. pose proof (inside_max _ _ Hin). pose proof Hin as (Ho & _).
  pose proof (pad4_length (length (body t))) as Hp. pose proof (Z.mod_pos_bound (- Z.of_nat (length (body t))) 4 ltac:(lia)).
  unfold Fdt.fdt_next_tag. unfold FDT_TAGSIZE. rewrite offset_ptr_ok by (eapply inside_le; [exact Hin|lia..]). cbn [mbind run_bind].
  rewrite (fdt32_ld_has _ _ _ _ Hh), mod_tag. cbn [mbind run_bind]. rewrite (sgn_small 32) by lia. rewrite Hskip. cbn [mbind run_bind].
  rewrite offset_ptr_ok; [|rewrite wrap_small by lia; eapply inside_le; [exact Hin|lia..]]. cbn [mbind run_bind].
  rewrite tagalign_ok by lia. rewrite tsize_eq. do 2 f_equal.
  replace (- (4 + Z.of_nat (length (body t)))) with (- Z.of_nat (length (body t)) + -1 * 4) by lia. rewrite Z_mod_plus_full. lia.
Qed.

Lemma next_tag_end o : at_toks fdt L o [] -> Fdt.fdt_next_tag fdt fuel o = Ret (FDT_END, o + 4).
Proof.
  intros (Hm & Hh & Hin & _). change (enc_all []) with (be_bytes 4 FDT_END) in *. rewrite be_bytes_length in Hin. change (Z.of_nat 4) with 4 in Hin.
  pose proof (inside_max _ _ Hin). pose proof Hin as (Ho & _). unfold Fdt.fdt_next_tag, FDT_TAGSIZE. rewrite offset_ptr_ok by done. cbn [mbind run_bind].
  rewrite <- (app_nil_r (be_bytes 4 FDT_END)) in Hh. rewrite (fdt32_ld_has _ _ _ _ Hh). cbn [mbind run_bind]. change (u32 FDT_END) with FDT_END. cbn.
  rewrite (sgn_small 32) by lia. rewrite wrap_small by lia. replace (o + 4 - o) with 4 by lia. rewrite offset_ptr_ok by done. cbn [mbind run_bind].
  rewrite tagalign_ok by lia. by rewrite Z.add_0_r.
Qed.

(** ** Bounds on the iterations *)

Context (Hfuel : l_total L < Z.of_nat fuel).

Lemma toks_length ts : (4 * length ts + 4 <= length (enc_all ts))%nat.
Proof. clear Hfuel fuel.
  induction ts as [|t ts IH]; [done|]. rewrite enc_all_cons, length_app. pose proof (tsize_ge t) as H. unfold tsize in H. cbn [length]. lia.
Qed.

Lemma toks_total o ts : at_toks fdt L o ts -> 0 <= o /\ o + 4 * Z.of_nat (length ts) + 4 <= l_total L.
Proof. clear Hfuel fuel.
  intros (_ & _ & (Ho & _ & Ht & _) & _). pose proof (toks_length ts). pose proof (lo_range _ _ HL). lia.
Qed.

Lemma body_fuel o t ts : at_toks fdt L o (t :: ts) -> (length (body t) < fuel)%nat.
Proof.
  intros (_ & _ & (Ho & _ & Ht & _) & _). pose proof (lo_range _ _ HL). rewrite enc_all_cons, length_app in Ht.
  unfold enc in Ht. rewrite !length_app in Ht. lia.
Qed.

Lemma next_tag_ok o t ts : at_toks fdt L o (t :: ts) -> Fdt.fdt_next_tag fdt fuel o = Ret (tag_of t, o + tsize t).
Proof. intros H. apply (next_tag_tok o t ts H), (body_fuel o t ts H). Qed.

Lemma check_node_ok o name ts : at_toks fdt L o (TBegin name :: ts) -> Fdt.fdt_check_node_offset_ fdt fuel o = Ret (o + tsize (TBegin name)).
Proof.
  intros H. unfold Fdt.fdt_check_node_offset_, Fdt.check_tag_offset. rewrite (next_tag_ok _ _ _ H). destruct H as (Hm & _ & (Ho & _) & _).
  unfold FDT_TAGSIZE. rewrite Hm. by rewrite (proj2 (Z.ltb_ge o 0)) by lia.
Qed.

Lemma check_prop_ok o nameoff pname data ts : at_toks fdt L o (TProp nameoff pname data :: ts) ->
  Fdt.fdt_check_prop_offset_ fdt fuel o = Ret (o + tsize (TProp nameoff pname data)).
Proof.
  intros H. unfold Fdt.fdt_check_prop_offset_, Fdt.check_tag_offset. rewrite (next_tag_ok _ _ _ H). destruct H as (Hm & _ & (Ho & _) & _).
  unfold FDT_TAGSIZE. rewrite Hm. by rewrite (proj2 (Z.ltb_ge o 0)) by lia.
Qed.

(** ** The next node *)

(** From offset [o] at depth [d] on: the next node with its offset, depth, name and
    the tokens after its begin tag, or the offset and depth where the search ends. *)
Fixpoint seek (o d : Z) (ts : list tok) : (Z * Z * list Z * list tok) + (Z * Z) :=
  match ts with
  | [] => inr (- FDT_ERR_NOTFOUND, d)
  | TBegin name :: ts => inl (o, d + 1, name, ts)
  | TEnd :: ts => if d - 1 <? 0 then inr (o + tsize TEnd, d - 1) else seek (o + tsize TEnd) (d - 1) ts
  | t :: ts => seek (o + tsize t) d ts
  end.

Definition seek_result (r : (Z * Z * list Z * list tok) + (Z * Z)) : Z * option Z :=
  match r with
  | inl (o, d, _, _) => (o, Some d)
  | inr (o, d) => (o, Some d)
  end.

(** Depths stay in the range of an int. *)
Definition depth_ok (d : Z) (ts : list tok) : Prop := - 1 <= d /\ d + Z.of_nat (length ts) < 2 ^ 31.

Lemma next_node_from_ok ts : forall o d n, at_toks fdt L o ts -> depth_ok d ts -> (length ts < n)%nat ->
  Fdt.next_node_from fdt fuel n o (Some d) = Ret (seek_result (seek o d ts)).
Proof.
  unfold depth_ok. induction ts as [|t ts IH]; intros o d [|n] Hat Hd Hn; try (cbn in Hn; lia); cbn [Fdt.next_node_from length] in *.
  - rewrite (next_tag_end _ Hat). cbn [mbind run_bind]. pose proof (toks_total _ _ Hat). cbn. by rewrite (proj2 (Z.leb_le 0 (o + 4))) by lia.
  - rewrite (next_tag_ok _ _ _ Hat). cbn [mbind run_bind]. apply at_toks_next in Hat. destruct t as [name| |nameoff pname data|]; cbn.
    + by rewrite sgn_small by lia.
    + rewrite sgn_small by lia. destruct (Z.ltb_spec (d - 1) 0); [done|]. apply IH; [done|lia|lia].
    + apply IH; [done|lia|lia].
    + apply IH; [done|lia|lia].
Qed.

Lemma seek_next ts : forall o d o' d' name ts', at_toks fdt L o ts -> depth_ok d ts -> seek o d ts = inl (o', d', name, ts') ->
  at_toks fdt L o' (TBegin name :: ts') /\ depth_ok d' ts' /\ (length ts' < length ts)%nat.
Proof. clear Hfuel fuel.
  unfold depth_ok. induction ts as [|t ts IH]; intros o d o' d' name ts' Hat Hd E; [done|]. pose proof (at_toks_next _ _ _ Hat) as Hat'. cbn [length] in *.
  destruct t as [name0| |nameoff pname data|]; cbn [seek] in E.
  - injection E as <- <- <- <-. split; [done|]. lia.
  - destruct (Z.ltb_spec (d - 1) 0); [done|]. apply IH in E; [|done|lia]. destruct E as (? & ? & ?). split; [done|lia].
  - apply IH in E; [|done|lia]. destruct E as (? & ? & ?). split; [done|lia].
  - apply IH in E; [|done|lia]. destruct E as (? & ? & ?). split; [done|lia].
Qed.

Lemma seek_end ts : forall o d r d', at_toks fdt L o ts -> seek o d ts = inr (r, d') -> r = - FDT_ERR_NOTFOUND /\ 0 <= d' \/ 0 <= r /\ d' < 0 \/ d < 0.
Proof. clear Hfuel fuel.
  induction ts as [|t ts IH]; intros o d r d' Hat E; cbn [seek] in E.
  - injection E as <- <-. lia.
  - pose proof (at_toks_next _ _ _ Hat) as Hat'. pose proof (toks_total _ _ Hat') as [? _]. destruct t as [name0| |nameoff pname data|]; [done| |by eapply IH|by eapply IH].
    destruct (Z.ltb_spec (d - 1) 0); [injection E as <- <-; lia|]. apply IH in E; [lia|done].
Qed.

Lemma seek_depth ts : forall o d o' d' name ts', 0 <= d -> seek o d ts = inl (o', d', name, ts') -> 0 <= d'.
Proof.
  clear. induction ts as [|t ts IH]; intros o d o' d' name ts' Hd E; [done|]. destruct t; cbn [seek] in E; [injection E; lia| |by eapply IH|by eapply IH].
  destruct (Z.ltb_spec (d - 1) 0); [done|]. eapply IH; [|done]. lia.
Qed.

Lemma next_node_ok o d name ts : at_toks fdt L o (TBegin name :: ts) -> depth_ok d ts ->
  Fdt.fdt_next_node fdt fuel o (Some d) = Ret (seek_result (seek (o + tsize (TBegin name)) d ts)).
Proof.
  intros Hat Hd. pose proof (toks_total _ _ Hat) as [? Ht]. pose proof (lo_range _ _ HL). unfold Fdt.fdt_next_node. rewrite (proj2 (Z.leb_le 0 o)) by lia.
  rewrite (check_node_ok _ _ _ Hat). cbn [mbind run_bind length] in *. pose proof (tsize_ge (TBegin name)). rewrite (proj2 (Z.ltb_ge _ 0)) by lia.
  apply next_node_from_ok; [by apply at_toks_next|done|lia].
Qed.
End walk.
