(* ===== verification/FdtLookup.v ===== *)
(** Lookups in a well-formed flattened tree: subnodes by name, paths and
    properties, against searches in the tree itself. *)

From stdpp Require Import list.
From S2P Require Import Prelude Cstring Bytes Unaligned Fdt FdtRo FdtTree.

(** * Trees *)

(** A node has its properties and subnodes in the order of the structure block,
    with the unused tags between them. *)
Inductive node : Type :=
| Node (name : list Z) (items : list item)
with item : Type :=
| IProp (nameoff : Z) (pname data : list Z)
| INop
| ISub (n : node).

Fixpoint node_toks (n : node) : list tok :=
  match n with
  | Node name items => TBegin name :: flat_map item_toks items ++ [TEnd]
  end
with item_toks (i : item) : list tok :=
  match i with
  | IProp nameoff pname data => [TProp nameoff pname data]
  | INop => [TNop]
  | ISub n => node_toks n
  end.

(** Size of tokens in the structure block. *)
Fixpoint tsizes (ts : list tok) : Z :=
  match ts with
  | [] => 0
  | t :: ts => tsize t + tsizes ts
  end.

Lemma tsizes_app ts ts' : tsizes (ts ++ ts') = tsizes ts + tsizes ts'.
Proof. induction ts as [|t ts IH]; cbn; [done|]. lia. Qed.

(** What holds of the subnode of an item. *)
Definition on_sub (P : node -> Prop) (i : item) : Prop := match i with ISub n => P n | _ => True end.

Lemma node_induction (P : node -> Prop) : (forall name items, Forall (on_sub P) items -> P (Node name items)) -> forall n, P n.
Proof.
  intros H. fix IH 1. intros [name items]. apply H.
  exact ((fix go l : Forall (on_sub P) l :=
    match l with
    | [] => Forall_nil_2 _
    | i :: l => Forall_cons_2 _ _ _ (match i return on_sub P i with ISub n => IH n | _ => I end) (go l)
    end) items).
Qed.

(** * Searches in the tree *)

(** A node is found by its name, or by its name up to the unit address when the
    name that is asked for has none. *)
Definition name_matches (name s : list Z) : bool :=
  bool_decide (take (length s) name = s) &&
  match drop (length s) name with
  | [] => (length s <=? length name)%nat
  | c :: _ => negb (existsb (Z.eqb chr_at) s) && (c =? chr_at)
  end.

(** The first subnode with a name, and its offset, for items at offset [o]. *)
Fixpoint find_sub (s : list Z) (o : Z) (items : list item) : option (Z * node) :=
  match items with
  | [] => None
  | ISub (Node name its) :: items =>
      if name_matches name s then Some (o, Node name its) else find_sub s (o + tsizes (node_toks (Node name its))) items
  | i :: items => find_sub s (o + tsizes (item_toks i)) items
  end.

(** The first property with a name before the subnodes, and its offset. *)
Fixpoint find_prop (s : list Z) (o : Z) (items : list item) : option (Z * list Z) :=
  match items with
  | IProp nameoff pname data :: items =>
      if bool_decide (pname = s) then Some (o, data) else find_prop s (o + tsize (TProp nameoff pname data)) items
  | INop :: items => find_prop s (o + tsize TNop) items
  | _ => None
  end.

(** Where the items of a node at [o] start. *)
Definition items_at (o : Z) (n : node) : Z := match n with Node name _ => o + tsize (TBegin name) end.
Definition node_items (n : node) : list item := match n with Node _ items => items end.
Definition node_name (n : node) : list Z := match n with Node name _ => name end.

(** The node that the components of a path lead to. *)
Fixpoint find_path (comps : list (list Z)) (o : Z) (n : node) : option (Z * node) :=
  match comps with
  | [] => Some (o, n)
  | s :: comps => r ← find_sub s (items_at o n) (node_items n); find_path comps r.1 r.2
  end.

(** * Strings *)

Lemma chr_uint c : chr c -> uint 8 c.
Proof. unfold chr, uint. lia. Qed.

Lemma mem_eq_has fdt s : forall p l, has fdt p l -> Forall (uint 8) l -> (length s <= length l)%nat -> mem_eq fdt p s = Ret (bool_decide (take (length s) l = s)).
Proof.
  induction s as [|c s IH]; intros p l H Hl Hlen; [done|]. destruct l as [|b l]; [cbn in Hlen; lia|]. apply Forall_cons in Hl as [Hb Hl].
  cbn [mem_eq length take]. rewrite (ld8_has _ _ _ _ H Hb). cbn [mbind run_bind]. apply has_cons in H as [_ H]. destruct (Z.eqb_spec b c) as [->|Hne].
  - rewrite (IH _ l) by (done || cbn in Hlen; lia). f_equal. apply bool_decide_ext. split; [by intros ->|by intros [= ->]].
  - f_equal. symmetry. apply bool_decide_eq_false. by intros [= ->].
Qed.

Lemma read_string_has fdt s : Forall chr s -> forall p n, has fdt p (s ++ [0]) -> (length s < n)%nat -> read_string fdt n p = Ret s.
Proof.
  induction 1 as [|c s Hc _ IH]; intros p [|n] H Hn; try (cbn in Hn; lia); cbn [read_string app length] in *.
  - by rewrite (ld8_has _ _ 0 []) by (done || unfold uint; lia).
  - rewrite (ld8_has _ _ c _ H (chr_uint c Hc)). cbn [mbind run_bind]. apply has_cons in H as [_ H]. unfold chr in Hc.
    rewrite (proj2 (Z.eqb_neq c 0)) by lia. by rewrite IH by (done || lia).
Qed.

Lemma memchr0_has fdt s : Forall chr s -> forall p n, has fdt p (s ++ [0]) -> (length s < n)%nat -> memchr0 fdt p n = Ret (Some (p + Z.of_nat (length s))).
Proof.
  induction 1 as [|c s Hc _ IH]; intros p [|n] H Hn; try (cbn in Hn; lia); cbn [memchr0 app length] in *.
  - rewrite (ld8_has _ _ 0 []) by (done || unfold uint; lia). cbn. by rewrite Z.add_0_r.
  - rewrite (ld8_has _ _ c _ H (chr_uint c Hc)). cbn [mbind run_bind]. apply has_cons in H as [_ H]. unfold chr in Hc.
    rewrite (proj2 (Z.eqb_neq c 0)) by lia. rewrite IH by (done || lia). do 2 f_equal. lia.
Qed.

Section lookup.
Context (fdt : Z -> option Z) (fuel : nat) (L : layout) (HL : laid_out fdt L) (Hfuel : l_total L < Z.of_nat fuel).

Abbreviation at_toks := (FdtTree.at_toks fdt L).

Lemma get_string_ok nameoff s : str_at fdt L nameoff s -> Forall chr s ->
  fdt_get_string fdt nameoff = Ret (inl (l_strings L + nameoff, Z.of_nat (length s))).
Proof.
  intros (H0 & Hh & Ht & Hs) Hc. destruct (lo_range _ _ HL) as (_ & Hr & Hm). unfold INT_MAX in Hm. unfold fdt_get_string.
  rewrite (lo_strings _ _ HL), (probe_ok _ _ HL), (lo_total _ _ HL), (lo_magic _ _ HL), (lo_version _ _ HL), (lo_size_strings _ _ HL). cbn [mbind run_bind].
  rewrite (wrap_small 32) by lia. rewrite (Z.add_comm nameoff). cbn [Z.eqb negb]. rewrite Z.eqb_refl, (proj2 (Z.leb_gt (l_total L) _)), (proj2 (Z.ltb_ge nameoff 0)) by lia.
  set (bound := if 17 <=? l_version L then _ else _).
  assert (exists len, bound = Ret (inl len) /\ Z.of_nat (length s) < len) as (len & -> & Hlen).
  { unfold bound. destruct (Z.leb_spec 17 (l_version L)) as [Hv|]; [|eexists; split; [reflexivity|lia]]. specialize (Hs Hv).
    rewrite (proj2 (Z.leb_gt (l_size_strings L) nameoff)) by lia. eexists. split; [reflexivity|]. destruct (Z.ltb_spec (l_size_strings L - nameoff) (l_total L - (l_strings L + nameoff))); lia. }
  cbn [mbind run_bind]. rewrite (memchr0_has _ s) by (done || lia). cbn [mbind run_bind]. do 3 f_equal. lia.
Qed.

Lemma string_eq_ok nameoff s s' : str_at fdt L nameoff s -> Forall chr s -> fdt_string_eq_ fdt nameoff s' = Ret (bool_decide (s = s')).
Proof.
  intros Hs Hc. unfold fdt_string_eq_. rewrite (get_string_ok _ _ Hs Hc). cbn [mbind run_bind]. destruct Hs as (_ & Hh & _).
  destruct (Z.eqb_spec (Z.of_nat (length s)) (Z.of_nat (length s'))) as [E|Hne]; cbn [negb].
  - apply has_app in Hh as [Hh _]. rewrite (mem_eq_has _ _ _ s) by (done || lia || by eapply Forall_impl, chr_uint). f_equal. apply bool_decide_ext.
    by rewrite firstn_all2 by lia.
  - f_equal. symmetry. apply bool_decide_eq_false. intros ->. lia.
Qed.

(** ** Names of nodes *)

Lemma begin_bytes o name ts : at_toks o (TBegin name :: ts) ->
  Forall chr name /\ has fdt (l_struct L + o + 4) (name ++ [0]) /\ Z.of_nat (length name) < l_total L.
Proof. clear Hfuel fuel.
  intros (_ & Hh & (Ho & _ & Ht & _) & Hts). apply Forall_cons in Hts as [Hn _]. rewrite enc_all_cons in Hh, Ht. unfold enc in Hh, Ht. cbn [body tag_of] in Hh, Ht.
  rewrite <- !app_assoc in Hh. apply has_app in Hh as [_ Hh]. rewrite be_bytes_length in Hh. rewrite app_assoc in Hh. apply has_app in Hh as [Hh _].
  rewrite !length_app, be_bytes_length in Ht. pose proof (lo_range _ _ HL). split_and!; [done|done|lia].
Qed.

Lemma get_name_ok o name ts : at_toks o (TBegin name :: ts) -> fdt_get_name fdt fuel o = Ret (inl (l_struct L + o + 4, Z.of_nat (length name))).
Proof.
  intros Hat. destruct (begin_bytes _ _ _ Hat) as (Hn & Hh & Hl). unfold fdt_get_name. rewrite (ptr_ok _ _ HL), (probe_ok _ _ HL). cbn [mbind run_bind Z.eqb negb].
  rewrite (check_node_ok _ _ _ HL Hfuel _ _ _ Hat), (lo_version _ _ HL). cbn [mbind run_bind]. pose proof (toks_total _ _ HL _ _ Hat) as [? _]. pose proof (tsize_ge (TBegin name)).
  rewrite (proj2 (Z.ltb_ge (o + _) 0)) by lia. rewrite (read_string_has _ name Hn) by (done || lia). cbn [mbind run_bind].
  pose proof (lo_versions _ _ HL). by rewrite (proj2 (Z.ltb_ge (l_version L) 16)) by lia.
Qed.

Lemma nodename_eq_ok o name ts s : at_toks o (TBegin name :: ts) -> fdt_nodename_eq_ fdt fuel o s = Ret (name_matches name s).
Proof.
  intros Hat. unfold fdt_nodename_eq_. rewrite (get_name_ok _ _ _ Hat). cbn [mbind run_bind]. destruct (begin_bytes _ _ _ Hat) as (Hn & Hh & _). unfold name_matches.
  destruct (Z.ltb_spec (Z.of_nat (length name)) (Z.of_nat (length s))) as [Hlt|Hge].
  { f_equal. symmetry. apply andb_false_intro1, bool_decide_eq_false. intros E. apply (f_equal length) in E. rewrite length_take in E. lia. }
  assert (Forall (uint 8) (name ++ [0])) as Hu by (apply Forall_app; split; [by eapply Forall_impl, chr_uint|apply Forall_singleton; unfold uint; lia]).
  rewrite (mem_eq_has _ _ _ _ Hh Hu) by (rewrite length_app; cbn; lia). cbn [mbind run_bind]. rewrite take_app_le by lia.
  destruct (bool_decide_reflect (take (length s) name = s)) as [Hs|]; cbn [negb andb]; [|done].
  rewrite <- (take_drop (length s) name), Hs in Hh. rewrite <- app_assoc in Hh. apply has_app in Hh as [_ Hh].
  pose proof (Forall_drop _ (length s) _ Hn) as Hd. pose proof (length_drop name (length s)) as Hl. destruct (drop (length s) name) as [|c r] eqn:E; cbn [app] in Hh.
  - rewrite (ld8_has _ _ 0 [] Hh) by (unfold uint; lia). cbn. cbn in Hl. by rewrite (proj2 (Nat.leb_le _ _)) by lia.
  - apply Forall_cons in Hd as [Hc _]. rewrite (ld8_has _ _ c _ Hh (chr_uint c Hc)). cbn [mbind run_bind]. unfold chr in Hc. rewrite (proj2 (Z.eqb_neq c 0)) by lia.
    by destruct (negb (existsb (Z.eqb chr_at) s) && (c =? chr_at)).
Qed.

(** ** Subnodes *)

(** The search for a subnode on the tokens from offset [o] at depth [d] on. *)
Fixpoint scan_sub (s : list Z) (o d : Z) (ts : list tok) : Z :=
  match ts with
  | [] => - FDT_ERR_NOTFOUND
  | TBegin name :: ts => if (d + 1 =? 1) && name_matches name s then o else scan_sub s (o + tsize (TBegin name)) (d + 1) ts
  | TEnd :: ts => if d - 1 <? 0 then - FDT_ERR_NOTFOUND else scan_sub s (o + tsize TEnd) (d - 1) ts
  | t :: ts => scan_sub s (o + tsize t) d ts
  end.

Lemma scan_seek s ts : forall o d, 0 <= d -> scan_sub s o d ts =
  match seek o d ts with
  | inl (o', d', name, ts') => if (d' =? 1) && name_matches name s then o' else scan_sub s (o' + tsize (TBegin name)) d' ts'
  | inr _ => - FDT_ERR_NOTFOUND
  end.
Proof.
  induction ts as [|t ts IH]; intros o d Hd; [done|]. destruct t as [name| |nameoff pname data|]; cbn [scan_sub seek]; [done| |by apply IH|by apply IH].
  destruct (Z.ltb_spec (d - 1) 0); [done|]. apply IH. lia.
Qed.

Lemma subnode_from_ok s : forall n o d name ts, at_toks o (TBegin name :: ts) -> depth_ok d ts -> 0 <= d -> (length ts + 1 < n)%nat ->
  subnode_from fdt fuel n o d s = Ret (if (d =? 1) && name_matches name s then o else scan_sub s (o + tsize (TBegin name)) d ts).
Proof.
  induction n as [|n IH]; intros o d name ts Hat Hd H0 Hn; [lia|]. cbn [subnode_from]. pose proof (toks_total _ _ HL _ _ Hat) as [Ho _].
  rewrite (proj2 (Z.leb_le 0 o)), (proj2 (Z.leb_le 0 d)) by lia. cbn [andb].
  assert ((if d =? 1 then fdt_nodename_eq_ fdt fuel o s else Ret false) = Ret ((d =? 1) && name_matches name s)) as ->.
  { destruct (d =? 1); [|done]. by rewrite (nodename_eq_ok _ _ _ _ Hat). }
  cbn [mbind run_bind]. destruct ((d =? 1) && name_matches name s); [done|]. rewrite (next_node_ok _ _ _ HL Hfuel _ _ _ _ Hat Hd). cbn [mbind run_bind].
  pose proof (at_toks_next _ _ _ _ _ Hat) as Hat'. rewrite scan_seek by done. destruct (seek _ d ts) as [[[[o' d'] name'] ts']|[r d']] eqn:E; cbn [seek_result from_option id].
  - destruct (seek_next _ _ _ _ _ _ _ _ _ Hat' Hd E) as (Hat'' & Hd' & Hl). assert (0 <= d') by (eapply (seek_depth ts _ d); eassumption). apply IH; [done|done|lia|lia].
  - destruct n as [|n]; [lia|]. cbn [subnode_from]. destruct (seek_end _ _ HL _ _ _ _ _ Hat' E) as [[-> Hd']|[[Hr Hd']|?]]; [| |lia].
    + cbn. by rewrite (proj2 (Z.ltb_ge d' 0)) by lia.
    + rewrite (proj2 (Z.leb_gt 0 d')), andb_false_r by lia. by rewrite (proj2 (Z.ltb_lt d' 0)) by lia.
Qed.

(** A subtree is passed over, unless it is a subnode with the name. *)
Definition passes (s : list Z) (d : Z) (n : node) : Prop := 0 <= d /\ (d + 1 =? 1) && name_matches (node_name n) s = false.

Lemma scan_node s : forall n o d ts, passes s d n -> scan_sub s o d (node_toks n ++ ts) = scan_sub s (o + tsizes (node_toks n)) d ts.
Proof.
  apply (node_induction (fun n => forall o d ts, passes s d n -> scan_sub s o d (node_toks n ++ ts) = scan_sub s (o + tsizes (node_toks n)) d ts)).
  intros name items IH o d ts [Hd Hp]. cbn [node_toks node_name] in *. rewrite <- app_comm_cons, <- app_assoc. cbn [scan_sub tsizes app]. rewrite Hp.
  rewrite tsizes_app. cbn [tsizes]. rewrite Z.add_0_r.
  assert (forall o, scan_sub s o (d + 1) (flat_map item_toks items ++ TEnd :: ts) = scan_sub s (o + tsizes (flat_map item_toks items) + tsize TEnd) d ts) as ->.
  { clear o. induction IH as [|i items Hi _ IHi]; intros o.
    - cbn [flat_map app tsizes scan_sub]. rewrite (proj2 (Z.ltb_ge (d + 1 - 1) 0)) by lia. f_equal; lia.
    - cbn [flat_map]. rewrite <- app_assoc, tsizes_app. destruct i as [nameoff pname data| |n]; cbn [item_toks app scan_sub tsizes on_sub] in *.
      + rewrite IHi. f_equal. lia.
      + rewrite IHi. f_equal. lia.
      + rewrite Hi by (split; [lia|]; by rewrite (proj2 (Z.eqb_neq (d + 1 + 1) 1)) by lia). rewrite IHi. f_equal. lia. }
  f_equal. lia.
Qed.

Lemma scan_items s items : forall o ts, scan_sub s o 0 (flat_map item_toks items ++ TEnd :: ts) = default (- FDT_ERR_NOTFOUND) (fst <$> find_sub s o items).
Proof.
  induction items as [|i items IH]; intros o ts; [done|]. cbn [flat_map find_sub]. rewrite <- app_assoc. destruct i as [nameoff pname data| |[name its]]; cbn [item_toks].
  - cbn [app scan_sub tsizes]. rewrite IH. by rewrite Z.add_0_r.
  - cbn [app scan_sub tsizes]. rewrite IH. by rewrite Z.add_0_r.
  - destruct (name_matches name s) eqn:E; [cbn [node_toks app scan_sub]; by rewrite E|]. rewrite scan_node by (split; [done|exact E]). apply IH.
Qed.

(** The node [n] is at offset [o]. *)
Definition at_node (o : Z) (n : node) : Prop := exists ts, at_toks o (node_toks n ++ ts).

Lemma subnode_ok o n s : at_node o n -> fdt_subnode_offset_namelen fdt fuel o s = Ret (default (- FDT_ERR_NOTFOUND) (fst <$> find_sub s (items_at o n) (node_items n))).
Proof.
  intros [ts Hat]. destruct n as [name items]. cbn [node_toks items_at node_items app] in *. rewrite <- app_assoc in Hat. unfold fdt_subnode_offset_namelen, probed.
  rewrite (probe_ok _ _ HL). cbn [mbind run_bind Z.eqb negb]. pose proof (toks_total _ _ HL _ _ Hat) as [? Ht]. pose proof (lo_range _ _ HL) as (_ & _ & Hm). unfold INT_MAX in Hm. cbn [length] in Ht.
  rewrite (subnode_from_ok _ _ _ _ _ _ Hat) by (unfold depth_ok; lia). cbn [Z.eqb andb]. f_equal. apply scan_items.
Qed.

(** ** Positions of nodes *)

Lemma at_toks_skip ts : forall o ts', at_toks o (ts ++ ts') -> at_toks (o + tsizes ts) ts'.
Proof.
  clear. induction ts as [|t ts IH]; intros o ts' H; cbn [tsizes app] in *; [by rewrite Z.add_0_r|]. apply at_toks_next, IH in H. by rewrite Z.add_assoc.
Qed.

Lemma find_sub_at s items : forall o ts o' n', at_toks o (flat_map item_toks items ++ ts) -> find_sub s o items = Some (o', n') -> at_node o' n'.
Proof.
  clear. induction items as [|i items IH]; intros o ts o' n' Hat E; [done|]. cbn [flat_map] in Hat. rewrite <- app_assoc in Hat. pose proof (at_toks_skip _ _ _ Hat) as Hnext.
  destruct i as [nameoff pname data| |[name its]]; cbn [find_sub] in E; [by eapply IH..|]. destruct (name_matches name s); [|by eapply IH].
  injection E as <- <-. by eexists.
Qed.

Lemma at_node_items o n : at_node o n -> exists ts, at_toks (items_at o n) (flat_map item_toks (node_items n) ++ TEnd :: ts).
Proof.
  clear. intros [ts Hat]. destruct n as [name items]. cbn [node_toks items_at node_items app] in *. rewrite <- app_assoc in Hat. apply at_toks_next in Hat. by eexists.
Qed.

Lemma find_sub_node s o n o' n' : at_node o n -> find_sub s (items_at o n) (node_items n) = Some (o', n') -> at_node o' n'.
Proof. intros (ts & Hat)%at_node_items E. by eapply find_sub_at. Qed.

(** ** Paths *)

(** The characters of an absolute path: each name has one slash or more before it,
    and slashes may follow. *)
Fixpoint path_chars (comps : list (nat * list Z)) (trail : nat) : list Z :=
  match comps with
  | [] => replicate trail chr_slash
  | (k, s) :: comps => replicate (S k) chr_slash ++ s ++ path_chars comps trail
  end.

Definition comp_ok (c : nat * list Z) : Prop := c.2 <> [] /\ chr_slash ∉ c.2.

Lemma span_all {A} (f : A -> bool) l r : Forall (fun x => f x = true) l -> (forall x, head r = Some x -> f x = false) -> span f (l ++ r) = (l, r).
Proof.
  intros Hl Hr. induction Hl as [|x l Hx _ IH]; cbn [app span].
  - destruct r as [|x r]; [done|]. cbn. by rewrite (Hr x).
  - by rewrite Hx, IH.
Qed.

Lemma path_head comps trail x : head (path_chars comps trail) = Some x -> negb (is_slash x) = false.
Proof. destruct comps as [|[k s] comps]; [destruct trail; [done|]|]; cbn; by intros [= <-]. Qed.

Lemma walk_path_ok comps trail : Forall comp_ok comps -> forall o n k, at_node o n -> (length comps < k)%nat ->
  walk_path fdt fuel k o (path_chars comps trail) = Ret (default (- FDT_ERR_NOTFOUND) (fst <$> find_path (snd <$> comps) o n)).
Proof.
  induction 1 as [|[j s] comps [Hs Hslash] _ IH]; intros o n [|k] Hat Hk; try (cbn in Hk; lia); cbn [walk_path path_chars fmap list_fmap snd find_path length] in *.
  - destruct trail as [|trail]; [done|]. rewrite <- (app_nil_r (replicate (S trail) chr_slash)). rewrite span_all; [done|by apply Forall_replicate|done].
  - destruct s as [|c s]; [done|]. cbn in Hslash. rewrite span_all; [|by apply Forall_replicate|].
    2: { cbn. intros x [= <-]. apply Z.eqb_neq. intros ->. apply Hslash. by left. }
    cbn [replicate app snd]. rewrite app_comm_cons. rewrite span_all; [| |by apply path_head].
    2: { apply Forall_forall. intros x Hx. apply negb_true_iff, Z.eqb_neq. by intros ->. }
    rewrite (subnode_ok _ _ _ Hat). cbn [mbind run_bind]. destruct (find_sub (c :: s) (items_at o n) (node_items n)) as [[o' n']|] eqn:E; cbn [fmap option_fmap option_map from_option id fst snd mbind option_bind].
    + pose proof (find_sub_node _ _ _ _ _ Hat E) as Hat'. pose proof Hat' as [ts Hts]. pose proof (toks_total _ _ HL _ _ Hts) as [? _].
      rewrite (proj2 (Z.ltb_ge o' 0)) by lia. apply IH; [done|lia].
    + done.
Qed.

Lemma path_offset_ok comps trail n : at_node 0 n -> Forall comp_ok comps -> (0 < length comps + trail)%nat -> (length comps < fuel)%nat ->
  fdt_path_offset fdt fuel (path_chars comps trail) = Ret (default (- FDT_ERR_NOTFOUND) (fst <$> find_path (snd <$> comps) 0 n)).
Proof.
  intros Hat Hc Hlen Hf. unfold fdt_path_offset. assert (0 < fuel)%nat as Hk by lia. revert Hk. generalize fuel at 1 3. intros [|f] Hk; [lia|]. cbn [path_offset_from]. unfold probed. rewrite (probe_ok _ _ HL). cbn [mbind run_bind Z.eqb negb].
  rewrite bool_decide_true by (destruct comps as [|[k s] comps]; [destruct trail; [cbn in Hlen; lia|done]|done]). cbn [negb]. apply walk_path_ok; [done|done|lia].
Qed.

(** ** Properties *)

(** The offset of the next property of items at [o]. *)
Fixpoint first_prop (o : Z) (items : list item) : Z :=
  match items with
  | IProp _ _ _ :: _ => o
  | INop :: items => first_prop (o + tsize TNop) items
  | _ => - FDT_ERR_NOTFOUND
  end.

Abbreviation at_items o items ts := (at_toks o (flat_map item_toks items ++ TEnd :: ts)).

Lemma at_items_next o i items ts : at_items o (i :: items) ts -> at_items (o + tsizes (item_toks i)) items ts.
Proof. clear. cbn [flat_map]. rewrite <- app_assoc. apply at_toks_skip. Qed.

Lemma nextprop_from_ok items ts : forall o n, at_items o items ts -> (length items < n)%nat -> nextprop_from fdt fuel n o = Ret (first_prop o items).
Proof.
  induction items as [|i items IH]; intros o [|n] Hat Hn; try (cbn in Hn; lia); cbn [nextprop_from first_prop length] in *.
  - by rewrite (next_tag_ok _ _ _ HL Hfuel _ _ _ Hat).
  - pose proof (at_items_next _ _ _ _ Hat) as Hnext. destruct i as [nameoff pname data| |[name its]]; cbn [flat_map item_toks node_toks app] in Hat; rewrite (next_tag_ok _ _ _ HL Hfuel _ _ _ Hat); cbn; [done| |done].
    cbn [item_toks tsizes] in Hnext. rewrite Z.add_0_r in Hnext. apply IH; [done|lia].
Qed.

Lemma items_fuel o items ts : at_items o items ts -> (length items + 1 < fuel)%nat.
Proof.
  intros Hat. pose proof (toks_total _ _ HL _ _ Hat) as [? Ht]. rewrite length_app in Ht. assert (length items <= length (flat_map item_toks items))%nat; [|lia].
  clear. induction items as [|i items IH]; cbn [flat_map length]; [lia|]. rewrite length_app. destruct i as [| |[]]; cbn [item_toks node_toks length]; lia.
Qed.

Lemma nextprop_ok o items ts : at_items o items ts -> nextprop_ fdt fuel o = Ret (first_prop o items).
Proof. intros H. apply (nextprop_from_ok _ ts); [done|]. pose proof (items_fuel _ _ _ H). lia. Qed.

(** The bytes of a property. *)
Lemma prop_bytes o nameoff pname data ts : at_toks o (TProp nameoff pname data :: ts) ->
  Fdt.fdt32_ld fdt (l_struct L + o + 4) = Ret (Z.of_nat (length data)) /\ Fdt.fdt32_ld fdt (l_struct L + o + 8) = Ret nameoff /\
  has fdt (l_struct L + o + 12) data /\ Forall (uint 8) data /\ Forall chr pname /\ str_at fdt L nameoff pname /\
  0 <= o /\ o + Z.of_nat (length data) + 12 < 2 ^ 31 /\ 0 <= nameoff < 2 ^ 31.
Proof. clear Hfuel fuel.
  intros (_ & Hh & (Ho & _ & Ht & _) & Hts). apply Forall_cons in Hts as [(Hd & Hp & Hs) _]. rewrite enc_all_cons in Hh, Ht. unfold enc in Hh, Ht. cbn [body tag_of] in Hh, Ht.
  rewrite !length_app, !be_bytes_length in Ht. destruct (lo_range _ _ HL) as (? & ? & Hm). unfold INT_MAX in Hm. pose proof Hs as (? & _ & ? & _).
  rewrite <- !app_assoc in Hh. apply has_app in Hh as [_ Hh]. rewrite be_bytes_length in Hh. pose proof Hh as Hlen. apply has_app in Hh as [_ Hh]. rewrite be_bytes_length, <- !Z.add_assoc in Hh.
  pose proof Hh as Hoff. apply has_app in Hh as [_ Hh]. rewrite be_bytes_length in Hh. apply has_app in Hh as [Hh _].
  apply fdt32_ld_has in Hlen. apply fdt32_ld_has in Hoff. rewrite (wrap_small 32) in Hlen, Hoff by lia. change (Z.of_nat 4) with 4 in *.
  split_and!; try done; try lia; [by rewrite <- !Z.add_assoc|]. by rewrite <- !Z.add_assoc in *.
Qed.

Lemma get_property_from_ok s items ts : forall o n, at_items o items ts -> (length items < n)%nat ->
  get_property_from fdt fuel n (first_prop o items) s =
  Ret (match find_prop s o items with Some (o', data) => inl (l_struct L + o', o', Z.of_nat (length data)) | None => inr (- FDT_ERR_NOTFOUND) end).
Proof.
  induction items as [|i items IH]; intros o [|n] Hat Hn; try (cbn in Hn; lia); cbn [first_prop find_prop length] in *; [done|].
  pose proof (at_items_next _ _ _ _ Hat) as Hnext. destruct i as [nameoff pname data| |[name its]]; cbn [flat_map item_toks app tsizes] in Hat, Hnext; rewrite ?Z.add_0_r in Hnext; [|apply IH; [done|lia]|done].
  destruct (prop_bytes _ _ _ _ _ Hat) as (Hlen & Hoff & _ & _ & Hp & Hs & Ho & Hmax & Hno). cbn [get_property_from]. rewrite (proj2 (Z.leb_le 0 o)) by lia.
  unfold fdt_get_property_by_offset_. rewrite (check_prop_ok _ _ _ HL Hfuel _ _ _ _ _ Hat). cbn [mbind run_bind]. pose proof (tsize_ge (TProp nameoff pname data)).
  rewrite (proj2 (Z.ltb_ge (o + _) 0)) by lia. rewrite (ptr_ok _ _ HL). cbn [mbind run_bind]. rewrite Hlen. cbn [mbind run_bind]. rewrite Hoff. cbn [mbind run_bind].
  rewrite !(sgn_small 32) by lia. rewrite (string_eq_ok _ _ _ Hs Hp). cbn [mbind run_bind]. destruct (bool_decide_reflect (pname = s)); [done|].
  unfold fdt_next_property_offset. rewrite (check_prop_ok _ _ _ HL Hfuel _ _ _ _ _ Hat). cbn [mbind run_bind]. rewrite (proj2 (Z.ltb_ge (o + _) 0)) by lia.
  rewrite (nextprop_ok _ _ _ Hnext). cbn [mbind run_bind]. apply IH; [done|lia].
Qed.

Lemma find_prop_at s items ts : forall o o' data, at_items o items ts -> find_prop s o items = Some (o', data) -> exists nameoff pname ts', at_toks o' (TProp nameoff pname data :: ts').
Proof.
  clear. induction items as [|i items IH]; intros o o' data Hat E; [done|]. pose proof (at_items_next _ _ _ _ Hat) as Hnext.
  destruct i as [nameoff pname data0| |[name its]]; cbn [find_prop flat_map item_toks app tsizes] in *; rewrite ?Z.add_0_r in Hnext; [|by eapply IH|done].
  destruct (bool_decide (pname = s)); [|by eapply IH]. injection E as <- <-. by do 3 eexists.
Qed.

Lemma getprop_ok o n s : at_node o n -> fdt_getprop fdt fuel o s =
  Ret (match find_prop s (items_at o n) (node_items n) with Some (o', data) => inl (l_struct L + o' + 12, Z.of_nat (length data)) | None => inr (- FDT_ERR_NOTFOUND) end).
Proof.
  intros Hn. pose proof Hn as (ts & Hat)%at_node_items. destruct Hn as [ts0 Hat0]. destruct n as [name items]. cbn [items_at node_items node_toks app] in *.
  unfold fdt_getprop, fdt_get_property_namelen_, fdt_first_property_offset. rewrite (check_node_ok _ _ _ HL Hfuel _ _ _ Hat0). cbn [mbind run_bind].
  pose proof (toks_total _ _ HL _ _ Hat) as [? _]. rewrite (proj2 (Z.ltb_ge (o + _) 0)) by lia. rewrite (nextprop_ok _ _ _ Hat). cbn [mbind run_bind].
  rewrite (get_property_from_ok _ _ _ _ _ Hat) by (pose proof (items_fuel _ _ _ Hat); lia). cbn [mbind run_bind].
  destruct (find_prop s _ items) as [[o' data]|] eqn:E; [|done]. destruct (find_prop_at _ _ _ _ _ _ Hat E) as (nameoff & pname & ts' & Hp). destruct (prop_bytes _ _ _ _ _ Hp) as (Hlen & _).
  rewrite (lo_version _ _ HL). cbn [mbind run_bind]. rewrite Hlen. cbn [mbind run_bind]. pose proof (lo_versions _ _ HL). by rewrite (proj2 (Z.ltb_ge (l_version L) 16)) by lia.
Qed.
End lookup.
