(* ===== verification/Of.v ===== *)
(** The device tree as the kernel uses it, kernel/of.c: at boot it takes the command
    line and the memory areas from the tree, and adds the areas to the boot memory
    allocator; drivers look up nodes and properties. *)

From stdpp Require Import list.
From S2P Require Import Prelude Cstring Bytes Memblock Strings Fdt FdtRo.

Definition OF_ROOT_NODE_ADDR_CELLS_DEFAULT : Z := 2.
Definition OF_ROOT_NODE_SIZE_CELLS_DEFAULT : Z := 1.
Definition COMMAND_LINE_SIZE : Z := 512.

Definition str_chosen : list Z := [99; 104; 111; 115; 101; 110].
Definition str_chosen_0 : list Z := [99; 104; 111; 115; 101; 110; 64; 48].
Definition str_bootargs : list Z := [98; 111; 111; 116; 97; 114; 103; 115].
Definition str_size_cells : list Z := [35; 115; 105; 122; 101; 45; 99; 101; 108; 108; 115].
Definition str_address_cells : list Z := [35; 97; 100; 100; 114; 101; 115; 115; 45; 99; 101; 108; 108; 115].
Definition str_device_type : list Z := [100; 101; 118; 105; 99; 101; 95; 116; 121; 112; 101].
Definition str_memory : list Z := [109; 101; 109; 111; 114; 121].
Definition str_usable_memory : list Z := [108; 105; 110; 117; 120; 44; 117; 115; 97; 98; 108; 101; 45; 109; 101; 109; 111; 114; 121].
Definition str_reg : list Z := [114; 101; 103].

(** The variables of the file, the memory allocator and the memory of the machine;
    a NULL pointer is 0. *)
Record of_state := OfState {
  os_mem : mem;
  initial_boot_params : Z;
  dt_root_addr_cells : Z;
  dt_root_size_cells : Z;
  os_memblock : memblock
}.

Definition set_mem (m : mem) (s : of_state) : of_state := OfState m (initial_boot_params s) (dt_root_addr_cells s) (dt_root_size_cells s) (os_memblock s).
Definition set_params (p : Z) (s : of_state) : of_state := OfState (os_mem s) p (dt_root_addr_cells s) (dt_root_size_cells s) (os_memblock s).
Definition set_addr_cells (n : Z) (s : of_state) : of_state := OfState (os_mem s) (initial_boot_params s) n (dt_root_size_cells s) (os_memblock s).
Definition set_size_cells (n : Z) (s : of_state) : of_state := OfState (os_mem s) (initial_boot_params s) (dt_root_addr_cells s) n (os_memblock s).
Definition set_memblock (mb : memblock) (s : of_state) : of_state := OfState (os_mem s) (initial_boot_params s) (dt_root_addr_cells s) (dt_root_size_cells s) mb.

Section device_tree.
(** The size of the memory that holds the tree, the address of boot_command_line,
    and the bound on the iterations of each loop. *)
Context (blob_size boot_command_line : Z) (fuel : nat).

(** The tree at an address: reads outside it are faults. *)
Definition blob_at (m : mem) (p : Z) : Z -> option Z := fun a => if in_range a 0 blob_size then Some (m (p + a)) else None.
Definition blob (s : of_state) : Z -> option Z := blob_at (os_mem s) (initial_boot_params s).

(** ** Lookups; a node is its offset, and there is no node for offset 0 *)

Definition __node (offset : Z) : Z := if offset <=? 0 then 0 else offset.

(** The next node in the order of the tree; from no node it is the first one after
    the root. *)
Definition __of_find_all_nodes (s : of_state) (prev : Z) : run Z :=
  '(r, _) ← Fdt.fdt_next_node (blob s) fuel prev None; Ret (__node r).

Definition of_find_node_by_path (s : of_state) (path : list Z) : run Z :=
  r ← fdt_path_offset (blob s) fuel path; Ret (__node r).

Definition of_get_property (s : of_state) (node : Z) (name : list Z) : run found := fdt_getprop (blob s) fuel node name.

(** The loop over the nodes from [np] on: the first whose compatible property, up to
    its first zero byte, is the string. *)
Fixpoint find_compatible_from (n : nat) (s : of_state) (np : Z) (compat : list Z) : run Z :=
  match n with
  | O => Spin
  | S n =>
      if np =? 0 then Ret 0
      else
        prop ← of_get_property s np str_compatible;
        yes ← match prop with inl (p, _) => mem_eq (blob s) p (compat ++ [0]) | inr _ => Ret false end;
        if yes : bool then Ret np
        else np ← __of_find_all_nodes s np; find_compatible_from n s np compat
  end.

Definition of_find_compatible_node (s : of_state) (from : Z) (compat : list Z) : run Z :=
  np ← __of_find_all_nodes s from; find_compatible_from fuel s np compat.

(** The result, and the value when that is 0. *)
Definition of_property_read_u32 (s : of_state) (np : Z) (propname : list Z) : run (Z * Z) :=
  data ← of_get_property s np propname;
  match data with
  | inr r => Ret (r, 0)
  | inl (data, _) => v ← Fdt.fdt32_ld (blob s) data; Ret (0, v)
  end.

Definition of_device_is_compatible (s : of_state) (node : Z) (compat : list Z) : run bool :=
  r ← fdt_node_check_compatible (blob s) fuel node compat; Ret (r =? 0).

Definition get_parent (s : of_state) (np : Z) : run Z :=
  r ← fdt_parent_offset (blob s) fuel np; Ret (__node r).

(** The first of the parent, its parent and so on, that has the property. *)
Fixpoint n_cells (n : nat) (s : of_state) (np : Z) (name : list Z) (dflt : Z) : run Z :=
  match n with
  | O => Spin
  | S n =>
      parent ← get_parent s np;
      let np := if negb (parent =? 0) then parent else np in
      '(r, cells) ← of_property_read_u32 s np name;
      if r =? 0 then Ret (s32 cells)
      else if negb (parent =? 0) then n_cells n s np name dflt
      else Ret dflt
  end.

Definition of_n_addr_cells (s : of_state) (np : Z) : run Z := n_cells fuel s np str_address_cells OF_ROOT_NODE_ADDR_CELLS_DEFAULT.
Definition of_n_size_cells (s : of_state) (np : Z) : run Z := n_cells fuel s np str_size_cells OF_ROOT_NODE_SIZE_CELLS_DEFAULT.

(** A number of [size] cells; a negative count does not end. *)
Fixpoint read_cells (fdt : Z -> option Z) (cell : Z) (size : nat) (r : Z) : run Z :=
  match size with
  | O => Ret r
  | S size => v ← Fdt.fdt32_ld fdt cell; read_cells fdt (cell + 4) size (u64 (r ≪ 32) .| v)
  end.

Definition of_read_number (fdt : Z -> option Z) (cell size : Z) : run Z :=
  if size <? 0 then Spin else read_cells fdt cell (Z.to_nat size) 0.

(** ** The scan at boot *)

(** A callback gets the node, its name and its depth. *)
Definition callback : Type := Z -> list Z -> Z -> of_state -> run (Z * of_state).

(** The last component of a name that is a path: kbasename. *)
Definition unit_name (name : list Z) : list Z := if bool_decide (head name = Some chr_slash) then default name (leaf name) else name.

Fixpoint scan_nodes (n : nat) (it : callback) (offset depth rc : Z) (s : of_state) : run (Z * of_state) :=
  match n with
  | O => Spin
  | S n =>
      if (0 <=? offset) && (0 <=? depth) && (rc =? 0) then
        pathp ← fdt_get_name (blob s) fuel offset;
        match pathp with
        | inr _ => Fault
        | inl (pathp, _) =>
            name ← read_string (blob s) fuel pathp;
            '(rc, s) ← it offset (unit_name name) depth s;
            '(offset, d) ← Fdt.fdt_next_node (blob s) fuel offset (Some depth);
            scan_nodes n it offset (default depth d) rc s
        end
      else Ret (rc, s)
  end.

Definition of_scan_flat_dt (it : callback) (s : of_state) : run (Z * of_state) :=
  if initial_boot_params s =? 0 then Ret (0, s)
  else
    '(offset, d) ← Fdt.fdt_next_node (blob s) fuel (- 1) (Some (- 1));
    scan_nodes fuel it offset (default (- 1) d) 0 s.

Definition early_init_dt_scan_chosen (data : Z) : callback := fun node uname depth s =>
  if negb (depth =? 1) || (data =? 0) || (negb (bool_decide (uname = str_chosen)) && negb (bool_decide (uname = str_chosen_0))) then Ret (0, s)
  else
    p ← fdt_getprop (blob s) fuel node str_bootargs;
    let s :=
      match p with
      | inl (p, l) => if 0 <? l then set_mem (fst (strscpy (os_mem s) data (initial_boot_params s + p) (Z.min l COMMAND_LINE_SIZE))) s else s
      | inr _ => s
      end in
    Ret (1, s).

Definition early_init_dt_scan_root : callback := fun node uname depth s =>
  if negb (depth =? 0) then Ret (0, s)
  else
    let s := set_size_cells OF_ROOT_NODE_SIZE_CELLS_DEFAULT s in
    let s := set_addr_cells OF_ROOT_NODE_ADDR_CELLS_DEFAULT s in
    prop ← fdt_getprop (blob s) fuel node str_size_cells;
    s ← match prop with
        | inl (p, _) => v ← Fdt.fdt32_ld (blob s) p; Ret (set_size_cells (s32 v) s)
        | inr _ => Ret s
        end;
    prop ← fdt_getprop (blob s) fuel node str_address_cells;
    s ← match prop with
        | inl (p, _) => v ← Fdt.fdt32_ld (blob s) p; Ret (set_addr_cells (s32 v) s)
        | inr _ => Ret s
        end;
    Ret (1, s).

(** The value, and the next cell. *)
Definition dt_mem_next_cell (fdt : Z -> option Z) (n p : Z) : run (Z * Z) :=
  v ← of_read_number fdt p n; Ret (v, p + 4 * n).

(** The loop over the areas of a node; a BUG_ON of the allocator is a fault. *)
Fixpoint scan_areas (n : nat) (reg endp : Z) (s : of_state) : run of_state :=
  match n with
  | O => Spin
  | S n =>
      if s32 (dt_root_addr_cells s + dt_root_size_cells s) <=? (endp - reg) / 4 then
        '(base, reg) ← dt_mem_next_cell (blob s) (dt_root_addr_cells s) reg;
        '(size, reg) ← dt_mem_next_cell (blob s) (dt_root_size_cells s) reg;
        if size =? 0 then scan_areas n reg endp s
        else
          match memblock_add base size (os_memblock s) with
          | None => Fault
          | Some (mb, _) => scan_areas n reg endp (set_memblock mb s)
          end
      else Ret s
  end.

Definition early_init_dt_scan_memory : callback := fun node uname depth s =>
  type ← fdt_getprop (blob s) fuel node str_device_type;
  match type with
  | inr _ => Ret (0, s)
  | inl (type, _) =>
      is_memory ← mem_eq (blob s) type (str_memory ++ [0]);
      if negb is_memory then Ret (0, s)
      else
        usable ← fdt_getprop (blob s) fuel node str_usable_memory;
        reg ← match usable with inl r => Ret (inl r) | inr _ => fdt_getprop (blob s) fuel node str_reg end;
        match reg with
        | inr _ => Ret (0, s)
        | inl (reg, l) => s ← scan_areas fuel reg (reg + 4 * (u64 l / 4)) s; Ret (0, s)
        end
  end.

Definition early_init_dt_scan_nodes (s : of_state) : run of_state :=
  '(_, s) ← of_scan_flat_dt (early_init_dt_scan_chosen boot_command_line) s;
  '(_, s) ← of_scan_flat_dt early_init_dt_scan_root s;
  '(_, s) ← of_scan_flat_dt early_init_dt_scan_memory s;
  Ret s.

Definition early_init_dt_verify (params : Z) (s : of_state) : run (bool * of_state) :=
  if params =? 0 then Ret (false, s)
  else
    err ← Fdt.fdt_check_header (blob_at (os_mem s) params);
    if negb (err =? 0) then Ret (false, s) else Ret (true, set_params params s).

Definition early_init_dt_scan (params : Z) (s : of_state) : run (bool * of_state) :=
  '(status, s) ← early_init_dt_verify params s;
  if negb status then Ret (false, s)
  else s ← early_init_dt_scan_nodes s; Ret (true, s).

Definition of_get_flat_dt_size (s : of_state) : run Z := v ← Fdt.fdt_totalsize (blob s); Ret (s32 v).

(** [pa] is the physical address of the tree. *)
Definition early_init_fdt_reserve_self (pa : Z) (s : of_state) : run of_state :=
  size ← of_get_flat_dt_size s;
  match memblock_reserve pa (u64 size) (os_memblock s) with
  | None => Fault
  | Some (mb, _) => Ret (set_memblock mb s)
  end.

(** ** Copies of the tree *)

Definition fdt_move (fdt buf bufsize : Z) (m : mem) : run (Z * mem) :=
  err ← Fdt.fdt_ro_probe_ (blob_at m fdt);
  if negb (err =? 0) then Ret (err, m)
  else
    totalsize ← Fdt.fdt_totalsize (blob_at m fdt);
    if u32 bufsize <? totalsize then Ret (- FDT_ERR_NOSPACE, m) else Ret (0, memmove m buf fdt totalsize).

(** A panic is a fault. *)
Definition of_dt_move (buf size : Z) (s : of_state) : run of_state :=
  '(r, m) ← fdt_move (initial_boot_params s) buf (s32 size) (os_mem s);
  if negb (r =? 0) then Fault else Ret (set_mem m s).
End device_tree.
