(* ===== verification/OfProps.v ===== *)
(** The scan of the device tree at boot: it visits every node, sets the cell counts
    from the root, and gives the boot memory allocator exactly the areas that the
    memory nodes of the tree list. *)

From stdpp Require Import list.
From S2P Require Import Prelude Cstring Bytes Memblock MemblockProps Unaligned Strings Fdt FdtRo FdtTree FdtLookup Of.

(** * Visits *)

(** The nodes on the tokens from offset [o] at depth [d] on, with offset, depth and
    name. *)
Fixpoint visits (o d : Z) (ts : list tok) : list (Z * Z * list Z) :=
  match ts with
  | [] => []
  | TBegin name :: ts => (o, d + 1, name) :: visits (o + tsize (TBegin name)) (d + 1) ts
  | TEnd :: ts => if d - 1 <? 0 then [] else visits (o + tsize TEnd) (d - 1) ts
  | t :: ts => visits (o + tsize t) d ts
  end.

(** The nodes of a tree in order. *)
Fixpoint preorder (o d : Z) (n : node) : list (Z * Z * node) :=
  match n with
  | Node name items =>
      (o, d, n) ::
      (fix go (o : Z) (items : list item) : list (Z * Z * node) :=
         match items with
         | [] => []
         | i :: items => match i with ISub m => preorder o (d + 1) m | _ => [] end ++ go (o + tsizes (item_toks i)) items
         end) (o + tsize (TBegin name)) items
  end.

Fixpoint sub_preorder (o d : Z) (items : list item) : list (Z * Z * node) :=
  match items with
  | [] => []
  | i :: items => match i with ISub m => preorder o d m | _ => [] end ++ sub_preorder (o + tsizes (item_toks i)) d items
  end.

Lemma preorder_eq o d name items : preorder o d (Node name items) = (o, d, Node name items) :: sub_preorder (o + tsize (TBegin name)) (d + 1) items.
Proof.
  cbn [preorder]. f_equal. generalize (o + tsize (TBegin name)). clear o name. induction items as [|i items IH]; intros o; [done|]. cbn [sub_preorder]. by rewrite IH.
Qed.

Definition visit_of (v : Z * Z * node) : Z * Z * list Z := (v.1.1, v.1.2, node_name v.2).

Lemma visits_node : forall n o d ts, 0 <= d -> visits o d (node_toks n ++ ts) = map visit_of (preorder o (d + 1) n) ++ visits (o + tsizes (node_toks n)) d ts.
Proof.
  apply (node_induction (fun n => forall o d ts, 0 <= d -> visits o d (node_toks n ++ ts) = map visit_of (preorder o (d + 1) n) ++ visits (o + tsizes (node_toks n)) d ts)).
  intros name items IH o d ts Hd. rewrite preorder_eq. cbn [node_toks]. rewrite <- app_comm_cons, <- app_assoc. cbn [visits tsizes app map]. f_equal.
  rewrite tsizes_app. cbn [tsizes]. rewrite Z.add_0_r, !Z.add_assoc. generalize (o + tsize (TBegin name)). clear o name.
  induction IH as [|i items Hi _ IHi]; intros o.
  - cbn [flat_map app tsizes visits sub_preorder map]. rewrite (proj2 (Z.ltb_ge (d + 1 - 1) 0)) by lia. f_equal; lia.
  - cbn [flat_map sub_preorder]. rewrite <- app_assoc, tsizes_app, map_app, <- app_assoc, !Z.add_assoc. destruct i as [nameoff pname data| |n]; cbn [item_toks app visits tsizes map on_sub] in *.
    + rewrite Z.add_0_r. apply IHi.
    + rewrite Z.add_0_r. apply IHi.
    + rewrite Hi by lia. f_equal. apply IHi.
Qed.

Lemma visits_root n ts : visits 0 (-1) (node_toks n ++ ts) = map visit_of (preorder 0 0 n).
Proof.
  destruct n as [name items]. rewrite preorder_eq. cbn [node_toks]. rewrite <- app_comm_cons, <- app_assoc. cbn [visits app map]. f_equal. change (-1 + 1) with 0.
  generalize (0 + tsize (TBegin name)). induction items as [|i items IH]; intros o; [done|]. cbn [flat_map sub_preorder]. rewrite <- app_assoc, map_app.
  destruct i as [nameoff pname data| |n]; cbn [item_toks app visits tsizes map]; rewrite ?Z.add_0_r; [apply IH..|]. rewrite visits_node by done. f_equal. apply IH.
Qed.

(** The callback on a list of nodes, until it returns something other than 0. *)
Fixpoint run_visits (it : callback) (l : list (Z * Z * list Z)) (rc : Z) (s : of_state) : run (Z * of_state) :=
  match l with
  | [] => Ret (rc, s)
  | (o, d, name) :: l => if rc =? 0 then '(rc, s) ← it o (unit_name name) d s; run_visits it l rc s else Ret (rc, s)
  end.

Lemma run_visits_stop it l rc s : rc <> 0 -> run_visits it l rc s = Ret (rc, s).
Proof. intros H. destruct l as [|[[o d] name] l]; cbn; [done|]. by rewrite (proj2 (Z.eqb_neq rc 0)). Qed.

Lemma visits_seek ts : forall o d, 0 <= d -> visits o d ts =
  match seek o d ts with
  | inl (o', d', name, ts') => (o', d', name) :: visits (o' + tsize (TBegin name)) d' ts'
  | inr _ => []
  end.
Proof.
  induction ts as [|t ts IH]; intros o d Hd; [done|]. destruct t as [name| |nameoff pname data|]; cbn [visits seek]; [done| |by apply IH|by apply IH].
  destruct (Z.ltb_spec (d - 1) 0); [done|]. apply IH. lia.
Qed.

Lemma preorder_depth : forall n o d v, v ∈ preorder o d n -> d <= v.1.2.
Proof.
  apply (node_induction (fun n => forall o d v, v ∈ preorder o d n -> d <= v.1.2)). intros name items IH o d v Hv. rewrite preorder_eq in Hv. apply elem_of_cons in Hv as [->|Hv]; [done|].
  revert Hv. generalize (o + tsize (TBegin name)). clear o name. induction IH as [|i items Hi _ IHi]; intros o Hv; [by apply not_elem_of_nil in Hv|]. cbn [sub_preorder] in Hv.
  apply elem_of_app in Hv as [Hv|Hv]; [|by eapply IHi]. destruct i as [| |m]; [by apply not_elem_of_nil in Hv..|]. apply Hi in Hv. lia.
Qed.

Lemma sub_preorder_depth items : forall o d v, v ∈ sub_preorder o d items -> d <= v.1.2.
Proof.
  induction items as [|i items IH]; intros o d v Hv; [by apply not_elem_of_nil in Hv|]. cbn [sub_preorder] in Hv. apply elem_of_app in Hv as [Hv|Hv]; [|by eapply IH].
  destruct i as [| |m]; [by apply not_elem_of_nil in Hv..|]. by apply preorder_depth in Hv.
Qed.

Section scan.
Context (blob_size : Z) (fuel : nat) (L : layout) (B : Z -> option Z).
Context (HL : laid_out B L) (Hfuel : l_total L < Z.of_nat fuel).

Abbreviation blob := (Of.blob blob_size).

(** A callback leaves the tree alone, and the invariant [P] as long as it returns 0. *)
Definition keeps (P : of_state -> Prop) (it : callback) (l : list (Z * Z * list Z)) : Prop :=
  (forall s, P s -> blob s = B) /\
  forall o d name s rc s', (o, d, name) ∈ l -> P s -> it o (unit_name name) d s = Ret (rc, s') -> blob s' = B /\ (rc = 0 -> P s').

Lemma keeps_cons P it v l : keeps P it (v :: l) -> keeps P it l.
Proof. intros [H1 H2]. split; [done|]. intros o d name s rc s' Hin. apply H2. by right. Qed.

Lemma scan_nodes_ok P it : forall n o d name ts s, at_toks B L o (TBegin name :: ts) -> depth_ok d ts -> 0 <= d -> (length ts + 1 < n)%nat ->
  keeps P it ((o, d, name) :: visits (o + tsize (TBegin name)) d ts) -> P s ->
  scan_nodes blob_size fuel n it o d 0 s = run_visits it ((o, d, name) :: visits (o + tsize (TBegin name)) d ts) 0 s.
Proof.
  induction n as [|n IH]; intros o d name ts s Hat Hd H0 Hn Hk Hs; [lia|]. cbn [scan_nodes run_visits]. pose proof (toks_total _ _ HL _ _ Hat) as [Ho _].
  rewrite (proj2 (Z.leb_le 0 o)), (proj2 (Z.leb_le 0 d)) by lia. cbn [andb Z.eqb].
  rewrite (proj1 Hk s Hs). rewrite (get_name_ok _ _ _ HL Hfuel _ _ _ Hat). cbn [mbind run_bind]. destruct (begin_bytes _ _ HL _ _ _ Hat) as (Hc & Hh & Hl).
  rewrite (read_string_has _ _ Hc _ _ Hh) by lia. cbn [mbind run_bind]. destruct (it o (unit_name name) d s) as [[rc s']| |] eqn:E; [|done..]. cbn [mbind run_bind].
  destruct (proj2 Hk _ _ _ _ _ _ (list_elem_of_here _ _) Hs E) as [Hb HP]. rewrite Hb. rewrite (next_node_ok _ _ _ HL Hfuel _ _ _ _ Hat Hd). cbn [mbind run_bind]. apply keeps_cons in Hk.
  destruct (decide (rc = 0)) as [->|Hrc].
  2: { rewrite run_visits_stop by done. destruct n as [|n]; [lia|]. destruct (seek_result _) as [o' d']. cbn [scan_nodes]. by rewrite (proj2 (Z.eqb_neq rc 0)), andb_false_r by done. }
  pose proof (at_toks_next _ _ _ _ _ Hat) as Hat'. rewrite visits_seek in Hk |- * by done. destruct (seek _ d ts) as [[[[o' d'] name'] ts']|[r d']] eqn:Es; cbn [seek_result from_option id].
  - destruct (seek_next _ _ _ _ _ _ _ _ _ Hat' Hd Es) as (Hat'' & Hd' & Hl'). assert (0 <= d') by (eapply (seek_depth ts _ d); eassumption). apply IH; [done|done|lia|lia|done|by apply HP].
  - destruct n as [|n]; [lia|]. cbn [scan_nodes run_visits]. destruct (seek_end _ _ HL _ _ _ _ _ Hat' Es) as [[-> Hd']|[[Hr Hd']|?]]; [done| |lia].
    by rewrite (proj2 (Z.leb_gt 0 d')), andb_false_r by lia.
Qed.

Lemma of_scan_ok P it root s : at_node B L 0 root -> keeps P it (map visit_of (preorder 0 0 root)) -> P s -> initial_boot_params s <> 0 ->
  of_scan_flat_dt blob_size fuel it s = run_visits it (map visit_of (preorder 0 0 root)) 0 s.
Proof.
  intros [ts Hat] Hk Hs Hp. unfold of_scan_flat_dt. rewrite (proj2 (Z.eqb_neq _ _)) by done. rewrite (proj1 Hk s Hs). unfold Fdt.fdt_next_node. cbn [Z.leb Z.compare Z.opp].
  pose proof (toks_total _ _ HL _ _ Hat) as [_ Ht]. pose proof (lo_range _ _ HL) as (_ & _ & Hm). unfold INT_MAX in Hm.
  rewrite <- (visits_root root ts) in Hk |- *. destruct root as [name items]. cbn [node_toks app] in *. rewrite <- app_assoc in *. cbn [length] in Ht.
  rewrite (next_node_from_ok _ _ _ HL Hfuel _ _ _ _ Hat) by (unfold depth_ok; cbn [length]; lia). cbn [seek seek_result mbind run_bind from_option id visits] in *.
  apply (scan_nodes_ok P); [done|unfold depth_ok; lia|lia|lia|done|done].
Qed.

(** ** Nodes of the tree *)

Lemma preorder_at : forall n o d v, at_node B L o n -> v ∈ preorder o d n -> at_node B L v.1.1 v.2.
Proof.
  clear. apply (node_induction (fun n => forall o d v, at_node B L o n -> v ∈ preorder o d n -> at_node B L v.1.1 v.2)). intros name items IH o d v Hn Hv. rewrite preorder_eq in Hv.
  apply elem_of_cons in Hv as [->|Hv]; [done|]. apply at_node_items in Hn as [ts Hat]. cbn [items_at node_items] in Hat. revert Hat Hv. generalize (o + tsize (TBegin name)). clear o name.
  induction IH as [|i items Hi _ IHi]; intros o Hat Hv; [by apply not_elem_of_nil in Hv|]. cbn [sub_preorder] in Hv. apply elem_of_app in Hv as [Hv|Hv].
  - destruct i as [| |m]; [by apply not_elem_of_nil in Hv..|]. apply (Hi o (d + 1)); [|done]. cbn [flat_map item_toks] in Hat. rewrite <- app_assoc in Hat. by eexists.
  - eapply IHi; [|done]. by apply at_items_next in Hat.
Qed.

(** The value of a property of a node. *)
Fixpoint prop_of (s : list Z) (items : list item) : option (list Z) :=
  match items with
  | IProp _ pname data :: items => if bool_decide (pname = s) then Some data else prop_of s items
  | INop :: items => prop_of s items
  | _ => None
  end.

Definition value (s : list Z) (n : node) : option (list Z) := prop_of s (node_items n).

Lemma find_prop_value s items : forall o, snd <$> find_prop s o items = prop_of s items.
Proof.
  clear. induction items as [|i items IH]; intros o; [done|]. destruct i as [nameoff pname data| |n]; cbn [find_prop prop_of]; [|apply IH|done].
  destruct (bool_decide (pname = s)); [done|apply IH].
Qed.

(** The bytes [data] are at [p], inside the tree. *)
Definition holds_data (p : Z) (data : list Z) : Prop :=
  has B p data /\ Forall (uint 8) data /\ 0 <= p /\ p + Z.of_nat (length data) <= l_total L.

Lemma getprop_value o n s : at_node B L o n ->
  match value s n with
  | Some data => exists p, fdt_getprop B fuel o s = Ret (inl (p, Z.of_nat (length data))) /\ holds_data p data
  | None => fdt_getprop B fuel o s = Ret (inr (- FDT_ERR_NOTFOUND))
  end.
Proof.
  intros Hn. rewrite (getprop_ok _ _ _ HL Hfuel _ _ _ Hn). unfold value. rewrite <- (find_prop_value s _ (items_at o n)). apply at_node_items in Hn as [ts Hat].
  destruct (find_prop s _ _) as [[o' data]|] eqn:E; [|done]. cbn [fmap option_fmap option_map snd]. destruct (find_prop_at _ _ _ _ _ _ _ _ Hat E) as (nameoff & pname & ts' & Hp).
  eexists. split; [done|]. destruct (prop_bytes _ _ HL _ _ _ _ _ Hp) as (_ & _ & Hh & Hu & _ & _ & Ho & _). split_and!; [done|done| |].
  - pose proof (lo_range _ _ HL). lia.
  - destruct Hp as (_ & _ & (_ & _ & Ht & _) & _). rewrite enc_all_cons in Ht. unfold enc in Ht. cbn [body tag_of] in Ht. rewrite !length_app, !be_bytes_length in Ht. lia.
Qed.
End scan.

(** * Numbers *)

Lemma be_value_nil : be_value [] = 0.
Proof. done. Qed.

Lemma of_bytes_cat l l' : Forall (uint 8) l -> of_bytes (l ++ l') = of_bytes l + of_bytes l' * 2 ^ (8 * Z.of_nat (length l)).
Proof.
  induction 1 as [|b l Hb _ IH]; cbn [app of_bytes length]; [rewrite Z.mul_1_r; lia|]. rewrite IH.
  assert (forall y, b .| (y ≪ 8) = b + y * 2 ^ 8) as Hadd.
  { intros y. rewrite <- Z.shiftl_mul_pow2 by lia. symmetry. apply Z.add_nocarry_lor. apply Z.bits_inj'. intros n Hn.
    rewrite Z.land_spec, Z.shiftl_spec, Z.bits_0 by lia. destruct (Z_lt_ge_dec n 8); [by rewrite (Z.testbit_neg_r y), andb_false_r by lia|by rewrite (testbit_uint 8 b) by (done || lia)]. }
  rewrite !Hadd. rewrite Nat2Z.inj_succ, <- Z.add_1_l, Z.mul_add_distr_l, Z.pow_add_r by lia. lia.
Qed.

Lemma be_value_app l l' : Forall (uint 8) l' -> be_value (l ++ l') = be_value l * 2 ^ (8 * Z.of_nat (length l')) + be_value l'.
Proof.
  intros Hl. unfold be_value. rewrite rev_app_distr, of_bytes_cat by (by apply Forall_rev). rewrite length_rev. lia.
Qed.

Lemma be_value_range l : Forall (uint 8) l -> 0 <= be_value l < 2 ^ (8 * Z.of_nat (length l)).
Proof.
  intros Hl. unfold be_value. rewrite <- (length_rev l). apply of_bytes_range. apply Forall_rev in Hl. by apply Forall_forall.
Qed.

(** Reads a word of a list. *)
Lemma fdt32_value fdt p l : has fdt p l -> Forall (uint 8) l -> length l = 4%nat -> Fdt.fdt32_ld fdt p = Ret (be_value l).
Proof.
  intros H Hl Hlen. pose proof (be_value_range l Hl) as Hr. rewrite Hlen in Hr. assert (be_bytes 4 (be_value l) = l) as E.
  { unfold be_bytes, be_value. rewrite <- (length_rev l) in Hlen. rewrite <- Hlen, to_of_bytes, rev_involutive; [done|]. by apply Forall_forall, Forall_rev. }
  rewrite <- E, <- (app_nil_r (be_bytes _ _)) in H. rewrite (fdt32_ld_has _ _ _ _ H). by rewrite wrap_small.
Qed.

Lemma cell_shift r v : uint 32 v -> u64 (r ≪ 32) .| v = u64 (r * 2 ^ 32 + v).
Proof.
  intros Hv. rewrite Z.lor_comm, <- Z.add_nocarry_lor.
  - rewrite Z.shiftl_mul_pow2 by lia. rewrite <- wrap_add_l, Z.add_comm. symmetry. apply wrap_small.
    assert (u64 (r * 2 ^ 32) = r mod 2 ^ 32 * 2 ^ 32) as -> by (unfold wrap; change (2 ^ 64) with (2 ^ 32 * 2 ^ 32); by rewrite Z.mul_mod_distr_r by lia).
    pose proof (Z.mod_pos_bound r (2 ^ 32) ltac:(lia)). unfold uint in Hv. lia.
  - apply Z.bits_inj'. intros n Hn. rewrite Z.land_spec, wrap_spec, Z.shiftl_spec, Z.bits_0 by lia.
    destruct (Z_lt_ge_dec n 32); [by rewrite (Z.testbit_neg_r r), !andb_false_r by lia|by rewrite (testbit_uint 32 v) by (done || lia)].
Qed.

Lemma read_cells_ok fdt n : forall p l r, has fdt p l -> Forall (uint 8) l -> length l = (4 * n)%nat -> uint 64 r ->
  read_cells fdt p n r = Ret (u64 (r * 2 ^ (32 * Z.of_nat n) + be_value l)).
Proof.
  induction n as [|n IH]; intros p l r H Hl Hlen Hr.
  { destruct l; [|cbn in Hlen; lia]. cbn [read_cells]. rewrite be_value_nil, Z.add_0_r, Z.mul_0_r, Z.mul_1_r. by rewrite wrap_small. }
  cbn [read_cells]. rewrite <- (take_drop 4 l) in H. apply has_app in H as [H4 H].
  pose proof (Forall_take _ 4 _ Hl) as Hu. pose proof (Forall_drop _ 4 _ Hl) as Hd. assert (length (take 4 l) = 4%nat) as E4 by (rewrite length_take; lia). rewrite E4 in H.
  rewrite (fdt32_value _ _ _ H4 Hu E4). cbn [mbind run_bind]. pose proof (be_value_range _ Hu) as Hv. rewrite E4 in Hv. rewrite cell_shift by exact Hv.
  rewrite (IH _ (drop 4 l)); [|done|done|rewrite length_drop; lia|apply uint_wrap; lia]. f_equal.
  rewrite <- wrap_add_l, wrap_mul_l, wrap_add_l. f_equal. rewrite <- (take_drop 4 l) at 3. rewrite be_value_app by done. rewrite length_drop, Hlen.
  replace (8 * Z.of_nat (4 * S n - 4)) with (32 * Z.of_nat n) by lia. rewrite Nat2Z.inj_succ, <- Z.add_1_l, Z.mul_add_distr_l, Z.pow_add_r by lia. lia.
Qed.

Lemma read_number_ok fdt p l n : has fdt p l -> Forall (uint 8) l -> length l = (4 * n)%nat -> of_read_number fdt p (Z.of_nat n) = Ret (u64 (be_value l)).
Proof.
  intros H Hl Hlen. unfold of_read_number. rewrite (proj2 (Z.ltb_ge _ 0)), Nat2Z.id by lia. rewrite (read_cells_ok _ _ _ l) by (done || unfold uint; lia). done.
Qed.

(** * Memory areas *)

(** The areas in the value of a property, with [a] cells for the address and [b] for
    the size. *)
Fixpoint areas_from (k a b : nat) (data : list Z) : list (Z * Z) :=
  match k with
  | O => []
  | S k =>
      if (4 * (a + b) <=? length data)%nat then
        (u64 (be_value (take (4 * a) data)), u64 (be_value (take (4 * b) (drop (4 * a) data)))) :: areas_from k a b (drop (4 * (a + b)) data)
      else []
  end.

Definition areas (a b : nat) (data : list Z) : list (Z * Z) := areas_from (length data) a b data.

Lemma areas_enough a b : (1 <= a + b)%nat -> forall k data, (length data <= k)%nat -> areas_from k a b data = areas a b data.
Proof.
  intros Hab. assert (forall k k' data, (length data <= k)%nat -> (length data <= k')%nat -> areas_from k a b data = areas_from k' a b data) as H.
  { induction k as [|k IH]; intros [|k'] data Hk Hk'; cbn [areas_from]; [done| | |].
    - by rewrite (proj2 (Nat.leb_gt _ _)) by lia.
    - by rewrite (proj2 (Nat.leb_gt _ _)) by lia.
    - destruct (Nat.leb_spec (4 * (a + b)) (length data)); [|done]. f_equal. apply IH; rewrite length_drop; lia. }
  intros k data Hk. by apply H.
Qed.

(** The areas are added one by one; those of size 0 are left out. *)
Fixpoint add_areas (l : list (Z * Z)) (mb : memblock) : option memblock :=
  match l with
  | [] => Some mb
  | (b, z) :: l => if z =? 0 then add_areas l mb else r ← memblock_add b z mb; add_areas l r.1
  end.

Lemma add_areas_app l l' mb : add_areas (l ++ l') mb = add_areas l mb ≫= add_areas l'.
Proof.
  revert mb. induction l as [|[b z] l IH]; intros mb; [done|]. cbn [app add_areas]. destruct (z =? 0); [apply IH|]. destruct (memblock_add b z mb) as [[mb' err]|]; [apply IH|done].
Qed.

Definition in_area (x : Z) (r : Z * Z) : Prop := r.1 <= x < r.1 + r.2 /\ x < PHYS_ADDR_MAX.

(** The table has room for every area: then all are added. *)
Lemma add_areas_ok l : forall mb, mb_ok mb -> Forall (fun r => uint 64 r.1 /\ uint 64 r.2) l -> 2 * (cnt (memory mb) + Z.of_nat (length l)) - 1 <= max (memory mb) ->
  exists mb', add_areas l mb = Some mb' /\ mb_ok mb' /\ reserved mb' = reserved mb /\
    forall x, covers (regions (memory mb')) x <-> covers (regions (memory mb)) x \/ exists r, r ∈ l /\ in_area x r.
Proof.
  induction l as [|[b z] l IH]; intros mb Hmb Hu Hmax; cbn [add_areas].
  { exists mb. split_and!; try done. intros x. split; [by left|]. intros [H|(r & Hr & _)]; [done|by apply not_elem_of_nil in Hr]. }
  apply Forall_cons in Hu as [[Hb Hz] Hu]. cbn [fst snd length] in *. assert (forall x, (exists r, r ∈ (b, z) :: l /\ in_area x r) <-> in_area x (b, z) \/ exists r, r ∈ l /\ in_area x r) as Hex.
  { intros x. split; [intros (r & [->|Hr]%elem_of_cons & Hx); eauto|]. intros [H|(r & Hr & Hx)]; [exists (b, z); split; [by left|done]|exists r; split; [by right|done]]. }
  destruct (Z.eqb_spec z 0) as [->|Hz0].
  - destruct (IH mb Hmb Hu ltac:(lia)) as (mb' & E & Hok & Hr & Hc). exists mb'. split_and!; try done. intros x. rewrite Hc, Hex. unfold in_area at 2. cbn. split; [tauto|]. intros [H|[H|H]]; [tauto|lia|tauto].
  - destruct Hmb as [Hm Hres]. unfold memblock_add. pose proof (add_range_ok _ b z Hm Hb Hz) as H. destruct (memblock_add_range (memory mb) b z) as [[t err]|]; [|lia].
    destruct H as (-> & Ht & (Em & Ec) & Hx). cbn [mbind option_bind fst]. destruct (IH (Mb t (reserved mb))) as (mb' & E & Hok & Hr & Hc); [by split|done|cbn [memory]; lia|].
    exists mb'. split_and!; try done. intros x. rewrite Hc, Hex. cbn [memory]. rewrite Hx. unfold in_area at 2. cbn [fst snd]. tauto.
Qed.

Section areas.
Context (blob_size : Z) (fuel : nat).

Lemma scan_areas_ok a b : (1 <= a + b)%nat -> Z.of_nat (a + b) < 2 ^ 31 -> forall n data reg s, has (blob blob_size s) reg data -> Forall (uint 8) data -> (length data < n)%nat ->
  dt_root_addr_cells s = Z.of_nat a -> dt_root_size_cells s = Z.of_nat b ->
  scan_areas blob_size n reg (reg + 4 * (Z.of_nat (length data) / 4)) s =
  match add_areas (areas_from n a b data) (os_memblock s) with
  | Some mb => Ret (set_memblock mb s)
  | None => Fault
  end.
Proof.
  intros Hab Hmax. induction n as [|n IH]; intros data reg s Hh Hu Hn Ha Hb; [lia|]. cbn [scan_areas areas_from]. rewrite Ha, Hb.
  rewrite sgn_small by lia. replace (reg + 4 * (Z.of_nat (length data) / 4) - reg) with (Z.of_nat (length data) / 4 * 4) by lia. rewrite Z.div_mul by lia.
  pose proof (Z.div_mod (Z.of_nat (length data)) 4 ltac:(lia)). pose proof (Z.mod_pos_bound (Z.of_nat (length data)) 4 ltac:(lia)).
  destruct (Nat.leb_spec (4 * (a + b)) (length data)) as [Hle|Hgt].
  2: { rewrite (proj2 (Z.leb_gt _ _)) by lia. cbn [add_areas]. by destruct s. }
  rewrite (proj2 (Z.leb_le _ _)) by lia. unfold dt_mem_next_cell.
  set (d1 := take (4 * a) data). set (d2 := drop (4 * a) data). assert (data = d1 ++ d2) as Ed by (symmetry; apply take_drop).
  assert (length d1 = 4 * a)%nat as El1 by (unfold d1; rewrite length_take; lia). assert (length d2 = length data - 4 * a)%nat as El2 by (unfold d2; by rewrite length_drop).
  rewrite Ed in Hh. apply has_app in Hh as [H1 H2]. rewrite El1 in H2. pose proof (Forall_take _ (4 * a) _ Hu) as Hu1. pose proof (Forall_drop _ (4 * a) _ Hu) as Hu2. fold d1 in Hu1. fold d2 in Hu2.
  rewrite (read_number_ok _ _ d1 a) by done. cbn [mbind run_bind]. rewrite <- (take_drop (4 * b) d2) in H2. apply has_app in H2 as [H2 H3].
  assert (length (take (4 * b) d2) = 4 * b)%nat as El3 by (rewrite length_take; lia). rewrite El3 in H3.
  replace (4 * Z.of_nat a) with (Z.of_nat (4 * a)) by lia. rewrite (read_number_ok _ _ (take (4 * b) d2) b) by (done || by apply Forall_take). cbn [mbind run_bind].
  assert (drop (4 * (a + b)) data = drop (4 * b) d2) as -> by (unfold d2; rewrite drop_drop; f_equal; lia).
  assert (forall s', has (blob blob_size s') (reg + Z.of_nat (4 * a) + Z.of_nat (4 * b)) (drop (4 * b) d2) -> dt_root_addr_cells s' = Z.of_nat a -> dt_root_size_cells s' = Z.of_nat b ->
    scan_areas blob_size n (reg + Z.of_nat (4 * a) + 4 * Z.of_nat b) (reg + 4 * (Z.of_nat (length data) / 4)) s' =
    match add_areas (areas_from n a b (drop (4 * b) d2)) (os_memblock s') with Some mb => Ret (set_memblock mb s') | None => Fault end) as Hrest.
  { intros s' Hs' Ha' Hb'. rewrite <- IH with (reg := reg + Z.of_nat (4 * a) + 4 * Z.of_nat b); [|by replace (4 * Z.of_nat b) with (Z.of_nat (4 * b)) by lia|by apply Forall_drop|rewrite length_drop; lia|done|done].
    f_equal. rewrite length_drop, El2. replace (Z.of_nat (length data - 4 * a - 4 * b)) with (Z.of_nat (length data) + - Z.of_nat (a + b) * 4) by lia. rewrite Z.div_add by lia. lia. }
  cbn [add_areas]. destruct (Z.eqb_spec (u64 (be_value (take (4 * b) d2))) 0); [by apply Hrest|].
  destruct (memblock_add _ _ (os_memblock s)) as [[mb err]|]; [|done]. cbn [mbind option_bind fst]. rewrite Hrest by done. done.
Qed.
End areas.

(** * The callbacks *)

Lemma mem_eq_str fdt s' : Forall chr s' -> forall p s, has fdt p (s ++ [0]) -> Forall chr s -> mem_eq fdt p (s' ++ [0]) = Ret (bool_decide (s = s')).
Proof.
  induction 1 as [|c' s' Hc' _ IH]; intros p s H Hs; destruct s as [|c s]; cbn [app mem_eq] in *; try (apply Forall_cons in Hs as [Hc Hs]).
  - by rewrite (ld8_has _ _ _ _ H) by (unfold uint; lia).
  - rewrite (ld8_has _ _ _ _ H (chr_uint c Hc)). cbn [mbind run_bind]. unfold chr in Hc. by rewrite (proj2 (Z.eqb_neq c 0)) by lia.
  - rewrite (ld8_has _ _ _ _ H) by (unfold uint; lia). cbn [mbind run_bind]. unfold chr in Hc'. by rewrite (proj2 (Z.eqb_neq 0 c')) by lia.
  - rewrite (ld8_has _ _ _ _ H (chr_uint c Hc)). cbn [mbind run_bind]. apply has_cons in H as [_ H]. destruct (Z.eqb_spec c c') as [->|Hne].
    + rewrite (IH _ s) by done. f_equal. apply bool_decide_ext. split; [by intros ->|by intros [= ->]].
    + f_equal. symmetry. apply bool_decide_eq_false. by intros [= ->].
Qed.

(** The nodes of a tree, and the areas of a memory node. *)
Definition nodes (root : node) : list node := map snd (preorder 0 0 root).

Definition node_areas (a b : nat) (n : node) : list (Z * Z) :=
  match value str_device_type n with
  | Some t =>
      if bool_decide (t = str_memory ++ [0]) then
        match value str_usable_memory n, value str_reg n with
        | Some data, _ => areas a b data
        | None, Some data => areas a b data
        | None, None => []
        end
      else []
  | None => []
  end.

(** A device type is a string. *)
Definition type_ok (n : node) : Prop := forall t, value str_device_type n = Some t -> exists s, Forall chr s /\ t = s ++ [0].

(** The number in a property of one cell, as an int. *)
Definition cell_of (s : list Z) (dflt : Z) (n : node) : Z := match value s n with Some data => s32 (be_value data) | None => dflt end.
Definition cell_ok (s : list Z) (n : node) : Prop := forall data, value s n = Some data -> length data = 4%nat.

Lemma set_memblock_id s : set_memblock (os_memblock s) s = s.
Proof. by destruct s. Qed.

Section callbacks.
Context (blob_size : Z) (fuel : nat) (L : layout) (B : Z -> option Z).
Context (HL : laid_out B L) (Hfuel : l_total L < Z.of_nat fuel).

Abbreviation blob := (Of.blob blob_size).
Abbreviation at_node := (FdtLookup.at_node B L).

(** ** Memory *)

Section memory.
Context (a b : nat) (Hab : (1 <= a + b)%nat) (Hmax : Z.of_nat (a + b) < 2 ^ 31).

Lemma scan_memory_node o d name n s : at_node o n -> type_ok n -> blob s = B -> dt_root_addr_cells s = Z.of_nat a -> dt_root_size_cells s = Z.of_nat b ->
  early_init_dt_scan_memory blob_size fuel o name d s =
  match add_areas (node_areas a b n) (os_memblock s) with
  | Some mb => Ret (0, set_memblock mb s)
  | None => Fault
  end.
Proof.
  intros Hn Ht Hs Ha Hb. unfold early_init_dt_scan_memory, node_areas. rewrite Hs. pose proof (getprop_value _ _ _ HL Hfuel o n str_device_type Hn) as Hty.
  destruct (value str_device_type n) as [t|] eqn:Et; [|rewrite Hty; cbn; by rewrite set_memblock_id]. destruct Hty as (p & -> & Hp & _). cbn [mbind run_bind].
  destruct (Ht t Et) as (ty & Hc & ->). rewrite (mem_eq_str B str_memory ltac:(by repeat constructor) p ty Hp Hc). cbn [mbind run_bind].
  assert (bool_decide (ty ++ [0] = str_memory ++ [0]) = bool_decide (ty = str_memory)) as -> by (apply bool_decide_ext; split; [by intros ?%(inj (.++ [0]))|by intros ->]).
  destruct (bool_decide (ty = str_memory)); cbn [negb]; [|cbn; by rewrite set_memblock_id].
  assert (forall reg data, holds_data L B reg data -> (s0 ← scan_areas blob_size fuel reg (reg + 4 * (u64 (Z.of_nat (length data)) / 4)) s; Ret (0, s0)) =
    match add_areas (areas a b data) (os_memblock s) with Some mb => Ret (0, set_memblock mb s) | None => Fault end) as Hscan.
  { intros reg data (Hh & Hu & H0 & Hl). pose proof (lo_range _ _ HL) as (_ & _ & Hm). unfold INT_MAX in Hm. rewrite wrap_small by lia.
    rewrite (scan_areas_ok blob_size a b) by (done || lia || by rewrite Hs). rewrite areas_enough by lia. by destruct (add_areas _ _). }
  pose proof (getprop_value _ _ _ HL Hfuel o n str_usable_memory Hn) as Hus. pose proof (getprop_value _ _ _ HL Hfuel o n str_reg Hn) as Hreg.
  destruct (value str_usable_memory n) as [data|].
  - destruct Hus as (reg & -> & Hd). cbn [mbind run_bind]. by apply Hscan.
  - rewrite Hus. cbn [mbind run_bind]. destruct (value str_reg n) as [data|].
    + destruct Hreg as (reg & -> & Hd). cbn [mbind run_bind]. by apply Hscan.
    + rewrite Hreg. cbn. by rewrite set_memblock_id.
Qed.

Lemma run_memory vs : forall s, (forall v, v ∈ vs -> at_node v.1.1 v.2 /\ type_ok v.2) -> blob s = B -> dt_root_addr_cells s = Z.of_nat a -> dt_root_size_cells s = Z.of_nat b ->
  run_visits (early_init_dt_scan_memory blob_size fuel) (map visit_of vs) 0 s =
  match add_areas (flat_map (fun v => node_areas a b v.2) vs) (os_memblock s) with
  | Some mb => Ret (0, set_memblock mb s)
  | None => Fault
  end.
Proof.
  induction vs as [|[[o d] n] vs IH]; intros s Hv Hs Ha Hb; [cbn; by rewrite set_memblock_id|]. cbn [map visit_of run_visits flat_map fst snd Z.eqb].
  destruct (Hv (o, d, n)) as [Hn Ht]; [by left|]. cbn [fst snd] in *. rewrite (scan_memory_node o d _ n s Hn Ht Hs Ha Hb), add_areas_app.
  destruct (add_areas (node_areas a b n) (os_memblock s)) as [mb|]; [|done]. cbn [mbind run_bind option_bind]. rewrite IH; [by destruct (add_areas _ _)| |done|done|done].
  intros v Hin. apply Hv. by right.
Qed.

Lemma scan_memory_tree root s : at_node 0 root -> Forall type_ok (nodes root) -> blob s = B -> dt_root_addr_cells s = Z.of_nat a -> dt_root_size_cells s = Z.of_nat b ->
  initial_boot_params s <> 0 ->
  of_scan_flat_dt blob_size fuel (early_init_dt_scan_memory blob_size fuel) s =
  match add_areas (flat_map (node_areas a b) (nodes root)) (os_memblock s) with
  | Some mb => Ret (0, set_memblock mb s)
  | None => Fault
  end.
Proof.
  intros Hr Ht Hs Ha Hb Hp. assert (forall v, v ∈ preorder 0 0 root -> at_node v.1.1 v.2 /\ type_ok v.2) as Hv.
  { intros v Hin. split; [by eapply preorder_at|]. eapply Forall_forall; [exact Ht|]. unfold nodes. by apply list_elem_of_In, in_map, list_elem_of_In. }
  rewrite (of_scan_ok blob_size fuel L B HL Hfuel (fun s' => blob s' = B /\ dt_root_addr_cells s' = Z.of_nat a /\ dt_root_size_cells s' = Z.of_nat b) _ root); [|done| |by split|done].
  - rewrite run_memory by done. unfold nodes. by rewrite !flat_map_concat_map, map_map.
  - split; [by intros s' [? _]|]. intros o d name s' rc s'' Hin (Hs' & Ha' & Hb') E. apply list_elem_of_In, in_map_iff in Hin as ([[o' d'] n] & [= <- <- <-] & Hin%list_elem_of_In).
    apply Hv in Hin as [Hn Hty]. cbn [fst snd] in *. rewrite (scan_memory_node _ _ _ n) in E by done. destruct (add_areas _ _) as [mb|]; [|done]. by injection E as <- <-.
Qed.
End memory.

(** ** Cell counts *)

Lemma cell_value o n s : at_node o n -> cell_ok s n ->
  match value s n with
  | Some data => exists p len, fdt_getprop B fuel o s = Ret (inl (p, len)) /\ Fdt.fdt32_ld B p = Ret (be_value data)
  | None => exists err, fdt_getprop B fuel o s = Ret (inr err)
  end.
Proof.
  intros Hn Hc. pose proof (getprop_value _ _ _ HL Hfuel o n s Hn) as H. specialize (Hc). destruct (value s n) as [data|] eqn:E; [|by eexists].
  destruct H as (p & E' & Hh & Hu & _). exists p, (Z.of_nat (length data)). split; [done|]. by apply fdt32_value, Hc.
Qed.

Definition with_cells (n : node) (s : of_state) : of_state :=
  set_addr_cells (cell_of str_address_cells OF_ROOT_NODE_ADDR_CELLS_DEFAULT n) (set_size_cells (cell_of str_size_cells OF_ROOT_NODE_SIZE_CELLS_DEFAULT n) s).

Lemma scan_root_node o name n s : at_node o n -> cell_ok str_address_cells n -> cell_ok str_size_cells n -> blob s = B ->
  early_init_dt_scan_root blob_size fuel o name 0 s = Ret (1, with_cells n s).
Proof.
  intros Hn Ha Hz Hs. unfold early_init_dt_scan_root, with_cells, cell_of. cbn [Z.eqb negb]. cbv zeta.
  assert (forall x y, blob (set_addr_cells x (set_size_cells y s)) = B) as H1 by (intros; exact Hs).
  assert (forall x y z, blob (set_size_cells z (set_addr_cells x (set_size_cells y s))) = B) as H2 by (intros; exact Hs). rewrite !H1.
  pose proof (cell_value _ _ _ Hn Hz) as Hzv. pose proof (cell_value _ _ _ Hn Ha) as Hav.
  destruct (value str_size_cells n) as [dz|]; [destruct Hzv as (pz & lz & -> & Ez)|destruct Hzv as (ez & ->)]; cbn [mbind run_bind]; rewrite ?Ez; cbn [mbind run_bind];
    rewrite ?H1, ?H2; (destruct (value str_address_cells n) as [da|]; [destruct Hav as (pa & la & -> & Ea)|destruct Hav as (ea & ->)]; cbn [mbind run_bind]; rewrite ?Ea; done).
Qed.

Lemma scan_root_ok root s : at_node 0 root -> cell_ok str_address_cells root -> cell_ok str_size_cells root -> blob s = B -> initial_boot_params s <> 0 ->
  of_scan_flat_dt blob_size fuel (early_init_dt_scan_root blob_size fuel) s = Ret (1, with_cells root s).
Proof.
  intros Hr Ha Hz Hs Hp. rewrite (of_scan_ok blob_size fuel L B HL Hfuel (eq s) _ root); [|done| |done|done].
  - destruct root as [name items]. rewrite preorder_eq. cbn [map visit_of run_visits fst snd Z.eqb]. rewrite (scan_root_node _ _ (Node name items)) by done. cbn [mbind run_bind].
    by apply run_visits_stop.
  - split; [by intros s' <-|]. intros o d name s' rc s'' Hin <- E. unfold early_init_dt_scan_root in E. destruct (Z.eqb_spec d 0) as [->|Hd]; [|cbn in E; by injection E as <- <-].
    assert (o = 0) as ->.
    { destruct root as [name0 items]. rewrite preorder_eq in Hin. cbn [map visit_of fst snd] in Hin. apply elem_of_cons in Hin as [[= <- _]|Hin]; [done|].
      apply list_elem_of_In, in_map_iff in Hin as ([[o' d'] n] & [= _ Ed _] & Hin%list_elem_of_In). cbn [fst snd] in Ed. apply sub_preorder_depth in Hin. cbn in Hin. lia. }
    fold (early_init_dt_scan_root blob_size fuel 0 (unit_name name) 0 s) in E.
    assert (early_init_dt_scan_root blob_size fuel 0 (unit_name name) 0 s = Ret (rc, s'')) as E' by exact E. rewrite (scan_root_node _ _ root) in E' by done. injection E' as <- <-. done.
Qed.
End callbacks.
