(* ===== verification/FdtBuild.v ===== *)
(** Trees written in the flattened form, version 17, and what the library finds in
    them. *)

From stdpp Require Import list.
From Stdlib Require Import String.
From S2P Require Import Prelude Cstring Bytes Memblock Unaligned Fdt FdtRo FdtTree FdtLookup Of OfProps.

(** The blob of a list of bytes. *)
Definition blob_of (bytes : list Z) : Z -> option Z := fun a => if a <? 0 then None else bytes !! Z.to_nat a.

Lemma blob_has pre l post : has (blob_of (pre ++ l ++ post)) (Z.of_nat (length pre)) l.
Proof.
  intros i b Hi. unfold blob_of. rewrite (proj2 (Z.ltb_ge _ _)) by lia. rewrite <- Nat2Z.inj_add, Nat2Z.id.
  rewrite lookup_app_r by lia. apply lookup_app_l_Some. rewrite <- Hi. f_equal. lia.
Qed.

(** ** The form *)

Definition HEADER_SIZE : Z := 40.
Definition RSVMAP_SIZE : Z := 16.

Definition header_words (size_struct size_strings : Z) : list Z :=
  let off_struct := HEADER_SIZE + RSVMAP_SIZE in
  [FDT_MAGIC; off_struct + size_struct + size_strings; off_struct; off_struct + size_struct; HEADER_SIZE; 17; 16; 0; size_strings; size_struct].

(** Header, an empty list of reservations, structure and strings. *)
Definition flatten (strs : list Z) (root : node) : list Z :=
  let st := enc_all (node_toks root) in
  flat_map (be_bytes 4) (header_words (Z.of_nat (length st)) (Z.of_nat (length strs))) ++ replicate 16 0 ++ st ++ strs.

(** Names are strings, and those of properties are in the strings block. *)
Definition tok_wf (strs : list Z) (t : tok) : Prop :=
  match t with
  | TBegin name => Forall chr name
  | TProp nameoff pname data => Forall (uint 8) data /\ Forall chr pname /\ 0 <= nameoff /\ take (S (length pname)) (drop (Z.to_nat nameoff) strs) = pname ++ [0]
  | _ => True
  end.

#[export] Instance chr_dec c : Decision (chr c).
Proof. unfold chr. apply _. Defined.

#[export] Instance tok_wf_dec strs t : Decision (tok_wf strs t).
Proof. destruct t; cbn; apply _. Defined.

Record tree_wf (strs : list Z) (root : node) : Prop := {
  tw_toks : Forall (tok_wf strs) (node_toks root);
  tw_size : Z.of_nat (length (flatten strs root)) <= INT_MAX - 4
}.

Section flat.
Context (strs : list Z) (root : node) (Hwf : tree_wf strs root).

Abbreviation st := (enc_all (node_toks root)).
Abbreviation bytes := (flatten strs root).

(** The blocks that the header describes. *)
Definition flat_layout : layout :=
  let ss := Z.of_nat (length st) in
  let off := HEADER_SIZE + RSVMAP_SIZE in
  Layout (off + ss + Z.of_nat (length strs)) off (off + ss) 17 16 (Z.of_nat (length strs)) ss.

Lemma flat_words_length l : length (flat_map (be_bytes 4) l) = (4 * length l)%nat.
Proof. induction l as [|v l IH]; [done|]. cbn [flat_map length]. rewrite length_app, be_bytes_length, IH. lia. Qed.

Lemma flatten_length : Z.of_nat (length bytes) = l_total flat_layout.
Proof.
  unfold flatten. rewrite !length_app, flat_words_length, length_replicate. cbn [length header_words flat_layout l_total]. unfold HEADER_SIZE, RSVMAP_SIZE. lia.
Qed.

(** A word of a list of words. *)
Lemma word_at l post i v : l !! i = Some v -> Fdt.fdt32_ld (blob_of (flat_map (be_bytes 4) l ++ post)) (4 * Z.of_nat i) = Ret (u32 v).
Proof.
  intros H. pose proof (lookup_lt_Some _ _ _ H). rewrite <- (take_drop_middle l i v H). rewrite flat_map_app. cbn [flat_map]. rewrite <- !app_assoc.
  apply (fdt32_ld_has _ _ _ []). rewrite app_nil_r.
  pose proof (blob_has (flat_map (be_bytes 4) (take i l)) (be_bytes 4 v) (flat_map (be_bytes 4) (drop (S i) l) ++ post)) as Hh.
  rewrite flat_words_length, length_take_le, Nat2Z.inj_mul in Hh by lia. exact Hh.
Qed.

Lemma header_at i v : header_words (Z.of_nat (length st)) (Z.of_nat (length strs)) !! i = Some v -> uint 32 v -> Fdt.fdt32_ld (blob_of bytes) (4 * Z.of_nat i) = Ret v.
Proof. intros H Hv. unfold flatten. rewrite (word_at _ _ _ _ H). f_equal. by apply wrap_small. Qed.

Lemma flat_sizes : 0 <= Z.of_nat (length st) /\ 0 <= Z.of_nat (length strs) /\ HEADER_SIZE + RSVMAP_SIZE + Z.of_nat (length st) + Z.of_nat (length strs) <= INT_MAX - 4.
Proof. pose proof (tw_size _ _ Hwf) as H. rewrite flatten_length in H. cbn [flat_layout l_total] in H. lia. Qed.

Lemma flat_laid_out : laid_out (blob_of bytes) flat_layout.
Proof.
  pose proof flat_sizes as H. unfold HEADER_SIZE, RSVMAP_SIZE, INT_MAX in H.
  split; [apply (header_at 0)|apply (header_at 1)|apply (header_at 2)|apply (header_at 3)|apply (header_at 5)|apply (header_at 6)|apply (header_at 8)|apply (header_at 9)|..];
    try reflexivity; cbn [flat_layout l_total l_struct l_strings l_version l_last l_size_strings l_size_struct]; unfold uint, HEADER_SIZE, RSVMAP_SIZE, FDT_MAGIC, INT_MAX; lia.
Qed.

Lemma flat_header : Fdt.fdt_check_header (blob_of bytes) = Ret 0.
Proof.
  pose proof flat_sizes as H. pose proof flat_laid_out as HL. unfold Fdt.fdt_check_header. rewrite (lo_magic _ _ HL), (lo_version _ _ HL), (lo_last _ _ HL), (lo_total _ _ HL).
  cbn [mbind run_bind]. change (FDT_MAGIC =? FDT_MAGIC) with true. cbn [negb flat_layout l_version l_last l_total].
  change ((17 <? _) || (_ <? 16)) with false. change (17 <? 16) with false. change (fdt_header_size_ 17) with HEADER_SIZE. cbv iota.
  assert (Fdt.fdt_off_mem_rsvmap (blob_of bytes) = Ret HEADER_SIZE) as -> by (by apply (header_at 4)). rewrite (lo_struct _ _ HL), (lo_strings _ _ HL), (lo_size_struct _ _ HL), (lo_size_strings _ _ HL).
  cbn [mbind run_bind flat_layout l_struct l_strings l_size_strings l_size_struct]. change (17 <? 17) with false. cbv iota. unfold check_block_, check_off_. unfold HEADER_SIZE, RSVMAP_SIZE, INT_MAX in *.
  rewrite !(wrap_small 32) by lia. repeat case_match; rewrite ?orb_true_iff, ?andb_true_iff, ?negb_true_iff, ?andb_false_iff, ?Z.leb_gt, ?Z.ltb_lt in *; try done; lia.
Qed.

(** The structure block holds the tokens, and the tree is at offset 0. *)
Lemma flat_struct : has (blob_of bytes) (l_struct flat_layout) st.
Proof.
  unfold flatten. rewrite app_assoc. pose proof (blob_has (flat_map (be_bytes 4) (header_words (Z.of_nat (length st)) (Z.of_nat (length strs))) ++ replicate 16 0) st strs) as H.
  rewrite length_app, flat_words_length, length_replicate in H. exact H.
Qed.

Lemma flat_strings : has (blob_of bytes) (l_strings flat_layout) strs.
Proof.
  unfold flatten. pose proof (blob_has ((flat_map (be_bytes 4) (header_words (Z.of_nat (length st)) (Z.of_nat (length strs))) ++ replicate 16 0) ++ st) strs []) as H.
  rewrite app_nil_r, <- !app_assoc in H. rewrite !length_app, flat_words_length, length_replicate in H. cbn [flat_layout l_strings]. unfold HEADER_SIZE, RSVMAP_SIZE.
  cbn [length header_words] in H. by replace (40 + 16 + Z.of_nat (length st)) with (Z.of_nat (4 * 10 + (16 + length st))) by lia.
Qed.

Lemma str_in_strings nameoff s : 0 <= nameoff -> take (S (length s)) (drop (Z.to_nat nameoff) strs) = s ++ [0] -> str_at (blob_of bytes) flat_layout nameoff s.
Proof.
  intros Ho E. pose proof (f_equal length E) as El. rewrite length_take, length_drop, length_app in El. cbn [length] in El.
  split; [done|]. split; [|cbn [flat_layout l_strings l_total l_size_strings]; lia]. intros i b Hi. rewrite <- E in Hi. apply lookup_take_Some in Hi as [Hi _]. rewrite lookup_drop in Hi.
  apply flat_strings in Hi. rewrite <- Hi. f_equal. lia.
Qed.

Lemma flat_at_node : at_node (blob_of bytes) flat_layout 0 root.
Proof.
  exists []. rewrite app_nil_r. split; [done|]. split; [rewrite Z.add_0_r; apply flat_struct|]. split.
  - unfold inside. cbn [flat_layout l_struct l_total l_size_struct l_version]. lia.
  - eapply Forall_impl; [apply (tw_toks _ _ Hwf)|]. intros [name| |nameoff pname data|]; try done. cbn. intros (Hd & Hp & Ho & E). split; [done|]. split; [done|]. by apply str_in_strings.
Qed.
End flat.

(** ** In memory *)

Definition mem_of (p : Z) (bytes : list Z) : mem := fun a => default 0 (blob_of bytes (a - p)).

Lemma blob_at_mem p bytes : blob_at (Z.of_nat (length bytes)) (mem_of p bytes) p = blob_of bytes.
Proof.
  apply fn_ext. intros a. unfold blob_at, mem_of. replace (p + a - p) with a by lia. unfold blob_of. destruct (Z.ltb_spec a 0).
  - by rewrite (proj2 (in_range_false _ _ _)) by lia.
  - destruct (in_range a 0 _) eqn:E; [apply in_range_true in E|apply in_range_false in E].
    + destruct (lookup_lt_is_Some_2 bytes (Z.to_nat a)) as [b ->]; [lia|done].
    + symmetry. apply lookup_ge_None. lia.
Qed.

(** ** An example *)

Definition chars (s : string) : list Z := map (fun c => Z.of_N (Ascii.N_of_ascii c)) (String.list_ascii_of_string s).

Definition board_strs : list Z := flat_map (fun s => s ++ [0]) [str_address_cells; str_size_cells; str_bootargs; str_device_type; str_reg].

Definition board_memory : node :=
  Node (chars "memory@80000000") [IProp 36 str_device_type (str_memory ++ [0]); IProp 48 str_reg (be_bytes 8 0x80000000 ++ be_bytes 8 0x08000000)].

Definition board_uart : node := Node (chars "uart@10000000") [IProp 48 str_reg (be_bytes 4 0x10000000 ++ be_bytes 4 0x100)].

Definition board_soc : node := Node (chars "soc") [IProp 0 str_address_cells (be_bytes 4 1); INop; ISub board_uart].

Definition board : node :=
  Node [] [IProp 0 str_address_cells (be_bytes 4 2); IProp 15 str_size_cells (be_bytes 4 2); ISub (Node str_chosen [IProp 27 str_bootargs (chars "quiet" ++ [0])]); ISub board_memory; ISub board_soc].

Lemma board_length : length (flatten board_strs board) = 340%nat.
Proof. by vm_compute. Qed.

Lemma board_wf : tree_wf board_strs board.
Proof.
  split.
  - apply (bool_decide_unpack _). by vm_compute.
  - rewrite board_length. by vm_compute.
Qed.

Definition board_state : of_state := OfState (mem_of 0x1000 (flatten board_strs board)) 0x1000 0 0 memblock_init.

Lemma board_blob : blob 340 board_state = blob_of (flatten board_strs board).
Proof. unfold blob, board_state. cbn [os_mem initial_boot_params]. rewrite <- (blob_at_mem 0x1000). by rewrite board_length. Qed.
