(* ===== verification/DeviceTree.v ===== *)
(** Parents in a flattened tree: the library finds the parent of a node by a walk
    from the root; and the cell counts that the kernel takes from the ancestors of a
    device. *)

From stdpp Require Import list.
From S2P Require Import Prelude Cstring Bytes Memblock Unaligned Fdt FdtRo FdtTree FdtLookup Of OfProps FdtBuild.

(** ** The order of the nodes *)

Lemma visits_ge ts : forall o d v, v ∈ visits o d ts -> o <= v.1.1.
Proof.
  induction ts as [|t ts IH]; intros o d v Hv; [by apply not_elem_of_nil in Hv|]. pose proof (tsize_ge t). destruct t; cbn [visits] in Hv.
  - apply elem_of_cons in Hv as [->|Hv]; [done|]. apply IH in Hv. lia.
  - destruct (_ <? _); [by apply not_elem_of_nil in Hv|]. apply IH in Hv. lia.
  - apply IH in Hv. lia.
  - apply IH in Hv. lia.
Qed.

Lemma visits_increase ts : forall o d l1 v l3, visits o d ts = l1 ++ v :: l3 -> Forall (fun w => w.1.1 < v.1.1) l1.
Proof.
  induction ts as [|t ts IH]; intros o d l1 v l3 E; [by destruct l1|]. destruct t as [name| | |]; cbn [visits] in E; [|destruct (_ <? _); [by destruct l1|]; by eapply IH|by eapply IH..].
  destruct l1 as [|w l1]; [constructor|]. injection E as <- E. constructor; [|by eapply IH]. cbn. pose proof (tsize_ge (TBegin name)).
  assert (v ∈ visits (o + tsize (TBegin name)) (d + 1) ts) as Hv by (rewrite E; set_solver). apply visits_ge in Hv. lia.
Qed.

(** ** Children *)

Definition child (o : Z) (n : node) (o' : Z) (n' : node) : Prop :=
  exists pre post, node_items n = pre ++ ISub n' :: post /\ o' = items_at o n + tsizes (flat_map item_toks pre).

(** The nodes of the tree with their offset and depth. *)
Inductive reach (root : node) : Z -> Z -> node -> Prop :=
| reach_root : reach root 0 0 root
| reach_child o d n o' n' : reach root o d n -> child o n o' n' -> reach root o' (d + 1) n'.

Lemma sub_preorder_app items items' : forall o d, sub_preorder o d (items ++ items') = sub_preorder o d items ++ sub_preorder (o + tsizes (flat_map item_toks items)) d items'.
Proof.
  induction items as [|i items IH]; intros o d; cbn [app sub_preorder flat_map]; [by rewrite Z.add_0_r|]. by rewrite IH, tsizes_app, app_assoc, Z.add_assoc.
Qed.

Lemma child_preorder o d n o' n' : child o n o' n' ->
  exists l2 l3, preorder o d n = (o, d, n) :: l2 ++ preorder o' (d + 1) n' ++ l3 /\ Forall (fun v => d + 1 <= v.1.2) l2.
Proof.
  intros (pre & post & E & ->). destruct n as [name items]. cbn [node_items items_at] in *. subst items. rewrite preorder_eq, sub_preorder_app. cbn [sub_preorder].
  eexists _, _. split; [done|]. apply Forall_forall. intros v Hv. by eapply sub_preorder_depth.
Qed.

Lemma reach_split root o d n : reach root o d n -> exists l1 l3, preorder 0 0 root = l1 ++ preorder o d n ++ l3.
Proof.
  induction 1 as [|o d n o' n' _ (l1 & l3 & E) Hc]; [exists [], []; by rewrite app_nil_r|]. destruct (child_preorder _ d _ _ _ Hc) as (l2 & l3' & E' & _). rewrite E, E'.
  exists (l1 ++ (o, d, n) :: l2), (l3' ++ l3). rewrite <- app_comm_cons, <- !app_assoc. done.
Qed.

Lemma reach_depth root o d n : reach root o d n -> 0 <= d.
Proof. induction 1; lia. Qed.

(** ** The walk *)

(** The ancestor at depth [sd] of the node at [target], on the nodes in order. *)
Fixpoint super (l : list (Z * Z * list Z)) (target sd so : Z) : Z * option Z :=
  match l with
  | [] => (- FDT_ERR_BADOFFSET, None)
  | (o, d, _) :: l =>
      let so := if d =? sd then o else so in
      if o =? target then if d <? sd then (- FDT_ERR_NOTFOUND, Some d) else (so, Some d) else super l target sd so
  end.

Lemma super_split l1 target d name l3 sd : forall so, Forall (fun w => w.1.1 < target) l1 ->
  super (l1 ++ (target, d, name) :: l3) target sd so =
    let so := if d =? sd then target else foldl (fun so v => if v.1.2 =? sd then v.1.1 else so) so l1 in
    if d <? sd then (- FDT_ERR_NOTFOUND, Some d) else (so, Some d).
Proof.
  induction l1 as [|[[o d'] name'] l1 IH]; intros so Hl; cbn [app super foldl fst snd]; [by rewrite Z.eqb_refl|]. apply Forall_cons in Hl as [Ho Hl]. cbn in Ho.
  rewrite (proj2 (Z.eqb_neq o target)) by lia. by apply IH.
Qed.

Section walk.
Context (B : Z -> option Z) (fuel : nat) (L : layout) (HL : laid_out B L) (Hfuel : l_total L < Z.of_nat fuel).

Lemma supernode_from_ok target sd : forall n o d name ts so, at_toks B L o (TBegin name :: ts) -> depth_ok d ts -> 0 <= d -> (length ts + 1 < n)%nat ->
  target ∈ (fun v => v.1.1) <$> (o, d, name) :: visits (o + tsize (TBegin name)) d ts ->
  supernode_from B fuel n o d target sd so = Ret (super ((o, d, name) :: visits (o + tsize (TBegin name)) d ts) target sd so).
Proof.
  induction n as [|n IH]; intros o d name ts so Hat Hd H0 Hn Hin; [lia|]. cbn [supernode_from super]. pose proof (toks_total _ _ HL _ _ Hat) as [Ho _]. pose proof (tsize_ge (TBegin name)).
  rewrite (proj2 (Z.leb_le 0 o)) by lia. cbn [andb]. cbn [fmap list_fmap fst] in Hin. destruct (Z.eqb_spec o target) as [->|Hne]; [rewrite Z.leb_refl; by repeat case_match|].
  apply elem_of_cons in Hin as [->|Hin]; [done|]. pose proof Hin as (v & -> & Hv)%list_elem_of_fmap. apply visits_ge in Hv. rewrite (proj2 (Z.leb_le o _)) by lia.
  rewrite (next_node_ok _ _ _ HL Hfuel _ _ _ _ Hat Hd). cbn [mbind run_bind]. pose proof (at_toks_next _ _ _ _ _ Hat) as Hat'. rewrite visits_seek in Hin |- * by done.
  destruct (seek _ d ts) as [[[[o' d'] name'] ts']|[r d']] eqn:Es; cbn [seek_result from_option id]; [|by apply not_elem_of_nil in Hin].
  destruct (seek_next _ _ _ _ _ _ _ _ _ Hat' Hd Es) as (Hat'' & Hd' & Hl'). assert (0 <= d') by (eapply (seek_depth ts _ d); eassumption). apply IH; [done|done|lia|lia|done].
Qed.

Context (root : node) (Hroot : at_node B L 0 root).

Lemma supernode_ok target d name l1 l3 sd : 0 <= sd -> map visit_of (preorder 0 0 root) = l1 ++ (target, d, name) :: l3 ->
  fdt_supernode_atdepth_offset B fuel target sd = Ret (super (l1 ++ (target, d, name) :: l3) target sd (- FDT_ERR_INTERNAL)).
Proof.
  intros Hsd E. destruct Hroot as [ts Hat]. unfold fdt_supernode_atdepth_offset. rewrite (probe_ok _ _ HL). cbn [mbind run_bind Z.eqb negb]. rewrite (proj2 (Z.ltb_ge sd 0)) by done.
  pose proof (toks_total _ _ HL _ _ Hat) as [_ Ht]. pose proof (lo_range _ _ HL) as (_ & _ & Hm). unfold INT_MAX in Hm.
  assert (target ∈ (fun v => v.1.1) <$> map visit_of (preorder 0 0 root)) as Hin by (rewrite E, fmap_app; cbn; set_solver). rewrite <- E. clear E.
  rewrite <- (visits_root root ts) in Hin |- *. destruct root as [rname items]. cbn [node_toks app] in *. rewrite <- app_assoc in *. cbn [length visits] in *.
  apply supernode_from_ok; [done|unfold depth_ok; lia|lia|lia|done].
Qed.

Lemma reach_visits o d n : reach root o d n -> exists l1 l3, map visit_of (preorder 0 0 root) = l1 ++ (o, d, node_name n) :: l3 /\ Forall (fun w => w.1.1 < o) l1.
Proof.
  intros (l1 & l3 & E)%reach_split. destruct n as [name items]. rewrite preorder_eq in E. apply (f_equal (map visit_of)) in E. rewrite !map_app in E. cbn [map app visit_of fst snd node_name] in E.
  eexists _, _. split; [exact E|]. rewrite <- (visits_root root []) in E. by apply visits_increase in E.
Qed.

Lemma node_depth_ok o d n : reach root o d n -> fdt_node_depth B fuel o = Ret d.
Proof.
  intros Hr. pose proof (reach_depth _ _ _ _ Hr) as Hd. destruct (reach_visits _ _ _ Hr) as (l1 & l3 & E & Hl). unfold fdt_node_depth. rewrite (supernode_ok _ _ _ _ _ 0 ltac:(done) E), super_split by done.
  cbv zeta. rewrite (proj2 (Z.ltb_ge d 0)) by done. cbn [mbind run_bind].
  replace (if d =? 0 then o else _) with 0; [done|]. destruct root as [rname items]. rewrite preorder_eq in E. cbn [map visit_of fst snd node_name] in E. destruct l1 as [|v l1].
  - injection E as <- <- _ _. done.
  - injection E as <- E. cbn [foldl fst snd Z.eqb]. assert (Forall (fun w => 1 <= w.1.2) (l1 ++ (o, d, node_name n) :: l3)) as Hall.
    { rewrite <- E. apply Forall_map, Forall_forall. intros v Hv%sub_preorder_depth. cbn. lia. }
    apply Forall_app in Hall as [Hl1 [Hd' _]%Forall_cons]. cbn in Hd'. rewrite (proj2 (Z.eqb_neq d 0)) by lia. clear E Hl. induction Hl1 as [|w l1 Hw _ IH]; [done|]. cbn [foldl].
    by rewrite (proj2 (Z.eqb_neq w.1.2 0)) by lia.
Qed.

Lemma parent_root : fdt_parent_offset B fuel 0 = Ret (- FDT_ERR_NOTFOUND).
Proof. unfold fdt_parent_offset. rewrite (node_depth_ok 0 0 root) by constructor. cbn [mbind run_bind Z.ltb Z.compare]. unfold fdt_supernode_atdepth_offset. by rewrite (probe_ok _ _ HL). Qed.

Lemma parent_ok o d n o' n' : reach root o d n -> child o n o' n' -> fdt_parent_offset B fuel o' = Ret o.
Proof.
  intros Hr Hc. pose proof (reach_depth _ _ _ _ Hr) as Hd. unfold fdt_parent_offset. rewrite (node_depth_ok o' (d + 1) n') by (by econstructor). cbn [mbind run_bind].
  rewrite (proj2 (Z.ltb_ge (d + 1) 0)) by lia. replace (d + 1 - 1) with d by lia.
  destruct (reach_split _ _ _ _ Hr) as (l1 & l3 & E). destruct (child_preorder _ d _ _ _ Hc) as (l2 & l4 & E2 & Hl2). rewrite E2 in E. destruct n' as [name items]. rewrite preorder_eq in E.
  apply (f_equal (map visit_of)) in E. rewrite <- !app_comm_cons, <- !app_assoc, <- app_comm_cons, app_comm_cons, app_assoc, map_app in E. cbn [map visit_of fst snd node_name] in E.
  rewrite (supernode_ok o' (d + 1) name _ _ d Hd E), super_split. 2: { rewrite <- (visits_root root []) in E. by apply visits_increase in E. }
  cbv zeta. rewrite (proj2 (Z.eqb_neq (d + 1) d)), (proj2 (Z.ltb_ge (d + 1) d)) by lia. rewrite map_app, foldl_app. cbn [map foldl visit_of fst snd mbind run_bind]. rewrite Z.eqb_refl. f_equal.
  clear E E2. induction Hl2 as [|v l2 Hv _ IH]; [done|]. cbn [map foldl visit_of fst snd]. by rewrite (proj2 (Z.eqb_neq v.1.2 d)) by lia.
Qed.
End walk.

(** ** Cell counts *)

(** The nodes from the one at [o] up to the child of the root. *)
Inductive line (root : node) : Z -> list node -> Prop :=
| line_top o n : child 0 root o n -> line root o [n]
| line_below o n l o' n' : line root o (n :: l) -> child o n o' n' -> line root o' (n' :: n :: l).

(** The count in the first of the nodes that has one. *)
Fixpoint first_cell (name : list Z) (dflt : Z) (l : list node) : Z :=
  match l with
  | [] => dflt
  | n :: l => match value name n with Some data => s32 (be_value data) | None => first_cell name dflt l end
  end.

(** A device uses the count of the nearest node above it, and the child of the root
    its own. *)
Definition cells_above (name : list Z) (dflt : Z) (l : list node) : Z :=
  match l with
  | [n] => first_cell name dflt [n]
  | l => first_cell name dflt (tail l)
  end.

Lemma tsizes_nonneg ts : 0 <= tsizes ts.
Proof. induction ts as [|t ts IH]; cbn; [done|]. pose proof (tsize_ge t). lia. Qed.

Lemma child_offset o n o' n' : child o n o' n' -> o + 4 <= o'.
Proof.
  intros (pre & post & _ & ->). pose proof (tsizes_nonneg (flat_map item_toks pre)). destruct n as [name items]. cbn [items_at]. pose proof (tsize_ge (TBegin name)). lia.
Qed.

Lemma line_reach root o l : line root o l -> exists d n l', l = n :: l' /\ reach root o d n /\ 4 * Z.of_nat (length l) <= o.
Proof.
  induction 1 as [o n Hc|o n l o' n' _ (d & n0 & l' & [= <- <-] & Hr & Ho) Hc]; pose proof (child_offset _ _ _ _ Hc).
  - exists (0 + 1), n, []. split_and!; [done|by econstructor; [constructor|]|cbn; lia].
  - exists (d + 1), n', (n :: l). split_and!; [done|by econstructor|cbn [length] in *; lia].
Qed.

Section cells.
Context (blob_size : Z) (fuel : nat) (L : layout) (root : node) (s : of_state).
Context (HL : laid_out (blob blob_size s) L) (Hfuel : l_total L < Z.of_nat fuel) (Hroot : at_node (blob blob_size s) L 0 root).

Lemma reach_at o d n : reach root o d n -> at_node (blob blob_size s) L o n.
Proof.
  clear HL Hfuel fuel. intros (l1 & l3 & E)%reach_split. apply (preorder_at L (blob blob_size s) root 0 0 (o, d, n)); [done|]. rewrite E. destruct n as [name items]. rewrite preorder_eq. set_solver.
Qed.

Lemma read_u32_ok o n name : at_node (blob blob_size s) L o n -> cell_ok name n -> of_property_read_u32 blob_size fuel s o name =
  Ret (match value name n with Some data => (0, be_value data) | None => (- FDT_ERR_NOTFOUND, 0) end).
Proof.
  intros Hn Hc. unfold of_property_read_u32, of_get_property. pose proof (getprop_value _ _ _ HL Hfuel o n name Hn) as H. destruct (value name n) as [data|] eqn:E; [|by rewrite H].
  destruct H as (p & -> & Hh & Hu & _). cbn [mbind run_bind]. by rewrite (fdt32_value _ _ _ Hh Hu (Hc _ E)).
Qed.

Lemma n_cells_ok name dflt o l : line root o l -> Forall (cell_ok name) l -> forall k, (length l < k)%nat -> n_cells blob_size fuel k s o name dflt = Ret (cells_above name dflt l).
Proof.
  induction 1 as [o n Hc|o n l o' n' Hl IH Hc]; intros Hok [|k] Hk; try (cbn in Hk; lia); cbn [n_cells]; unfold get_parent.
  - rewrite (parent_ok _ _ _ HL Hfuel root Hroot 0 0 root o n) by (done || constructor). cbn [mbind run_bind]. change (__node 0 =? 0) with true. cbn [negb].
    rewrite (read_u32_ok o n) by (try by apply Forall_cons in Hok as [? _]; try (eapply reach_at, reach_child; [constructor|done])). cbn [mbind run_bind cells_above first_cell].
    by destruct (value name n).
  - destruct (line_reach _ _ _ Hl) as (d & n0 & l' & [= <- <-] & Hr & Ho). rewrite (parent_ok _ _ _ HL Hfuel root Hroot _ _ _ _ _ Hr Hc). cbn [mbind run_bind length] in *.
    assert (__node o = o) as -> by (unfold __node; by rewrite (proj2 (Z.leb_gt o 0)) by lia). rewrite (proj2 (Z.eqb_neq o 0)) by lia. cbn [negb]. apply Forall_cons in Hok as [_ Hok].
    rewrite (read_u32_ok o n) by (first [by eapply reach_at|by apply Forall_cons in Hok as [? _]]). cbn [mbind run_bind cells_above tail first_cell].
    destruct (value name n) as [data|] eqn:E; cbn [Z.eqb]; [done|]. rewrite IH by (done || cbn [length] in *; lia). unfold cells_above. cbn [tail first_cell]. destruct l; cbn [first_cell]; by rewrite ?E.
Qed.
End cells.

(** * Lookups in any tree, from its flattened form: paths, properties, parents and the
    cell counts of a device. *)

(** ** Paths lead to nodes of the tree *)

Lemma find_sub_child s o n : forall o' n', find_sub s (items_at o n) (node_items n) = Some (o', n') -> child o n o' n'.
Proof.
  intros o' n' E. unfold child. generalize dependent (items_at o n). generalize (node_items n). clear. induction l as [|i l IH]; intros o E; [done|].
  destruct i as [nameoff pname data| |[name its]]; cbn [find_sub] in E.
  1-2: apply IH in E as (pre & post & -> & ->); eexists (_ :: pre), post; split; [done|]; cbn [flat_map]; by rewrite tsizes_app, Z.add_assoc.
  destruct (name_matches name s).
  - injection E as <- <-. exists [], l. split; [done|]. cbn. by rewrite Z.add_0_r.
  - apply IH in E as (pre & post & -> & ->). eexists (_ :: pre), post. split; [done|]. cbn [flat_map]. by rewrite tsizes_app, Z.add_assoc.
Qed.

Lemma find_path_reach root comps : forall o d n o' n', reach root o d n -> find_path comps o n = Some (o', n') -> exists d', reach root o' d' n'.
Proof.
  induction comps as [|s comps IH]; intros o d n o' n' Hr E; cbn [find_path] in E; [injection E as <- <-; eauto|].
  destruct (find_sub s _ _) as [[o1 n1]|] eqn:E1; [|done]. eapply (IH o1 (d + 1) n1); [|done]. econstructor; [done|]. by eapply find_sub_child.
Qed.

(** C26: lookups against the tree. A tree in the flattened form is accepted; an
    absolute path, with any number of slashes, leads to the node that its components
    lead to in the tree, or to none; a property of the node is found with its length
    and its bytes, if the node has it; and the parent of each child of the node is
    the node. *)
Theorem device_tree_lookup strs root fuel comps trail s : tree_wf strs root -> (length (flatten strs root) < fuel)%nat -> Forall comp_ok comps ->
  (0 < length comps + trail)%nat -> (length comps < fuel)%nat ->
  let B := blob_of (flatten strs root) in
  Fdt.fdt_check_header B = Ret 0 /\
  match find_path (snd <$> comps) 0 root with
  | None => fdt_path_offset B fuel (path_chars comps trail) = Ret (- FDT_ERR_NOTFOUND)
  | Some (o, n) =>
      fdt_path_offset B fuel (path_chars comps trail) = Ret o /\
      match value s n with
      | None => fdt_getprop B fuel o s = Ret (inr (- FDT_ERR_NOTFOUND))
      | Some data => exists p, fdt_getprop B fuel o s = Ret (inl (p, Z.of_nat (length data))) /\ has B p data
      end /\
      forall o' n', child o n o' n' -> fdt_parent_offset B fuel o' = Ret o
  end.
Proof.
  intros Hwf Hf Hc Hlen Hcf B. split; [by apply flat_header|]. pose proof (flat_laid_out _ _ Hwf) as HL. pose proof (flat_at_node _ _ Hwf) as Hroot.
  assert (l_total (flat_layout strs root) < Z.of_nat fuel) as Hf' by (rewrite <- flatten_length; lia).
  pose proof (path_offset_ok _ _ _ HL Hf' comps trail root Hroot Hc Hlen Hcf) as Hp. destruct (find_path _ 0 root) as [[o n]|] eqn:E; [|exact Hp].
  destruct (find_path_reach root _ 0 0 root o n (reach_root _) E) as [d Hr]. split; [exact Hp|]. split; [|intros o' n' Hch; exact (parent_ok _ _ _ HL Hf' root Hroot _ _ _ _ _ Hr Hch)].
  destruct (reach_split _ _ _ _ Hr) as (l1 & l3 & El). assert (at_node B (flat_layout strs root) o n) as Hn.
  { apply (preorder_at _ B root 0 0 (o, d, n)); [exact Hroot|]. rewrite El. destruct n as [name items]. rewrite preorder_eq. set_solver. }
  pose proof (getprop_value _ _ _ HL Hf' o n s Hn) as H. destruct (value s n); [|exact H]. destruct H as (p & E' & Hh & _). by exists p.
Qed.

(** C37: the cell counts of a device. of_n_addr_cells and of_n_size_cells return the
    count in the nearest ancestor that has one, among those strictly between the
    device and the root, and else the default; for a child of the root the count in
    the child itself. The root is never read: its offset is 0, which the file takes
    for no node. *)
Theorem device_cells blob_size fuel L root s o l : laid_out (blob blob_size s) L -> l_total L < Z.of_nat fuel -> at_node (blob blob_size s) L 0 root ->
  line root o l -> Forall (fun n => cell_ok str_address_cells n /\ cell_ok str_size_cells n) l ->
  of_n_addr_cells blob_size fuel s o = Ret (cells_above str_address_cells 2 l) /\ of_n_size_cells blob_size fuel s o = Ret (cells_above str_size_cells 1 l).
Proof.
  intros HL Hf Hr Hl Hc. destruct (line_reach _ _ _ Hl) as (d & n & l' & -> & Hn & Ho). pose proof (reach_at blob_size L root s Hr _ _ _ Hn) as [ts Hat].
  pose proof (toks_total _ _ HL _ _ Hat) as [_ Ht]. pose proof (lo_range _ _ HL) as (Hs & _).
  split; (eapply n_cells_ok; [done..| |cbn [length] in *; lia]); (eapply Forall_impl; [exact Hc|]); by intros n0 [? ?].
Qed.

(** The count that the root gives to its children, against what the kernel returns for
    a child without a count of its own. *)
Theorem root_size_cells_ignored : cell_of str_size_cells OF_ROOT_NODE_SIZE_CELLS_DEFAULT board = 2 /\ of_n_size_cells 340 1000 board_state 76 = Ret 1.
Proof. by vm_compute. Qed.

(** An alias that names itself: the lookup of any path through it calls itself without
    end. *)
Theorem alias_loop fdt fuel L root o n a : laid_out fdt L -> l_total L < Z.of_nat fuel -> at_node fdt L 0 root -> find_path [tail str_aliases] 0 root = Some (o, n) ->
  a <> [] -> Forall chr a -> chr_slash ∉ a -> value a n = Some (a ++ [0]) -> fdt_path_offset fdt fuel a = Spin.
Proof.
  intros HL Hf Hr Hp Ha Hc Hs Hv. unfold fdt_path_offset. generalize fuel at 2. intros k. induction k as [|k IH]; [done|]. cbn [path_offset_from]. unfold probed. rewrite (probe_ok _ _ HL).
  cbn [mbind run_bind Z.eqb negb]. rewrite bool_decide_false by (destruct a as [|c a]; [done|]; cbn; intros [= ->]; apply Hs; by left). cbn [negb].
  assert (span (fun c => negb (is_slash c)) a = (a, [])) as ->.
  { rewrite <- (app_nil_r a) at 1. apply span_all; [|done]. apply Forall_forall. intros c Hin. unfold is_slash. rewrite (proj2 (Z.eqb_neq c chr_slash)); [done|]. by intros ->. }
  assert (at_node fdt L o n) as Hn.
  { cbn [find_path] in Hp. destruct (find_sub _ _ _) as [[o' n']|] eqn:E; [|done]. injection Hp as <- <-. by eapply find_sub_node. }
  pose proof Hr as [ts Hat]. pose proof (toks_total _ _ HL _ _ Hat) as [_ Ht]. pose proof (lo_range _ _ HL) as (Hs0 & _).
  assert (fdt_get_alias_namelen fdt fuel a = p ← fdt_getprop fdt fuel o a; match p with inl (p, _) => Ret (Some p) | inr _ => Ret None end) as ->.
  { unfold fdt_get_alias_namelen, probed. rewrite (probe_ok _ _ HL). cbn [mbind run_bind Z.eqb negb]. change str_aliases with (path_chars [(0%nat, tail str_aliases)] 0).
    rewrite (walk_path_ok _ _ _ HL Hf _ _) with (n := root); [|repeat constructor; [done|]; apply (bool_decide_unpack _); by vm_compute|done|cbn [length]; lia].
    cbn [fmap list_fmap snd]. rewrite Hp. cbn [fmap option_fmap option_map fst from_option id mbind run_bind]. destruct Hn as [ts' Hat']. pose proof (toks_total _ _ HL _ _ Hat') as [? _].
    by rewrite (proj2 (Z.ltb_ge o 0)) by lia. }
  pose proof (getprop_value _ _ _ HL Hf o n a Hn) as H. rewrite Hv in H. destruct H as (p & -> & Hh & _ & H0 & Hl). cbn [mbind run_bind].
  rewrite (read_string_has _ _ Hc _ _ Hh) by (rewrite length_app in Hl; cbn [length] in Hl; lia). cbn [mbind run_bind]. by rewrite IH.
Qed.

(** A copy of the tree is the tree, also when the copy overlaps it. *)
Lemma dt_move_ok blob_size L s buf size : laid_out (blob blob_size s) L -> 0 <= l_total L <= blob_size -> size = l_total L ->
  exists s', of_dt_move blob_size buf size s = Ret s' /\ blob_at (l_total L) (os_mem s') buf = blob (l_total L) s /\
    forall a, in_range a buf size = false -> os_mem s' a = os_mem s a.
Proof.
  intros HL Ht ->. pose proof (lo_range _ _ HL) as (_ & _ & Hm). unfold INT_MAX in Hm. unfold of_dt_move, fdt_move, blob in *. rewrite (probe_ok _ _ HL), (lo_total _ _ HL).
  cbn [mbind run_bind Z.eqb negb]. rewrite sgn_small, (wrap_small 32) by lia. rewrite Z.ltb_irrefl. cbn [mbind run_bind Z.eqb negb]. eexists. split; [done|]. cbn [os_mem set_mem]. split.
  - apply fn_ext. intros a. unfold blob_at. destruct (in_range a 0 (l_total L)) eqn:E; [|done]. rewrite memmove_correct. apply in_range_true in E.
    rewrite (proj2 (in_range_true _ _ _)) by lia. do 2 f_equal. lia.
  - intros a Ha. by rewrite memmove_correct, Ha.
Qed.

(** ** Witnesses *)

(** /memory, with a slash too many. *)
Definition memory_path : list (nat * list Z) := [(0%nat, str_memory)].

Lemma device_tree_lookup_witness : exists o p, let B := blob_of (flatten board_strs board) in
  fdt_path_offset B 1000 (chr_slash :: str_memory ++ [chr_slash]) = Ret o /\ fdt_getprop B 1000 o str_reg = Ret (inl (p, 16)) /\ has B p (be_bytes 8 0x80000000 ++ be_bytes 8 0x08000000).
Proof.
  destruct (device_tree_lookup board_strs board 1000 memory_path 1 str_reg board_wf) as [_ H].
  { rewrite board_length. lia. }
  { repeat constructor; [done|]. apply (bool_decide_unpack _). by vm_compute. }
  1-2: cbn; lia.
  assert (find_path (snd <$> memory_path) 0 board = Some (76, board_memory)) as E by (by vm_compute). rewrite E in H. destruct H as (Ho & Hp & _).
  assert (value str_reg board_memory = Some (be_bytes 8 0x80000000 ++ be_bytes 8 0x08000000)) as E2 by (by vm_compute). rewrite E2 in Hp. destruct Hp as (p & Hp & Hh).
  exists 76, p. split; [exact Ho|]. split; [exact Hp|exact Hh].
Defined.

Lemma board_line : line board 176 [board_uart; board_soc].
Proof.
  apply (line_below _ 148 board_soc []).
  - constructor. eexists (take 4 (node_items board)), []. split; [done|]. by vm_compute.
  - eexists (take 2 (node_items board_soc)), []. split; [done|]. by vm_compute.
Qed.

Lemma device_cells_witness : of_n_addr_cells 340 1000 board_state 176 = Ret 1 /\ of_n_size_cells 340 1000 board_state 176 = Ret 1.
Proof.
  apply (device_cells 340 1000 (flat_layout board_strs board) board board_state 176 [board_uart; board_soc]).
  - rewrite board_blob. apply flat_laid_out, board_wf.
  - by vm_compute.
  - rewrite board_blob. apply flat_at_node, board_wf.
  - apply board_line.
  - apply Forall_cons; split; [|apply Forall_cons; split; [|constructor]]; (split; intros data E; vm_compute in E; by simplify_eq).
Defined.
