(* ===== verification/OfBoot.v ===== *)
(** From a device tree to the memory map: what early_init_dt_scan leaves in the boot
    memory allocator, for any well-formed tree. *)

From stdpp Require Import list.
From S2P Require Import Prelude Cstring Bytes Memblock MemblockProps Unaligned Strings Fdt FdtRo FdtTree FdtLookup Of OfProps FdtBuild.

(** strscpy writes to its buffer only. *)
Lemma strscpy_frame m dest src count a : mem_ok m -> 0 <= count -> 0 <= dest /\ dest + count <= 2 ^ 64 -> 0 <= src /\ src + count <= 2 ^ 64 ->
  dest + count <= src \/ src + count <= dest -> in_range a dest count = false -> fst (strscpy m dest src count) a = m a.
Proof.
  intros Hm H0 Hd Hs Hsep Ha. pose proof (strscpy_spec m dest src count Hm Hd Hs Hsep H0) as H. destruct (strscpy m dest src count) as [m' r].
  destruct H as [(_ & _ & _ & _ & _ & H)|(_ & _ & _ & _ & H)]; by apply H.
Qed.

Section boot.
Context (blob_size cmdline : Z) (fuel : nat).

(** A machine with the tree [root] at [params], apart from the buffer of the command
    line. *)
Record holds_tree (s : of_state) (params : Z) (L : layout) (root : node) : Prop := {
  ht_mem : mem_ok (os_mem s);
  ht_params : 0 < params /\ params + blob_size <= 2 ^ 64;
  ht_cmdline : 0 < cmdline /\ cmdline + COMMAND_LINE_SIZE <= 2 ^ 64;
  ht_apart : cmdline + COMMAND_LINE_SIZE <= params \/ params + blob_size <= cmdline;
  ht_laid_out : laid_out (blob_at blob_size (os_mem s) params) L;
  ht_total : l_total L <= blob_size;
  ht_fuel : l_total L < Z.of_nat fuel;
  ht_root : at_node (blob_at blob_size (os_mem s) params) L 0 root
}.

Section scan.
Context (s : of_state) (params : Z) (L : layout) (root : node) (Hs : holds_tree s params L root) (Hp : initial_boot_params s = params).

Abbreviation B := (blob_at blob_size (os_mem s) params).

(** Memory that is the same outside the command line. *)
Definition same_outside (m m' : mem) : Prop := forall a, in_range a cmdline COMMAND_LINE_SIZE = false -> m' a = m a.

Lemma blob_same m' : same_outside (os_mem s) m' -> blob blob_size (set_mem m' s) = B.
Proof.
  intros H. unfold blob, blob_at, set_mem. cbn [os_mem initial_boot_params]. rewrite Hp. apply fn_ext. intros a. destruct (in_range a 0 blob_size) eqn:E; [|done].
  apply in_range_true in E. rewrite H; [done|]. apply in_range_false. pose proof (ht_apart _ _ _ _ Hs). lia.
Qed.

Lemma scan_chosen_node o d name n : at_node B L o n -> exists rc m', early_init_dt_scan_chosen blob_size fuel cmdline o name d s = Ret (rc, set_mem m' s) /\
  same_outside (os_mem s) m' /\ (rc = 0 -> m' = os_mem s).
Proof.
  intros Hn. unfold early_init_dt_scan_chosen. destruct (_ || _); [exists 0, (os_mem s); by split_and!; [destruct s|..]|].
  assert (blob blob_size s = B) as -> by (unfold blob; by rewrite Hp).
  pose proof (getprop_value _ _ _ (ht_laid_out _ _ _ _ Hs) (ht_fuel _ _ _ _ Hs) o n str_bootargs Hn) as Hv. destruct (value str_bootargs n) as [data|].
  2: { rewrite Hv. exists 1, (os_mem s). by split_and!; [destruct s|..]. }
  destruct Hv as (p & -> & Hh & Hu & H0 & Hl). cbn [mbind run_bind]. destruct (Z.ltb_spec 0 (Z.of_nat (length data))) as [Hlen|].
  2: { exists 1, (os_mem s). by split_and!; [destruct s|..]. }
  eexists 1, _. split; [reflexivity|]. split; [|done]. intros a Ha. destruct Hs. unfold COMMAND_LINE_SIZE in *. apply in_range_false in Ha.
  apply strscpy_frame; [done|lia|lia|lia|lia|apply in_range_false; lia].
Qed.

Lemma scan_chosen_ok : exists rc m', of_scan_flat_dt blob_size fuel (early_init_dt_scan_chosen blob_size fuel cmdline) s = Ret (rc, set_mem m' s) /\ same_outside (os_mem s) m'.
Proof.
  pose proof Hs as [_ Hparams _ _ HL _ Hf Hr]. rewrite (of_scan_ok blob_size fuel L B HL Hf (eq s) _ root); [|done| |done|lia].
  - assert (forall vs, (forall v, v ∈ vs -> at_node B L v.1.1 v.2) -> exists rc m',
      run_visits (early_init_dt_scan_chosen blob_size fuel cmdline) (map visit_of vs) 0 s = Ret (rc, set_mem m' s) /\ same_outside (os_mem s) m') as H.
    { induction vs as [|[[o d] n] vs IH]; intros Hv; [exists 0, (os_mem s); by split; [destruct s|]|]. cbn [map visit_of run_visits fst snd Z.eqb].
      destruct (scan_chosen_node o d (unit_name (node_name n)) n) as (rc & m' & -> & Hm' & H0); [apply (Hv (o, d, n)); by left|]. cbn [mbind run_bind].
      destruct (decide (rc = 0)) as [->|Hrc]; [|rewrite run_visits_stop by done; eauto]. rewrite (H0 eq_refl). replace (set_mem (os_mem s) s) with s by (by destruct s).
      apply IH. intros v Hin. apply Hv. by right. }
    apply H. intros v Hin. by eapply preorder_at.
  - split; [intros s' <-; unfold blob; by rewrite Hp|]. intros o d name s' rc s'' Hin <- E. apply list_elem_of_In, in_map_iff in Hin as ([[o' d'] n] & [= <- <- <-] & Hin%list_elem_of_In).
    apply (preorder_at L B) in Hin; [|done]. destruct (scan_chosen_node o' d' (unit_name (node_name n)) n Hin) as (rc' & m' & E' & Hm' & H0). cbn [fst snd node_name] in *.
    rewrite E' in E. injection E as <- <-. split; [by apply blob_same|]. intros Erc. rewrite (H0 Erc). by destruct s.
Qed.
End scan.

(** A tree whose root gives [a] cells to an address and [b] to a size, and whose
    device types are strings. *)
Record tree_ok (root : node) (a b : nat) : Prop := {
  to_addr : cell_ok str_address_cells root;
  to_size : cell_ok str_size_cells root;
  to_a : cell_of str_address_cells OF_ROOT_NODE_ADDR_CELLS_DEFAULT root = Z.of_nat a;
  to_b : cell_of str_size_cells OF_ROOT_NODE_SIZE_CELLS_DEFAULT root = Z.of_nat b;
  to_ab : (1 <= a + b)%nat /\ Z.of_nat (a + b) < 2 ^ 31;
  to_types : Forall type_ok (nodes root)
}.

(** The areas of all memory nodes. *)
Definition tree_areas (root : node) (a b : nat) : list (Z * Z) := flat_map (node_areas a b) (nodes root).

Lemma areas_uint a b k : forall data, Forall (fun r => uint 64 r.1 /\ uint 64 r.2) (areas_from k a b data).
Proof.
  induction k as [|k IH]; intros data; [constructor|]. cbn [areas_from]. destruct (_ <=? _)%nat; [|constructor]. constructor; [|apply IH]. cbn. split; apply uint_wrap; lia.
Qed.

Lemma tree_areas_uint root a b : Forall (fun r => uint 64 r.1 /\ uint 64 r.2) (tree_areas root a b).
Proof.
  unfold tree_areas. rewrite flat_map_concat_map. apply Forall_concat, Forall_map, Forall_true. intros n. unfold node_areas.
  destruct (value str_device_type n); [|constructor]. destruct (bool_decide _); [|constructor]. destruct (value str_usable_memory n), (value str_reg n); first [apply areas_uint|constructor].
Qed.

(** C25: from a device tree to the memory map. When the header of the tree is accepted,
    early_init_dt_scan succeeds; the allocator then has exactly the memory it had
    before and the areas that the memory nodes of the tree list, with the cell
    counts of the root, cut at the last address. The scan terminates, reads nothing
    outside the tree, and writes nothing but the command line. The number of areas
    is bounded by the room in the table. *)
Theorem boot_memory_map s params L root a b : holds_tree s params L root -> Fdt.fdt_check_header (blob_at blob_size (os_mem s) params) = Ret 0 -> tree_ok root a b ->
  mb_ok (os_memblock s) -> 2 * (cnt (memory (os_memblock s)) + Z.of_nat (length (tree_areas root a b))) - 1 <= max (memory (os_memblock s)) ->
  exists s', early_init_dt_scan blob_size cmdline fuel params s = Ret (true, s') /\
    initial_boot_params s' = params /\ dt_root_addr_cells s' = Z.of_nat a /\ dt_root_size_cells s' = Z.of_nat b /\
    same_outside (os_mem s) (os_mem s') /\ mb_ok (os_memblock s') /\ reserved (os_memblock s') = reserved (os_memblock s) /\
    forall x, covers (regions (memory (os_memblock s'))) x <-> covers (regions (memory (os_memblock s))) x \/ exists r, r ∈ tree_areas root a b /\ in_area x r.
Proof.
  intros Hs Hh Ht Hmb Hmax. pose proof Hs as [_ Hparams _ _ HL _ Hf Hr]. destruct Ht as [Ha Hz Ea Ez [Hab Hlt] Hty].
  unfold early_init_dt_scan, early_init_dt_verify. rewrite (proj2 (Z.eqb_neq params 0)), Hh by lia. cbn [mbind run_bind Z.eqb negb].
  set (s1 := set_params params s). assert (holds_tree s1 params L root) as Hs1 by (by destruct Hs).
  unfold early_init_dt_scan_nodes. destruct (scan_chosen_ok s1 params L root Hs1 eq_refl) as (rc & m' & -> & Hm'). cbn [mbind run_bind].
  pose proof (blob_same s1 params L root Hs1 eq_refl m' Hm') as Hb. cbn [os_mem s1 set_params] in Hb. set (s2 := set_mem m' s1) in *.
  rewrite (scan_root_ok blob_size fuel L _ HL Hf root s2 Hr Ha Hz Hb) by (cbn; lia). cbn [mbind run_bind].
  rewrite (scan_memory_tree blob_size fuel L _ HL Hf a b Hab Hlt root (with_cells root s2) Hr Hty Hb Ea Ez) by (cbn; lia).
  destruct (add_areas_ok (tree_areas root a b) (os_memblock s) Hmb (tree_areas_uint root a b) Hmax) as (mb & E & Hok & Hres & Hc).
  change (os_memblock (with_cells root s2)) with (os_memblock s). unfold tree_areas in E. rewrite E. cbn [mbind run_bind]. eexists. split; [reflexivity|]. by split_and!.
Qed.
End boot.

(** ** Witness *)

Lemma board_holds : holds_tree 340 0x100 1000 board_state 0x1000 (flat_layout board_strs board) board.
Proof.
  pose proof board_blob as E. unfold blob in E. cbn [board_state os_mem initial_boot_params] in E. split; cbn [board_state os_mem].
  - intros a. unfold mem_of, blob_of. destruct (_ <? 0); [done|]. destruct (_ !! _) as [b|] eqn:Eb; [|done].
    assert (Forall (uint 8) (flatten board_strs board)) as H by (apply (bool_decide_unpack _); by vm_compute). by apply (Forall_lookup_1 _ _ _ _ H Eb).
  - lia.
  - unfold COMMAND_LINE_SIZE. lia.
  - unfold COMMAND_LINE_SIZE. lia.
  - rewrite E. apply flat_laid_out, board_wf.
  - by vm_compute.
  - by vm_compute.
  - rewrite E. apply flat_at_node, board_wf.
Qed.

Lemma board_tree_ok : tree_ok board 2 2.
Proof.
  split; [intros data E; vm_compute in E; by simplify_eq..|by vm_compute|by vm_compute|lia|].
  apply Forall_forall. intros n Hn t Et. unfold nodes in Hn. vm_compute in Hn. repeat (apply elem_of_cons in Hn as [->|Hn]; [vm_compute in Et; simplify_eq|]).
  - exists str_memory. split; [|done]. apply (bool_decide_unpack _). by vm_compute.
  - by apply not_elem_of_nil in Hn.
Qed.

Lemma memblock_init_ok : mb_ok memblock_init.
Proof. split; (split; [by vm_compute|by left]). Qed.

Lemma memblock_init_empty x : ~ covers (regions (memory memblock_init)) x.
Proof. intros (r & Hr & Hx). apply list_elem_of_singleton in Hr as ->. unfold in_rgn, rend in Hx. cbn in Hx. lia. Qed.

Lemma boot_memory_map_witness : exists s', early_init_dt_scan 340 0x100 1000 0x1000 board_state = Ret (true, s') /\
  forall x, covers (regions (memory (os_memblock s'))) x <-> 0x80000000 <= x < 0x88000000.
Proof.
  destruct (boot_memory_map 340 0x100 1000 board_state 0x1000 (flat_layout board_strs board) board 2 2 board_holds) as (s' & E & _ & _ & _ & _ & _ & _ & H).
  - by vm_compute.
  - apply board_tree_ok.
  - apply memblock_init_ok.
  - by vm_compute.
  - exists s'. split; [exact E|]. intros x. rewrite H. assert (tree_areas board 2 2 = [(0x80000000, 0x08000000)]) as -> by (by vm_compute). split.
    + intros [Hc|(r & Hr & Ha)]; [by destruct (memblock_init_empty x Hc)|]. apply list_elem_of_singleton in Hr as ->. unfold in_area in Ha. cbn in Ha. lia.
    + intros Hx. right. eexists. split; [by left|]. unfold in_area, PHYS_ADDR_MAX. cbn. lia.
Defined.
