(* ===== verification/FdtSafe.v ===== *)
(** The device tree library on data that nobody checked: what holds of any blob whose
    header is accepted, and the blobs on which a walk does not end. *)

From stdpp Require Import list.
From S2P Require Import Prelude Cstring Bytes Memblock Unaligned Strings Fdt FdtRo FdtTree FdtLookup Of OfProps FdtBuild.

(** An int. *)
Definition int32 (x : Z) : Prop := - 2 ^ 31 <= x < 2 ^ 31.

Lemma fdt32_uint fdt p v : Fdt.fdt32_ld fdt p = Ret v -> uint 32 v.
Proof.
  unfold Fdt.fdt32_ld, Fdt.ld8. destruct (fdt p); [|done]. destruct (fdt (p + 1)); [|done]. destruct (fdt (p + 2)); [|done]. destruct (fdt (p + 3)); [|done].
  cbn [mbind run_bind]. intros [= <-]. unfold be32_to_cpu. rewrite swab32_bytes. apply (of_bytes_range (rev (to_bytes 4 _))).
  intros b Hb%list_elem_of_In. apply in_rev, list_elem_of_In in Hb. by eapply to_bytes_uint.
Qed.

Lemma wrap_lift w x : 0 < w -> - 2 ^ w <= x < 0 -> wrap w x = x + 2 ^ w.
Proof. intros Hw H. unfold wrap. replace x with (x + 2 ^ w + -1 * 2 ^ w) at 1 by lia. rewrite Z_mod_plus_full. apply Z.mod_small. lia. Qed.

Lemma wrap_lower w x : 0 < w -> 2 ^ w <= x < 2 * 2 ^ w -> wrap w x = x - 2 ^ w.
Proof. intros Hw H. unfold wrap. replace x with (x - 2 ^ w + 1 * 2 ^ w) at 1 by lia. rewrite Z_mod_plus_full. apply Z.mod_small. lia. Qed.

(** The distance of two ints, as an unsigned int, when it does not lead past the
    largest int. *)
Lemma int_distance a b : int32 a -> 0 <= b -> b + u32 (a - b) < 2 ^ 31 -> a = b + u32 (a - b).
Proof.
  unfold int32. intros Ha Hb H. destruct (Z_lt_ge_dec a b); [|rewrite wrap_small by lia; lia]. pose proof (wrap_range 32 (a - b) ltac:(lia)). rewrite (wrap_lift 32 (a - b)) in H |- * by lia. lia.
Qed.

Lemma tagalign_bounds x : 0 <= x -> x + 3 < 2 ^ 31 -> x <= FDT_TAGALIGN x <= x + 3 /\ FDT_TAGALIGN x mod 4 = 0.
Proof.
  intros Hx Hm. pose proof (tagalign_ok 0 x ltac:(done) ltac:(done) Hx ltac:(lia)) as E. rewrite Z.add_0_l in E. rewrite E. pose proof (Z.mod_pos_bound (- x) 4 ltac:(lia)). split; [lia|].
  rewrite Zplus_mod_idemp_r. by replace (x + - x) with 0 by lia.
Qed.

Lemma check_off_true h t o : check_off_ h t o = true -> h <= o <= t.
Proof. unfold check_off_. rewrite andb_true_iff, !Z.leb_le. lia. Qed.

Lemma header_size_ge v : 28 <= fdt_header_size_ v.
Proof. unfold fdt_header_size_. repeat case_match; by vm_compute. Qed.

Section safe.
Context (fdt : Z -> option Z) (fuel : nat) (total : Z).
(** The header is accepted, and the memory has the size that the header says. *)
Context (Hheader : Fdt.fdt_check_header fdt = Ret 0) (Htotal : Fdt.fdt_totalsize fdt = Ret total) (Hmem : forall a, 0 <= a < total -> is_Some (fdt a)).
Context (Hfuel : total < Z.of_nat fuel).

(** What the check of the header gives. *)
Record checked (off version size : Z) : Prop := {
  ck_magic : Fdt.fdt_magic fdt = Ret FDT_MAGIC;
  ck_off : Fdt.fdt_off_dt_struct fdt = Ret off;
  ck_version : Fdt.fdt_version fdt = Ret version;
  ck_size : 17 <= version -> Fdt.fdt_size_dt_struct fdt = Ret size /\ off + size <= total;
  ck_uint : uint 32 version /\ uint 32 size;
  ck_range : 28 <= off <= total /\ total <= INT_MAX
}.

Lemma header_checked : exists off version size, checked off version size.
Proof.
  clear Hfuel fuel Hmem. revert Hheader. unfold Fdt.fdt_check_header. destruct (Fdt.fdt_magic fdt) as [magic| |] eqn:Em; try done. cbn [mbind run_bind].
  destruct (Z.eqb_spec magic FDT_MAGIC) as [->|]; [|done]. cbn [negb]. destruct (Fdt.fdt_version fdt) as [version| |] eqn:Ev; try done. cbn [mbind run_bind].
  destruct (Fdt.fdt_last_comp_version fdt) as [last| |]; try done. cbn [mbind run_bind]. destruct (_ || _); [done|]. destruct (version <? last); [done|]. rewrite Htotal. cbn [mbind run_bind].
  destruct (Z.ltb_spec total (fdt_header_size_ version)); [done|]. destruct (Z.ltb_spec INT_MAX total); [done|]. cbn [orb]. pose proof (header_size_ge version).
  destruct (Fdt.fdt_off_mem_rsvmap fdt); try done. cbn [mbind run_bind]. destruct (negb _); [done|]. destruct (Fdt.fdt_off_dt_struct fdt) as [off| |] eqn:Eo; try done. cbn [mbind run_bind].
  destruct (Z.ltb_spec version 17).
  - cbn [mbind run_bind]. destruct (check_off_ _ _ off) eqn:Ec; [|done]. apply check_off_true in Ec. intros _. exists off, version, 0. split; try done; [lia|split; [by apply (fdt32_uint fdt 20)|by vm_compute]|lia].
  - destruct (Fdt.fdt_size_dt_struct fdt) as [size| |] eqn:Es; try done. cbn [mbind run_bind]. unfold check_block_ at 1. destruct (check_off_ _ _ off) eqn:Ec; [|done]. cbn [negb].
    apply check_off_true in Ec. destruct (Z.ltb_spec (u32 (off + size)) off); [done|]. destruct (check_off_ _ _ (u32 (off + size))) eqn:Ec'; [|done]. apply check_off_true in Ec'.
    intros _. apply fdt32_uint in Es as Hs. apply fdt32_uint in Eo as Ho. exists off, version, size. split; try done; [intros _; split; [done|]|split; [by apply (fdt32_uint fdt 20)|done]|lia].
    unfold uint, INT_MAX in *. destruct (Z_lt_ge_dec (off + size) (2 ^ 32)); [rewrite wrap_small in * by lia; lia|]. rewrite (wrap_lower 32 (off + size)) in * by lia. lia.
Qed.
(** ** Reads *)

Lemma byte_safe p : 0 <= p < total -> exists v, Fdt.ld8 fdt p = Ret v.
Proof. intros Hp. destruct (Hmem p Hp) as [b E]. unfold Fdt.ld8. rewrite E. eauto. Qed.

Lemma word_safe p : 0 <= p -> p + 4 <= total -> exists v, Fdt.fdt32_ld fdt p = Ret v.
Proof.
  intros Hp Ht. unfold Fdt.fdt32_ld. destruct (byte_safe p) as [b0 ->]; [lia|]. destruct (byte_safe (p + 1)) as [b1 ->]; [lia|].
  destruct (byte_safe (p + 2)) as [b2 ->]; [lia|]. destruct (byte_safe (p + 3)) as [b3 ->]; [lia|]. cbn [mbind run_bind]. eauto.
Qed.

Context (off version size : Z) (Hc : checked off version size).

(** A pointer is inside the structure block. *)
Lemma offset_ptr_safe o n : int32 o -> uint 32 n -> exists r, Fdt.fdt_offset_ptr fdt o n = Ret r /\
  match r with Some p => p = off + o /\ 0 <= o /\ off + o + n <= total | None => True end.
Proof.
  intros Ho Hn. destruct Hc as [_ Eo Ev Es [Hv Hs] [Hoff Htot]]. unfold int32, uint, INT_MAX in *. unfold Fdt.fdt_offset_ptr. rewrite Eo, Htotal, Ev. cbn [mbind run_bind].
  destruct ((_ <? _) || _ || _) eqn:E; [by exists None|]. rewrite !orb_false_iff, !Z.ltb_ge in E. destruct E as [[E1 E2] E3].
  assert (0 <= o /\ off + o + n <= total) as H.
  { destruct (Z_lt_ge_dec o 0).
    - rewrite (wrap_lift 32 o) in E1 by lia. pose proof (wrap_range 32 (u32 (o + off) + n) ltac:(lia)). lia.
    - rewrite (wrap_small 32 (o + off)) in * by lia. destruct (Z_lt_ge_dec (o + off + n) (2 ^ 32)); [rewrite (wrap_small 32 (o + off + n)) in * by lia; lia|].
      rewrite (wrap_lower 32) in * by lia. lia. }
  unfold Fdt.fdt_offset_ptr_. rewrite Eo. cbn [mbind run_bind]. destruct (0x11 <=? version) eqn:E17; cbn [mbind run_bind]; [|by exists (Some (off + o))].
  destruct Es as [-> _]; [apply Z.leb_le in E17; lia|]. cbn [mbind run_bind]. destruct (_ || _); [by exists None|by exists (Some (off + o))].
Qed.

Lemma skip_name_safe : forall n o, 0 <= o <= total -> total - o < Z.of_nat n -> exists r, Fdt.skip_name fdt n o = Ret r /\
  match r with Some o' => o < o' /\ off + o' <= total | None => True end.
Proof.
  destruct Hc as [_ _ _ _ _ [Hoff Htot]]. unfold INT_MAX in *. induction n as [|n IH]; intros o Ho Hn; [lia|]. cbn [Fdt.skip_name].
  destruct (offset_ptr_safe o 1) as (r & -> & Hr); [unfold int32; lia|by vm_compute|]. cbn [mbind run_bind]. destruct r as [p|]; [|by exists None]. destruct Hr as (-> & Ho0 & Hp).
  destruct (byte_safe (off + o)) as [c ->]; [lia|]. cbn [mbind run_bind]. rewrite sgn_small by lia. destruct (negb (c =? 0)); [|exists (Some (o + 1)); split; [done|lia]].
  destruct (IH (o + 1)) as (r & -> & Hr); [lia|lia|]. exists r. split; [done|]. destruct r; [lia|done].
Qed.

Lemma skip_prop_safe o : 0 <= o -> off + o <= total -> exists r, Fdt.skip_prop fdt o = Ret r /\ match r with Some o' => int32 o' | None => True end.
Proof.
  intros Ho Ht. destruct Hc as [_ _ Ev _ _ [Hoff Htot]]. unfold INT_MAX in *. unfold Fdt.skip_prop. destruct (offset_ptr_safe o 4) as (r & -> & Hr); [unfold int32; lia|by vm_compute|].
  cbn [mbind run_bind]. destruct r as [p|]; [|by exists None]. destruct Hr as (-> & _ & Hp). destruct (word_safe (off + o)) as [len ->]; [lia|lia|]. rewrite Ev. cbn [mbind run_bind].
  destruct (_ && _); eexists (Some _); (split; [done|]); by apply (sgn_range 32).
Qed.

(** ** Tags *)

Definition a_tag (tag : Z) : Prop := tag = FDT_BEGIN_NODE \/ tag = FDT_END_NODE \/ tag = FDT_PROP \/ tag = FDT_NOP \/ tag = FDT_END.

Lemma next_tag_safe o : int32 o -> exists tag next, Fdt.fdt_next_tag fdt fuel o = Ret (tag, next) /\
  (tag = FDT_END /\ (next = - FDT_ERR_TRUNCATED \/ next = - FDT_ERR_BADSTRUCTURE) \/
   a_tag tag /\ 0 <= o <= next /\ off + next <= total + 3 /\ next mod 4 = 0 /\ (next < o + 4 -> tag = FDT_PROP)).
Proof.
  intros Ho. pose proof Hc as [_ _ _ _ _ [Hoff Htot]]. unfold INT_MAX in *. unfold Fdt.fdt_next_tag, FDT_TAGSIZE. destruct (offset_ptr_safe o 4) as (r & -> & Hr); [done|by vm_compute|].
  cbn [mbind run_bind]. destruct r as [p|]; [|by eexists _, _; split; [done|]; left; eauto]. destruct Hr as (-> & Ho0 & Hp). destruct (word_safe (off + o)) as [tag ->]; [lia|lia|]. cbn [mbind run_bind].
  rewrite (sgn_small 32 (o + 4)) by lia. set (next := if tag =? FDT_BEGIN_NODE then _ else _).
  assert (exists r, next = Ret r /\ match r with Some o' => int32 o' /\ a_tag tag /\ (o' < o + 4 -> tag = FDT_PROP) | None => True end) as (r & -> & Hr).
  { unfold next. destruct (Z.eqb_spec tag FDT_BEGIN_NODE).
    { destruct (skip_name_safe fuel (o + 4)) as (r & -> & Hr); [lia|lia|]. exists r. split; [done|]. destruct r; [|done]. unfold int32, a_tag. split_and!; [lia|lia|by left|lia]. }
    destruct (Z.eqb_spec tag FDT_PROP); [destruct (skip_prop_safe (o + 4)) as (r & -> & Hr); [lia|lia|]; exists r; split; [done|]; destruct r; [|done]; unfold a_tag; by split_and!; [|tauto|]|].
    destruct (_ || _) eqn:E; [|by exists None]. rewrite !orb_true_iff, !Z.eqb_eq in E. eexists (Some _). split; [done|]. unfold int32, a_tag. split; [lia|]. split; [tauto|lia]. }
  cbn [mbind run_bind]. destruct r as [o'|]; [|by eexists _, _; split; [done|]; left; eauto]. destruct Hr as (Hi & Ht & Hpr).
  destruct (offset_ptr_safe o (u32 (o' - o))) as (r & -> & Hr); [done|by apply uint_wrap|]. cbn [mbind run_bind]. destruct r as [p|]; [|by eexists _, _; split; [done|]; left; eauto].
  destruct Hr as (_ & _ & Hr). pose proof (int_distance o' o Hi Ho0 ltac:(lia)) as Ed. pose proof (wrap_range 32 (o' - o) ltac:(lia)). destruct (tagalign_bounds o') as [Hb Hm]; [lia|lia|].
  eexists _, _. split; [done|]. right. split_and!; [done|lia|lia|lia|done|]. intros ?. apply Hpr. lia.
Qed.
(** ** Nodes *)

Context (Hmove : forall o, int32 o -> Fdt.fdt_next_tag fdt fuel o <> Ret (FDT_PROP, o)).

Lemma next_node_from_returns : forall n o depth, 0 <= o -> off + o <= total + 3 -> total - o < Z.of_nat n -> exists r, Fdt.next_node_from fdt fuel n o depth = Ret r.
Proof.
  pose proof Hc as [_ _ _ _ _ [Hoff Htot]]. unfold INT_MAX in *. induction n as [|n IH]; intros o depth Ho Hl Hn; [lia|]. cbn [Fdt.next_node_from].
  destruct (next_tag_safe o) as (tag & next & E & Ht); [unfold int32; lia|]. rewrite E. cbn [mbind run_bind].
  destruct Ht as [[-> _]|(Ht & [_ Hge] & Hmax & _ & Hp)]; [cbn [Z.eqb FDT_END FDT_BEGIN_NODE FDT_END_NODE Pos.eqb]; destruct (_ || _); eauto|].
  assert (o < next) as Hlt. { destruct (Z_lt_ge_dec o next) as [|Heq]; [done|]. replace next with o in E by lia. rewrite Hp in E by lia. destruct (Hmove o); [unfold int32; lia|done]. }
  assert (forall d, exists r, Fdt.next_node_from fdt fuel n next d = Ret r) as Hrec by (intros d; apply IH; lia).
  destruct (tag =? FDT_BEGIN_NODE); [eauto|]. destruct (tag =? FDT_END_NODE); [destruct depth; [destruct (_ <? 0); eauto|eauto]|]. destruct (tag =? FDT_END); [destruct (_ || _); eauto|eauto].
Qed.

Lemma next_node_returns o depth : int32 o -> exists r, Fdt.fdt_next_node fdt fuel o depth = Ret r.
Proof.
  intros Ho. pose proof Hc as [_ _ _ _ _ [Hoff Htot]]. unfold INT_MAX in *. unfold Fdt.fdt_next_node, Fdt.fdt_check_node_offset_, Fdt.check_tag_offset.
  destruct (0 <=? o); [|apply next_node_from_returns; lia]. destruct (_ || _); [cbn; eauto|]. destruct (next_tag_safe o Ho) as (tag & next & -> & Ht). cbn [mbind run_bind].
  destruct (negb _); [cbn; eauto|]. cbn [mbind run_bind]. destruct (Z.ltb_spec next 0); [eauto|]. apply next_node_from_returns; [done| |lia].
  destruct Ht as [(_ & [->| ->])|(_ & _ & Hmax & _)]; [by vm_compute..|lia].
Qed.
End safe.

(** C27: the walk on unchecked data. Take any bytes with a header that the check accepts,
    in memory of the size that the header gives. Whatever the offset, fdt_next_tag
    reads inside the blob and returns: at the end of the data or on damage with the
    end tag and an error, and else with a tag and the offset of the next one, which is
    a multiple of four, at most three bytes past the end, and not before the current
    one; only a property can lead less than one tag forward. And when no property
    leads to itself, fdt_next_node returns too, from any offset. *)
Theorem unchecked_walk fdt fuel total o depth : Fdt.fdt_check_header fdt = Ret 0 -> Fdt.fdt_totalsize fdt = Ret total -> (forall a, 0 <= a < total -> is_Some (fdt a)) ->
  total < Z.of_nat fuel -> int32 o ->
  (exists tag next, Fdt.fdt_next_tag fdt fuel o = Ret (tag, next) /\
    (tag = FDT_END /\ (next = - FDT_ERR_TRUNCATED \/ next = - FDT_ERR_BADSTRUCTURE) \/
     a_tag tag /\ 0 <= o <= next /\ next <= total + 3 /\ next mod 4 = 0 /\ (next < o + 4 -> tag = FDT_PROP))) /\
  ((forall o, int32 o -> Fdt.fdt_next_tag fdt fuel o <> Ret (FDT_PROP, o)) -> exists r, Fdt.fdt_next_node fdt fuel o depth = Ret r).
Proof.
  intros Hh Ht Hm Hf Ho. destruct (header_checked fdt total Hh Ht) as (off & version & size & Hc). split; [|intros Hmove; by eapply next_node_returns].
  destruct (next_tag_safe fdt fuel total Ht Hm Hf off version size Hc o Ho) as (tag & next & E & H). exists tag, next. split; [done|]. destruct H as [?|(? & ? & ? & ? & ?)]; [by left|right].
  destruct Hc as [_ _ _ _ _ [? _]]. split_and!; try done; lia.
Qed.

(** ** A walk that does not end *)

(** A root whose first property has the length 2^32 - 12: with the twelve bytes before
    its value it has the size 0. *)
Definition stuck_bytes : list Z :=
  flat_map (be_bytes 4) [FDT_MAGIC; 80; 56; 80; 40; 17; 16; 0; 0; 24] ++ replicate 16 0 ++ flat_map (be_bytes 4) [FDT_BEGIN_NODE; 0; FDT_PROP; 2 ^ 32 - 12; 0; FDT_END].

Definition stuck_state : of_state := OfState (fun a => default 0 (stuck_bytes !! Z.to_nat (a - 0x1000))) 0 0 0 memblock_init.

Lemma next_node_stuck fuel n fdt o depth : Fdt.fdt_next_tag fdt fuel o = Ret (FDT_PROP, o) -> Fdt.next_node_from fdt fuel n o depth = Spin.
Proof. intros E. induction n as [|n IH]; [done|]. cbn [Fdt.next_node_from]. rewrite E. exact IH. Qed.

(** C38: a tree on which the boot hangs. Its header passes the check, and then the scan
    of its nodes does not return, whatever the number of iterations. *)
Theorem boot_scan_hangs fuel cmdline : let B := blob_at 80 (os_mem stuck_state) 0x1000 in
  Fdt.fdt_check_header B = Ret 0 /\ early_init_dt_scan 80 cmdline fuel 0x1000 stuck_state = Spin.
Proof.
  intros B. assert (Fdt.fdt_check_header B = Ret 0) as Hh by (by vm_compute). split; [done|]. unfold early_init_dt_scan, early_init_dt_verify. change (0x1000 =? 0) with false. cbv iota. fold B. rewrite Hh. cbn [mbind run_bind Z.eqb negb].
  assert (forall f, Fdt.fdt_next_tag B (S f) 0 = Ret (FDT_BEGIN_NODE, 8)) as H0 by (intros f; by vm_compute).
  assert (forall f, Fdt.fdt_next_tag B f 8 = Ret (FDT_PROP, 8)) as H8 by (intros f; by vm_compute).
  destruct fuel as [|f]; [done|]. assert (Fdt.fdt_next_node B (S f) 0 (Some 0) = Spin) as Hspin.
  { unfold Fdt.fdt_next_node, Fdt.fdt_check_node_offset_, Fdt.check_tag_offset. cbn [Z.leb Z.compare Z.ltb orb]. change (negb (0 mod FDT_TAGSIZE =? 0)) with false. cbv iota. rewrite H0.
    cbn [mbind run_bind]. change (negb (FDT_BEGIN_NODE =? FDT_BEGIN_NODE)) with false. cbv iota. cbn [mbind run_bind]. change (8 <? 0) with false. cbv iota. by apply next_node_stuck. }
  set (s := set_params 0x1000 stuck_state). assert (of_scan_flat_dt 80 (S f) (early_init_dt_scan_chosen 80 (S f) cmdline) s = Spin) as Hscan; [|unfold early_init_dt_scan_nodes; by rewrite Hscan].
  unfold of_scan_flat_dt. change (initial_boot_params s =? 0) with false. cbv iota. change (blob 80 s) with B.
  assert (Fdt.fdt_next_node B (S f) (- 1) (Some (- 1)) = Ret (0, Some 0)) as -> by (cbn [Fdt.fdt_next_node Z.leb Z.compare Z.opp Fdt.next_node_from]; by rewrite H0).
  cbn [mbind run_bind from_option id scan_nodes Z.leb Z.compare andb Z.eqb]. change (blob 80 s) with B.
  assert (fdt_get_name B (S f) 0 = Ret (inl (60, 0))) as -> by (by vm_compute). cbn [mbind run_bind]. assert (read_string B (S f) 60 = Ret []) as -> by (by vm_compute). cbn [mbind run_bind].
  change (early_init_dt_scan_chosen 80 (S f) cmdline 0 (unit_name []) 0 s) with (Ret (0, s)). cbn [mbind run_bind]. change (blob 80 s) with B. by rewrite Hspin.
Qed.

(** With no cells for an address and for a size, the loop over the areas of a memory
    node does not advance. *)
Theorem scan_areas_hangs blob_size n reg endp s : dt_root_addr_cells s = 0 -> dt_root_size_cells s = 0 -> reg <= endp -> scan_areas blob_size n reg endp s = Spin.
Proof.
  intros Ha Hb Hle. induction n as [|n IH]; [done|]. cbn [scan_areas]. rewrite Ha, Hb. change (s32 (0 + 0)) with 0. rewrite (proj2 (Z.leb_le _ _)) by (apply Z.div_pos; lia).
  change (dt_mem_next_cell (blob blob_size s) 0 reg) with (Ret (0, reg + 0)). cbn [mbind run_bind]. rewrite Z.add_0_r. change (dt_mem_next_cell (blob blob_size s) 0 reg) with (Ret (0, reg + 0)).
  cbn [mbind run_bind Z.eqb]. by rewrite Z.add_0_r.
Qed.

(** ** Witness *)

Lemma unchecked_walk_witness : let B := blob_of (flatten board_strs board) in
  (exists tag next, Fdt.fdt_next_tag B 1000 77 = Ret (tag, next)) /\ exists r, Fdt.fdt_next_node B 1000 76 (Some 1) = Ret r.
Proof.
  intros B. assert (forall a, 0 <= a < 340 -> is_Some (B a)) as Hm.
  { intros a Ha. unfold B, blob_of. rewrite (proj2 (Z.ltb_ge a 0)) by lia. apply lookup_lt_is_Some_2. rewrite board_length. lia. }
  assert (Fdt.fdt_check_header B = Ret 0) as Hh by (by vm_compute). assert (Fdt.fdt_totalsize B = Ret 340) as Ht by (by vm_compute). split.
  - destruct (unchecked_walk B 1000 340 77 None Hh Ht Hm) as [(tag & next & E & _) _]; [lia|unfold int32; lia|]. eauto.
  - apply (unchecked_walk B 1000 340 76 (Some 1) Hh Ht Hm); [lia|unfold int32; lia|]. intros o Ho E.
    destruct (unchecked_walk B 1000 340 o None Hh Ht Hm) as [(tag & next & E' & H) _]; [lia|done|]. rewrite E in E'. injection E' as <- <-.
    assert (0 <= o <= 343) as Hr by (destruct H as [[? _]|H]; [done|lia]). clear H.
    assert (forallb (fun k => match Fdt.fdt_next_tag B 1000 (Z.of_nat k) with Ret (tag, next) => negb (next =? Z.of_nat k) | _ => true end) (seq 0 344) = true) as Hall by (by vm_compute).
    rewrite forallb_forall in Hall. specialize (Hall (Z.to_nat o)). rewrite Z2Nat.id, E in Hall by lia. rewrite Z.eqb_refl in Hall. discriminate Hall. apply in_seq. lia.
Defined.
