(* ===== verification/Machine.v ===== *)
(** The RV64 machine-mode environment the monitors run in: the general-purpose
    registers of a trap frame, the control and status registers, the physical
    memory protection (PMP) unit with the accessors of include/asm/pmp.h, and the
    monad in which the C code of the monitors is translated. *)

From S2P Require Import Prelude.
From S2P Require Import Console.

(** * Trap frames: struct pt_regs of include/asm/ptrace.h *)

Inductive gpr : Set :=
  | R_ra | R_sp | R_gp | R_tp | R_t0 | R_t1 | R_t2 | R_s0 | R_s1
  | R_a0 | R_a1 | R_a2 | R_a3 | R_a4 | R_a5 | R_a6 | R_a7
  | R_s2 | R_s3 | R_s4 | R_s5 | R_s6 | R_s7 | R_s8 | R_s9 | R_s10 | R_s11
  | R_t3 | R_t4 | R_t5 | R_t6.

#[export] Instance gpr_eq_dec : EqDecision gpr.
Proof. solve_decision. Defined.

(** A trap frame gives the value of each field of the struct. *)
Abbreviation pt_regs := (gpr -> Z).

(** The index of a field in the struct, in units of [unsigned long]. *)
Definition gpr_slot (r : gpr) : Z :=
  match r with
  | R_ra => 0 | R_sp => 1 | R_gp => 2 | R_tp => 3 | R_t0 => 4 | R_t1 => 5
  | R_t2 => 6 | R_s0 => 7 | R_s1 => 8 | R_a0 => 9 | R_a1 => 10 | R_a2 => 11
  | R_a3 => 12 | R_a4 => 13 | R_a5 => 14 | R_a6 => 15 | R_a7 => 16
  | R_s2 => 17 | R_s3 => 18 | R_s4 => 19 | R_s5 => 20 | R_s6 => 21 | R_s7 => 22
  | R_s8 => 23 | R_s9 => 24 | R_s10 => 25 | R_s11 => 26
  | R_t3 => 27 | R_t4 => 28 | R_t5 => 29 | R_t6 => 30
  end.

Definition NR_GPRS : Z := 31.

Definition zero_regs : pt_regs := fun _ => 0.

(** copy_pt_regs of kernel/ptrace.c, one assignment per field, in its order. *)
Definition copy_pt_regs (dst src : pt_regs) : pt_regs :=
  let dst := <[R_ra := src R_ra]> dst in
  let dst := <[R_sp := src R_sp]> dst in
  let dst := <[R_gp := src R_gp]> dst in
  let dst := <[R_tp := src R_tp]> dst in
  let dst := <[R_t0 := src R_t0]> dst in
  let dst := <[R_t1 := src R_t1]> dst in
  let dst := <[R_t2 := src R_t2]> dst in
  let dst := <[R_s0 := src R_s0]> dst in
  let dst := <[R_s1 := src R_s1]> dst in
  let dst := <[R_a0 := src R_a0]> dst in
  let dst := <[R_a1 := src R_a1]> dst in
  let dst := <[R_a2 := src R_a2]> dst in
  let dst := <[R_a3 := src R_a3]> dst in
  let dst := <[R_a4 := src R_a4]> dst in
  let dst := <[R_a5 := src R_a5]> dst in
  let dst := <[R_a6 := src R_a6]> dst in
  let dst := <[R_a7 := src R_a7]> dst in
  let dst := <[R_s2 := src R_s2]> dst in
  let dst := <[R_s3 := src R_s3]> dst in
  let dst := <[R_s4 := src R_s4]> dst in
  let dst := <[R_s5 := src R_s5]> dst in
  let dst := <[R_s6 := src R_s6]> dst in
  let dst := <[R_s7 := src R_s7]> dst in
  let dst := <[R_s8 := src R_s8]> dst in
  let dst := <[R_s9 := src R_s9]> dst in
  let dst := <[R_s10 := src R_s10]> dst in
  let dst := <[R_s11 := src R_s11]> dst in
  let dst := <[R_t3 := src R_t3]> dst in
  let dst := <[R_t4 := src R_t4]> dst in
  let dst := <[R_t5 := src R_t5]> dst in
  let dst := <[R_t6 := src R_t6]> dst in
  dst.

(** Every field is copied, so the copy agrees with its source everywhere. *)
Lemma copy_pt_regs_eq dst src r : copy_pt_regs dst src r = src r.
Proof. destruct r; reflexivity. Qed.

(** * Control and status registers *)

Inductive csr : Set :=
  | CSR_mstatus | CSR_mie | CSR_mip | CSR_medeleg | CSR_mideleg | CSR_mcounteren
  | CSR_mepc | CSR_mcycle | CSR_minstret
  | CSR_satp | CSR_stvec | CSR_scounteren | CSR_stval | CSR_scause | CSR_sepc
  | CSR_sscratch | CSR_sstatus | CSR_sip | CSR_sie
  | CSR_pmpcfg0 | CSR_pmpcfg2
  | CSR_pmpaddr0 | CSR_pmpaddr1 | CSR_pmpaddr2 | CSR_pmpaddr3
  | CSR_pmpaddr4 | CSR_pmpaddr5 | CSR_pmpaddr6 | CSR_pmpaddr7.

#[export] Instance csr_eq_dec : EqDecision csr.
Proof. solve_decision. Defined.

Abbreviation csr_file := (csr -> Z).

(** The bits of mstatus, mip and mie that the S-level views expose. *)
Definition sstatus_mask : Z := 0x80000003000DE133.
Definition sip_mask : Z := 0x333.
Definition sie_mask : Z := 0x333.

(** Reading a CSR: sstatus, sip and sie are views of the M-level registers. *)
Definition csr_get (f : csr_file) (c : csr) : Z :=
  match c with
  | CSR_sstatus => sstatus_mask .& f CSR_mstatus
  | CSR_sip => sip_mask .& f CSR_mip
  | CSR_sie => sie_mask .& f CSR_mie
  | _ => f c
  end.

(** Replacing the bits of [old] selected by [mask] with those of [v]. *)
Definition merge_bits (mask old v : Z) : Z := Z.ldiff old mask .| (v .& mask).

(** Writing a CSR: a write through a view changes the bits of the view only. *)
Definition csr_put (f : csr_file) (c : csr) (v : Z) : csr_file :=
  let v := u64 v in
  match c with
  | CSR_sstatus => <[CSR_mstatus := merge_bits sstatus_mask (f CSR_mstatus) v]> f
  | CSR_sip => <[CSR_mip := merge_bits sip_mask (f CSR_mip) v]> f
  | CSR_sie => <[CSR_mie := merge_bits sie_mask (f CSR_mie) v]> f
  | _ => <[c := v]> f
  end.

(** * The machine and the monad of monitor code *)

(** What machine mode sees of the hart and the platform: the trap frame that
    [current_pt_regs] points to, the CSRs and the console devices. *)
Record machine `{Console} : Type := mkMachine { frame : pt_regs; csrs : csr_file; dev : Dev }.
Arguments mkMachine {_}.
Arguments frame {_}.
Arguments csrs {_}.
Arguments dev {_}.

(** Ways in which a monitor function does not come back: BUG(), panic() and
    die(); C behaviour the standard leaves undefined (an array index out of
    bounds); and the power switch. *)
Inductive halt : Set := Bug | Undef | Shutdown.

(** A monitor function either returns, or leaves machine mode through
    [mret_with_regs] with the registers it hands to the lower privilege level,
    or halts. *)
Inductive outcome (S A : Type) : Type :=
  | Ret (a : A) (s : S)
  | Mret (r : pt_regs) (s : S)
  | Halt (h : halt).
Arguments Ret {S A} a s.
Arguments Mret {S A} r s.
Arguments Halt {S A} h.

Definition M (S A : Type) : Type := S -> outcome S A.

#[export] Instance M_ret S : MRet (M S) := fun A a s => Ret a s.
#[export] Instance M_bind S : MBind (M S) := fun A B k m s =>
  match m s with
  | Ret a s' => k a s'
  | Mret r s' => Mret r s'
  | Halt h => Halt h
  end.

Section primitives.
Context {S : Type}.

Definition gets {A} (f : S -> A) : M S A := fun s => Ret (f s) s.
Definition modify (f : S -> S) : M S unit := fun s => Ret tt (f s).
Definition BUG_ON (c : bool) : M S unit := fun s => if c then Halt Bug else Ret tt s.
(** An access that is defined only when [c] holds. *)
Definition defined (c : bool) : M S unit := fun s => if c then Ret tt s else Halt Undef.
Definition mret_with_regs {A} (r : pt_regs) : M S A := fun s => Mret r s.

(** [wp m Q X s]: from [s], [m] does not halt; it returns with [Q], or leaves
    machine mode with [X]. *)
Definition wp {A} (m : M S A) (Q : A -> S -> Prop) (X : pt_regs -> S -> Prop) (s : S) : Prop :=
  match m s with
  | Ret a s' => Q a s'
  | Mret r s' => X r s'
  | Halt _ => False
  end.

Lemma wp_bind {A B} (m : M S A) (k : A -> M S B) Q X s :
  wp m (fun a => wp (k a) Q X) X s -> wp (m ≫= k) Q X s.
Proof. unfold wp, mbind, M_bind. destruct (m s); auto. Qed.

Lemma wp_mono {A} (m : M S A) (Q Q' : A -> S -> Prop) (X X' : pt_regs -> S -> Prop) s :
  wp m Q X s -> (forall a s', Q a s' -> Q' a s') -> (forall r s', X r s' -> X' r s') ->
  wp m Q' X' s.
Proof. unfold wp. destruct (m s); auto. Qed.

Lemma bind_ret_l {A B} (a : A) (k : A -> M S B) s : (mret a ≫= k) s = k a s.
Proof. reflexivity. Qed.

Lemma bind_Ret {A B} (m : M S A) (k : A -> M S B) s a s' : m s = Ret a s' -> (m ≫= k) s = k a s'.
Proof. unfold mbind, M_bind. by intros ->. Qed.

Lemma gets_eq {A} (f : S -> A) s : gets f s = Ret (f s) s.
Proof. reflexivity. Qed.

Lemma modify_eq (f : S -> S) s : modify f s = Ret tt (f s).
Proof. reflexivity. Qed.

Lemma bind_assoc {A B C} (m : M S A) (f : A -> M S B) (g : B -> M S C) s :
  ((m ≫= f) ≫= g) s = (m ≫= (fun a => f a ≫= g)) s.
Proof. unfold mbind, M_bind. destruct (m s); reflexivity. Qed.
End primitives.

(** A monitor's state contains the machine it runs on. *)
Class HasMachine `{Console} (S : Type) := {
  get_mach : S -> machine;
  set_mach : machine -> S -> S;
  get_set_mach : forall m s, get_mach (set_mach m s) = m;
  set_set_mach : forall m m' s, set_mach m (set_mach m' s) = set_mach m s;
  set_get_mach : forall s, set_mach (get_mach s) s = s
}.

Section machine_ops.
Context `{Console} {S : Type} `{!HasMachine S}.

Definition on_csrs (f : csr_file -> csr_file) (s : S) : S :=
  set_mach (mkMachine (frame (get_mach s)) (f (csrs (get_mach s))) (dev (get_mach s))) s.
Definition on_frame (f : pt_regs -> pt_regs) (s : S) : S :=
  set_mach (mkMachine (f (frame (get_mach s))) (csrs (get_mach s)) (dev (get_mach s))) s.

(** ** The macros of include/asm/csr.h *)
Definition csr_read (c : csr) : M S Z := gets (fun s => csr_get (csrs (get_mach s)) c).
Definition csr_write (c : csr) (v : Z) : M S unit := modify (on_csrs (fun f => csr_put f c v)).
Definition csr_set (c : csr) (v : Z) : M S unit :=
  modify (on_csrs (fun f => csr_put f c (csr_get f c .| u64 v))).
Definition csr_clear (c : csr) (v : Z) : M S unit :=
  modify (on_csrs (fun f => csr_put f c (Z.ldiff (csr_get f c) (u64 v)))).

(** The frame that [current_pt_regs] returns. *)
Definition get_frame : M S pt_regs := gets (fun s => frame (get_mach s)).
Definition set_frame (r : gpr) (v : Z) : M S unit := modify (on_frame (<[r := u64 v]>)).

(** ** include/asm/pmp.h *)
Definition pmpaddr_write (c : csr) (val : Z) : M S unit := csr_write c (val ≫ 2).

Definition pmpcfg_read (nr : Z) : M S Z :=
  let shift := (nr mod 8) * 8 in
  r ← (if nr <? 8 then csr_read CSR_pmpcfg0 else csr_read CSR_pmpcfg2);
  mret ((r ≫ shift) .& 0xff).

(** The read-back of the last lines only chooses whether to log an error. *)
Definition pmpcfg_write (nr value : Z) : M S unit :=
  let shift := (nr mod 8) * 8 in
  let mask := 0xff ≪ shift in
  (if nr <? 8 then
     csr_clear CSR_pmpcfg0 mask;;
     csr_set CSR_pmpcfg0 (value ≪ shift)
   else
     csr_clear CSR_pmpcfg2 mask;;
     csr_set CSR_pmpcfg2 (value ≪ shift));;
  _ ← pmpcfg_read nr;
  mret tt.
End machine_ops.

(** ** PMP configuration bits: include/asm/csr_bits/pmpcfg.h *)
Definition PMPCFG_R : Z := 1.
Definition PMPCFG_W : Z := 2.
Definition PMPCFG_X : Z := 4.
Definition PMPCFG_RWX : Z := PMPCFG_R .| PMPCFG_W .| PMPCFG_X.
Definition PMPCFG_A_SHIFT : Z := 3.
Definition PMPCFG_A_OFF : Z := 0 ≪ PMPCFG_A_SHIFT.
Definition PMPCFG_A_TOR : Z := 1 ≪ PMPCFG_A_SHIFT.
Definition PMPCFG_A_NA4 : Z := 2 ≪ PMPCFG_A_SHIFT.
Definition PMPCFG_A_NAPOT : Z := 3 ≪ PMPCFG_A_SHIFT.
Definition NR_PMP_ENTRIES : Z := 8.

(** * The PMP unit *)

Definition pmpaddr_csrs : list csr :=
  [CSR_pmpaddr0; CSR_pmpaddr1; CSR_pmpaddr2; CSR_pmpaddr3;
   CSR_pmpaddr4; CSR_pmpaddr5; CSR_pmpaddr6; CSR_pmpaddr7].

Definition pmp_cfg_byte (f : csr_file) (i : Z) : Z := (f CSR_pmpcfg0 ≫ (8 * i)) .& 0xff.

(** The (configuration, address register) pairs, in priority order. *)
Definition pmp_entries (f : csr_file) : list (Z * Z) :=
  imap (fun i c => (pmp_cfg_byte f (Z.of_nat i), f c)) pmpaddr_csrs.

(** Permissions of an S-mode access to [size] bytes at [ptr]; [prev] is the
    previous address register, [any] whether an enabled entry was passed.
    [None] for the NA4 and NAPOT modes, which the monitors do not use. *)
Fixpoint pmp_walk (ptr size prev : Z) (any : bool) (es : list (Z * Z)) : option Z :=
  match es with
  | [] => Some (if negb any then PMPCFG_RWX else 0)
  | (cfg, addr) :: es =>
      let cfg_a := cfg .& PMPCFG_A_NAPOT in
      let cfg_perm := cfg .& PMPCFG_RWX in
      let this := u64 (addr ≪ 2) in
      if cfg_a =? PMPCFG_A_OFF then pmp_walk ptr size this any es
      else if cfg_a =? PMPCFG_A_TOR then
        let overlaps := (prev <? u64 (ptr + size)) && (ptr <? this) in
        let contains := (prev <=? ptr) && (u64 (ptr + size) <=? this) in
        if overlaps then Some (if contains then cfg_perm else 0)
        else pmp_walk ptr size this true es
      else None
  end.

Definition pmp_privs (f : csr_file) (ptr size : Z) : option Z :=
  pmp_walk ptr size 0 false (pmp_entries f).

(** ** Regions

    The monitors use the entries in pairs: the even entry is off and carries the
    lower bound, the odd one is in top-of-range mode and carries the upper bound
    and the permissions; or both are off. *)

Record region : Type := mkRegion { r_lo : Z; r_hi : Z; r_perm : Z }.

Definition overlaps (r : region) (ptr size : Z) : bool :=
  (r_lo r <? ptr + size) && (ptr <? r_hi r).
Definition contains (r : region) (ptr size : Z) : bool :=
  (r_lo r <=? ptr) && (ptr + size <=? r_hi r).

(** The reference reading of a list of pairs: the first region that overlaps the
    access decides, and must contain all of it. *)
Fixpoint regions_privs (any : bool) (rs : list (option region)) (ptr size : Z) : Z :=
  match rs with
  | [] => if any then 0 else PMPCFG_RWX
  | None :: rs => regions_privs any rs ptr size
  | Some r :: rs =>
      if overlaps r ptr size then (if contains r ptr size then r_perm r else 0)
      else regions_privs true rs ptr size
  end.

(** The pair [k] of PMP entries encodes [o]. *)
Definition pmp_pair (f : csr_file) (k : nat) (o : option region) : Prop :=
  exists lo hi, pmpaddr_csrs !! (2 * k)%nat = Some lo /\ pmpaddr_csrs !! (2 * k + 1)%nat = Some hi /\
  pmp_cfg_byte f (2 * Z.of_nat k) .& PMPCFG_A_NAPOT = PMPCFG_A_OFF /\
  match o with
  | Some r => pmp_cfg_byte f (2 * Z.of_nat k + 1) = PMPCFG_A_TOR .| r_perm r /\
              0 <= r_perm r < 8 /\ u64 (f lo ≪ 2) = r_lo r /\ u64 (f hi ≪ 2) = r_hi r
  | None => pmp_cfg_byte f (2 * Z.of_nat k + 1) .& PMPCFG_A_NAPOT = PMPCFG_A_OFF
  end.

Lemma tor_perm p : 0 <= p < 8 ->
  (PMPCFG_A_TOR .| p) .& PMPCFG_A_NAPOT = PMPCFG_A_TOR /\ (PMPCFG_A_TOR .| p) .& PMPCFG_RWX = p.
Proof.
  intros. assert (p = 0 \/ p = 1 \/ p = 2 \/ p = 3 \/ p = 4 \/ p = 5 \/ p = 6 \/ p = 7) as C by lia.
  by repeat destruct C as [->|C]; [..|subst].
Qed.

Lemma pmp_entries_eq f : pmp_entries f =
  [(pmp_cfg_byte f 0, f CSR_pmpaddr0); (pmp_cfg_byte f 1, f CSR_pmpaddr1);
   (pmp_cfg_byte f 2, f CSR_pmpaddr2); (pmp_cfg_byte f 3, f CSR_pmpaddr3);
   (pmp_cfg_byte f 4, f CSR_pmpaddr4); (pmp_cfg_byte f 5, f CSR_pmpaddr5);
   (pmp_cfg_byte f 6, f CSR_pmpaddr6); (pmp_cfg_byte f 7, f CSR_pmpaddr7)].
Proof. reflexivity. Qed.

Section walk.
Context (ptr size : Z) (Hp : 0 <= ptr) (Hs : 0 < size) (Hb : ptr + size < 2 ^ 64).

Lemma pmp_walk_off prev any c a es : c .& PMPCFG_A_NAPOT = PMPCFG_A_OFF ->
  pmp_walk ptr size prev any ((c, a) :: es) = pmp_walk ptr size (u64 (a ≪ 2)) any es.
Proof. intros E. simpl. by rewrite E. Qed.

Lemma pmp_walk_tor prev any p a es : 0 <= p < 8 ->
  pmp_walk ptr size prev any ((PMPCFG_A_TOR .| p, a) :: es) =
  let r := mkRegion prev (u64 (a ≪ 2)) p in
  if overlaps r ptr size then Some (if contains r ptr size then p else 0)
  else pmp_walk ptr size (u64 (a ≪ 2)) true es.
Proof.
  intros Hq. cbn [pmp_walk]. destruct (tor_perm p Hq) as [-> ->].
  rewrite (wrap_small 64 (ptr + size)) by lia. reflexivity.
Qed.

Lemma pmp_walk_pair prev any o c1 a1 c2 a2 es rs :
  c1 .& PMPCFG_A_NAPOT = PMPCFG_A_OFF ->
  match o with
  | Some r => c2 = PMPCFG_A_TOR .| r_perm r /\ 0 <= r_perm r < 8 /\
              u64 (a1 ≪ 2) = r_lo r /\ u64 (a2 ≪ 2) = r_hi r
  | None => c2 .& PMPCFG_A_NAPOT = PMPCFG_A_OFF
  end ->
  (forall prev any, pmp_walk ptr size prev any es = Some (regions_privs any rs ptr size)) ->
  pmp_walk ptr size prev any ((c1, a1) :: (c2, a2) :: es) =
  Some (regions_privs any (o :: rs) ptr size).
Proof.
  intros E1 E2 IH. rewrite pmp_walk_off by done. destruct o as [[lo hi p]|].
  - destruct E2 as (-> & Hq & E3 & E4). cbn [r_lo r_hi r_perm] in *.
    rewrite pmp_walk_tor by done. rewrite E3, E4, IH. simpl. by destruct (overlaps _ _ _).
  - by rewrite pmp_walk_off, IH by done.
Qed.

(** The PMP unit computes the reference reading of the four pairs. *)
Lemma pmp_privs_regions f o0 o1 o2 o3 :
  pmp_pair f 0 o0 -> pmp_pair f 1 o1 -> pmp_pair f 2 o2 -> pmp_pair f 3 o3 ->
  pmp_privs f ptr size = Some (regions_privs false [o0; o1; o2; o3] ptr size).
Proof.
  unfold pmp_pair. cbn [lookup list_lookup pmpaddr_csrs Nat.mul Nat.add]. intros. destruct_conjs.
  simplify_eq. unfold pmp_privs. rewrite pmp_entries_eq.
  do 4 (eapply pmp_walk_pair; [eassumption..|intros ??]).
  by match goal with |- pmp_walk _ _ _ ?any _ = _ => destruct any end.
Qed.
End walk.

(** * Effects of the accessors on the CSRs *)

(** pmpcfg_write as a function of the CSRs, for the entries of pmpcfg0. *)
Definition pmpcfg_put (nr v : Z) (f : csr_file) : csr_file :=
  let f := csr_put f CSR_pmpcfg0 (Z.ldiff (f CSR_pmpcfg0) (u64 (0xff ≪ (8 * nr)))) in
  csr_put f CSR_pmpcfg0 (f CSR_pmpcfg0 .| u64 (v ≪ (8 * nr))).

Lemma pmpcfg_put_byte nr v f i : 0 <= nr < 8 -> 0 <= i < 8 -> uint 8 v ->
  pmp_cfg_byte (pmpcfg_put nr v f) i = if decide (nr = i) then v else pmp_cfg_byte f i.
Proof.
  intros Hn Hi Hv. unfold pmp_cfg_byte, pmpcfg_put, csr_put. fn_simpl.
  case_decide; [subst; by apply set_byte_same | by apply set_byte_other].
Qed.

Lemma pmpcfg_put_other nr v f c : c <> CSR_pmpcfg0 -> pmpcfg_put nr v f c = f c.
Proof. intros. unfold pmpcfg_put, csr_put. by fn_simpl. Qed.

(** Values of the right width. *)
Definition csrs_wf (f : csr_file) : Prop := forall c, uint 64 (f c).
Definition regs_wf (r : pt_regs) : Prop := forall g, uint 64 (r g).

Lemma uint_merge mask old v : 0 <= mask -> uint 64 old -> uint 64 v -> uint 64 (merge_bits mask old v).
Proof.
  intros Hm Ho Hv. apply uint_bits; [done|]. unfold merge_bits. split.
  - apply Z.lor_nonneg. split; [apply Z.ldiff_nonneg|apply Z.land_nonneg]; unfold uint in *; lia.
  - intros n Hn. rewrite Z.lor_spec, Z.ldiff_spec, Z.land_spec.
    by rewrite (testbit_uint 64 old), (testbit_uint 64 v) by done.
Qed.

Lemma csr_put_wf f c v : csrs_wf f -> csrs_wf (csr_put f c v).
Proof.
  intros Hf c'. unfold csr_put.
  pose proof (uint_wrap 64 v ltac:(done)).
  destruct c; rewrite fn_insert_spec; case_decide; subst; auto using uint_merge;
    apply uint_merge; auto; done.
Qed.

Lemma csr_get_wf f c : csrs_wf f -> uint 64 (csr_get f c).
Proof. intros Hf. unfold csr_get. destruct c; auto; by apply uint_land. Qed.

Lemma pmpcfg_put_wf nr v f : csrs_wf f -> csrs_wf (pmpcfg_put nr v f).
Proof. intros. unfold pmpcfg_put. auto using csr_put_wf. Qed.

Lemma merge_bits_view mask old v : mask .& merge_bits mask old v = mask .& v.
Proof.
  unfold merge_bits. apply Z.bits_inj'. intros n Hn. bit_rewrite.
  by destruct (Z.testbit mask n), (Z.testbit old n), (Z.testbit v n).
Qed.

(** Reading back the register just written, when the value came from it. *)
Lemma csr_get_put f f' c v : uint 64 v -> v = csr_get f' c -> csr_get (csr_put f c v) c = v.
Proof.
  intros Hw ->. unfold csr_put. rewrite wrap_small by done. unfold csr_get.
  destruct c; fn_simpl; try done; rewrite merge_bits_view, Z.land_assoc, Z.land_diag; done.
Qed.

(** The register in which a CSR's bits live. *)
Definition csr_home (c : csr) : csr :=
  match c with
  | CSR_sstatus => CSR_mstatus
  | CSR_sip => CSR_mip
  | CSR_sie => CSR_mie
  | _ => c
  end.

Lemma csr_put_other f c v c' : c' <> csr_home c -> csr_put f c v c' = f c'.
Proof. intros. unfold csr_put, csr_home in *. by destruct c; fn_simpl. Qed.

Lemma csr_get_put_other f c c' v : csr_home c <> csr_home c' -> csr_get (csr_put f c v) c' = csr_get f c'.
Proof. intros H. unfold csr_get. destruct c'; rewrite ?csr_put_other; done. Qed.

(** * Saving and restoring a list of CSRs

    The monitors' csrs.h files are X-macro lists that expand to one csr_read or
    csr_write per register. *)

Section csr_lists.
Context `{Console} {S : Type} `{!HasMachine S}.

Fixpoint csrs_write (l : list csr) (v : csr -> Z) : M S unit :=
  match l with
  | [] => mret tt
  | c :: l => csr_write c (v c);; csrs_write l v
  end.

(** The values are stored over [old], the previous contents of the save area. *)
Fixpoint csrs_read (l : list csr) (old : csr -> Z) : M S (csr -> Z) :=
  match l with
  | [] => mret old
  | c :: l => x ← csr_read c; csrs_read l (<[c := x]> old)
  end.
End csr_lists.

Fixpoint csrs_put (l : list csr) (v : csr -> Z) (f : csr_file) : csr_file :=
  match l with
  | [] => f
  | c :: l => csrs_put l v (csr_put f c (v c))
  end.

Fixpoint csrs_save (l : list csr) (f : csr_file) (old : csr -> Z) : csr -> Z :=
  match l with
  | [] => old
  | c :: l => csrs_save l f (<[c := csr_get f c]> old)
  end.

Lemma csrs_put_wf l v f : csrs_wf f -> csrs_wf (csrs_put l v f).
Proof. revert f. induction l; simpl; auto using csr_put_wf. Qed.

Lemma csrs_put_other l v f c : c ∉ (csr_home <$> l) -> csrs_put l v f c = f c.
Proof.
  revert f. induction l as [|c0 l IH]; intros f Hn; cbn [csrs_put]; [done|].
  rewrite IH, csr_put_other; set_solver.
Qed.

Lemma csrs_save_spec l f old c :
  csrs_save l f old c = if decide (c ∈ l) then csr_get f c else old c.
Proof.
  revert old. induction l as [|c0 l IH]; intros old; cbn [csrs_save].
  { case_decide; [set_solver|done]. }
  rewrite IH, fn_insert_spec. repeat case_decide; try done; set_solver.
Qed.

Lemma csrs_put_get_other l v f c : csr_home c ∉ (csr_home <$> l) ->
  csr_get (csrs_put l v f) c = csr_get f c.
Proof.
  revert f. induction l as [|c0 l IH]; intros f Hn; cbn [csrs_put]; [done|].
  rewrite IH, csr_get_put_other; set_solver.
Qed.

(** A register that is not a view holds the value written to it. *)
Lemma csrs_put_plain l v f c : NoDup (csr_home <$> l) -> c ∈ l -> csr_home c = c ->
  csrs_put l v f c = u64 (v c).
Proof.
  revert f. induction l as [|c0 l IH]; intros f Hnd Hc Hh; [by apply not_elem_of_nil in Hc|].
  cbn [csrs_put]. apply NoDup_cons in Hnd as [Hni Hnd]. apply elem_of_cons in Hc as [->|Hc]; [|by apply IH].
  rewrite csrs_put_other by (by rewrite <- Hh). unfold csr_put. destruct c0; try done; by fn_simpl.
Qed.

(** Restoring values that were saved from [f'] makes every listed register read
    as it did there. *)
Lemma csrs_put_get l v f f' c : NoDup (csr_home <$> l) -> csrs_wf f' -> c ∈ l ->
  (forall c, c ∈ l -> v c = csr_get f' c) -> csr_get (csrs_put l v f) c = csr_get f' c.
Proof.
  revert f. induction l as [|c0 l IH]; intros f Hnd Hwf Hc Hv; [set_solver|].
  cbn [csrs_put]. apply NoDup_cons in Hnd as [Hni Hnd]. apply elem_of_cons in Hc as [->|Hc].
  - rewrite csrs_put_get_other by done. rewrite (Hv c0) by set_solver.
    rewrite (csr_get_put f f') by (auto using csr_get_wf). done.
  - apply IH; [done..|]. intros. apply Hv. set_solver.
Qed.

(** * Equations of the monadic operations *)

Section equations.
Context `{Console} {S : Type} `{!HasMachine S}.
Implicit Types s : S.

Lemma on_csrs_comp f g s : on_csrs g (on_csrs f s) = on_csrs (fun c => g (f c)) s.
Proof. unfold on_csrs. by rewrite get_set_mach, set_set_mach. Qed.

Lemma csrs_on_csrs f s : csrs (get_mach (on_csrs f s)) = f (csrs (get_mach s)).
Proof. unfold on_csrs. by rewrite get_set_mach. Qed.

Lemma frame_on_csrs f s : frame (get_mach (on_csrs f s)) = frame (get_mach s).
Proof. unfold on_csrs. by rewrite get_set_mach. Qed.

Lemma csrs_on_frame f s : csrs (get_mach (on_frame f s)) = csrs (get_mach s).
Proof. unfold on_frame. by rewrite get_set_mach. Qed.

Lemma frame_on_frame f s : frame (get_mach (on_frame f s)) = f (frame (get_mach s)).
Proof. unfold on_frame. by rewrite get_set_mach. Qed.

Lemma on_csrs_id s : on_csrs (fun f => f) s = s.
Proof.
  unfold on_csrs. destruct (get_mach s) as [r f d] eqn:E. simpl. rewrite <- E. apply set_get_mach.
Qed.

Lemma pmpcfg_write_eq nr v s : 0 <= nr < 8 ->
  pmpcfg_write nr v s = Ret tt (on_csrs (pmpcfg_put nr v) s).
Proof.
  intros Hn. unfold pmpcfg_write, pmpcfg_read, pmpcfg_put.
  rewrite Z.mod_small, (Z.mul_comm nr 8) by lia. destruct (Z.ltb_spec nr 8); [|lia].
  unfold csr_clear, csr_set, mbind, M_bind, modify. simpl.
  by rewrite on_csrs_comp.
Qed.

Lemma csrs_write_eq l v s : csrs_write l v s = Ret tt (on_csrs (csrs_put l v) s).
Proof.
  revert s. induction l as [|c l IH]; intros s; cbn [csrs_write csrs_put].
  - by rewrite on_csrs_id.
  - unfold csr_write at 1, mbind, M_bind, modify. by rewrite IH, on_csrs_comp.
Qed.

Lemma csrs_read_eq l old s :
  csrs_read l old s = Ret (csrs_save l (csrs (get_mach s)) old) s.
Proof.
  revert old. induction l as [|c l IH]; intros old; cbn [csrs_read csrs_save]; [done|].
  unfold csr_read, gets, mbind, M_bind. by rewrite IH.
Qed.
End equations.

(** * What software below machine mode can do

    Between two traps the supervisor changes its own registers and the S-level
    CSRs, and the trap itself changes mepc and the M-level interrupt and
    privilege stacks of mstatus.  Everything below is an upper bound: it does not
    say what the software computes, only what it cannot touch. *)

(** CSRs only machine mode can write and the hardware does not update. *)
Definition m_only : list csr :=
  [CSR_medeleg; CSR_mideleg; CSR_mcounteren; CSR_pmpcfg0; CSR_pmpcfg2] ++ pmpaddr_csrs.

(** mstatus.MIE, MPIE and MPP, which a trap updates. *)
Definition trap_mask : Z := 0x1888.
Definition TVM_BIT : Z := 20.

Record lower_csrs (f f' : csr_file) : Prop := {
  lower_wf : csrs_wf f';
  lower_m_only : forall c, c ∈ m_only -> f' c = f c;
  lower_mstatus : Z.ldiff (f' CSR_mstatus) (sstatus_mask .| trap_mask) =
                  Z.ldiff (f CSR_mstatus) (sstatus_mask .| trap_mask);
  lower_satp : Z.testbit (f CSR_mstatus) TVM_BIT = true -> f' CSR_satp = f CSR_satp
}.

(** A byte changes only if the PMP unit allows S-mode to write it. *)
Definition pmp_writable (f : csr_file) (a : Z) : Prop :=
  exists p, pmp_privs f a 1 = Some p /\ p .& PMPCFG_W <> 0.

Definition lower_mem (f : csr_file) (m m' : Z -> Z) : Prop :=
  forall a, m' a <> m a -> pmp_writable f a.

(** Membership in (or absence from) a literal list of CSRs. *)
Ltac in_csrs := apply (bool_decide_unpack _); vm_compute; exact I.

Lemma pmp_entries_ext f f' : (forall c, c ∈ m_only -> f' c = f c) -> pmp_entries f' = pmp_entries f.
Proof.
  intros E. unfold pmp_entries, pmp_cfg_byte. rewrite E by in_csrs.
  apply list_eq. intros i. rewrite !list_lookup_imap.
  destruct (pmpaddr_csrs !! i) as [c|] eqn:Ec; [|done]. simpl.
  rewrite E; [done|]. apply elem_of_app. right. by eapply list_elem_of_lookup_2.
Qed.

Lemma pmp_pair_ext f f' k o :
  (forall c, c ∈ m_only -> f' c = f c) -> pmp_pair f k o -> pmp_pair f' k o.
Proof.
  intros E (lo & hi & El & Eh & H1 & H2). exists lo, hi.
  assert (forall c i, pmpaddr_csrs !! i = Some c -> f' c = f c) as Ea.
  { intros c i Hi. apply E, elem_of_app. right. by eapply list_elem_of_lookup_2. }
  unfold pmp_cfg_byte in *. rewrite (E CSR_pmpcfg0) by in_csrs.
  rewrite (Ea _ _ El), (Ea _ _ Eh). auto.
Qed.

(** ** Programming a pair of PMP entries *)

Definition pmpaddr_csr (i : nat) : csr := nth i pmpaddr_csrs CSR_pmpaddr0.

(** Writing the two address registers of pair [k]. *)
Definition remap_put (k : nat) (lo hi : Z) (f : csr_file) : csr_file :=
  csr_put (csr_put f (pmpaddr_csr (2 * k)) (lo ≫ 2)) (pmpaddr_csr (2 * k + 1)) (hi ≫ 2).

(** Writing the configuration of pair [k]'s upper entry. *)
Definition chmod_put (k : nat) (perm : Z) (f : csr_file) : csr_file :=
  pmpcfg_put (2 * Z.of_nat k + 1) (PMPCFG_A_TOR .| perm) f.

(** An address the PMP can represent: 4-aligned and within 56 bits. *)
Definition pmp_addr (a : Z) : Prop := a mod 4 = 0 /\ 0 <= a < 2 ^ 56.

Lemma pmp_addr_round a : pmp_addr a -> u64 (u64 (a ≫ 2) ≪ 2) = a.
Proof.
  intros [Ha Hr]. rewrite (wrap_small 64 (a ≫ 2)).
  - rewrite shiftr_shiftl_aligned by (done || lia). apply wrap_small. lia.
  - rewrite Z.shiftr_div_pow2 by lia. split; [apply Z.div_pos; lia|].
    apply Z.div_lt_upper_bound; lia.
Qed.

Lemma pmp_addr_0 : pmp_addr 0.
Proof. done. Qed.

Lemma tor_uint8 p : 0 <= p < 8 -> uint 8 (PMPCFG_A_TOR .| p).
Proof.
  intros. assert (p = 0 \/ p = 1 \/ p = 2 \/ p = 3 \/ p = 4 \/ p = 5 \/ p = 6 \/ p = 7) as C by lia.
  by repeat destruct C as [->|C]; [..|subst].
Qed.

Ltac pair_index k := destruct k as [|[|[|[|k]]]]; [..|lia].

Lemma remap_put_cfg k lo hi f i : (k < 4)%nat -> pmp_cfg_byte (remap_put k lo hi f) i = pmp_cfg_byte f i.
Proof. intros. unfold pmp_cfg_byte, remap_put. pair_index k; by rewrite !csr_put_other. Qed.

Lemma remap_put_addrs k lo hi f a b : (k < 4)%nat -> pmp_addr lo -> pmp_addr hi ->
  pmpaddr_csrs !! (2 * k)%nat = Some a -> pmpaddr_csrs !! (2 * k + 1)%nat = Some b ->
  u64 (remap_put k lo hi f a ≪ 2) = lo /\ u64 (remap_put k lo hi f b ≪ 2) = hi.
Proof.
  intros Hk Hlo Hhi Ea Eb. unfold remap_put, csr_put.
  pair_index k; simpl in Ea, Eb; simplify_eq; unfold pmpaddr_csr; cbn [nth pmpaddr_csrs];
    fn_simpl; split; by apply pmp_addr_round.
Qed.

Lemma remap_put_same k lo hi f r : (k < 4)%nat -> pmp_addr lo -> pmp_addr hi ->
  pmp_pair f k (Some r) -> pmp_pair (remap_put k lo hi f) k (Some (mkRegion lo hi (r_perm r))).
Proof.
  intros Hk Hlo Hhi (a & b & Ea & Eb & E1 & E2 & E3 & _). exists a, b.
  rewrite !remap_put_cfg by done. destruct (remap_put_addrs k lo hi f a b Hk Hlo Hhi Ea Eb). done.
Qed.

Lemma remap_put_off k lo hi f : (k < 4)%nat -> pmp_pair f k None -> pmp_pair (remap_put k lo hi f) k None.
Proof.
  intros Hk (a & b & Ea & Eb & E1 & E2). exists a, b. by rewrite !remap_put_cfg by done.
Qed.

Lemma remap_put_other k lo hi f j o : (k < 4)%nat -> j <> k ->
  pmp_pair f j o -> pmp_pair (remap_put k lo hi f) j o.
Proof.
  intros Hk Hj (a & b & Ea & Eb & E). exists a, b. rewrite !remap_put_cfg by done.
  assert (remap_put k lo hi f a = f a /\ remap_put k lo hi f b = f b) as [-> ->]; [|done].
  assert (j < 4)%nat by (apply lookup_lt_Some in Ea; simpl in Ea; lia).
  unfold remap_put. pair_index k; pair_index j; try done; simpl in Ea, Eb; simplify_eq;
    by rewrite !csr_put_other.
Qed.

Lemma chmod_put_other k p f j o : (k < 4)%nat -> 0 <= p < 8 -> j <> k ->
  pmp_pair f j o -> pmp_pair (chmod_put k p f) j o.
Proof.
  intros Hk Hp Hj (a & b & Ea & Eb & E). exists a, b.
  assert (j < 4)%nat by (apply lookup_lt_Some in Ea; simpl in Ea; lia).
  unfold chmod_put. rewrite !pmpcfg_put_byte by (lia || by apply tor_uint8).
  rewrite !decide_False by lia.
  rewrite !pmpcfg_put_other; [done|..]; pair_index j; by simplify_eq/=.
Qed.

(** Switching an even entry off does not change what the pairs encode. *)
Lemma pmpcfg_off_even j k f o : (j < 4)%nat -> pmp_pair f k o ->
  pmp_pair (pmpcfg_put (2 * Z.of_nat j) PMPCFG_A_OFF f) k o.
Proof.
  intros Hj (a & b & Ea & Eb & E1 & E2). exists a, b.
  assert (k < 4)%nat by (apply lookup_lt_Some in Ea; simpl in Ea; lia).
  rewrite !pmpcfg_put_byte by (done || lia).
  rewrite (decide_False (P := 2 * Z.of_nat j = 2 * Z.of_nat k + 1)) by lia.
  rewrite !pmpcfg_put_other; [|pair_index k; by simplify_eq/=..].
  split_and!; [done..| |done]. by case_decide.
Qed.

(** chmod keeps the bounds of an enabled pair, and enables a disabled one with
    the bounds its address registers hold. *)
Lemma chmod_put_same k p f o : (k < 4)%nat -> 0 <= p < 8 -> pmp_pair f k o ->
  exists lo hi, pmp_pair (chmod_put k p f) k (Some (mkRegion lo hi p)) /\
    (forall r, o = Some r -> lo = r_lo r /\ hi = r_hi r).
Proof.
  intros Hk Hp (a & b & Ea & Eb & E1 & E2).
  exists (u64 (f a ≪ 2)), (u64 (f b ≪ 2)). split.
  - exists a, b. unfold chmod_put. rewrite !pmpcfg_put_byte by (lia || by apply tor_uint8).
    rewrite decide_False, decide_True by lia.
    rewrite !pmpcfg_put_other; [done|..]; pair_index k; by simplify_eq/=.
  - intros r ->. naive_solver.
Qed.

Lemma chmod_put_keep k p f r : (k < 4)%nat -> 0 <= p < 8 -> pmp_pair f k (Some r) ->
  pmp_pair (chmod_put k p f) k (Some (mkRegion (r_lo r) (r_hi r) p)).
Proof.
  intros Hk Hp Hf. destruct (chmod_put_same k p f _ Hk Hp Hf) as (a & b & Hp' & Hab).
  by destruct (Hab r eq_refl) as [-> ->].
Qed.

(** Reprogramming a pair, whatever it was. *)
Lemma remap_chmod_same k p lo hi f o : (k < 4)%nat -> 0 <= p < 8 -> pmp_addr lo -> pmp_addr hi ->
  pmp_pair f k o -> pmp_pair (chmod_put k p (remap_put k lo hi f)) k (Some (mkRegion lo hi p)).
Proof.
  intros Hk Hp Hlo Hhi (a & b & Ea & Eb & E1 & E2). exists a, b.
  destruct (remap_put_addrs k lo hi f a b Hk Hlo Hhi Ea Eb) as [Hla Hlb].
  unfold chmod_put. rewrite !pmpcfg_put_byte by (lia || by apply tor_uint8).
  rewrite decide_False, decide_True by lia. rewrite remap_put_cfg by done.
  rewrite !pmpcfg_put_other; [done|..]; pair_index k; by simplify_eq/=.
Qed.

Lemma chmod_put_other_csr k p f c : c <> CSR_pmpcfg0 -> chmod_put k p f c = f c.
Proof. apply pmpcfg_put_other. Qed.

Lemma remap_put_other_csr k lo hi f c : c ∉ pmpaddr_csrs -> (k < 4)%nat -> remap_put k lo hi f c = f c.
Proof.
  intros Hc Hk. unfold remap_put.
  pair_index k; rewrite !csr_put_other; try done; intros ->; by apply Hc; in_csrs.
Qed.

Lemma chmod_put_wf k p f : csrs_wf f -> csrs_wf (chmod_put k p f).
Proof. apply pmpcfg_put_wf. Qed.

Lemma remap_put_wf k lo hi f : csrs_wf f -> csrs_wf (remap_put k lo hi f).
Proof. intros. unfold remap_put. auto using csr_put_wf. Qed.

(** The save lists of the monitors do not touch the PMP registers. *)
Lemma csrs_put_pair l v f k o :
  (forall c, c ∈ m_only -> c <> CSR_mcounteren -> c ∉ (csr_home <$> l)) ->
  pmp_pair f k o -> pmp_pair (csrs_put l v f) k o.
Proof.
  intros Hl (a & b & Ea & Eb & E). exists a, b.
  assert (forall i c, pmpaddr_csrs !! i = Some c -> csrs_put l v f c = f c) as Hc.
  { intros i c Hi. assert (c ∈ pmpaddr_csrs) by (by eapply list_elem_of_lookup_2).
    apply csrs_put_other, Hl; [by apply elem_of_app; right|]. intros ->.
    by apply (list_elem_of_lookup_1 _ CSR_mcounteren) in H as [[|[|[|[|[|[|[|[|?]]]]]]]] ?]. }
  unfold pmp_cfg_byte in *. rewrite (csrs_put_other l v f CSR_pmpcfg0) by (apply Hl; [in_csrs|done]).
  by rewrite (Hc _ _ Ea), (Hc _ _ Eb).
Qed.

(** * Reset and single-byte accesses *)

(** PMP entries that are all off: on reset, the privileged architecture requires
    the A fields to be zero. *)
Definition pmp_off (f : csr_file) : Prop :=
  forall i, 0 <= i < 8 -> pmp_cfg_byte f i .& PMPCFG_A_NAPOT = PMPCFG_A_OFF.

Definition reset_pmp (f : csr_file) : Prop := csrs_wf f /\ pmp_off f.

Lemma reset_pair f k : pmp_off f -> (k < 4)%nat -> pmp_pair f k None.
Proof.
  intros Hr Hk. pair_index k; eexists _, _; (split_and!; [reflexivity..|apply Hr; lia|apply Hr; lia]).
Qed.

Lemma byte_overlaps r a : overlaps r a 1 = (r_lo r <=? a) && (a <? r_hi r).
Proof. unfold overlaps. f_equal. destruct (Z.ltb_spec (r_lo r) (a + 1)), (Z.leb_spec (r_lo r) a); lia. Qed.

Lemma byte_contains r a : contains r a 1 = overlaps r a 1.
Proof.
  rewrite byte_overlaps. unfold contains. f_equal.
  destruct (Z.leb_spec (a + 1) (r_hi r)), (Z.ltb_spec a (r_hi r)); lia.
Qed.

(** * Saved contexts *)

Lemma csr_get_ext f f' c : f (csr_home c) = f' (csr_home c) -> csr_get f c = csr_get f' c.
Proof. unfold csr_get. destruct c; cbn [csr_home]; by intros ->. Qed.

Lemma mepc_advance f c : csr_get (csr_put f CSR_mepc (f CSR_mepc + 4)) c =
  if decide (c = CSR_mepc) then u64 (f CSR_mepc + 4) else csr_get f c.
Proof.
  case_decide as Hc; [subst; unfold csr_get, csr_put; by fn_simpl|].
  apply csr_get_put_other. destruct c; done.
Qed.

Lemma restore_saved l f0 old f c : NoDup (csr_home <$> l) -> csrs_wf f0 -> c ∈ l ->
  csr_get (csrs_put l (csrs_save l f0 old) f) c = csr_get f0 c.
Proof.
  intros Hn Hw Hc. apply csrs_put_get; [done..|]. intros c' Hc'.
  rewrite csrs_save_spec. by rewrite decide_True.
Qed.

(** Registers outside the PMP do not change what the pairs encode. *)
Lemma pmp_pair_agree f f' k o : f' CSR_pmpcfg0 = f CSR_pmpcfg0 ->
  (forall c, c ∈ pmpaddr_csrs -> f' c = f c) -> pmp_pair f k o -> pmp_pair f' k o.
Proof.
  intros E0 E (a & b & Ea & Eb & E1 & E2). exists a, b. unfold pmp_cfg_byte in *.
  by rewrite E0, (E a), (E b) by (by eapply list_elem_of_lookup_2).
Qed.

Lemma csr_put_pair f c v k o : csr_home c <> CSR_pmpcfg0 -> csr_home c ∉ pmpaddr_csrs ->
  pmp_pair f k o -> pmp_pair (csr_put f c v) k o.
Proof.
  intros H0 Ha. apply pmp_pair_agree; [by apply csr_put_other, not_eq_sym|].
  intros c' Hc. apply csr_put_other. by intros ->.
Qed.

(** Setting up a pair from scratch: bounds, lower entry off, upper entry on. *)
Lemma program_pair k p lo hi f o : (k < 4)%nat -> 0 <= p < 8 -> pmp_addr lo -> pmp_addr hi -> pmp_pair f k o ->
  pmp_pair (chmod_put k p (pmpcfg_put (2 * Z.of_nat k) PMPCFG_A_OFF (remap_put k lo hi f))) k (Some (mkRegion lo hi p)).
Proof.
  intros Hk Hp Hlo Hhi (a & b & Ea & Eb & E1 & E2). exists a, b.
  destruct (remap_put_addrs k lo hi f a b Hk Hlo Hhi Ea Eb) as [Hla Hlb].
  unfold chmod_put. rewrite !pmpcfg_put_byte by (lia || done || by apply tor_uint8).
  rewrite decide_False, decide_True, decide_True by lia.
  rewrite !pmpcfg_put_other; [done|..]; pair_index k; by simplify_eq/=.
Qed.
