(* ===== verification/Mcall.v ===== *)
(** Services shared by the monitors: the SBI calls of bios/mcall.c and the trap
    dispatcher of kernel/traps.c. *)

From S2P Require Import Prelude.
From S2P Require Import Console.
From S2P Require Import Machine.

(** Error numbers of include/sys/errno.h. *)
Definition EINVAL : Z := 22.
Definition ENOSYS : Z := 38.

(** SBI call numbers of include/asm/sbi.h. *)
Definition SBI_SET_TIMER : Z := 0.
Definition SBI_CONSOLE_PUTCHAR : Z := 1.
Definition SBI_CONSOLE_GETCHAR : Z := 2.
Definition SBI_SHUTDOWN : Z := 8.
Definition SBI_FIRST : Z := SBI_SET_TIMER.
Definition SBI_LAST : Z := SBI_SHUTDOWN.

Definition is_sbi (nr : Z) : bool := (SBI_FIRST <=? nr) && (nr <=? SBI_LAST).

(** Trap causes of include/asm/csr_bits/cause.h. *)
Definition INTR_BIT : Z := 1 ≪ 63.
Abbreviation EXC_INST_MISALIGNED := 0%Z (only parsing).
Abbreviation EXC_INST_ACCESS := 1%Z (only parsing).
Abbreviation EXC_ILLEGAL_INST := 2%Z (only parsing).
Abbreviation EXC_BREAKPOINT := 3%Z (only parsing).
Abbreviation EXC_LOAD_MISALIGNED := 4%Z (only parsing).
Abbreviation EXC_LOAD_ACCESS := 5%Z (only parsing).
Abbreviation EXC_STORE_MISALIGNED := 6%Z (only parsing).
Abbreviation EXC_STORE_ACCESS := 7%Z (only parsing).
Abbreviation EXC_ECALL_U := 8%Z (only parsing).
Definition EXC_ECALL_S : Z := 9.
Abbreviation EXC_ECALL_M := 11%Z (only parsing).
Abbreviation EXC_INST_PAGE_FAULT := 12%Z (only parsing).
Abbreviation EXC_LOAD_PAGE_FAULT := 13%Z (only parsing).
Abbreviation EXC_STORE_PAGE_FAULT := 15%Z (only parsing).

(** Delegation masks of include/asm/csr_bits/edeleg.h and ideleg.h, as the
    monitors' boot code combines them. *)
Definition BIT_64 (n : Z) : Z := 1 ≪ n.
Definition EDEL_MOST : Z :=
  BIT_64 EXC_BREAKPOINT .| BIT_64 EXC_ECALL_U .|
  BIT_64 EXC_INST_MISALIGNED .| BIT_64 EXC_INST_PAGE_FAULT .|
  BIT_64 EXC_LOAD_MISALIGNED .| BIT_64 EXC_LOAD_PAGE_FAULT .|
  BIT_64 EXC_STORE_MISALIGNED .| BIT_64 EXC_STORE_PAGE_FAULT.
Definition IDEL_S : Z := BIT_64 1 .| BIT_64 5 .| BIT_64 9.

(** Fields of mstatus: include/asm/csr_bits/status.h. *)
Definition SR_MPP : Z := 0x1800.
Definition SR_MPP_U : Z := 0 ≪ 11.
Definition SR_MPP_S : Z := 1 ≪ 11.
Definition SR_MPP_M : Z := 3 ≪ 11.
Definition SR_TVM : Z := BIT_64 20.
Definition SR_UXL : Z := 3 ≪ 32.
Definition SR_UXL_64 : Z := 2 ≪ 32.
Definition SR_SXL : Z := 3 ≪ 34.
Definition SR_SXL_64 : Z := 2 ≪ 34.

Section mcall.
Context `{Console} {S : Type} `{!HasMachine S}.

Definition on_dev (f : Dev -> Dev) (s : S) : S :=
  set_mach (mkMachine (frame (get_mach s)) (csrs (get_mach s)) (f (dev (get_mach s)))) s.

Definition mcall_console_putchar (c : Z) : M S unit :=
  modify (on_dev (console_putchar console_drivers (u8 c))).

Definition mcall_console_getchar : M S Z := fun s =>
  let '(r, d) := console_getchar console_drivers (dev (get_mach s)) in
  Ret r (on_dev (fun _ => d) s).

Definition mcall_shutdown : M S unit := fun _ => Halt Shutdown.

Definition do_mcall (regs : pt_regs) : M S Z :=
  let nr := regs R_a7 in
  if nr =? SBI_CONSOLE_PUTCHAR then
    mcall_console_putchar (regs R_a0);; mret 0
  else if nr =? SBI_CONSOLE_GETCHAR then
    mcall_console_getchar
  else if nr =? SBI_SHUTDOWN then
    mcall_shutdown;; mret (- ENOSYS)
  else mret (- ENOSYS).

(** do_trap_error: die() prints the registers and shuts down. *)
Definition do_trap_error : M S unit := fun _ => Halt Bug.

(** do_trap of kernel/traps.c, with the monitor's do_trap_ecall_s.  Every other
    handler is the weak one, a call of do_trap_error. *)
Definition do_trap (do_trap_ecall_s : pt_regs -> M S unit) (regs : pt_regs) (cause : Z) : M S unit :=
  let do_interrupt := do_trap_error in
  let do_trap_unknown := do_trap_error in
  if cause =? EXC_INST_ACCESS then do_trap_error
  else if cause =? EXC_ILLEGAL_INST then do_trap_error
  else if cause =? EXC_BREAKPOINT then do_trap_error
  else if cause =? EXC_LOAD_MISALIGNED then do_trap_error
  else if cause =? EXC_LOAD_ACCESS then do_trap_error
  else if cause =? EXC_STORE_MISALIGNED then do_trap_error
  else if cause =? EXC_STORE_ACCESS then do_trap_error
  else if cause =? EXC_ECALL_U then do_trap_error
  else if cause =? EXC_ECALL_S then do_trap_ecall_s regs
  else if cause =? EXC_ECALL_M then do_trap_error
  else if cause =? EXC_INST_PAGE_FAULT then do_trap_error
  else if cause =? EXC_LOAD_PAGE_FAULT then do_trap_error
  else if cause =? EXC_STORE_PAGE_FAULT then do_trap_error
  else if negb (cause .& INTR_BIT =? 0) then do_interrupt
  else do_trap_unknown.

Lemma on_dev_id s : on_dev (fun _ => dev (get_mach s)) s = s.
Proof.
  unfold on_dev. destruct (get_mach s) as [fr cs d] eqn:E. simpl. rewrite <- E.
  apply set_get_mach.
Qed.

(** An SBI call returns or switches the machine off; it changes the console
    devices only. *)
Lemma do_mcall_cases regs s :
  do_mcall regs s = Halt Shutdown \/ exists r d, do_mcall regs s = Ret r (on_dev (fun _ => d) s).
Proof.
  unfold do_mcall, mcall_console_putchar, mcall_console_getchar, mcall_shutdown, mbind, M_bind, modify.
  repeat case_match; simplify_eq; try (by left); right.
  - by eexists _, (console_putchar console_drivers (u8 (regs R_a0)) (dev (get_mach s))).
  - by eexists _, _.
  - eexists _, (dev (get_mach s)). by rewrite on_dev_id.
Qed.

(** Only an S-mode ecall reaches the monitor; every other cause stops the machine. *)
Lemma do_trap_other h regs cause s : cause <> EXC_ECALL_S -> do_trap h regs cause s = Halt Bug.
Proof.
  intros Hc. unfold do_trap. repeat case_match; try done.
  match goal with E : (cause =? EXC_ECALL_S) = true |- _ => apply Z.eqb_eq in E end. done.
Qed.
End mcall.
