(* ===== verification/Nospec.v ===== *)
(** Speculation-safe array indexing: include/io/nospec.h. *)

From S2P Require Import Prelude.

(** array_index_mask_nospec: the shift is arithmetic, on a signed long. *)
Definition array_index_mask_nospec (index size : Z) : Z :=
  u64 (Z.lnot (s64 (index .| u64 (u64 (size - 1) - index))) ≫ 63).

Definition array_index_nospec (index size : Z) : Z :=
  index .& array_index_mask_nospec index size.

(** The inverted sign bit, spread over the word. *)
Lemma sign_mask x : uint 64 x -> u64 (Z.lnot (s64 x) ≫ 63) = if Z.testbit x 63 then 0 else 2 ^ 64 - 1.
Proof.
  intros Hx. rewrite (testbit_top 64) by done. rewrite Z.shiftr_div_pow2 by lia. unfold uint in Hx.
  unfold sgn. rewrite (Z.mod_small x) by lia. change (64 - 1) with 63. unfold Z.lnot.
  destruct (Z.leb_spec (2 ^ 63) x), (Z.ltb_spec x (2 ^ 63)); try lia.
  - by rewrite Z.div_small by lia.
  - replace (Z.pred (- x) / 2 ^ 63) with (-1); [done|].
    apply (Z.div_unique _ _ _ (Z.pred (- x) + 2 ^ 63)); lia.
Qed.

(** The mask is all ones when the index is in bounds and zero otherwise. *)
Lemma array_index_mask_spec index size : uint 64 index -> 0 < size <= 2 ^ 63 ->
  array_index_mask_nospec index size = if index <? size then 2 ^ 64 - 1 else 0.
Proof.
  intros Hi Hs. unfold array_index_mask_nospec. rewrite (wrap_small 64 (size - 1)) by lia.
  assert (uint 64 (u64 (size - 1 - index))) as Hd by (by apply uint_wrap).
  rewrite sign_mask by (by apply uint_lor). rewrite Z.lor_spec, !(testbit_top 64) by done.
  unfold uint in Hi. change (64 - 1) with 63. destruct (Z.ltb_spec index size).
  - rewrite (wrap_small 64 (size - 1 - index)) by lia.
    by rewrite !(proj2 (Z.leb_gt _ _)) by lia.
  - destruct (Z.leb_spec (2 ^ 63) index); [done|].
    replace (u64 (size - 1 - index)) with (size - 1 - index + 2 ^ 64).
    + by rewrite (proj2 (Z.leb_le _ _)) by lia.
    + unfold wrap. apply (Z.mod_unique _ _ (-1)); lia.
Qed.

Lemma nospec_index index size : uint 64 index -> 0 < size <= 2 ^ 63 ->
  array_index_nospec index size = if index <? size then index else 0.
Proof.
  intros Hi Hs. unfold array_index_nospec. rewrite array_index_mask_spec by done.
  destruct (index <? size); [|apply Z.land_0_r].
  change (2 ^ 64 - 1) with (Z.ones 64). rewrite Z.land_ones by lia. by apply wrap_small.
Qed.

(** Array_index_nospec returns an index below the size unchanged and maps any
    other index to zero, for every 64-bit index and every array size. *)
Theorem array_index_nospec_spec index size : uint 64 index -> 0 < size <= 2 ^ 63 ->
  array_index_nospec index size = if index <? size then index else 0.
Proof. apply nospec_index. Qed.

Lemma array_index_nospec_witness : array_index_nospec (2 ^ 64 - 1) 64 = 0.
Proof. rewrite array_index_nospec_spec; done. Defined.
