(* ===== verification/Sv39.v ===== *)
(** Address translation as the RISC-V privileged architecture defines it for the
    Sv39 mode: the hardware against which page tables are judged. *)

From S2P Require Import Prelude.

(** The virtual page number of level [lvl]. *)
Definition vpn (va : Z) (lvl : nat) : Z := (va ≫ (12 + 9 * Z.of_nat lvl)) .& Z.ones 9.

Definition pte_v (pte : Z) : bool := Z.testbit pte 0.
Definition pte_r (pte : Z) : bool := Z.testbit pte 1.
Definition pte_w (pte : Z) : bool := Z.testbit pte 2.
Definition pte_x (pte : Z) : bool := Z.testbit pte 3.

(** The address a page table entry holds. *)
Definition pte_base (pte : Z) : Z := ((pte ≫ 10) .& Z.ones 44) ≪ 12.

(** The table walk: [rd] reads a word of physical memory; [None] is a fault. *)
Fixpoint sv39_walk (rd : Z -> option Z) (lvl : nat) (base va : Z) : option (Z * Z) :=
  pte ← rd (base + 8 * vpn va lvl);
  if negb (pte_v pte) || (negb (pte_r pte) && pte_w pte) then None
  else if pte_r pte || pte_x pte then
    let size := 12 + 9 * Z.of_nat lvl in
    if pte_base pte .& Z.ones size =? 0 then Some (pte_base pte + (va .& Z.ones size), pte) else None
  else match lvl with
    | O => None
    | S lvl => sv39_walk rd lvl (pte_base pte) va
    end.

(** Bits 63 to 39 of a virtual address repeat bit 38. *)
Definition canonical (va : Z) : bool := s64 va =? sgn 39 va.

(** Translation under a value of satp. *)
Definition translate (rd : Z -> option Z) (satp va : Z) : option (Z * Z) :=
  let mode := satp ≫ 60 in
  if mode =? 8 then
    if canonical va then sv39_walk rd 2 ((satp .& Z.ones 44) ≪ 12) va else None
  else if mode =? 0 then Some (va, Z.ones 8)
  else None.

(** Building an entry for a page-aligned address and reading it back. *)
Lemma pte_round pa prot : pa mod 4096 = 0 -> 0 <= pa < 2 ^ 56 -> 0 <= prot < 2 ^ 10 ->
  pte_base (u64 ((pa ≫ 12) ≪ 10) .| prot) = pa.
Proof.
  intros Ha Hr Hp. unfold pte_base. rewrite (Z.shiftr_div_pow2 pa) by lia.
  assert (0 <= pa / 2 ^ 12 < 2 ^ 44) as Hk.
  { split; [apply Z.div_pos; lia|apply Z.div_lt_upper_bound; lia]. }
  assert (pa = 2 ^ 12 * (pa / 2 ^ 12)) as Epa by (by apply Z_div_exact_full_2).
  set (k := pa / 2 ^ 12) in *. clearbody k. rewrite (wrap_small 64) by (rewrite Z.shiftl_mul_pow2 by lia; lia).
  rewrite Z.shiftr_lor, Z.shiftr_shiftl_l by lia.
  rewrite (Z.shiftr_div_pow2 prot), (Z.div_small prot) by lia. rewrite Z.lor_0_r, Z.shiftl_0_r.
  rewrite Z.land_ones, Z.mod_small, Z.shiftl_mul_pow2 by lia. lia.
Qed.

Lemma pte_flag x prot n : 0 <= n < 10 -> Z.testbit (u64 (x ≪ 10) .| prot) n = Z.testbit prot n.
Proof.
  intros Hn. rewrite Z.lor_spec. unfold wrap. rewrite Z.mod_pow2_bits_low by lia.
  by rewrite Z.shiftl_spec_low by lia.
Qed.

Lemma vpn_range va lvl : 0 <= vpn va lvl < 512.
Proof. unfold vpn. rewrite Z.land_ones by lia. apply Z.mod_pos_bound. lia. Qed.

(** ** One level of the walk *)

Lemma walk_empty rd lvl base va : rd (base + 8 * vpn va lvl) = Some 0 -> sv39_walk rd lvl base va = None.
Proof. intros E. destruct lvl; cbn [sv39_walk]; by rewrite E. Qed.

Lemma walk_table rd lvl base va pa : pa mod 4096 = 0 -> 0 <= pa < 2 ^ 56 ->
  rd (base + 8 * vpn va (S lvl)) = Some (u64 ((pa ≫ 12) ≪ 10) .| 1) ->
  sv39_walk rd (S lvl) base va = sv39_walk rd lvl pa va.
Proof.
  intros Ha Hr E. cbn [sv39_walk]. rewrite E. cbn [mbind option_bind].
  unfold pte_v, pte_r, pte_w, pte_x. rewrite !pte_flag by lia. cbn [Z.testbit Pos.testbit negb andb orb].
  by rewrite pte_round.
Qed.

Lemma walk_leaf rd base va pa prot x pte : pa mod 4096 = 0 -> 0 <= pa < 2 ^ 56 -> 0 <= prot < 2 ^ 10 ->
  rd (base + 8 * vpn va 0) = Some (u64 ((pa ≫ 12) ≪ 10) .| prot) ->
  sv39_walk rd 0 base va = Some (x, pte) -> pa <= x < pa + 4096.
Proof.
  intros Ha Hr Hp E. cbn [sv39_walk]. rewrite E. cbn [mbind option_bind]. rewrite pte_round by done.
  repeat case_match; try done. intros [= <- <-]. rewrite Z.land_ones by lia.
  pose proof (Z.mod_pos_bound va (2 ^ 12) ltac:(lia)) as B. change (12 + 9 * Z.of_nat 0) with 12. lia.
Qed.
