(* ===== verification/Keystone.v ===== *)
(** The Keystone monitor (monitors/keystone): its enclave table, the PMP regions
    it programs, the five enclave calls, the ecall handler and the boot code. *)

From S2P Require Import Prelude.
From S2P Require Import Console.
From S2P Require Import Cstring.
From S2P Require Import Machine.
From S2P Require Import Mcall.

(** * Data: enclave.h, cpu.h, csrs.h, pmp.h *)

Definition NR_ENCLAVES : Z := (NR_PMP_ENTRIES - 2) / 2.
Definition SZ_1G : Z := 0x40000000.
Definition MAX_PAYLOAD_SIZE : Z := SZ_1G.

(** enum enclave_status *)
Definition ENCLAVE_FREE : Z := 0.
Definition ENCLAVE_FRESH : Z := 1.
Definition ENCLAVE_RUNNING : Z := 2.
Definition ENCLAVE_IDLE : Z := 3.

(** csrs.h *)
Definition saved_csrs : list csr :=
  [CSR_mepc; CSR_mcounteren; CSR_mcycle; CSR_minstret;
   CSR_satp; CSR_stvec; CSR_scounteren; CSR_stval; CSR_sip; CSR_scause; CSR_sepc; CSR_sstatus].

(** struct cpu_state: one field per CSR of csrs.h, and the registers. *)
Record cpu_state : Type := mkCpu { st_csr : csr -> Z; st_regs : pt_regs }.

Record enclave : Type := mkEnclave {
  status : Z;
  entry : Z;
  secure_lower : Z;
  secure_upper : Z;
  shared_lower : Z;
  shared_upper : Z;
  encl_state : cpu_state
}.

Definition zero_cpu : cpu_state := mkCpu (fun _ => 0) zero_regs.
Definition zero_enclave : enclave := mkEnclave 0 0 0 0 0 0 zero_cpu.

(** The globals of enclave.c, the physical memory and the machine. *)
Record kstate `{Console} : Type := mkK {
  enclaves : Z -> enclave;
  enclave_mode : bool;
  current_enclave : Z;
  host_state : cpu_state;
  kmem : mem;
  kmach : machine
}.
Arguments mkK {_}.
Arguments enclaves {_}.
Arguments enclave_mode {_}.
Arguments current_enclave {_}.
Arguments host_state {_}.
Arguments kmem {_}.
Arguments kmach {_}.

(** The payload area the linker script places after the monitor: it is aligned
    and all its addresses, its end included, fit a register. *)
Class Layout := {
  payload_start : Z;
  payload_aligned : payload_start mod 4 = 0;
  payload_range : 0 < payload_start /\ payload_start + MAX_PAYLOAD_SIZE < 2 ^ 56
}.

(** * Field updates *)

Section model.
Context `{Console}.

#[export] Program Instance kstate_machine : HasMachine kstate := {|
  get_mach := kmach;
  set_mach m s := mkK (enclaves s) (enclave_mode s) (current_enclave s) (host_state s) (kmem s) m
|}.
Next Obligation. reflexivity. Qed.
Next Obligation. reflexivity. Qed.
Next Obligation. by intros []. Qed.

Definition set_enclaves (f : (Z -> enclave) -> Z -> enclave) : M kstate unit :=
  modify (fun s => mkK (f (enclaves s)) (enclave_mode s) (current_enclave s) (host_state s) (kmem s) (kmach s)).
Definition set_enclave_mode (b : bool) : M kstate unit :=
  modify (fun s => mkK (enclaves s) b (current_enclave s) (host_state s) (kmem s) (kmach s)).
Definition set_current_enclave (e : Z) : M kstate unit :=
  modify (fun s => mkK (enclaves s) (enclave_mode s) e (host_state s) (kmem s) (kmach s)).
Definition set_host_state (c : cpu_state) : M kstate unit :=
  modify (fun s => mkK (enclaves s) (enclave_mode s) (current_enclave s) c (kmem s) (kmach s)).
Definition set_kmem (f : mem -> mem) : M kstate unit :=
  modify (fun s => mkK (enclaves s) (enclave_mode s) (current_enclave s) (host_state s) (f (kmem s)) (kmach s)).

(** enclaves[eid].field = v; an index outside the array is undefined. *)
Definition upd_enclave (eid : Z) (f : enclave -> enclave) : M kstate unit :=
  defined ((0 <=? eid) && (eid <? NR_ENCLAVES));;
  set_enclaves (fun t => <[eid := f (t eid)]> t).
Definition get_enclave (eid : Z) : M kstate enclave :=
  defined ((0 <=? eid) && (eid <? NR_ENCLAVES));;
  gets (fun s => enclaves s eid).

Definition with_status (v : Z) (e : enclave) : enclave :=
  mkEnclave v (entry e) (secure_lower e) (secure_upper e) (shared_lower e) (shared_upper e) (encl_state e).
Definition with_entry (v : Z) (e : enclave) : enclave :=
  mkEnclave (status e) v (secure_lower e) (secure_upper e) (shared_lower e) (shared_upper e) (encl_state e).
Definition with_secure_lower (v : Z) (e : enclave) : enclave :=
  mkEnclave (status e) (entry e) v (secure_upper e) (shared_lower e) (shared_upper e) (encl_state e).
Definition with_secure_upper (v : Z) (e : enclave) : enclave :=
  mkEnclave (status e) (entry e) (secure_lower e) v (shared_lower e) (shared_upper e) (encl_state e).
Definition with_shared_lower (v : Z) (e : enclave) : enclave :=
  mkEnclave (status e) (entry e) (secure_lower e) (secure_upper e) v (shared_upper e) (encl_state e).
Definition with_shared_upper (v : Z) (e : enclave) : enclave :=
  mkEnclave (status e) (entry e) (secure_lower e) (secure_upper e) (shared_lower e) v (encl_state e).
Definition with_encl_state (c : cpu_state) (e : enclave) : enclave :=
  mkEnclave (status e) (entry e) (secure_lower e) (secure_upper e) (shared_lower e) (shared_upper e) c.

(** * cpu.h *)

(** restore_cpu_state(current_pt_regs(), state) *)
Definition restore_cpu_state (state : cpu_state) : M kstate unit :=
  csrs_write saved_csrs (st_csr state);;
  modify (on_frame (fun regs => copy_pt_regs regs (st_regs state))).

(** save_cpu_state(current_pt_regs(), state): the new contents of state. *)
Definition save_cpu_state (state : cpu_state) : M kstate cpu_state :=
  c ← csrs_read saved_csrs (st_csr state);
  regs ← get_frame;
  mret (mkCpu c (copy_pt_regs (st_regs state) regs)).

(** * pmp.c *)

Context `{Layout}.

Definition is_region_valid (lower upper : Z) : bool :=
  (lower mod 4 =? 0) && (upper mod 4 =? 0) && (lower <? upper) && (upper <=? MAX_PAYLOAD_SIZE).

Definition offset_to_virt (offset : Z) : Z := u64 (payload_start + offset).
Definition offset_to_phys (offset : Z) : Z := offset_to_virt offset.

Definition __pmpaddr_write (nr addr : Z) : M kstate unit :=
  match pmpaddr_csrs !! Z.to_nat nr with
  | Some c => pmpaddr_write c addr
  | None => BUG_ON true
  end.

Definition eid_to_pmp_lower (eid : Z) : M kstate Z :=
  if eid =? 0 then mret 0
  else if eid =? 1 then mret 2
  else if eid =? 2 then mret 4
  else BUG_ON true;; mret 0.

Definition eid_to_pmp_upper (eid : Z) : M kstate Z :=
  l ← eid_to_pmp_lower eid; mret (l + 1).

Definition free_pmp_region (i : Z) : M kstate unit :=
  l ← eid_to_pmp_lower i; __pmpaddr_write l 0;;
  u ← eid_to_pmp_upper i; __pmpaddr_write u 0.

Definition chmod_pmp_region (i perm : Z) : M kstate unit :=
  u ← eid_to_pmp_upper i; pmpcfg_write u (PMPCFG_A_TOR .| perm).

Definition remap_pmp_region (i lower upper : Z) : M kstate unit :=
  l ← eid_to_pmp_lower i; __pmpaddr_write l (offset_to_phys lower);;
  u ← eid_to_pmp_upper i; __pmpaddr_write u (offset_to_phys upper).

Definition remap_os_region : M kstate unit :=
  __pmpaddr_write (NR_PMP_ENTRIES - 2) (offset_to_phys 0);;
  __pmpaddr_write (NR_PMP_ENTRIES - 1) (offset_to_phys MAX_PAYLOAD_SIZE);;
  pmpcfg_write (NR_PMP_ENTRIES - 1) (PMPCFG_A_TOR .| PMPCFG_R .| PMPCFG_W .| PMPCFG_X).

Definition remap_shared_region (lower upper : Z) : M kstate unit :=
  __pmpaddr_write (NR_PMP_ENTRIES - 2) (offset_to_phys lower);;
  __pmpaddr_write (NR_PMP_ENTRIES - 1) (offset_to_phys upper);;
  pmpcfg_write (NR_PMP_ENTRIES - 1) (PMPCFG_A_TOR .| PMPCFG_R .| PMPCFG_W).

(** reset_pmp_state: its loop over the entries from [i] on. *)
Fixpoint reset_pmp_loop (i : Z) (n : nat) : M kstate unit :=
  match n with
  | O => mret tt
  | S n =>
      pmpcfg_write i (if negb (i mod 2 =? 0) then PMPCFG_A_TOR else PMPCFG_A_OFF);;
      __pmpaddr_write i 0;;
      reset_pmp_loop (i + 1) n
  end.
Definition reset_pmp_state : M kstate unit := reset_pmp_loop 0 (Z.to_nat NR_PMP_ENTRIES).

(** * enclave.c *)

Definition eid_is_valid (eid : Z) : bool := eid <? NR_ENCLAVES.

Definition save_host_state : M kstate unit :=
  h ← gets host_state; c ← save_cpu_state h; set_host_state c.
Definition restore_host_state : M kstate unit :=
  h ← gets host_state; restore_cpu_state h.
Definition save_encl_state (eid : Z) : M kstate unit :=
  e ← get_enclave eid; c ← save_cpu_state (encl_state e); upd_enclave eid (with_encl_state c).
Definition restore_encl_state (eid : Z) : M kstate unit :=
  e ← get_enclave eid; restore_cpu_state (encl_state e).

(** is_region_overlap: the loop from index [i]. *)
Fixpoint is_region_overlap_loop (t : Z -> enclave) (lower upper i : Z) (n : nat) : bool :=
  match n with
  | O => false
  | S n =>
      if (lower <? secure_upper (t i)) && (secure_lower (t i) <? upper) then true
      else is_region_overlap_loop t lower upper (i + 1) n
  end.
Definition is_region_overlap (lower upper : Z) : M kstate bool :=
  gets (fun s => is_region_overlap_loop (enclaves s) lower upper 0 (Z.to_nat NR_ENCLAVES)).

Definition init_enclave : M kstate unit :=
  set_enclave_mode false;;
  set_enclaves (fun _ _ => zero_enclave).

Definition sys_create_enclave (eid entry secure_lower secure_upper shared_lower shared_upper : Z) : M kstate Z :=
  em ← gets enclave_mode;
  if em : bool then mret (- EINVAL) else
  if negb (eid_is_valid eid) then mret (- EINVAL) else
  e ← get_enclave eid;
  if negb (status e =? ENCLAVE_FREE) then mret (- EINVAL) else
  if negb (is_region_valid secure_lower secure_upper) then mret (- EINVAL) else
  if negb (is_region_valid shared_lower shared_upper) then mret (- EINVAL) else
  ov ← is_region_overlap secure_lower secure_upper;
  if ov : bool then mret (- EINVAL) else
  upd_enclave eid (with_secure_lower secure_lower);;
  upd_enclave eid (with_secure_upper secure_upper);;
  upd_enclave eid (with_shared_lower shared_lower);;
  upd_enclave eid (with_shared_upper shared_upper);;
  upd_enclave eid (with_entry entry);;
  upd_enclave eid (with_status ENCLAVE_FRESH);;
  chmod_pmp_region eid 0;;
  remap_pmp_region eid secure_lower secure_upper;;
  mret 0.

Definition sys_destroy_enclave (eid : Z) : M kstate Z :=
  em ← gets enclave_mode;
  if em : bool then mret (- EINVAL) else
  if negb (eid_is_valid eid) then mret (- EINVAL) else
  e ← get_enclave eid;
  if negb (status e =? ENCLAVE_IDLE) && negb (status e =? ENCLAVE_FRESH) then mret (- EINVAL) else
  let size := u64 (secure_upper e - secure_lower e) in
  set_kmem (fun m => memset m (offset_to_virt (secure_lower e)) 0 size);;
  upd_enclave eid (with_status ENCLAVE_FREE);;
  upd_enclave eid (with_secure_lower 0);;
  upd_enclave eid (with_secure_upper 0);;
  free_pmp_region eid;;
  mret 0.

Definition sys_resume_enclave (eid : Z) : M kstate Z :=
  em ← gets enclave_mode;
  if em : bool then mret (- EINVAL) else
  if negb (eid_is_valid eid) then mret (- EINVAL) else
  e ← get_enclave eid;
  if negb (status e =? ENCLAVE_IDLE) then mret (- EINVAL) else
  set_enclave_mode true;;
  set_current_enclave eid;;
  upd_enclave eid (with_status ENCLAVE_RUNNING);;
  save_host_state;;
  restore_encl_state eid;;
  chmod_pmp_region eid (PMPCFG_R .| PMPCFG_W .| PMPCFG_X);;
  e ← get_enclave eid;
  remap_shared_region (shared_lower e) (shared_upper e);;
  mret 0.

Definition sys_run_enclave (eid : Z) : M kstate Z :=
  em ← gets enclave_mode;
  if em : bool then mret (- EINVAL) else
  if negb (eid_is_valid eid) then mret (- EINVAL) else
  e ← get_enclave eid;
  if negb (status e =? ENCLAVE_IDLE) && negb (status e =? ENCLAVE_FRESH) then mret (- EINVAL) else
  upd_enclave eid (fun e => with_encl_state
    (mkCpu (<[CSR_mepc := entry e]> (st_csr (encl_state e))) (st_regs (encl_state e))) e);;
  upd_enclave eid (fun e => with_encl_state (mkCpu (st_csr (encl_state e)) zero_regs) e);;
  upd_enclave eid (with_status ENCLAVE_IDLE);;
  sys_resume_enclave eid.

Definition sys_exit_enclave : M kstate Z :=
  eid ← gets current_enclave;
  em ← gets enclave_mode;
  if negb em then mret (- EINVAL) else
  set_enclave_mode false;;
  set_current_enclave (u64 (-1));;
  upd_enclave eid (with_status ENCLAVE_IDLE);;
  save_encl_state eid;;
  restore_host_state;;
  chmod_pmp_region eid 0;;
  remap_os_region;;
  mret 0.

(** * traps.c *)

(** System call numbers of include/uapi/keystone/syscalls.h. *)
Definition NR_create_enclave : Z := 9.
Definition NR_destroy_enclave : Z := 10.
Definition NR_run_enclave : Z := 11.
Definition NR_exit_enclave : Z := 12.
Definition NR_resume_enclave : Z := 13.

Definition keystone_call (regs : pt_regs) : M kstate Z :=
  let nr := regs R_a7 in
  let a0 := regs R_a0 in
  let a1 := regs R_a1 in
  let a2 := regs R_a2 in
  let a3 := regs R_a3 in
  let a4 := regs R_a4 in
  let a5 := regs R_a5 in
  if is_sbi nr then do_mcall regs
  else if nr =? NR_create_enclave then sys_create_enclave a0 a1 a2 a3 a4 a5
  else if nr =? NR_destroy_enclave then sys_destroy_enclave a0
  else if nr =? NR_run_enclave then sys_run_enclave a0
  else if nr =? NR_exit_enclave then sys_exit_enclave
  else if nr =? NR_resume_enclave then sys_resume_enclave a0
  else mret (- ENOSYS).

(** [regs] is the trap frame, which the calls that switch contexts rewrite. *)
Definition do_trap_ecall_s : M kstate unit :=
  regs ← get_frame;
  let nr := regs R_a7 in
  r ← keystone_call regs;
  set_frame R_a0 r;;
  if negb (nr =? NR_run_enclave) then
    pc ← csr_read CSR_mepc; csr_write CSR_mepc (pc + 4)
  else mret tt.

(** The trap vector: do_trap with the frame it just saved. *)
Definition trap (cause : Z) : M kstate unit :=
  regs ← get_frame; do_trap (fun _ => do_trap_ecall_s) regs cause.

(** * main.c *)

Definition pmp_init : M kstate unit := remap_os_region.

Definition supervisor_init (hartid dtb : Z) : M kstate unit :=
  let regs := <[R_a1 := dtb]> (<[R_a0 := hartid]> zero_regs) in
  csr_clear CSR_mstatus SR_MPP;;
  csr_set CSR_mstatus SR_MPP_S;;
  csr_clear CSR_mstatus SR_SXL;;
  csr_set CSR_mstatus SR_SXL_64;;
  csr_clear CSR_mstatus SR_UXL;;
  csr_set CSR_mstatus SR_UXL_64;;
  csr_write CSR_mcounteren 0xffffffff;;
  csr_write CSR_medeleg EDEL_MOST;;
  csr_write CSR_mideleg IDEL_S;;
  csr_write CSR_mepc payload_start;;
  mret_with_regs regs.

(** main, after mcall_init, which found the device tree at [kernel_dtb]. *)
Definition main (hartid kernel_dtb : Z) : M kstate unit :=
  init_enclave;;
  pmp_init;;
  supervisor_init hartid kernel_dtb.
End model.
