(* ===== verification/KeystoneInv.v ===== *)
(** Keystone: the state invariant, its preservation by every call, and what the
    PMP configuration means for the software below the monitor. *)

From S2P Require Import Prelude.
From S2P Require Import Console.
From S2P Require Import Cstring.
From S2P Require Import Machine.
From S2P Require Import Mcall.
From S2P Require Import Keystone.

Section keystone.
Context `{Console} `{Layout}.
Implicit Types s : kstate.

(** * Invariant *)

Definition enclave_wf (e : enclave) : Prop :=
  (status e = ENCLAVE_FREE /\ secure_lower e = 0 /\ secure_upper e = 0) \/
  (status e ∈ [ENCLAVE_FRESH; ENCLAVE_RUNNING; ENCLAVE_IDLE] /\
   is_region_valid (secure_lower e) (secure_upper e) = true /\ 0 <= secure_lower e /\
   is_region_valid (shared_lower e) (shared_upper e) = true /\ 0 <= shared_lower e).

(** The pair of PMP entries of an enclave slot. *)
Definition slot_region (e : enclave) (o : option region) : Prop :=
  if status e =? ENCLAVE_FREE then o = None \/ o = Some (mkRegion 0 0 0)
  else o = Some (mkRegion (payload_start + secure_lower e) (payload_start + secure_upper e)
                          (if status e =? ENCLAVE_RUNNING then PMPCFG_RWX else 0)).

(** The last pair: all of the payload for the OS, the shared region for an enclave. *)
Definition last_region s : region :=
  if enclave_mode s then
    let e := enclaves s (current_enclave s) in
    mkRegion (payload_start + shared_lower e) (payload_start + shared_upper e) (PMPCFG_R .| PMPCFG_W)
  else mkRegion payload_start (payload_start + MAX_PAYLOAD_SIZE) PMPCFG_RWX.

Definition is_eid (e : Z) : Prop := 0 <= e < NR_ENCLAVES.

Record inv s : Prop := mkInv {
  inv_wf : forall e, is_eid e -> enclave_wf (enclaves s e);
  inv_disjoint : forall e e', is_eid e -> is_eid e' -> e <> e' ->
    secure_upper (enclaves s e) <= secure_lower (enclaves s e') \/
    secure_upper (enclaves s e') <= secure_lower (enclaves s e) \/
    status (enclaves s e) = ENCLAVE_FREE \/ status (enclaves s e') = ENCLAVE_FREE;
  inv_running : forall e, is_eid e ->
    status (enclaves s e) = ENCLAVE_RUNNING <-> enclave_mode s = true /\ current_enclave s = e;
  inv_current : enclave_mode s = true -> is_eid (current_enclave s);
  inv_slots : forall e, is_eid e ->
    exists o, pmp_pair (csrs (kmach s)) (Z.to_nat e) o /\ slot_region (enclaves s e) o;
  inv_last : pmp_pair (csrs (kmach s)) 3 (Some (last_region s));
  inv_csrs : csrs_wf (csrs (kmach s))
}.

(** * Equations of the PMP operations *)

Lemma eid_cases e : is_eid e -> e = 0 \/ e = 1 \/ e = 2.
Proof. unfold is_eid, NR_ENCLAVES, NR_PMP_ENTRIES. change ((8 - 2) / 2) with 3. lia. Qed.

Lemma chmod_pmp_region_eq e p s : is_eid e ->
  chmod_pmp_region e p s = Ret tt (on_csrs (chmod_put (Z.to_nat e) p) s).
Proof.
  intros He. unfold chmod_pmp_region, chmod_put.
  destruct (eid_cases e He) as [->|[->| ->]]; unfold mbind, M_bind;
    cbn [eid_to_pmp_upper eid_to_pmp_lower]; by apply pmpcfg_write_eq.
Qed.

Lemma remap_pmp_region_eq e lo hi s : is_eid e ->
  remap_pmp_region e lo hi s =
  Ret tt (on_csrs (remap_put (Z.to_nat e) (offset_to_phys lo) (offset_to_phys hi)) s).
Proof. intros He. by destruct (eid_cases e He) as [->|[->| ->]]. Qed.

Lemma free_pmp_region_eq e s : is_eid e ->
  free_pmp_region e s = Ret tt (on_csrs (remap_put (Z.to_nat e) 0 0) s).
Proof. intros He. by destruct (eid_cases e He) as [->|[->| ->]]. Qed.

Lemma remap_os_region_eq s :
  remap_os_region s =
  Ret tt (on_csrs (fun f => chmod_put 3 PMPCFG_RWX
    (remap_put 3 (offset_to_phys 0) (offset_to_phys MAX_PAYLOAD_SIZE) f)) s).
Proof. unfold remap_os_region, mbind, M_bind. simpl. by rewrite pmpcfg_write_eq. Qed.

Lemma remap_shared_region_eq lo hi s :
  remap_shared_region lo hi s =
  Ret tt (on_csrs (fun f => chmod_put 3 (PMPCFG_R .| PMPCFG_W)
    (remap_put 3 (offset_to_phys lo) (offset_to_phys hi) f)) s).
Proof. unfold remap_shared_region, mbind, M_bind. simpl. by rewrite pmpcfg_write_eq. Qed.

Lemma get_enclave_eq e s : is_eid e -> get_enclave e s = Ret (enclaves s e) s.
Proof. intros He. by destruct (eid_cases e He) as [->|[->| ->]]. Qed.

Lemma upd_enclave_eq e f s : is_eid e ->
  upd_enclave e f s = Ret tt (mkK (<[e := f (enclaves s e)]> (enclaves s)) (enclave_mode s)
    (current_enclave s) (host_state s) (kmem s) (kmach s)).
Proof. intros He. by destruct (eid_cases e He) as [->|[->| ->]]. Qed.

Lemma save_cpu_state_eq st s :
  save_cpu_state st s = Ret (mkCpu (csrs_save saved_csrs (csrs (kmach s)) (st_csr st))
                                   (copy_pt_regs (st_regs st) (frame (kmach s)))) s.
Proof. unfold save_cpu_state. by erewrite bind_Ret by (apply csrs_read_eq). Qed.

Lemma restore_cpu_state_eq st s :
  restore_cpu_state st s = Ret tt (mkK (enclaves s) (enclave_mode s) (current_enclave s) (host_state s) (kmem s)
    (mkMachine (copy_pt_regs (frame (kmach s)) (st_regs st))
               (csrs_put saved_csrs (st_csr st) (csrs (kmach s))) (dev (kmach s)))).
Proof. unfold restore_cpu_state. by erewrite bind_Ret by (apply csrs_write_eq). Qed.

Ltac kcbn :=
  cbn [enclaves enclave_mode current_enclave host_state kmem kmach on_csrs get_mach set_mach kstate_machine
       frame csrs dev negb].

(** One step of symbolic execution. *)
Ltac kbind m :=
  lazymatch m with
  | mbind _ _ => rewrite bind_assoc
  | get_enclave _ => erewrite bind_Ret by (by apply get_enclave_eq)
  | upd_enclave _ _ => erewrite bind_Ret by (by apply upd_enclave_eq)
  | chmod_pmp_region _ _ => erewrite bind_Ret by (by apply chmod_pmp_region_eq)
  | remap_pmp_region _ _ _ => erewrite bind_Ret by (by apply remap_pmp_region_eq)
  | free_pmp_region _ => erewrite bind_Ret by (by apply free_pmp_region_eq)
  | remap_os_region => erewrite bind_Ret by (apply remap_os_region_eq)
  | remap_shared_region _ _ => erewrite bind_Ret by (apply remap_shared_region_eq)
  | save_cpu_state _ => erewrite bind_Ret by (apply save_cpu_state_eq)
  | restore_cpu_state _ => erewrite bind_Ret by (apply restore_cpu_state_eq)
  | is_region_overlap _ _ => erewrite bind_Ret by (apply gets_eq)
  | gets _ => erewrite bind_Ret by (apply gets_eq)
  | _ => erewrite bind_Ret by (apply modify_eq)
  end.
Ltac kstep :=
  lazymatch goal with
  | |- mbind _ ?m _ = _ => kbind m
  | |- _ -> mbind _ ?m _ = _ => kbind m
  end; kcbn.

Lemma eid_valid eid : is_eid eid -> eid_is_valid eid = true.
Proof. intros He. apply Z.ltb_lt, He. Qed.

(** What a call leaves alone when it only changes slot [eid] and the machine. *)
Definition only_slot (eid : Z) s s' : Prop :=
  (forall e, e <> eid -> enclaves s' e = enclaves s e) /\ host_state s' = host_state s.

(** * The calls, branch by branch *)

(** Finishes a branch: the resulting state is explicit. *)
Ltac kdone := unfold only_slot; kcbn; split_and!; first [reflexivity | intros; fn_simpl; reflexivity | assumption].

Definition create_post (eid en lo hi slo shi : Z) s s' : Prop :=
  only_slot eid s s' /\
  enclaves s' eid = mkEnclave ENCLAVE_FRESH en lo hi slo shi (encl_state (enclaves s eid)) /\
  enclave_mode s' = false /\ current_enclave s' = current_enclave s /\ kmem s' = kmem s /\
  kmach s' = mkMachine (frame (kmach s))
    (remap_put (Z.to_nat eid) (offset_to_phys lo) (offset_to_phys hi)
      (chmod_put (Z.to_nat eid) 0 (csrs (kmach s)))) (dev (kmach s)).

Lemma sys_create_ok eid en lo hi slo shi s :
  enclave_mode s = false -> is_eid eid -> status (enclaves s eid) = ENCLAVE_FREE ->
  is_region_valid lo hi = true -> is_region_valid slo shi = true ->
  is_region_overlap_loop (enclaves s) lo hi 0 3 = false ->
  exists s', sys_create_enclave eid en lo hi slo shi s = Ret 0 s' /\ create_post eid en lo hi slo shi s s'.
Proof.
  intros Hm He Hst Hv Hsv Hov. eexists. split.
  - unfold sys_create_enclave. kstep. rewrite Hm, (eid_valid eid He). cbn [negb].
    kstep. rewrite Hst, Hv, Hsv. cbn [negb Z.eqb ENCLAVE_FREE].
    kstep. change (Z.to_nat NR_ENCLAVES) with 3%nat. rewrite Hov.
    repeat kstep. reflexivity.
  - unfold create_post. kdone.
Qed.

Definition destroy_post (eid : Z) s s' : Prop :=
  let e := enclaves s eid in
  only_slot eid s s' /\
  enclaves s' eid = mkEnclave ENCLAVE_FREE (entry e) 0 0 (shared_lower e) (shared_upper e) (encl_state e) /\
  enclave_mode s' = false /\ current_enclave s' = current_enclave s /\
  kmem s' = memset (kmem s) (offset_to_virt (secure_lower e)) 0 (u64 (secure_upper e - secure_lower e)) /\
  kmach s' = mkMachine (frame (kmach s)) (remap_put (Z.to_nat eid) 0 0 (csrs (kmach s))) (dev (kmach s)).

Lemma sys_destroy_ok eid s :
  enclave_mode s = false -> is_eid eid ->
  status (enclaves s eid) = ENCLAVE_IDLE \/ status (enclaves s eid) = ENCLAVE_FRESH ->
  exists s', sys_destroy_enclave eid s = Ret 0 s' /\ destroy_post eid s s'.
Proof.
  intros Hm He Hst. eexists. split.
  - unfold sys_destroy_enclave. kstep. rewrite Hm, (eid_valid eid He). cbn [negb].
    kstep. replace (_ && _) with false by (destruct Hst as [-> | ->]; done).
    repeat kstep. reflexivity.
  - unfold destroy_post. kdone.
Qed.

Definition resume_post (eid : Z) s s' : Prop :=
  let e := enclaves s eid in
  (forall e, e <> eid -> enclaves s' e = enclaves s e) /\
  enclaves s' eid = with_status ENCLAVE_RUNNING e /\
  enclave_mode s' = true /\ current_enclave s' = eid /\ kmem s' = kmem s /\
  host_state s' = mkCpu (csrs_save saved_csrs (csrs (kmach s)) (st_csr (host_state s)))
                        (copy_pt_regs (st_regs (host_state s)) (frame (kmach s))) /\
  kmach s' = mkMachine (copy_pt_regs (frame (kmach s)) (st_regs (encl_state e)))
    (chmod_put 3 (PMPCFG_R .| PMPCFG_W)
      (remap_put 3 (offset_to_phys (shared_lower e)) (offset_to_phys (shared_upper e))
        (chmod_put (Z.to_nat eid) PMPCFG_RWX
          (csrs_put saved_csrs (st_csr (encl_state e)) (csrs (kmach s)))))) (dev (kmach s)).

Lemma sys_resume_ok eid s :
  enclave_mode s = false -> is_eid eid -> status (enclaves s eid) = ENCLAVE_IDLE ->
  exists s', sys_resume_enclave eid s = Ret 0 s' /\ resume_post eid s s'.
Proof.
  intros Hm He Hst. eexists. split.
  - unfold sys_resume_enclave. kstep. rewrite Hm, (eid_valid eid He). cbn [negb].
    kstep. rewrite Hst. cbn [negb Z.eqb ENCLAVE_IDLE Pos.eqb].
    do 3 kstep. unfold save_host_state, restore_encl_state. repeat kstep. reflexivity.
  - unfold resume_post. kdone.
Qed.
(** What sys_run_enclave does before it resumes: a fresh context at the entry. *)
Definition start_context (e : enclave) : cpu_state :=
  mkCpu (<[CSR_mepc := entry e]> (st_csr (encl_state e))) zero_regs.

Definition run_prepared (eid : Z) s s1 : Prop :=
  let e := enclaves s eid in
  only_slot eid s s1 /\
  enclaves s1 eid = with_status ENCLAVE_IDLE (with_encl_state (start_context e) e) /\
  enclave_mode s1 = false /\ current_enclave s1 = current_enclave s /\ kmem s1 = kmem s /\
  kmach s1 = kmach s.

(** The state in which sys_run_enclave calls sys_resume_enclave. *)
Lemma sys_run_prepared eid s :
  enclave_mode s = false -> is_eid eid ->
  status (enclaves s eid) = ENCLAVE_IDLE \/ status (enclaves s eid) = ENCLAVE_FRESH ->
  exists s1, sys_run_enclave eid s = sys_resume_enclave eid s1 /\ run_prepared eid s s1.
Proof.
  intros Hm He Hst. eexists. split.
  - unfold sys_run_enclave. kstep. rewrite Hm, (eid_valid eid He). cbn [negb].
    kstep. replace (_ && _) with false by (destruct Hst as [-> | ->]; done).
    do 3 kstep. reflexivity.
  - unfold run_prepared. kdone.
Qed.

Definition exit_post s s' : Prop :=
  let eid := current_enclave s in let e := enclaves s eid in
  only_slot eid s s' /\
  enclaves s' eid = with_status ENCLAVE_IDLE (with_encl_state
    (mkCpu (csrs_save saved_csrs (csrs (kmach s)) (st_csr (encl_state e)))
           (copy_pt_regs (st_regs (encl_state e)) (frame (kmach s)))) e) /\
  enclave_mode s' = false /\ current_enclave s' = u64 (-1) /\ kmem s' = kmem s /\
  kmach s' = mkMachine (copy_pt_regs (frame (kmach s)) (st_regs (host_state s)))
    (chmod_put 3 PMPCFG_RWX
      (remap_put 3 (offset_to_phys 0) (offset_to_phys MAX_PAYLOAD_SIZE)
        (chmod_put (Z.to_nat eid) 0
          (csrs_put saved_csrs (st_csr (host_state s)) (csrs (kmach s)))))) (dev (kmach s)).

Lemma sys_exit_ok s :
  enclave_mode s = true -> is_eid (current_enclave s) ->
  exists s', sys_exit_enclave s = Ret 0 s' /\ exit_post s s'.
Proof.
  intros Hm He. eexists. split.
  - unfold sys_exit_enclave, save_encl_state, restore_host_state.
    do 2 kstep. rewrite Hm. cbn [negb]. repeat kstep. reflexivity.
  - unfold exit_post. kdone.
Qed.

(** ** Refused calls *)

Definition create_allowed (eid lo hi slo shi : Z) s : bool :=
  negb (enclave_mode s) && eid_is_valid eid && (status (enclaves s eid) =? ENCLAVE_FREE) &&
  is_region_valid lo hi && is_region_valid slo shi && negb (is_region_overlap_loop (enclaves s) lo hi 0 3).

Definition destroy_allowed (eid : Z) s : bool :=
  negb (enclave_mode s) && eid_is_valid eid &&
  ((status (enclaves s eid) =? ENCLAVE_IDLE) || (status (enclaves s eid) =? ENCLAVE_FRESH)).

Definition resume_allowed (eid : Z) s : bool :=
  negb (enclave_mode s) && eid_is_valid eid && (status (enclaves s eid) =? ENCLAVE_IDLE).

Lemma eid_valid_eid eid : 0 <= eid -> eid_is_valid eid = true -> is_eid eid.
Proof. intros ? E%Z.ltb_lt. done. Qed.

(** Splits on the guards of a call. *)
Ltac kguards He :=
  kstep; destruct (enclave_mode _); [done|]; destruct (eid_is_valid _) eqn:Ev; [|done]; cbn [negb andb];
  pose proof (eid_valid_eid _ He Ev); kstep; repeat destruct (_ =? _); cbn [negb andb orb]; try done.

Lemma sys_create_refused eid en lo hi slo shi s : 0 <= eid ->
  create_allowed eid lo hi slo shi s = false -> sys_create_enclave eid en lo hi slo shi s = Ret (- EINVAL) s.
Proof.
  intros He. unfold create_allowed, sys_create_enclave. kguards He.
  destruct (is_region_valid lo hi), (is_region_valid slo shi); try done. cbn [negb andb].
  kstep. change (Z.to_nat NR_ENCLAVES) with 3%nat. by destruct (is_region_overlap_loop _ _ _ _ _).
Qed.

Lemma sys_destroy_refused eid s : 0 <= eid ->
  destroy_allowed eid s = false -> sys_destroy_enclave eid s = Ret (- EINVAL) s.
Proof. intros He. unfold destroy_allowed, sys_destroy_enclave. kguards He. Qed.

Lemma sys_run_refused eid s : 0 <= eid ->
  destroy_allowed eid s = false -> sys_run_enclave eid s = Ret (- EINVAL) s.
Proof. intros He. unfold destroy_allowed, sys_run_enclave. kguards He. Qed.

Lemma sys_resume_refused eid s : 0 <= eid ->
  resume_allowed eid s = false -> sys_resume_enclave eid s = Ret (- EINVAL) s.
Proof. intros He. unfold resume_allowed, sys_resume_enclave. kguards He. Qed.

Lemma sys_exit_refused s : enclave_mode s = false -> sys_exit_enclave s = Ret (- EINVAL) s.
Proof. intros Hm. unfold sys_exit_enclave. do 2 kstep. by rewrite Hm. Qed.
Lemma create_allowed_true eid lo hi slo shi s : 0 <= eid -> create_allowed eid lo hi slo shi s = true ->
  enclave_mode s = false /\ is_eid eid /\ status (enclaves s eid) = ENCLAVE_FREE /\
  is_region_valid lo hi = true /\ is_region_valid slo shi = true /\
  is_region_overlap_loop (enclaves s) lo hi 0 3 = false.
Proof.
  intros He. unfold create_allowed. rewrite !andb_true_iff, !negb_true_iff, Z.eqb_eq.
  intros [[[[[? ?] ?] ?] ?] ?]. auto 10 using eid_valid_eid.
Qed.

Lemma destroy_allowed_true eid s : 0 <= eid -> destroy_allowed eid s = true ->
  enclave_mode s = false /\ is_eid eid /\
  (status (enclaves s eid) = ENCLAVE_IDLE \/ status (enclaves s eid) = ENCLAVE_FRESH).
Proof.
  intros He. unfold destroy_allowed. rewrite !andb_true_iff, negb_true_iff, orb_true_iff, !Z.eqb_eq.
  intros [[? ?] ?]. auto using eid_valid_eid.
Qed.

Lemma resume_allowed_true eid s : 0 <= eid -> resume_allowed eid s = true ->
  enclave_mode s = false /\ is_eid eid /\ status (enclaves s eid) = ENCLAVE_IDLE.
Proof.
  intros He. unfold resume_allowed. rewrite !andb_true_iff, negb_true_iff, !Z.eqb_eq.
  intros [[? ?] ?]. auto using eid_valid_eid.
Qed.

(** * Preservation *)

Lemma is_region_valid_spec lo hi : is_region_valid lo hi = true <->
  lo mod 4 = 0 /\ hi mod 4 = 0 /\ lo < hi /\ hi <= MAX_PAYLOAD_SIZE.
Proof. unfold is_region_valid. rewrite !andb_true_iff, !Z.eqb_eq, Z.ltb_lt, Z.leb_le. tauto. Qed.

Lemma offset_to_phys_eq o : 0 <= o <= MAX_PAYLOAD_SIZE -> offset_to_phys o = payload_start + o.
Proof. intros. pose proof payload_range. apply wrap_small. lia. Qed.

Lemma payload_pmp_addr o : 0 <= o <= MAX_PAYLOAD_SIZE -> o mod 4 = 0 -> pmp_addr (payload_start + o).
Proof.
  intros Ho Hm. pose proof payload_range. split; [|lia].
  by rewrite Zplus_mod, Hm, payload_aligned.
Qed.

(** The bounds of a valid region, as the PMP operations see them. *)
Lemma region_addrs lo hi : is_region_valid lo hi = true -> 0 <= lo ->
  offset_to_phys lo = payload_start + lo /\ offset_to_phys hi = payload_start + hi /\
  pmp_addr (payload_start + lo) /\ pmp_addr (payload_start + hi).
Proof.
  intros (? & ? & ? & ?)%is_region_valid_spec ?.
  rewrite !offset_to_phys_eq by lia. split_and!; try done; apply payload_pmp_addr; (done || lia).
Qed.

Lemma overlap_loop_false t lo hi i n : is_region_overlap_loop t lo hi i n = false ->
  forall e, i <= e < i + Z.of_nat n -> secure_upper (t e) <= lo \/ hi <= secure_lower (t e).
Proof.
  revert i. induction n as [|n IH]; intros i; cbn [is_region_overlap_loop]; [lia|].
  destruct (Z.ltb_spec lo (secure_upper (t i))), (Z.ltb_spec (secure_lower (t i)) hi);
    cbn [andb]; try done; intros Hr e He; destruct (decide (e = i)) as [->|];
    first [lia | by apply (IH (i + 1)); [done|lia]].
Qed.

Lemma saved_csrs_keep_pmp c : c ∈ m_only -> c <> CSR_mcounteren -> c ∉ (csr_home <$> saved_csrs).
Proof. intros Hc ?. destruct c; first [in_csrs | done | by exfalso; revert Hc; in_csrs]. Qed.

Lemma saved_csrs_put_pair v f k o : pmp_pair f k o -> pmp_pair (csrs_put saved_csrs v f) k o.
Proof. apply csrs_put_pair, saved_csrs_keep_pmp. Qed.

Lemma eid_index e : is_eid e -> (Z.to_nat e < 3)%nat.
Proof. intros [->|[->| ->]]%eid_cases; simpl; lia. Qed.

Lemma eid_index_ne e e' : is_eid e -> is_eid e' -> e <> e' -> Z.to_nat e <> Z.to_nat e'.
Proof. intros [->|[->| ->]]%eid_cases [->|[->| ->]]%eid_cases ?; simpl; lia. Qed.

Definition disjoint_from (e e' : enclave) : Prop :=
  secure_upper e <= secure_lower e' \/ secure_upper e' <= secure_lower e \/
  status e = ENCLAVE_FREE \/ status e' = ENCLAVE_FREE.

(** Slot [eid] is replaced, and the machine reprogrammed for it alone. *)
Lemma inv_replace_slot s s' eid : inv s -> is_eid eid ->
  (forall e, e <> eid -> enclaves s' e = enclaves s e) ->
  enclave_wf (enclaves s' eid) ->
  (forall e, is_eid e -> e <> eid -> disjoint_from (enclaves s' eid) (enclaves s e)) ->
  (forall e, is_eid e ->
    status (enclaves s' e) = ENCLAVE_RUNNING <-> enclave_mode s' = true /\ current_enclave s' = e) ->
  (enclave_mode s' = true -> current_enclave s' = eid) ->
  (exists o, pmp_pair (csrs (kmach s')) (Z.to_nat eid) o /\ slot_region (enclaves s' eid) o) ->
  (forall k o, k <> Z.to_nat eid -> (k < 3)%nat -> pmp_pair (csrs (kmach s)) k o -> pmp_pair (csrs (kmach s')) k o) ->
  pmp_pair (csrs (kmach s')) 3 (Some (last_region s')) ->
  csrs_wf (csrs (kmach s')) -> inv s'.
Proof.
  intros I He Ho Hwf Hd Hr Hc Hs Hp Hl Hw. split; try done.
  - intros e ?. destruct (decide (e = eid)) as [->|]; [done|]. rewrite Ho by done. by apply inv_wf.
  - intros e e' ???. destruct (decide (e = eid)) as [->|].
    { rewrite (Ho e') by done. by apply Hd. }
    rewrite (Ho e) by done. destruct (decide (e' = eid)) as [->|].
    { destruct (Hd e) as [?|[?|[?|?]]]; auto. }
    rewrite (Ho e') by done. by apply inv_disjoint.
  - intros Hm. by rewrite Hc.
  - intros e ?. destruct (decide (e = eid)) as [->|]; [done|]. rewrite Ho by done.
    destruct (inv_slots s I e) as (o & ? & ?); [done|]. exists o. split; [|done].
    apply Hp; [by apply eid_index_ne|by apply eid_index|done].
Qed.

Lemma inv_not_running s e : inv s -> enclave_mode s = false -> is_eid e -> status (enclaves s e) <> ENCLAVE_RUNNING.
Proof. intros I Hm He E. apply inv_running in E as [? _]; [|done..]. congruence. Qed.

Lemma inv_os_region s : inv s -> enclave_mode s = false ->
  pmp_pair (csrs (kmach s)) 3 (Some (mkRegion payload_start (payload_start + MAX_PAYLOAD_SIZE) PMPCFG_RWX)).
Proof. intros I Hm. pose proof (inv_last s I) as Hl. unfold last_region in Hl. by rewrite Hm in Hl. Qed.

Lemma create_inv eid en lo hi slo shi s s' : inv s -> 0 <= eid -> 0 <= lo -> 0 <= slo ->
  sys_create_enclave eid en lo hi slo shi s = Ret 0 s' -> inv s'.
Proof.
  intros I He0 Hlo Hslo E. destruct (create_allowed eid lo hi slo shi s) eqn:G.
  2:{ rewrite sys_create_refused in E by done. discriminate. }
  apply create_allowed_true in G as (Hm & He & Hst & Hrv & Hsv & Hov); [|done].
  destruct (sys_create_ok eid en lo hi slo shi s Hm He Hst Hrv Hsv Hov)
    as (s'' & E' & [Ho _] & Hn & Hm' & Hc & _ & Hk).
  rewrite E' in E. injection E as ->.
  destruct (region_addrs lo hi Hrv Hlo) as (El & Eh & Al & Ah).
  pose proof (eid_index eid He) as Hi.
  destruct (inv_slots s I eid He) as (o & Hp & _).
  destruct (chmod_put_same (Z.to_nat eid) 0 (csrs (kmach s)) o) as (a & b & Hp' & _); [lia..|done|].
  apply (inv_replace_slot s s' eid); rewrite ?Hn, ?Hm', ?Hk; try done.
  - right. split_and!; try done. cbn [status]. in_csrs.
  - intros e Hee Hne. destruct (overlap_loop_false _ _ _ _ _ Hov e) as [?|?]; [apply eid_cases in Hee; lia|..].
    + right. left. done.
    + left. done.
  - intros e Hee. destruct (decide (e = eid)) as [->|]; [rewrite Hn|rewrite Ho by done]; cbn [status].
    + split; [done|intros [? _]; congruence].
    + split; [by intros ?%inv_not_running|intros [? _]; congruence].
  - eexists. split; [apply (remap_put_same _ _ _ _ (mkRegion a b 0)); rewrite ?El, ?Eh; [lia|done..]|].
    unfold slot_region. cbn. by rewrite El, Eh.
  - intros k o' Hk1 Hk2 Hp2. cbn [csrs]. apply remap_put_other, chmod_put_other; done || lia.
  - unfold last_region. rewrite Hm'. cbn [csrs].
    apply remap_put_other, chmod_put_other; [lia..|by apply inv_os_region].
  - cbn [csrs]. apply remap_put_wf, chmod_put_wf, (inv_csrs s I).
Qed.
Lemma destroy_inv eid s s' : inv s -> 0 <= eid -> sys_destroy_enclave eid s = Ret 0 s' -> inv s'.
Proof.
  intros I He0 E. destruct (destroy_allowed eid s) eqn:G.
  2:{ rewrite sys_destroy_refused in E by done. discriminate. }
  apply destroy_allowed_true in G as (Hm & He & Hst); [|done].
  destruct (sys_destroy_ok eid s Hm He Hst) as (s'' & E' & [Ho _] & Hn & Hm' & Hc & _ & Hk).
  rewrite E' in E. injection E as ->.
  pose proof (eid_index eid He) as Hi.
  destruct (inv_slots s I eid He) as (o & Hp & Hso).
  apply (inv_replace_slot s s' eid); rewrite ?Hn, ?Hm', ?Hk; try done.
  - by left.
  - intros e Hee Hne. right. right. by left.
  - intros e Hee. destruct (decide (e = eid)) as [->|]; [rewrite Hn|rewrite Ho by done]; cbn [status].
    + split; [done|intros [? _]; congruence].
    + split; [by intros ?%inv_not_running|intros [? _]; congruence].
  - unfold slot_region in Hso. destruct (Z.eqb_spec (status (enclaves s eid)) ENCLAVE_FREE) as [E0|_];
      [rewrite E0 in Hst; by destruct Hst|].
    assert ((status (enclaves s eid) =? ENCLAVE_RUNNING) = false) as Er by (destruct Hst as [-> | ->]; done).
    rewrite Er in Hso. subst o.
    eexists. split; [apply (remap_put_same (Z.to_nat eid) _ _ _ _ ltac:(lia) pmp_addr_0 pmp_addr_0 Hp)|by right].
  - intros k o' Hk1 Hk2 Hp2. cbn [csrs]. apply remap_put_other; done || lia.
  - unfold last_region. rewrite Hm'. cbn [csrs].
    apply remap_put_other; [lia..|by apply inv_os_region].
  - cbn [csrs]. apply remap_put_wf, (inv_csrs s I).
Qed.

Lemma exit_inv s s' : inv s -> sys_exit_enclave s = Ret 0 s' -> inv s'.
Proof.
  intros I E. destruct (enclave_mode s) eqn:Hm.
  2:{ rewrite sys_exit_refused in E by done. discriminate. }
  pose proof (inv_current s I Hm) as He.
  destruct (sys_exit_ok s Hm He) as (s'' & E' & [Ho _] & Hn & Hm' & Hc & _ & Hk).
  rewrite E' in E. injection E as ->.
  set (eid := current_enclave s) in *. pose proof (eid_index eid He) as Hi.
  assert (status (enclaves s eid) = ENCLAVE_RUNNING) as Hst by (by apply inv_running).
  destruct (inv_slots s I eid He) as (o & Hp & Hso).
  unfold slot_region in Hso. rewrite Hst in Hso. cbn in Hso. subst o.
  pose proof (inv_wf s I eid He) as Hwf.
  apply (saved_csrs_put_pair (st_csr (host_state s))) in Hp.
  apply (chmod_put_keep _ 0) in Hp; [|lia..].
  assert (pmp_addr (payload_start + 0) /\ pmp_addr (payload_start + MAX_PAYLOAD_SIZE)) as [A0 A1]
    by (split; apply payload_pmp_addr; done).
  apply (inv_replace_slot s s' eid); rewrite ?Hn, ?Hm', ?Hk; try done.
  - destruct Hwf as [[E0 _]|(_ & Hwf)]; [by rewrite Hst in E0|]. right. split; [|done]. cbn [status with_status]. in_csrs.
  - intros e Hee Hne. unfold disjoint_from. cbn [with_status status secure_lower secure_upper].
    pose proof (inv_disjoint s I eid e He Hee ltac:(done)) as Hd. rewrite Hst in Hd.
    destruct Hd as [?|[?|[?|?]]]; auto. discriminate.
  - intros e Hee. destruct (decide (e = eid)) as [->|]; [rewrite Hn|rewrite Ho by done]; cbn [status with_status].
    + split; [done|intros [? _]; congruence].
    + split; [by intros [_ <-]%inv_running|intros [? _]; congruence].
  - eexists. split; [|unfold slot_region; cbn; done]. cbn [csrs].
    apply chmod_put_other, remap_put_other; done || lia.
  - intros k o' Hk1 Hk2 Hp2. cbn [csrs].
    apply chmod_put_other, remap_put_other, chmod_put_other, saved_csrs_put_pair; done || lia.
  - pose proof (inv_last s I) as Hl. unfold last_region. rewrite Hm'. cbn [csrs].
    apply (saved_csrs_put_pair (st_csr (host_state s))) in Hl.
    apply (chmod_put_other (Z.to_nat eid) 0) in Hl; [|lia..].
    rewrite !offset_to_phys_eq by done. rewrite <- (Z.add_0_r payload_start) at 3.
    by eapply remap_chmod_same; [lia|..].
  - cbn [csrs]. apply chmod_put_wf, remap_put_wf, chmod_put_wf, csrs_put_wf, (inv_csrs s I).
Qed.
Lemma resume_inv eid s s' : inv s -> 0 <= eid -> sys_resume_enclave eid s = Ret 0 s' -> inv s'.
Proof.
  intros I He0 E. destruct (resume_allowed eid s) eqn:G.
  2:{ rewrite sys_resume_refused in E by done. discriminate. }
  apply resume_allowed_true in G as (Hm & He & Hst); [|done].
  destruct (sys_resume_ok eid s Hm He Hst) as (s'' & E' & Ho & Hn & Hm' & Hc & _ & _ & Hk).
  rewrite E' in E. injection E as ->.
  pose proof (eid_index eid He) as Hi.
  destruct (inv_slots s I eid He) as (o & Hp & Hso).
  unfold slot_region in Hso. rewrite Hst in Hso. cbn in Hso. subst o.
  destruct (inv_wf s I eid He) as [[E0 _]|(_ & Hrv & Hlo & Hsv & Hslo)]; [by rewrite Hst in E0|].
  destruct (region_addrs _ _ Hsv Hslo) as (El & Eh & Al & Ah).
  apply (saved_csrs_put_pair (st_csr (encl_state (enclaves s eid)))) in Hp.
  apply (chmod_put_keep _ PMPCFG_RWX) in Hp; [|done || lia..].
  apply (inv_replace_slot s s' eid); rewrite ?Hn, ?Hm', ?Hk; try done.
  - right. split; [|done]. cbn [status with_status]. in_csrs.
  - intros e Hee Hne. unfold disjoint_from. cbn [with_status status secure_lower secure_upper].
    pose proof (inv_disjoint s I eid e He Hee ltac:(done)) as Hd. rewrite Hst in Hd.
    destruct Hd as [?|[?|[?|?]]]; auto. discriminate.
  - intros e Hee. destruct (decide (e = eid)) as [->|]; [rewrite Hn|rewrite Ho by done]; cbn [status with_status].
    + done.
    + split; [by intros ?%inv_not_running|]. intros [_ <-]. by rewrite Hc in *.
  - eexists. split; [|unfold slot_region; cbn; done]. cbn [csrs].
    apply chmod_put_other, remap_put_other; done || lia.
  - intros k o' Hk1 Hk2 Hp2. cbn [csrs].
    apply chmod_put_other, remap_put_other, chmod_put_other, saved_csrs_put_pair; done || lia.
  - unfold last_region. rewrite Hm', Hc, Hn. cbn [csrs with_status shared_lower shared_upper]. rewrite El, Eh.
    eapply remap_chmod_same; [lia|done..|].
    apply chmod_put_other, saved_csrs_put_pair, (inv_last s I); done || lia.
  - cbn [csrs]. apply chmod_put_wf, remap_put_wf, chmod_put_wf, csrs_put_wf, (inv_csrs s I).
Qed.

(** The invariant looks at the CSRs only through the PMP pairs. *)
Lemma inv_same_slots s s' : inv s ->
  (forall e, is_eid e -> exists st c, enclaves s' e =
     with_status st (with_encl_state c (enclaves s e)) /\
     (st = status (enclaves s e) \/ status (enclaves s e) = ENCLAVE_FRESH /\ st = ENCLAVE_IDLE)) ->
  enclave_mode s' = enclave_mode s -> current_enclave s' = current_enclave s ->
  (forall k o, pmp_pair (csrs (kmach s)) k o -> pmp_pair (csrs (kmach s')) k o) ->
  csrs_wf (csrs (kmach s')) -> inv s'.
Proof.
  intros I Hs Hm Hc Hp Hw.
  assert (forall e, is_eid e ->
    status (enclaves s' e) = ENCLAVE_RUNNING <-> status (enclaves s e) = ENCLAVE_RUNNING) as Hr.
  { intros e He. destruct (Hs e He) as (st & c & -> & [-> |[-> ->]]); done. }
  split; try done.
  - intros e He. destruct (Hs e He) as (st & c & -> & Hst).
    pose proof (inv_wf s I e He) as [Hf|Hv].
    + destruct Hst as [-> |[E _]]; [by left|]. destruct Hf as [Hf _]. by rewrite E in Hf.
    + right. destruct Hst as [-> |[_ ->]]; (split; [|apply Hv]); [apply Hv|]. cbn [status with_status]. in_csrs.
  - intros e e' He He' Hne. pose proof (inv_disjoint s I e e' He He' Hne) as Hd.
    destruct (Hs e He) as (st & c & -> & Hst), (Hs e' He') as (st' & c' & -> & Hst').
    cbn [with_status with_encl_state secure_lower secure_upper status].
    destruct Hst as [-> |[E ->]], Hst' as [-> |[E' ->]]; rewrite ?E, ?E' in Hd;
      destruct Hd as [?|[?|[?|?]]]; try discriminate; auto.
  - intros e He. rewrite Hr, Hm, Hc by done. by apply inv_running.
  - rewrite Hm, Hc. apply (inv_current s I).
  - intros e He. destruct (inv_slots s I e He) as (o & Ho & Hso). exists o. split; [by apply Hp|].
    destruct (Hs e He) as (st & c & -> & [-> |[E ->]]); [done|]. unfold slot_region in *. by rewrite E in Hso.
  - apply Hp. pose proof (inv_last s I) as Hl. unfold last_region in *. rewrite Hm, Hc.
    destruct (enclave_mode s) eqn:Em; [|done].
    by destruct (Hs _ (inv_current s I Em)) as (st & c & -> & _).
Qed.

Lemma inv_run_prepared eid s s1 : inv s -> is_eid eid ->
  status (enclaves s eid) = ENCLAVE_IDLE \/ status (enclaves s eid) = ENCLAVE_FRESH ->
  only_slot eid s s1 ->
  enclaves s1 eid = with_status ENCLAVE_IDLE (with_encl_state (start_context (enclaves s eid)) (enclaves s eid)) ->
  enclave_mode s1 = enclave_mode s -> current_enclave s1 = current_enclave s -> kmach s1 = kmach s -> inv s1.
Proof.
  intros I He Hst [Ho _] Hn Hm Hc Hk. apply (inv_same_slots s); try done; [|by rewrite Hk|rewrite Hk; apply (inv_csrs s I)].
  intros e Hee. destruct (decide (e = eid)) as [->|Hne].
  - rewrite Hn. eexists _, _. split; [done|]. destruct Hst as [-> | ->]; auto.
  - rewrite Ho by done. exists (status (enclaves s e)), (encl_state (enclaves s e)).
    split; [by destruct (enclaves s e)|auto].
Qed.
(** Only the machine changes, and its PMP registers do not. *)
Lemma inv_machine s s' : inv s ->
  enclaves s' = enclaves s -> enclave_mode s' = enclave_mode s -> current_enclave s' = current_enclave s ->
  (forall k o, pmp_pair (csrs (kmach s)) k o -> pmp_pair (csrs (kmach s')) k o) ->
  csrs_wf (csrs (kmach s')) -> inv s'.
Proof.
  intros I He Hm Hc Hp Hw. apply (inv_same_slots s); try done.
  intros e _. rewrite He. exists (status (enclaves s e)), (encl_state (enclaves s e)).
  split; [by destruct (enclaves s e)|auto].
Qed.

(** * Every call returns and keeps the invariant *)

Definition returns_inv (m : M kstate Z) s : Prop := exists r s', m s = Ret r s' /\ inv s'.

Lemma refused_returns m s : inv s -> m s = Ret (- EINVAL) s -> returns_inv m s.
Proof. intros I E. by exists (- EINVAL), s. Qed.

Lemma create_returns eid en lo hi slo shi s : inv s -> 0 <= eid -> 0 <= lo -> 0 <= slo ->
  returns_inv (sys_create_enclave eid en lo hi slo shi) s.
Proof.
  intros I He Hlo Hslo. destruct (create_allowed eid lo hi slo shi s) eqn:G.
  2:{ by apply refused_returns, sys_create_refused. }
  apply create_allowed_true in G as (? & ? & ? & ? & ? & ?); [|done].
  destruct (sys_create_ok eid en lo hi slo shi s) as (s' & E & _); try done.
  exists 0, s'. split; [done|]. by eapply create_inv in E.
Qed.

Lemma destroy_returns eid s : inv s -> 0 <= eid -> returns_inv (sys_destroy_enclave eid) s.
Proof.
  intros I He. destruct (destroy_allowed eid s) eqn:G.
  2:{ by apply refused_returns, sys_destroy_refused. }
  apply destroy_allowed_true in G as (? & ? & ?); [|done].
  destruct (sys_destroy_ok eid s) as (s' & E & _); try done.
  exists 0, s'. split; [done|]. by eapply destroy_inv in E.
Qed.

Lemma resume_returns eid s : inv s -> 0 <= eid -> returns_inv (sys_resume_enclave eid) s.
Proof.
  intros I He. destruct (resume_allowed eid s) eqn:G.
  2:{ by apply refused_returns, sys_resume_refused. }
  apply resume_allowed_true in G as (? & ? & ?); [|done].
  destruct (sys_resume_ok eid s) as (s' & E & _); try done.
  exists 0, s'. split; [done|]. by eapply resume_inv in E.
Qed.

Lemma run_returns eid s : inv s -> 0 <= eid -> returns_inv (sys_run_enclave eid) s.
Proof.
  intros I He. destruct (destroy_allowed eid s) eqn:G.
  2:{ by apply refused_returns, sys_run_refused. }
  apply destroy_allowed_true in G as (Hm & ? & ?); [|done].
  destruct (sys_run_prepared eid s) as (s1 & E & Ho & Hn & Hm1 & Hc & _ & Hk); try done.
  unfold returns_inv. rewrite E. apply resume_returns; [|done].
  apply (inv_run_prepared eid s); try done. by rewrite Hm1.
Qed.

Lemma exit_returns s : inv s -> returns_inv sys_exit_enclave s.
Proof.
  intros I. destruct (enclave_mode s) eqn:Hm.
  2:{ by apply refused_returns, sys_exit_refused. }
  destruct (sys_exit_ok s Hm (inv_current s I Hm)) as (s' & E & _).
  exists 0, s'. split; [done|]. by eapply exit_inv in E.
Qed.

Lemma call_returns regs s : inv s -> regs_wf regs ->
  keystone_call regs s = Halt Shutdown \/ returns_inv (keystone_call regs) s.
Proof.
  intros I Hr. unfold keystone_call. cbn zeta.
  assert (forall g, 0 <= regs g) as Hnn by (intros g; apply Hr).
  repeat case_match; try (right; solve [auto using create_returns, destroy_returns, run_returns, exit_returns, resume_returns]).
  - destruct (do_mcall_cases regs s) as [-> |(r & d & E)]; [by left|right].
    eexists _, _. split; [exact E|]. apply (inv_machine s); try done. apply (inv_csrs s I).
  - right. by eexists _, _.
Qed.

Lemma frame_inv s f : inv s -> inv (on_frame f s).
Proof. intros I. apply (inv_machine s); try done. apply (inv_csrs s I). Qed.

Lemma mepc_inv s v : inv s -> inv (on_csrs (fun f => csr_put f CSR_mepc v) s).
Proof.
  intros I. apply (inv_machine s); try done; [|apply csr_put_wf, (inv_csrs s I)].
  intros k o Hp. apply (csrs_put_pair [CSR_mepc] (fun _ => v)); [|done].
  intros c Hc _. destruct c; first [in_csrs | by exfalso; revert Hc; in_csrs].
Qed.

(** An ecall either switches the machine off on request or returns. *)
Lemma ecall_returns s : inv s -> regs_wf (frame (kmach s)) ->
  do_trap_ecall_s s = Halt Shutdown \/ exists s', do_trap_ecall_s s = Ret tt s' /\ inv s'.
Proof.
  intros I Hr. unfold do_trap_ecall_s. erewrite bind_Ret by (apply gets_eq).
  destruct (call_returns _ s I Hr) as [E|(r & s1 & E & I1)].
  { left. unfold mbind, M_bind. simpl. by rewrite E. }
  right. erewrite bind_Ret by (exact E). erewrite bind_Ret by (apply modify_eq).
  destruct (_ =? _); eexists; (split; [reflexivity|]); [by apply frame_inv|by apply mepc_inv, frame_inv].
Qed.
End keystone.
