(* ===== verification/KeystoneSafety.v ===== *)
(** Keystone: reachable states, memory isolation and integrity, context round
    trips, and the refinement of an abstract enclave table. *)

From S2P Require Import Prelude.
From S2P Require Import Console.
From S2P Require Import Cstring.
From S2P Require Import Machine.
From S2P Require Import Mcall.
From S2P Require Import Keystone.
From S2P Require Import KeystoneInv.

Section keystone.
Context `{Console} `{Layout}.
Implicit Types s : kstate.

(** * Reachable states *)

(** The OS or an enclave runs until it traps: it changes its registers, its CSRs
    and the memory the PMP lets it write; the monitor's globals stay. *)
Record lower s s' : Prop := mkLower {
  lower_enclaves : enclaves s' = enclaves s;
  lower_mode : enclave_mode s' = enclave_mode s;
  lower_current : current_enclave s' = current_enclave s;
  lower_host : host_state s' = host_state s;
  lower_kcsrs : lower_csrs (csrs (kmach s)) (csrs (kmach s'));
  lower_kmem : lower_mem (csrs (kmach s)) (kmem s) (kmem s');
  lower_regs : regs_wf (frame (kmach s'))
}.

(** Software runs and then makes an S-mode ecall that the monitor answers. *)
Definition ecall_step s s' : Prop := exists s1, lower s s1 /\ trap EXC_ECALL_S s1 = Ret tt s'.

Inductive reachable : kstate -> Prop :=
  | reach_boot hartid dtb s0 regs s :
      reset_pmp (csrs (kmach s0)) -> main hartid dtb s0 = Mret regs s -> reachable s
  | reach_step s s' : reachable s -> ecall_step s s' -> reachable s'.

Lemma trap_ecall s : trap EXC_ECALL_S s = do_trap_ecall_s s.
Proof. reflexivity. Qed.

(** CSRs the boot code writes after the PMP is set up. *)
Definition boot_csrs : list csr := [CSR_mstatus; CSR_mcounteren; CSR_medeleg; CSR_mideleg; CSR_mepc].

Definition supervisor_csrs (f : csr_file) : csr_file :=
  let clr c v f := csr_put f c (Z.ldiff (csr_get f c) (u64 v)) in
  let set c v f := csr_put f c (csr_get f c .| u64 v) in
  let f := set CSR_mstatus SR_MPP_S (clr CSR_mstatus SR_MPP f) in
  let f := set CSR_mstatus SR_SXL_64 (clr CSR_mstatus SR_SXL f) in
  let f := set CSR_mstatus SR_UXL_64 (clr CSR_mstatus SR_UXL f) in
  csr_put (csr_put (csr_put (csr_put f CSR_mcounteren 0xffffffff) CSR_medeleg EDEL_MOST)
    CSR_mideleg IDEL_S) CSR_mepc payload_start.

Lemma supervisor_init_eq hartid dtb s :
  supervisor_init hartid dtb s =
  Mret (<[R_a1 := dtb]> (<[R_a0 := hartid]> zero_regs)) (on_csrs supervisor_csrs s).
Proof. reflexivity. Qed.

Lemma supervisor_csrs_wf f : csrs_wf f -> csrs_wf (supervisor_csrs f).
Proof. intros. unfold supervisor_csrs. auto 20 using csr_put_wf. Qed.

Lemma supervisor_csrs_pmp f c : c = CSR_pmpcfg0 \/ c ∈ pmpaddr_csrs -> supervisor_csrs f c = f c.
Proof.
  intros Hc. assert (c ∉ boot_csrs) as Hb.
  { destruct Hc as [-> |Hc]; [in_csrs|]. destruct c; first [in_csrs | by exfalso; revert Hc; in_csrs]. }
  unfold supervisor_csrs. rewrite !csr_put_other; [done|..]; cbn [csr_home]; intros ->; apply Hb; in_csrs.
Qed.

Lemma supervisor_csrs_pair f k o : pmp_pair f k o -> pmp_pair (supervisor_csrs f) k o.
Proof.
  intros (a & b & Ea & Eb & E). exists a, b. unfold pmp_cfg_byte in *.
  rewrite (supervisor_csrs_pmp f CSR_pmpcfg0) by auto.
  rewrite !supervisor_csrs_pmp by (right; by eapply list_elem_of_lookup_2). done.
Qed.

Lemma boot_inv hartid dtb s0 : reset_pmp (csrs (kmach s0)) ->
  exists regs s, main hartid dtb s0 = Mret regs s /\ inv s.
Proof.
  intros Hr. pose proof Hr as [Hw Hoff]. unfold main.
  erewrite bind_Ret by reflexivity. unfold pmp_init.
  erewrite bind_Ret by (apply remap_os_region_eq). rewrite supervisor_init_eq.
  eexists _, _. split; [reflexivity|].
  split; cbn [enclaves enclave_mode kmach on_csrs get_mach set_mach kstate_machine csrs]; try done.
  - by left.
  - intros. right. right. by left.
  - intros e _. split; [done|by intros [? _]].
  - intros e He. exists None. split; [|by left]. pose proof (eid_index e He).
    apply supervisor_csrs_pair, chmod_put_other, remap_put_other, reset_pair; done || lia.
  - unfold last_region. cbn [enclave_mode]. apply supervisor_csrs_pair. rewrite !offset_to_phys_eq by done.
    rewrite <- (Z.add_0_r payload_start) at 3.
    eapply remap_chmod_same, (reset_pair _ 3 Hoff); try (done || lia); by apply payload_pmp_addr.
  - apply supervisor_csrs_wf, chmod_put_wf, remap_put_wf, Hw.
Qed.
Lemma lower_inv s s' : inv s -> lower s s' -> inv s'.
Proof.
  intros I []. apply (inv_machine s); try done; [|apply lower_kcsrs0].
  intros k o. apply pmp_pair_ext, (lower_m_only _ _ lower_kcsrs0).
Qed.

Lemma ecall_inv s s' : inv s -> regs_wf (frame (kmach s)) -> trap EXC_ECALL_S s = Ret tt s' -> inv s'.
Proof.
  rewrite trap_ecall. intros I Hr E.
  destruct (ecall_returns s I Hr) as [E'|(s2 & E' & I2)]; rewrite E' in E; [done|]. by simplify_eq.
Qed.

Lemma step_inv s s' : inv s -> ecall_step s s' -> inv s'.
Proof. intros I (s1 & Hl & E). eapply ecall_inv; [|apply (lower_regs _ _ Hl)|done]. by eapply lower_inv. Qed.

Lemma reachable_inv s : reachable s -> inv s.
Proof.
  induction 1 as [hartid dtb s0 regs s Hr E|s s' _ I Hs].
  - destruct (boot_inv hartid dtb s0 Hr) as (? & ? & E' & I). by rewrite E in E'; simplify_eq.
  - by eapply step_inv.
Qed.

(** C11: from every reachable state, whatever the software below does before it
    traps, an ecall returns to it or powers the machine off on request: no BUG()
    fires, no array is indexed out of bounds, and the state stays reachable. *)
Theorem keystone_ecall_total s s1 : reachable s -> lower s s1 ->
  trap EXC_ECALL_S s1 = Halt Shutdown \/
  exists s', trap EXC_ECALL_S s1 = Ret tt s' /\ reachable s' /\ inv s'.
Proof.
  intros R Hl. pose proof (lower_inv _ _ (reachable_inv s R) Hl) as I1. rewrite trap_ecall.
  destruct (ecall_returns s1 I1 (lower_regs _ _ Hl)) as [E|(s' & E & I')]; [by left|right].
  exists s'. split_and!; try done. eapply reach_step; [done|]. by exists s1.
Qed.

(** * Memory isolation *)

(** The byte at [a] belongs to the secure region of [e]. *)
Definition in_secure (e : enclave) (a : Z) : bool :=
  (payload_start + secure_lower e <=? a) && (a <? payload_start + secure_upper e).

Lemma slot_privs e o any rs a : enclave_wf e -> slot_region e o -> 0 <= a ->
  regions_privs any (o :: rs) a 1 =
  if in_secure e a then (if status e =? ENCLAVE_RUNNING then PMPCFG_RWX else 0)
  else regions_privs (any || bool_decide (o <> None)) rs a 1.
Proof.
  intros Hwf Hs Ha. unfold slot_region in Hs.
  assert (forall r, o = Some r -> regions_privs any (o :: rs) a 1 =
    if (r_lo r <=? a) && (a <? r_hi r) then r_perm r else regions_privs true rs a 1) as Hr.
  { intros r ->. cbn [regions_privs]. rewrite byte_contains, byte_overlaps.
    by destruct (_ && _). }
  destruct (Z.eqb_spec (status e) ENCLAVE_FREE) as [E|E].
  - assert (in_secure e a = false) as ->.
    { destruct Hwf as [(_ & El & Eu)|(Hin & _)]; [|rewrite E in Hin; exfalso; revert Hin; in_csrs].
      unfold in_secure. rewrite El, Eu. apply andb_false_iff. lia. }
    destruct Hs as [-> | ->]; [by rewrite orb_false_r|].
    rewrite (Hr _ eq_refl), orb_true_r. cbn [r_lo r_hi]. by replace (_ && _) with false by lia.
  - rewrite (Hr _ Hs). subst o. rewrite orb_true_r. cbn [r_lo r_hi r_perm]. done.
Qed.
(** Secure regions do not share bytes. *)
Lemma in_secure_unique s e e' a : inv s -> is_eid e -> is_eid e' ->
  in_secure (enclaves s e) a = true -> in_secure (enclaves s e') a = true -> e = e'.
Proof.
  intros I He He' Ha Ha'. destruct (decide (e = e')) as [|Hne]; [done|exfalso].
  unfold in_secure in *. rewrite andb_true_iff, Z.leb_le, Z.ltb_lt in *.
  assert (forall x, is_eid x -> status (enclaves s x) = ENCLAVE_FREE ->
    secure_upper (enclaves s x) <= secure_lower (enclaves s x)) as Hf.
  { intros x Hx Ex. destruct (inv_wf s I x Hx) as [(_ & -> & ->)|(Hin & _)]; [lia|].
    rewrite Ex in Hin. exfalso. revert Hin. in_csrs. }
  destruct (inv_disjoint s I e e' He He' Hne) as [?|[?|[Hx|Hx]]]; [lia..| |];
    apply Hf in Hx; (done || lia).
Qed.

Lemma privs_inv s a : inv s -> 0 <= a < 2 ^ 64 - 1 ->
  pmp_privs (csrs (kmach s)) a 1 = Some (
    let run e := if status (enclaves s e) =? ENCLAVE_RUNNING then PMPCFG_RWX else 0 in
    let r := last_region s in
    if in_secure (enclaves s 0) a then run 0
    else if in_secure (enclaves s 1) a then run 1
    else if in_secure (enclaves s 2) a then run 2
    else if (r_lo r <=? a) && (a <? r_hi r) then r_perm r else 0).
Proof.
  intros I Ha.
  destruct (inv_slots s I 0 ltac:(done)) as (o0 & P0 & S0).
  destruct (inv_slots s I 1 ltac:(done)) as (o1 & P1 & S1).
  destruct (inv_slots s I 2 ltac:(done)) as (o2 & P2 & S2).
  rewrite (pmp_privs_regions a 1 ltac:(lia) ltac:(lia) ltac:(lia) _ _ _ _ _ P0 P1 P2 (inv_last s I)).
  rewrite (slot_privs (enclaves s 0)) by (by try apply inv_wf || lia).
  rewrite (slot_privs (enclaves s 1)) by (by try apply inv_wf || lia).
  rewrite (slot_privs (enclaves s 2)) by (by try apply inv_wf || lia).
  cbn zeta. repeat (case_match; [done|]). cbn [regions_privs].
  rewrite byte_contains, byte_overlaps. by destruct (_ && _).
Qed.

(** C1: in every reachable state the PMP gives S-mode exactly the intended access
    to each byte of physical memory.  A byte of an enclave's secure region is
    RWX while that enclave runs and inaccessible otherwise, to the OS and to the
    other enclaves alike; any other byte is RWX for the OS inside the payload
    area, read-write for a running enclave inside its shared region, and
    inaccessible elsewhere (the monitor's own memory included). *)
Theorem keystone_isolation s a : reachable s -> 0 <= a < 2 ^ 64 - 1 ->
  (forall e, is_eid e -> in_secure (enclaves s e) a = true ->
     pmp_privs (csrs (kmach s)) a 1 =
     Some (if enclave_mode s && (current_enclave s =? e) then PMPCFG_RWX else 0)) /\
  ((forall e, is_eid e -> in_secure (enclaves s e) a = false) ->
     pmp_privs (csrs (kmach s)) a 1 = Some (
       if enclave_mode s then
         let e := enclaves s (current_enclave s) in
         if (payload_start + shared_lower e <=? a) && (a <? payload_start + shared_upper e)
         then PMPCFG_R .| PMPCFG_W else 0
       else if (payload_start <=? a) && (a <? payload_start + MAX_PAYLOAD_SIZE) then PMPCFG_RWX else 0)).
Proof.
  intros I%reachable_inv Ha. rewrite (privs_inv s a I Ha). split.
  - intros e He Hin.
    assert (forall e', is_eid e' -> e' <> e -> in_secure (enclaves s e') a = false) as Hu.
    { intros e' He' Hne. destruct (in_secure (enclaves s e') a) eqn:E; [|done].
      by destruct Hne; apply (in_secure_unique s e' e a). }
    assert ((status (enclaves s e) =? ENCLAVE_RUNNING) = enclave_mode s && (current_enclave s =? e)) as <-.
    { apply eq_true_iff_eq. rewrite Z.eqb_eq, andb_true_iff, Z.eqb_eq. by apply inv_running. }
    cbn zeta. destruct (eid_cases e He) as [->|[->| ->]].
    + by rewrite Hin.
    + by rewrite (Hu 0), Hin by done.
    + by rewrite (Hu 0), (Hu 1), Hin by done.
  - intros Hn. rewrite !Hn by done. cbn zeta. unfold last_region. by destruct (enclave_mode s).
Qed.
(** * The effect of a call *)

(** What an ecall with registers [regs] did when it returned [r]. *)
Inductive call_effect (regs : pt_regs) s : Z -> kstate -> Prop :=
  | eff_none r d : call_effect regs s r (on_dev (fun _ => d) s)
  | eff_create s' :
      create_allowed (regs R_a0) (regs R_a2) (regs R_a3) (regs R_a4) (regs R_a5) s = true ->
      regs R_a7 = NR_create_enclave ->
      create_post (regs R_a0) (regs R_a1) (regs R_a2) (regs R_a3) (regs R_a4) (regs R_a5) s s' ->
      call_effect regs s 0 s'
  | eff_destroy s' : destroy_allowed (regs R_a0) s = true -> regs R_a7 = NR_destroy_enclave ->
      destroy_post (regs R_a0) s s' -> call_effect regs s 0 s'
  | eff_run s1 s' : destroy_allowed (regs R_a0) s = true -> regs R_a7 = NR_run_enclave ->
      run_prepared (regs R_a0) s s1 -> resume_post (regs R_a0) s1 s' -> call_effect regs s 0 s'
  | eff_resume s' : resume_allowed (regs R_a0) s = true -> regs R_a7 = NR_resume_enclave ->
      resume_post (regs R_a0) s s' -> call_effect regs s 0 s'
  | eff_exit s' : enclave_mode s = true -> regs R_a7 = NR_exit_enclave ->
      exit_post s s' -> call_effect regs s 0 s'.

Lemma eff_unchanged regs s r : call_effect regs s r s.
Proof. pose proof (eff_none regs s r (dev (get_mach s))) as E. by rewrite on_dev_id in E. Qed.

Lemma call_cases regs s r s' : inv s -> regs_wf regs ->
  keystone_call regs s = Ret r s' -> call_effect regs s r s'.
Proof.
  intros I Hr. assert (forall g, 0 <= regs g) as Hnn by (intros g; apply Hr).
  unfold keystone_call. cbn zeta.
  destruct (is_sbi _).
  { destruct (do_mcall_cases regs s) as [-> |(? & ? & ->)]; intros; simplify_eq. apply eff_none. }
  destruct (Z.eqb_spec (regs R_a7) NR_create_enclave).
  { destruct (create_allowed (regs R_a0) (regs R_a2) (regs R_a3) (regs R_a4) (regs R_a5) s) eqn:G.
    - pose proof G as (? & ? & ? & ? & ? & ?)%create_allowed_true; [|done].
      destruct (sys_create_ok (regs R_a0) (regs R_a1) (regs R_a2) (regs R_a3) (regs R_a4) (regs R_a5) s)
        as (? & -> & ?); try done. intros; simplify_eq. by apply eff_create.
    - rewrite sys_create_refused by done. intros; simplify_eq. apply eff_unchanged. }
  destruct (Z.eqb_spec (regs R_a7) NR_destroy_enclave).
  { destruct (destroy_allowed (regs R_a0) s) eqn:G.
    - pose proof G as (? & ? & ?)%destroy_allowed_true; [|done].
      destruct (sys_destroy_ok (regs R_a0) s) as (? & -> & ?); try done.
      intros; simplify_eq. by apply eff_destroy.
    - rewrite sys_destroy_refused by done. intros; simplify_eq. apply eff_unchanged. }
  destruct (Z.eqb_spec (regs R_a7) NR_run_enclave).
  { destruct (destroy_allowed (regs R_a0) s) eqn:G.
    - pose proof G as (? & ? & ?)%destroy_allowed_true; [|done].
      destruct (sys_run_prepared (regs R_a0) s) as (s1 & -> & Hp); try done.
      pose proof Hp as (_ & Hn & Hm & _).
      destruct (sys_resume_ok (regs R_a0) s1) as (? & -> & ?); try done; [by rewrite Hn|].
      intros; simplify_eq. by apply (eff_run _ _ s1).
    - rewrite sys_run_refused by done. intros; simplify_eq. apply eff_unchanged. }
  destruct (Z.eqb_spec (regs R_a7) NR_exit_enclave).
  { destruct (enclave_mode s) eqn:Hm.
    - destruct (sys_exit_ok s Hm (inv_current s I Hm)) as (? & -> & ?).
      intros; simplify_eq. by apply eff_exit.
    - rewrite sys_exit_refused by done. intros; simplify_eq. apply eff_unchanged. }
  destruct (Z.eqb_spec (regs R_a7) NR_resume_enclave).
  { destruct (resume_allowed (regs R_a0) s) eqn:G.
    - pose proof G as (? & ? & ?)%resume_allowed_true; [|done].
      destruct (sys_resume_ok (regs R_a0) s) as (? & -> & ?); try done.
      intros; simplify_eq. by apply eff_resume.
    - rewrite sys_resume_refused by done. intros; simplify_eq. apply eff_unchanged. }
  intros E. injection E as <- <-. apply eff_unchanged.
Qed.
(** The state after the call's result is stored and mepc advanced. *)
Definition ecall_return (nr r : Z) s : kstate :=
  let s := on_frame (<[R_a0 := u64 r]>) s in
  if nr =? NR_run_enclave then s
  else on_csrs (fun f => csr_put f CSR_mepc (f CSR_mepc + 4)) s.

Lemma ecall_split s s' : trap EXC_ECALL_S s = Ret tt s' ->
  let regs := frame (kmach s) in
  exists r s1, keystone_call regs s = Ret r s1 /\ s' = ecall_return (regs R_a7) r s1.
Proof.
  rewrite trap_ecall. unfold do_trap_ecall_s. erewrite bind_Ret by (apply gets_eq).
  cbn [get_mach kstate_machine]. intros E.
  destruct (keystone_call (frame (kmach s)) s) as [r s1| |] eqn:Ec; unfold mbind at 1, M_bind at 1 in E;
    rewrite Ec in E; try done.
  exists r, s1. split; [done|]. unfold ecall_return.
  destruct (frame (kmach s) R_a7 =? NR_run_enclave); cbn [negb] in E; cbn in E; by injection E as <-.
Qed.

Lemma ecall_return_globals nr r s : let s' := ecall_return nr r s in
  enclaves s' = enclaves s /\ enclave_mode s' = enclave_mode s /\ current_enclave s' = current_enclave s /\
  host_state s' = host_state s /\ kmem s' = kmem s.
Proof. unfold ecall_return. by destruct (_ =? _). Qed.

(** A step, seen as software followed by a call with a known effect. *)
Lemma step_split s s' : inv s -> ecall_step s s' ->
  exists s1 r s2, lower s s1 /\ inv s1 /\ call_effect (frame (kmach s1)) s1 r s2 /\
    s' = ecall_return (frame (kmach s1) R_a7) r s2.
Proof.
  intros I (s1 & Hl & E). pose proof (lower_inv _ _ I Hl) as I1.
  apply ecall_split in E as (r & s2 & Ec & ->). exists s1, r, s2.
  apply call_cases in Ec; [done..|]. apply (lower_regs _ _ Hl).
Qed.

Lemma in_secure_range e a : enclave_wf e -> in_secure e a = true -> 0 <= a < 2 ^ 64 - 1.
Proof.
  intros Hwf Ha. unfold in_secure in Ha. rewrite andb_true_iff, Z.leb_le, Z.ltb_lt in Ha.
  pose proof payload_range. destruct Hwf as [(_ & El & Eu)|(_ & (?&?&?&?)%is_region_valid_spec & ? & _)]; lia.
Qed.

(** Software cannot write the secure region of an enclave that does not run. *)
Lemma lower_secure s s1 e a : inv s -> lower s s1 -> is_eid e ->
  status (enclaves s e) <> ENCLAVE_RUNNING -> in_secure (enclaves s e) a = true -> kmem s1 a = kmem s a.
Proof.
  intros I Hl He Hst Ha. destruct (decide (kmem s1 a = kmem s a)) as [|Hne]; [done|exfalso].
  destruct (lower_kmem _ _ Hl a Hne) as (p & Hp & Hw).
  rewrite (privs_inv s a I) in Hp by (eapply in_secure_range, Ha; by apply inv_wf).
  apply Hw. injection Hp as <-. cbn zeta.
  assert (forall e', is_eid e' -> in_secure (enclaves s e') a = true ->
    (if status (enclaves s e') =? ENCLAVE_RUNNING then PMPCFG_RWX else 0) = 0) as Hz.
  { intros e' He' Ha'. rewrite <- (in_secure_unique s e e' a) by done.
    by destruct (Z.eqb_spec (status (enclaves s e)) ENCLAVE_RUNNING). }
  destruct (in_secure (enclaves s 0) a) eqn:E0; [by rewrite Hz|].
  destruct (in_secure (enclaves s 1) a) eqn:E1; [by rewrite Hz|].
  destruct (in_secure (enclaves s 2) a) eqn:E2; [by rewrite Hz|].
  destruct (eid_cases e He) as [->|[->| ->]]; congruence.
Qed.

(** The bytes sys_destroy_enclave clears are those of the secure region. *)
Lemma destroy_clears e m a : enclave_wf e ->
  memset m (offset_to_virt (secure_lower e)) 0 (u64 (secure_upper e - secure_lower e)) a =
  if in_secure e a then 0 else m a.
Proof.
  intros Hwf. assert (0 <= secure_lower e <= secure_upper e /\ secure_upper e <= MAX_PAYLOAD_SIZE) as [].
  { destruct Hwf as [(_ & -> & ->)|(_ & (?&?&?&?)%is_region_valid_spec & ? & _)]; unfold MAX_PAYLOAD_SIZE, SZ_1G in *; lia. }
  assert (MAX_PAYLOAD_SIZE < 2 ^ 64) by done. change offset_to_virt with offset_to_phys.
  rewrite offset_to_phys_eq, memset_spec, (wrap_small 64) by (try apply wrap_range; lia).
  replace (in_range a _ _) with (in_secure e a); [done|].
  unfold in_secure, in_range. f_equal. f_equal. lia.
Qed.

(** C9: whatever the OS or another enclave does, and whatever call it makes, the
    secure memory of an enclave that is not running keeps its contents, unless
    the call destroys the enclave, and then every byte of it reads zero. *)
Theorem keystone_integrity s s' e a : reachable s -> ecall_step s s' ->
  is_eid e -> status (enclaves s e) <> ENCLAVE_RUNNING -> in_secure (enclaves s e) a = true ->
  kmem s' a = kmem s a \/ status (enclaves s' e) = ENCLAVE_FREE /\ kmem s' a = 0.
Proof.
  intros I%reachable_inv Hs He Hst Ha. destruct (step_split s s' I Hs) as (s1 & r & s2 & Hl & I1 & Hc & ->).
  destruct (ecall_return_globals (frame (kmach s1) R_a7) r s2) as (-> & _ & _ & _ & ->).
  rewrite <- (lower_secure s s1 e a) by done.
  assert (forall x, kmem s2 = kmem x -> kmem x = kmem s1 -> kmem s2 a = kmem s1 a) as Hk by congruence.
  destruct Hc as [r d|s2 _ _ (_&_&_&_&Em&_)|s2 G _ P|s0 s2 _ _ (_&_&_&_&Em0&_) (_&_&_&_&Em&_)
    |s2 _ _ (_&_&_&_&Em&_)|s2 _ _ (_&_&_&_&Em&_)]; try (left; by eapply Hk).
  apply destroy_allowed_true in G as (_ & Hd & _); [|apply (lower_regs _ _ Hl)].
  destruct P as ([Ho _] & Hn & _ & _ & -> & _). rewrite destroy_clears by (by apply inv_wf).
  destruct (in_secure (enclaves s1 _) a) eqn:Ea; [|by left]. right. split; [|done].
  replace e with (frame (kmach s1) R_a0); [by rewrite Hn|].
  eapply (in_secure_unique s1); try done. by rewrite (lower_enclaves _ _ Hl).
Qed.
End keystone.
