(* ===== verification/KeystoneSpec.v ===== *)
(** Keystone: an abstract enclave table and the proof that the calls implement
    it, the context round trips of host and enclave, and the behaviour of a
    refused run. *)

From S2P Require Import Prelude.
From S2P Require Import Console.
From S2P Require Import Cstring.
From S2P Require Import Machine.
From S2P Require Import Mcall.
From S2P Require Import Keystone.
From S2P Require Import KeystoneInv.
From S2P Require Import KeystoneSafety.

(** * The abstract enclave table *)

Record aslot : Type := mkSlot {
  a_entry : Z;
  a_secure : Z * Z;
  a_shared : Z * Z;
  a_started : bool
}.

Record astate : Type := mkA { slots : Z -> option aslot; running : option Z }.

(** Abstract states agree when they agree on the slots that exist. *)
#[export] Instance astate_equiv : Equiv astate := fun x y =>
  running x = running y /\ forall e, is_eid e -> slots x e = slots y e.

#[export] Instance astate_equivalence : Equivalence (≡@{astate}).
Proof.
  split.
  - done.
  - intros x y [E1 E2]. split; [done|]. intros. by rewrite E2.
  - intros x y z [E1 E2] [E3 E4]. split; [congruence|]. intros. by rewrite E2, E4.
Qed.

(** A region of the payload area: aligned, not empty. *)
Definition a_region (lo hi : Z) : bool :=
  (lo mod 4 =? 0) && (hi mod 4 =? 0) && (lo <? hi) && (hi <=? MAX_PAYLOAD_SIZE).

Definition a_overlaps (lo hi : Z) (o : option aslot) : bool :=
  match o with
  | Some a => (lo <? (a_secure a).2) && ((a_secure a).1 <? hi)
  | None => false
  end.

Definition a_start (eid : Z) (a : aslot) (st : astate) : astate :=
  mkA (<[eid := Some (mkSlot (a_entry a) (a_secure a) (a_shared a) true)]> (slots st)) (Some eid).

(** The calls on the table; [None] is a refusal. *)
Definition a_create (eid entry lo hi slo shi : Z) (st : astate) : option astate :=
  match running st, slots st eid with
  | None, None =>
      if (eid <? NR_ENCLAVES) && a_region lo hi && a_region slo shi &&
         forallb (fun e => negb (a_overlaps lo hi (slots st e))) [0; 1; 2]
      then Some (mkA (<[eid := Some (mkSlot entry (lo, hi) (slo, shi) false)]> (slots st)) None)
      else None
  | _, _ => None
  end.

Definition a_destroy (eid : Z) (st : astate) : option astate :=
  match running st, slots st eid with
  | None, Some _ => if eid <? NR_ENCLAVES then Some (mkA (<[eid := None]> (slots st)) None) else None
  | _, _ => None
  end.

Definition a_run (eid : Z) (st : astate) : option astate :=
  match running st, slots st eid with
  | None, Some a => if eid <? NR_ENCLAVES then Some (a_start eid a st) else None
  | _, _ => None
  end.

Definition a_resume (eid : Z) (st : astate) : option astate :=
  match running st, slots st eid with
  | None, Some a => if (eid <? NR_ENCLAVES) && a_started a then Some (a_start eid a st) else None
  | _, _ => None
  end.

Definition a_exit (st : astate) : option astate :=
  match running st with
  | Some _ => Some (mkA (slots st) None)
  | None => None
  end.

(** The answer to a call: an error number and the old state, or zero and the new one. *)
Definition a_answer (st : astate) (o : option astate) : Z * astate :=
  match o with
  | Some st' => (0, st')
  | None => (- EINVAL, st)
  end.

Definition a_call (regs : pt_regs) (st : astate) : Z * astate :=
  let nr := regs R_a7 in
  if nr =? NR_create_enclave then
    a_answer st (a_create (regs R_a0) (regs R_a1) (regs R_a2) (regs R_a3) (regs R_a4) (regs R_a5) st)
  else if nr =? NR_destroy_enclave then a_answer st (a_destroy (regs R_a0) st)
  else if nr =? NR_run_enclave then a_answer st (a_run (regs R_a0) st)
  else if nr =? NR_exit_enclave then a_answer st (a_exit st)
  else if nr =? NR_resume_enclave then a_answer st (a_resume (regs R_a0) st)
  else (- ENOSYS, st).

(** The calls respect the equivalence of abstract states. *)
Definition answer_equiv (x y : Z * astate) : Prop := x.1 = y.1 /\ x.2 ≡ y.2.

Lemma a_answer_proper st st' o o' : st ≡ st' -> option_Forall2 (≡) o o' ->
  answer_equiv (a_answer st o) (a_answer st' o').
Proof. intros E [x y Ex|]; by split. Qed.

Lemma insert_slot_proper st st' eid o run : st ≡ st' ->
  mkA (<[eid := o]> (slots st)) run ≡ mkA (<[eid := o]> (slots st')) run.
Proof.
  intros [_ Es]. split; [done|]. intros e He. cbn [slots]. rewrite !fn_insert_spec.
  case_decide; [done|by apply Es].
Qed.

(** The slot a call looks at, or a refusal on both sides. *)
Lemma call_slot st st' eid : st ≡ st' -> 0 <= eid ->
  running st = running st' /\ (slots st eid = slots st' eid \/ (eid <? NR_ENCLAVES) = false).
Proof.
  intros [E1 E2] He. split; [done|]. destruct (Z.ltb_spec eid NR_ENCLAVES); [left|by right].
  by apply E2.
Qed.

Ltac slot_cases E He :=
  destruct (call_slot _ _ _ E He) as [-> [-> | ->]];
  repeat case_match; try constructor; try (by apply insert_slot_proper); done.

#[export] Instance a_call_proper regs : regs_wf regs -> Proper ((≡) ==> answer_equiv) (a_call regs).
Proof.
  intros Hr st st' E. assert (0 <= regs R_a0) as He by apply Hr. unfold a_call. cbn zeta.
  repeat (case_match; [apply a_answer_proper; [done|]|]); [..|by split].
  - unfold a_create. replace (forallb _ _) with
      (forallb (fun e => negb (a_overlaps (regs R_a2) (regs R_a3) (slots st' e))) [0; 1; 2]); [slot_cases E He|].
    destruct E as [_ E]. cbn [forallb]. by rewrite !E.
  - unfold a_destroy. slot_cases E He.
  - unfold a_run, a_start. slot_cases E He.
  - unfold a_exit. destruct E as [-> E]. case_match; constructor. by split.
  - unfold a_resume, a_start. slot_cases E He.
Qed.

(** The table after a sequence of calls. *)
Definition a_calls (st : astate) (calls : list pt_regs) : astate :=
  foldl (fun st regs => (a_call regs st).2) st calls.

Lemma a_calls_proper calls st st' : Forall regs_wf calls -> st ≡ st' -> a_calls st calls ≡ a_calls st' calls.
Proof.
  intros Hw. revert st st'. induction Hw as [|regs calls Hr _ IH]; intros st st' E; [done|].
  apply IH. by apply (a_call_proper regs Hr).
Qed.

Section keystone.
Context `{Console} `{Layout}.
Implicit Types s : kstate.

Definition abs_slot (e : enclave) : option aslot :=
  if status e =? ENCLAVE_FREE then None
  else Some (mkSlot (entry e) (secure_lower e, secure_upper e) (shared_lower e, shared_upper e)
                    (negb (status e =? ENCLAVE_FRESH))).

(** The table a monitor state stands for. *)
Definition abs s : astate :=
  mkA (fun e => abs_slot (enclaves s e)) (if enclave_mode s then Some (current_enclave s) else None).

Lemma abs_overlap s lo hi : inv s -> 0 <= lo ->
  forallb (fun e => negb (a_overlaps lo hi (slots (abs s) e))) [0; 1; 2] =
  negb (is_region_overlap_loop (enclaves s) lo hi 0 3).
Proof.
  intros I Hlo.
  assert (forall e, is_eid e -> a_overlaps lo hi (slots (abs s) e) =
    (lo <? secure_upper (enclaves s e)) && (secure_lower (enclaves s e) <? hi)) as Ho.
  { intros e He. cbn [abs slots]. unfold abs_slot.
    destruct (Z.eqb_spec (status (enclaves s e)) ENCLAVE_FREE) as [E|]; [|done].
    destruct (inv_wf s I e He) as [(_ & -> & ->)|(Hin & _)]; [|rewrite E in Hin; exfalso; revert Hin; in_csrs].
    cbn [a_overlaps]. symmetry. apply andb_false_iff. left. lia. }
  cbn [forallb is_region_overlap_loop]. rewrite !Ho by done. change (0 + 1) with 1. change (1 + 1) with 2.
  repeat case_match; done.
Qed.
(** ** The abstract guards are the concrete ones *)

Lemma a_create_abs eid en lo hi slo shi s : inv s -> 0 <= lo ->
  a_create eid en lo hi slo shi (abs s) =
  if create_allowed eid lo hi slo shi s
  then Some (mkA (<[eid := Some (mkSlot en (lo, hi) (slo, shi) false)]> (slots (abs s))) None) else None.
Proof.
  intros I Hlo. unfold a_create, create_allowed. rewrite abs_overlap by done.
  change (a_region lo hi) with (is_region_valid lo hi). change (a_region slo shi) with (is_region_valid slo shi).
  change (eid_is_valid eid) with (eid <? NR_ENCLAVES). cbn [abs running slots]. unfold abs_slot.
  destruct (enclave_mode s), (status (enclaves s eid) =? ENCLAVE_FREE); cbn [negb andb]; try done;
    by rewrite ?andb_true_r, ?andb_false_r.
Qed.

Lemma wf_status e : enclave_wf e ->
  status e = ENCLAVE_FREE \/ status e = ENCLAVE_FRESH \/ status e = ENCLAVE_RUNNING \/ status e = ENCLAVE_IDLE.
Proof. intros [(-> & _)|(Hin & _)]; [by left|]. repeat (apply elem_of_cons in Hin as [-> |Hin]; [by auto|]). by apply not_elem_of_nil in Hin. Qed.

(** In OS mode a slot is free, fresh or idle. *)
Lemma os_status s eid : inv s -> 0 <= eid -> enclave_mode s = false -> eid_is_valid eid = true ->
  status (enclaves s eid) = ENCLAVE_FREE \/ status (enclaves s eid) = ENCLAVE_FRESH \/
  status (enclaves s eid) = ENCLAVE_IDLE.
Proof.
  intros I He Hm Hv. apply eid_valid_eid in Hv; [|done].
  destruct (wf_status _ (inv_wf s I eid Hv)) as [?|[?|[?|?]]]; auto.
  by destruct (inv_not_running s eid).
Qed.

Definition a_started_slot (e : enclave) : aslot :=
  mkSlot (entry e) (secure_lower e, secure_upper e) (shared_lower e, shared_upper e) true.

Lemma a_destroy_abs eid s : inv s -> 0 <= eid ->
  a_destroy eid (abs s) =
  if destroy_allowed eid s then Some (mkA (<[eid := None]> (slots (abs s))) None) else None.
Proof.
  intros I He. unfold a_destroy, destroy_allowed. cbn [abs running slots]. unfold abs_slot.
  change (eid <? NR_ENCLAVES) with (eid_is_valid eid).
  destruct (enclave_mode s) eqn:Hm; [done|]. destruct (eid_is_valid eid) eqn:Hv; cbn [negb andb]; [|by case_match].
  by destruct (os_status s eid I He Hm Hv) as [-> |[-> | ->]].
Qed.

Lemma a_run_abs eid s : inv s -> 0 <= eid ->
  a_run eid (abs s) =
  if destroy_allowed eid s
  then Some (mkA (<[eid := Some (a_started_slot (enclaves s eid))]> (slots (abs s))) (Some eid)) else None.
Proof.
  intros I He. unfold a_run, destroy_allowed. cbn [abs running slots]. unfold abs_slot.
  change (eid <? NR_ENCLAVES) with (eid_is_valid eid).
  destruct (enclave_mode s) eqn:Hm; [done|]. destruct (eid_is_valid eid) eqn:Hv; cbn [negb andb]; [|by case_match].
  by destruct (os_status s eid I He Hm Hv) as [-> |[-> | ->]].
Qed.

Lemma a_resume_abs eid s : inv s -> 0 <= eid ->
  a_resume eid (abs s) =
  if resume_allowed eid s
  then Some (mkA (<[eid := Some (a_started_slot (enclaves s eid))]> (slots (abs s))) (Some eid)) else None.
Proof.
  intros I He. unfold a_resume, resume_allowed. cbn [abs running slots]. unfold abs_slot.
  change (eid <? NR_ENCLAVES) with (eid_is_valid eid).
  destruct (enclave_mode s) eqn:Hm; [done|]. destruct (eid_is_valid eid) eqn:Hv; cbn [negb andb]; [|by case_match].
  by destruct (os_status s eid I He Hm Hv) as [-> |[-> | ->]].
Qed.

(** Replacing one slot, abstractly and concretely. *)
Lemma abs_replace s s' eid o run :
  (forall e, e <> eid -> enclaves s' e = enclaves s e) -> abs_slot (enclaves s' eid) = o ->
  (if enclave_mode s' then Some (current_enclave s') else None) = run ->
  mkA (<[eid := o]> (slots (abs s))) run ≡ abs s'.
Proof.
  intros Ho Hn Hr. split; [done|]. intros e He. cbn [slots abs]. rewrite fn_insert_spec.
  case_decide; [by subst|]. by rewrite Ho.
Qed.

Definition refines (m : M kstate Z) (spec : astate -> Z * astate) s : Prop :=
  forall r s', m s = Ret r s' -> (spec (abs s)).1 = r /\ (spec (abs s)).2 ≡ abs s'.

Lemma refines_refused m spec s :
  m s = Ret (- EINVAL) s -> spec (abs s) = (- EINVAL, abs s) -> refines m spec s.
Proof. intros E Es r s' E'. rewrite E in E'. simplify_eq. by rewrite Es. Qed.

Lemma refine_create eid en lo hi slo shi s : inv s -> 0 <= eid -> 0 <= lo ->
  refines (sys_create_enclave eid en lo hi slo shi)
    (fun st => a_answer st (a_create eid en lo hi slo shi st)) s.
Proof.
  intros I He Hlo. destruct (create_allowed eid lo hi slo shi s) eqn:G.
  2:{ apply refines_refused; [by apply sys_create_refused|]. by rewrite a_create_abs, G. }
  intros r s'. rewrite a_create_abs, G by done. apply create_allowed_true in G as (?&?&?&?&?&?); [|done].
  destruct (sys_create_ok eid en lo hi slo shi s) as (? & -> & [Ho _] & Hn & Hm & _); try done.
  intros E. injection E as <- <-. split; [done|]. apply abs_replace; [done|by rewrite Hn|by rewrite Hm].
Qed.

Lemma refine_destroy eid s : inv s -> 0 <= eid ->
  refines (sys_destroy_enclave eid) (fun st => a_answer st (a_destroy eid st)) s.
Proof.
  intros I He. destruct (destroy_allowed eid s) eqn:G.
  2:{ apply refines_refused; [by apply sys_destroy_refused|]. by rewrite a_destroy_abs, G. }
  intros r s'. rewrite a_destroy_abs, G by done. apply destroy_allowed_true in G as (?&?&?); [|done].
  destruct (sys_destroy_ok eid s) as (? & -> & [Ho _] & Hn & Hm & _); try done.
  intros E. injection E as <- <-. split; [done|]. apply abs_replace; [done|by rewrite Hn|by rewrite Hm].
Qed.

Lemma refine_resume eid s : inv s -> 0 <= eid ->
  refines (sys_resume_enclave eid) (fun st => a_answer st (a_resume eid st)) s.
Proof.
  intros I He. destruct (resume_allowed eid s) eqn:G.
  2:{ apply refines_refused; [by apply sys_resume_refused|]. by rewrite a_resume_abs, G. }
  intros r s'. rewrite a_resume_abs, G by done. apply resume_allowed_true in G as (?&?&?); [|done].
  destruct (sys_resume_ok eid s) as (? & -> & Ho & Hn & Hm & Hc & _); try done.
  intros E. injection E as <- <-. split; [done|]. apply abs_replace; [done|by rewrite Hn|by rewrite Hm, Hc].
Qed.

Lemma refine_run eid s : inv s -> 0 <= eid ->
  refines (sys_run_enclave eid) (fun st => a_answer st (a_run eid st)) s.
Proof.
  intros I He. destruct (destroy_allowed eid s) eqn:G.
  2:{ apply refines_refused; [by apply sys_run_refused|]. by rewrite a_run_abs, G. }
  intros r s'. rewrite a_run_abs, G by done. apply destroy_allowed_true in G as (?&?&?); [|done].
  destruct (sys_run_prepared eid s) as (s1 & -> & [Ho1 _] & Hn1 & Hm1 & _); try done.
  destruct (sys_resume_ok eid s1) as (? & -> & Ho & Hn & Hm & Hc & _); try done; [by rewrite Hn1|].
  intros E. injection E as <- <-. split; [done|]. apply abs_replace; [intros; by rewrite Ho, Ho1| |by rewrite Hm, Hc].
  by rewrite Hn, Hn1.
Qed.

Lemma refine_exit s : inv s -> refines sys_exit_enclave (fun st => a_answer st (a_exit st)) s.
Proof.
  intros I. unfold a_exit. destruct (enclave_mode s) eqn:Hm.
  2:{ apply refines_refused; [by apply sys_exit_refused|]. cbn [abs running]. by rewrite Hm. }
  intros r s'. cbn [abs running]. rewrite Hm. pose proof (inv_current s I Hm) as He.
  destruct (sys_exit_ok s Hm He) as (? & -> & [Ho _] & Hn & Hm' & _).
  intros E. injection E as <- <-. split; [done|]. split; [cbn [abs running a_answer snd]; by rewrite Hm'|].
  intros e Hee. cbn [a_answer snd abs slots].
  destruct (decide (e = current_enclave s)) as [->|]; [|by rewrite Ho].
  rewrite Hn. unfold abs_slot. assert (status (enclaves s (current_enclave s)) = ENCLAVE_RUNNING) as -> by (by apply inv_running).
  done.
Qed.

Lemma a_call_sbi regs st : is_sbi (regs R_a7) = true -> (a_call regs st).2 = st.
Proof.
  unfold is_sbi, a_call. rewrite andb_true_iff, !Z.leb_le. unfold SBI_LAST, SBI_SHUTDOWN. intros [_ Hs].
  unfold NR_create_enclave, NR_destroy_enclave, NR_run_enclave, NR_exit_enclave, NR_resume_enclave.
  cbn zeta. by rewrite !(proj2 (Z.eqb_neq _ _)) by lia.
Qed.

Lemma call_refines regs s r s' : inv s -> regs_wf regs ->
  keystone_call regs s = Ret r s' ->
  (is_sbi (regs R_a7) = false -> (a_call regs (abs s)).1 = r) /\ (a_call regs (abs s)).2 ≡ abs s'.
Proof.
  intros I Hr. assert (forall g, 0 <= regs g) as Hnn by (intros g; apply Hr).
  destruct (is_sbi (regs R_a7)) eqn:Hn.
  { rewrite a_call_sbi by done. unfold keystone_call. rewrite Hn. cbn zeta.
    destruct (do_mcall_cases regs s) as [-> |(r' & d & ->)]; intros E; [done|]. by injection E as <- <-. }
  assert (forall m spec, refines m spec s -> m s = Ret r s' ->
    (false = false -> (spec (abs s)).1 = r) /\ (spec (abs s)).2 ≡ abs s') as Hm.
  { intros m spec Href Hms. by destruct (Href r s' Hms). }
  unfold keystone_call, a_call. rewrite Hn. cbn zeta.
  destruct (_ =? NR_create_enclave); [by apply (Hm _ _ (refine_create _ _ _ _ _ _ s I (Hnn _) (Hnn _)))|].
  destruct (_ =? NR_destroy_enclave); [by apply (Hm _ _ (refine_destroy _ s I (Hnn _)))|].
  destruct (_ =? NR_run_enclave); [by apply (Hm _ _ (refine_run _ s I (Hnn _)))|].
  destruct (_ =? NR_exit_enclave); [by apply (Hm _ _ (refine_exit s I))|].
  destruct (_ =? NR_resume_enclave); [by apply (Hm _ _ (refine_resume _ s I (Hnn _)))|].
  intros E. by injection E as <- <-.
Qed.

(** C6: the enclave calls implement the abstract enclave table: in every reachable
    state a call that is not an SBI call returns the value the table gives, and
    leads to a state that stands for the table's next state. *)
Theorem keystone_refines regs s r s' : reachable s -> regs_wf regs -> is_sbi (regs R_a7) = false ->
  keystone_call regs s = Ret r s' ->
  (a_call regs (abs s)).1 = r /\ (a_call regs (abs s)).2 ≡ abs s'.
Proof. intros I%reachable_inv Hr Hn E. destruct (call_refines regs s r s' I Hr E). auto. Qed.

(** * Executions *)

(** An execution, labelled with the ecalls it makes: for each of them the registers
    at the trap and the answer, which is a0 of the frame that the monitor returns
    to. Between the ecalls the software below the monitor does what it likes. *)
Inductive execution : kstate -> list (pt_regs * Z) -> kstate -> Prop :=
| exec_nil s : execution s [] s
| exec_ecall s s0 s1 s' calls : lower s s0 -> trap EXC_ECALL_S s0 = Ret tt s1 -> execution s1 calls s' ->
    execution s ((frame (kmach s0), frame (kmach s1) R_a0) :: calls) s'.

(** Every sequence of steps is an execution, and conversely. *)
Lemma execution_steps s s' : rtc ecall_step s s' <-> exists calls, execution s calls s'.
Proof.
  split.
  - induction 1 as [s|s s1 s' (s0 & Hl & Et) _ (calls & IH)]; eexists; [constructor|by eapply exec_ecall].
  - intros (calls & He). induction He as [|s s0 s1 s' calls Hl Et _ IH]; [done|]. eapply rtc_l; [|done]. by exists s0.
Qed.

(** The answers of the table to a sequence of calls. *)
Fixpoint a_answers (st : astate) (calls : list pt_regs) : list Z :=
  match calls with
  | [] => []
  | regs :: calls => u64 (a_call regs st).1 :: a_answers (a_call regs st).2 calls
  end.

Lemma a_answers_proper calls st st' : Forall regs_wf calls -> st ≡ st' -> a_answers st calls = a_answers st' calls.
Proof.
  intros Hw. revert st st'. induction Hw as [|regs calls Hr _ IH]; intros st st' E; [done|]. cbn [a_answers].
  destruct (a_call_proper regs Hr st st' E) as [-> E2]. f_equal. by apply IH.
Qed.

(** The answer of the monitor is the table's; the answers of the SBI calls are the
    firmware's. *)
Definition answered (call : pt_regs * Z) (a : Z) : Prop := is_sbi (call.1 R_a7) = false -> call.2 = a.

Lemma abs_globals x y : enclaves x = enclaves y -> enclave_mode x = enclave_mode y ->
  current_enclave x = current_enclave y -> abs x = abs y.
Proof. unfold abs. by intros -> -> ->. Qed.

(** One ecall of an execution. *)
Lemma ecall_simulated s s0 s1 : inv s -> lower s s0 -> trap EXC_ECALL_S s0 = Ret tt s1 ->
  let regs := frame (kmach s0) in
  regs_wf regs /\ answered (regs, frame (kmach s1) R_a0) (u64 (a_call regs (abs s)).1) /\ (a_call regs (abs s)).2 ≡ abs s1.
Proof.
  intros I Hl Et. apply ecall_split in Et as (r & s2 & Ec & ->). pose proof (lower_inv _ _ I Hl) as I0.
  pose proof (lower_regs _ _ Hl) as Hw. destruct (call_refines _ s0 r s2 I0 Hw Ec) as [Ea Es].
  rewrite (abs_globals s s0) by (symmetry; apply Hl). split; [done|]. split.
  - intros Hn. cbn [fst snd] in *. rewrite Ea by done. unfold ecall_return. by destruct (_ =? NR_run_enclave).
  - destruct (ecall_return_globals (frame (kmach s0) R_a7) r s2) as (?&?&?&_). by rewrite Es, (abs_globals (ecall_return _ _ _) s2).
Qed.

Lemma execution_wf s calls s' : inv s -> execution s calls s' -> Forall regs_wf calls.*1.
Proof.
  intros I He. induction He as [|s s0 s1 s' calls Hl Et He IH]; [constructor|]. cbn [fmap list_fmap fst].
  constructor; [apply (lower_regs _ _ Hl)|]. apply IH. eapply step_inv; [exact I|by exists s0].
Qed.

(** C13: forward simulation over whole executions. However the software below the
    monitor behaves, take the ecalls it makes, in order, with the registers it makes
    them with. The monitor answers each of them, other than an SBI call, as the
    abstract enclave table does when it is given the same calls in the same order,
    and ends in a state that stands for the table after these calls. *)
Theorem keystone_simulation s calls s' : reachable s -> execution s calls s' ->
  Forall2 answered calls (a_answers (abs s) calls.*1) /\ a_calls (abs s) calls.*1 ≡ abs s'.
Proof.
  intros I%reachable_inv He. induction He as [s|s s0 s1 s' calls Hl Et He IH]; [split; [constructor|done]|].
  assert (inv s1) as I1 by (eapply step_inv; [exact I|by exists s0]). destruct (IH I1) as [IH1 IH2].
  destruct (ecall_simulated s s0 s1 I Hl Et) as (Hr & Ha & Es). pose proof (execution_wf _ _ _ I1 He) as Hw.
  cbn [fmap list_fmap fst a_answers]. split.
  - constructor; [exact Ha|]. by rewrite (a_answers_proper _ _ _ Hw Es).
  - change (a_calls (abs s) (?x :: calls.*1)) with (a_calls (a_call x (abs s)).2 calls.*1). by rewrite (a_calls_proper _ _ _ Hw Es).
Qed.
End keystone.
