(* ===== verification/KeystoneContext.v ===== *)
(** Keystone: the context round trips of host and enclave, what a refused run
    does, and what a new enclave inherits from its slot's previous tenant. *)

From S2P Require Import Prelude.
From S2P Require Import Console.
From S2P Require Import Cstring.
From S2P Require Import Machine.
From S2P Require Import Mcall.
From S2P Require Import Keystone.
From S2P Require Import KeystoneInv.
From S2P Require Import KeystoneSafety.

Section keystone.
Context `{Console} `{Layout}.
Implicit Types s : kstate.

(** * Restoring a saved context *)

Lemma saved_not_pmp c : c ∈ saved_csrs -> csr_home c <> CSR_pmpcfg0 /\ csr_home c ∉ pmpaddr_csrs.
Proof. intros Hc. split; destruct c; first [done | in_csrs | by exfalso; revert Hc; in_csrs]. Qed.

(** Programming the PMP does not change the registers of a context. *)
Lemma pmp_keeps_saved c k k' p p' lo hi f : c ∈ saved_csrs -> (k' < 4)%nat ->
  csr_get (chmod_put k' p' (remap_put k' lo hi (chmod_put k p f))) c = csr_get f c.
Proof.
  intros [Hn Ha]%saved_not_pmp Hk. apply csr_get_ext.
  by rewrite chmod_put_other_csr, remap_put_other_csr, chmod_put_other_csr.
Qed.

(** The context of [s'] is that of [s], after an ecall answered with [r]. *)
Definition same_context (r : Z) s s' : Prop :=
  frame (kmach s') R_a0 = u64 r /\
  (forall g, g <> R_a0 -> frame (kmach s') g = frame (kmach s) g) /\
  (forall c, c ∈ saved_csrs -> c <> CSR_mepc ->
     csr_get (csrs (kmach s')) c = csr_get (csrs (kmach s)) c) /\
  csr_get (csrs (kmach s')) CSR_mepc = u64 (csr_get (csrs (kmach s)) CSR_mepc + 4).

(** A context saved from [s] and restored by the call that returns in [s']. *)
Lemma restored_context s s' nr r old cf k k' p p' lo hi f d : csrs_wf (csrs (kmach s)) ->
  (k' < 4)%nat -> nr <> NR_run_enclave ->
  kmach s' = mkMachine (copy_pt_regs f (copy_pt_regs (st_regs old) (frame (kmach s))))
    (chmod_put k' p' (remap_put k' lo hi (chmod_put k p
      (csrs_put saved_csrs (csrs_save saved_csrs (csrs (kmach s)) (st_csr old)) cf)))) d ->
  same_context r s (ecall_return nr r s').
Proof.
  intros Hw Hk Hnr Hm. unfold same_context, ecall_return. rewrite (proj2 (Z.eqb_neq _ _) Hnr).
  cbn [kmach on_csrs on_frame get_mach set_mach kstate_machine frame csrs].
  rewrite Hm. cbn [frame csrs dev]. split_and!.
  - by rewrite fn_lookup_insert.
  - intros g Hg. by rewrite fn_lookup_insert_ne, !copy_pt_regs_eq.
  - intros c Hc Hne. rewrite mepc_advance, decide_False by done.
    by rewrite pmp_keeps_saved, restore_saved by (done || in_csrs).
  - rewrite mepc_advance, decide_True by done.
    change (?g CSR_mepc) with (csr_get g CSR_mepc) at 1.
    by rewrite pmp_keeps_saved, restore_saved by (done || in_csrs).
Qed.

(** * The host's round trip *)

(** An enclave computes, makes calls, and stays in. *)
Definition enclave_step s s' : Prop := ecall_step s s' /\ enclave_mode s' = true.

Lemma enclave_call regs s r s' : 0 <= regs R_a0 -> enclave_mode s = true -> call_effect regs s r s' ->
  (enclave_mode s' = true /\ host_state s' = host_state s) \/
  (exit_post s s' /\ r = 0 /\ regs R_a7 = NR_exit_enclave).
Proof.
  intros Ha Hm [r' d|s1 G|s1 G|s1 s2 G|s1 G|s1 _ Hnr P]; [by left|..|by right].
  - apply create_allowed_true in G as [? _]; [congruence|done].
  - apply destroy_allowed_true in G as [? _]; [congruence|done].
  - apply destroy_allowed_true in G as [? _]; [congruence|done].
  - apply resume_allowed_true in G as [? _]; [congruence|done].
Qed.

Lemma lower_regs_nonneg s s1 g : lower s s1 -> 0 <= frame (kmach s1) g.
Proof. intros Hl. apply (lower_regs _ _ Hl). Qed.

Lemma enclave_steps_host s s' : inv s -> enclave_mode s = true -> rtc enclave_step s s' ->
  inv s' /\ enclave_mode s' = true /\ host_state s' = host_state s.
Proof.
  intros I Hm Hs. induction Hs as [|s s1 s' [Hst Hm1] _ IH]; [done|].
  assert (inv s1 /\ host_state s1 = host_state s) as [I1 <-]; [|by apply IH].
  split; [by eapply step_inv|].
  destruct (step_split s s1 I Hst) as (s2 & r & s3 & Hl2 & _ & Hc & ->).
  destruct (ecall_return_globals (frame (kmach s2) R_a7) r s3) as (_ & Em & _ & Eh & _).
  rewrite Eh, <- (lower_host _ _ Hl2). rewrite Em in Hm1.
  apply enclave_call in Hc as [[_ E]|(P & _)]; [done| |by eapply lower_regs_nonneg|].
  - destruct P as (_ & _ & Hf & _). congruence.
  - by rewrite (lower_mode _ _ Hl2).
Qed.
(** The host's context is saved by the call that enters an enclave. *)
Lemma enter_saves_host regs s r s' : enclave_mode s = false -> call_effect regs s r s' ->
  enclave_mode s' = true ->
  exists old, host_state s' = mkCpu (csrs_save saved_csrs (csrs (kmach s)) (st_csr old))
                                    (copy_pt_regs (st_regs old) (frame (kmach s))).
Proof.
  intros Hm Hc Hm'.
  destruct Hc as [r d|s2 _ _ (_&_&E&_)|s2 _ _ (_&_&E&_)|s0 s2 _ _ P Q|s2 _ _ Q|s2 E _ _].
  - cbn in Hm'. congruence.
  - congruence.
  - congruence.
  - destruct P as (_ & _ & _ & _ & _ & Ek), Q as (_ & _ & _ & _ & _ & Eh & _).
    rewrite Ek in Eh. by exists (host_state s0).
  - destruct Q as (_ & _ & _ & _ & _ & Eh & _). by exists (host_state s).
  - congruence.
Qed.

(** The host gets its context back.  When the OS enters an enclave (by run or
    by resume) and the enclave, after any amount of computation and calls, exits,
    the OS continues after its ecall with all its registers and all the CSRs of
    csrs.h as they were, and zero in a0. *)
Theorem keystone_host_roundtrip s0 s s1 sn s' : reachable s0 -> lower s0 s ->
  trap EXC_ECALL_S s = Ret tt s1 -> enclave_mode s = false -> enclave_mode s1 = true ->
  rtc enclave_step s1 sn -> ecall_step sn s' -> enclave_mode s' = false ->
  same_context 0 s s'.
Proof.
  intros I%reachable_inv Hl Et Hm Hm1 Hs Hst Hm'.
  pose proof (lower_inv _ _ I Hl) as I0. pose proof Et as Et'.
  apply ecall_split in Et as (r & x & Ec & ->). apply call_cases in Ec; [|done|apply (lower_regs _ _ Hl)].
  destruct (ecall_return_globals (frame (kmach s) R_a7) r x) as (_ & Em & _ & Eh & _).
  rewrite Em in Hm1. destruct (enter_saves_host _ s r x Hm Ec Hm1) as (old & Ho).
  assert (inv (ecall_return (frame (kmach s) R_a7) r x)) as I1.
  { eapply ecall_inv; [exact I0|apply (lower_regs _ _ Hl)|done]. }
  rewrite <- Em in Hm1. destruct (enclave_steps_host _ sn I1 Hm1 Hs) as (In & Hmn & Hn).
  destruct (step_split sn s' In Hst) as (s2 & r2 & s3 & Hl2 & I2 & Hc & ->).
  destruct (ecall_return_globals (frame (kmach s2) R_a7) r2 s3) as (_ & Em3 & _).
  rewrite Em3 in Hm'.
  apply enclave_call in Hc as [[? _]|(P & -> & Hnr)];
    [congruence| |by eapply lower_regs_nonneg|by rewrite (lower_mode _ _ Hl2)].
  destruct P as (_ & _ & _ & _ & _ & Ek).
  rewrite (lower_host _ _ Hl2), Hn, Eh, Ho in Ek. cbn [st_csr st_regs] in Ek.
  eapply (restored_context s _ _ _ old); [apply (inv_csrs s I0)|..|exact Ek]; [lia|]. by rewrite Hnr.
Qed.

(** * The enclave's round trip *)

(** Steps during which the enclave [e] stays suspended. *)
Definition suspended_step (e : Z) s s' : Prop :=
  ecall_step s s' /\ status (enclaves s' e) = ENCLAVE_IDLE.

Lemma suspended_keeps e s s' : inv s -> is_eid e -> status (enclaves s e) = ENCLAVE_IDLE ->
  suspended_step e s s' ->
  enclaves s' e = enclaves s e /\ forall a, in_secure (enclaves s e) a = true -> kmem s' a = kmem s a.
Proof.
  intros I He Hst [Hs Hst']. destruct (step_split s s' I Hs) as (s1 & r & s2 & Hl & I1 & Hc & ->).
  destruct (ecall_return_globals (frame (kmach s1) R_a7) r s2) as (Ee & _ & _ & _ & Em).
  rewrite Ee in *. rewrite Em. rewrite <- (lower_enclaves _ _ Hl) in *.
  assert (forall a, in_secure (enclaves s1 e) a = true -> kmem s1 a = kmem s a) as Hk.
  { intros a. rewrite (lower_enclaves _ _ Hl). apply lower_secure; try done.
    rewrite <- (lower_enclaves _ _ Hl). by rewrite Hst. }
  assert (enclaves s2 e = enclaves s1 e /\ forall a, in_secure (enclaves s1 e) a = true -> kmem s2 a = kmem s1 a)
    as [-> Hk2]; [|split; [done|]; intros a Ha; by rewrite Hk2, Hk].
  pose proof (lower_regs_nonneg _ _ R_a0 Hl) as Hnn.
  destruct Hc as [r d|s2 G _ P|s2 G _ P|s0 s2 G _ P Q|s2 G _ P|s2 Hm _ P]; [done|..].
  - apply create_allowed_true in G as (_ & _ & Hf & _); [|done]. destruct P as ([Ho _] & _ & _ & _ & -> & _).
    rewrite Ho; [done|]. intros ->. by rewrite Hst in Hf.
  - apply destroy_allowed_true in G as (_ & Hd & _); [|done]. destruct P as ([Ho _] & Hn & _ & _ & -> & _).
    assert (e <> frame (kmach s1) R_a0) by (intros ->; by rewrite Hn in Hst').
    rewrite Ho by done. split; [done|]. intros a Ha. rewrite destroy_clears by (by apply inv_wf).
    destruct (in_secure (enclaves s1 (frame (kmach s1) R_a0)) a) eqn:Ea; [|done].
    by destruct (in_secure_unique s1 e (frame (kmach s1) R_a0) a).
  - destruct P as ([Ho _] & _ & _ & _ & Em1 & _), Q as (Ho2 & Hn2 & _ & _ & -> & _).
    assert (e <> frame (kmach s1) R_a0) by (intros ->; by rewrite Hn2 in Hst').
    by rewrite Ho2, Ho, Em1.
  - destruct P as (Ho & Hn & _ & _ & -> & _).
    assert (e <> frame (kmach s1) R_a0) by (intros ->; by rewrite Hn in Hst').
    by rewrite Ho.
  - destruct P as ([Ho _] & _ & _ & _ & -> & _). rewrite Ho; [done|]. intros ->.
    assert (status (enclaves s1 (current_enclave s1)) = ENCLAVE_RUNNING) as E by (by apply inv_running).
    by rewrite E in Hst.
Qed.
Lemma suspended_steps e s s' : inv s -> is_eid e -> status (enclaves s e) = ENCLAVE_IDLE ->
  rtc (suspended_step e) s s' ->
  inv s' /\ enclaves s' e = enclaves s e /\ forall a, in_secure (enclaves s e) a = true -> kmem s' a = kmem s a.
Proof.
  intros I He Hst Hs. induction Hs as [|s s1 s' Hs1 _ IH]; [done|].
  destruct (suspended_keeps e s s1 I He Hst Hs1) as [E1 Hk1]. destruct Hs1 as [Hs1 Hst1].
  destruct IH as (I' & E & Hk); [by eapply step_inv|done|]. rewrite E1 in *.
  split_and!; try done. intros a Ha. by rewrite Hk, Hk1.
Qed.

(** C18: a suspended enclave continues where it stopped.  When an enclave exits and,
    after any behaviour of the OS and of other enclaves that leaves it suspended,
    the OS resumes it, it continues after its ecall with all its registers and all
    the CSRs of csrs.h as they were, zero in a0, and its secure memory unchanged. *)
Theorem keystone_enclave_roundtrip e s0 s s1 sn s2 s' : reachable s0 -> lower s0 s ->
  enclave_mode s = true -> current_enclave s = e ->
  trap EXC_ECALL_S s = Ret tt s1 -> enclave_mode s1 = false ->
  rtc (suspended_step e) s1 sn -> lower sn s2 -> enclave_mode s2 = false ->
  frame (kmach s2) R_a7 = NR_resume_enclave -> frame (kmach s2) R_a0 = e ->
  trap EXC_ECALL_S s2 = Ret tt s' -> enclave_mode s' = true ->
  same_context 0 s s' /\ forall a, in_secure (enclaves s e) a = true -> kmem s' a = kmem s a.
Proof.
  intros I%reachable_inv Hl Hm Hcur Et Hm1 Hs Hl2 Hm2 Hnr Ha0 Et2 Hm'.
  pose proof (lower_inv _ _ I Hl) as I0. pose proof (inv_current s I0 Hm) as He. rewrite Hcur in He.
  pose proof (ecall_inv s s1 I0 (lower_regs _ _ Hl) Et) as I1.
  apply ecall_split in Et as (r & x & Ec & ->). apply call_cases in Ec; [|done|apply (lower_regs _ _ Hl)].
  destruct (ecall_return_globals (frame (kmach s) R_a7) r x) as (Ee & Em & _ & _ & Ek). rewrite Em in Hm1.
  apply enclave_call in Ec as [[? _]|(P & _)]; [congruence| |by eapply lower_regs_nonneg|done].
  destruct P as (_ & Hn & _ & _ & Ekx & _). rewrite Hcur in Hn.
  destruct (suspended_steps e _ sn I1 He) as (In & En & Hk); [by rewrite Ee, Hn|done|].
  rewrite Ee, Hn in En. rewrite Ee, Hn, Ek, Ekx in Hk. change (in_secure (with_status _ _)) with (in_secure (enclaves s e)) in Hk.
  pose proof (lower_inv _ _ In Hl2) as I2.
  apply ecall_split in Et2 as (r2 & y & Ec2 & ->). apply call_cases in Ec2; [|done|apply (lower_regs _ _ Hl2)].
  destruct (ecall_return_globals (frame (kmach s2) R_a7) r2 y) as (_ & Emy & _ & _ & Eky).
  rewrite Emy in Hm'. rewrite Eky.
  destruct Ec2 as [r2 d|y _ Hx|y _ Hx|z y _ Hx|y _ _ Q|y _ Hx]; try (by rewrite Hnr in Hx).
  { cbn in Hm'. congruence. }
  destruct Q as (_ & _ & _ & _ & Emem & _ & Emach). rewrite Ha0, (lower_enclaves _ _ Hl2), En in Emach. split.
  - eapply (restored_context s _ _ _ (encl_state (enclaves s e))); [apply (inv_csrs s I0)| |by rewrite Hnr|exact Emach]. lia.
  - intros a Ha. rewrite Emem. rewrite (lower_secure sn s2 e) by (done || by rewrite En). by apply Hk.
Qed.
(** * A refused run *)

(** [n] traps in a row from the same instruction. *)
Fixpoint ecalls (n : nat) : M kstate unit :=
  match n with
  | O => mret tt
  | S n => trap EXC_ECALL_S;; ecalls n
  end.

Lemma refused_run_trap s : 0 <= frame (kmach s) R_a0 ->
  frame (kmach s) R_a7 = NR_run_enclave -> destroy_allowed (frame (kmach s) R_a0) s = false ->
  trap EXC_ECALL_S s = Ret tt (on_frame (<[R_a0 := u64 (- EINVAL)]>) s).
Proof.
  intros Ha Hnr Hd. rewrite trap_ecall. unfold do_trap_ecall_s. erewrite bind_Ret by (apply gets_eq).
  cbn [get_mach kstate_machine].
  erewrite bind_Ret by (unfold keystone_call; rewrite Hnr; by apply sys_run_refused).
  erewrite bind_Ret by (apply modify_eq). by rewrite Hnr.
Qed.

(** A run call that the monitor refuses is never answered: a0 is set to -EINVAL
    but mepc still points at the ecall, so the caller executes the same ecall
    again, with the error number as enclave id, for any number of rounds. *)
Theorem keystone_refused_run_repeats n s : 0 <= frame (kmach s) R_a0 ->
  frame (kmach s) R_a7 = NR_run_enclave -> destroy_allowed (frame (kmach s) R_a0) s = false ->
  exists s', ecalls (S n) s = Ret tt s' /\
    frame (kmach s') R_a0 = u64 (- EINVAL) /\ frame (kmach s') R_a7 = NR_run_enclave /\
    csrs (kmach s') = csrs (kmach s) /\ enclaves s' = enclaves s /\ enclave_mode s' = enclave_mode s.
Proof.
  revert s. induction n as [|n IH]; intros s Ha Hnr Hd; cbn [ecalls];
    (erewrite bind_Ret by (by apply refused_run_trap)).
  { eexists. by split. }
  set (s1 := on_frame _ s).
  destruct (IH s1) as (s' & E & ?); try done.
  { unfold destroy_allowed. change (eid_is_valid (frame (kmach s1) R_a0)) with false. by rewrite andb_false_r. }
  by exists s'.
Qed.

(** * What a new enclave inherits *)

(** Destroying an enclave and creating a new one in its slot does not clear the
    CSRs saved for the old one: the first run of the new enclave starts with the
    previous tenant's address translation, trap vector and trap registers. *)
Theorem keystone_stale_csrs eid en lo hi slo shi s s1 s2 s3 c : 0 <= eid ->
  sys_destroy_enclave eid s = Ret 0 s1 ->
  sys_create_enclave eid en lo hi slo shi s1 = Ret 0 s2 ->
  sys_run_enclave eid s2 = Ret 0 s3 ->
  c ∈ [CSR_satp; CSR_stvec; CSR_scounteren; CSR_stval; CSR_scause; CSR_sepc] ->
  csr_get (csrs (kmach s3)) c = u64 (st_csr (encl_state (enclaves s eid)) c).
Proof.
  intros He E1 E2 E3 Hc.
  destruct (destroy_allowed eid s) eqn:G1; [|by rewrite sys_destroy_refused in E1].
  apply destroy_allowed_true in G1 as (? & Hid & ?); [|done].
  destruct (sys_destroy_ok eid s) as (? & E & _ & Hn1 & _); try done. rewrite E1 in E. injection E as <-.
  destruct (create_allowed eid lo hi slo shi s1) eqn:G2; [|by rewrite sys_create_refused in E2].
  apply create_allowed_true in G2 as (? & _ & ? & ? & ? & ?); [|done].
  destruct (sys_create_ok eid en lo hi slo shi s1) as (? & E & _ & Hn2 & Hm2 & _); try done.
  rewrite E2 in E. injection E as <-.
  destruct (sys_run_prepared eid s2) as (x & E & _ & Hn3 & Hmx & _ & _ & Hk3); try done; [right; by rewrite Hn2|].
  rewrite E in E3. destruct (sys_resume_ok eid x) as (? & E' & _ & _ & _ & _ & _ & _ & Hk4); try done; [by rewrite Hn3|].
  rewrite E' in E3. injection E3 as <-. rewrite Hk4. cbn [csrs].
  assert (c ∈ saved_csrs /\ csr_home c = c /\ c <> CSR_mepc /\ forall f, csr_get f c = f c) as (Hs & Hh & Hne & Hg).
  { destruct c; try (by exfalso; revert Hc; in_csrs); (split; [in_csrs|done]). }
  rewrite pmp_keeps_saved, Hg, csrs_put_plain by (done || lia || in_csrs).
  rewrite Hn3, Hn2, Hn1. cbn [encl_state with_status with_encl_state start_context st_csr entry].
  by rewrite fn_lookup_insert_ne.
Qed.
End keystone.
