(* ===== verification/KeystoneWitness.v ===== *)
(** Keystone: the theorems at concrete states.  The monitor boots, the OS creates
    an enclave, runs it, and the enclave exits and is resumed. *)

From S2P Require Import Prelude.
From S2P Require Import Console.
From S2P Require Import Cstring.
From S2P Require Import Machine.
From S2P Require Import Mcall.
From S2P Require Import Keystone.
From S2P Require Import KeystoneInv.
From S2P Require Import KeystoneSafety.
From S2P Require Import KeystoneSpec.
From S2P Require Import KeystoneContext.

#[local] Existing Instance log_console.

#[local] Instance sample_layout : Layout.
Proof. by refine {| payload_start := 0x80200000 |}. Defined.

(** The hart at reset. *)
Definition reset_state : kstate :=
  mkK (fun _ => zero_enclave) false 0 zero_cpu (fun _ => 7) (mkMachine zero_regs (fun _ => 0) []).

Definition booted : kstate := match main 0 0 reset_state with Mret _ s => s | _ => reset_state end.

Definition call_regs (nr a0 a1 a2 a3 a4 a5 : Z) : pt_regs :=
  <[R_a7 := nr]> (<[R_a0 := a0]> (<[R_a1 := a1]> (<[R_a2 := a2]> (<[R_a3 := a3]>
    (<[R_a4 := a4]> (<[R_a5 := a5]> zero_regs)))))).

(** Software loads its registers and traps. *)
Definition with_regs (regs : pt_regs) (s : kstate) : kstate := on_frame (fun _ => regs) s.

Definition ecall (regs : pt_regs) (s : kstate) : kstate :=
  match trap EXC_ECALL_S (with_regs regs s) with Ret _ s' => s' | _ => s end.

Definition create_regs : pt_regs := call_regs NR_create_enclave 1 0x80201000 0x1000 0x2000 0x3000 0x4000.
Definition run_regs : pt_regs := call_regs NR_run_enclave 1 0 0 0 0 0.
Definition exit_regs : pt_regs := call_regs NR_exit_enclave 0 0 0 0 0 0.
Definition resume_regs : pt_regs := call_regs NR_resume_enclave 1 0 0 0 0 0.

Definition created : kstate := ecall create_regs booted.
Definition entered : kstate := ecall run_regs created.
Definition left : kstate := ecall exit_regs entered.
Definition resumed : kstate := ecall resume_regs left.

Lemma call_regs_wf nr a0 a1 a2 a3 a4 a5 :
  uint 64 nr -> uint 64 a0 -> uint 64 a1 -> uint 64 a2 -> uint 64 a3 -> uint 64 a4 -> uint 64 a5 ->
  regs_wf (call_regs nr a0 a1 a2 a3 a4 a5).
Proof. intros. intros g. unfold call_regs. rewrite !fn_insert_spec. by repeat case_decide. Qed.

Lemma with_regs_lower regs s : csrs_wf (csrs (kmach s)) -> regs_wf regs -> lower s (with_regs regs s).
Proof. intros Hc Hr. split; try done. by intros a []. Qed.

Lemma booted_eq : exists regs, main 0 0 reset_state = Mret regs booted.
Proof. eexists. reflexivity. Qed.

Lemma reset_ok : reset_pmp (csrs (kmach reset_state)).
Proof.
  split; [by intros c|]. intros i _. unfold pmp_cfg_byte. cbn [csrs kmach reset_state]. by rewrite Z.shiftr_0_l.
Qed.

Lemma booted_reachable : reachable booted.
Proof. destruct booted_eq as [regs E]. apply (reach_boot 0 0 reset_state regs); [apply reset_ok|exact E]. Qed.

Definition is_ret {A} (o : outcome kstate A) : bool := match o with Ret _ _ => true | _ => false end.

Lemma trap_ecall_eq regs s : is_ret (trap EXC_ECALL_S (with_regs regs s)) = true ->
  trap EXC_ECALL_S (with_regs regs s) = Ret tt (ecall regs s).
Proof. unfold ecall. by destruct (trap _ _) as [[]| |]. Qed.

Lemma sample_lower regs s : reachable s -> regs_wf regs -> lower s (with_regs regs s).
Proof. intros R Hr. by apply with_regs_lower; [apply inv_csrs, reachable_inv|]. Qed.

Lemma sample_step regs s : reachable s -> regs_wf regs ->
  is_ret (trap EXC_ECALL_S (with_regs regs s)) = true -> ecall_step s (ecall regs s).
Proof. intros R Hr E. exists (with_regs regs s). split; [by apply sample_lower|by apply trap_ecall_eq]. Qed.

Lemma created_step : ecall_step booted created.
Proof. apply sample_step; [apply booted_reachable|by apply call_regs_wf|by vm_compute]. Qed.

Lemma created_reachable : reachable created.
Proof. eapply reach_step; [apply booted_reachable|apply created_step]. Qed.

Lemma entered_step : ecall_step created entered.
Proof. apply sample_step; [apply created_reachable|by apply call_regs_wf|by vm_compute]. Qed.

Lemma entered_reachable : reachable entered.
Proof. eapply reach_step; [apply created_reachable|apply entered_step]. Qed.

Lemma left_step : ecall_step entered left.
Proof. apply sample_step; [apply entered_reachable|by apply call_regs_wf|by vm_compute]. Qed.

Lemma left_reachable : reachable left.
Proof. eapply reach_step; [apply entered_reachable|apply left_step]. Qed.

Lemma keystone_ecall_total_witness :
  trap EXC_ECALL_S (with_regs create_regs booted) = Halt Shutdown \/
  exists s', trap EXC_ECALL_S (with_regs create_regs booted) = Ret tt s' /\ reachable s' /\ inv s'.
Proof.
  apply (keystone_ecall_total booted); [apply booted_reachable|].
  apply sample_lower; [apply booted_reachable|by apply call_regs_wf].
Defined.

Lemma keystone_isolation_witness : pmp_privs (csrs (kmach created)) 0x80201800 1 = Some 0.
Proof.
  destruct (keystone_isolation created 0x80201800 created_reachable ltac:(done)) as [Hs _].
  rewrite (Hs 1); by vm_compute.
Defined.

Lemma keystone_integrity_witness :
  kmem (ecall (call_regs NR_destroy_enclave 1 0 0 0 0 0) created) 0x80201800 = kmem created 0x80201800 \/
  status (enclaves (ecall (call_regs NR_destroy_enclave 1 0 0 0 0 0) created) 1) = ENCLAVE_FREE /\
  kmem (ecall (call_regs NR_destroy_enclave 1 0 0 0 0 0) created) 0x80201800 = 0.
Proof.
  apply (keystone_integrity created); [apply created_reachable| |by vm_compute..].
  apply sample_step; [apply created_reachable|by apply call_regs_wf|by vm_compute].
Defined.

Lemma keystone_refines_witness :
  (a_call create_regs (abs booted)).1 = 0.
Proof.
  destruct (keystone_call create_regs booted) as [r s'| |] eqn:E; [|by vm_compute in E..].
  assert (r = 0) as -> by (apply (f_equal (fun o => match o with Ret r _ => r | _ => 1 end)) in E; by vm_compute in E).
  by apply (keystone_refines create_regs booted 0 s'); [apply booted_reachable|by apply call_regs_wf|..].
Defined.

(** The host creates enclave 1 and runs it. *)
Definition two_calls : list (pt_regs * Z) := [(create_regs, 0); (run_regs, 0)].

Lemma entered_execution : execution booted two_calls entered.
Proof.
  apply (exec_ecall booted (with_regs create_regs booted) created);
    [apply sample_lower; [apply booted_reachable|by apply call_regs_wf]|apply trap_ecall_eq; by vm_compute|].
  apply (exec_ecall created (with_regs run_regs created) entered);
    [apply sample_lower; [apply created_reachable|by apply call_regs_wf]|apply trap_ecall_eq; by vm_compute|constructor].
Qed.

Lemma keystone_simulation_witness :
  Forall2 answered two_calls (a_answers (abs booted) two_calls.*1) /\ a_calls (abs booted) two_calls.*1 ≡ abs entered.
Proof. apply (keystone_simulation booted); [apply booted_reachable|apply entered_execution]. Defined.

Lemma keystone_host_roundtrip_witness : same_context 0 (with_regs run_regs created) left.
Proof.
  apply (keystone_host_roundtrip created _ entered entered);
    [apply created_reachable| |apply trap_ecall_eq; by vm_compute|by vm_compute..|apply rtc_refl|apply left_step|by vm_compute].
  apply sample_lower; [apply created_reachable|by apply call_regs_wf].
Defined.

Lemma keystone_enclave_roundtrip_witness :
  same_context 0 (with_regs exit_regs entered) resumed /\
  forall a, in_secure (enclaves (with_regs exit_regs entered) 1) a = true ->
    kmem resumed a = kmem (with_regs exit_regs entered) a.
Proof.
  apply (keystone_enclave_roundtrip 1 entered _ left left (with_regs resume_regs left));
    [apply entered_reachable| |by vm_compute|by vm_compute|apply trap_ecall_eq; by vm_compute|by vm_compute
    |apply rtc_refl| |by vm_compute|by vm_compute|by vm_compute|apply trap_ecall_eq; by vm_compute|by vm_compute].
  - apply sample_lower; [apply entered_reachable|by apply call_regs_wf].
  - apply sample_lower; [apply left_reachable|by apply call_regs_wf].
Defined.

Lemma keystone_refused_run_repeats_witness :
  exists s', ecalls 3 (with_regs run_regs booted) = Ret tt s' /\
    frame (kmach s') R_a0 = u64 (- EINVAL) /\ frame (kmach s') R_a7 = NR_run_enclave /\
    csrs (kmach s') = csrs (kmach (with_regs run_regs booted)) /\
    enclaves s' = enclaves (with_regs run_regs booted) /\
    enclave_mode s' = enclave_mode (with_regs run_regs booted).
Proof. apply (keystone_refused_run_repeats 2); by vm_compute. Defined.

(** The state a call leaves when it returns zero. *)
Definition after (m : M kstate Z) (s : kstate) : kstate :=
  match m s with Ret _ s' => s' | _ => s end.

Lemma after_ok m s : match m s with Ret r _ => r =? 0 | _ => false end = true -> m s = Ret 0 (after m s).
Proof. unfold after. destruct (m s) as [r s'| |]; [|done..]. by intros ->%Z.eqb_eq. Qed.

Definition destroyed : kstate := after (sys_destroy_enclave 1) left.
Definition recreated : kstate := after (sys_create_enclave 1 0x80208000 0x8000 0x9000 0x3000 0x4000) destroyed.
Definition rerun : kstate := after (sys_run_enclave 1) recreated.

Lemma keystone_stale_csrs_witness :
  csr_get (csrs (kmach rerun)) CSR_satp = u64 (st_csr (encl_state (enclaves left 1)) CSR_satp).
Proof.
  eapply (keystone_stale_csrs 1 0x80208000 0x8000 0x9000 0x3000 0x4000 left destroyed recreated rerun);
    [done|apply after_ok; by vm_compute..|in_csrs].
Defined.
