(* ===== verification/Certikos.v ===== *)
(** The CertiKOS monitor (monitors/certikos): processes with static child ids and
    page quotas, spawn and yield, the ecall handler and the boot code. *)

From S2P Require Import Prelude.
From S2P Require Import Console.
From S2P Require Import Cstring.
From S2P Require Import Machine.
From S2P Require Import Mcall.
From S2P Require Import Nospec.

(** * Data: proc.h, include/uapi/certikos *)

Definition NR_PROCS : Z := 64.
Definition NR_CHILDREN : Z := 4.
Definition NR_PAGES : Z := 256.
Definition SZ_4K : Z := 0x1000.

Definition PROC_STATE_FREE : Z := 0.
Definition PROC_STATE_RUN : Z := 1.
Definition PID_IDLE : Z := 1.
Definition ELF_FILE_IDLE : Z := 0.

(** struct proc; [pcsr] holds the eleven CSR fields, by register. *)
Record proc : Type := mkProc {
  state : Z;
  owner : Z;
  next : Z;
  lower : Z;
  upper : Z;
  pcsr : csr -> Z;
  cpu : pt_regs
}.

Definition zero_proc : proc := mkProc 0 0 0 0 0 (fun _ => 0) zero_regs.

(** The globals of proc.c, the physical memory and the machine. *)
Record cstate `{Console} : Type := mkC {
  procs : Z -> proc;
  current_pid : Z;
  cmem : mem;
  cmach : machine
}.
Arguments mkC {_}.
Arguments procs {_}.
Arguments current_pid {_}.
Arguments cmem {_}.
Arguments cmach {_}.

(** The addresses the linker assigns: the page array and the payload image. *)
Class Layout := {
  pages : Z;
  payload_start : Z;
  payload_end : Z;
  pages_aligned : pages mod SZ_4K = 0;
  payload_start_aligned : payload_start mod SZ_4K = 0;
  payload_end_aligned : payload_end mod SZ_4K = 0;
  pages_range : 0 <= pages /\ pages + NR_PAGES * SZ_4K <= payload_start;
  payload_range : payload_start <= payload_end < 2 ^ 56
}.

Section model.
Context `{Console}.

#[export] Program Instance cstate_machine : HasMachine cstate := {|
  get_mach := cmach;
  set_mach m s := mkC (procs s) (current_pid s) (cmem s) m
|}.
Next Obligation. reflexivity. Qed.
Next Obligation. reflexivity. Qed.
Next Obligation. by intros []. Qed.

(** * Field updates *)

Definition set_procs (f : (Z -> proc) -> Z -> proc) : M cstate unit :=
  modify (fun s => mkC (f (procs s)) (current_pid s) (cmem s) (cmach s)).
Definition set_current_pid (v : Z) : M cstate unit :=
  modify (fun s => mkC (procs s) v (cmem s) (cmach s)).
Definition set_cmem (f : mem -> mem) : M cstate unit :=
  modify (fun s => mkC (procs s) (current_pid s) (f (cmem s)) (cmach s)).

(** procs[pid]; an index outside the array is undefined. *)
Definition get_proc (pid : Z) : M cstate proc :=
  defined ((0 <=? pid) && (pid <? NR_PROCS));; gets (fun s => procs s pid).
Definition upd_proc (pid : Z) (f : proc -> proc) : M cstate unit :=
  defined ((0 <=? pid) && (pid <? NR_PROCS));; set_procs (fun t => <[pid := f (t pid)]> t).

Definition with_state (v : Z) (p : proc) : proc :=
  mkProc v (owner p) (next p) (lower p) (upper p) (pcsr p) (cpu p).
Definition with_owner (v : Z) (p : proc) : proc :=
  mkProc (state p) v (next p) (lower p) (upper p) (pcsr p) (cpu p).
Definition with_next (v : Z) (p : proc) : proc :=
  mkProc (state p) (owner p) v (lower p) (upper p) (pcsr p) (cpu p).
Definition with_lower (v : Z) (p : proc) : proc :=
  mkProc (state p) (owner p) (next p) v (upper p) (pcsr p) (cpu p).
Definition with_upper (v : Z) (p : proc) : proc :=
  mkProc (state p) (owner p) (next p) (lower p) v (pcsr p) (cpu p).
Definition with_pcsr (c : csr -> Z) (p : proc) : proc :=
  mkProc (state p) (owner p) (next p) (lower p) (upper p) c (cpu p).
Definition with_cpu (r : pt_regs) (p : proc) : proc :=
  mkProc (state p) (owner p) (next p) (lower p) (upper p) (pcsr p) r.

(** * proc.c *)

Context `{Layout}.

(** The body of proc_init's loop for entry [i]; mepc and the registers are not
    assigned. *)
Definition proc_init_entry (i : Z) (p : proc) : proc :=
  let p := with_state PROC_STATE_FREE p in
  let p := with_owner (if NR_CHILDREN <=? i then i / NR_CHILDREN else PID_IDLE) p in
  let p := with_next 0 p in
  let p := with_lower 0 p in
  let p := with_upper 0 p in
  with_pcsr (fun c => match c with
    | CSR_satp | CSR_scause | CSR_scounteren | CSR_sepc | CSR_sscratch | CSR_sstatus
    | CSR_stvec | CSR_stval | CSR_sip | CSR_sie => 0
    | _ => pcsr p c
    end) p.

Fixpoint proc_init_loop (i : Z) (n : nat) : M cstate unit :=
  match n with
  | O => mret tt
  | S n => upd_proc i (proc_init_entry i);; proc_init_loop (i + 1) n
  end.

Definition proc_init : M cstate unit :=
  proc_init_loop 0 (Z.to_nat NR_PROCS);;
  set_current_pid PID_IDLE.

Definition proc_new (pid next fileid lower upper : Z) : M cstate unit :=
  BUG_ON (NR_PROCS <=? pid);;
  p ← get_proc pid;
  BUG_ON (negb (state p =? PROC_STATE_FREE));;
  upd_proc pid (with_state PROC_STATE_RUN);;
  upd_proc pid (with_next next);;
  upd_proc pid (with_lower lower);;
  upd_proc pid (with_upper upper);;
  upd_proc pid (fun p => with_pcsr (<[CSR_mepc := payload_start]> (pcsr p)) p);;
  upd_proc pid (with_cpu zero_regs);;
  upd_proc pid (fun p => with_cpu (<[R_a0 := fileid]> (cpu p)) p);;
  upd_proc pid (fun p => with_cpu (<[R_a1 := u64 (pages + lower * SZ_4K)]> (cpu p)) p);;
  set_cmem (fun m => memset m (pages + lower * SZ_4K) 0 (u64 ((upper - lower) * SZ_4K))).

(** The registers proc_save_csrs reads and proc_restore_csrs writes, in order. *)
Definition proc_csrs : list csr :=
  [CSR_satp; CSR_scause; CSR_scounteren; CSR_sepc; CSR_sscratch; CSR_sstatus;
   CSR_stvec; CSR_stval; CSR_mepc; CSR_sie; CSR_sip].

Definition proc_save_csrs (pid : Z) : M cstate unit :=
  p ← get_proc pid; c ← csrs_read proc_csrs (pcsr p); upd_proc pid (with_pcsr c).

Definition proc_restore_csrs (pid : Z) : M cstate unit :=
  p ← get_proc pid; csrs_write proc_csrs (pcsr p).

(** The PMP part of a switch to [pid]: its pages become the accessible ones. *)
Definition switch_pmp (pid : Z) : M cstate unit :=
  p ← get_proc pid;
  pmpaddr_write CSR_pmpaddr0 (pages + lower p * SZ_4K);;
  pmpaddr_write CSR_pmpaddr1 (pages + upper p * SZ_4K).

Definition proc_switch (pid : Z) : M cstate unit :=
  BUG_ON (NR_PROCS <=? pid);;
  switch_pmp pid;;
  proc_restore_csrs pid;;
  p ← get_proc pid;
  mret_with_regs (cpu p).

Definition is_pid_valid (pid : Z) : bool := (0 <? pid) && (pid <? NR_PROCS).

Definition is_proc_free (pid : Z) : M cstate bool :=
  p ← get_proc pid; mret (state p =? PROC_STATE_FREE).

Definition is_pid_owned_by_current (pid : Z) : M cstate bool :=
  p ← get_proc pid; cur ← gets current_pid; mret (owner p =? cur).

(** * traps.c *)

Definition sys_get_quota : M cstate Z :=
  cur ← gets current_pid; p ← get_proc cur; mret (u64 (upper p - lower p)).

Definition sys_spawn (fileid quota pid : Z) : M cstate Z :=
  cur ← gets current_pid;
  p ← get_proc cur;
  if u64 (upper p - lower p) <? quota then mret (- EINVAL) else
  if negb (is_pid_valid pid) then mret (- EINVAL) else
  let pid := array_index_nospec pid NR_PROCS in
  owned ← is_pid_owned_by_current pid;
  if negb owned then mret (- EINVAL) else
  free ← is_proc_free pid;
  if negb free then mret (- EINVAL) else
  let top := upper p in
  upd_proc cur (fun p => with_upper (u64 (upper p - quota)) p);;
  p ← get_proc cur;
  proc_new pid (next p) fileid (upper p) top;;
  upd_proc cur (with_next pid);;
  switch_pmp cur;;
  mret 0.

Definition do_yield : M cstate Z :=
  cur ← gets current_pid; p ← get_proc cur; set_current_pid (next p);; mret 0.

Definition sys_yield (regs : pt_regs) : M cstate Z :=
  cur ← gets current_pid;
  upd_proc cur (fun p => with_cpu (copy_pt_regs (cpu p) regs) p);;
  proc_save_csrs cur;;
  _ ← do_yield;
  cur ← gets current_pid;
  proc_switch cur;;
  mret 0.

Definition sys_getpid : M cstate Z := gets current_pid.
(** System call numbers of include/uapi/certikos/syscalls.h. *)
Definition NR_get_quota : Z := 10.
Definition NR_spawn : Z := 11.
Definition NR_yield : Z := 12.
Definition NR_getpid : Z := 13.

Definition certikos_call (regs : pt_regs) : M cstate Z :=
  let nr := s64 (regs R_a7) in
  if is_sbi nr then do_mcall regs
  else if nr =? NR_get_quota then sys_get_quota
  else if nr =? NR_spawn then sys_spawn (regs R_a0) (regs R_a1) (regs R_a2)
  else if nr =? NR_yield then sys_yield regs
  else if nr =? NR_getpid then sys_getpid
  else mret (- ENOSYS).

Definition do_trap_ecall_s : M cstate unit :=
  regs ← get_frame;
  pc ← csr_read CSR_mepc;
  csr_write CSR_mepc (pc + 4);;
  r ← certikos_call regs;
  set_frame R_a0 r.

(** The trap vector: do_trap with the frame it just saved. *)
Definition trap (cause : Z) : M cstate unit :=
  regs ← get_frame; do_trap (fun _ => do_trap_ecall_s) regs cause.

(** * main.c *)

Definition user_init : M cstate unit :=
  let pid := PID_IDLE in
  proc_new pid pid ELF_FILE_IDLE 0 NR_PAGES;;
  csr_clear CSR_mstatus SR_MPP;;
  csr_set CSR_mstatus SR_MPP_S;;
  csr_clear CSR_mstatus SR_SXL;;
  csr_set CSR_mstatus SR_SXL_64;;
  csr_clear CSR_mstatus SR_UXL;;
  csr_set CSR_mstatus SR_UXL_64;;
  csr_write CSR_mcounteren 0;;
  csr_write CSR_medeleg EDEL_MOST;;
  csr_write CSR_mideleg 0;;
  csr_write CSR_satp 0;;
  pmpcfg_write 0 PMPCFG_A_OFF;;
  pmpcfg_write 1 (PMPCFG_A_TOR .| PMPCFG_R .| PMPCFG_W .| PMPCFG_X);;
  pmpcfg_write 2 PMPCFG_A_OFF;;
  pmpcfg_write 3 (PMPCFG_A_TOR .| PMPCFG_R .| PMPCFG_X);;
  pmpaddr_write CSR_pmpaddr2 payload_start;;
  pmpaddr_write CSR_pmpaddr3 payload_end;;
  proc_switch pid.

(** main, after mcall_init. *)
Definition main : M cstate unit :=
  proc_init;;
  user_init.
End model.
