(* ===== verification/CertikosInv.v ===== *)
(** CertiKOS: symbolic execution of the calls, the state invariant (a partition
    of the pages, a ring of running processes, the PMP configuration) and its
    preservation. *)

From S2P Require Import Prelude.
From S2P Require Import Console.
From S2P Require Import Cstring.
From S2P Require Import Machine.
From S2P Require Import Mcall.
From S2P Require Import Nospec.
From S2P Require Import Certikos.

Section certikos.
Context `{Console} `{Layout}.
Implicit Types s : cstate.

Definition in_procs (pid : Z) : Prop := 0 <= pid < NR_PROCS.
Definition is_pid (pid : Z) : Prop := 0 < pid < NR_PROCS.

Lemma is_pid_in pid : is_pid pid -> in_procs pid.
Proof. unfold is_pid, in_procs. lia. Qed.

Lemma in_procs_bool pid : in_procs pid -> (0 <=? pid) && (pid <? NR_PROCS) = true.
Proof. intros []. apply andb_true_iff. by rewrite Z.leb_le, Z.ltb_lt. Qed.

(** * Equations *)

Lemma get_proc_eq pid s : in_procs pid -> get_proc pid s = Ret (procs s pid) s.
Proof. intros Hp. unfold get_proc. by rewrite (in_procs_bool pid Hp). Qed.

Lemma upd_proc_eq pid f s : in_procs pid ->
  upd_proc pid f s = Ret tt (mkC (<[pid := f (procs s pid)]> (procs s)) (current_pid s) (cmem s) (cmach s)).
Proof. intros Hp. unfold upd_proc. by rewrite (in_procs_bool pid Hp). Qed.

Definition page_addr (page : Z) : Z := pages + page * SZ_4K.

Lemma switch_pmp_eq pid s : in_procs pid ->
  switch_pmp pid s = Ret tt (mkC (procs s) (current_pid s) (cmem s)
    (mkMachine (frame (cmach s))
       (remap_put 0 (page_addr (lower (procs s pid))) (page_addr (upper (procs s pid))) (csrs (cmach s)))
       (dev (cmach s)))).
Proof. intros Hp. unfold switch_pmp. by erewrite bind_Ret by (by apply get_proc_eq). Qed.

Lemma proc_restore_csrs_eq pid s : in_procs pid ->
  proc_restore_csrs pid s = Ret tt (mkC (procs s) (current_pid s) (cmem s)
    (mkMachine (frame (cmach s)) (csrs_put proc_csrs (pcsr (procs s pid)) (csrs (cmach s))) (dev (cmach s)))).
Proof.
  intros Hp. unfold proc_restore_csrs. erewrite bind_Ret by (by apply get_proc_eq). by rewrite csrs_write_eq.
Qed.

Lemma proc_save_csrs_eq pid s : in_procs pid ->
  proc_save_csrs pid s = Ret tt (mkC
    (<[pid := with_pcsr (csrs_save proc_csrs (csrs (cmach s)) (pcsr (procs s pid))) (procs s pid)]> (procs s))
    (current_pid s) (cmem s) (cmach s)).
Proof.
  intros Hp. unfold proc_save_csrs. erewrite bind_Ret by (by apply get_proc_eq).
  erewrite bind_Ret by (apply csrs_read_eq). by rewrite upd_proc_eq.
Qed.

Ltac ccbn := cbn [procs current_pid cmem cmach get_mach set_mach cstate_machine frame csrs dev negb
  on_csrs on_frame].

(** One step of symbolic execution. *)
Ltac cbind m :=
  lazymatch m with
  | mbind _ _ => rewrite bind_assoc
  | get_proc _ => erewrite bind_Ret by (by apply get_proc_eq)
  | upd_proc _ _ => erewrite bind_Ret by (by apply upd_proc_eq)
  | switch_pmp _ => erewrite bind_Ret by (by apply switch_pmp_eq)
  | proc_restore_csrs _ => erewrite bind_Ret by (by apply proc_restore_csrs_eq)
  | proc_save_csrs _ => erewrite bind_Ret by (by apply proc_save_csrs_eq)
  | pmpcfg_write _ _ => erewrite bind_Ret by (by apply pmpcfg_write_eq)
  | gets _ => erewrite bind_Ret by (apply gets_eq)
  | get_frame => erewrite bind_Ret by (apply gets_eq)
  | BUG_ON false => erewrite bind_Ret by reflexivity
  | mret _ => erewrite bind_Ret by reflexivity
  | _ => erewrite bind_Ret by (apply modify_eq)
  end.
Ltac cstep :=
  lazymatch goal with
  | |- mbind _ ?m _ = _ => cbind m
  | |- _ -> mbind _ ?m _ = _ => cbind m
  end; ccbn; rewrite ?fn_lookup_insert.

(** What proc_new leaves: the new process, its memory cleared. *)
Definition new_proc (p : proc) (nx fileid lo hi : Z) : proc :=
  mkProc PROC_STATE_RUN (owner p) nx lo hi (<[CSR_mepc := payload_start]> (pcsr p))
    (<[R_a1 := u64 (page_addr lo)]> (<[R_a0 := fileid]> zero_regs)).

Lemma proc_new_ok pid nx fileid lo hi s : in_procs pid -> state (procs s pid) = PROC_STATE_FREE ->
  exists t, proc_new pid nx fileid lo hi s =
    Ret tt (mkC t (current_pid s) (memset (cmem s) (page_addr lo) 0 (u64 ((hi - lo) * SZ_4K))) (cmach s)) /\
  (forall q, q <> pid -> t q = procs s q) /\ t pid = new_proc (procs s pid) nx fileid lo hi.
Proof.
  intros Hp Hf. eexists. split_and!.
  - unfold proc_new. rewrite (proj2 (Z.leb_gt _ _)) by apply Hp. do 2 cstep. rewrite Hf.
    change (negb (PROC_STATE_FREE =? PROC_STATE_FREE)) with false. do 9 cstep. reflexivity.
  - intros q Hq. ccbn. by fn_simpl.
  - ccbn. fn_simpl. reflexivity.
Qed.
(** * spawn *)

Definition quota_of (p : proc) : Z := u64 (upper p - lower p).

Definition spawn_allowed (quota pid : Z) s : bool :=
  let cur := current_pid s in
  negb (quota_of (procs s cur) <? quota) && is_pid_valid pid &&
  (owner (procs s pid) =? cur) && (state (procs s pid) =? PROC_STATE_FREE).

Lemma is_pid_valid_spec pid : is_pid_valid pid = true <-> is_pid pid.
Proof. unfold is_pid_valid, is_pid. by rewrite andb_true_iff, !Z.ltb_lt. Qed.

Lemma nospec_pid pid : is_pid pid -> array_index_nospec pid NR_PROCS = pid.
Proof.
  intros [Hl Hu]. unfold NR_PROCS in *. rewrite nospec_index by (unfold uint; lia).
  by rewrite (proj2 (Z.ltb_lt _ _)).
Qed.

Lemma sys_spawn_refused fileid quota pid s : in_procs (current_pid s) ->
  spawn_allowed quota pid s = false -> sys_spawn fileid quota pid s = Ret (- EINVAL) s.
Proof.
  intros Hc. unfold spawn_allowed, sys_spawn. do 2 cstep.
  change (u64 (upper _ - lower _)) with (quota_of (procs s (current_pid s))).
  destruct (_ <? quota); [done|]. destruct (is_pid_valid pid) eqn:Hv; [|done].
  apply is_pid_valid_spec in Hv. rewrite nospec_pid by done. pose proof (is_pid_in pid Hv).
  cbn [negb andb]. unfold is_pid_owned_by_current, is_proc_free. do 5 cstep.
  destruct (owner _ =? _); [|done]. cbn [negb andb]. do 3 cstep. by destruct (state _ =? _).
Qed.

Definition spawn_post (fileid quota pid : Z) s s' : Prop :=
  let cur := current_pid s in
  let p := procs s cur in
  let mid := u64 (upper p - quota) in
  (forall q, q <> cur -> q <> pid -> procs s' q = procs s q) /\
  procs s' cur = with_next pid (with_upper mid p) /\
  procs s' pid = new_proc (procs s pid) (next p) fileid mid (upper p) /\
  current_pid s' = cur /\
  cmem s' = memset (cmem s) (page_addr mid) 0 (u64 ((upper p - mid) * SZ_4K)) /\
  cmach s' = mkMachine (frame (cmach s)) (remap_put 0 (page_addr (lower p)) (page_addr mid) (csrs (cmach s)))
               (dev (cmach s)).

Lemma spawn_allowed_true quota pid s : spawn_allowed quota pid s = true ->
  quota <= quota_of (procs s (current_pid s)) /\ is_pid pid /\
  owner (procs s pid) = current_pid s /\ state (procs s pid) = PROC_STATE_FREE.
Proof.
  unfold spawn_allowed. rewrite !andb_true_iff, negb_true_iff, Z.ltb_ge, is_pid_valid_spec, !Z.eqb_eq. tauto.
Qed.

Lemma sys_spawn_ok fileid quota pid s : in_procs (current_pid s) ->
  state (procs s (current_pid s)) = PROC_STATE_RUN -> spawn_allowed quota pid s = true ->
  exists s', sys_spawn fileid quota pid s = Ret 0 s' /\ spawn_post fileid quota pid s s'.
Proof.
  intros Hc Hrun (Hq & Hv & Ho & Hf)%spawn_allowed_true. set (cur := current_pid s) in *.
  assert (pid <> cur) as Hne by (intros ->; by rewrite Hf in Hrun).
  pose proof (is_pid_in pid Hv) as Hp.
  set (s1 := mkC (<[cur := with_upper (u64 (upper (procs s cur) - quota)) (procs s cur)]> (procs s)) cur (cmem s) (cmach s)).
  destruct (proc_new_ok pid (next (procs s cur)) fileid (u64 (upper (procs s cur) - quota)) (upper (procs s cur)) s1)
    as (t & Hn & Ho' & Hp'); [done|by cbn; fn_simpl|].
  eexists. split.
  - unfold sys_spawn. do 2 cstep. fold cur.
    change (u64 (upper _ - lower _)) with (quota_of (procs s cur)). rewrite (proj2 (Z.ltb_ge _ _) Hq).
    rewrite (proj2 (is_pid_valid_spec pid) Hv), nospec_pid by done. cbn [negb].
    unfold is_pid_owned_by_current, is_proc_free. do 5 cstep. fold cur. rewrite Ho, Z.eqb_refl. cbn [negb].
    do 3 cstep. rewrite Hf. change (negb (PROC_STATE_FREE =? PROC_STATE_FREE)) with false. ccbn.
    do 2 cstep. fold cur. cbn [next upper with_upper]. fold s1. erewrite bind_Ret by exact Hn. ccbn.
    do 2 cstep. reflexivity.
  - unfold spawn_post. fold cur. ccbn. rewrite !Ho' by done. subst s1. ccbn. fn_simpl. split_and!; try done.
    + intros q Hq1 Hq2. fn_simpl. rewrite Ho' by done. ccbn. by fn_simpl.
    + rewrite Hp'. ccbn. by fn_simpl.
Qed.

(** * yield *)

(** The process table once the running process has been saved. *)
Definition saved_proc (regs : pt_regs) s (p : proc) : proc :=
  with_pcsr (csrs_save proc_csrs (csrs (cmach s)) (pcsr p)) (with_cpu (copy_pt_regs (cpu p) regs) p).

Definition yield_post (regs : pt_regs) s (r : pt_regs) s' : Prop :=
  let cur := current_pid s in
  let q := procs s' (next (procs s cur)) in
  (forall x, x <> cur -> procs s' x = procs s x) /\
  procs s' cur = saved_proc regs s (procs s cur) /\
  current_pid s' = next (procs s cur) /\ cmem s' = cmem s /\ r = cpu q /\
  cmach s' = mkMachine (frame (cmach s))
    (csrs_put proc_csrs (pcsr q) (remap_put 0 (page_addr (lower q)) (page_addr (upper q)) (csrs (cmach s))))
    (dev (cmach s)).

Lemma proc_switch_eq pid s : in_procs pid ->
  proc_switch pid s = Mret (cpu (procs s pid)) (mkC (procs s) (current_pid s) (cmem s)
    (mkMachine (frame (cmach s)) (csrs_put proc_csrs (pcsr (procs s pid))
       (remap_put 0 (page_addr (lower (procs s pid))) (page_addr (upper (procs s pid))) (csrs (cmach s))))
       (dev (cmach s)))).
Proof.
  intros Hp. unfold proc_switch. rewrite (proj2 (Z.leb_gt _ _)) by apply Hp. by do 4 cstep.
Qed.

Lemma sys_yield_ok regs s : in_procs (current_pid s) -> in_procs (next (procs s (current_pid s))) ->
  exists r s', sys_yield regs s = Mret r s' /\ yield_post regs s r s'.
Proof.
  intros Hc Hn. set (cur := current_pid s) in *.
  eexists _, _. split.
  - unfold sys_yield. do 3 cstep. fold cur. unfold do_yield. do 8 cstep. ccbn.
    cbn [next with_pcsr with_cpu pcsr]. unfold mbind, M_bind.
    rewrite proc_switch_eq by done. ccbn. reflexivity.
  - unfold yield_post. fold cur. ccbn. fn_simpl. split_and!; try done. intros x Hx. by fn_simpl.
Qed.
(** * Invariant *)

Definition runs s (pid : Z) : Prop := is_pid pid /\ state (procs s pid) = PROC_STATE_RUN.
Definition owns (p : proc) (page : Z) : Prop := lower p <= page < upper p.

(** Following next from [x] through [l] leads to [y]. *)
Fixpoint path (t : Z -> proc) (x : Z) (l : list Z) (y : Z) : Prop :=
  match l with
  | [] => next (t x) = y
  | z :: l => next (t x) = z /\ path t z l y
  end.

(** The running processes form one cycle: the current one, then [l]. *)
Definition ring s (l : list Z) : Prop :=
  path (procs s) (current_pid s) l (current_pid s) /\ NoDup (current_pid s :: l) /\
  forall q, q ∈ current_pid s :: l <-> runs s q.

(** A slot that was never used: its saved CSRs are those of proc_init. *)
Definition fresh_slot (p : proc) : Prop :=
  state p = PROC_STATE_FREE /\ forall c, c ∈ proc_csrs -> c <> CSR_mepc -> pcsr p c = 0.

Record inv s : Prop := mkInv {
  inv_ring : exists l, ring s l;
  inv_bounds : forall q, runs s q -> 0 <= lower (procs s q) <= upper (procs s q) /\ upper (procs s q) <= NR_PAGES;
  inv_cover : forall page, 0 <= page < NR_PAGES -> exists q, runs s q /\ owns (procs s q) page;
  inv_unique : forall q r page, runs s q -> runs s r -> owns (procs s q) page -> owns (procs s r) page -> q = r;
  inv_free : forall q, is_pid q -> ~ runs s q -> fresh_slot (procs s q);
  inv_pmp0 : pmp_pair (csrs (cmach s)) 0 (Some (mkRegion
    (page_addr (lower (procs s (current_pid s)))) (page_addr (upper (procs s (current_pid s)))) PMPCFG_RWX));
  inv_pmp1 : pmp_pair (csrs (cmach s)) 1 (Some (mkRegion payload_start payload_end (PMPCFG_R .| PMPCFG_X)));
  inv_pmp2 : pmp_pair (csrs (cmach s)) 2 None;
  inv_pmp3 : pmp_pair (csrs (cmach s)) 3 None;
  inv_csrs : csrs_wf (csrs (cmach s))
}.

Lemma inv_current s : inv s -> runs s (current_pid s).
Proof. intros I. destruct (inv_ring s I) as (l & _ & _ & Hq). apply Hq. by apply elem_of_cons; left. Qed.

Lemma path_ext t t' x l y : (forall q, q ∈ x :: l -> next (t' q) = next (t q)) ->
  path t x l y -> path t' x l y.
Proof.
  revert x. induction l as [|z l IH]; intros x He; cbn [path].
  - by rewrite He by (by apply elem_of_cons; left).
  - rewrite He by (by apply elem_of_cons; left). intros [E Hp]. split; [done|].
    apply IH; [|done]. intros q Hq. apply He. apply elem_of_cons. by right.
Qed.

Lemma path_snoc t x l y z : path t x l y -> next (t y) = z -> path t x (l ++ [y]) z.
Proof. revert x. induction l as [|a l IH]; intros x; cbn [path app]; naive_solver. Qed.

Lemma ring_next s l : ring s l -> runs s (next (procs s (current_pid s))).
Proof.
  intros (Hp & _ & Hq). destruct l as [|z l]; cbn [path] in Hp.
  - rewrite Hp. apply Hq. by apply elem_of_cons; left.
  - destruct Hp as [-> _]. apply Hq. apply elem_of_cons. right. by apply elem_of_cons; left.
Qed.

(** The page addresses the PMP gets. *)
Lemma page_pmp_addr page : 0 <= page <= NR_PAGES -> pmp_addr (page_addr page).
Proof.
  intros Hp. pose proof pages_range. pose proof payload_range. pose proof pages_aligned as Ha.
  unfold page_addr, NR_PAGES, SZ_4K in *. split; [|lia].
  rewrite (Z.div_mod pages 0x1000), Ha by lia.
  replace (0x1000 * (pages / 0x1000) + 0 + page * 0x1000) with ((0x400 * (pages / 0x1000) + page * 0x400) * 4) by lia.
  apply Z_mod_mult.
Qed.
(** * Preservation *)

Lemma proc_csrs_keep_pmp c : c ∈ m_only -> c <> CSR_mcounteren -> c ∉ (csr_home <$> proc_csrs).
Proof. intros Hc ?. destruct c; first [in_csrs | done | by exfalso; revert Hc; in_csrs]. Qed.

Lemma proc_csrs_put_pair v f k o : pmp_pair f k o -> pmp_pair (csrs_put proc_csrs v f) k o.
Proof. apply csrs_put_pair, proc_csrs_keep_pmp. Qed.

(** Spawn splits the interval of the running process. *)
Lemma spawn_interval s quota : inv s -> 0 <= quota -> quota <= quota_of (procs s (current_pid s)) ->
  let p := procs s (current_pid s) in
  let mid := u64 (upper p - quota) in
  mid = upper p - quota /\ 0 <= lower p <= mid /\ mid <= upper p <= NR_PAGES.
Proof.
  intros I Hq Hle. destruct (inv_bounds s I _ (inv_current s I)) as [Hb Hu]. cbn zeta.
  unfold quota_of, NR_PAGES in *. rewrite (wrap_small 64 (_ - lower _)) in Hle by lia.
  rewrite wrap_small by lia. lia.
Qed.

Section spawned.
Context (fileid quota pid : Z) (s s' : cstate).
Hypothesis (I : inv s) (Hq : 0 <= quota) (Ha : spawn_allowed quota pid s = true).
Hypothesis (P : spawn_post fileid quota pid s s').

Lemma spawn_not_cur : pid <> current_pid s.
Proof.
  apply spawn_allowed_true in Ha as (_ & _ & _ & Hf). intros ->.
  destruct (inv_current s I) as [_ E]. by rewrite Hf in E.
Qed.

Lemma spawn_runs q : runs s' q <-> runs s q \/ q = pid.
Proof.
  destruct P as (Ho & Hc & Hn & _). pose proof spawn_not_cur. unfold runs.
  apply spawn_allowed_true in Ha as (_ & Hv & _).
  destruct (decide (q = pid)) as [->|]; [rewrite Hn; naive_solver|].
  destruct (decide (q = current_pid s)) as [->|]; [rewrite Hc; naive_solver|].
  rewrite Ho by done. naive_solver.
Qed.

(** The pages of every process after the spawn. *)
Lemma spawn_owns q page : is_pid q ->
  owns (procs s' q) page <->
  if decide (q = pid) then u64 (upper (procs s (current_pid s)) - quota) <= page < upper (procs s (current_pid s))
  else if decide (q = current_pid s)
  then lower (procs s q) <= page < u64 (upper (procs s q) - quota) else owns (procs s q) page.
Proof.
  intros _. destruct P as (Ho & Hc & Hn & _). unfold owns.
  case_decide; [subst; by rewrite Hn|]. case_decide; [subst; by rewrite Hc|]. by rewrite Ho.
Qed.

Lemma spawn_ring l : ring s l -> ring s' (pid :: l).
Proof.
  intros (Hp & Hnd & Hr). destruct P as (Ho & Hc & Hn & Hcur & _). pose proof spawn_not_cur as Hne.
  assert (pid ∉ current_pid s :: l) as Hni.
  { intros [_ E]%Hr. apply spawn_allowed_true in Ha as (_ & _ & _ & Hf). by rewrite Hf in E. }
  unfold ring. rewrite Hcur. split_and!.
  - cbn [path]. rewrite Hc. split; [done|]. destruct l as [|z l]; cbn [path] in *; rewrite Hn; [done|].
    destruct Hp as [Hz Hp]. split; [done|]. apply (path_ext (procs s)); [|done]. intros q Hq'.
    rewrite Ho; [done|..]; intros ->.
    + apply NoDup_cons in Hnd as [Hx _]. done.
    + apply Hni. apply elem_of_cons. by right.
  - apply NoDup_cons in Hnd as [Hx Hnd]. rewrite elem_of_cons in Hni.
    apply NoDup_cons. split; [rewrite elem_of_cons; naive_solver|]. apply NoDup_cons. naive_solver.
  - intros q. rewrite spawn_runs, <- Hr, !elem_of_cons. tauto.
Qed.

Lemma spawn_mid : let p := procs s (current_pid s) in
  u64 (upper p - quota) = upper p - quota /\ 0 <= lower p <= u64 (upper p - quota) /\
  u64 (upper p - quota) <= upper p <= NR_PAGES.
Proof. apply spawn_interval; [done..|]. apply (spawn_allowed_true quota pid s Ha). Qed.

(** The process a page belonged to before the spawn. *)
Lemma spawn_back q page : runs s' q -> owns (procs s' q) page ->
  exists r, runs s r /\ owns (procs s r) page /\ (r = q \/ q = pid /\ r = current_pid s).
Proof.
  intros Hr Hw. destruct spawn_mid as (Emid & Hlo & Hhi). pose proof (inv_current s I).
  assert (is_pid q) as Hqp by apply Hr. apply spawn_runs in Hr. apply spawn_owns in Hw; [|done].
  repeat case_decide; subst; unfold owns.
  - exists (current_pid s). split; [done|]. split; [lia|auto].
  - exists (current_pid s). split; [done|]. split; [lia|auto].
  - exists q. destruct Hr; [auto|done].
Qed.

Lemma spawn_cover page : 0 <= page < NR_PAGES -> exists q, runs s' q /\ owns (procs s' q) page.
Proof.
  intros Hp. pose proof Ha as (Hle & Hv & _ & Hf)%spawn_allowed_true. pose proof spawn_not_cur as Hne.
  destruct (inv_cover s I page Hp) as (q & Hr & Hw). assert (is_pid q) as Hqp by apply Hr.
  destruct (decide (q = current_pid s)) as [->|Hqc].
  - destruct (Z_lt_le_dec page (u64 (upper (procs s (current_pid s)) - quota))).
    + exists (current_pid s). split; [apply spawn_runs; by left|]. apply spawn_owns; [done|].
      rewrite decide_False, decide_True by done. unfold owns in Hw. lia.
    + exists pid. split; [apply spawn_runs; by right|]. apply spawn_owns; [done|].
      rewrite decide_True by done. unfold owns in Hw. lia.
  - exists q. split; [apply spawn_runs; by left|]. apply spawn_owns; [done|].
    rewrite decide_False, decide_False; [done..|]. intros ->. destruct Hr as [_ E]. by rewrite Hf in E.
Qed.

Lemma spawn_unique q r page : runs s' q -> runs s' r -> owns (procs s' q) page -> owns (procs s' r) page -> q = r.
Proof.
  intros Hq1 Hr1 Ho1 Ho2. pose proof spawn_not_cur as Hne.
  destruct (spawn_back q page Hq1 Ho1) as (q0 & R1 & W1 & C1), (spawn_back r page Hr1 Ho2) as (r0 & R2 & W2 & C2).
  assert (q0 = r0) as <- by (by apply (inv_unique s I q0 r0 page)).
  apply spawn_owns in Ho1, Ho2; [|apply Hr1|apply Hq1].
  destruct C1 as [->|[-> ->]], C2 as [E|[E1 E2]]; subst; try done;
    rewrite !decide_True in * by done; rewrite ?(decide_False (P := _ = pid)) in * by done;
    rewrite ?decide_True in * by done; lia.
Qed.

Lemma spawn_inv : inv s'.
Proof.
  pose proof (inv_current s I) as Hcur. destruct spawn_mid as (Emid & Hlo & Hhi).
  split; try (destruct P as (_ & _ & _ & _ & _ & ->); apply remap_put_other; [lia..|apply I]).
  - destruct (inv_ring s I) as (l & Hl). exists (pid :: l). by apply spawn_ring.
  - intros q Hr. apply spawn_runs in Hr. destruct P as (Ho & Hc & Hn & _).
    destruct (decide (q = pid)) as [->|]; [rewrite Hn; cbn; lia|].
    destruct (decide (q = current_pid s)) as [->|]; [rewrite Hc; cbn; lia|].
    rewrite Ho by done. destruct Hr as [Hr|]; [by apply (inv_bounds s I)|done].
  - apply spawn_cover.
  - apply spawn_unique.
  - intros q Hqp Hnr. rewrite spawn_runs in Hnr. destruct P as (Ho & _).
    rewrite Ho by (intros ->; apply Hnr; auto). apply (inv_free s I); [done|]. tauto.
  - destruct P as (_ & Hc & _ & Hc' & _ & Hm). rewrite Hm, Hc', Hc. cbn [csrs lower upper with_next with_upper].
    refine (remap_put_same 0 _ _ _ _ _ _ _ (inv_pmp0 s I)); [lia|apply page_pmp_addr; lia..].
  - destruct P as (_ & _ & _ & _ & _ & ->). apply remap_put_wf, (inv_csrs s I).
Qed.
End spawned.

(** Yield moves the head of the ring to its end. *)
Lemma yield_ring regs s r s' l : yield_post regs s r s' -> ring s l -> exists l', ring s' l'.
Proof.
  intros (Ho & Hc & Hcur & _) (Hp & Hnd & Hr).
  assert (forall q, next (procs s' q) = next (procs s q) /\ state (procs s' q) = state (procs s q)) as Hn.
  { intros q. destruct (decide (q = current_pid s)) as [->|]; [by rewrite Hc|by rewrite Ho]. }
  assert (forall q, runs s' q <-> runs s q) as Hrs by (intros q; unfold runs; by destruct (Hn q) as [_ ->]).
  destruct l as [|z l]; cbn [path] in Hp.
  - exists []. unfold ring. rewrite Hcur, Hp. cbn [path]. destruct (Hn (current_pid s)) as [-> _].
    split_and!; try done. intros q. by rewrite Hrs, <- Hr.
  - destruct Hp as [Hz Hp]. exists (l ++ [current_pid s]). unfold ring. rewrite Hcur, Hz. split_and!.
    + apply path_snoc; [|by destruct (Hn (current_pid s)) as [-> _]].
      apply (path_ext (procs s)); [|done]. intros q _. apply Hn.
    + change (NoDup ((z :: l) ++ [current_pid s])).
      apply NoDup_cons in Hnd as [Hni Hnd]. apply NoDup_app. split_and!; [done| |apply NoDup_singleton].
      intros x Hx ->%list_elem_of_singleton. done.
    + intros q. rewrite Hrs, <- Hr, !elem_of_cons, elem_of_app, list_elem_of_singleton. tauto.
Qed.

Lemma yield_inv regs s r s' : inv s -> yield_post regs s r s' -> inv s'.
Proof.
  intros I P. pose proof P as (Ho & Hc & Hcur & _ & _ & Hm).
  destruct (inv_ring s I) as (l & Hl). pose proof (ring_next s l Hl) as Hnx.
  assert (forall q, state (procs s' q) = state (procs s q) /\ lower (procs s' q) = lower (procs s q) /\
    upper (procs s' q) = upper (procs s q)) as Hn.
  { intros q. destruct (decide (q = current_pid s)) as [->|]; [by rewrite Hc|by rewrite Ho]. }
  assert (forall q, runs s' q <-> runs s q) as Hrs by (intros q; unfold runs; by destruct (Hn q) as [-> _]).
  assert (forall q page, owns (procs s' q) page <-> owns (procs s q) page) as How
    by (intros q page; unfold owns; by destruct (Hn q) as (_ & -> & ->)).
  assert (forall k o, k <> 0%nat -> pmp_pair (csrs (cmach s)) k o -> pmp_pair (csrs (cmach s')) k o) as Hpmp.
  { intros k o Hk Hp. rewrite Hm. cbn [csrs]. apply proc_csrs_put_pair, remap_put_other; [lia|done..]. }
  split; try (apply Hpmp; [done|apply I]).
  - by eapply yield_ring.
  - intros q Hr%Hrs. destruct (Hn q) as (_ & -> & ->). by apply (inv_bounds s I).
  - intros page Hp. destruct (inv_cover s I page Hp) as (q & ? & ?). exists q. by rewrite Hrs, How.
  - intros q r' page. rewrite !Hrs, !How. apply (inv_unique s I).
  - intros q Hq Hnr. rewrite Hrs in Hnr. rewrite Ho; [by apply (inv_free s I)|].
    intros ->. by destruct Hnr; apply inv_current.
  - rewrite Hm, Hcur. cbn [csrs]. apply proc_csrs_put_pair.
    destruct (Hn (next (procs s (current_pid s)))) as (_ & -> & ->).
    pose proof (inv_bounds s I _ Hnx).
    refine (remap_put_same 0 _ _ _ _ _ _ _ (inv_pmp0 s I)); [lia|apply page_pmp_addr; lia..].
  - rewrite Hm. apply csrs_put_wf, remap_put_wf, (inv_csrs s I).
Qed.
(** Only the machine changes, and its PMP registers do not. *)
Lemma c_machine_inv s s' : inv s -> procs s' = procs s -> current_pid s' = current_pid s ->
  (forall k o, pmp_pair (csrs (cmach s)) k o -> pmp_pair (csrs (cmach s')) k o) ->
  csrs_wf (csrs (cmach s')) -> inv s'.
Proof.
  intros I Hp Hc Hk Hw.
  assert (forall q, runs s' q <-> runs s q) as Hr by (intros q; unfold runs; by rewrite Hp).
  split; rewrite ?Hp, ?Hc; try (apply Hk, I); try done.
  - destruct (inv_ring s I) as (l & ? & ? & Hq). exists l. unfold ring. rewrite Hp, Hc.
    split_and!; try done. intros q. by rewrite Hr.
  - intros q. rewrite Hr. apply (inv_bounds s I).
  - intros page Hpg. destruct (inv_cover s I page Hpg) as (q & ? & ?). exists q. by rewrite Hr.
  - intros q r page. rewrite !Hr. apply (inv_unique s I).
  - intros q. rewrite Hr. apply (inv_free s I).
Qed.

Lemma c_frame_inv s f : inv s -> inv (on_frame f s).
Proof. intros I. apply (c_machine_inv s); try done. apply (inv_csrs s I). Qed.

Lemma c_dev_inv s d : inv s -> inv (on_dev (fun _ => d) s).
Proof. intros I. apply (c_machine_inv s); try done. apply (inv_csrs s I). Qed.

Lemma mepc_pair f k o v : pmp_pair f k o -> pmp_pair (csr_put f CSR_mepc v) k o.
Proof.
  intros Hp. apply (csrs_put_pair [CSR_mepc] (fun _ => v)); [|done].
  intros c Hc _. destruct c; first [in_csrs | by exfalso; revert Hc; in_csrs].
Qed.

Lemma c_mepc_inv s v : inv s -> inv (on_csrs (fun f => csr_put f CSR_mepc v) s).
Proof.
  intros I. apply (c_machine_inv s); try done; [|apply csr_put_wf, (inv_csrs s I)].
  intros k o. apply mepc_pair.
Qed.

(** * What a call did *)

Inductive call_effect (regs : pt_regs) s : outcome cstate Z -> Prop :=
  | eff_off : call_effect regs s (Halt Shutdown)
  | eff_none r d : call_effect regs s (Ret r (on_dev (fun _ => d) s))
  | eff_quota : s64 (regs R_a7) = NR_get_quota ->
      call_effect regs s (Ret (quota_of (procs s (current_pid s))) s)
  | eff_getpid : s64 (regs R_a7) = NR_getpid -> call_effect regs s (Ret (current_pid s) s)
  | eff_refused : s64 (regs R_a7) = NR_spawn -> spawn_allowed (regs R_a1) (regs R_a2) s = false ->
      call_effect regs s (Ret (- EINVAL) s)
  | eff_spawn s' : s64 (regs R_a7) = NR_spawn -> spawn_allowed (regs R_a1) (regs R_a2) s = true ->
      spawn_post (regs R_a0) (regs R_a1) (regs R_a2) s s' -> call_effect regs s (Ret 0 s')
  | eff_yield r s' : s64 (regs R_a7) = NR_yield -> yield_post regs s r s' -> call_effect regs s (Mret r s').

Lemma c_call_cases regs s : inv s -> call_effect regs s (certikos_call regs s).
Proof.
  intros I. destruct (inv_current s I) as [Hc%is_pid_in Hrun]. unfold certikos_call. cbn zeta.
  destruct (is_sbi _).
  { destruct (do_mcall_cases regs s) as [-> |(r & d & ->)]; [apply eff_off|apply eff_none]. }
  destruct (Z.eqb_spec (s64 (regs R_a7)) NR_get_quota).
  { unfold sys_get_quota. erewrite bind_Ret by (apply gets_eq). erewrite bind_Ret by (by apply get_proc_eq).
    by apply eff_quota. }
  destruct (Z.eqb_spec (s64 (regs R_a7)) NR_spawn).
  { destruct (spawn_allowed (regs R_a1) (regs R_a2) s) eqn:Ha.
    - destruct (sys_spawn_ok (regs R_a0) (regs R_a1) (regs R_a2) s) as (s' & -> & P); try done. by apply eff_spawn.
    - rewrite sys_spawn_refused by done. by apply eff_refused. }
  destruct (Z.eqb_spec (s64 (regs R_a7)) NR_yield).
  { destruct (inv_ring s I) as (l & Hl). pose proof (ring_next s l Hl) as [Hnx%is_pid_in _].
    destruct (sys_yield_ok regs s Hc Hnx) as (r & s' & -> & P). by apply eff_yield. }
  destruct (Z.eqb_spec (s64 (regs R_a7)) NR_getpid); [by apply eff_getpid|].
  pose proof (eff_none regs s (- ENOSYS) (dev (get_mach s))) as E. by rewrite on_dev_id in E.
Qed.

Lemma c_call_inv regs s r s' : inv s -> regs_wf regs ->
  certikos_call regs s = Ret r s' -> inv s'.
Proof.
  intros I Hr E. pose proof (c_call_cases regs s I) as C. rewrite E in C. inversion C; subst; try done.
  - by apply c_dev_inv.
  - eapply spawn_inv; [done| |done..]. apply Hr.
Qed.

Lemma c_call_mret_inv regs s r s' : inv s -> certikos_call regs s = Mret r s' -> inv s'.
Proof.
  intros I E. pose proof (c_call_cases regs s I) as C. rewrite E in C. inversion C; subst. by eapply yield_inv.
Qed.

(** The state in which do_trap_ecall_s makes the call: past the ecall. *)
Definition past_ecall s : cstate :=
  on_csrs (fun f => csr_put f CSR_mepc (csr_get (csrs (cmach s)) CSR_mepc + 4)) s.

Lemma c_trap_eq s : trap EXC_ECALL_S s =
  match certikos_call (frame (cmach s)) (past_ecall s) with
  | Ret r s' => Ret tt (on_frame (<[R_a0 := u64 r]>) s')
  | Mret r s' => Mret r s'
  | Halt h => Halt h
  end.
Proof. reflexivity. Qed.

(** Where a trap leads: back to the caller, or to the next process. *)
Inductive ecall_to s : cstate -> Prop :=
  | to_caller s' : trap EXC_ECALL_S s = Ret tt s' -> ecall_to s s'
  | to_next r s' : trap EXC_ECALL_S s = Mret r s' -> ecall_to s s'.

Lemma c_ecall_inv s s' : inv s -> regs_wf (frame (cmach s)) -> ecall_to s s' -> inv s'.
Proof.
  intros I Hr [s1 E|r s1 E]; rewrite c_trap_eq in E;
    destruct (certikos_call _ _) as [x s2|x s2|] eqn:Ec; simplify_eq.
  - apply c_frame_inv. eapply c_call_inv; [|done..]. by apply c_mepc_inv.
  - eapply c_call_mret_inv; [|done]. by apply c_mepc_inv.
Qed.

Lemma c_ecall_total s : inv s ->
  trap EXC_ECALL_S s = Halt Shutdown \/ exists s', ecall_to s s'.
Proof.
  intros I. pose proof (c_call_cases (frame (cmach s)) (past_ecall s) (c_mepc_inv s _ I)) as C.
  pose proof (c_trap_eq s) as E. inversion C as [E'|r d E'|? E'|? E'|?? E'|s1 ??? E'|r s1 ?? E'];
    rewrite <- E' in E; eauto using to_caller, to_next.
Qed.
End certikos.
