(* ===== verification/CertikosSafety.v ===== *)
(** CertiKOS: reachable states, memory isolation and integrity, the partition of
    the pages, round-robin scheduling and the context round trip of yield. *)

From S2P Require Import Prelude.
From S2P Require Import Console.
From S2P Require Import Cstring.
From S2P Require Import Machine.
From S2P Require Import Mcall.
From S2P Require Import Nospec.
From S2P Require Import Certikos.
From S2P Require Import CertikosInv.

Section certikos.
Context `{Console} `{Layout}.
Implicit Types s : cstate.

(** * Reachable states *)

(** The running process computes until it traps. *)
Record user s s' : Prop := mkUser {
  user_procs : procs s' = procs s;
  user_current : current_pid s' = current_pid s;
  user_csrs : lower_csrs (csrs (cmach s)) (csrs (cmach s'));
  user_mem : lower_mem (csrs (cmach s)) (cmem s) (cmem s');
  user_regs : regs_wf (frame (cmach s'))
}.

Definition ecall_step s s' : Prop := exists s1, user s s1 /\ ecall_to s1 s'.

Inductive reachable : cstate -> Prop :=
  | reach_boot s0 regs s : reset_pmp (csrs (cmach s0)) -> main s0 = Mret regs s -> reachable s
  | reach_step s s' : reachable s -> ecall_step s s' -> reachable s'.

(** * Boot *)

Lemma proc_init_loop_ok n i s : 0 <= i -> i + Z.of_nat n <= NR_PROCS ->
  exists t, proc_init_loop i n s = Ret tt (mkC t (current_pid s) (cmem s) (cmach s)) /\
    forall q, t q = if decide (i <= q < i + Z.of_nat n) then proc_init_entry q (procs s q) else procs s q.
Proof.
  revert i s. induction n as [|n IH]; intros i s Hi Hn; cbn [proc_init_loop].
  - exists (procs s). split; [by destruct s|]. intros q. by rewrite decide_False by lia.
  - erewrite bind_Ret by (apply upd_proc_eq; unfold in_procs; lia).
    destruct (IH (i + 1) (mkC (<[i := proc_init_entry i (procs s i)]> (procs s)) (current_pid s) (cmem s) (cmach s)))
      as (t & -> & Ht); [lia..|].
    exists t. split; [done|]. intros q. rewrite Ht. cbn [procs]. rewrite fn_insert_spec.
    repeat case_decide; subst; try lia; done.
Qed.

(** The registers user_init writes before the PMP. *)
Definition user_init_csrs (f : csr_file) : csr_file :=
  let clr c v f := csr_put f c (Z.ldiff (csr_get f c) (u64 v)) in
  let set c v f := csr_put f c (csr_get f c .| u64 v) in
  let f := set CSR_mstatus SR_MPP_S (clr CSR_mstatus SR_MPP f) in
  let f := set CSR_mstatus SR_SXL_64 (clr CSR_mstatus SR_SXL f) in
  let f := set CSR_mstatus SR_UXL_64 (clr CSR_mstatus SR_UXL f) in
  csr_put (csr_put (csr_put (csr_put f CSR_mcounteren 0) CSR_medeleg EDEL_MOST) CSR_mideleg 0) CSR_satp 0.

Definition user_init_pmp (f : csr_file) : csr_file :=
  remap_put 1 payload_start payload_end (chmod_put 1 (PMPCFG_R .| PMPCFG_X)
    (pmpcfg_put 2 PMPCFG_A_OFF (chmod_put 0 PMPCFG_RWX (pmpcfg_put 0 PMPCFG_A_OFF f)))).

Lemma user_init_csrs_wf f : csrs_wf f -> csrs_wf (user_init_csrs f).
Proof. intros. unfold user_init_csrs. auto 20 using csr_put_wf. Qed.

Lemma user_init_csrs_cfg f : user_init_csrs f CSR_pmpcfg0 = f CSR_pmpcfg0.
Proof. unfold user_init_csrs. by rewrite !csr_put_other. Qed.

Lemma on_csrs_fields F s :
  procs (on_csrs F s) = procs s /\ current_pid (on_csrs F s) = current_pid s /\ cmem (on_csrs F s) = cmem s /\
  frame (cmach (on_csrs F s)) = frame (cmach s) /\ dev (cmach (on_csrs F s)) = dev (cmach s) /\
  csrs (cmach (on_csrs F s)) = F (csrs (cmach s)).
Proof. done. Qed.

Lemma user_init_ok s : state (procs s PID_IDLE) = PROC_STATE_FREE ->
  exists t, user_init s =
    Mret (cpu (t PID_IDLE)) (mkC t (current_pid s) (memset (cmem s) (page_addr 0) 0 (NR_PAGES * SZ_4K))
      (mkMachine (frame (cmach s)) (csrs_put proc_csrs (pcsr (t PID_IDLE))
        (remap_put 0 (page_addr 0) (page_addr NR_PAGES) (user_init_pmp (user_init_csrs (csrs (cmach s))))))
        (dev (cmach s)))) /\
    (forall q, q <> PID_IDLE -> t q = procs s q) /\
    t PID_IDLE = new_proc (procs s PID_IDLE) PID_IDLE ELF_FILE_IDLE 0 NR_PAGES.
Proof.
  intros Hf. destruct (proc_new_ok PID_IDLE PID_IDLE ELF_FILE_IDLE 0 NR_PAGES s) as (t & E & Ho & Hn); [done..|].
  exists t. split_and!; [|done..]. unfold user_init. erewrite bind_Ret by exact E.
  do 10 (erewrite bind_Ret by (apply modify_eq)).
  do 4 (erewrite bind_Ret by (by apply pmpcfg_write_eq)).
  do 2 (erewrite bind_Ret by (apply modify_eq)).
  rewrite proc_switch_eq, !on_csrs_comp by done.
  match goal with |- context [on_csrs ?F ?x] => destruct (on_csrs_fields F x) as (-> & -> & -> & -> & -> & ->) end.
  cbn [procs current_pid cmem cmach]. by rewrite Hn.
Qed.
(** The PMP after boot: the idle process's pages, the payload, nothing else. *)
Lemma boot_pairs f : pmp_off f ->
  let g := remap_put 0 (page_addr 0) (page_addr NR_PAGES) (user_init_pmp f) in
  pmp_pair g 0 (Some (mkRegion (page_addr 0) (page_addr NR_PAGES) PMPCFG_RWX)) /\
  pmp_pair g 1 (Some (mkRegion payload_start payload_end (PMPCFG_R .| PMPCFG_X))) /\
  pmp_pair g 2 None /\ pmp_pair g 3 None.
Proof.
  intros Hr g. assert (forall k, (k < 4)%nat -> pmp_pair f k None) as Hn by (intros; by apply reset_pair).
  assert (pmp_addr payload_start /\ pmp_addr payload_end) as [As Ae].
  { pose proof payload_range. pose proof pages_range. pose proof payload_start_aligned as E1.
    pose proof payload_end_aligned as E2. unfold SZ_4K, NR_PAGES in *.
    assert (forall x, x mod 0x1000 = 0 -> x mod 4 = 0) as Hm.
    { intros x E. rewrite <- (Z.mod_mod_divide x 0x1000 4) by (by exists 0x400). by rewrite E. }
    split; (split; [by apply Hm|lia]). }
  assert (pmp_addr (page_addr 0) /\ pmp_addr (page_addr NR_PAGES)) as [A0 A1]
    by (split; apply page_pmp_addr; unfold NR_PAGES; lia).
  unfold g, user_init_pmp. split_and!.
  - destruct (chmod_put_same 0 PMPCFG_RWX _ _ ltac:(lia) ltac:(done)
      (pmpcfg_off_even 0 0 f _ ltac:(lia) (Hn 0%nat ltac:(lia)))) as (a & b & Hp & _).
    refine (remap_put_same 0 _ _ _ (mkRegion a b PMPCFG_RWX) ltac:(lia) A0 A1 _).
    apply remap_put_other, chmod_put_other, (pmpcfg_off_even 1); done || lia.
  - destruct (chmod_put_same 1 (PMPCFG_R .| PMPCFG_X) (pmpcfg_put 2 PMPCFG_A_OFF (chmod_put 0 PMPCFG_RWX (pmpcfg_put 0 PMPCFG_A_OFF f))) None)
      as (a & b & Hp & _); [lia|done| |].
    { apply (pmpcfg_off_even 1), chmod_put_other, (pmpcfg_off_even 0); try (done || lia). by apply Hn; lia. }
    apply remap_put_other; [lia..|].
    by refine (remap_put_same 1 _ _ _ (mkRegion a b (PMPCFG_R .| PMPCFG_X)) ltac:(lia) As Ae _).
  - apply remap_put_other, remap_put_other, chmod_put_other, (pmpcfg_off_even 1), chmod_put_other, (pmpcfg_off_even 0);
      try (done || lia). apply Hn; lia.
  - apply remap_put_other, remap_put_other, chmod_put_other, (pmpcfg_off_even 1), chmod_put_other, (pmpcfg_off_even 0);
      try (done || lia). apply Hn; lia.
Qed.

Lemma c_boot_inv s0 : reset_pmp (csrs (cmach s0)) -> exists regs s, main s0 = Mret regs s /\ inv s.
Proof.
  intros [Hw Hr]. unfold main, proc_init.
  destruct (proc_init_loop_ok (Z.to_nat NR_PROCS) 0 s0) as (t0 & E0 & Ht0); [done..|].
  rewrite bind_assoc. erewrite bind_Ret by exact E0. erewrite bind_Ret by (apply modify_eq).
  cbn [procs current_pid cmem cmach].
  assert (forall q, in_procs q -> t0 q = proc_init_entry q (procs s0 q)) as Hi.
  { intros q Hq. rewrite Ht0, decide_True; [done|]. unfold in_procs, NR_PROCS in *. lia. }
  destruct (user_init_ok (mkC t0 PID_IDLE (cmem s0) (cmach s0))) as (t & -> & Ho & Hn).
  { cbn [procs]. by rewrite Hi. }
  cbn [procs current_pid cmem cmach] in *. eexists _, _. split; [reflexivity|].
  destruct (boot_pairs (user_init_csrs (csrs (cmach s0)))) as (P0 & P1 & P2 & P3).
  { intros i Hi'. unfold pmp_cfg_byte. rewrite user_init_csrs_cfg. by apply Hr. }
  set (g := remap_put 0 _ _ _) in *.
  assert (csrs_wf g) as Hg by (apply remap_put_wf, remap_put_wf, chmod_put_wf, pmpcfg_put_wf, chmod_put_wf,
    pmpcfg_put_wf, user_init_csrs_wf, Hw). clearbody g.
  match goal with |- inv ?x => set (s1 := x) end.
  assert (procs s1 = t /\ current_pid s1 = PID_IDLE /\ csrs (cmach s1) = csrs_put proc_csrs (pcsr (t PID_IDLE)) g)
    as (Et & Ec & Eg) by done. clearbody s1.
  assert (forall q, runs s1 q <-> q = PID_IDLE) as Hrun.
  { intros q. unfold runs. rewrite Et. split; [|by intros ->; rewrite Hn]. intros [Hq Hs].
    destruct (decide (q = PID_IDLE)); [done|]. rewrite Ho, Hi in Hs by (done || by apply is_pid_in). done. }
  split; rewrite ?Eg, ?Ec, ?Et, ?Hn; try (by apply proc_csrs_put_pair).
  - exists []. unfold ring. rewrite Ec, Et. split_and!; [by cbn [path]; rewrite Hn|apply NoDup_singleton|].
    intros q. rewrite Hrun. apply list_elem_of_singleton.
  - intros q ->%Hrun. rewrite Hn. done.
  - intros page Hp. exists PID_IDLE. rewrite Hn. split; [by apply Hrun|done].
  - intros q r page ->%Hrun ->%Hrun. done.
  - intros q Hq Hnr. rewrite Hrun in Hnr. rewrite Ho, Hi by (done || by apply is_pid_in).
    split; [done|]. intros c Hc Hne. destruct c; first [done | by exfalso; revert Hc; in_csrs].
  - by apply csrs_put_wf.
Qed.

Lemma user_inv s s' : inv s -> user s s' -> inv s'.
Proof.
  intros I []. apply (c_machine_inv s); try done; [|apply user_csrs0].
  intros k o. apply pmp_pair_ext, (lower_m_only _ _ user_csrs0).
Qed.

Lemma c_step_inv s s' : inv s -> ecall_step s s' -> inv s'.
Proof. intros I (s1 & Hu & E). eapply c_ecall_inv; [|apply (user_regs _ _ Hu)|done]. by eapply user_inv. Qed.

Lemma c_reachable_inv s : reachable s -> inv s.
Proof.
  induction 1 as [s0 regs s Hr E|s s' _ I Hs]; [|by eapply c_step_inv].
  destruct (c_boot_inv s0 Hr) as (? & ? & E' & I). by rewrite E in E'; simplify_eq.
Qed.

(** C12: from every reachable state, whatever the running process does before it
    traps, an ecall returns to it, switches to the next process, or powers the
    machine off on request: no BUG_ON fires, no array is indexed out of bounds. *)
Theorem certikos_ecall_total s s1 : reachable s -> user s s1 ->
  trap EXC_ECALL_S s1 = Halt Shutdown \/ exists s', ecall_to s1 s' /\ reachable s' /\ inv s'.
Proof.
  intros R Hu. pose proof (user_inv _ _ (c_reachable_inv s R) Hu) as I1.
  destruct (c_ecall_total s1 I1) as [E|(s' & E)]; [by left|right]. exists s'.
  assert (ecall_step s s') by (by exists s1).
  split_and!; [done|by eapply reach_step|]. eapply c_step_inv; [by apply c_reachable_inv|done].
Qed.
(** * Memory *)

(** The byte at [a] belongs to the pages of [p]. *)
Definition in_pages (p : proc) (a : Z) : bool :=
  (page_addr (lower p) <=? a) && (a <? page_addr (upper p)).

Definition in_payload (a : Z) : bool := (payload_start <=? a) && (a <? payload_end).

Lemma c_privs_inv s a : inv s -> 0 <= a < 2 ^ 64 - 1 ->
  pmp_privs (csrs (cmach s)) a 1 = Some (
    if in_pages (procs s (current_pid s)) a then PMPCFG_RWX
    else if in_payload a then PMPCFG_R .| PMPCFG_X else 0).
Proof.
  intros I Ha.
  rewrite (pmp_privs_regions a 1 ltac:(lia) ltac:(lia) ltac:(lia) _ _ _ _ _
    (inv_pmp0 s I) (inv_pmp1 s I) (inv_pmp2 s I) (inv_pmp3 s I)).
  cbn [regions_privs]. rewrite !byte_contains, !byte_overlaps. cbn [r_lo r_hi r_perm].
  fold (in_pages (procs s (current_pid s)) a). fold (in_payload a).
  by destruct (in_pages _ _), (in_payload a).
Qed.

(** C5: in every reachable state the PMP gives S-mode exactly the running
    process's pages (RWX) and the payload image (read and execute); the pages of
    every other process and the monitor's memory are inaccessible. *)
Theorem certikos_isolation s a : reachable s -> 0 <= a < 2 ^ 64 - 1 ->
  pmp_privs (csrs (cmach s)) a 1 = Some (
    if in_pages (procs s (current_pid s)) a then PMPCFG_RWX
    else if in_payload a then PMPCFG_R .| PMPCFG_X else 0).
Proof. intros I%c_reachable_inv. by apply c_privs_inv. Qed.

(** The running process writes its own pages only. *)
Lemma user_writes s s1 a : inv s -> user s s1 -> 0 <= a < 2 ^ 64 - 1 ->
  in_pages (procs s (current_pid s)) a = false -> cmem s1 a = cmem s a.
Proof.
  intros I Hu Ha Hn. destruct (decide (cmem s1 a = cmem s a)) as [|Hne]; [done|exfalso].
  destruct (user_mem _ _ Hu a Hne) as (p & Hp & Hw). rewrite (c_privs_inv s a I Ha), Hn in Hp.
  injection Hp as <-. apply Hw. by destruct (in_payload a).
Qed.

(** Spawn clears exactly the pages it takes from the parent. *)
Lemma spawn_clears s quota a : inv s -> 0 <= quota -> quota <= quota_of (procs s (current_pid s)) ->
  let p := procs s (current_pid s) in let mid := u64 (upper p - quota) in
  memset (cmem s) (page_addr mid) 0 (u64 ((upper p - mid) * SZ_4K)) a =
  if (page_addr mid <=? a) && (a <? page_addr (upper p)) then 0 else cmem s a.
Proof.
  intros I Hq Hle p mid. destruct (spawn_interval s quota I Hq Hle) as (_ & Hlo & Hhi).
  fold p mid in Hlo, Hhi. unfold NR_PAGES, SZ_4K in *.
  rewrite (wrap_small 64), memset_spec by lia.
  replace (in_range a _ _) with ((page_addr mid <=? a) && (a <? page_addr (upper p))); [done|].
  unfold in_range, page_addr, SZ_4K. f_equal. f_equal. lia.
Qed.

(** * Steps *)

Inductive step_kind s1 s' : Prop :=
  | step_same : procs s' = procs s1 -> current_pid s' = current_pid s1 -> cmem s' = cmem s1 -> step_kind s1 s'
  | step_spawn fileid quota pid : 0 <= quota -> spawn_allowed quota pid s1 = true ->
      (forall q, q <> current_pid s1 -> q <> pid -> procs s' q = procs s1 q) ->
      cmem s' = memset (cmem s1) (page_addr (u64 (upper (procs s1 (current_pid s1)) - quota))) 0
        (u64 ((upper (procs s1 (current_pid s1)) - u64 (upper (procs s1 (current_pid s1)) - quota)) * SZ_4K)) ->
      current_pid s' = current_pid s1 ->
      procs s' pid = new_proc (procs s1 pid) (next (procs s1 (current_pid s1))) fileid
        (u64 (upper (procs s1 (current_pid s1)) - quota)) (upper (procs s1 (current_pid s1))) ->
      step_kind s1 s'
  | step_yield r : s64 (frame (cmach s1) R_a7) = NR_yield -> trap EXC_ECALL_S s1 = Mret r s' ->
      yield_post (frame (cmach s1)) (past_ecall s1) r s' -> step_kind s1 s'.

Lemma c_step_split s s' : inv s -> ecall_step s s' ->
  exists s1, user s s1 /\ inv s1 /\ step_kind s1 s'.
Proof.
  intros I (s1 & Hu & E). pose proof (user_inv _ _ I Hu) as I1. exists s1. split_and!; [done..|].
  pose proof (c_call_cases (frame (cmach s1)) (past_ecall s1) (c_mepc_inv s1 _ I1)) as C.
  assert (0 <= frame (cmach s1) R_a1) as Hq by apply (user_regs _ _ Hu).
  destruct E as [s' E|r s' E]; pose proof E as Et; rewrite c_trap_eq in E; revert C E;
    destruct (certikos_call _ _) as [x s2|x s2|]; intros C E; simplify_eq; inversion C; subst;
    try (by apply step_same).
  - match goal with H : spawn_post _ _ _ _ _ |- _ => destruct H as (Ho & _ & Hn & Hc & Hm & _) end.
    by eapply (step_spawn s1 _ _ _ _ Hq).
  - by eapply step_yield.
Qed.

(** A step leaves the other processes and their memory alone. *)
Lemma step_others s s' q : inv s -> ecall_step s s' -> runs s q -> q <> current_pid s ->
  procs s' q = procs s q /\
  forall a, 0 <= a < 2 ^ 64 - 1 -> in_pages (procs s (current_pid s)) a = false -> cmem s' a = cmem s a.
Proof.
  intros I Hs Hr Hne. destruct (c_step_split s s' I Hs) as (s1 & Hu & I1 & K).
  pose proof (user_procs _ _ Hu) as Ep. pose proof (user_current _ _ Hu) as Ec.
  assert (forall a, 0 <= a < 2 ^ 64 - 1 -> in_pages (procs s (current_pid s)) a = false -> cmem s1 a = cmem s a) as Hm
    by (intros; by apply user_writes).
  destruct K as [Kp Kc Km|fileid quota pid Hq Ha Ho Km Kc _|r _ _ (Ho & _ & _ & Km & _)].
  - rewrite Kp, Ep. split; [done|]. intros a Ha Hn. rewrite Km. by apply Hm.
  - pose proof Ha as (Hle & _ & _ & Hf)%spawn_allowed_true. rewrite <- Ep, Ho, Ep; [|congruence|].
    2:{ intros ->. destruct Hr as [_ E]. rewrite <- Ep, Hf in E. done. }
    split; [done|]. intros a Hra Hn. rewrite Km, (spawn_clears s1 quota a I1 Hq Hle).
    destruct (spawn_interval s1 quota I1 Hq Hle) as (_ & Hlo & _).
    rewrite (proj2 (andb_false_iff _ _)); [by apply Hm|].
    unfold in_pages in Hn. rewrite <- Ep, <- Ec in Hn. unfold page_addr, SZ_4K in *. lia.
  - split; [rewrite Ho by (cbn; congruence); by rewrite <- Ep|].
    intros a Hra Hn. rewrite Km. by apply Hm.
Qed.
End certikos.
