(* ===== verification/CertikosProps.v ===== *)
(** CertiKOS: what the monitor guarantees to its processes. *)

From S2P Require Import Prelude.
From S2P Require Import Console.
From S2P Require Import Cstring.
From S2P Require Import Machine.
From S2P Require Import Mcall.
From S2P Require Import Nospec.
From S2P Require Import Certikos.
From S2P Require Import CertikosInv.
From S2P Require Import CertikosSafety.

Section certikos.
Context `{Console} `{Layout}.
Implicit Types s : cstate.

(** C8: a step of the running process, whatever it computes and whatever call it
    ends with, changes memory only inside its own pages, and does not change the
    saved state, the bounds or the memory of any other process. *)
Theorem certikos_integrity s s' q : reachable s -> ecall_step s s' -> runs s q -> q <> current_pid s ->
  procs s' q = procs s q /\
  forall a, 0 <= a < 2 ^ 64 - 1 -> in_pages (procs s (current_pid s)) a = false -> cmem s' a = cmem s a.
Proof. intros I%c_reachable_inv. by apply step_others. Qed.

(** C15: in every reachable state the pages are partitioned among the running
    processes: each of the NR_PAGES pages belongs to exactly one of them. *)
Theorem certikos_partition s page : reachable s -> 0 <= page < NR_PAGES ->
  exists q, (runs s q /\ owns (procs s q) page) /\
    forall r, runs s r -> owns (procs s r) page -> r = q.
Proof.
  intros I%c_reachable_inv Hp. destruct (inv_cover s I page Hp) as (q & Hr & Ho).
  exists q. split; [done|]. intros r Hr' Ho'. by apply (inv_unique s I r q page).
Qed.

(** * Scheduling *)

(** A step in which the running process yields. *)
Definition yield_step s s' : Prop :=
  exists s1, user s s1 /\ s64 (frame (cmach s1) R_a7) = NR_yield /\ ecall_to s1 s'.

Lemma yield_step_post s s' : inv s -> yield_step s s' ->
  exists s1 r, user s s1 /\ inv s1 /\ trap EXC_ECALL_S s1 = Mret r s' /\
    yield_post (frame (cmach s1)) (past_ecall s1) r s'.
Proof.
  intros I (s1 & Hu & Hnr & E). pose proof (user_inv _ _ I Hu) as I1.
  pose proof (c_call_cases (frame (cmach s1)) (past_ecall s1) (c_mepc_inv s1 _ I1)) as C.
  assert (is_sbi (s64 (frame (cmach s1) R_a7)) = false) as Hsbi by (by rewrite Hnr).
  assert (exists r s2, certikos_call (frame (cmach s1)) (past_ecall s1) = Mret r s2) as (r & s2 & Ec).
  { unfold certikos_call. rewrite Hsbi, Hnr. cbn [Z.eqb Pos.eqb NR_yield NR_get_quota NR_spawn].
    destruct (inv_current _ (c_mepc_inv s1 (csr_get (csrs (cmach s1)) CSR_mepc + 4) I1)) as [Hc%is_pid_in _].
    destruct (inv_ring _ (c_mepc_inv s1 (csr_get (csrs (cmach s1)) CSR_mepc + 4) I1)) as (l & Hl).
    destruct (ring_next _ l Hl) as [Hn%is_pid_in _].
    destruct (sys_yield_ok (frame (cmach s1)) (past_ecall s1) Hc Hn) as (r & s2 & E' & _). by exists r, s2. }
  exists s1, r. rewrite Ec in C. inversion C; subst.
  destruct E as [s' E|r' s' E]; rewrite c_trap_eq, Ec in E; simplify_eq.
  by rewrite c_trap_eq, Ec.
Qed.

Lemma yield_step_ecall s s' : yield_step s s' -> ecall_step s s'.
Proof. intros (s1 & ? & _ & ?). by exists s1. Qed.

(** One yield moves to the next process, and the ring is walked in order. *)
Lemma yield_walk s s' l : inv s -> yield_step s s' -> path (procs s) (current_pid s) l (current_pid s) ->
  inv s' /\ current_pid s' = next (procs s (current_pid s)) /\
  forall q, next (procs s' q) = next (procs s q).
Proof.
  intros I Hy _. split; [by eapply c_step_inv, yield_step_ecall|].
  destruct (yield_step_post s s' I Hy) as (s1 & r & Hu & _ & _ & Ho & Hc & Hcur & _).
  cbn [past_ecall on_csrs procs current_pid] in *.
  rewrite Hcur. cbn. rewrite (user_procs _ _ Hu), (user_current _ _ Hu). split; [done|]. intros q.
  rewrite <- (user_procs _ _ Hu). destruct (decide (q = current_pid s1)) as [->|Hq].
  - change (current_pid s1) with (current_pid (past_ecall s1)). by rewrite Hc.
  - by rewrite Ho.
Qed.

(** The process that runs after [k] yields, following the table of [s]. *)
Definition nth_next s (k : nat) : Z := Nat.iter k (fun q => next (procs s q)) (current_pid s).

Lemma yields_current k s s' : inv s -> nsteps yield_step k s s' -> current_pid s' = nth_next s k.
Proof.
  revert s. induction k as [|k IH]; intros s I Hs; inversion Hs as [|? ? s1 ? Hy Hk]; subst; [done|].
  destruct (inv_ring s I) as (l & Hl & _). destruct (yield_walk s s1 l I Hy Hl) as (I1 & Hc & Hn).
  rewrite (IH s1 I1 Hk). unfold nth_next. rewrite Hc.
  change (Nat.iter k (fun q => next (procs s1 q)) (next (procs s (current_pid s))) =
          Nat.iter (S k) (fun q => next (procs s q)) (current_pid s)).
  rewrite Nat.iter_succ_r. clear -Hn. induction k as [|k IH]; [done|].
  rewrite !Nat.iter_succ, IH. apply Hn.
Qed.

Lemma path_reaches t x l y q : path t x l y -> q ∈ x :: l ->
  exists k, (k <= length l)%nat /\ Nat.iter k (fun q => next (t q)) x = q.
Proof.
  revert x. induction l as [|z l IH]; intros x Hp Hq.
  - apply list_elem_of_singleton in Hq as ->. by exists 0%nat.
  - destruct Hp as [Hz Hp]. apply elem_of_cons in Hq as [->|Hq]; [exists 0%nat; split; [lia|done]|].
    destruct (IH z Hp Hq) as (k & Hk & E). exists (S k). split; [cbn; lia|].
    by rewrite Nat.iter_succ_r, Hz.
Qed.

(** A duplicate-free list of process ids is short. *)
Lemma pids_bound (l : list Z) : NoDup l -> (forall q, q ∈ l -> is_pid q) -> (length l < Z.to_nat NR_PROCS)%nat.
Proof.
  intros Hnd Hin. assert (l ⊆ seqZ 1 63) as Hs.
  { intros q Hq. apply elem_of_seqZ. pose proof (Hin q Hq) as []. unfold NR_PROCS in *. lia. }
  apply NoDup_submseteq, submseteq_length in Hs; [|done]. rewrite length_seqZ in Hs. unfold NR_PROCS. lia.
Qed.

Lemma yield_progress s : inv s -> exists s', yield_step s s'.
Proof.
  intros I. set (s1 := on_frame (fun _ => <[R_a7 := NR_yield]> zero_regs) s).
  assert (user s s1) as Hu.
  { split; try done; [by split; try apply (inv_csrs s I)|by intros a []|].
    intros g. cbn. rewrite fn_insert_spec. by case_decide. }
  destruct (c_ecall_total s1 (user_inv _ _ I Hu)) as [E|(s' & E)]; [|by exists s', s1].
  rewrite c_trap_eq in E.
  pose proof (c_mepc_inv s1 (csr_get (csrs (cmach s1)) CSR_mepc + 4) (user_inv _ _ I Hu)) as I2.
  destruct (inv_current _ I2) as [Hc%is_pid_in _]. destruct (inv_ring _ I2) as (l & Hl).
  destruct (ring_next _ l Hl) as [Hn%is_pid_in _].
  destruct (sys_yield_ok (frame (cmach s1)) (past_ecall s1) Hc Hn) as (r & s2 & E' & _).
  change (certikos_call _ ?x) with (sys_yield (frame (cmach s1)) x) in E. by rewrite E' in E.
Qed.

Lemma yields_progress k s : inv s -> exists s', nsteps yield_step k s s'.
Proof.
  revert s. induction k as [|k IH]; intros s I; [exists s; constructor|].
  destruct (yield_progress s I) as (s1 & Hy).
  destruct (IH s1) as (s2 & Hs); [by eapply c_step_inv, yield_step_ecall|]. exists s2. by econstructor.
Qed.

(** C16: scheduling is fair: from every reachable state, every running process gets
    the processor after fewer than NR_PROCS yields, whatever the processes compute
    in between; and that many yields can always happen. *)
Theorem certikos_round_robin s q : reachable s -> runs s q ->
  exists k, (k < Z.to_nat NR_PROCS)%nat /\
    (forall s', nsteps yield_step k s s' -> current_pid s' = q) /\ exists s', nsteps yield_step k s s'.
Proof.
  intros I%c_reachable_inv Hq. destruct (inv_ring s I) as (l & Hp & Hnd & Hr).
  destruct (path_reaches _ _ _ _ q Hp) as (k & Hk & E); [by apply Hr|].
  exists k. split_and!; [|  |by apply yields_progress].
  - assert (length (current_pid s :: l) < Z.to_nat NR_PROCS)%nat; [|cbn [length] in *; lia].
    apply pids_bound; [done|]. intros x Hx. by apply Hr.
  - intros s' Hs. by rewrite (yields_current k s s' I Hs).
Qed.

(** * Being away from the processor *)

Lemma in_pages_unique s q r a : inv s -> runs s q -> runs s r -> q <> r ->
  in_pages (procs s q) a = true -> in_pages (procs s r) a = false.
Proof.
  intros I Hq Hr Hne Ha. destruct (in_pages (procs s r) a) eqn:Hb; [exfalso|done].
  apply Hne, (inv_unique s I q r ((a - pages) / SZ_4K) Hq Hr);
    unfold in_pages, owns, page_addr, SZ_4K in *; split;
    first [apply Z.div_le_lower_bound; lia | apply Z.div_lt_upper_bound; lia].
Qed.

Lemma in_pages_range s q a : inv s -> runs s q -> in_pages (procs s q) a = true -> 0 <= a < 2 ^ 64 - 1.
Proof.
  intros I Hq Ha. pose proof (inv_bounds s I q Hq). pose proof pages_range. pose proof payload_range.
  unfold in_pages, page_addr, NR_PAGES, SZ_4K in *. lia.
Qed.

(** A step of a process other than [p]. *)
Definition away_step (p : Z) s s' : Prop := current_pid s <> p /\ ecall_step s s'.

(** [p] runs in both states, with the same saved state and the same memory. *)
Definition kept (p : Z) s s' : Prop :=
  procs s' p = procs s p /\ forall a, in_pages (procs s p) a = true -> cmem s' a = cmem s a.

Lemma away_kept p s s' : inv s -> runs s p -> rtc (away_step p) s s' -> inv s' /\ kept p s s'.
Proof.
  intros I Hr Hs. revert I Hr. induction Hs as [|s s1 s' [Hne Hs1] _ IH]; intros I Hr; [done|].
  destruct (step_others s s1 p I Hs1 Hr) as [Ep Em]; [done|].
  destruct IH as (I' & E & Hk); [by eapply c_step_inv|by unfold runs; rewrite Ep|]. unfold kept.
  rewrite Ep in *. split_and!; try done. intros a Ha. rewrite Hk by done. apply Em.
  - by apply (in_pages_range s p).
  - apply (in_pages_unique s p); try done. by apply inv_current.
Qed.

Lemma proc_csrs_not_pmp c : c ∈ proc_csrs -> csr_home c <> CSR_pmpcfg0 /\ csr_home c ∉ pmpaddr_csrs.
Proof. intros Hc. split; destruct c; first [done | in_csrs | by exfalso; revert Hc; in_csrs]. Qed.

(** Only yield leaves the monitor by switching. *)
Lemma mret_yield s r s' : inv s -> regs_wf (frame (cmach s)) -> trap EXC_ECALL_S s = Mret r s' ->
  yield_post (frame (cmach s)) (past_ecall s) r s' /\ inv s'.
Proof.
  intros I Hw E. split; [|by eapply c_ecall_inv, to_next]. rewrite c_trap_eq in E.
  pose proof (c_call_cases (frame (cmach s)) (past_ecall s) (c_mepc_inv s _ I)) as C.
  destruct (certikos_call _ _); simplify_eq. by inversion C.
Qed.

(** The saved context, put back over any register file. *)
Lemma saved_context s lo hi f c : csrs_wf (csrs (cmach s)) -> c ∈ proc_csrs ->
  csr_get (csrs_put proc_csrs (pcsr (saved_proc (frame (cmach s)) (past_ecall s) (procs s (current_pid s))))
    (remap_put 0 lo hi f)) c =
  if decide (c = CSR_mepc) then u64 (csr_get (csrs (cmach s)) CSR_mepc + 4) else csr_get (csrs (cmach s)) c.
Proof.
  intros Hw Hc. cbn [saved_proc with_pcsr pcsr]. rewrite restore_saved; [|in_csrs|by apply csr_put_wf|done].
  exact (mepc_advance (csrs (cmach s)) c).
Qed.

(** C19: a process that yields continues where it stopped: when, after any number of
    steps of other processes, the monitor switches back to it, all its registers
    and all the CSRs of proc_save_csrs are as they were, mepc is past the ecall,
    and the memory of its pages is unchanged. *)
Theorem certikos_yield_roundtrip p s0 s r1 s1 sn s2 r s' : reachable s0 -> user s0 s ->
  current_pid s = p -> s64 (frame (cmach s) R_a7) = NR_yield -> trap EXC_ECALL_S s = Mret r1 s1 ->
  rtc (away_step p) s1 sn -> current_pid sn <> p ->
  user sn s2 -> trap EXC_ECALL_S s2 = Mret r s' -> current_pid s' = p ->
  (forall g, r g = frame (cmach s) g) /\
  (forall c, c ∈ proc_csrs -> c <> CSR_mepc -> csr_get (csrs (cmach s')) c = csr_get (csrs (cmach s)) c) /\
  csr_get (csrs (cmach s')) CSR_mepc = u64 (csr_get (csrs (cmach s)) CSR_mepc + 4) /\
  forall a, in_pages (procs s p) a = true -> cmem s' a = cmem s a.
Proof.
  intros I0%c_reachable_inv Hu Hcur Hnr Et Hs Hne Hu2 Et2 Hcur'.
  pose proof (user_inv _ _ I0 Hu) as I.
  destruct (mret_yield s r1 s1 I (user_regs _ _ Hu) Et) as [(_ & Hp1 & _ & Hm1 & _) I1].
  cbn [past_ecall on_csrs current_pid procs cmem get_mach set_mach cstate_machine] in Hp1, Hm1. rewrite Hcur in Hp1.
  assert (runs s1 p) as Hr1 by (destruct (inv_current s I) as [? ?]; subst p; split; [done|by rewrite Hp1]).
  destruct (away_kept p s1 sn I1 Hr1 Hs) as (In & Hpn & Hmn).
  destruct (mret_yield s2 r s' (user_inv _ _ In Hu2) (user_regs _ _ Hu2) Et2) as [(Ho & _ & Hc & Hm & Hr & Hk) _].
  cbn [past_ecall on_csrs current_pid procs cmem get_mach set_mach cstate_machine] in Ho, Hc, Hm, Hr, Hk.
  rewrite <- Hc, Hcur', Ho, (user_procs _ _ Hu2), Hpn, Hp1 in Hr, Hk by (rewrite (user_current _ _ Hu2); done).
  split_and!.
  - intros g. rewrite Hr. cbn. apply copy_pt_regs_eq.
  - intros c Hc' Hnm. rewrite Hk, <- Hcur. cbn [csrs]. by rewrite saved_context, decide_False by (done || apply (inv_csrs s I)).
  - rewrite Hk, <- Hcur. cbn [csrs]. by rewrite saved_context by (in_csrs || apply (inv_csrs s I)).
  - intros a Ha. rewrite Hm, (user_writes sn s2 a In Hu2); [rewrite Hmn, Hm1; [done|by rewrite Hp1]|..].
    + apply (in_pages_range sn p); [done|by unfold runs; rewrite Hpn|by rewrite Hpn, Hp1].
    + apply (in_pages_unique sn p); [done|by unfold runs; rewrite Hpn|by apply inv_current|done|by rewrite Hpn, Hp1].
Qed.

(** * Spawn *)

Definition spawned (fileid quota pid : Z) s s' : Prop :=
  let p := procs s (current_pid s) in
  let mid := upper p - quota in
  let child := procs s' pid in
  frame (cmach s') R_a0 = 0 /\ current_pid s' = current_pid s /\
  (* the parent gives up its top pages *)
  lower (procs s' (current_pid s)) = lower p /\ upper (procs s' (current_pid s)) = mid /\
  (* the child gets them, cleared, and a fresh context *)
  state child = PROC_STATE_RUN /\ lower child = mid /\ upper child = upper p /\
  (forall a, in_pages child a = true -> cmem s' a = 0) /\
  (forall a, in_pages child a = false -> cmem s' a = cmem s a) /\
  (forall g, cpu child g = if decide (g = R_a0) then fileid else if decide (g = R_a1) then page_addr mid else 0) /\
  (forall c, c ∈ proc_csrs -> pcsr child c = if decide (c = CSR_mepc) then payload_start else 0) /\
  (* the child runs next, before the parent's old successor *)
  next (procs s' (current_pid s)) = pid /\ next child = next p.

Lemma spawn_post_spawned fileid quota pid s s' : inv s -> 0 <= quota -> spawn_allowed quota pid s = true ->
  spawn_post fileid quota pid s s' -> spawned fileid quota pid s (on_frame (<[R_a0 := u64 0]>) s').
Proof.
  intros I Hq Ha (_ & Hcur & Hn & Hcp & Hm & _).
  pose proof Ha as (Hle & Hv & _ & Hf)%spawn_allowed_true.
  destruct (spawn_interval s quota I Hq Hle) as (Hmid & Hlo & Hhi).
  pose proof (spawn_clears s quota) as Hclr. cbn zeta in Hclr. rewrite Hmid in *.
  unfold spawned. cbn [on_frame get_mach set_mach cstate_machine procs current_pid cmem cmach frame].
  rewrite Hcur, Hn, Hcp, Hm.
  assert (fresh_slot (procs s pid)) as [_ Hz] by (apply (inv_free s I pid Hv); intros [_ E]; by rewrite Hf in E).
  cbn [lower upper state next with_next with_upper new_proc cpu pcsr]. split_and!; try done.
  - intros a E. rewrite Hclr by done. unfold in_pages in E. cbn [lower upper new_proc] in E. by rewrite E.
  - intros a E. rewrite Hclr by done. unfold in_pages in E. cbn [lower upper new_proc] in E. by rewrite E.
  - intros g. rewrite !fn_insert_spec. repeat case_decide; subst; try done. apply wrap_small.
    pose proof pages_range. pose proof payload_range. unfold page_addr, NR_PAGES, SZ_4K in *. lia.
  - intros c Hc. rewrite fn_insert_spec. repeat case_decide; subst; try done. by apply Hz.
Qed.

(** Spawn either splits the caller's quota, clears the child's pages and
    prepares a child with zeroed registers that starts at the payload's entry; or
    answers -EINVAL and changes neither the processes nor memory.  It succeeds
    exactly when the quota fits, the id is a valid child of the caller and its
    slot is free. *)
Theorem certikos_spawn s0 s : reachable s0 -> user s0 s -> s64 (frame (cmach s) R_a7) = NR_spawn ->
  let fileid := frame (cmach s) R_a0 in let quota := frame (cmach s) R_a1 in let pid := frame (cmach s) R_a2 in
  exists s', trap EXC_ECALL_S s = Ret tt s' /\
    if spawn_allowed quota pid s then spawned fileid quota pid s s'
    else frame (cmach s') R_a0 = u64 (- EINVAL) /\ procs s' = procs s /\ cmem s' = cmem s.
Proof.
  intros I0%c_reachable_inv Hu Hnr fileid quota pid. pose proof (user_inv _ _ I0 Hu) as I.
  pose proof (c_mepc_inv s (csr_get (csrs (cmach s)) CSR_mepc + 4) I) as I'.
  fold (past_ecall s) in I'. destruct (inv_current _ I') as [Hc%is_pid_in Hrun].
  assert (certikos_call (frame (cmach s)) (past_ecall s) = sys_spawn fileid quota pid (past_ecall s)) as Ec
    by (unfold certikos_call; by rewrite Hnr).
  change (spawn_allowed quota pid s) with (spawn_allowed quota pid (past_ecall s)).
  destruct (spawn_allowed quota pid (past_ecall s)) eqn:Ha.
  2:{ eexists. rewrite c_trap_eq, Ec, sys_spawn_refused by done. by split. }
  destruct (sys_spawn_ok fileid quota pid (past_ecall s) Hc Hrun Ha) as (s' & Es & P).
  eexists. rewrite c_trap_eq, Ec, Es. split; [done|].
  apply (spawn_post_spawned fileid quota pid (past_ecall s)); try done. apply (user_regs _ _ Hu).
Qed.
End certikos.
