(* ===== verification/CertikosWitness.v ===== *)
(** CertiKOS: the theorems at concrete states.  The monitor boots, the idle process
    spawns a child with 16 pages, yields to it, and the child yields back. *)

From S2P Require Import Prelude.
From S2P Require Import Console.
From S2P Require Import Cstring.
From S2P Require Import Machine.
From S2P Require Import Mcall.
From S2P Require Import Certikos.
From S2P Require Import CertikosInv.
From S2P Require Import CertikosSafety.
From S2P Require Import CertikosProps.

#[local] Existing Instance log_console.

#[local] Instance sample_layout : Layout.
Proof. by refine {| pages := 0x80100000; payload_start := 0x80200000; payload_end := 0x80300000 |}. Defined.

(** The hart at reset. *)
Definition reset_state : cstate :=
  mkC (fun _ => zero_proc) 0 (fun _ => 7) (mkMachine zero_regs (fun _ => 0) []).

Definition reached {A} (s : cstate) (o : outcome cstate A) : cstate :=
  match o with Ret _ s' | Mret _ s' => s' | Halt _ => s end.

Definition booted : cstate := reached reset_state (main reset_state).

Definition call_regs (nr a0 a1 a2 : Z) : pt_regs :=
  <[R_a7 := nr]> (<[R_a0 := a0]> (<[R_a1 := a1]> (<[R_a2 := a2]> zero_regs))).

(** The running process loads its registers and traps. *)
Definition with_regs (regs : pt_regs) (s : cstate) : cstate := on_frame (fun _ => regs) s.

Definition ecall (regs : pt_regs) (s : cstate) : cstate :=
  reached s (trap EXC_ECALL_S (with_regs regs s)).

Definition spawn_regs : pt_regs := call_regs NR_spawn 5 16 2.
Definition yield_regs : pt_regs := call_regs NR_yield 0 0 0.

Definition parent : cstate := ecall spawn_regs booted.
Definition child : cstate := ecall yield_regs parent.
Definition back : cstate := ecall yield_regs child.

Lemma c_call_regs_wf nr a0 a1 a2 : uint 64 nr -> uint 64 a0 -> uint 64 a1 -> uint 64 a2 ->
  regs_wf (call_regs nr a0 a1 a2).
Proof. intros. intros g. unfold call_regs. rewrite !fn_insert_spec. by repeat case_decide. Qed.

(** How an operation ended. *)
Inductive ending := Returned | Switched | Halted.
#[local] Instance ending_eq_dec : EqDecision ending.
Proof. solve_decision. Defined.
Definition ends {A} (o : outcome cstate A) : ending :=
  match o with Ret _ _ => Returned | Mret _ _ => Switched | Halt _ => Halted end.

Lemma ends_ret (o : outcome cstate unit) s : ends o = Returned -> o = Ret tt (reached s o).
Proof. by destruct o as [[]| |]. Qed.

Lemma ends_mret {A} (o : outcome cstate A) s : ends o = Switched -> exists r, o = Mret r (reached s o).
Proof. destruct o; try done. by eexists. Qed.

Lemma c_reset_ok : reset_pmp (csrs (cmach reset_state)).
Proof.
  split; [by intros c|]. intros i _. unfold pmp_cfg_byte. cbn [csrs cmach reset_state]. by rewrite Z.shiftr_0_l.
Qed.

Lemma c_booted_reachable : reachable booted.
Proof.
  destruct (ends_mret (main reset_state) reset_state) as [regs E]; [by vm_compute|].
  apply (reach_boot reset_state regs); [apply c_reset_ok|exact E].
Qed.

Lemma sample_user regs s : reachable s -> regs_wf regs -> user s (with_regs regs s).
Proof.
  intros R Hr. split; try done; [|by intros a []].
  by split; try apply (inv_csrs s (c_reachable_inv s R)).
Qed.

Lemma parent_step : ecall_step booted parent.
Proof.
  exists (with_regs spawn_regs booted). split; [apply sample_user; [apply c_booted_reachable|by apply c_call_regs_wf]|].
  apply to_caller, ends_ret. by vm_compute.
Qed.

Lemma parent_reachable : reachable parent.
Proof. eapply reach_step; [apply c_booted_reachable|apply parent_step]. Qed.

Lemma yield_ends_child : ends (trap EXC_ECALL_S (with_regs yield_regs parent)) = Switched.
Proof. by vm_compute. Qed.

Lemma child_step : ecall_step parent child.
Proof.
  exists (with_regs yield_regs parent). split; [apply sample_user; [apply parent_reachable|by apply c_call_regs_wf]|].
  destruct (ends_mret _ parent yield_ends_child) as [r E]. by apply (to_next _ r).
Qed.

Lemma child_reachable : reachable child.
Proof. eapply reach_step; [apply parent_reachable|apply child_step]. Qed.

Lemma certikos_ecall_total_witness :
  trap EXC_ECALL_S (with_regs spawn_regs booted) = Halt Shutdown \/
  exists s', ecall_to (with_regs spawn_regs booted) s' /\ reachable s' /\ inv s'.
Proof.
  apply (certikos_ecall_total booted); [apply c_booted_reachable|].
  apply sample_user; [apply c_booted_reachable|by apply c_call_regs_wf].
Defined.

Lemma certikos_isolation_witness :
  pmp_privs (csrs (cmach parent)) 0x801f1000 1 = Some 0 /\ in_pages (procs parent 2) 0x801f1000 = true.
Proof.
  rewrite (certikos_isolation parent 0x801f1000 parent_reachable ltac:(done)). split; by vm_compute.
Defined.

Lemma runs_parent : runs parent 2.
Proof. by split; vm_compute. Qed.

Lemma certikos_integrity_witness : procs child 2 = procs parent 2.
Proof.
  apply (certikos_integrity parent child 2);
    [apply parent_reachable|apply child_step|apply runs_parent|by vm_compute].
Defined.

Lemma certikos_partition_witness :
  exists q, (runs parent q /\ owns (procs parent q) 250) /\
    forall r, runs parent r -> owns (procs parent r) 250 -> r = q.
Proof. apply (certikos_partition parent 250); [apply parent_reachable|done]. Defined.

Lemma certikos_round_robin_witness :
  exists k, (k < Z.to_nat NR_PROCS)%nat /\
    (forall s', nsteps yield_step k parent s' -> current_pid s' = 2) /\ exists s', nsteps yield_step k parent s'.
Proof. apply (certikos_round_robin parent 2); [apply parent_reachable|apply runs_parent]. Defined.

Lemma yield_ends_back : ends (trap EXC_ECALL_S (with_regs yield_regs child)) = Switched.
Proof. by vm_compute. Qed.

Lemma parent_user : user parent (with_regs yield_regs parent).
Proof. apply sample_user; [apply parent_reachable|by apply c_call_regs_wf]. Qed.

Lemma child_user : user child (with_regs yield_regs child).
Proof. apply sample_user; [apply child_reachable|by apply c_call_regs_wf]. Qed.

Lemma pids : current_pid (with_regs yield_regs parent) = 1 /\ current_pid child <> 1 /\ current_pid back = 1.
Proof. split_and!; by vm_compute. Qed.

Lemma certikos_yield_roundtrip_witness :
  csr_get (csrs (cmach back)) CSR_mepc = u64 (csr_get (csrs (cmach (with_regs yield_regs parent))) CSR_mepc + 4).
Proof.
  destruct (ends_mret _ parent yield_ends_child) as [r1 E1].
  destruct (ends_mret _ child yield_ends_back) as [r E].
  exact (proj1 (proj2 (proj2 (certikos_yield_roundtrip 1 parent (with_regs yield_regs parent) r1 child child
    (with_regs yield_regs child) r back parent_reachable parent_user (proj1 pids) eq_refl E1 (rtc_refl _ _)
    (proj1 (proj2 pids)) child_user E (proj2 (proj2 pids)))))).
Defined.

Lemma certikos_spawn_witness :
  exists s', trap EXC_ECALL_S (with_regs spawn_regs booted) = Ret tt s' /\
    spawned 5 16 2 (with_regs spawn_regs booted) s'.
Proof.
  destruct (certikos_spawn booted (with_regs spawn_regs booted)) as (s' & E & P);
    [apply c_booted_reachable|apply sample_user; [apply c_booted_reachable|by apply c_call_regs_wf]|done|].
  exists s'. split; [exact E|].
  replace (spawn_allowed _ _ _) with true in P by (by vm_compute). exact P.
Defined.
