(* ===== verification/Komodo.v ===== *)
(** The Komodo monitor (monitors/komodo): a database of secure pages from which the
    host builds enclaves (address spaces, dispatchers, page tables, data pages),
    entry into and exit from enclaves, the trap handlers and the boot code. *)

From S2P Require Import Prelude.
From S2P Require Import Console.
From S2P Require Import Machine.
From S2P Require Import Mcall.

(** * Data: monitor.h, include/uapi/komodo, include/asm/pgtable*.h *)

Definition KOM_PAGE_SIZE : Z := 0x1000.
Definition KOM_SECURE_RESERVE : Z := 1 * 1024 * 4096.
Definition KOM_SECURE_NPAGES : Z := KOM_SECURE_RESERVE / KOM_PAGE_SIZE.
Definition KOM_INSECURE_RESERVE : Z := 1 * 1024 * 1024.
Definition KOM_INSECURE_NPAGES : Z := KOM_INSECURE_RESERVE / KOM_PAGE_SIZE.
Definition KOM_MAGIC : Z := 0x4b6d646f.

Definition KOM_ERR_SUCCESS : Z := 0.
Definition KOM_ERR_INVALID_PAGENO : Z := 1.
Definition KOM_ERR_PAGEINUSE : Z := 2.
Definition KOM_ERR_INVALID_ADDRSPACE : Z := 3.
Definition KOM_ERR_ALREADY_FINAL : Z := 4.
Definition KOM_ERR_NOT_FINAL : Z := 5.
Definition KOM_ERR_INVALID_MAPPING : Z := 6.
Definition KOM_ERR_ADDRINUSE : Z := 7.
Definition KOM_ERR_NOT_STOPPED : Z := 8.
Definition KOM_ERR_INTERRUPTED : Z := 9.
Definition KOM_ERR_FAULT : Z := 10.
Definition KOM_ERR_ALREADY_ENTERED : Z := 11.
Definition KOM_ERR_NOT_ENTERED : Z := 12.

Definition KOM_MAPPING_R : Z := 1 ≪ 1.
Definition KOM_MAPPING_W : Z := 1 ≪ 2.
Definition KOM_MAPPING_X : Z := 1 ≪ 3.
Definition KOM_MAPPING_RWX : Z := KOM_MAPPING_R .| KOM_MAPPING_W .| KOM_MAPPING_X.

Definition KOM_PAGE_FREE : Z := 0.
Definition KOM_PAGE_ADDRSPACE : Z := 1.
Definition KOM_PAGE_DISPATCHER : Z := 2.
Definition KOM_PAGE_L1PTABLE : Z := 3.
Definition KOM_PAGE_L2PTABLE : Z := 4.
Definition KOM_PAGE_L3PTABLE : Z := 5.
Definition KOM_PAGE_DATA : Z := 6.

Definition KOM_ADDRSPACE_INIT : Z := 0.
Definition KOM_ADDRSPACE_FINAL : Z := 1.
Definition KOM_ADDRSPACE_STOPPED : Z := 2.

Definition PAGE_SHIFT : Z := 12.
Definition _PAGE_PRESENT : Z := 1 ≪ 0.
Definition _PAGE_ACCESSED : Z := 1 ≪ 6.
Definition _PAGE_DIRTY : Z := 1 ≪ 7.
Definition _PAGE_PFN_SHIFT : Z := 10.
Definition _PAGE_TABLE : Z := _PAGE_PRESENT.
Definition _PAGE_ENCLAVE : Z := _PAGE_PRESENT .| _PAGE_ACCESSED .| _PAGE_DIRTY.
Definition SATP_MODE_SV39 : Z := 8 ≪ 60.
Definition IE_S : Z := BIT_64 1 .| BIT_64 5 .| BIT_64 9.

(** sizeof(uint64_t) entries per page, for each of the three table types. *)
Definition PTRS_PER_PMD : Z := KOM_PAGE_SIZE / 8.
Definition PTRS_PER_PTE : Z := KOM_PAGE_SIZE / 8.

Record kom_pagedb_entry : Type := mkEntry { ptype : Z; addrspace_page : Z }.

(** The registers of csrs.h, in its order. *)
Definition kom_csrs : list csr :=
  [CSR_mepc; CSR_satp; CSR_stvec; CSR_scounteren; CSR_stval; CSR_sip; CSR_scause;
   CSR_sepc; CSR_sstatus; CSR_sscratch; CSR_sie].

(** struct host_state *)
Record host : Type := mkHost { h_regs : pt_regs; h_csr : csr -> Z }.

(** ** Structures overlaid on a secure page, as arrays of 64-bit words *)

(** struct kom_addrspace *)
Definition AS_l1pt_page : Z := 0.
Definition AS_refcount : Z := 1.
Definition AS_state : Z := 2.

(** struct kom_dispatcher *)
Definition DISP_entered : Z := 0.
Definition DISP_regs : Z := 1.
Definition DISP_csrs : Z := DISP_regs + NR_GPRS.

Definition all_gprs : list gpr :=
  [R_ra; R_sp; R_gp; R_tp; R_t0; R_t1; R_t2; R_s0; R_s1;
   R_a0; R_a1; R_a2; R_a3; R_a4; R_a5; R_a6; R_a7;
   R_s2; R_s3; R_s4; R_s5; R_s6; R_s7; R_s8; R_s9; R_s10; R_s11;
   R_t3; R_t4; R_t5; R_t6].

(** The index of a register in csrs.h; other registers have no field. *)
Definition csr_slot (c : csr) : Z :=
  match c with
  | CSR_mepc => 0 | CSR_satp => 1 | CSR_stvec => 2 | CSR_scounteren => 3 | CSR_stval => 4
  | CSR_sip => 5 | CSR_scause => 6 | CSR_sepc => 7 | CSR_sstatus => 8 | CSR_sscratch => 9
  | CSR_sie => 10 | _ => 11
  end.

Definition disp_regs (w : Z -> Z) : pt_regs := fun g => w (DISP_regs + gpr_slot g).
Definition disp_csr (w : Z -> Z) : csr -> Z := fun c => w (DISP_csrs + csr_slot c).

(** Storing a group of consecutive fields. *)
Definition put_fields {A} (base : Z) (l : list A) (v : A -> Z) (w : Z -> Z) : Z -> Z := fun i =>
  if base <=? i then from_option v (w i) (l !! Z.to_nat (i - base)) else w i.

Definition put_disp_regs (r : pt_regs) (w : Z -> Z) : Z -> Z := put_fields DISP_regs all_gprs r w.
Definition put_disp_csr (c : csr -> Z) (w : Z -> Z) : Z -> Z := put_fields DISP_csrs kom_csrs c w.

(** The globals of monitor.c, the payload's memory and the machine. *)
Record kom `{Console} : Type := mkKom {
  g_pagedb : Z -> kom_pagedb_entry;
  secure_pages : Z -> Z -> Z;
  insecure_pages : Z -> Z -> Z;
  host_state : host;
  enclave_mode : bool;
  g_cur_dispatcher_pageno : Z;
  kmach : machine
}.
Arguments mkKom {_}.
Arguments g_pagedb {_}.
Arguments secure_pages {_}.
Arguments insecure_pages {_}.
Arguments host_state {_}.
Arguments enclave_mode {_}.
Arguments g_cur_dispatcher_pageno {_}.
Arguments kmach {_}.

(** The addresses the linker assigns. *)
Class Layout := {
  secure_base : Z;
  payload_start : Z;
  secure_aligned : secure_base mod KOM_PAGE_SIZE = 0;
  payload_aligned : payload_start mod KOM_PAGE_SIZE = 0;
  secure_range : 0 <= secure_base /\ secure_base + KOM_SECURE_RESERVE <= payload_start;
  payload_range : payload_start + KOM_INSECURE_RESERVE < 2 ^ 56
}.

(** ** include/asm/pgtable.h, include/sys/pfn.h *)

Definition PFN_DOWN (x : Z) : Z := x ≫ PAGE_SHIFT.
Definition pfn_pgd (pfn prot : Z) : Z := u64 (pfn ≪ _PAGE_PFN_SHIFT) .| prot.
Definition pfn_pmd (pfn prot : Z) : Z := u64 (pfn ≪ _PAGE_PFN_SHIFT) .| prot.
Definition pfn_pte (pfn prot : Z) : Z := u64 (pfn ≪ _PAGE_PFN_SHIFT) .| prot.

Section model.
Context `{Console}.

#[export] Program Instance kom_machine : HasMachine kom := {|
  get_mach := kmach;
  set_mach m s := mkKom (g_pagedb s) (secure_pages s) (insecure_pages s) (host_state s)
                    (enclave_mode s) (g_cur_dispatcher_pageno s) m
|}.
Next Obligation. reflexivity. Qed.
Next Obligation. reflexivity. Qed.
Next Obligation. by intros []. Qed.

(** * Field updates *)

Definition set_g_pagedb (f : (Z -> kom_pagedb_entry) -> Z -> kom_pagedb_entry) : M kom unit :=
  modify (fun s => mkKom (f (g_pagedb s)) (secure_pages s) (insecure_pages s) (host_state s)
                     (enclave_mode s) (g_cur_dispatcher_pageno s) (kmach s)).
Definition set_secure_pages (f : (Z -> Z -> Z) -> Z -> Z -> Z) : M kom unit :=
  modify (fun s => mkKom (g_pagedb s) (f (secure_pages s)) (insecure_pages s) (host_state s)
                     (enclave_mode s) (g_cur_dispatcher_pageno s) (kmach s)).
Definition set_host_state (f : host -> host) : M kom unit :=
  modify (fun s => mkKom (g_pagedb s) (secure_pages s) (insecure_pages s) (f (host_state s))
                     (enclave_mode s) (g_cur_dispatcher_pageno s) (kmach s)).
Definition set_enclave_mode (b : bool) : M kom unit :=
  modify (fun s => mkKom (g_pagedb s) (secure_pages s) (insecure_pages s) (host_state s)
                     b (g_cur_dispatcher_pageno s) (kmach s)).
Definition set_g_cur_dispatcher_pageno (p : Z) : M kom unit :=
  modify (fun s => mkKom (g_pagedb s) (secure_pages s) (insecure_pages s) (host_state s)
                     (enclave_mode s) p (kmach s)).

Definition page_is_valid (pageno : Z) : bool := pageno <? KOM_SECURE_NPAGES.

(** g_pagedb[p]; an index outside the array is undefined. *)
Definition in_db (p : Z) : bool := (0 <=? p) && (p <? KOM_SECURE_NPAGES).
Definition get_entry (p : Z) : M kom kom_pagedb_entry := defined (in_db p);; gets (fun s => g_pagedb s p).
Definition set_type (p v : Z) : M kom unit :=
  defined (in_db p);; set_g_pagedb (fun t => <[p := mkEntry v (addrspace_page (t p))]> t).
Definition set_addrspace_page (p v : Z) : M kom unit :=
  defined (in_db p);; set_g_pagedb (fun t => <[p := mkEntry (ptype (t p)) v]> t).

(** The word [i] of secure page [p]. *)
Definition in_page (p i : Z) : bool := in_db p && (0 <=? i) && (i <? KOM_PAGE_SIZE / 8).
Definition get_word (p i : Z) : M kom Z := defined (in_page p i);; gets (fun s => secure_pages s p i).
Definition set_word (p i v : Z) : M kom unit :=
  defined (in_page p i);; set_secure_pages (fun m => <[p := <[i := u64 v]> (m p)]> m).
Definition upd_page (p : Z) (f : (Z -> Z) -> Z -> Z) : M kom unit :=
  defined (in_db p);; set_secure_pages (fun m => <[p := f (m p)]> m).

(** * monitor.c *)

Definition init_monitor : M kom unit :=
  set_enclave_mode false;;
  set_g_cur_dispatcher_pageno 0;;
  set_g_pagedb (fun t p => if in_db p then mkEntry 0 0 else t p);;
  set_secure_pages (fun m p => if in_db p then fun _ => 0 else m p);;
  set_host_state (fun _ => mkHost zero_regs (fun _ => 0)).

Definition page_is_typed (pageno type : Z) : M kom bool :=
  if page_is_valid pageno then e ← get_entry pageno; mret (ptype e =? type) else mret false.

Definition page_is_free (pageno : Z) : M kom bool := page_is_typed pageno KOM_PAGE_FREE.

(** A pointer to a secure page is its index. *)
Definition page_monvaddr (pageno : Z) : M kom Z :=
  BUG_ON (negb (page_is_valid pageno));; mret pageno.

Context `{Layout}.

Definition page_paddr (pageno : Z) : M kom Z :=
  p ← page_monvaddr pageno; mret (secure_base + p * KOM_PAGE_SIZE).

Definition insecure_page_paddr (pageno : Z) : Z := payload_start + pageno * KOM_PAGE_SIZE.

Definition enclave_prot (mapping : Z) : Z := (mapping .& KOM_MAPPING_RWX) .| _PAGE_ENCLAVE.

Definition enter_secure_world (dispatcher_pageno : Z) : M kom unit :=
  dispatcher ← page_monvaddr dispatcher_pageno;
  regs ← get_frame;
  set_host_state (fun h => mkHost (copy_pt_regs (h_regs h) regs) (h_csr h));;
  h ← gets host_state;
  c ← csrs_read kom_csrs (h_csr h);
  set_host_state (fun h => mkHost (h_regs h) c);;
  w ← gets (fun s => secure_pages s dispatcher);
  csrs_write kom_csrs (disp_csr w);;
  pmpcfg_write 5 (PMPCFG_A_TOR .| PMPCFG_R .| PMPCFG_W .| PMPCFG_X);;
  csr_set CSR_mstatus SR_TVM;;
  csr_write CSR_mideleg 0;;
  csr_write CSR_medeleg 0;;
  set_enclave_mode true;;
  set_g_cur_dispatcher_pageno dispatcher_pageno.

Definition leave_secure_world (entered : bool) : M kom unit :=
  cur ← gets g_cur_dispatcher_pageno;
  dispatcher ← page_monvaddr cur;
  set_word dispatcher DISP_entered (Z.b2z entered);;
  regs ← get_frame;
  upd_page dispatcher (fun w => put_disp_regs (copy_pt_regs (disp_regs w) regs) w);;
  w ← gets (fun s => secure_pages s dispatcher);
  c ← csrs_read kom_csrs (disp_csr w);
  upd_page dispatcher (put_disp_csr c);;
  h ← gets host_state;
  csrs_write kom_csrs (h_csr h);;
  pmpcfg_write 5 PMPCFG_A_TOR;;
  csr_clear CSR_mstatus SR_TVM;;
  csr_write CSR_mideleg IDEL_S;;
  csr_write CSR_medeleg EDEL_MOST;;
  set_enclave_mode false;;
  set_g_cur_dispatcher_pageno 0.

(** memset(page_monvaddr(page), 0, KOM_PAGE_SIZE) *)
Definition clear_page (page : Z) : M kom unit :=
  p ← page_monvaddr page; upd_page p (fun _ _ => 0).

Definition allocate_page (page addrspace type : Z) : M kom Z :=
  if negb (page_is_valid page) then mret KOM_ERR_INVALID_PAGENO else
  free ← page_is_free page;
  if negb free then mret KOM_ERR_PAGEINUSE else
  as_ ← page_monvaddr addrspace;
  st ← get_word as_ AS_state;
  if negb (st =? KOM_ADDRSPACE_INIT) then mret KOM_ERR_ALREADY_FINAL else
  clear_page page;;
  set_type page type;;
  set_addrspace_page page addrspace;;
  n ← get_word as_ AS_refcount;
  set_word as_ AS_refcount (n + 1);;
  mret KOM_ERR_SUCCESS.

Definition kom_smc_query : M kom Z := mret KOM_MAGIC.
Definition kom_smc_get_phys_pages : M kom Z := mret KOM_SECURE_NPAGES.

Definition kom_smc_init_addrspace (addrspace l1pt : Z) : M kom Z :=
  if (addrspace =? l1pt) || negb (page_is_valid addrspace && page_is_valid l1pt)
  then mret KOM_ERR_INVALID_PAGENO else
  free_as ← page_is_free addrspace;
  free_l1 ← page_is_free l1pt;
  if negb (free_as && free_l1) then mret KOM_ERR_PAGEINUSE else
  as_ ← page_monvaddr addrspace;
  upd_page as_ (fun _ _ => 0);;
  clear_page l1pt;;
  set_type addrspace KOM_PAGE_ADDRSPACE;;
  set_addrspace_page addrspace addrspace;;
  set_type l1pt KOM_PAGE_L1PTABLE;;
  set_addrspace_page l1pt addrspace;;
  set_word as_ AS_l1pt_page l1pt;;
  set_word as_ AS_refcount 2;;
  set_word as_ AS_state KOM_ADDRSPACE_INIT;;
  mret KOM_ERR_SUCCESS.

Definition kom_smc_init_dispatcher (page addrspace entrypoint : Z) : M kom Z :=
  typed ← page_is_typed addrspace KOM_PAGE_ADDRSPACE;
  if negb typed then mret KOM_ERR_INVALID_ADDRSPACE else
  err ← allocate_page page addrspace KOM_PAGE_DISPATCHER;
  if negb (err =? KOM_ERR_SUCCESS) then mret err else
  as_ ← page_monvaddr addrspace;
  disp ← page_monvaddr page;
  set_word disp (DISP_csrs + csr_slot CSR_mepc) entrypoint;;
  l1pt ← get_word as_ AS_l1pt_page;
  pa ← page_paddr l1pt;
  set_word disp (DISP_csrs + csr_slot CSR_satp) (SATP_MODE_SV39 .| PFN_DOWN pa);;
  set_word disp (DISP_csrs + csr_slot CSR_sie) IE_S;;
  mret KOM_ERR_SUCCESS.

Definition kom_smc_init_l2ptable (page l1pt_page l1_index : Z) : M kom Z :=
  if PTRS_PER_PMD <=? l1_index then mret KOM_ERR_INVALID_MAPPING else
  typed ← page_is_typed l1pt_page KOM_PAGE_L1PTABLE;
  if negb typed then mret KOM_ERR_INVALID_PAGENO else
  l1pt ← page_monvaddr l1pt_page;
  pgd ← get_word l1pt l1_index;
  if negb (pgd =? 0) then mret KOM_ERR_ADDRINUSE else
  e ← get_entry l1pt_page;
  err ← allocate_page page (addrspace_page e) KOM_PAGE_L2PTABLE;
  if negb (err =? KOM_ERR_SUCCESS) then mret err else
  pa ← page_paddr page;
  set_word l1pt l1_index (pfn_pgd (PFN_DOWN pa) _PAGE_TABLE);;
  mret KOM_ERR_SUCCESS.

Definition kom_smc_init_l3ptable (page l2pt_page l2_index : Z) : M kom Z :=
  if PTRS_PER_PMD <=? l2_index then mret KOM_ERR_INVALID_MAPPING else
  typed ← page_is_typed l2pt_page KOM_PAGE_L2PTABLE;
  if negb typed then mret KOM_ERR_INVALID_PAGENO else
  l2pt ← page_monvaddr l2pt_page;
  pmd ← get_word l2pt l2_index;
  if negb (pmd =? 0) then mret KOM_ERR_ADDRINUSE else
  e ← get_entry l2pt_page;
  err ← allocate_page page (addrspace_page e) KOM_PAGE_L3PTABLE;
  if negb (err =? KOM_ERR_SUCCESS) then mret err else
  pa ← page_paddr page;
  set_word l2pt l2_index (pfn_pmd (PFN_DOWN pa) _PAGE_TABLE);;
  mret KOM_ERR_SUCCESS.

Definition insecure_page_is_valid (pageno : Z) : bool := pageno <? KOM_INSECURE_NPAGES.

(** memcpy(page_monvaddr(page), insecure_page_monvaddr(content), SZ_4K) *)
Definition copy_insecure (page content : Z) : M kom unit :=
  defined ((0 <=? content) && (content <? KOM_INSECURE_NPAGES));;
  src ← gets (fun s => insecure_pages s content);
  dst ← page_monvaddr page;
  upd_page dst (fun _ => src).

Definition kom_smc_map_secure (page l3pt_page l3_index mapping content : Z) : M kom Z :=
  if PTRS_PER_PTE <=? l3_index then mret KOM_ERR_INVALID_MAPPING else
  if negb (insecure_page_is_valid content) then mret KOM_ERR_INVALID_PAGENO else
  typed ← page_is_typed l3pt_page KOM_PAGE_L3PTABLE;
  if negb typed then mret KOM_ERR_INVALID_PAGENO else
  l3pt ← page_monvaddr l3pt_page;
  pte ← get_word l3pt l3_index;
  if negb (pte =? 0) then mret KOM_ERR_ADDRINUSE else
  e ← get_entry l3pt_page;
  err ← allocate_page page (addrspace_page e) KOM_PAGE_DATA;
  if negb (err =? KOM_ERR_SUCCESS) then mret err else
  pa ← page_paddr page;
  set_word l3pt l3_index (pfn_pte (PFN_DOWN pa) (enclave_prot mapping));;
  copy_insecure page content;;
  mret KOM_ERR_SUCCESS.

Definition kom_smc_map_insecure (l3pt_page l3_index mapping insecure_pageno : Z) : M kom Z :=
  if negb (insecure_page_is_valid insecure_pageno) then mret KOM_ERR_INVALID_PAGENO else
  if PTRS_PER_PTE <=? l3_index then mret KOM_ERR_INVALID_MAPPING else
  typed ← page_is_typed l3pt_page KOM_PAGE_L3PTABLE;
  if negb typed then mret KOM_ERR_INVALID_PAGENO else
  l3pt ← page_monvaddr l3pt_page;
  pte ← get_word l3pt l3_index;
  if negb (pte =? 0) then mret KOM_ERR_ADDRINUSE else
  e ← get_entry l3pt_page;
  as_ ← page_monvaddr (addrspace_page e);
  st ← get_word as_ AS_state;
  if negb (st =? KOM_ADDRSPACE_INIT) then mret KOM_ERR_ALREADY_FINAL else
  set_word l3pt l3_index (pfn_pte (PFN_DOWN (insecure_page_paddr insecure_pageno)) (enclave_prot mapping));;
  mret KOM_ERR_SUCCESS.

(** The common end of kom_smc_remove: drop the reference and free the page. *)
Definition release_page (pageno as_ : Z) : M kom Z :=
  n ← get_word as_ AS_refcount;
  set_word as_ AS_refcount (n - 1);;
  set_type pageno KOM_PAGE_FREE;;
  set_addrspace_page pageno (2 ^ 64 - 1);;
  mret KOM_ERR_SUCCESS.

Definition kom_smc_remove (pageno : Z) : M kom Z :=
  if negb (page_is_valid pageno) then mret KOM_ERR_INVALID_PAGENO else
  e ← get_entry pageno;
  if ptype e =? KOM_PAGE_FREE then mret KOM_ERR_SUCCESS else
  if ptype e =? KOM_PAGE_ADDRSPACE then
    as_ ← page_monvaddr pageno;
    n ← get_word as_ AS_refcount;
    if negb (n =? 1) then mret KOM_ERR_PAGEINUSE else
    st ← get_word as_ AS_state;
    if negb (st =? KOM_ADDRSPACE_STOPPED) then mret KOM_ERR_NOT_STOPPED else
    release_page pageno as_
  else
    as_ ← page_monvaddr (addrspace_page e);
    st ← get_word as_ AS_state;
    if negb (st =? KOM_ADDRSPACE_STOPPED) then mret KOM_ERR_NOT_STOPPED else
    release_page pageno as_.

Definition kom_smc_finalise (addrspace : Z) : M kom Z :=
  typed ← page_is_typed addrspace KOM_PAGE_ADDRSPACE;
  if negb typed then mret KOM_ERR_INVALID_ADDRSPACE else
  as_ ← page_monvaddr addrspace;
  st ← get_word as_ AS_state;
  if negb (st =? KOM_ADDRSPACE_INIT) then mret KOM_ERR_ALREADY_FINAL else
  set_word as_ AS_state KOM_ADDRSPACE_FINAL;;
  mret KOM_ERR_SUCCESS.

Definition kom_smc_stop (addrspace : Z) : M kom Z :=
  typed ← page_is_typed addrspace KOM_PAGE_ADDRSPACE;
  if negb typed then mret KOM_ERR_INVALID_ADDRSPACE else
  as_ ← page_monvaddr addrspace;
  set_word as_ AS_state KOM_ADDRSPACE_STOPPED;;
  mret KOM_ERR_SUCCESS.

Definition kom_smc_enter (disp_page arg1 arg2 arg3 : Z) : M kom Z :=
  typed ← page_is_typed disp_page KOM_PAGE_DISPATCHER;
  if negb typed then mret KOM_ERR_INVALID_PAGENO else
  dispatcher ← page_monvaddr disp_page;
  e ← get_entry disp_page;
  as_ ← page_monvaddr (addrspace_page e);
  st ← get_word as_ AS_state;
  if negb (st =? KOM_ADDRSPACE_FINAL) then mret KOM_ERR_NOT_FINAL else
  entered ← get_word dispatcher DISP_entered;
  if negb (entered =? 0) then mret KOM_ERR_ALREADY_ENTERED else
  set_word dispatcher (DISP_regs + gpr_slot R_a0) arg1;;
  set_word dispatcher (DISP_regs + gpr_slot R_a1) arg2;;
  set_word dispatcher (DISP_regs + gpr_slot R_a2) arg3;;
  enter_secure_world disp_page;;
  w ← gets (fun s => secure_pages s dispatcher);
  mret_with_regs (disp_regs w).

Definition kom_smc_resume (disp_page : Z) : M kom Z :=
  typed ← page_is_typed disp_page KOM_PAGE_DISPATCHER;
  if negb typed then mret KOM_ERR_INVALID_PAGENO else
  dispatcher ← page_monvaddr disp_page;
  e ← get_entry disp_page;
  as_ ← page_monvaddr (addrspace_page e);
  st ← get_word as_ AS_state;
  if negb (st =? KOM_ADDRSPACE_FINAL) then mret KOM_ERR_NOT_FINAL else
  entered ← get_word dispatcher DISP_entered;
  if entered =? 0 then mret KOM_ERR_NOT_ENTERED else
  enter_secure_world disp_page;;
  w ← gets (fun s => secure_pages s dispatcher);
  mret_with_regs (disp_regs w).

(** Two fields of the host's saved registers: the answer it gets. *)
Definition answer_host (a0 a1 : Z) : M kom unit :=
  set_host_state (fun h => mkHost (<[R_a1 := u64 a1]> (<[R_a0 := u64 a0]> (h_regs h))) (h_csr h)).

Definition kom_svc_exit (exitvalue : Z) : M kom Z :=
  answer_host KOM_ERR_SUCCESS exitvalue;;
  leave_secure_world false;;
  h ← gets host_state;
  mret_with_regs (h_regs h).

Definition kom_handle_trap (cause : Z) : M kom Z :=
  answer_host (if cause <? 0 then KOM_ERR_INTERRUPTED else KOM_ERR_FAULT) cause;;
  leave_secure_world true;;
  h ← gets host_state;
  mret_with_regs (h_regs h).

(** * traps.c *)

(** include/uapi/komodo/smccalls.h, svccalls.h *)
Definition KOM_SMC_QUERY : Z := 10.
Definition KOM_SMC_GETPHYSPAGES : Z := 11.
Definition KOM_SMC_INIT_ADDRSPACE : Z := 12.
Definition KOM_SMC_INIT_DISPATCHER : Z := 13.
Definition KOM_SMC_INIT_L2PTABLE : Z := 14.
Definition KOM_SMC_INIT_L3PTABLE : Z := 15.
Definition KOM_SMC_MAP_SECURE : Z := 16.
Definition KOM_SMC_MAP_INSECURE : Z := 17.
Definition KOM_SMC_REMOVE : Z := 20.
Definition KOM_SMC_FINALISE : Z := 21.
Definition KOM_SMC_ENTER : Z := 22.
Definition KOM_SMC_RESUME : Z := 23.
Definition KOM_SMC_STOP : Z := 29.
Definition KOM_SVC_EXIT : Z := 30.

Definition smc_call (regs : pt_regs) : M kom Z :=
  let nr := s64 (regs R_a7) in
  let a0 := regs R_a0 in
  let a1 := regs R_a1 in
  let a2 := regs R_a2 in
  let a3 := regs R_a3 in
  let a4 := regs R_a4 in
  if is_sbi nr then do_mcall regs
  else if nr =? KOM_SMC_QUERY then kom_smc_query
  else if nr =? KOM_SMC_GETPHYSPAGES then kom_smc_get_phys_pages
  else if nr =? KOM_SMC_INIT_ADDRSPACE then kom_smc_init_addrspace a0 a1
  else if nr =? KOM_SMC_INIT_DISPATCHER then kom_smc_init_dispatcher a0 a1 a2
  else if nr =? KOM_SMC_INIT_L2PTABLE then kom_smc_init_l2ptable a0 a1 a2
  else if nr =? KOM_SMC_INIT_L3PTABLE then kom_smc_init_l3ptable a0 a1 a2
  else if nr =? KOM_SMC_MAP_SECURE then kom_smc_map_secure a0 a1 a2 a3 a4
  else if nr =? KOM_SMC_MAP_INSECURE then kom_smc_map_insecure a0 a1 a2 a3
  else if nr =? KOM_SMC_REMOVE then kom_smc_remove a0
  else if nr =? KOM_SMC_FINALISE then kom_smc_finalise a0
  else if nr =? KOM_SMC_ENTER then kom_smc_enter a0 a1 a2 a3
  else if nr =? KOM_SMC_RESUME then kom_smc_resume a0
  else if nr =? KOM_SMC_STOP then kom_smc_stop a0
  else mret (- ENOSYS).

Definition do_smc_calls (regs : pt_regs) : M kom unit :=
  pc ← csr_read CSR_mepc;
  csr_write CSR_mepc (pc + 4);;
  r ← smc_call regs;
  set_frame R_a0 r.

Definition do_svc_calls (regs : pt_regs) : M kom unit :=
  pc ← csr_read CSR_mepc;
  csr_write CSR_mepc (pc + 4);;
  r ← (if s64 (regs R_a7) =? KOM_SVC_EXIT then kom_svc_exit (s64 (regs R_a0)) else mret (- ENOSYS));
  set_frame R_a0 r.

(** die() prints the registers and stops. *)
Definition do_trap_ecall_s (regs : pt_regs) : M kom unit :=
  mstatus ← csr_read CSR_mstatus;
  BUG_ON (mstatus .& SR_MPP =? SR_MPP_M);;
  BUG_ON (mstatus .& SR_MPP =? SR_MPP_U);;
  mode ← gets enclave_mode;
  if (mode : bool) then do_svc_calls regs else do_smc_calls regs.

Definition do_trap (regs : pt_regs) (cause : Z) : M kom unit :=
  if cause =? EXC_ECALL_S then do_trap_ecall_s regs
  else
    mode ← gets enclave_mode;
    if (mode : bool) then _ ← kom_handle_trap (s64 cause); mret tt else mret tt.

(** The trap vector: do_trap with the frame it just saved. *)
Definition trap (cause : Z) : M kom unit := regs ← get_frame; do_trap regs cause.

(** * main.c *)

Definition pmp_init : M kom unit :=
  let rwx := PMPCFG_R .| PMPCFG_W .| PMPCFG_X in
  let pa_insecure_start := payload_start in
  let pa_insecure_end := pa_insecure_start + KOM_INSECURE_RESERVE in
  let pa_secure_start := secure_base in
  let pa_secure_end := pa_secure_start + KOM_SECURE_RESERVE in
  pmpaddr_write CSR_pmpaddr2 pa_insecure_start;;
  pmpaddr_write CSR_pmpaddr3 pa_insecure_end;;
  pmpcfg_write 2 PMPCFG_A_OFF;;
  pmpcfg_write 3 (PMPCFG_A_TOR .| rwx);;
  pmpaddr_write CSR_pmpaddr4 pa_secure_start;;
  pmpaddr_write CSR_pmpaddr5 pa_secure_end;;
  pmpcfg_write 4 PMPCFG_A_OFF;;
  pmpcfg_write 5 PMPCFG_A_TOR.

Definition supervisor_init (hartid dtb : Z) : M kom unit :=
  pmp_init;;
  csr_write CSR_mstatus SR_MPP_S;;
  csr_write CSR_mcounteren (2 ^ 32 - 1);;
  csr_write CSR_medeleg EDEL_MOST;;
  csr_write CSR_mideleg IDEL_S;;
  csr_write CSR_mepc payload_start;;
  mret_with_regs (<[R_a1 := dtb]> (<[R_a0 := hartid]> zero_regs)).

(** main, after mcall_init; [kernel_dtb] is the device tree it found. *)
Definition main (hartid kernel_dtb : Z) : M kom unit :=
  init_monitor;;
  supervisor_init hartid kernel_dtb.
End model.
