(* ===== verification/KomodoDb.v ===== *)
(** Komodo: the invariant of the page database and the secure pages, and its
    preservation by the elementary updates the calls are made of. *)

From S2P Require Import Prelude.
From S2P Require Import Console.
From S2P Require Import Machine.
From S2P Require Import Mcall.
From S2P Require Import Komodo.

Abbreviation db := (Z -> kom_pagedb_entry).
Abbreviation pages := (Z -> Z -> Z).

Definition valid (p : Z) : Prop := 0 <= p < KOM_SECURE_NPAGES.
Definition is_index (i : Z) : Prop := 0 <= i < KOM_PAGE_SIZE / 8.
Definition typ (t : db) (p : Z) : Z := ptype (t p).
Definition own (t : db) (p : Z) : Z := addrspace_page (t p).

(** Arithmetic with the sizes of pages and reserves. *)
Ltac komlia := unfold valid, is_index in *; change KOM_SECURE_NPAGES with 1024 in *;
  change KOM_INSECURE_NPAGES with 256 in *; change (KOM_PAGE_SIZE / 8) with 512 in *;
  change KOM_SECURE_RESERVE with 4194304 in *; change KOM_INSECURE_RESERVE with 1048576 in *;
  change KOM_PAGE_SIZE with 4096 in *; lia.

(** The non-free pages that belong to address space [a]. *)
Definition refers (t : db) (a p : Z) : bool := negb (typ t p =? KOM_PAGE_FREE) && (own t p =? a).
Definition all_pages : list Z := seqZ 0 KOM_SECURE_NPAGES.
Definition refs (t : db) (a : Z) : Z := countb (refers t a) all_pages.

Lemma elem_all_pages p : p ∈ all_pages <-> valid p.
Proof. unfold all_pages, valid. rewrite elem_of_seqZ. lia. Qed.

Lemma NoDup_all_pages : NoDup all_pages.
Proof. apply NoDup_seqZ. Qed.

Lemma refers_true t a p : refers t a p = true <-> typ t p <> KOM_PAGE_FREE /\ own t p = a.
Proof. unfold refers. by rewrite andb_true_iff, negb_true_iff, Z.eqb_neq, Z.eqb_eq. Qed.

Lemma refers_false t a p : typ t p = KOM_PAGE_FREE \/ own t p <> a -> refers t a p = false.
Proof. unfold refers. rewrite andb_false_iff, negb_false_iff, Z.eqb_neq, Z.eqb_eq. done. Qed.

Lemma refs_range t a : 0 <= refs t a <= KOM_SECURE_NPAGES.
Proof.
  unfold refs. pose proof (countb_range (refers t a) all_pages) as R.
  unfold all_pages in R. rewrite length_seqZ in R. exact R.
Qed.

(** Changing one entry of the database. *)
Lemma refs_upd t p e a : valid p ->
  refs (<[p := e]> t) a = refs t a - Z.b2z (refers t a p) + Z.b2z (refers (<[p := e]> t) a p).
Proof.
  intros Hp. apply countb_upd; [apply NoDup_all_pages|by apply elem_all_pages|].
  intros q _ Hq. unfold refers, typ, own. by rewrite fn_lookup_insert_ne.
Qed.

Section db.
Context `{Layout}.
Implicit Types (t : db) (m : pages) (w : Z -> Z).

Definition page_pa (p : Z) : Z := secure_base + p * KOM_PAGE_SIZE.

(** An entry of an upper-level table: empty, or a table of the next level. *)
Definition table_entry t (a ty x : Z) : Prop :=
  x = 0 \/ exists q, valid q /\ typ t q = ty /\ own t q = a /\ x = pfn_pgd (PFN_DOWN (page_pa q)) _PAGE_TABLE.

(** An entry of a last-level table: empty, a data page of the same address space,
    or a page of the payload. *)
Definition leaf_entry t (a x : Z) : Prop :=
  x = 0 \/
  (exists q f, valid q /\ typ t q = KOM_PAGE_DATA /\ own t q = a /\ x = pfn_pte (PFN_DOWN (page_pa q)) (enclave_prot f)) \/
  (exists n f, 0 <= n < KOM_INSECURE_NPAGES /\ x = pfn_pte (PFN_DOWN (insecure_page_paddr n)) (enclave_prot f)).

Definition disp_satp (l : Z) : Z := SATP_MODE_SV39 .| PFN_DOWN (page_pa l).

(** The words [w] of a page of type [ty] in address space [a], whose root table is
    [l]. *)
Definition content t (a l ty : Z) w : Prop :=
  (ty = KOM_PAGE_L1PTABLE -> forall i, is_index i -> table_entry t a KOM_PAGE_L2PTABLE (w i)) /\
  (ty = KOM_PAGE_L2PTABLE -> forall i, is_index i -> table_entry t a KOM_PAGE_L3PTABLE (w i)) /\
  (ty = KOM_PAGE_L3PTABLE -> forall i, is_index i -> leaf_entry t a (w i)) /\
  (ty = KOM_PAGE_DISPATCHER -> disp_csr w CSR_satp = disp_satp l).

Definition words w : Prop := forall i, is_index i -> uint 64 (w i).

Record dbinv t m : Prop := mkDbinv {
  db_types p : valid p -> KOM_PAGE_FREE <= typ t p <= KOM_PAGE_DATA;
  db_owner p : valid p -> typ t p <> KOM_PAGE_FREE -> valid (own t p) /\ typ t (own t p) = KOM_PAGE_ADDRSPACE;
  db_self p : valid p -> typ t p = KOM_PAGE_ADDRSPACE -> own t p = p;
  db_refs a : valid a -> typ t a = KOM_PAGE_ADDRSPACE -> m a AS_refcount = refs t a;
  db_l1 a : valid a -> typ t a = KOM_PAGE_ADDRSPACE -> m a AS_state <> KOM_ADDRSPACE_STOPPED ->
    let l := m a AS_l1pt_page in valid l /\ typ t l = KOM_PAGE_L1PTABLE /\ own t l = a;
  db_content p : valid p -> typ t p <> KOM_PAGE_FREE ->
    m (own t p) AS_state <> KOM_ADDRSPACE_STOPPED ->
    content t (own t p) (m (own t p) AS_l1pt_page) (typ t p) (m p);
  db_words p : valid p -> words (m p)
}.

(** What the contents of a page depend on: the pages of its address space. *)
Lemma content_mono t t' a l ty w : content t a l ty w ->
  (forall q, valid q -> typ t q <> KOM_PAGE_FREE -> own t q = a -> t' q = t q) ->
  content t' a l ty w.
Proof.
  intros (H1 & H2 & H3 & H4) E.
  assert (forall ty x, ty <> KOM_PAGE_FREE -> table_entry t a ty x -> table_entry t' a ty x) as Ht.
  { intros ty' x Hn [->|(q & Hq & Ht & Ho & ->)]; [by left|right]. exists q. unfold typ, own in *.
    rewrite E; [done..|congruence|done]. }
  split_and!; intros Ety; [by auto..| |by auto].
  intros i Hi. destruct (H3 Ety i Hi) as [->|[(q & f & Hq & Hty & Ho & ->)|(n & f & Hn & ->)]];
    [by left|right; left|right; right; by exists n, f].
  exists q, f. unfold typ, own in *. rewrite E; [done..|by rewrite Hty|done].
Qed.

Lemma own_not_self t m p : dbinv t m -> valid p -> typ t p <> KOM_PAGE_FREE ->
  typ t p <> KOM_PAGE_ADDRSPACE -> own t p <> p.
Proof. intros I Hp Hf Ha E. destruct (db_owner t m I p Hp Hf) as [_ Ht]. by rewrite E in Ht. Qed.

(** Writing a page that is not an address space. *)
Lemma db_set_page t m p w : dbinv t m -> valid p -> typ t p <> KOM_PAGE_ADDRSPACE -> words w ->
  (typ t p <> KOM_PAGE_FREE -> m (own t p) AS_state <> KOM_ADDRSPACE_STOPPED ->
     content t (own t p) (m (own t p) AS_l1pt_page) (typ t p) w) ->
  dbinv t (<[p := w]> m).
Proof.
  intros I Hp Hty Hw Hc.
  assert (forall a, typ t a = KOM_PAGE_ADDRSPACE -> <[p := w]> m a = m a) as Ea
    by (intros a Ha; apply fn_lookup_insert_ne; congruence).
  split.
  - apply (db_types t m I).
  - apply (db_owner t m I).
  - apply (db_self t m I).
  - intros a Ha Ht. rewrite Ea by done. by apply (db_refs t m I).
  - intros a Ha Ht. rewrite Ea by done. by apply (db_l1 t m I).
  - intros q Hq Hf. rewrite Ea by (by apply (db_owner t m I)). rewrite fn_insert_spec.
    case_decide as E; [subst q; by apply Hc|by apply (db_content t m I)].
  - intros q Hq. rewrite fn_insert_spec. case_decide; [done|by apply (db_words t m I)].
Qed.

Lemma words_insert w i x : words w -> uint 64 x -> words (<[i := x]> w).
Proof. intros Hw Hx j Hj. rewrite fn_insert_spec. case_decide; [done|by apply Hw]. Qed.

(** Changing the state of an address space; a stopped one stays stopped. *)
Lemma db_set_state t m a v : dbinv t m -> valid a -> typ t a = KOM_PAGE_ADDRSPACE -> uint 64 v ->
  m a AS_state <> KOM_ADDRSPACE_STOPPED \/ v = KOM_ADDRSPACE_STOPPED ->
  dbinv t (<[a := <[AS_state := v]> (m a)]> m).
Proof.
  intros I Ha Hty Hv Hst. set (m' := <[a := _]> m).
  assert (forall b i, i <> AS_state -> m' b i = m b i) as Ei.
  { intros b i Hi. unfold m'. rewrite fn_insert_spec. case_decide; [subst; by fn_simpl|done]. }
  assert (forall b, m' b AS_state <> KOM_ADDRSPACE_STOPPED -> m b AS_state <> KOM_ADDRSPACE_STOPPED) as Es.
  { intros b. unfold m'. rewrite fn_insert_spec. case_decide; [subst b; fn_simpl|done]. naive_solver. }
  split.
  - apply (db_types t m I).
  - apply (db_owner t m I).
  - apply (db_self t m I).
  - intros b Hb Ht. rewrite Ei by done. by apply (db_refs t m I).
  - intros b Hb Ht Hs. rewrite Ei by done. apply (db_l1 t m I); auto.
  - intros q Hq Hf Hs. rewrite Ei by done. unfold m' at 1. rewrite fn_insert_spec. case_decide as E.
    + subst q. rewrite Hty. by split_and!.
    + apply (db_content t m I); auto.
  - intros q Hq. unfold m'. rewrite fn_insert_spec. case_decide; [|by apply (db_words t m I)].
    apply words_insert; [by apply (db_words t m I)|done].
Qed.

(** ** Allocation *)

Definition alloc_pages (page a : Z) w m : pages :=
  <[a := <[AS_refcount := u64 (m a AS_refcount + 1)]> (m a)]> (<[page := w]> m).

Lemma as_word_upd m b a i j x : i <> j -> (<[a := <[i := x]> (m a)]> m) b j = m b j.
Proof. intros Hi. rewrite fn_insert_spec. case_decide; [subst; by fn_simpl|done]. Qed.

Section alloc.
Variables (t : db) (m : pages) (page a ty : Z) (w : Z -> Z).
Hypothesis (I : dbinv t m) (Hpage : valid page) (Hfree : typ t page = KOM_PAGE_FREE).
Hypothesis (Ha : valid a) (Has : typ t a = KOM_PAGE_ADDRSPACE).
Hypothesis (Hty : KOM_PAGE_ADDRSPACE < ty <= KOM_PAGE_DATA) (Hw : words w).
Let t' : db := <[page := mkEntry ty a]> t.
Hypothesis Hc : content t' a (m a AS_l1pt_page) ty w.

Lemma alloc_other q : typ t q <> KOM_PAGE_FREE -> t' q = t q.
Proof. intros Hq. apply fn_lookup_insert_ne. congruence. Qed.

Lemma alloc_typ q : typ t q <> KOM_PAGE_FREE -> typ t' q = typ t q.
Proof. intros Hq. unfold typ. by rewrite alloc_other. Qed.

Lemma alloc_own q : typ t q <> KOM_PAGE_FREE -> own t' q = own t q.
Proof. intros Hq. unfold own. by rewrite alloc_other. Qed.

Lemma alloc_typ_as q : typ t' q = KOM_PAGE_ADDRSPACE -> typ t q = KOM_PAGE_ADDRSPACE.
Proof.
  unfold typ, t'. rewrite fn_insert_spec. case_decide; [|done]. cbn. unfold KOM_PAGE_ADDRSPACE in *. lia.
Qed.

Lemma alloc_as_word b j : typ t b <> KOM_PAGE_FREE -> j <> AS_refcount -> alloc_pages page a w m b j = m b j.
Proof.
  intros Hb Hj. unfold alloc_pages. rewrite fn_insert_spec. case_decide; [subst; by fn_simpl|].
  rewrite fn_lookup_insert_ne by congruence. done.
Qed.

Lemma db_alloc : dbinv t' (alloc_pages page a w m).
Proof.
  assert (forall b, typ t b = KOM_PAGE_ADDRSPACE -> page <> b) as Hne by (intros b Hb ->; by rewrite Hb in Hfree).
  pose proof (Hne a Has) as Hpa.
  split.
  - intros p Hp. unfold typ, t'. rewrite fn_insert_spec. case_decide; [cbn; unfold KOM_PAGE_FREE, KOM_PAGE_ADDRSPACE in *; lia|].
    by apply (db_types t m I).
  - intros p Hp Hf. assert (own t' p = a \/ typ t p <> KOM_PAGE_FREE /\ own t' p = own t p) as [->|[Hf' ->]].
    { unfold typ, own, t' in *. rewrite fn_insert_spec in *. case_decide; auto. }
    + split; [done|]. by rewrite alloc_typ by (by rewrite Has).
    + destruct (db_owner t m I p Hp Hf') as [Hv Ht]. split; [done|]. by rewrite alloc_typ by (by rewrite Ht).
  - intros p Hp Ht%alloc_typ_as. rewrite alloc_own by (by rewrite Ht). by apply (db_self t m I).
  - intros b Hb Ht%alloc_typ_as. unfold t'. rewrite refs_upd by done.
    rewrite (refers_false t b page) by (by left). pose proof (refs_range t b) as R.
    rewrite <- (db_refs t m I b Hb Ht) in *. unfold alloc_pages.
    destruct (decide (b = a)) as [->|Hba]; fn_simpl.
    + rewrite (proj2 (refers_true _ a page)).
      * rewrite wrap_small; [cbn; lia|]. change KOM_SECURE_NPAGES with 1024 in R. lia.
      * unfold typ, own. fn_simpl. cbn. unfold KOM_PAGE_FREE, KOM_PAGE_ADDRSPACE in *. split; [lia|done].
    + rewrite refers_false; [rewrite fn_lookup_insert_ne by auto; cbn; lia|].
      right. unfold own. fn_simpl. cbn. congruence.
  - intros b Hb Ht%alloc_typ_as Hs.
    rewrite alloc_as_word in * by (done || by rewrite Ht). cbn zeta.
    destruct (db_l1 t m I b Hb Ht Hs) as (Hl & Hlt & Hlo). cbn zeta in Hlt.
    by rewrite alloc_typ, alloc_own by (by rewrite Hlt).
  - intros p Hp Hf Hs. unfold alloc_pages at 2. destruct (decide (p = page)) as [->|Hnp].
    + assert (own t' page = a) as -> by (unfold own, t'; by fn_simpl).
      rewrite alloc_as_word by (done || by rewrite Has). fn_simpl.
      assert (typ t' page = ty) as -> by (unfold typ, t'; by fn_simpl). exact Hc.
    + assert (typ t' p = typ t p /\ own t' p = own t p) as [Et Eo] by (unfold typ, own, t'; by fn_simpl).
      rewrite Et, Eo in *. destruct (db_owner t m I p Hp Hf) as [Hv Ht].
      rewrite alloc_as_word in * by (done || by rewrite Ht).
      pose proof (db_content t m I p Hp Hf Hs) as C.
      destruct (decide (p = a)) as [->|Hpa']; [rewrite Has; by split_and!|]. fn_simpl.
      apply (content_mono t); [done|]. intros q Hq Hqf _. by apply alloc_other.
  - intros p Hp. unfold alloc_pages. rewrite fn_insert_spec. case_decide.
    + apply words_insert; [by apply (db_words t m I)|by apply uint_wrap].
    + rewrite fn_insert_spec. case_decide; [done|by apply (db_words t m I)].
Qed.
End alloc.

(** ** Release *)

Section release.
Variables (t : db) (m : pages) (p : Z).
Hypothesis (I : dbinv t m) (Hp : valid p) (Hpf : typ t p <> KOM_PAGE_FREE).
Let a : Z := own t p.
Hypothesis (Hst : m a AS_state = KOM_ADDRSPACE_STOPPED).
Hypothesis (Hone : typ t p = KOM_PAGE_ADDRSPACE -> m p AS_refcount = 1).
Let t' : db := <[p := mkEntry KOM_PAGE_FREE (2 ^ 64 - 1)]> t.
Let m' : pages := <[a := <[AS_refcount := u64 (m a AS_refcount - 1)]> (m a)]> m.

Lemma release_other q : q <> p -> typ t' q = typ t q /\ own t' q = own t q.
Proof. intros. unfold typ, own, t'. by fn_simpl. Qed.

Lemma release_typ q : typ t' q <> KOM_PAGE_FREE ->
  q <> p /\ typ t' q = typ t q /\ own t' q = own t q /\ typ t q <> KOM_PAGE_FREE.
Proof.
  intros Hf. assert (q <> p) as Hne by (intros ->; apply Hf; unfold typ, t'; by fn_simpl).
  destruct (release_other q Hne) as [E Eo]. by rewrite E in *.
Qed.

(** No page is left without its address space. *)
Lemma release_owner q : valid q -> typ t q <> KOM_PAGE_FREE -> q <> p -> own t q <> p.
Proof.
  intros Hq Hf Hne E. destruct (db_owner t m I q Hq Hf) as [_ Ht]. rewrite E in Ht.
  apply Hne, (countb_unique (refers t p) q p all_pages NoDup_all_pages);
    [by apply elem_all_pages..|by apply refers_true|apply refers_true; split; [done|by apply (db_self t m I)]|].
  change (refs t p = 1). by rewrite <- (db_refs t m I p Hp Ht), Hone.
Qed.

Lemma db_release : dbinv t' m'.
Proof.
  destruct (db_owner t m I p Hp Hpf) as [Hva Hta]. fold a in Hva, Hta.
  assert (forall b i, i <> AS_refcount -> m' b i = m b i) as Ei
    by (intros b i Hi; unfold m'; by apply as_word_upd).
  split.
  - intros q Hq. unfold typ, t'. rewrite fn_insert_spec. case_decide; [done|]. by apply (db_types t m I).
  - intros q Hq (Hne & _ & -> & Hf)%release_typ. destruct (db_owner t m I q Hq Hf) as [Hv Ht]. split; [done|].
    by rewrite (proj1 (release_other (own t q) (release_owner q Hq Hf Hne))).
  - intros q Hq Ht. destruct (release_typ q) as (Hne & E & -> & _); [by rewrite Ht|]. rewrite E in Ht.
    by apply (db_self t m I).
  - intros b Hb Ht. destruct (release_typ b) as (Hne & E & _); [by rewrite Ht|]. rewrite E in Ht.
    unfold t'. rewrite refs_upd by done.
    rewrite (refers_false (<[p := _]> t) b p) by (left; unfold typ; by fn_simpl). cbn [Z.b2z].
    pose proof (refs_range t b) as R. change KOM_SECURE_NPAGES with 1024 in R.
    rewrite <- (db_refs t m I b Hb Ht) in *. unfold m'. destruct (decide (b = a)) as [->|Hba]; fn_simpl.
    + assert (refers t a p = true) as Er by (by apply refers_true). rewrite Er. cbn [Z.b2z].
      assert (1 <= refs t a) as L by (apply (countb_pos _ p); [by apply elem_all_pages|done]).
      rewrite <- (db_refs t m I a Hb Ht) in L. rewrite wrap_small by lia. lia.
    + rewrite refers_false by (right; fold a; congruence). cbn [Z.b2z]. lia.
  - intros b Hb Ht Hs. destruct (release_typ b) as (Hne & E & _); [by rewrite Ht|]. rewrite E in Ht.
    rewrite Ei in * by done. destruct (db_l1 t m I b Hb Ht Hs) as (Hl & Hlt & Hlo). cbn zeta in *.
    destruct (release_other (m b AS_l1pt_page)) as [-> ->]; [|done].
    intros El. rewrite El in Hlo. fold a in Hlo. by rewrite Hlo in Hst.
  - intros q Hq Hf Hs. destruct (release_typ q Hf) as (Hne & Et & Eo & Hf'). rewrite Et, Eo in *.
    rewrite !Ei in * by done. apply (content_mono t).
    + unfold m'. rewrite fn_insert_spec. case_decide as Eq; [|by apply (db_content t m I)].
      subst q. rewrite Hta. by split_and!.
    + intros r Hr Hrf Hro. unfold t'. apply fn_lookup_insert_ne. intros <-. fold a in Hro. by rewrite <- Hro in Hs.
  - intros q Hq. unfold m'. rewrite fn_insert_spec. case_decide; [|by apply (db_words t m I)].
    apply words_insert; [by apply (db_words t m I)|by apply uint_wrap].
Qed.
End release.

(** ** A new address space *)

Definition as_words (l : Z) : Z -> Z :=
  <[AS_state := KOM_ADDRSPACE_INIT]> (<[AS_refcount := 2]> (<[AS_l1pt_page := l]> (fun _ => 0))).

Section init.
Variables (t : db) (m : pages) (a l : Z).
Hypothesis (I : dbinv t m) (Ha : valid a) (Hl : valid l) (Hal : a <> l).
Hypothesis (Haf : typ t a = KOM_PAGE_FREE) (Hlf : typ t l = KOM_PAGE_FREE).
Let t' : db := <[l := mkEntry KOM_PAGE_L1PTABLE a]> (<[a := mkEntry KOM_PAGE_ADDRSPACE a]> t).
Let m' : pages := <[a := as_words l]> (<[l := fun _ => 0]> m).

Lemma init_cases q : q = a \/ q = l \/ q <> a /\ q <> l /\ t' q = t q /\ m' q = m q.
Proof.
  destruct (decide (q = a)); [by left|]. destruct (decide (q = l)); [by right; left|].
  right; right. unfold t', m'. by fn_simpl.
Qed.

Lemma init_a : typ t' a = KOM_PAGE_ADDRSPACE /\ own t' a = a /\ m' a = as_words l.
Proof. unfold typ, own, t', m'. by fn_simpl. Qed.

Lemma init_l : typ t' l = KOM_PAGE_L1PTABLE /\ own t' l = a /\ m' l = fun _ => 0.
Proof. unfold typ, own, t', m'. by fn_simpl. Qed.

Lemma init_owner q : valid q -> typ t q <> KOM_PAGE_FREE -> own t q <> a /\ own t q <> l.
Proof.
  intros Hq Hf. destruct (db_owner t m I q Hq Hf) as [_ Ht]. split; intros E; rewrite E in Ht.
  - by rewrite Haf in Ht.
  - by rewrite Hlf in Ht.
Qed.

Lemma init_refs b : refs t' b = refs t b + (if decide (b = a) then 2 else 0).
Proof.
  unfold t'. rewrite !refs_upd by done.
  rewrite (refers_false t b a), (refers_false (<[a := _]> t) b l);
    [|left; unfold typ; by fn_simpl|by left].
  unfold refers, typ, own. fn_simpl. cbn [ptype addrspace_page].
  destruct (decide (b = a)) as [->|Hb].
  - rewrite Z.eqb_refl. cbn. lia.
  - rewrite (proj2 (Z.eqb_neq a b)) by done. cbn. lia.
Qed.

Lemma db_init : dbinv t' m'.
Proof.
  destruct init_a as (Eta & Eoa & Ema), init_l as (Etl & Eol & Eml).
  assert (forall b, valid b -> typ t' b = KOM_PAGE_ADDRSPACE -> b = a \/
    b <> a /\ b <> l /\ typ t b = KOM_PAGE_ADDRSPACE /\ m' b = m b) as Has.
  { intros b Hb Ht. destruct (init_cases b) as [->|[->|(? & ? & E & Em)]]; [by left|by rewrite Etl in Ht|].
    right. unfold typ in *. by rewrite <- E. }
  split.
  - intros q Hq. destruct (init_cases q) as [->|[->|(_ & _ & E & _)]]; [by rewrite Eta|by rewrite Etl|].
    unfold typ. rewrite E. by apply (db_types t m I).
  - intros q Hq Hf. destruct (init_cases q) as [->|[->|(_ & _ & E & _)]]; [by rewrite Eoa|by rewrite Eol|].
    assert (typ t q <> KOM_PAGE_FREE) as Hf' by (unfold typ in *; by rewrite <- E).
    destruct (init_owner q Hq Hf') as [Hna Hnl], (db_owner t m I q Hq Hf') as [Hv Ht].
    assert (own t' q = own t q) as -> by (unfold own; by rewrite E). split; [done|].
    destruct (init_cases (own t q)) as [?|[?|(_ & _ & Eo & _)]]; [done..|]. unfold typ in *. by rewrite Eo.
  - intros q Hq Ht. destruct (Has q Hq Ht) as [->|(Hqa & Hql & Hqt & _)]; [done|].
    unfold own, t'. fn_simpl. by apply (db_self t m I).
  - intros b Hb Ht. rewrite init_refs. destruct (Has b Hb Ht) as [->|(Hba & _ & Hbt & ->)].
    + rewrite decide_True, Ema by done. cbn. assert (refs t a = 0) as ->; [|done].
      unfold refs. rewrite (countb_ext _ (fun _ => false)).
      { clear. induction all_pages; cbn; auto. }
      intros q Hq%elem_all_pages. apply refers_false.
      destruct (decide (typ t q = KOM_PAGE_FREE)); [by left|right; by apply init_owner].
    + rewrite decide_False, Z.add_0_r by done. by apply (db_refs t m I).
  - intros b Hb Ht Hs. destruct (Has b Hb Ht) as [->|(Hba & _ & Hbt & Em)]; [by rewrite Ema|].
    rewrite Em in *. destruct (db_l1 t m I b Hb Hbt Hs) as (Hv & Hlt & Hlo). cbn zeta in *.
    split; [done|]. unfold typ, own in *. destruct (init_cases (m b AS_l1pt_page)) as [E|[E|(_ & _ & E & _)]].
    + by rewrite E, Haf in Hlt.
    + by rewrite E, Hlf in Hlt.
    + by rewrite E.
  - intros q Hq Hf Hs. destruct (init_cases q) as [->|[->|(Hqa & Hql & E & Em)]].
    + rewrite Eta. by split_and!.
    + rewrite Etl, Eml. split_and!; try done. intros _ i Hi. by left.
    + assert (typ t' q = typ t q /\ own t' q = own t q) as [E1 E2] by (unfold typ, own; by rewrite E).
      rewrite E1, E2 in *. destruct (init_owner q Hq Hf) as [Hoa Hol].
      assert (m' (own t q) = m (own t q)) as Eo by (destruct (init_cases (own t q)) as [?|[?|(_ & _ & _ & ?)]]; done).
      rewrite Eo, Em in *. apply (content_mono t); [by apply (db_content t m I)|].
      intros r Hr Hrf Hro. destruct (init_cases r) as [->|[->|(_ & _ & ? & _)]]; [by rewrite Haf in Hrf|by rewrite Hlf in Hrf|done].
  - intros q Hq. destruct (init_cases q) as [->|[->|(_ & _ & _ & ->)]]; [rewrite Ema|by rewrite Eml|by apply (db_words t m I)].
    assert (uint 64 l) as Hul by (unfold uint, valid in *; change KOM_SECURE_NPAGES with 1024 in *; lia).
    by repeat apply words_insert.
Qed.
End init.
End db.
