(* ===== verification/KomodoCalls.v ===== *)
(** Komodo: what each call does, in closed form: the error it answers as a function
    of the page database, and the state it leaves when there is none. *)

From S2P Require Import Prelude.
From S2P Require Import Console.
From S2P Require Import Machine.
From S2P Require Import Mcall.
From S2P Require Import Komodo.
From S2P Require Import KomodoDb.

Section komodo.
Context `{Console} `{Layout}.
Implicit Types s : kom.

Definition with_db (t : db) (m : pages) s : kom :=
  mkKom t m (insecure_pages s) (host_state s) (enclave_mode s) (g_cur_dispatcher_pageno s) (kmach s).

Lemma with_db_id s : with_db (g_pagedb s) (secure_pages s) s = s.
Proof. by destruct s. Qed.

Lemma in_db_true p : in_db p = true <-> valid p.
Proof. unfold in_db, valid. by rewrite andb_true_iff, Z.leb_le, Z.ltb_lt. Qed.

Lemma page_is_valid_true p : 0 <= p -> page_is_valid p = true <-> valid p.
Proof. unfold page_is_valid, valid. rewrite Z.ltb_lt. lia. Qed.

Lemma with_db_db t m t' m' s : with_db t m (with_db t' m' s) = with_db t m s.
Proof. reflexivity. Qed.

(** * Equations *)

Lemma get_entry_eq p s : valid p -> get_entry p s = Ret (g_pagedb s p) s.
Proof. intros Hp. unfold get_entry. by rewrite (proj2 (in_db_true p) Hp). Qed.

Lemma set_type_eq p v s : valid p ->
  set_type p v s = Ret tt (with_db (<[p := mkEntry v (own (g_pagedb s) p)]> (g_pagedb s)) (secure_pages s) s).
Proof. intros Hp. unfold set_type. by rewrite (proj2 (in_db_true p) Hp). Qed.

Lemma set_addrspace_page_eq p v s : valid p ->
  set_addrspace_page p v s =
  Ret tt (with_db (<[p := mkEntry (typ (g_pagedb s) p) v]> (g_pagedb s)) (secure_pages s) s).
Proof. intros Hp. unfold set_addrspace_page. by rewrite (proj2 (in_db_true p) Hp). Qed.

Lemma in_page_true p i : valid p -> is_index i -> in_page p i = true.
Proof.
  intros Hp [Hl Hu]. unfold in_page. rewrite (proj2 (in_db_true p) Hp).
  by rewrite (proj2 (Z.leb_le _ _) Hl), (proj2 (Z.ltb_lt _ _) Hu).
Qed.

Lemma get_word_eq p i s : valid p -> is_index i -> get_word p i s = Ret (secure_pages s p i) s.
Proof. intros Hp Hi. unfold get_word. by rewrite in_page_true. Qed.

Lemma set_word_eq p i v s : valid p -> is_index i ->
  set_word p i v s =
  Ret tt (with_db (g_pagedb s) (<[p := <[i := u64 v]> (secure_pages s p)]> (secure_pages s)) s).
Proof. intros Hp Hi. unfold set_word. by rewrite in_page_true. Qed.

Lemma upd_page_eq p f s : valid p ->
  upd_page p f s = Ret tt (with_db (g_pagedb s) (<[p := f (secure_pages s p)]> (secure_pages s)) s).
Proof. intros Hp. unfold upd_page. by rewrite (proj2 (in_db_true p) Hp). Qed.

Lemma page_monvaddr_eq p s : valid p -> page_monvaddr p s = Ret p s.
Proof.
  intros Hp. unfold page_monvaddr. rewrite (proj2 (page_is_valid_true p ltac:(unfold valid in Hp; lia)) Hp). done.
Qed.

Lemma page_paddr_eq p s : valid p -> page_paddr p s = Ret (page_pa p) s.
Proof. intros Hp. unfold page_paddr. by erewrite bind_Ret by (by apply page_monvaddr_eq). Qed.

Lemma clear_page_eq p s : valid p ->
  clear_page p s = Ret tt (with_db (g_pagedb s) (<[p := fun _ => 0]> (secure_pages s)) s).
Proof. intros Hp. unfold clear_page. erewrite bind_Ret by (by apply page_monvaddr_eq). by apply upd_page_eq. Qed.

(** page_is_typed, as a function of the database. *)
Definition typed (t : db) (p ty : Z) : bool := page_is_valid p && (typ t p =? ty).

Lemma page_is_typed_eq p ty s : 0 <= p -> page_is_typed p ty s = Ret (typed (g_pagedb s) p ty) s.
Proof.
  intros Hp. unfold page_is_typed, typed. destruct (page_is_valid p) eqn:E; [|done].
  apply page_is_valid_true in E; [|done]. by erewrite bind_Ret by (by apply get_entry_eq).
Qed.

Lemma typed_true t p ty : 0 <= p -> typed t p ty = true <-> valid p /\ typ t p = ty.
Proof. intros Hp. unfold typed. by rewrite andb_true_iff, Z.eqb_eq, page_is_valid_true. Qed.

(** One step of symbolic execution. *)
Ltac kbind m :=
  lazymatch m with
  | mbind _ _ => rewrite bind_assoc
  | get_entry _ => erewrite bind_Ret by (by apply get_entry_eq)
  | set_type _ _ => erewrite bind_Ret by (by apply set_type_eq)
  | set_addrspace_page _ _ => erewrite bind_Ret by (by apply set_addrspace_page_eq)
  | get_word _ _ => erewrite bind_Ret by (by apply get_word_eq)
  | set_word _ _ _ => erewrite bind_Ret by (by apply set_word_eq)
  | upd_page _ _ => erewrite bind_Ret by (by apply upd_page_eq)
  | clear_page _ => erewrite bind_Ret by (by apply clear_page_eq)
  | page_monvaddr _ => erewrite bind_Ret by (by apply page_monvaddr_eq)
  | page_paddr _ => erewrite bind_Ret by (by apply page_paddr_eq)
  | page_is_free _ => erewrite bind_Ret by (by apply page_is_typed_eq)
  | page_is_typed _ _ => erewrite bind_Ret by (by apply page_is_typed_eq)
  | pmpcfg_write _ _ => erewrite bind_Ret by (by apply pmpcfg_write_eq)
  | csrs_read _ _ => erewrite bind_Ret by (apply csrs_read_eq)
  | csrs_write _ _ => erewrite bind_Ret by (apply csrs_write_eq)
  | gets _ => erewrite bind_Ret by (apply gets_eq)
  | get_frame => erewrite bind_Ret by (apply gets_eq)
  | BUG_ON false => erewrite bind_Ret by reflexivity
  | mret _ => erewrite bind_Ret by reflexivity
  | _ => erewrite bind_Ret by (apply modify_eq)
  end.
Ltac kcbn := cbn [g_pagedb secure_pages insecure_pages host_state enclave_mode g_cur_dispatcher_pageno kmach
  with_db get_mach set_mach kom_machine frame csrs dev negb andb orb]; rewrite ?with_db_db.
Ltac kstep :=
  lazymatch goal with
  | |- mbind _ ?m _ = _ => kbind m
  end; kcbn.

(** * Allocation *)

Definition alloc_err (t : db) (m : pages) (page a : Z) : Z :=
  if negb (page_is_valid page) then KOM_ERR_INVALID_PAGENO
  else if negb (typed t page KOM_PAGE_FREE) then KOM_ERR_PAGEINUSE
  else if negb (m a AS_state =? KOM_ADDRSPACE_INIT) then KOM_ERR_ALREADY_FINAL
  else KOM_ERR_SUCCESS.

Definition alloc_post (page a ty : Z) s : kom :=
  with_db (<[page := mkEntry ty a]> (g_pagedb s)) (alloc_pages page a (fun _ => 0) (secure_pages s)) s.

(** The outcome of a call that either answers an error or leaves the state [s']. *)
Definition call (err : Z) (s' s : kom) : outcome kom Z :=
  if err =? KOM_ERR_SUCCESS then Ret KOM_ERR_SUCCESS s' else Ret err s.

Lemma allocate_page_eq page a ty s : 0 <= page -> valid a -> typ (g_pagedb s) a <> KOM_PAGE_FREE ->
  allocate_page page a ty s = call (alloc_err (g_pagedb s) (secure_pages s) page a) (alloc_post page a ty s) s.
Proof.
  intros Hp Ha Hta. unfold allocate_page, alloc_err. destruct (page_is_valid page) eqn:Hv; [|done]. cbn [negb].
  apply page_is_valid_true in Hv; [|done]. kstep. destruct (typed _ _ _) eqn:Ht; [|done]. cbn [negb].
  apply typed_true in Ht as [_ Ht]; [|done]. do 2 kstep.
  destruct (_ =? KOM_ADDRSPACE_INIT); [|done]. cbn [negb]. do 5 kstep.
  assert (page <> a) as Hne by congruence. unfold call, alloc_post, alloc_pages. cbn [Z.eqb KOM_ERR_SUCCESS].
  unfold mret, M_ret. f_equal. f_equal.
  - rewrite fn_insert_insert. unfold typ. by fn_simpl.
  - by fn_simpl.
Qed.

(** Callers return the error, or go on. *)
Lemma bind_alloc page a ty (k : M kom Z) s : 0 <= page -> valid a -> typ (g_pagedb s) a <> KOM_PAGE_FREE ->
  (err ← allocate_page page a ty; if negb (err =? KOM_ERR_SUCCESS) then mret err else k) s =
  let err := alloc_err (g_pagedb s) (secure_pages s) page a in
  if err =? KOM_ERR_SUCCESS then k (alloc_post page a ty s) else Ret err s.
Proof.
  intros Hp Ha Ht. unfold mbind, M_bind. rewrite allocate_page_eq by done. unfold call. cbn zeta.
  destruct (Z.eqb_spec (alloc_err (g_pagedb s) (secure_pages s) page a) KOM_ERR_SUCCESS) as [E|E]; [done|].
  by rewrite (proj2 (Z.eqb_neq _ _) E).
Qed.

(** * The calls of the host *)

Definition init_addrspace_err (t : db) (a l : Z) : Z :=
  if (a =? l) || negb (page_is_valid a && page_is_valid l) then KOM_ERR_INVALID_PAGENO
  else if negb (typed t a KOM_PAGE_FREE && typed t l KOM_PAGE_FREE) then KOM_ERR_PAGEINUSE
  else KOM_ERR_SUCCESS.

Definition init_addrspace_post (a l : Z) s : kom :=
  with_db (<[l := mkEntry KOM_PAGE_L1PTABLE a]> (<[a := mkEntry KOM_PAGE_ADDRSPACE a]> (g_pagedb s)))
    (<[a := as_words l]> (<[l := fun _ => 0]> (secure_pages s))) s.

Lemma valid_uint p : valid p -> u64 p = p.
Proof. intros Hp. apply wrap_small. unfold valid in Hp. change KOM_SECURE_NPAGES with 1024 in Hp. lia. Qed.

Lemma kom_smc_init_addrspace_eq a l s : 0 <= a -> 0 <= l ->
  kom_smc_init_addrspace a l s = call (init_addrspace_err (g_pagedb s) a l) (init_addrspace_post a l s) s.
Proof.
  intros Ha Hl. unfold kom_smc_init_addrspace, init_addrspace_err.
  destruct (Z.eqb_spec a l) as [->|Hne]; [done|].
  destruct (page_is_valid a) eqn:Hva; [|done]. destruct (page_is_valid l) eqn:Hvl; [|done].
  apply page_is_valid_true in Hva, Hvl; [|done..]. cbn [orb andb negb]. do 2 kstep.
  destruct (typed _ a _ && typed _ l _); [|done]. cbn [negb]. do 10 kstep.
  unfold call, init_addrspace_post, mret, M_ret. cbn [Z.eqb KOM_ERR_SUCCESS]. f_equal. f_equal.
  - unfold typ. fn_simpl. cbn [ptype]. rewrite fn_insert_insert. f_equal. by rewrite fn_insert_insert.
  - fn_simpl. rewrite !fn_insert_insert, (valid_uint l) by done. apply fn_ext. intros q.
    destruct (decide (q = a)) as [->|]; [by fn_simpl|]. by destruct (decide (q = l)) as [->|]; fn_simpl.
Qed.

Definition init_dispatcher_err (t : db) (m : pages) (page a : Z) : Z :=
  if negb (typed t a KOM_PAGE_ADDRSPACE) then KOM_ERR_INVALID_ADDRSPACE else alloc_err t m page a.

Definition disp_words (entrypoint l : Z) : Z -> Z :=
  <[DISP_csrs + csr_slot CSR_sie := IE_S]> (<[DISP_csrs + csr_slot CSR_satp := disp_satp l]>
    (<[DISP_csrs + csr_slot CSR_mepc := u64 entrypoint]> (fun _ => 0))).

Definition init_dispatcher_post (page a entrypoint : Z) s : kom :=
  with_db (<[page := mkEntry KOM_PAGE_DISPATCHER a]> (g_pagedb s))
    (alloc_pages page a (disp_words entrypoint (secure_pages s a AS_l1pt_page)) (secure_pages s)) s.

(** What a successful allocation tells. *)
Lemma alloc_err_ok t m page a : 0 <= page -> alloc_err t m page a = KOM_ERR_SUCCESS ->
  valid page /\ typ t page = KOM_PAGE_FREE /\ m a AS_state = KOM_ADDRSPACE_INIT.
Proof.
  intros Hp. unfold alloc_err. destruct (page_is_valid page) eqn:Hv; [|done].
  destruct (typed t page KOM_PAGE_FREE) eqn:Ht; [|done]. apply typed_true in Ht; [|done].
  destruct (Z.eqb_spec (m a AS_state) KOM_ADDRSPACE_INIT); [|done]. tauto.
Qed.

(** The physical address of a page fits the fields that hold it. *)
Lemma page_pa_range p : valid p -> 0 <= page_pa p < 2 ^ 56.
Proof.
  intros Hp. pose proof secure_range. pose proof payload_range.
  unfold page_pa, valid, KOM_SECURE_RESERVE, KOM_INSECURE_RESERVE, KOM_PAGE_SIZE in *.
  change KOM_SECURE_NPAGES with 1024 in *. lia.
Qed.

Lemma pfn_range x : 0 <= x < 2 ^ 56 -> 0 <= PFN_DOWN x < 2 ^ 44.
Proof.
  intros Hx. unfold PFN_DOWN. rewrite Z.shiftr_div_pow2 by (unfold PAGE_SHIFT; lia).
  split; [apply Z.div_pos; unfold PAGE_SHIFT; lia|apply Z.div_lt_upper_bound; unfold PAGE_SHIFT; lia].
Qed.

Lemma uint_disp_satp l : valid l -> uint 64 (disp_satp l).
Proof.
  intros Hl%page_pa_range%pfn_range. apply uint_lor; [done| |]; [by unfold SATP_MODE_SV39|].
  unfold uint. lia.
Qed.

Lemma disp_page_eq (m : pages) (page a x y z : Z) : page <> a ->
  let m1 := alloc_pages page a (fun _ => 0) m in
  let m2 := <[page := <[32 := x]> (m1 page)]> m1 in
  let m3 := <[page := <[33 := y]> (m2 page)]> m2 in
  <[page := <[42 := z]> (m3 page)]> m3 = alloc_pages page a (<[42 := z]> (<[33 := y]> (<[32 := x]> (fun _ => 0)))) m.
Proof.
  intros Hne. cbn zeta. unfold alloc_pages. fn_simpl. rewrite !fn_insert_insert. apply fn_ext. intros q.
  destruct (decide (q = page)) as [->|]; fn_simpl; [done|].
  by destruct (decide (q = a)) as [->|]; fn_simpl.
Qed.

Lemma kom_smc_init_dispatcher_eq page a entrypoint s : dbinv (g_pagedb s) (secure_pages s) ->
  0 <= page -> 0 <= a ->
  kom_smc_init_dispatcher page a entrypoint s =
  call (init_dispatcher_err (g_pagedb s) (secure_pages s) page a) (init_dispatcher_post page a entrypoint s) s.
Proof.
  intros I Hp Ha. unfold kom_smc_init_dispatcher, init_dispatcher_err. kstep.
  destruct (typed _ a _) eqn:Hta; [|done]. apply typed_true in Hta as [Hva Hta]; [|done]. cbn [negb].
  rewrite bind_alloc by (done || by rewrite Hta). unfold call.
  destruct (Z.eqb_spec (alloc_err (g_pagedb s) (secure_pages s) page a) KOM_ERR_SUCCESS) as [E|E]; [|done].
  apply alloc_err_ok in E as (Hvp & Hfree & Hst); [|done].
  assert (page <> a) as Hne by (intros ->; by rewrite Hta in Hfree).
  destruct (db_l1 _ _ I a Hva Hta) as (Hl & _); [by rewrite Hst|]. cbn zeta in Hl.
  unfold alloc_post. do 3 kstep. kstep.
  assert (<[page := <[DISP_csrs + csr_slot CSR_mepc := u64 entrypoint]> (alloc_pages page a (fun _ => 0) (secure_pages s) page)]>
    (alloc_pages page a (fun _ => 0) (secure_pages s)) a AS_l1pt_page = secure_pages s a AS_l1pt_page) as ->
    by (unfold alloc_pages; by fn_simpl).
  do 3 kstep. unfold mret, M_ret, init_dispatcher_post, disp_words. f_equal. f_equal.
  rewrite (wrap_small 64 (_ .| _)) by (by apply uint_disp_satp). change (u64 IE_S) with IE_S.
  by apply disp_page_eq.
Qed.

(** ** Page tables *)

(** The first error of two. *)
Definition first_err (e e' : Z) : Z := if e =? KOM_ERR_SUCCESS then e' else e.

Definition slot_err (t : db) (m : pages) (p i ty : Z) : Z :=
  if PTRS_PER_PTE <=? i then KOM_ERR_INVALID_MAPPING
  else if negb (typed t p ty) then KOM_ERR_INVALID_PAGENO
  else if negb (m p i =? 0) then KOM_ERR_ADDRINUSE
  else KOM_ERR_SUCCESS.

Definition table_err (t : db) (m : pages) (page p i ty : Z) : Z :=
  first_err (slot_err t m p i ty) (alloc_err t m page (own t p)).

(** A new page of type [ty], entered as [x] in slot [i] of table [p]. *)
Definition table_post (page p i ty x : Z) s : kom :=
  let a := own (g_pagedb s) p in
  let m := alloc_pages page a (fun _ => 0) (secure_pages s) in
  with_db (<[page := mkEntry ty a]> (g_pagedb s)) (<[p := <[i := x]> (m p)]> m) s.

Lemma slot_err_ok t m p i ty : 0 <= p -> 0 <= i -> slot_err t m p i ty = KOM_ERR_SUCCESS ->
  valid p /\ is_index i /\ typ t p = ty /\ m p i = 0.
Proof.
  intros Hp Hi. unfold slot_err. destruct (Z.leb_spec PTRS_PER_PTE i); [done|].
  destruct (typed t p ty) eqn:Ht; [|done]. apply typed_true in Ht as [Hv Ht]; [|done].
  destruct (Z.eqb_spec (m p i) 0); done.
Qed.

Lemma uint_pte pfn prot : uint 64 prot -> u64 (u64 (pfn ≪ _PAGE_PFN_SHIFT) .| prot) = u64 (pfn ≪ _PAGE_PFN_SHIFT) .| prot.
Proof. intros Hp. apply wrap_small, uint_lor; [done|by apply uint_wrap|done]. Qed.

Lemma uint_enclave_prot f : uint 64 (enclave_prot f).
Proof.
  unfold enclave_prot. apply uint_lor; [done| |done].
  assert (f .& KOM_MAPPING_RWX = (f .& KOM_MAPPING_RWX) .& Z.ones 4) as ->.
  { rewrite <- Z.land_assoc. done. }
  rewrite Z.land_ones by lia. pose proof (Z.mod_pos_bound (f .& KOM_MAPPING_RWX) (2 ^ 4)). unfold uint. lia.
Qed.

(** The common prefix of the calls that fill a slot of a table. *)
Lemma bind_slot p i ty (k : Z -> M kom Z) s : 0 <= p -> 0 <= i ->
  (if PTRS_PER_PTE <=? i then mret KOM_ERR_INVALID_MAPPING else
   typed ← page_is_typed p ty;
   if negb typed then mret KOM_ERR_INVALID_PAGENO else
   pt ← page_monvaddr p;
   x ← get_word pt i;
   if negb (x =? 0) then mret KOM_ERR_ADDRINUSE else k pt) s =
  let err := slot_err (g_pagedb s) (secure_pages s) p i ty in
  if err =? KOM_ERR_SUCCESS then k p s else Ret err s.
Proof.
  intros Hp Hi. unfold slot_err. destruct (Z.leb_spec PTRS_PER_PTE i); [done|]. cbn zeta. kstep.
  destruct (typed (g_pagedb s) p ty) eqn:Ht; [|done]. apply typed_true in Ht as [Hv Ht]; [|done]. cbn [negb].
  do 2 kstep. by destruct (_ =? 0).
Qed.

Lemma owner_ok s p ty : dbinv (g_pagedb s) (secure_pages s) -> valid p -> typ (g_pagedb s) p = ty ->
  ty <> KOM_PAGE_FREE ->
  valid (own (g_pagedb s) p) /\ typ (g_pagedb s) (own (g_pagedb s) p) = KOM_PAGE_ADDRSPACE.
Proof. intros I Hp <- Hf. by apply (db_owner _ _ I). Qed.

(** Filling a slot with a new table. *)
Lemma new_table_eq (e : kom_pagedb_entry) page p i ty ty' s : dbinv (g_pagedb s) (secure_pages s) ->
  0 <= page -> valid p -> is_index i -> typ (g_pagedb s) p = ty -> ty <> KOM_PAGE_FREE ->
  e = g_pagedb s p ->
  (err ← allocate_page page (addrspace_page e) ty';
   if negb (err =? KOM_ERR_SUCCESS) then mret err else
   pa ← page_paddr page;
   set_word p i (pfn_pgd (PFN_DOWN pa) _PAGE_TABLE);;
   mret KOM_ERR_SUCCESS) s =
  call (alloc_err (g_pagedb s) (secure_pages s) page (own (g_pagedb s) p))
    (table_post page p i ty' (pfn_pgd (PFN_DOWN (page_pa page)) _PAGE_TABLE) s) s.
Proof.
  intros I Hp Hv Hi Ht Hf ->. change (addrspace_page (g_pagedb s p)) with (own (g_pagedb s) p).
  destruct (owner_ok s p ty I Hv Ht Hf) as [Hva Hta].
  rewrite bind_alloc by (done || by rewrite Hta). unfold call. cbn zeta.
  destruct (Z.eqb_spec (alloc_err (g_pagedb s) (secure_pages s) page (own (g_pagedb s) p)) KOM_ERR_SUCCESS) as [E|E]; [|done].
  apply alloc_err_ok in E as (Hvp & _); [|done]. unfold alloc_post. do 2 kstep.
  unfold mret, M_ret, table_post. f_equal. f_equal. unfold pfn_pgd. by rewrite uint_pte.
Qed.

Lemma kom_smc_init_l2ptable_eq page p i s : dbinv (g_pagedb s) (secure_pages s) ->
  0 <= page -> 0 <= p -> 0 <= i ->
  kom_smc_init_l2ptable page p i s =
  call (table_err (g_pagedb s) (secure_pages s) page p i KOM_PAGE_L1PTABLE)
    (table_post page p i KOM_PAGE_L2PTABLE (pfn_pgd (PFN_DOWN (page_pa page)) _PAGE_TABLE) s) s.
Proof.
  intros I Hp Hp' Hi. unfold kom_smc_init_l2ptable, table_err, first_err. change PTRS_PER_PMD with PTRS_PER_PTE.
  rewrite bind_slot by done. cbn zeta.
  destruct (Z.eqb_spec (slot_err (g_pagedb s) (secure_pages s) p i KOM_PAGE_L1PTABLE) KOM_ERR_SUCCESS) as [E|E].
  - apply slot_err_ok in E as (Hv & Hix & Ht & _); [|done..]. kstep. by apply (new_table_eq _ _ _ _ KOM_PAGE_L1PTABLE).
  - unfold call. by rewrite (proj2 (Z.eqb_neq _ _) E).
Qed.

Lemma kom_smc_init_l3ptable_eq page p i s : dbinv (g_pagedb s) (secure_pages s) ->
  0 <= page -> 0 <= p -> 0 <= i ->
  kom_smc_init_l3ptable page p i s =
  call (table_err (g_pagedb s) (secure_pages s) page p i KOM_PAGE_L2PTABLE)
    (table_post page p i KOM_PAGE_L3PTABLE (pfn_pmd (PFN_DOWN (page_pa page)) _PAGE_TABLE) s) s.
Proof.
  intros I Hp Hp' Hi. unfold kom_smc_init_l3ptable, table_err, first_err. change PTRS_PER_PMD with PTRS_PER_PTE.
  rewrite bind_slot by done. cbn zeta.
  destruct (Z.eqb_spec (slot_err (g_pagedb s) (secure_pages s) p i KOM_PAGE_L2PTABLE) KOM_ERR_SUCCESS) as [E|E].
  - apply slot_err_ok in E as (Hv & Hix & Ht & _); [|done..]. kstep. by apply (new_table_eq _ _ _ _ KOM_PAGE_L2PTABLE).
  - unfold call. by rewrite (proj2 (Z.eqb_neq _ _) E).
Qed.

Lemma copy_insecure_eq page content s : 0 <= content -> insecure_page_is_valid content = true -> valid page ->
  copy_insecure page content s =
  Ret tt (with_db (g_pagedb s) (<[page := insecure_pages s content]> (secure_pages s)) s).
Proof.
  intros Hc Hcv Hp. unfold copy_insecure. fold (insecure_page_is_valid content).
  rewrite (proj2 (Z.leb_le _ _) Hc), Hcv. erewrite bind_Ret by reflexivity. do 2 kstep. by rewrite upd_page_eq.
Qed.

Definition map_secure_err (t : db) (m : pages) (page p i content : Z) : Z :=
  if PTRS_PER_PTE <=? i then KOM_ERR_INVALID_MAPPING
  else if negb (insecure_page_is_valid content) then KOM_ERR_INVALID_PAGENO
  else table_err t m page p i KOM_PAGE_L3PTABLE.

Definition map_secure_post (page p i f content : Z) s : kom :=
  let s' := table_post page p i KOM_PAGE_DATA (pfn_pte (PFN_DOWN (page_pa page)) (enclave_prot f)) s in
  with_db (g_pagedb s') (<[page := insecure_pages s content]> (secure_pages s')) s'.

Lemma kom_smc_map_secure_eq page p i f content s : dbinv (g_pagedb s) (secure_pages s) ->
  0 <= page -> 0 <= p -> 0 <= i -> 0 <= content ->
  kom_smc_map_secure page p i f content s =
  call (map_secure_err (g_pagedb s) (secure_pages s) page p i content) (map_secure_post page p i f content s) s.
Proof.
  intros I Hp Hp' Hi Hc. unfold kom_smc_map_secure, map_secure_err, table_err, first_err.
  destruct (Z.leb_spec PTRS_PER_PTE i) as [|Hlt]; [done|].
  destruct (insecure_page_is_valid content) eqn:Hcv; [|done]. cbn [negb].
  pose proof (bind_slot p i KOM_PAGE_L3PTABLE) as B. rewrite (proj2 (Z.leb_gt _ _) Hlt) in B. rewrite B by done. clear B.
  cbn zeta. destruct (Z.eqb_spec (slot_err (g_pagedb s) (secure_pages s) p i KOM_PAGE_L3PTABLE) KOM_ERR_SUCCESS) as [E|E].
  2:{ unfold call. by rewrite (proj2 (Z.eqb_neq _ _) E). }
  apply slot_err_ok in E as (Hv & Hix & Ht & _); [|done..].
  destruct (owner_ok s p _ I Hv Ht) as [Hva Hta]; [done|]. kstep.
  change (addrspace_page (g_pagedb s p)) with (own (g_pagedb s) p).
  rewrite bind_alloc by (done || by rewrite Hta). unfold call. cbn zeta.
  destruct (Z.eqb_spec (alloc_err (g_pagedb s) (secure_pages s) page (own (g_pagedb s) p)) KOM_ERR_SUCCESS) as [E|E]; [|done].
  apply alloc_err_ok in E as (Hvp & _); [|done]. unfold alloc_post. do 2 kstep.
  erewrite bind_Ret by (by apply copy_insecure_eq). kcbn. unfold mret, M_ret, map_secure_post, table_post. kcbn.
  f_equal. f_equal. unfold pfn_pte. by rewrite uint_pte by apply uint_enclave_prot.
Qed.

Definition state_err (m : pages) (a st err : Z) : Z :=
  if negb (m a AS_state =? st) then err else KOM_ERR_SUCCESS.

Lemma state_err_ok m a st err : err <> KOM_ERR_SUCCESS -> state_err m a st err = KOM_ERR_SUCCESS -> m a AS_state = st.
Proof. intros He. unfold state_err. by destruct (Z.eqb_spec (m a AS_state) st). Qed.

Definition map_insecure_err (t : db) (m : pages) (p i n : Z) : Z :=
  if negb (insecure_page_is_valid n) then KOM_ERR_INVALID_PAGENO
  else first_err (slot_err t m p i KOM_PAGE_L3PTABLE)
         (state_err m (own t p) KOM_ADDRSPACE_INIT KOM_ERR_ALREADY_FINAL).

Definition map_insecure_post (p i f n : Z) s : kom :=
  with_db (g_pagedb s) (<[p := <[i := pfn_pte (PFN_DOWN (insecure_page_paddr n)) (enclave_prot f)]>
    (secure_pages s p)]> (secure_pages s)) s.

Lemma kom_smc_map_insecure_eq p i f n s : dbinv (g_pagedb s) (secure_pages s) -> 0 <= p -> 0 <= i ->
  kom_smc_map_insecure p i f n s =
  call (map_insecure_err (g_pagedb s) (secure_pages s) p i n) (map_insecure_post p i f n s) s.
Proof.
  intros I Hp Hi. unfold kom_smc_map_insecure, map_insecure_err, first_err.
  destruct (insecure_page_is_valid n); [|done]. cbn [negb]. rewrite bind_slot by done. cbn zeta.
  destruct (Z.eqb_spec (slot_err (g_pagedb s) (secure_pages s) p i KOM_PAGE_L3PTABLE) KOM_ERR_SUCCESS) as [E|E].
  2:{ unfold call. by rewrite (proj2 (Z.eqb_neq _ _) E). }
  apply slot_err_ok in E as (Hv & Hix & Ht & _); [|done..].
  destruct (owner_ok s p _ I Hv Ht) as [Hva Hta]; [done|]. kstep.
  change (addrspace_page (g_pagedb s p)) with (own (g_pagedb s) p). do 2 kstep. unfold state_err.
  destruct (_ =? KOM_ADDRSPACE_INIT); [|done]. cbn [negb]. kstep. unfold call, map_insecure_post, mret, M_ret.
  cbn [Z.eqb KOM_ERR_SUCCESS]. f_equal. f_equal. unfold pfn_pte. by rewrite uint_pte by apply uint_enclave_prot.
Qed.

(** ** Removal and the state of an address space *)

Definition remove_err (t : db) (m : pages) (p : Z) : Z :=
  if negb (page_is_valid p) then KOM_ERR_INVALID_PAGENO
  else if typ t p =? KOM_PAGE_FREE then KOM_ERR_SUCCESS
  else if typ t p =? KOM_PAGE_ADDRSPACE then
    if negb (m p AS_refcount =? 1) then KOM_ERR_PAGEINUSE
    else state_err m p KOM_ADDRSPACE_STOPPED KOM_ERR_NOT_STOPPED
  else state_err m (own t p) KOM_ADDRSPACE_STOPPED KOM_ERR_NOT_STOPPED.

Definition remove_post (p : Z) s : kom :=
  let t := g_pagedb s in
  let m := secure_pages s in
  let a := own t p in
  if typ t p =? KOM_PAGE_FREE then s else
  with_db (<[p := mkEntry KOM_PAGE_FREE (2 ^ 64 - 1)]> t)
    (<[a := <[AS_refcount := u64 (m a AS_refcount - 1)]> (m a)]> m) s.

Lemma release_page_eq p a s : valid p -> valid a ->
  release_page p a s = Ret KOM_ERR_SUCCESS (with_db (<[p := mkEntry KOM_PAGE_FREE (2 ^ 64 - 1)]> (g_pagedb s))
    (<[a := <[AS_refcount := u64 (secure_pages s a AS_refcount - 1)]> (secure_pages s a)]> (secure_pages s)) s).
Proof.
  intros Hp Ha. unfold release_page. do 4 kstep. unfold mret, M_ret. f_equal. f_equal.
  unfold typ. fn_simpl. by rewrite fn_insert_insert.
Qed.

Lemma kom_smc_remove_eq p s : dbinv (g_pagedb s) (secure_pages s) -> 0 <= p ->
  kom_smc_remove p s = call (remove_err (g_pagedb s) (secure_pages s) p) (remove_post p s) s.
Proof.
  intros I Hp. unfold kom_smc_remove, remove_err, remove_post.
  destruct (page_is_valid p) eqn:Hv; [|done]. apply page_is_valid_true in Hv; [|done]. cbn [negb]. kstep.
  change (ptype (g_pagedb s p)) with (typ (g_pagedb s) p).
  destruct (Z.eqb_spec (typ (g_pagedb s) p) KOM_PAGE_FREE) as [Hf|Hf]; [done|].
  destruct (Z.eqb_spec (typ (g_pagedb s) p) KOM_PAGE_ADDRSPACE) as [Ha|Ha].
  - do 2 kstep. destruct (_ =? 1); [|done]. cbn [negb]. kstep. unfold state_err.
    destruct (_ =? KOM_ADDRSPACE_STOPPED); [|done]. cbn [negb]. rewrite release_page_eq by done.
    by rewrite (db_self _ _ I p Hv Ha).
  - destruct (db_owner _ _ I p Hv Hf) as [Hva _].
    change (addrspace_page (g_pagedb s p)) with (own (g_pagedb s) p). do 2 kstep. unfold state_err.
    destruct (_ =? KOM_ADDRSPACE_STOPPED); [|done]. cbn [negb]. by rewrite release_page_eq.
Qed.

Definition set_state_post (a v : Z) s : kom :=
  with_db (g_pagedb s) (<[a := <[AS_state := v]> (secure_pages s a)]> (secure_pages s)) s.

Definition finalise_err (t : db) (m : pages) (a : Z) : Z :=
  if negb (typed t a KOM_PAGE_ADDRSPACE) then KOM_ERR_INVALID_ADDRSPACE
  else state_err m a KOM_ADDRSPACE_INIT KOM_ERR_ALREADY_FINAL.

Lemma kom_smc_finalise_eq a s : 0 <= a ->
  kom_smc_finalise a s =
  call (finalise_err (g_pagedb s) (secure_pages s) a) (set_state_post a KOM_ADDRSPACE_FINAL s) s.
Proof.
  intros Ha. unfold kom_smc_finalise, finalise_err. kstep. destruct (typed _ _ _) eqn:Ht; [|done].
  apply typed_true in Ht as [Hv Ht]; [|done]. cbn [negb]. do 2 kstep. unfold state_err.
  destruct (_ =? KOM_ADDRSPACE_INIT); [|done]. cbn [negb]. by kstep.
Qed.

Definition stop_err (t : db) (a : Z) : Z :=
  if negb (typed t a KOM_PAGE_ADDRSPACE) then KOM_ERR_INVALID_ADDRSPACE else KOM_ERR_SUCCESS.

Lemma kom_smc_stop_eq a s : 0 <= a ->
  kom_smc_stop a s = call (stop_err (g_pagedb s) a) (set_state_post a KOM_ADDRSPACE_STOPPED s) s.
Proof.
  intros Ha. unfold kom_smc_stop, stop_err. kstep. destruct (typed _ _ _) eqn:Ht; [|done].
  apply typed_true in Ht as [Hv Ht]; [|done]. cbn [negb]. by do 2 kstep.
Qed.

(** * Entering and leaving an enclave *)

Definition with_mach (h : host) (b : bool) (p : Z) (k : machine) s : kom :=
  mkKom (g_pagedb s) (secure_pages s) (insecure_pages s) h b p k.

Definition tvm_put (b : bool) (f : csr_file) : csr_file :=
  csr_put f CSR_mstatus (if b then csr_get f CSR_mstatus .| u64 SR_TVM
                         else Z.ldiff (csr_get f CSR_mstatus) (u64 SR_TVM)).

(** The CSRs of the world being entered: its saved registers, the permission of
    the secure pages, satp's trap and the delegations. *)
Definition world_csrs (b : bool) (v : csr -> Z) (f : csr_file) : csr_file :=
  let f := tvm_put b (chmod_put 2 (if b then PMPCFG_RWX else 0) (csrs_put kom_csrs v f)) in
  csr_put (csr_put f CSR_mideleg (if b then 0 else IDEL_S)) CSR_medeleg (if b then 0 else EDEL_MOST).

Definition enter_post (p : Z) s : kom :=
  let k := kmach s in
  with_mach (mkHost (copy_pt_regs (h_regs (host_state s)) (frame k)) (csrs_save kom_csrs (csrs k) (h_csr (host_state s))))
    true p (mkMachine (frame k) (world_csrs true (disp_csr (secure_pages s p)) (csrs k)) (dev k)) s.

Lemma enter_secure_world_eq p s : valid p -> enter_secure_world p s = Ret tt (enter_post p s).
Proof. intros Hp. unfold enter_secure_world. do 13 kstep. reflexivity. Qed.

Definition leave_words (entered : bool) (k : machine) (w : Z -> Z) : Z -> Z :=
  let w := <[DISP_entered := Z.b2z entered]> w in
  let w := put_disp_regs (copy_pt_regs (disp_regs w) (frame k)) w in
  put_disp_csr (csrs_save kom_csrs (csrs k) (disp_csr w)) w.

Definition leave_post (entered : bool) s : kom :=
  let k := kmach s in
  let d := g_cur_dispatcher_pageno s in
  let m := secure_pages s in
  with_db (g_pagedb s) (<[d := leave_words entered k (m d)]> m)
    (with_mach (host_state s) false 0
      (mkMachine (frame k) (world_csrs false (h_csr (host_state s)) (csrs k)) (dev k)) s).

Lemma leave_secure_world_eq entered s : valid (g_cur_dispatcher_pageno s) ->
  leave_secure_world entered s = Ret tt (leave_post entered s).
Proof.
  intros Hp. unfold leave_secure_world. do 15 kstep.
  assert (u64 (Z.b2z entered) = Z.b2z entered) as -> by (by destruct entered).
  fn_simpl. rewrite !fn_insert_insert. reflexivity.
Qed.

Definition entry_err (t : db) (m : pages) (p : Z) : Z :=
  if negb (typed t p KOM_PAGE_DISPATCHER) then KOM_ERR_INVALID_PAGENO
  else state_err m (own t p) KOM_ADDRSPACE_FINAL KOM_ERR_NOT_FINAL.

Definition enter_err (t : db) (m : pages) (p : Z) : Z :=
  first_err (entry_err t m p) (if negb (m p DISP_entered =? 0) then KOM_ERR_ALREADY_ENTERED else KOM_ERR_SUCCESS).
Definition resume_err (t : db) (m : pages) (p : Z) : Z :=
  first_err (entry_err t m p) (if m p DISP_entered =? 0 then KOM_ERR_NOT_ENTERED else KOM_ERR_SUCCESS).

Definition arg_words (a0 a1 a2 : Z) (w : Z -> Z) : Z -> Z :=
  <[DISP_regs + gpr_slot R_a2 := u64 a2]> (<[DISP_regs + gpr_slot R_a1 := u64 a1]>
    (<[DISP_regs + gpr_slot R_a0 := u64 a0]> w)).

(** The enclave runs with the registers of its dispatcher. *)
Definition entered (p : Z) s : outcome kom Z := Mret (disp_regs (secure_pages s p)) (enter_post p s).

Definition with_args (p a0 a1 a2 : Z) s : kom :=
  with_db (g_pagedb s) (<[p := arg_words a0 a1 a2 (secure_pages s p)]> (secure_pages s)) s.

Lemma entry_err_ok t m p : 0 <= p -> entry_err t m p = KOM_ERR_SUCCESS ->
  valid p /\ typ t p = KOM_PAGE_DISPATCHER /\ m (own t p) AS_state = KOM_ADDRSPACE_FINAL.
Proof.
  intros Hp. unfold entry_err. destruct (typed t p _) eqn:Ht; [|done]. apply typed_true in Ht as [Hv Ht]; [|done].
  intros E%state_err_ok; done.
Qed.

(** The common prefix of the two ways in. *)
Lemma bind_entry p (k : Z -> M kom Z) s : dbinv (g_pagedb s) (secure_pages s) -> 0 <= p ->
  (typed ← page_is_typed p KOM_PAGE_DISPATCHER;
   if negb typed then mret KOM_ERR_INVALID_PAGENO else
   dispatcher ← page_monvaddr p;
   e ← get_entry p;
   as_ ← page_monvaddr (addrspace_page e);
   st ← get_word as_ AS_state;
   if negb (st =? KOM_ADDRSPACE_FINAL) then mret KOM_ERR_NOT_FINAL else k dispatcher) s =
  let err := entry_err (g_pagedb s) (secure_pages s) p in
  if err =? KOM_ERR_SUCCESS then k p s else Ret err s.
Proof.
  intros I Hp. unfold entry_err. cbn zeta. kstep. destruct (typed (g_pagedb s) p _) eqn:Ht; [|done].
  apply typed_true in Ht as [Hv Ht]; [|done]. cbn [negb].
  destruct (owner_ok s p _ I Hv Ht) as [Hva _]; [done|]. do 2 kstep.
  change (addrspace_page (g_pagedb s p)) with (own (g_pagedb s) p). do 2 kstep. unfold state_err.
  by destruct (_ =? KOM_ADDRSPACE_FINAL).
Qed.

Lemma kom_smc_enter_eq p a0 a1 a2 s : dbinv (g_pagedb s) (secure_pages s) -> 0 <= p ->
  kom_smc_enter p a0 a1 a2 s =
  let err := enter_err (g_pagedb s) (secure_pages s) p in
  if err =? KOM_ERR_SUCCESS then entered p (with_args p a0 a1 a2 s) else Ret err s.
Proof.
  intros I Hp. unfold kom_smc_enter, enter_err, first_err. rewrite bind_entry by done. cbn zeta.
  destruct (Z.eqb_spec (entry_err (g_pagedb s) (secure_pages s) p) KOM_ERR_SUCCESS) as [E|E].
  2:{ by rewrite (proj2 (Z.eqb_neq _ _) E). }
  apply entry_err_ok in E as (Hv & _ & _); [|done]. kstep. destruct (_ =? 0); [|done]. cbn [negb]. do 3 kstep.
  fn_simpl. rewrite !fn_insert_insert. fold (arg_words a0 a1 a2 (secure_pages s p)). fold (with_args p a0 a1 a2 s).
  by erewrite bind_Ret by (by apply enter_secure_world_eq).
Qed.

Lemma kom_smc_resume_eq p s : dbinv (g_pagedb s) (secure_pages s) -> 0 <= p ->
  kom_smc_resume p s =
  let err := resume_err (g_pagedb s) (secure_pages s) p in
  if err =? KOM_ERR_SUCCESS then entered p s else Ret err s.
Proof.
  intros I Hp. unfold kom_smc_resume, resume_err, first_err. rewrite bind_entry by done. cbn zeta.
  destruct (Z.eqb_spec (entry_err (g_pagedb s) (secure_pages s) p) KOM_ERR_SUCCESS) as [E|E].
  2:{ by rewrite (proj2 (Z.eqb_neq _ _) E). }
  apply entry_err_ok in E as (Hv & _ & _); [|done]. kstep. destruct (_ =? 0); [done|].
  by erewrite bind_Ret by (by apply enter_secure_world_eq).
Qed.

Definition answered (a0 a1 : Z) s : kom :=
  with_mach (mkHost (<[R_a1 := u64 a1]> (<[R_a0 := u64 a0]> (h_regs (host_state s)))) (h_csr (host_state s)))
    (enclave_mode s) (g_cur_dispatcher_pageno s) (kmach s) s.

(** The host continues with its saved registers and an answer. *)
Definition exited {A} (entered : bool) (a0 a1 : Z) s : outcome kom A :=
  Mret (<[R_a1 := u64 a1]> (<[R_a0 := u64 a0]> (h_regs (host_state s)))) (leave_post entered (answered a0 a1 s)).

Lemma kom_svc_exit_eq v s : valid (g_cur_dispatcher_pageno s) ->
  kom_svc_exit v s = exited false KOM_ERR_SUCCESS v s.
Proof.
  intros Hp. unfold kom_svc_exit, answer_host. kstep.
  by erewrite bind_Ret by (by apply leave_secure_world_eq).
Qed.

Lemma kom_handle_trap_eq cause s : valid (g_cur_dispatcher_pageno s) ->
  kom_handle_trap cause s = exited true (if cause <? 0 then KOM_ERR_INTERRUPTED else KOM_ERR_FAULT) cause s.
Proof.
  intros Hp. unfold kom_handle_trap, answer_host. kstep.
  by erewrite bind_Ret by (by apply leave_secure_world_eq).
Qed.
End komodo.
