(* ===== verification/KomodoInv.v ===== *)
(** Komodo: the invariant of the monitor's state, the software below the monitor
    (the host, restricted by the PMP; an enclave, restricted by its page tables
    as well), and the preservation of the invariant by every step. *)

From S2P Require Import Prelude.
From S2P Require Import Console.
From S2P Require Import Machine.
From S2P Require Import Mcall.
From S2P Require Import Komodo.
From S2P Require Import KomodoDb.
From S2P Require Import KomodoCalls.

Section komodo.
Context `{Console} `{Layout}.
Implicit Types s : kom.

(** * Steps of the page database

    The successful calls of the host, as a relation on the database and the
    secure pages; [ins] is the payload's memory. *)
Inductive db_step (ins : pages) (t : db) (m : pages) : db -> pages -> Prop :=
  | step_init a l : 0 <= a -> 0 <= l -> init_addrspace_err t a l = KOM_ERR_SUCCESS ->
      db_step ins t m (<[l := mkEntry KOM_PAGE_L1PTABLE a]> (<[a := mkEntry KOM_PAGE_ADDRSPACE a]> t))
        (<[a := as_words l]> (<[l := fun _ => 0]> m))
  | step_dispatcher page a entrypoint : 0 <= page -> 0 <= a ->
      init_dispatcher_err t m page a = KOM_ERR_SUCCESS ->
      db_step ins t m (<[page := mkEntry KOM_PAGE_DISPATCHER a]> t)
        (alloc_pages page a (disp_words entrypoint (m a AS_l1pt_page)) m)
  | step_table page p i ty ty' : 0 <= page -> 0 <= p -> 0 <= i ->
      (ty, ty') ∈ [(KOM_PAGE_L1PTABLE, KOM_PAGE_L2PTABLE); (KOM_PAGE_L2PTABLE, KOM_PAGE_L3PTABLE)] ->
      table_err t m page p i ty = KOM_ERR_SUCCESS ->
      let m1 := alloc_pages page (own t p) (fun _ => 0) m in
      db_step ins t m (<[page := mkEntry ty' (own t p)]> t)
        (<[p := <[i := pfn_pgd (PFN_DOWN (page_pa page)) _PAGE_TABLE]> (m1 p)]> m1)
  | step_map_secure page p i f c : 0 <= page -> 0 <= p -> 0 <= i -> 0 <= c ->
      map_secure_err t m page p i c = KOM_ERR_SUCCESS ->
      let m1 := alloc_pages page (own t p) (fun _ => 0) m in
      let m2 := <[p := <[i := pfn_pte (PFN_DOWN (page_pa page)) (enclave_prot f)]> (m1 p)]> m1 in
      db_step ins t m (<[page := mkEntry KOM_PAGE_DATA (own t p)]> t) (<[page := ins c]> m2)
  | step_map_insecure p i f n : 0 <= p -> 0 <= i -> 0 <= n -> map_insecure_err t m p i n = KOM_ERR_SUCCESS ->
      db_step ins t m t (<[p := <[i := pfn_pte (PFN_DOWN (insecure_page_paddr n)) (enclave_prot f)]> (m p)]> m)
  | step_remove p : 0 <= p -> typ t p <> KOM_PAGE_FREE -> remove_err t m p = KOM_ERR_SUCCESS ->
      db_step ins t m (<[p := mkEntry KOM_PAGE_FREE (2 ^ 64 - 1)]> t)
        (<[own t p := <[AS_refcount := u64 (m (own t p) AS_refcount - 1)]> (m (own t p))]> m)
  | step_finalise a : 0 <= a -> finalise_err t m a = KOM_ERR_SUCCESS ->
      db_step ins t m t (<[a := <[AS_state := KOM_ADDRSPACE_FINAL]> (m a)]> m)
  | step_stop a : 0 <= a -> stop_err t a = KOM_ERR_SUCCESS ->
      db_step ins t m t (<[a := <[AS_state := KOM_ADDRSPACE_STOPPED]> (m a)]> m).

(** What the error functions check. *)
Lemma first_err_ok e e' : first_err e e' = KOM_ERR_SUCCESS -> e = KOM_ERR_SUCCESS /\ e' = KOM_ERR_SUCCESS.
Proof. unfold first_err. by destruct (Z.eqb_spec e KOM_ERR_SUCCESS). Qed.

Lemma table_err_ok t m page p i ty : 0 <= page -> 0 <= p -> 0 <= i ->
  table_err t m page p i ty = KOM_ERR_SUCCESS ->
  (valid p /\ is_index i /\ typ t p = ty /\ m p i = 0) /\
  valid page /\ typ t page = KOM_PAGE_FREE /\ m (own t p) AS_state = KOM_ADDRSPACE_INIT.
Proof. intros Hg Hp Hi [E1 E2]%first_err_ok. split; [by apply slot_err_ok|by apply alloc_err_ok]. Qed.

Lemma words_zero : words (fun _ => 0).
Proof. done. Qed.

Lemma content_table t a l ty : ty <> KOM_PAGE_DISPATCHER -> content t a l ty (fun _ => 0).
Proof. intros Hty. split_and!; [intros _ i _; by left..|done]. Qed.

Lemma own_insert t page p e : p <> page -> own (<[page := e]> t) p = own t p /\ typ (<[page := e]> t) p = typ t p.
Proof. intros Hne. unfold own, typ. by fn_simpl. Qed.

(** The words of a table after filling slot [i]. *)
Lemma content_slot t a l ty w i x : content t a l ty w ->
  (ty = KOM_PAGE_L1PTABLE -> table_entry t a KOM_PAGE_L2PTABLE x) ->
  (ty = KOM_PAGE_L2PTABLE -> table_entry t a KOM_PAGE_L3PTABLE x) ->
  (ty = KOM_PAGE_L3PTABLE -> leaf_entry t a x) -> ty <> KOM_PAGE_DISPATCHER ->
  content t a l ty (<[i := x]> w).
Proof.
  intros (C1 & C2 & C3 & _) H1 H2 H3 Hd.
  split_and!; [..|done]; intros E j Hj; rewrite fn_insert_spec; case_decide; auto.
Qed.

(** A new page entered in a table of its address space. *)
Lemma db_new_entry t m page p i ty ty' x w : dbinv t m -> 0 <= page -> 0 <= p -> 0 <= i ->
  table_err t m page p i ty = KOM_ERR_SUCCESS ->
  ty <> KOM_PAGE_FREE -> ty <> KOM_PAGE_ADDRSPACE -> ty <> KOM_PAGE_DISPATCHER ->
  KOM_PAGE_DISPATCHER < ty' <= KOM_PAGE_DATA -> uint 64 x -> words w ->
  let a := own t p in
  let t' := <[page := mkEntry ty' a]> t in
  content t' a (m a AS_l1pt_page) ty' w ->
  (ty = KOM_PAGE_L1PTABLE -> table_entry t' a KOM_PAGE_L2PTABLE x) ->
  (ty = KOM_PAGE_L2PTABLE -> table_entry t' a KOM_PAGE_L3PTABLE x) ->
  (ty = KOM_PAGE_L3PTABLE -> leaf_entry t' a x) ->
  let m1 := alloc_pages page a w m in
  dbinv t' (<[p := <[i := x]> (m1 p)]> m1).
Proof.
  intros I Hg Hp Hi ((Hvp & Hix & Htp & _) & Hvg & Hfg & Hst)%table_err_ok Hf Ha Hd Hty' Hx Hw a t' Hc H1 H2 H3 m1; [|done..].
  destruct (db_owner t m I p Hvp) as [Hva Hta]; [by rewrite Htp|]. fold a in Hva, Hta, Hst.
  assert (p <> page) as Hne by (intros ->; congruence).
  assert (dbinv t' m1) as I1.
  { apply db_alloc; try done. unfold KOM_PAGE_DISPATCHER, KOM_PAGE_ADDRSPACE in *. lia. }
  destruct (own_insert t page p (mkEntry ty' a) Hne) as [Eo Et]. fold t' in Eo, Et.
  apply db_set_page; [done|done|by rewrite Et, Htp|apply words_insert; [by apply (db_words _ _ I1)|done]|].
  rewrite Et, Eo, Htp. intros _ Hs. fold a in Hs |- *.
  pose proof (db_content t' m1 I1 p Hvp) as C. rewrite Et, Eo, Htp in C. apply content_slot; auto.
Qed.

Lemma new_table_entry t page a ty : valid page ->
  table_entry (<[page := mkEntry ty a]> t) a ty (pfn_pgd (PFN_DOWN (page_pa page)) _PAGE_TABLE).
Proof. intros Hp. right. exists page. unfold typ, own. by fn_simpl. Qed.

Lemma uint_pgd pfn prot : uint 64 prot -> uint 64 (pfn_pgd pfn prot).
Proof. intros Hp. unfold pfn_pgd. rewrite <- uint_pte by done. by apply uint_wrap. Qed.

Definition words_ok (ins : pages) : Prop := forall n, 0 <= n < KOM_INSECURE_NPAGES -> words (ins n).

Lemma step_dispatcher_inv t m page a e : dbinv t m -> 0 <= page -> 0 <= a ->
  init_dispatcher_err t m page a = KOM_ERR_SUCCESS ->
  dbinv (<[page := mkEntry KOM_PAGE_DISPATCHER a]> t) (alloc_pages page a (disp_words e (m a AS_l1pt_page)) m).
Proof.
  intros I Hp Ha E. unfold init_dispatcher_err in E. destruct (typed t a _) eqn:Ht; [|done].
  apply typed_true in Ht as [Hva Hta]; [|done]. apply alloc_err_ok in E as (Hvp & Hfp & Hst); [|done].
  destruct (db_l1 t m I a Hva Hta) as (Hl & _); [by rewrite Hst|]. cbn zeta in Hl.
  apply db_alloc; try done.
  unfold disp_words. repeat apply words_insert; [done|by apply uint_wrap|by apply uint_disp_satp|done].
Qed.

Lemma step_table_inv t m page p i ty ty' : dbinv t m -> 0 <= page -> 0 <= p -> 0 <= i ->
  (ty, ty') ∈ [(KOM_PAGE_L1PTABLE, KOM_PAGE_L2PTABLE); (KOM_PAGE_L2PTABLE, KOM_PAGE_L3PTABLE)] ->
  table_err t m page p i ty = KOM_ERR_SUCCESS ->
  let m1 := alloc_pages page (own t p) (fun _ => 0) m in
  dbinv (<[page := mkEntry ty' (own t p)]> t)
    (<[p := <[i := pfn_pgd (PFN_DOWN (page_pa page)) _PAGE_TABLE]> (m1 p)]> m1).
Proof.
  intros I Hg Hp Hi Hty E. destruct (table_err_ok t m page p i ty Hg Hp Hi E) as (_ & Hvg & _).
  apply elem_of_cons in Hty as [Hty|Hty%list_elem_of_singleton]; simplify_eq;
    (eapply db_new_entry; [exact I|exact Hg|exact Hp|exact Hi|exact E|done|done|done|done|by apply uint_pgd|done|by apply content_table|..]);
    try done; by intros _; apply new_table_entry.
Qed.

Lemma step_map_secure_inv ins t m page p i f c : words_ok ins -> dbinv t m -> 0 <= page -> 0 <= p -> 0 <= i -> 0 <= c ->
  map_secure_err t m page p i c = KOM_ERR_SUCCESS ->
  let m1 := alloc_pages page (own t p) (fun _ => 0) m in
  let m2 := <[p := <[i := pfn_pte (PFN_DOWN (page_pa page)) (enclave_prot f)]> (m1 p)]> m1 in
  dbinv (<[page := mkEntry KOM_PAGE_DATA (own t p)]> t) (<[page := ins c]> m2).
Proof.
  intros Hins I Hg Hp Hi Hc E m1 m2. unfold map_secure_err in E.
  destruct (PTRS_PER_PTE <=? i); [done|]. destruct (insecure_page_is_valid c) eqn:Hcv; [|done].
  destruct (table_err_ok t m page p i _ Hg Hp Hi E) as (_ & Hvg & _).
  assert (typ (<[page := mkEntry KOM_PAGE_DATA (own t p)]> t) page = KOM_PAGE_DATA) as Ety by (unfold typ; by fn_simpl).
  apply db_set_page; [|done|by rewrite Ety|apply Hins; apply Z.ltb_lt in Hcv; lia|by rewrite Ety].
  apply (db_new_entry t m page p i KOM_PAGE_L3PTABLE KOM_PAGE_DATA); try done; [apply uint_pgd, uint_enclave_prot|].
  intros _. right; left. exists page, f. split_and!; try done. unfold own. by fn_simpl.
Qed.

Lemma step_map_insecure_inv t m p i f n : dbinv t m -> 0 <= p -> 0 <= i -> 0 <= n ->
  map_insecure_err t m p i n = KOM_ERR_SUCCESS ->
  dbinv t (<[p := <[i := pfn_pte (PFN_DOWN (insecure_page_paddr n)) (enclave_prot f)]> (m p)]> m).
Proof.
  intros I Hp Hi Hn E. unfold map_insecure_err in E. destruct (insecure_page_is_valid n) eqn:Hnv; [|done].
  apply first_err_ok in E as [E1 E2]. apply slot_err_ok in E1 as (Hvp & Hix & Htp & _); [|done..].
  apply db_set_page; [done..|by rewrite Htp| |].
  - apply words_insert; [by apply (db_words _ _ I)|apply uint_pgd, uint_enclave_prot].
  - intros Hf Hs. pose proof (db_content t m I p Hvp Hf Hs) as C. rewrite Htp in *. apply content_slot; try done.
    intros _. right; right. exists n, f. split; [|done]. apply Z.ltb_lt in Hnv. lia.
Qed.

Lemma db_step_inv ins t m t' m' : words_ok ins -> dbinv t m -> db_step ins t m t' m' -> dbinv t' m'.
Proof.
  intros Hins I [a l Ha Hl E|page a e Hp Ha E|page p i ty ty' Hg Hp Hi Hty E m1|page p i f c Hg Hp Hi Hc E m1 m2
    |p i f n Hp Hi Hn E|p Hp Hf E|a Ha E|a Ha E].
  - unfold init_addrspace_err in E. destruct (Z.eqb_spec a l); [done|].
    destruct (typed t a KOM_PAGE_FREE) eqn:Ta, (typed t l KOM_PAGE_FREE) eqn:Tl;
      try (destruct (page_is_valid a), (page_is_valid l); done).
    apply typed_true in Ta as [], Tl as []; [|done..]. by apply db_init.
  - by apply step_dispatcher_inv.
  - by eapply step_table_inv.
  - by apply step_map_secure_inv.
  - by apply step_map_insecure_inv.
  - unfold remove_err in E. destruct (page_is_valid p) eqn:Hv; [|done]. apply page_is_valid_true in Hv; [|done].
    cbn [negb] in E. rewrite (proj2 (Z.eqb_neq _ _) Hf) in E.
    destruct (Z.eqb_spec (typ t p) KOM_PAGE_ADDRSPACE) as [Ht|Ht].
    + destruct (Z.eqb_spec (m p AS_refcount) 1); [|done]. apply state_err_ok in E; [|done].
      apply db_release; [done..| |done]. by rewrite (db_self t m I p Hv Ht).
    + apply state_err_ok in E; [|done]. by apply db_release.
  - unfold finalise_err in E. destruct (typed t a _) eqn:Ht; [|done]. apply typed_true in Ht as [Hv Ht]; [|done].
    apply state_err_ok in E; [|done]. apply db_set_state; try done. left. by rewrite E.
  - unfold stop_err in E. destruct (typed t a _) eqn:Ht; [|done]. apply typed_true in Ht as [Hv Ht]; [|done].
    apply db_set_state; try done. by right.
Qed.

(** * The effect of a call of the host *)

Inductive smc_effect (regs : pt_regs) s : outcome kom Z -> Prop :=
  | smc_off : smc_effect regs s (Halt Shutdown)
  | smc_sbi r d : is_sbi (s64 (regs R_a7)) = true -> smc_effect regs s (Ret r (on_dev (fun _ => d) s))
  | smc_same r : smc_effect regs s (Ret r s)
  | smc_db t m : db_step (insecure_pages s) (g_pagedb s) (secure_pages s) t m ->
      smc_effect regs s (Ret KOM_ERR_SUCCESS (with_db t m s))
  | smc_enter : s64 (regs R_a7) = KOM_SMC_ENTER ->
      enter_err (g_pagedb s) (secure_pages s) (regs R_a0) = KOM_ERR_SUCCESS ->
      smc_effect regs s (entered (regs R_a0) (with_args (regs R_a0) (regs R_a1) (regs R_a2) (regs R_a3) s))
  | smc_resume : s64 (regs R_a7) = KOM_SMC_RESUME ->
      resume_err (g_pagedb s) (secure_pages s) (regs R_a0) = KOM_ERR_SUCCESS ->
      smc_effect regs s (entered (regs R_a0) s).

Lemma smc_call_db regs s err t m :
  (err = KOM_ERR_SUCCESS -> db_step (insecure_pages s) (g_pagedb s) (secure_pages s) t m) ->
  smc_effect regs s (call err (with_db t m s) s).
Proof. intros Hs. unfold call. destruct (Z.eqb_spec err KOM_ERR_SUCCESS); [by apply smc_db; auto|apply smc_same]. Qed.

Lemma smc_cases regs s : dbinv (g_pagedb s) (secure_pages s) -> regs_wf regs -> smc_effect regs s (smc_call regs s).
Proof.
  intros I Hr. assert (forall g, 0 <= regs g) as Hn by (intros g; apply Hr). unfold smc_call. cbn zeta.
  destruct (is_sbi _) eqn:Hs.
  { destruct (do_mcall_cases regs s) as [-> |(r & d & ->)]; [apply smc_off|by apply smc_sbi]. }
  repeat case_match; try apply smc_same.
  - rewrite kom_smc_init_addrspace_eq by done. apply smc_call_db. by apply step_init.
  - rewrite kom_smc_init_dispatcher_eq by done. apply smc_call_db. by apply step_dispatcher.
  - rewrite kom_smc_init_l2ptable_eq by done. apply smc_call_db. intros E. by apply (step_table _ _ _ _ _ _ _ _ (Hn _) (Hn _) (Hn _) (list_elem_of_here _ _) E).
  - rewrite kom_smc_init_l3ptable_eq by done. apply smc_call_db. intros E.
    by apply (step_table _ _ _ _ _ _ _ _ (Hn _) (Hn _) (Hn _) (list_elem_of_further _ _ _ (list_elem_of_here _ _)) E).
  - rewrite kom_smc_map_secure_eq by done.
    unfold map_secure_post, table_post. cbn zeta. rewrite with_db_db. apply smc_call_db. by apply step_map_secure.
  - rewrite kom_smc_map_insecure_eq by done. apply smc_call_db. by apply step_map_insecure.
  - rewrite kom_smc_remove_eq by done. unfold remove_post.
    destruct (Z.eqb_spec (typ (g_pagedb s) (regs R_a0)) KOM_PAGE_FREE).
    + unfold call. case_match; apply smc_same.
    + apply smc_call_db. by apply step_remove.
  - rewrite kom_smc_finalise_eq by done. apply smc_call_db. by apply step_finalise.
  - rewrite kom_smc_enter_eq by done. cbn zeta.
    destruct (Z.eqb_spec (enter_err (g_pagedb s) (secure_pages s) (regs R_a0)) KOM_ERR_SUCCESS); [|apply smc_same].
    apply smc_enter; [by apply Z.eqb_eq|done].
  - rewrite kom_smc_resume_eq by done. cbn zeta.
    destruct (Z.eqb_spec (resume_err (g_pagedb s) (secure_pages s) (regs R_a0)) KOM_ERR_SUCCESS); [|apply smc_same].
    apply smc_resume; [by apply Z.eqb_eq|done].
  - rewrite kom_smc_stop_eq by done. apply smc_call_db. by apply step_stop.
Qed.

(** * The invariant *)

Definition insecure_region : region := mkRegion payload_start (payload_start + KOM_INSECURE_RESERVE) PMPCFG_RWX.
Definition secure_region (b : bool) : region :=
  mkRegion secure_base (secure_base + KOM_SECURE_RESERVE) (if b then PMPCFG_RWX else 0).

(** The enclave that runs: its dispatcher, in a final address space, whose root
    table satp names and cannot stop naming. *)
Record running s : Prop := mkRunning {
  run_valid : valid (g_cur_dispatcher_pageno s);
  run_type : typ (g_pagedb s) (g_cur_dispatcher_pageno s) = KOM_PAGE_DISPATCHER;
  run_final : secure_pages s (own (g_pagedb s) (g_cur_dispatcher_pageno s)) AS_state = KOM_ADDRSPACE_FINAL;
  run_satp : csrs (kmach s) CSR_satp =
    disp_satp (secure_pages s (own (g_pagedb s) (g_cur_dispatcher_pageno s)) AS_l1pt_page);
  run_tvm : Z.testbit (csrs (kmach s) CSR_mstatus) TVM_BIT = true
}.

Record inv s : Prop := mkInv {
  inv_db : dbinv (g_pagedb s) (secure_pages s);
  inv_ins : words_ok (insecure_pages s);
  inv_mode : enclave_mode s = true -> running s;
  inv_pmp0 : pmp_pair (csrs (kmach s)) 0 None;
  inv_pmp1 : pmp_pair (csrs (kmach s)) 1 (Some insecure_region);
  inv_pmp2 : pmp_pair (csrs (kmach s)) 2 (Some (secure_region (enclave_mode s)));
  inv_pmp3 : pmp_pair (csrs (kmach s)) 3 None;
  inv_csrs : csrs_wf (csrs (kmach s))
}.

(** ** The CSRs of the two worlds *)

Lemma kom_csrs_m_only c : c ∈ m_only -> c <> CSR_mcounteren -> c ∉ (csr_home <$> kom_csrs).
Proof. intros Hc Hn. destruct c; first [done | in_csrs | by exfalso; revert Hc; in_csrs]. Qed.

Ltac world_pair := unfold world_csrs, tvm_put; cbn zeta; do 3 (apply csr_put_pair; [done|in_csrs|]).

Lemma world_csrs_pair b v f k o : k <> 2%nat -> pmp_pair f k o -> pmp_pair (world_csrs b v f) k o.
Proof.
  intros Hk Hp. world_pair. apply chmod_put_other; [lia|by destruct b|done|].
  by apply csrs_put_pair; [apply kom_csrs_m_only|].
Qed.

Lemma world_csrs_secure b b' v f : pmp_pair f 2 (Some (secure_region b')) ->
  pmp_pair (world_csrs b v f) 2 (Some (secure_region b)).
Proof.
  intros Hp. world_pair. apply (chmod_put_keep 2 _ _ (secure_region b')); [lia|by destruct b|].
  by apply csrs_put_pair; [apply kom_csrs_m_only|].
Qed.

Lemma world_csrs_wf b v f : csrs_wf f -> csrs_wf (world_csrs b v f).
Proof. intros Hf. unfold world_csrs, tvm_put. cbn zeta. do 3 apply csr_put_wf. by apply chmod_put_wf, csrs_put_wf. Qed.

(** A register of csrs.h other than sstatus reads as it was saved. *)
Lemma world_csrs_get b v f c : csr_home c <> CSR_mstatus -> c ∈ kom_csrs ->
  csr_get (world_csrs b v f) c = csr_get (csrs_put kom_csrs v f) c.
Proof.
  intros Hm Hc. assert (csr_home c <> CSR_pmpcfg0 /\ csr_home c <> CSR_mideleg /\ csr_home c <> CSR_medeleg) as (H1 & H2 & H3).
  { split_and!; destruct c; first [done | by exfalso; revert Hc; in_csrs]. }
  unfold world_csrs, tvm_put. cbn zeta. rewrite !csr_get_put_other by (cbn [csr_home]; congruence).
  apply csr_get_ext. by apply chmod_put_other_csr.
Qed.

Lemma world_csrs_satp b v f : world_csrs b v f CSR_satp = u64 (v CSR_satp).
Proof.
  change (csr_get (world_csrs b v f) CSR_satp = u64 (v CSR_satp)). rewrite world_csrs_get by (done || in_csrs).
  cbn [csr_get]. apply csrs_put_plain; [in_csrs|in_csrs|done].
Qed.

Lemma world_csrs_mstatus b v f :
  Z.testbit (world_csrs b v f CSR_mstatus) TVM_BIT = b.
Proof.
  unfold world_csrs. cbn zeta. rewrite !csr_put_other by done. unfold tvm_put, csr_put. fn_simpl.
  cbn [csr_get]. unfold wrap. rewrite Z.mod_pow2_bits_low by done.
  destruct b; [by rewrite Z.lor_spec, orb_true_r|]. by rewrite Z.ldiff_spec, andb_false_r.
Qed.

(** ** Field groups *)

Lemma put_fields_words {A} base (l : list A) v w : (forall a, uint 64 (v a)) -> words w -> words (put_fields base l v w).
Proof.
  intros Hv Hw i Hi. unfold put_fields. destruct (base <=? i); [|by apply Hw].
  destruct (l !! _); [apply Hv|by apply Hw].
Qed.

Lemma leave_words_ok b (k : machine) w : regs_wf (frame k) -> csrs_wf (csrs k) -> words w -> words (leave_words b k w).
Proof.
  intros Hr Hc Hw. unfold leave_words. cbn zeta.
  assert (words (<[DISP_entered := Z.b2z b]> w)) as H1 by (apply words_insert; [done|by destruct b]).
  assert (words (put_disp_regs (copy_pt_regs (disp_regs (<[DISP_entered := Z.b2z b]> w)) (frame k))
    (<[DISP_entered := Z.b2z b]> w))) as H2.
  { apply put_fields_words; [|done]. intros g. rewrite copy_pt_regs_eq. apply Hr. }
  set (w2 := put_disp_regs _ _) in *. clearbody w2. intros i Hi. unfold put_disp_csr, put_fields.
  destruct (DISP_csrs <=? i); [|by apply H2]. destruct (kom_csrs !! _) as [c|] eqn:Ec; [|by apply H2].
  cbn [from_option]. rewrite csrs_save_spec. rewrite decide_True by (by eapply list_elem_of_lookup_2).
  by apply csr_get_wf.
Qed.

Lemma leave_words_satp b (k : machine) w : disp_csr (leave_words b k w) CSR_satp = csrs k CSR_satp.
Proof.
  unfold leave_words. cbn zeta. set (w2 := put_disp_regs _ _).
  transitivity (csrs_save kom_csrs (csrs k) (disp_csr w2) CSR_satp); [reflexivity|by rewrite csrs_save_spec].
Qed.

(** ** Preservation *)

Ltac kproj := cbn [g_pagedb secure_pages insecure_pages host_state enclave_mode g_cur_dispatcher_pageno kmach
  with_db with_mach answered get_mach set_mach kom_machine frame csrs dev] in *.

Lemma db_only_inv s t m : inv s -> enclave_mode s = false -> dbinv t m -> inv (with_db t m s).
Proof.
  intros I Hm Hd. split; kproj; [done|apply (inv_ins s I)|congruence|apply (inv_pmp0 s I)|apply (inv_pmp1 s I)
    |apply (inv_pmp2 s I)|apply (inv_pmp3 s I)|apply (inv_csrs s I)].
Qed.

(** Changes of the machine that keep what the invariant says of it. *)
Lemma mach_inv s k : inv s -> csrs_wf (csrs k) ->
  csrs k CSR_pmpcfg0 = csrs (kmach s) CSR_pmpcfg0 ->
  (forall c, c ∈ pmpaddr_csrs -> csrs k c = csrs (kmach s) c) ->
  (enclave_mode s = true -> csrs k CSR_satp = csrs (kmach s) CSR_satp /\
     Z.testbit (csrs k CSR_mstatus) TVM_BIT = Z.testbit (csrs (kmach s) CSR_mstatus) TVM_BIT) ->
  inv (set_mach k s).
Proof.
  intros I Hw E0 Ea Es. split; kproj; [apply (inv_db s I)|apply (inv_ins s I)| | | | | |done].
  - intros Hm. destruct (inv_mode s I Hm) as [R1 R2 R3 R4 R5], (Es Hm) as [Es1 Es2].
    split; kproj; try done; congruence.
  - by eapply pmp_pair_agree, (inv_pmp0 s I).
  - by eapply pmp_pair_agree, (inv_pmp1 s I).
  - by eapply pmp_pair_agree, (inv_pmp2 s I).
  - by eapply pmp_pair_agree, (inv_pmp3 s I).
Qed.

Lemma k_mepc_inv s v : inv s -> inv (on_csrs (fun f => csr_put f CSR_mepc v) s).
Proof.
  intros I. apply mach_inv; kproj; [done|by apply csr_put_wf, (inv_csrs s I)|by rewrite csr_put_other| |].
  - intros c Hc. apply csr_put_other. intros ->. by revert Hc; apply (bool_decide_unpack _); vm_compute.
  - intros _. by rewrite !csr_put_other.
Qed.

Lemma k_frame_inv s f : inv s -> inv (on_frame f s).
Proof. intros I. by apply mach_inv; [|apply (inv_csrs s I)|..]. Qed.

Lemma k_dev_inv s f : inv s -> inv (on_dev f s).
Proof. intros I. by apply mach_inv; [|apply (inv_csrs s I)|..]. Qed.

Lemma arg_words_satp a0 a1 a2 w : disp_csr (arg_words a0 a1 a2 w) CSR_satp = disp_csr w CSR_satp.
Proof. reflexivity. Qed.

Lemma arg_words_ok a0 a1 a2 w : words w -> words (arg_words a0 a1 a2 w).
Proof. intros Hw. unfold arg_words. repeat (apply words_insert; [|by apply uint_wrap]). done. Qed.

(** Writing a dispatcher: satp's field must keep its value. *)
Lemma db_set_disp t m p w : dbinv t m -> valid p -> typ t p = KOM_PAGE_DISPATCHER -> words w ->
  (m (own t p) AS_state <> KOM_ADDRSPACE_STOPPED -> disp_csr w CSR_satp = disp_satp (m (own t p) AS_l1pt_page)) ->
  dbinv t (<[p := w]> m).
Proof.
  intros I Hp Ht Hw Hs. apply db_set_page; [done..|by rewrite Ht|done|]. intros _ Hst. rewrite Ht. split_and!; try done.
  intros _. by apply Hs.
Qed.

Lemma disp_satp_inv t m p : dbinv t m -> valid p -> typ t p = KOM_PAGE_DISPATCHER ->
  m (own t p) AS_state <> KOM_ADDRSPACE_STOPPED -> disp_csr (m p) CSR_satp = disp_satp (m (own t p) AS_l1pt_page).
Proof.
  intros I Hp Ht Hs. pose proof (db_content t m I p Hp) as C. rewrite Ht in C. by apply C.
Qed.

Lemma args_inv s p a0 a1 a2 : inv s -> enclave_mode s = false -> valid p ->
  typ (g_pagedb s) p = KOM_PAGE_DISPATCHER -> inv (with_args p a0 a1 a2 s).
Proof.
  intros I Hm Hp Ht. apply db_only_inv; [done..|]. pose proof (inv_db s I) as D.
  apply db_set_disp; try done; [by apply arg_words_ok, (db_words _ _ D)|].
  rewrite arg_words_satp. by apply disp_satp_inv.
Qed.

Lemma enter_inv s p : inv s -> valid p -> typ (g_pagedb s) p = KOM_PAGE_DISPATCHER ->
  secure_pages s (own (g_pagedb s) p) AS_state = KOM_ADDRSPACE_FINAL -> inv (enter_post p s).
Proof.
  intros I Hp Ht Hf. pose proof (inv_db s I) as D. unfold enter_post. cbn zeta. split; kproj.
  - done.
  - apply (inv_ins s I).
  - intros _. split; kproj; try done; [|apply world_csrs_mstatus]. rewrite world_csrs_satp.
    rewrite (disp_satp_inv _ _ p D) by (done || by rewrite Hf). apply wrap_small, uint_disp_satp.
    destruct (db_owner _ _ D p Hp) as [Hva Hta]; [by rewrite Ht|].
    destruct (db_l1 _ _ D _ Hva Hta) as [Hl _]; [by rewrite Hf|]. done.
  - by apply world_csrs_pair, (inv_pmp0 s I).
  - by apply world_csrs_pair, (inv_pmp1 s I).
  - eapply world_csrs_secure, (inv_pmp2 s I).
  - by apply world_csrs_pair, (inv_pmp3 s I).
  - apply world_csrs_wf, (inv_csrs s I).
Qed.

Lemma leave_inv s b x y : inv s -> enclave_mode s = true -> regs_wf (frame (kmach s)) ->
  inv (leave_post b (answered x y s)).
Proof.
  intros I Hm Hr. pose proof (inv_db s I) as D. destruct (inv_mode s I Hm) as [R1 R2 R3 R4 R5].
  unfold leave_post. cbn zeta. split; kproj.
  - apply db_set_disp; [done|done|done| |].
    + apply leave_words_ok; [done|apply (inv_csrs s I)|by apply (db_words _ _ D)].
    + intros _. by rewrite leave_words_satp, R4.
  - apply (inv_ins s I).
  - done.
  - by apply world_csrs_pair, (inv_pmp0 s I).
  - by apply world_csrs_pair, (inv_pmp1 s I).
  - eapply world_csrs_secure, (inv_pmp2 s I).
  - by apply world_csrs_pair, (inv_pmp3 s I).
  - apply world_csrs_wf, (inv_csrs s I).
Qed.
End komodo.
