(* ===== verification/KomodoSafety.v ===== *)
(** Komodo: the software below the monitor, reachable states, and the safety
    theorems: no trap stops the monitor, the host cannot touch secure memory, an
    enclave is confined to its own data pages and the payload. *)

From S2P Require Import Prelude.
From S2P Require Import Console.
From S2P Require Import Machine.
From S2P Require Import Mcall.
From S2P Require Import Sv39.
From S2P Require Import Komodo.
From S2P Require Import KomodoDb.
From S2P Require Import KomodoCalls.
From S2P Require Import KomodoInv.

Section komodo.
Context `{Console} `{Layout}.
Implicit Types s : kom.

(** * Traps *)

Definition past_ecall s : kom :=
  on_csrs (fun f => csr_put f CSR_mepc (csr_get (csrs (kmach s)) CSR_mepc + 4)) s.

(** The hardware side of a trap: registers are 64-bit words, and an S-mode ecall
    comes from S-mode. *)
Definition trap_pre s (cause : Z) : Prop :=
  regs_wf (frame (kmach s)) /\
  (cause = EXC_ECALL_S -> csr_get (csrs (kmach s)) CSR_mstatus .& SR_MPP = SR_MPP_S).

Lemma kom_trap_ecall_eq s : trap_pre s EXC_ECALL_S ->
  trap EXC_ECALL_S s =
  if enclave_mode s then do_svc_calls (frame (kmach s)) s else do_smc_calls (frame (kmach s)) s.
Proof.
  intros [_ E]. unfold trap, do_trap. erewrite bind_Ret by (apply gets_eq).
  change (EXC_ECALL_S =? EXC_ECALL_S) with true. cbn iota. unfold do_trap_ecall_s.
  erewrite bind_Ret by (apply gets_eq). cbn [get_mach kom_machine]. rewrite E by done.
  do 2 (erewrite bind_Ret by reflexivity). by erewrite bind_Ret by (apply gets_eq); destruct (enclave_mode s).
Qed.

Lemma trap_host s : trap_pre s EXC_ECALL_S -> enclave_mode s = false ->
  trap EXC_ECALL_S s =
  match smc_call (frame (kmach s)) (past_ecall s) with
  | Ret r s' => Ret tt (on_frame (<[R_a0 := u64 r]>) s')
  | Mret r s' => Mret r s'
  | Halt h => Halt h
  end.
Proof. intros Hp Hm. by rewrite kom_trap_ecall_eq, Hm. Qed.

Lemma trap_enclave s : trap_pre s EXC_ECALL_S -> enclave_mode s = true -> valid (g_cur_dispatcher_pageno s) ->
  trap EXC_ECALL_S s =
  if s64 (frame (kmach s) R_a7) =? KOM_SVC_EXIT
  then exited false KOM_ERR_SUCCESS (s64 (frame (kmach s) R_a0)) (past_ecall s)
  else Ret tt (on_frame (<[R_a0 := u64 (- ENOSYS)]>) (past_ecall s)).
Proof.
  intros Hp Hm Hv. rewrite kom_trap_ecall_eq, Hm by done. unfold do_svc_calls.
  erewrite bind_Ret by (apply gets_eq). erewrite bind_Ret by (apply modify_eq).
  change (on_csrs _ s) with (past_ecall s). destruct (_ =? KOM_SVC_EXIT); [|done].
  unfold mbind, M_bind. by rewrite kom_svc_exit_eq.
Qed.

Lemma trap_other s cause : cause <> EXC_ECALL_S -> (enclave_mode s = true -> valid (g_cur_dispatcher_pageno s)) ->
  trap cause s =
  if enclave_mode s
  then exited true (if s64 cause <? 0 then KOM_ERR_INTERRUPTED else KOM_ERR_FAULT) (s64 cause) s
  else Ret tt s.
Proof.
  intros Hc Hv. unfold trap, do_trap. erewrite bind_Ret by (apply gets_eq).
  rewrite (proj2 (Z.eqb_neq _ _) Hc). erewrite bind_Ret by (apply gets_eq).
  destruct (enclave_mode s) eqn:Hm; [|done]. unfold mbind, M_bind. by rewrite kom_handle_trap_eq by auto.
Qed.

(** The trap comes back to the world it came from, or switches. *)
Inductive trap_to s (cause : Z) : kom -> Prop :=
  | to_caller s' : trap cause s = Ret tt s' -> trap_to s cause s'
  | to_other r s' : trap cause s = Mret r s' -> trap_to s cause s'.

Lemma kom_past_ecall_inv s : inv s -> inv (past_ecall s).
Proof. apply k_mepc_inv. Qed.

Lemma entry_ok s p : 0 <= p -> entry_err (g_pagedb s) (secure_pages s) p = KOM_ERR_SUCCESS ->
  inv s -> inv (enter_post p s).
Proof. intros Hp E I. apply entry_err_ok in E as (? & ? & ?); [|done]. by apply enter_inv. Qed.

(** A call of the host keeps the invariant; only the power switch stops it. *)
Lemma smc_effect_inv regs s o : inv s -> enclave_mode s = false -> 0 <= regs R_a0 -> smc_effect regs s o ->
  match o with Ret _ s' | Mret _ s' => inv s' | Halt h => h = Shutdown end.
Proof.
  intros I Hm Hn [|r d _|r|t m D|_ E|_ E]; [done|by apply k_dev_inv|done|..].
  - apply db_only_inv; [done..|]. eapply db_step_inv; [apply (inv_ins s I)|apply (inv_db s I)|exact D].
  - apply first_err_ok in E as [E _]. pose proof E as (Hv & Ht & Hs)%entry_err_ok; [|done].
    apply enter_inv; [by apply args_inv|done|done|]. cbn [with_args with_db secure_pages g_pagedb].
    rewrite fn_lookup_insert_ne; [done|].
    apply not_eq_sym, (own_not_self _ _ _ (inv_db s I)); [done|by rewrite Ht..].
  - apply first_err_ok in E as [E _]. by apply entry_ok.
Qed.

Lemma k_trap_cases s cause : inv s -> trap_pre s cause ->
  trap cause s = Halt Shutdown \/ exists s', trap_to s cause s' /\ inv s'.
Proof.
  intros I Hp. destruct (decide (cause = EXC_ECALL_S)) as [->|Hc].
  - pose proof (kom_past_ecall_inv s I) as I1. destruct (enclave_mode s) eqn:Hm.
    + pose proof (run_valid s (inv_mode s I Hm)) as Hv. pose proof (trap_enclave s Hp Hm Hv) as E.
      right. destruct (_ =? KOM_SVC_EXIT); eexists.
      * split; [eapply to_other; exact E|]. by apply leave_inv; [| |apply Hp].
      * split; [apply to_caller; exact E|]. by apply k_frame_inv.
    + pose proof (trap_host s Hp Hm) as E.
      pose proof (smc_effect_inv _ _ _ I1 Hm (proj1 (proj1 Hp R_a0)) (smc_cases _ _ (inv_db _ I1) (proj1 Hp))) as C.
      destruct (smc_call _ _) as [r s'|r s'|h]; [right..|left; congruence]; eexists.
      * split; [apply to_caller; exact E|]. by apply k_frame_inv.
      * split; [eapply to_other; exact E|done].
  - pose proof (trap_other s cause Hc (fun Hm => run_valid s (inv_mode s I Hm))) as E. right.
    destruct (enclave_mode s) eqn:Hm; eexists.
    + split; [eapply to_other; exact E|]. by apply leave_inv; [| |apply Hp].
    + split; [apply to_caller; exact E|done].
Qed.

(** * Physical memory as the hart sees it *)

Definition in_secure (pa : Z) : bool := (secure_base <=? pa) && (pa <? secure_base + KOM_SECURE_RESERVE).
Definition in_insecure (pa : Z) : bool := (payload_start <=? pa) && (pa <? payload_start + KOM_INSECURE_RESERVE).

(** Page and word of the byte at offset [x] of an array of pages. *)
Definition page_of (x : Z) : Z := x / KOM_PAGE_SIZE.
Definition word_of (x : Z) : Z := (x mod KOM_PAGE_SIZE) / 8.

(** Reading a word; other memory is out of reach of the software below. *)
Definition phys_read s (pa : Z) : option Z :=
  if in_secure pa then Some (secure_pages s (page_of (pa - secure_base)) (word_of (pa - secure_base)))
  else if in_insecure pa then Some (insecure_pages s (page_of (pa - payload_start)) (word_of (pa - payload_start)))
  else None.

(** A store that changes the word at [pa] to [v]. *)
Definition put_word (x v : Z) (m : pages) : pages := <[page_of x := <[word_of x := v]> (m (page_of x))]> m.

Definition phys_store s (pa v : Z) : kom :=
  if in_secure pa then with_db (g_pagedb s) (put_word (pa - secure_base) v (secure_pages s)) s
  else if in_insecure pa then
    mkKom (g_pagedb s) (secure_pages s) (put_word (pa - payload_start) v (insecure_pages s)) (host_state s)
      (enclave_mode s) (g_cur_dispatcher_pageno s) (kmach s)
  else s.

(** A store needs the permission of the PMP; and while satp cannot be written, a
    translation to the address through a writable entry. *)
Definition can_write s (pa : Z) : Prop :=
  pmp_writable (csrs (kmach s)) pa /\
  (Z.testbit (csrs (kmach s) CSR_mstatus) TVM_BIT = true ->
   exists va pte, translate (phys_read s) (csrs (kmach s) CSR_satp) va = Some (pa, pte) /\ pte_w pte = true).

(** One step of the software below the monitor: it changes its registers and
    CSRs, or stores one word. *)
Inductive user_step s : kom -> Prop :=
  | user_cpu regs f : regs_wf regs -> lower_csrs (csrs (kmach s)) f ->
      user_step s (set_mach (mkMachine regs f (dev (kmach s))) s)
  | user_store pa v : 0 <= pa < 2 ^ 56 -> can_write s pa -> uint 64 v -> user_step s (phys_store s pa v).

Definition user : relation kom := rtc user_step.

(** ** Confinement of the page tables *)

Definition cur_as s : Z := own (g_pagedb s) (g_cur_dispatcher_pageno s).

Definition own_data s (pa : Z) : Prop :=
  exists q, valid q /\ typ (g_pagedb s) q = KOM_PAGE_DATA /\ own (g_pagedb s) q = cur_as s /\
    page_pa q <= pa < page_pa q + KOM_PAGE_SIZE.

Lemma page_offset q x : 0 <= x < KOM_PAGE_SIZE -> page_of (page_pa q + x - secure_base) = q.
Proof.
  intros Hx. unfold page_of, page_pa, KOM_PAGE_SIZE in *.
  replace (_ + _ + x - secure_base) with (q * 0x1000 + x) by lia. rewrite Z.div_add_l, Z.div_small by lia. lia.
Qed.

Lemma in_secure_page q x : valid q -> 0 <= x < KOM_PAGE_SIZE -> in_secure (page_pa q + x) = true.
Proof.
  intros Hq Hx. unfold in_secure, page_pa. komlia.
Qed.

Lemma read_page s q i : valid q -> is_index i -> phys_read s (page_pa q + 8 * i) = Some (secure_pages s q i).
Proof.
  intros Hq Hi. assert (0 <= 8 * i < KOM_PAGE_SIZE) as Hx by komlia.
  unfold phys_read. rewrite in_secure_page by done. rewrite page_offset by done. unfold word_of, page_pa.
  replace (_ + _ - secure_base) with (8 * i + q * KOM_PAGE_SIZE) by lia.
  rewrite Z.mod_add, Z.mod_small by done. by rewrite Z.mul_comm, Z.div_mul.
Qed.

Lemma page_pa_aligned q : page_pa q mod 4096 = 0.
Proof. unfold page_pa. rewrite Z.mod_add by done. apply secure_aligned. Qed.

Lemma enclave_prot_range f : 0 <= enclave_prot f < 2 ^ 10.
Proof.
  unfold enclave_prot. apply uint_lor; [done| |done].
  rewrite (Z.land_comm f). apply uint_bits; [done|]. split; [by apply Z.land_nonneg; left|].
  intros n Hn. rewrite Z.land_spec. by rewrite (testbit_uint 10 KOM_MAPPING_RWX).
Qed.

Lemma satp_mode l : valid l -> disp_satp l ≫ 60 = 8.
Proof.
  intros Hl%page_pa_range%pfn_range. unfold disp_satp. rewrite Z.shiftr_lor, (Z.shiftr_div_pow2 (PFN_DOWN _)) by lia.
  by rewrite Z.div_small by lia.
Qed.

Lemma satp_root l : valid l -> (disp_satp l .& Z.ones 44) ≪ 12 = page_pa l.
Proof.
  intros Hl%page_pa_range%pfn_range. unfold disp_satp. rewrite Z.land_lor_distr_l.
  rewrite (Z.land_ones (PFN_DOWN _)), Z.mod_small by lia. change (SATP_MODE_SV39 .& Z.ones 44) with 0.
  rewrite Z.lor_0_l. apply shiftr_shiftl_aligned; [done|apply page_pa_aligned].
Qed.

Lemma insecure_aligned n : insecure_page_paddr n mod 4096 = 0.
Proof. unfold insecure_page_paddr. rewrite Z.mod_add by done. apply payload_aligned. Qed.

Lemma vpn_index va lvl : is_index (vpn va lvl).
Proof. pose proof (vpn_range va lvl). komlia. Qed.

(** The walk from a table of an address space that is not stopped. *)
Lemma walk_l3 s p va pa pte : dbinv (g_pagedb s) (secure_pages s) -> valid p ->
  typ (g_pagedb s) p = KOM_PAGE_L3PTABLE ->
  secure_pages s (own (g_pagedb s) p) AS_state <> KOM_ADDRSPACE_STOPPED ->
  sv39_walk (phys_read s) 0 (page_pa p) va = Some (pa, pte) ->
  in_insecure pa = true \/
  exists q, valid q /\ typ (g_pagedb s) q = KOM_PAGE_DATA /\ own (g_pagedb s) q = own (g_pagedb s) p /\
    page_pa q <= pa < page_pa q + KOM_PAGE_SIZE.
Proof.
  intros D Hp Ht Hs Hw. pose proof (read_page s p (vpn va 0) Hp (vpn_index va 0)) as R.
  destruct (db_content _ _ D p Hp) as (_ & _ & C & _); [by rewrite Ht|done|].
  destruct (C Ht (vpn va 0) (vpn_index va 0)) as [E|[(q & f & Hq & Hqt & Hqo & E)|(n & f & Hn & E)]]; rewrite E in R.
  - by rewrite (walk_empty _ _ _ _ R) in Hw.
  - right. exists q. split_and!; try done;
      apply (walk_leaf _ _ _ _ _ _ _ (page_pa_aligned q) (page_pa_range q Hq) (enclave_prot_range f) R Hw).
  - left. pose proof secure_range. pose proof payload_range.
    assert (0 <= insecure_page_paddr n < 2 ^ 56) as Hr by (unfold insecure_page_paddr; komlia).
    pose proof (walk_leaf _ _ _ _ _ _ _ (insecure_aligned n) Hr (enclave_prot_range f) R Hw).
    unfold in_insecure, insecure_page_paddr in *. komlia.
Qed.

Lemma walk_upper s p ty ty' lvl va pa pte : dbinv (g_pagedb s) (secure_pages s) -> valid p ->
  (ty, ty') ∈ [(KOM_PAGE_L1PTABLE, KOM_PAGE_L2PTABLE); (KOM_PAGE_L2PTABLE, KOM_PAGE_L3PTABLE)] ->
  typ (g_pagedb s) p = ty -> secure_pages s (own (g_pagedb s) p) AS_state <> KOM_ADDRSPACE_STOPPED ->
  sv39_walk (phys_read s) (S lvl) (page_pa p) va = Some (pa, pte) ->
  exists q, valid q /\ typ (g_pagedb s) q = ty' /\ own (g_pagedb s) q = own (g_pagedb s) p /\
    sv39_walk (phys_read s) lvl (page_pa q) va = Some (pa, pte).
Proof.
  intros D Hp Hty Ht Hs Hw. set (i := vpn va (S lvl)).
  pose proof (read_page s p i Hp (vpn_index va (S lvl))) as R.
  assert (table_entry (g_pagedb s) (own (g_pagedb s) p) ty' (secure_pages s p i)) as [E|(q & Hq & Hqt & Hqo & E)].
  { clear R. revert Ht. apply elem_of_cons in Hty as [[= -> ->]|[= -> ->]%list_elem_of_singleton]; intros Ht;
      (destruct (db_content _ _ D p Hp) as (C1 & C2 & _); [by rewrite Ht|done|]);
      first [exact (C1 Ht i (vpn_index va (S lvl))) | exact (C2 Ht i (vpn_index va (S lvl)))]. }
  - rewrite E in R. by rewrite (walk_empty _ _ _ _ R) in Hw.
  - rewrite E in R. exists q. split_and!; [done..|].
    by rewrite (walk_table _ _ _ _ _ (page_pa_aligned q) (page_pa_range q Hq) R) in Hw.
Qed.

(** Everything the running enclave can name is its own or the payload's. *)
Lemma enclave_confined s va pa pte : inv s -> enclave_mode s = true ->
  translate (phys_read s) (csrs (kmach s) CSR_satp) va = Some (pa, pte) -> in_insecure pa = true \/ own_data s pa.
Proof.
  intros I Hm Ht. pose proof (inv_db s I) as D. destruct (inv_mode s I Hm) as [Rv Rt Rf Rs _].
  destruct (db_owner _ _ D _ Rv) as [Hva Hta]; [by rewrite Rt|]. set (a := own _ _) in *.
  assert (secure_pages s a AS_state <> KOM_ADDRSPACE_STOPPED) as Hns by (by rewrite Rf).
  destruct (db_l1 _ _ D a Hva Hta Hns) as (Hl & Hlt & Hlo). cbn zeta in *. set (l := secure_pages s a AS_l1pt_page) in *.
  unfold translate in Ht. rewrite Rs, satp_mode, satp_root in Ht by done. cbn [Z.eqb Pos.eqb] in Ht.
  destruct (canonical va); [|done].
  destruct (walk_upper s l _ _ 1 va pa pte D Hl (list_elem_of_here _ _) Hlt) as (q2 & Hq2 & Ht2 & Ho2 & Hw2);
    [by rewrite Hlo|done|].
  destruct (walk_upper s q2 _ _ 0 va pa pte D Hq2 (list_elem_of_further _ _ _ (list_elem_of_here _ _)) Ht2) as (q3 & Hq3 & Ht3 & Ho3 & Hw3);
    [by rewrite Ho2, Hlo|done|].
  destruct (walk_l3 s q3 va pa pte D Hq3 Ht3) as [?|(q & ? & ? & Hqo & ?)]; [by rewrite Ho3, Ho2, Hlo|done|by left|right].
  exists q. split_and!; try done; [|lia..]. by rewrite Hqo, Ho3, Ho2, Hlo.
Qed.

(** * The PMP *)

Lemma k_privs s a : inv s -> 0 <= a < 2 ^ 64 - 1 ->
  pmp_privs (csrs (kmach s)) a 1 = Some (
    if in_insecure a || (enclave_mode s && in_secure a) then PMPCFG_RWX else 0).
Proof.
  intros I Ha.
  rewrite (pmp_privs_regions a 1 ltac:(lia) ltac:(lia) ltac:(lia) _ _ _ _ _
    (inv_pmp0 s I) (inv_pmp1 s I) (inv_pmp2 s I) (inv_pmp3 s I)).
  cbn [regions_privs]. rewrite !byte_contains, !byte_overlaps. cbn [r_lo r_hi r_perm insecure_region secure_region].
  fold (in_insecure a). fold (in_secure a). by destruct (in_insecure a), (in_secure a), (enclave_mode s).
Qed.

Lemma areas_disjoint a : in_secure a = true -> in_insecure a = false.
Proof. unfold in_secure, in_insecure. pose proof secure_range. komlia. Qed.

Lemma tvm_kept f f' : lower_csrs f f' ->
  Z.testbit (f' CSR_mstatus) TVM_BIT = Z.testbit (f CSR_mstatus) TVM_BIT.
Proof.
  intros [_ _ E _]. apply (f_equal (fun x => Z.testbit x TVM_BIT)) in E. rewrite !Z.ldiff_spec in E.
  change (Z.testbit (sstatus_mask .| trap_mask) TVM_BIT) with false in E. by rewrite !andb_true_r in E.
Qed.

Lemma word_index x : is_index (word_of x).
Proof.
  pose proof (Z.mod_pos_bound x KOM_PAGE_SIZE ltac:(done)) as B. unfold word_of, is_index, KOM_PAGE_SIZE in *.
  split; [apply Z.div_pos; lia|apply Z.div_lt_upper_bound; [done|]]. change (0x1000 / 8) with 512. lia.
Qed.

(** Where a store goes: the payload, or a data page of the running enclave. *)
Lemma store_target s pa : inv s -> 0 <= pa < 2 ^ 56 -> can_write s pa ->
  in_insecure pa = true \/ enclave_mode s = true /\ own_data s pa.
Proof.
  intros I Hr [(pr & Hp & Hw) Ht]. rewrite (k_privs s pa I) in Hp by lia. injection Hp as <-.
  destruct (in_insecure pa) eqn:Ei; [by left|]. destruct (enclave_mode s) eqn:Hm; [|done].
  destruct Ht as (va & pte & Ht & _); [apply (run_tvm s (inv_mode s I Hm))|].
  apply enclave_confined in Ht as [?|?]; [congruence|by right|done..].
Qed.

Lemma own_data_page s pa : own_data s pa -> in_secure pa = true /\
  let q := page_of (pa - secure_base) in
  valid q /\ typ (g_pagedb s) q = KOM_PAGE_DATA /\ own (g_pagedb s) q = cur_as s.
Proof.
  intros (q & Hq & Ht & Ho & Hr). assert (0 <= pa - page_pa q < KOM_PAGE_SIZE) as Hx by lia.
  pose proof (page_offset q _ Hx) as E. pose proof (in_secure_page q _ Hq Hx) as Es.
  replace (page_pa q + (pa - page_pa q)) with pa in * by lia. cbn zeta. by rewrite E.
Qed.

Lemma put_word_words m x v p : words (m p) -> uint 64 v -> words (put_word x v m p).
Proof.
  intros Hw Hv. unfold put_word. destruct (decide (p = page_of x)) as [->|]; fn_simpl; [by apply words_insert|done].
Qed.

Lemma user_step_inv s s' : inv s -> user_step s s' -> inv s'.
Proof.
  intros I [regs f Hr Hl|pa v Hpa Hc Hv].
  - pose proof (lower_m_only _ _ Hl) as Em. apply mach_inv; [done|apply (lower_wf _ _ Hl)|by apply Em; in_csrs| |].
    + intros c Hc. apply Em, elem_of_app. by right.
    + intros Hm. split; [|by apply tvm_kept]. apply (lower_satp _ _ Hl), (run_tvm s (inv_mode s I Hm)).
  - unfold phys_store. destruct (store_target s pa I Hpa Hc) as [Ei|[Hm Ho]].
    + destruct (in_secure pa) eqn:Es; [by rewrite areas_disjoint in Ei|]. rewrite Ei.
      pose proof (inv_ins s I) as Hi. pose proof (inv_mode s I) as Hrun. destruct I. split; try done.
      * intros n Hn. by apply put_word_words; [apply Hi|].
      * intros Hm. by destruct (Hrun Hm).
    + destruct (own_data_page s pa Ho) as (-> & Hq & Ht & Hown). cbn zeta in *. pose proof (inv_db s I) as D.
      set (q := page_of (pa - secure_base)) in *.
      assert (dbinv (g_pagedb s) (put_word (pa - secure_base) v (secure_pages s))) as D'.
      { unfold put_word. fold q. apply db_set_page; [done|done|by rewrite Ht|apply words_insert; [by apply (db_words _ _ D)|done]|by rewrite Ht]. }
      destruct (inv_mode s I Hm) as [Rv Rt Rf Rs Rtvm]. destruct (db_owner _ _ D _ Rv) as [_ Hta]; [by rewrite Rt|].
      assert (put_word (pa - secure_base) v (secure_pages s) (cur_as s) = secure_pages s (cur_as s)) as Ea.
      { unfold put_word. apply fn_lookup_insert_ne. fold q. intros E. unfold cur_as in E. by rewrite <- E, Ht in Hta. }
      destruct I. split; try done. intros _. split; cbn; fold (cur_as s); rewrite ?Ea; done.
Qed.

Lemma kom_user_inv s s' : inv s -> user s s' -> inv s'.
Proof. intros I Hu. induction Hu; eauto using user_step_inv. Qed.

(** * Boot *)

Definition boot_pmp (f : csr_file) : csr_file :=
  chmod_put 2 0 (pmpcfg_put 4 PMPCFG_A_OFF
    (remap_put 2 secure_base (secure_base + KOM_SECURE_RESERVE)
      (chmod_put 1 PMPCFG_RWX (pmpcfg_put 2 PMPCFG_A_OFF
        (remap_put 1 payload_start (payload_start + KOM_INSECURE_RESERVE) f))))).

Definition boot_csrs (f : csr_file) : csr_file :=
  csr_put (csr_put (csr_put (csr_put (csr_put (boot_pmp f)
    CSR_mstatus SR_MPP_S) CSR_mcounteren (2 ^ 32 - 1)) CSR_medeleg EDEL_MOST) CSR_mideleg IDEL_S) CSR_mepc payload_start.

Lemma area_pmp_addr : pmp_addr secure_base /\ pmp_addr (secure_base + KOM_SECURE_RESERVE) /\
  pmp_addr payload_start /\ pmp_addr (payload_start + KOM_INSECURE_RESERVE).
Proof.
  pose proof secure_range. pose proof payload_range. pose proof secure_aligned as E1. pose proof payload_aligned as E2.
  assert (forall x, x mod KOM_PAGE_SIZE = 0 -> x mod 4 = 0) as Hm.
  { intros x E. rewrite <- (Z.mod_mod_divide x KOM_PAGE_SIZE 4) by (by exists 0x400). by rewrite E. }
  change KOM_SECURE_RESERVE with (1024 * KOM_PAGE_SIZE) in *. change KOM_INSECURE_RESERVE with (256 * KOM_PAGE_SIZE) in *.
  split_and!; (split; [apply Hm; rewrite ?Z.mod_add by done; done|unfold KOM_PAGE_SIZE in *; lia]).
Qed.

Lemma boot_pmp_pairs f : pmp_off f -> let g := boot_pmp f in
  pmp_pair g 0 None /\ pmp_pair g 1 (Some insecure_region) /\ pmp_pair g 2 (Some (secure_region false)) /\ pmp_pair g 3 None.
Proof.
  intros Hr g. assert (forall k, (k < 4)%nat -> pmp_pair f k None) as Hn by (intros; by apply reset_pair).
  destruct area_pmp_addr as (A1 & A2 & A3 & A4). unfold g, boot_pmp. split_and!.
  - apply chmod_put_other, (pmpcfg_off_even 2), remap_put_other, chmod_put_other, (pmpcfg_off_even 1), remap_put_other;
      try (done || lia). apply Hn; lia.
  - apply chmod_put_other, (pmpcfg_off_even 2), remap_put_other; try (done || lia).
    apply (program_pair 1 PMPCFG_RWX _ _ f None); try (done || lia). apply Hn; lia.
  - apply (program_pair 2 0 _ _ _ None); try (done || lia).
    apply chmod_put_other, (pmpcfg_off_even 1), remap_put_other; try (done || lia). apply Hn; lia.
  - apply chmod_put_other, (pmpcfg_off_even 2), remap_put_other, chmod_put_other, (pmpcfg_off_even 1), remap_put_other;
      try (done || lia). apply Hn; lia.
Qed.

Lemma boot_csrs_pair f k o : pmp_pair (boot_pmp f) k o -> pmp_pair (boot_csrs f) k o.
Proof. intros Hp. unfold boot_csrs. do 5 (apply csr_put_pair; [done|in_csrs|]). done. Qed.

Lemma pmp_init_eq s : pmp_init s = Ret tt (on_csrs boot_pmp s).
Proof.
  unfold pmp_init. cbn zeta.
  do 2 (erewrite bind_Ret by (apply modify_eq)). do 2 (erewrite bind_Ret by (by apply pmpcfg_write_eq)).
  do 2 (erewrite bind_Ret by (apply modify_eq)). erewrite bind_Ret by (by apply pmpcfg_write_eq).
  rewrite pmpcfg_write_eq by done. by rewrite !on_csrs_comp.
Qed.

Lemma kom_supervisor_init_eq hartid dtb s :
  supervisor_init hartid dtb s = Mret (<[R_a1 := dtb]> (<[R_a0 := hartid]> zero_regs)) (on_csrs boot_csrs s).
Proof.
  unfold supervisor_init. erewrite bind_Ret by (apply pmp_init_eq). do 5 (erewrite bind_Ret by (apply modify_eq)). by rewrite !on_csrs_comp.
Qed.

Lemma db_empty t m : (forall p, valid p -> t p = mkEntry 0 0) -> (forall p, valid p -> m p = fun _ => 0) -> dbinv t m.
Proof.
  intros Ht Hm. assert (forall p, valid p -> typ t p = KOM_PAGE_FREE) as Hf by (intros p Hp; unfold typ; by rewrite Ht).
  split; try (intros p Hp; rewrite Hf by done; done). intros p Hp. by rewrite Hm.
Qed.

(** The machine at reset: the PMP is off and the payload's memory holds words. *)
Definition at_reset s : Prop := reset_pmp (csrs (kmach s)) /\ words_ok (insecure_pages s).

Lemma k_boot_inv hartid dtb s0 : at_reset s0 -> exists regs s, main hartid dtb s0 = Mret regs s /\ inv s.
Proof.
  intros [[Hw Hr] Hi]. unfold main, init_monitor.
  do 4 (rewrite bind_assoc; erewrite bind_Ret by (apply modify_eq)). erewrite bind_Ret by (apply modify_eq).
  rewrite kom_supervisor_init_eq. eexists _, _. split; [reflexivity|].
  destruct (boot_pmp_pairs (csrs (kmach s0)) Hr) as (P0 & P1 & P2 & P3).
  split; cbn [on_csrs get_mach set_mach kom_machine g_pagedb secure_pages insecure_pages enclave_mode kmach csrs];
    try (by apply boot_csrs_pair); [|done|done|].
  - apply db_empty; intros p Hp; by rewrite (proj2 (in_db_true p) Hp).
  - unfold boot_csrs. do 5 apply csr_put_wf. unfold boot_pmp.
    by apply chmod_put_wf, pmpcfg_put_wf, remap_put_wf, chmod_put_wf, pmpcfg_put_wf, remap_put_wf.
Qed.

(** * Reachable states *)

Definition trap_step s s' : Prop := exists s1 cause, user s s1 /\ trap_pre s1 cause /\ trap_to s1 cause s'.

Inductive reachable : kom -> Prop :=
  | reach_boot hartid dtb s0 regs s : at_reset s0 -> main hartid dtb s0 = Mret regs s -> reachable s
  | reach_step s s' : reachable s -> trap_step s s' -> reachable s'.

Lemma k_step_inv s s' : inv s -> trap_step s s' -> inv s'.
Proof.
  intros I (s1 & cause & Hu & Hp & Ht). pose proof (kom_user_inv s s1 I Hu) as I1.
  destruct (k_trap_cases s1 cause I1 Hp) as [E|(s2 & Ht2 & I2)]; destruct Ht as [s' E'|r s' E'].
  - congruence.
  - congruence.
  - destruct Ht2 as [s2 E2|r2 s2 E2]; rewrite E' in E2; by simplify_eq.
  - destruct Ht2 as [s2 E2|r2 s2 E2]; rewrite E' in E2; by simplify_eq.
Qed.

Lemma k_reachable_inv s : reachable s -> inv s.
Proof.
  induction 1 as [hartid dtb s0 regs s Hr E|s s' _ I Hs]; [|by eapply k_step_inv].
  destruct (k_boot_inv hartid dtb s0 Hr) as (? & ? & E' & I). by rewrite E in E'; simplify_eq.
Qed.
End komodo.
