(* ===== verification/KomodoProps.v ===== *)
(** Komodo: what the monitor guarantees to the host and to the enclaves. *)

From S2P Require Import Prelude.
From S2P Require Import Console.
From S2P Require Import Machine.
From S2P Require Import Mcall.
From S2P Require Import Sv39.
From S2P Require Import Komodo.
From S2P Require Import KomodoDb.
From S2P Require Import KomodoCalls.
From S2P Require Import KomodoInv.
From S2P Require Import KomodoSafety.

Section komodo.
Context `{Console} `{Layout}.
Implicit Types s : kom.

(** C10: from every reachable state, whatever the host or an enclave does before it
    traps, every trap is answered: it returns, switches between the host and an
    enclave, or powers the machine off on request.  No BUG_ON fires and no array is
    indexed out of bounds, and the invariant holds again. *)
Theorem komodo_trap_total s s1 cause : reachable s -> user s s1 -> trap_pre s1 cause ->
  trap cause s1 = Halt Shutdown \/ exists s', trap_to s1 cause s' /\ reachable s' /\ inv s'.
Proof.
  intros R Hu Hp. pose proof (kom_user_inv _ _ (k_reachable_inv s R) Hu) as I1.
  destruct (k_trap_cases s1 cause I1 Hp) as [E|(s' & E & I')]; [by left|right]. exists s'.
  split_and!; [done| |done]. eapply reach_step; [done|]. by exists s1, cause.
Qed.

(** In every reachable state the PMP gives S-mode the payload's memory always,
    the secure pages only while an enclave runs, and nothing else. *)
Theorem komodo_pmp s a : reachable s -> 0 <= a < 2 ^ 64 - 1 ->
  pmp_privs (csrs (kmach s)) a 1 = Some (
    if in_insecure a || (enclave_mode s && in_secure a) then PMPCFG_RWX else 0).
Proof. intros I%k_reachable_inv. by apply k_privs. Qed.

(** C2: an enclave is confined by its page tables: at every point of its execution,
    every virtual address that translates at all leads to a data page of its own
    address space or to the payload's memory. *)
Theorem komodo_confinement s s1 va pa pte : reachable s -> user s s1 -> enclave_mode s1 = true ->
  translate (phys_read s1) (csrs (kmach s1) CSR_satp) va = Some (pa, pte) ->
  in_insecure pa = true \/ own_data s1 pa.
Proof. intros I%k_reachable_inv Hu. apply enclave_confined. by eapply kom_user_inv. Qed.

(** C14: the page database is well typed in every reachable state: every used page
    belongs to an address space page whose reference count is the number of its
    pages, and while that address space is not stopped, its root table, every
    entry of its page tables and the satp of its dispatchers name pages of the
    right type that belong to it. *)
Theorem komodo_db_typed s : reachable s -> dbinv (g_pagedb s) (secure_pages s).
Proof. intros I%k_reachable_inv. apply (inv_db s I). Qed.

(** * What a step leaves alone *)

(** Pages whose contents are fixed once their address space is final. *)
Definition sealed (t : db) (m : pages) (p : Z) : Prop :=
  valid p /\ typ t p <> KOM_PAGE_FREE /\ typ t p <> KOM_PAGE_ADDRSPACE /\ m (own t p) AS_state = KOM_ADDRSPACE_FINAL.

Lemma db_step_sealed ins t m t' m' p : dbinv t m -> db_step ins t m t' m' -> sealed t m p ->
  t' p = t p /\ m' p = m p.
Proof.
  intros I S (Hp & Hf & Ha & Hs).
  assert (forall page a, typ t page = KOM_PAGE_FREE -> typ t a = KOM_PAGE_ADDRSPACE ->
    forall w e, <[page := e]> t p = t p /\ alloc_pages page a w m p = m p) as Halloc.
  { intros page a Hpf Hta w e. assert (p <> page) by congruence. assert (p <> a) by congruence.
    unfold alloc_pages. by fn_simpl. }
  destruct S as [a l Ha' Hl E|page a e Hg Ha' E|page q i ty ty' Hg Hq Hi Hty E m1|page q i f c Hg Hq Hi Hc E m1 m2
    |q i f n Hq Hi Hn E|q Hq Hqf E|a Ha' E|a Ha' E].
  - unfold init_addrspace_err in E. destruct (a =? l); [done|].
    destruct (typed t a KOM_PAGE_FREE) eqn:Ta, (typed t l KOM_PAGE_FREE) eqn:Tl;
      try (destruct (page_is_valid a), (page_is_valid l); done).
    apply typed_true in Ta as [_ Ta], Tl as [_ Tl]; [|done..].
    assert (p <> a) by congruence. assert (p <> l) by congruence. by fn_simpl.
  - unfold init_dispatcher_err in E. destruct (typed t a _) eqn:Ta; [|done]. apply typed_true in Ta as [_ Ta]; [|done].
    apply alloc_err_ok in E as (_ & Hgf & _); [|done]. by apply Halloc.
  - apply table_err_ok in E as ((Hvq & Hix & Htq & _) & Hvg & Hgf & Hst); [|done..].
    destruct (db_owner t m I q Hvq) as [_ Hto].
    { rewrite Htq. apply elem_of_cons in Hty as [[= -> ->]|[= -> ->]%list_elem_of_singleton]; done. }
    assert (p <> q) by (intros ->; by rewrite Hst in Hs). rewrite (fn_lookup_insert_ne m1 q) by congruence. by apply Halloc.
  - unfold map_secure_err in E. destruct (_ <=? i); [done|]. destruct (insecure_page_is_valid c); [|done].
    apply table_err_ok in E as ((Hvq & Hix & Htq & _) & Hvg & Hgf & Hst); [|done..].
    destruct (db_owner t m I q Hvq) as [_ Hto]; [by rewrite Htq|].
    assert (p <> q) by (intros ->; by rewrite Hst in Hs). assert (p <> page) by congruence.
    rewrite (fn_lookup_insert_ne m2 page) by congruence. unfold m2.
    rewrite (fn_lookup_insert_ne m1 q) by congruence. by apply Halloc.
  - unfold map_insecure_err in E. destruct (insecure_page_is_valid n); [|done]. apply first_err_ok in E as [E1 E2].
    apply slot_err_ok in E1 as (Hvq & Hix & Htq & _); [|done..]. apply state_err_ok in E2; [|done].
    assert (p <> q) by (intros ->; by rewrite E2 in Hs). by fn_simpl.
  - unfold remove_err in E. destruct (page_is_valid q) eqn:Hv; [|done]. apply page_is_valid_true in Hv; [|done].
    cbn [negb] in E. rewrite (proj2 (Z.eqb_neq _ _) Hqf) in E. destruct (db_owner t m I q Hv Hqf) as [_ Hto].
    assert (m (own t q) AS_state = KOM_ADDRSPACE_STOPPED) as Est.
    { destruct (Z.eqb_spec (typ t q) KOM_PAGE_ADDRSPACE) as [Ht|Ht]; [|by apply state_err_ok in E].
      rewrite (db_self t m I q Hv Ht). destruct (_ =? 1); [|done]. by apply state_err_ok in E. }
    assert (p <> q) by (intros ->; by rewrite Est in Hs). assert (p <> own t q) by congruence. by fn_simpl.
  - unfold finalise_err in E. destruct (typed t a _) eqn:Ta; [|done]. apply typed_true in Ta as [_ Ta]; [|done].
    assert (p <> a) by congruence. by fn_simpl.
  - unfold stop_err in E. destruct (typed t a _) eqn:Ta; [|done]. apply typed_true in Ta as [_ Ta]; [|done].
    assert (p <> a) by congruence. by fn_simpl.
Qed.

(** The software below changes no page but data pages of the running enclave. *)
Lemma user_step_sealed s s' p : inv s -> user_step s s' ->
  ~ (enclave_mode s = true /\ typ (g_pagedb s) p = KOM_PAGE_DATA /\ own (g_pagedb s) p = cur_as s) ->
  g_pagedb s' = g_pagedb s /\ enclave_mode s' = enclave_mode s /\
  g_cur_dispatcher_pageno s' = g_cur_dispatcher_pageno s /\ secure_pages s' p = secure_pages s p.
Proof.
  intros I [regs f Hr Hl|pa v Hpa Hc Hv] Hn; [done|]. unfold phys_store.
  destruct (store_target s pa I Hpa Hc) as [Ei|[Hm Ho]].
  - destruct (in_secure pa) eqn:Es; [by rewrite areas_disjoint in Ei|]. by rewrite Ei.
  - destruct (own_data_page s pa Ho) as (-> & Hq & Ht & Hown). cbn zeta in *.
    split_and!; [done..|]. cbn. unfold put_word. apply fn_lookup_insert_ne. intros <-. auto.
Qed.

Lemma user_sealed s s' p : inv s -> user s s' ->
  ~ (enclave_mode s = true /\ typ (g_pagedb s) p = KOM_PAGE_DATA /\ own (g_pagedb s) p = cur_as s) ->
  g_pagedb s' = g_pagedb s /\ enclave_mode s' = enclave_mode s /\
  g_cur_dispatcher_pageno s' = g_cur_dispatcher_pageno s /\ secure_pages s' p = secure_pages s p.
Proof.
  intros I Hu. induction Hu as [|s s1 s' Hs _ IH]; [done|]. intros Hn.
  destruct (user_step_sealed s s1 p I Hs Hn) as (E1 & E2 & E3 & E4).
  destruct IH as (F1 & F2 & F3 & F4); [by eapply user_step_inv| |by rewrite F1, F2, F3, F4].
  unfold cur_as in *. by rewrite E1, E2, E3.
Qed.

(** * The kinds of trap *)

Inductive trap_kind s s' : Prop :=
  | kind_same : g_pagedb s' = g_pagedb s -> secure_pages s' = secure_pages s ->
      enclave_mode s' = enclave_mode s -> g_cur_dispatcher_pageno s' = g_cur_dispatcher_pageno s ->
      host_state s' = host_state s -> trap_kind s s'
  | kind_db : enclave_mode s = false -> enclave_mode s' = false -> host_state s' = host_state s ->
      db_step (insecure_pages s) (g_pagedb s) (secure_pages s) (g_pagedb s') (secure_pages s') -> trap_kind s s'
  | kind_enter p s1 : enclave_mode s = false -> valid p -> typ (g_pagedb s) p = KOM_PAGE_DISPATCHER ->
      secure_pages s (own (g_pagedb s) p) AS_state = KOM_ADDRSPACE_FINAL ->
      (s1 = past_ecall s \/ exists a0 a1 a2, s1 = with_args p a0 a1 a2 (past_ecall s)) ->
      s' = enter_post p s1 -> trap EXC_ECALL_S s = Mret (disp_regs (secure_pages s1 p)) s' -> trap_kind s s'
  | kind_leave b x y s1 cause : enclave_mode s = true -> s1 = s \/ s1 = past_ecall s ->
      s' = leave_post b (answered x y s1) ->
      trap cause s = Mret (<[R_a1 := u64 y]> (<[R_a0 := u64 x]> (h_regs (host_state s)))) s' -> trap_kind s s'.

Lemma trap_split s cause s' : inv s -> trap_pre s cause -> trap_to s cause s' -> trap_kind s s'.
Proof.
  intros I Hp Ht. destruct (decide (cause = EXC_ECALL_S)) as [->|Hc].
  - destruct (enclave_mode s) eqn:Hm.
    + pose proof (trap_enclave s Hp Hm (run_valid s (inv_mode s I Hm))) as E.
      destruct (_ =? KOM_SVC_EXIT).
      * destruct Ht as [s' E'|r s' E']; pose proof E' as E2; rewrite E in E2; [done|]. injection E2 as <- <-.
        eapply kind_leave; [done|by right|done|exact E].
      * destruct Ht as [s' E'|r s' E']; rewrite E in E'; [|done]. injection E' as <-. by apply kind_same.
    + pose proof (trap_host s Hp Hm) as E. pose proof (kom_past_ecall_inv s I) as I1.
      assert (0 <= frame (kmach s) R_a0) as Hn by apply Hp.
      destruct (smc_cases (frame (kmach s)) (past_ecall s) (inv_db _ I1) (proj1 Hp)) as [|r d _|r|t m D|_ Ee|_ Ee];
        destruct Ht as [s' E'|r' s' E']; pose proof E' as E2; rewrite E in E2; try done; injection E2 as <-.
      * by apply kind_same.
      * by apply kind_same.
      * by apply kind_db.
      * apply first_err_ok in Ee as [(Hv & Hty & Hs)%entry_err_ok _]; [|done]. subst s'.
        eapply kind_enter; [done..|right; by eexists _, _, _|reflexivity|exact E].
      * apply first_err_ok in Ee as [(Hv & Hty & Hs)%entry_err_ok _]; [|done]. subst s'.
        eapply kind_enter; [done..|by left|reflexivity|exact E].
  - pose proof (trap_other s cause Hc (fun Hm => run_valid s (inv_mode s I Hm))) as E.
    destruct (enclave_mode s) eqn:Hm; destruct Ht as [s' E'|r s' E']; pose proof E' as E2; rewrite E in E2; try done.
    + injection E2 as <- <-. eapply kind_leave; [done|by left|done|exact E].
    + injection E2 as <-. by apply kind_same.
Qed.

(** C7: a final enclave's memory is its own: no step of the host, of another
    enclave or of the monitor changes a data page of a final address space that is
    not running; and no step at all changes its page tables.  The pages also stay
    in place: their types and owner do not change. *)
Theorem komodo_integrity s s' p : reachable s -> trap_step s s' ->
  sealed (g_pagedb s) (secure_pages s) p -> typ (g_pagedb s) p <> KOM_PAGE_DISPATCHER ->
  ~ (enclave_mode s = true /\ typ (g_pagedb s) p = KOM_PAGE_DATA /\ own (g_pagedb s) p = cur_as s) ->
  g_pagedb s' p = g_pagedb s p /\ secure_pages s' p = secure_pages s p.
Proof.
  intros I%k_reachable_inv (s1 & cause & Hu & Hp & Ht) Hs Hd Hn.
  pose proof (kom_user_inv _ _ I Hu) as I1. destruct (user_sealed s s1 p I Hu Hn) as (Et & Em & Ec & Ew).
  assert (sealed (g_pagedb s1) (secure_pages s1) p) as Hs1.
  { destruct Hs as (Hv & Hf & Ha & Hst). unfold sealed. rewrite Et. split_and!; try done.
    destruct (user_sealed s s1 (own (g_pagedb s) p) I Hu) as (_ & _ & _ & ->); [|done].
    intros (_ & Hty & _). destruct (db_owner _ _ (inv_db s I) p Hv Hf) as [_ Ha']. by rewrite Hty in Ha'. }
  rewrite <- Et, <- Ew. rewrite <- Et in Hd.
  destruct (trap_split s1 cause s' I1 Hp Ht) as [E1 E2 _ _ _|_ _ _ D|q s2 _ Hv Hty _ Hs2 -> _|b x y s2 cause' Hm Hs2 -> _].
  - by rewrite E1, E2.
  - by eapply db_step_sealed; [apply (inv_db _ I1)|exact D|].
  - assert (p <> q) by congruence. destruct Hs2 as [->|(a0 & a1 & a2 & ->)]; [done|]. cbn. by fn_simpl.
  - pose proof (run_type _ (inv_mode _ I1 Hm)) as Hty. assert (p <> g_cur_dispatcher_pageno s1) by congruence.
    destruct Hs2 as [->| ->]; cbn; by fn_simpl.
Qed.

(** * Errors and life cycle *)

(** C23: a call that answers an error changes nothing: after any call of the host
    that is not an SBI service and comes back with a non-zero code, the page
    database, the secure and insecure pages and the host's saved state are as
    before. *)
Theorem komodo_error_atomic s s1 s' : reachable s -> user s s1 -> enclave_mode s1 = false ->
  trap_pre s1 EXC_ECALL_S -> is_sbi (s64 (frame (kmach s1) R_a7)) = false ->
  trap EXC_ECALL_S s1 = Ret tt s' -> frame (kmach s') R_a0 <> KOM_ERR_SUCCESS ->
  g_pagedb s' = g_pagedb s1 /\ secure_pages s' = secure_pages s1 /\ insecure_pages s' = insecure_pages s1 /\
  host_state s' = host_state s1 /\ enclave_mode s' = false.
Proof.
  intros I0%k_reachable_inv Hu Hm Hp Hns Et Hr. pose proof (kom_user_inv _ _ I0 Hu) as I.
  pose proof (kom_past_ecall_inv s1 I) as I1. rewrite trap_host in Et by done.
  destruct (smc_cases (frame (kmach s1)) (past_ecall s1) (inv_db _ I1) (proj1 Hp)) as [|r d Hs|r|t m D|_ Ee|_ Ee];
    try done; [congruence|by injection Et as <-|].
  injection Et as <-. cbn in Hr. by rewrite fn_lookup_insert in Hr.
Qed.

Lemma alloc_pages_state page a w m b : page <> b -> alloc_pages page a w m b AS_state = m b AS_state.
Proof.
  intros Hne. unfold alloc_pages. destruct (decide (b = a)) as [->|]; by fn_simpl.
Qed.

Definition life_step (v v' : Z) : Prop :=
  v' = v \/ (v = KOM_ADDRSPACE_INIT /\ v' = KOM_ADDRSPACE_FINAL) \/ v' = KOM_ADDRSPACE_STOPPED.

Lemma db_step_life ins t m t' m' a : dbinv t m -> db_step ins t m t' m' -> valid a -> typ t a = KOM_PAGE_ADDRSPACE ->
  life_step (m a AS_state) (m' a AS_state).
Proof.
  intros I S Ha Hta. assert (forall q, typ t q = KOM_PAGE_FREE -> q <> a) as Hfree by (intros q Hq ->; by rewrite Hta in Hq).
  destruct S as [b l Hb Hl E|page b e Hg Hb E|page q i ty ty' Hg Hq Hi Hty E m1|page q i f c Hg Hq Hi Hc E m1 m2
    |q i f n Hq Hi Hn E|q Hq Hqf E|b Hb E|b Hb E].
  - left. unfold init_addrspace_err in E. destruct (b =? l); [done|].
    destruct (typed t b KOM_PAGE_FREE) eqn:Tb, (typed t l KOM_PAGE_FREE) eqn:Tl;
      try (destruct (page_is_valid b), (page_is_valid l); done).
    apply typed_true in Tb as [_ Tb%Hfree], Tl as [_ Tl%Hfree]; [|done..]. by fn_simpl.
  - left. unfold init_dispatcher_err in E. destruct (typed t b _); [|done].
    apply alloc_err_ok in E as (_ & Hgf%Hfree & _); [|done]. by apply alloc_pages_state.
  - left. apply table_err_ok in E as ((_ & _ & Htq & _) & _ & Hgf%Hfree & _); [|done..].
    assert (q <> a) as Hqa.
    { intros ->. rewrite Hta in Htq. by apply elem_of_cons in Hty as [[= E _]|[= E _]%list_elem_of_singleton]; rewrite E in Htq. }
    rewrite (fn_lookup_insert_ne m1 q) by done. by apply alloc_pages_state.
  - left. unfold map_secure_err in E. destruct (_ <=? i); [done|]. destruct (insecure_page_is_valid c); [|done].
    apply table_err_ok in E as ((_ & _ & Htq & _) & _ & Hgf%Hfree & _); [|done..].
    assert (q <> a) by (intros ->; by rewrite Htq in Hta).
    rewrite (fn_lookup_insert_ne m2 page) by done. unfold m2. rewrite (fn_lookup_insert_ne m1 q) by done.
    by apply alloc_pages_state.
  - left. unfold map_insecure_err in E. destruct (insecure_page_is_valid n); [|done]. apply first_err_ok in E as [E1 E2].
    apply slot_err_ok in E1 as (_ & _ & Htq & _); [|done..].
    assert (q <> a) by (intros ->; by rewrite Htq in Hta). by fn_simpl.
  - left. by apply as_word_upd.
  - unfold finalise_err in E. destruct (typed t b _); [|done]. apply state_err_ok in E; [|done].
    destruct (decide (a = b)) as [->|]; [right; left|left]; by fn_simpl.
  - destruct (decide (a = b)) as [->|]; [right; right|left]; by fn_simpl.
Qed.

(** An address space only moves forward: in one step its state stays, goes from
    init to final, or becomes stopped; a stopped address space stays stopped for as
    long as its page is not removed. *)
Theorem komodo_lifecycle s s' a : reachable s -> trap_step s s' -> valid a ->
  typ (g_pagedb s) a = KOM_PAGE_ADDRSPACE ->
  life_step (secure_pages s a AS_state) (secure_pages s' a AS_state).
Proof.
  intros I%k_reachable_inv (s1 & cause & Hu & Hp & Ht) Ha Hta. pose proof (kom_user_inv _ _ I Hu) as I1.
  destruct (user_sealed s s1 a I Hu) as (Et & _ & _ & Ew); [rewrite Hta; by intros (_ & ? & _)|].
  rewrite <- Ew. rewrite <- Et in Hta.
  destruct (trap_split s1 cause s' I1 Hp Ht) as [_ E2 _ _ _|_ _ _ D|q s2 _ Hv Hty _ Hs2 -> _|b x y s2 cause' Hm Hs2 -> _].
  - left. by rewrite E2.
  - by eapply db_step_life; [apply (inv_db _ I1)|exact D|..].
  - left. assert (a <> q) by (intros ->; by rewrite Hty in Hta).
    destruct Hs2 as [->|(a0 & a1 & a2 & ->)]; [done|]. cbn. by fn_simpl.
  - left. pose proof (run_type _ (inv_mode _ I1 Hm)) as Hty.
    assert (a <> g_cur_dispatcher_pageno s1) by (intros ->; by rewrite Hty in Hta).
    destruct Hs2 as [->| ->]; cbn; by fn_simpl.
Qed.

(** Mapping a secure page copies the payload's page into it, and the entry it
    writes is one that the hardware reads as that page with exactly the requested
    permissions; the page joins the address space of the table, whose reference
    count grows by one, and nothing else changes. *)
Theorem komodo_map_secure page p i f content s s' : reachable s ->
  0 <= page -> 0 <= p -> 0 <= i -> 0 <= content ->
  kom_smc_map_secure page p i f content s = Ret KOM_ERR_SUCCESS s' ->
  let a := own (g_pagedb s) p in
  let pte := secure_pages s' p i in
  g_pagedb s' = <[page := mkEntry KOM_PAGE_DATA a]> (g_pagedb s) /\
  secure_pages s' page = insecure_pages s content /\
  pte_base pte = page_pa page /\ pte_v pte = true /\
  pte_r pte = Z.testbit f 1 /\ pte_w pte = Z.testbit f 2 /\ pte_x pte = Z.testbit f 3 /\
  secure_pages s' a AS_refcount = secure_pages s a AS_refcount + 1 /\
  (forall q j, q <> page -> ~ (q = p /\ j = i) -> ~ (q = a /\ j = AS_refcount) -> secure_pages s' q j = secure_pages s q j).
Proof.
  intros I%k_reachable_inv Hg Hp Hi Hc E. pose proof (inv_db s I) as D.
  rewrite kom_smc_map_secure_eq in E by done. unfold call in E.
  destruct (Z.eqb_spec (map_secure_err (g_pagedb s) (secure_pages s) page p i content) KOM_ERR_SUCCESS) as [Ee|Ee];
    [|injection E as E _; done]. injection E as <-. cbn zeta.
  unfold map_secure_err in Ee. destruct (_ <=? i); [done|]. destruct (insecure_page_is_valid content); [|done].
  apply table_err_ok in Ee as ((Hvp & Hix & Htp & _) & Hvg & Hgf & Hst); [|done..].
  destruct (db_owner _ _ D p Hvp) as [Hva Hta]; [by rewrite Htp|]. set (a := own (g_pagedb s) p) in *.
  assert (page <> p) as N1 by (intros ->; by rewrite Htp in Hgf).
  assert (page <> a) as N2 by (intros ->; by rewrite Hta in Hgf).
  assert (p <> a) as N3 by (intros E; by rewrite E, Hta in Htp).
  cbn [map_secure_post table_post with_db g_pagedb secure_pages]. fold a. unfold alloc_pages. fn_simpl.
  change (pfn_pte (PFN_DOWN (page_pa page)) (enclave_prot f)) with (u64 ((page_pa page ≫ 12) ≪ 10) .| enclave_prot f).
  rewrite pte_round by first [apply page_pa_aligned | by apply page_pa_range | apply enclave_prot_range].
  unfold pte_v, pte_r, pte_w, pte_x. rewrite !pte_flag by lia. unfold enclave_prot. rewrite !Z.lor_spec, !Z.land_spec.
  split_and!; try done; rewrite ?orb_true_r, ?andb_true_r, ?orb_false_r; try done.
  - apply wrap_small. rewrite (db_refs _ _ D a Hva Hta). pose proof (refs_range (g_pagedb s) a). komlia.
  - intros q j Hq H1 H2. destruct (decide (q = p)) as [->|]; fn_simpl; [done|].
    by destruct (decide (q = a)) as [->|]; fn_simpl.
Qed.
End komodo.
