(* ===== verification/KomodoContext.v ===== *)
(** Komodo: the context round trips of the host and of an enclave. *)

From S2P Require Import Prelude.
From S2P Require Import Console.
From S2P Require Import Machine.
From S2P Require Import Mcall.
From S2P Require Import Sv39.
From S2P Require Import Komodo.
From S2P Require Import KomodoDb.
From S2P Require Import KomodoCalls.
From S2P Require Import KomodoInv.
From S2P Require Import KomodoSafety.
From S2P Require Import KomodoProps.

Section komodo.
Context `{Console} `{Layout}.
Implicit Types s : kom.

(** * Restoring a saved context *)

(** TVM is not part of sstatus. *)
Lemma sstatus_tvm b x : uint 64 x ->
  sstatus_mask .& u64 (if b : bool then x .| u64 SR_TVM else Z.ldiff x (u64 SR_TVM)) = sstatus_mask .& x.
Proof.
  intros Hx. assert (u64 (if b then x .| u64 SR_TVM else Z.ldiff x (u64 SR_TVM)) =
    if b then x .| u64 SR_TVM else Z.ldiff x (u64 SR_TVM)) as ->.
  { apply wrap_small. destruct b; [by apply uint_lor|]. apply uint_bits; [done|].
    split; [apply Z.ldiff_nonneg; left; apply Hx|]. intros n Hn. by rewrite Z.ldiff_spec, (testbit_uint 64 x). }
  apply Z.bits_inj'. intros n Hn. rewrite !Z.land_spec. destruct (Z.testbit sstatus_mask n) eqn:Hb; [|done].
  assert (Z.testbit (u64 SR_TVM) n = false) as Ht.
  { change (u64 SR_TVM) with (2 ^ 20). rewrite Z.pow2_bits_eqb by done. apply Z.eqb_neq. intros <-. done. }
  destruct b; [by rewrite Z.lor_spec, Ht, orb_false_r|by rewrite Z.ldiff_spec, Ht, andb_true_r].
Qed.

Lemma world_csrs_view b v f c : csrs_wf f -> c ∈ kom_csrs ->
  csr_get (world_csrs b v f) c = csr_get (csrs_put kom_csrs v f) c.
Proof.
  intros Hw Hc. destruct (decide (csr_home c = CSR_mstatus)) as [Hm|Hm]; [|by apply world_csrs_get].
  assert (c = CSR_sstatus) as -> by (destruct c; first [done | by exfalso; revert Hc; in_csrs]).
  unfold world_csrs. cbn zeta. rewrite !csr_get_put_other by done. unfold tvm_put.
  set (g := chmod_put _ _ _). assert (g CSR_mstatus = csrs_put kom_csrs v f CSR_mstatus) as E by (by apply chmod_put_other_csr).
  unfold csr_put, csr_get. fn_simpl. rewrite E. apply sstatus_tvm. by apply csrs_put_wf.
Qed.

(** Registers saved from [f0] and put back over [f] on the way to a world. *)
Lemma world_csrs_restored b f0 old f c : csrs_wf f0 -> csrs_wf f -> c ∈ kom_csrs ->
  csr_get (world_csrs b (csrs_save kom_csrs f0 old) f) c = csr_get f0 c.
Proof. intros Hw Hf Hc. rewrite world_csrs_view by done. by apply restore_saved; [in_csrs|..]. Qed.

(** * The host *)

(** The enclave computes, makes calls that the monitor refuses, and stays in. *)
Definition enclave_step s s' : Prop := trap_step s s' /\ enclave_mode s' = true.

Lemma user_host s s' : user s s' -> host_state s' = host_state s /\ enclave_mode s' = enclave_mode s.
Proof.
  induction 1 as [|s s1 s' [regs f _ _|pa v _ _ _] _ [IH1 IH2]]; [done|by rewrite IH1, IH2|].
  rewrite IH1, IH2. unfold phys_store. by destruct (in_secure pa), (in_insecure pa).
Qed.

Lemma enclave_step_host s s' : inv s -> enclave_mode s = true -> enclave_step s s' -> host_state s' = host_state s.
Proof.
  intros I Hm [(s1 & cause & Hu & Hp & Ht) Hm']. pose proof (kom_user_inv _ _ I Hu) as I1.
  destruct (user_host s s1 Hu) as [Eh Em]. rewrite Hm in Em.
  destruct (trap_split s1 cause s' I1 Hp Ht) as [_ _ _ _ E|E _ _ _|q s2 E _ _ _ _ _ _|b x y s2 c _ _ -> _];
    [by rewrite E|congruence|congruence|done].
Qed.

Lemma kom_enclave_steps_host s s' : inv s -> enclave_mode s = true -> rtc enclave_step s s' ->
  inv s' /\ enclave_mode s' = true /\ host_state s' = host_state s.
Proof.
  intros I Hm Hs. induction Hs as [|s s1 s' H1 _ IH]; [done|].
  rewrite <- (enclave_step_host s s1 I Hm H1). destruct H1 as [H1 Hm1].
  apply IH; [by eapply k_step_inv|done].
Qed.

Lemma past_ecall_csr s c : csr_get (csrs (kmach (past_ecall s))) c =
  if decide (c = CSR_mepc) then u64 (csr_get (csrs (kmach s)) CSR_mepc + 4) else csr_get (csrs (kmach s)) c.
Proof. exact (mepc_advance (csrs (kmach s)) c). Qed.

(** Leaving machine mode sideways from the host means entering an enclave. *)
Lemma mret_enter s r s' : inv s -> trap_pre s EXC_ECALL_S -> enclave_mode s = false ->
  trap EXC_ECALL_S s = Mret r s' ->
  exists p s1, valid p /\ typ (g_pagedb s) p = KOM_PAGE_DISPATCHER /\
    secure_pages s (own (g_pagedb s) p) AS_state = KOM_ADDRSPACE_FINAL /\
    (s64 (frame (kmach s) R_a7) = KOM_SMC_RESUME /\ p = frame (kmach s) R_a0 /\ s1 = past_ecall s \/
     s64 (frame (kmach s) R_a7) = KOM_SMC_ENTER /\ exists a0 a1 a2, s1 = with_args p a0 a1 a2 (past_ecall s)) /\
    r = disp_regs (secure_pages s1 p) /\ s' = enter_post p s1.
Proof.
  intros I Hp Hm Et. pose proof (kom_past_ecall_inv s I) as I1. rewrite trap_host in Et by done.
  assert (0 <= frame (kmach s) R_a0) as Hn by apply Hp.
  destruct (smc_cases (frame (kmach s)) (past_ecall s) (inv_db _ I1) (proj1 Hp)) as [|r' d _|r'|t m D|Ha Ee|Ha Ee];
    try done; injection Et as <- <-; apply first_err_ok in Ee as [(Hv & Hty & Hs)%entry_err_ok _]; try done;
    exists (frame (kmach s) R_a0).
  - eexists (with_args _ _ _ _ (past_ecall s)). split_and!; [done|done|done|right; split; [done|by eexists _, _, _]|reflexivity|reflexivity].
  - exists (past_ecall s). split_and!; [done|done|done|by left|reflexivity|reflexivity].
Qed.

(** And from an enclave, going back to the host. *)
Lemma mret_leave s cause r s' : inv s -> trap_pre s cause -> enclave_mode s = true -> trap cause s = Mret r s' ->
  exists b x y s1, (cause <> EXC_ECALL_S /\ b = true /\ s1 = s \/ cause = EXC_ECALL_S /\ b = false /\ s1 = past_ecall s) /\
    r = <[R_a1 := u64 y]> (<[R_a0 := u64 x]> (h_regs (host_state s))) /\ s' = leave_post b (answered x y s1).
Proof.
  intros I Hp Hm Et. pose proof (run_valid s (inv_mode s I Hm)) as Hv.
  destruct (decide (cause = EXC_ECALL_S)) as [->|Hc].
  - rewrite trap_enclave in Et by done. destruct (_ =? KOM_SVC_EXIT); [|done]. injection Et as <- <-.
    eexists _, _, _, _. split_and!; [by right|reflexivity..].
  - rewrite trap_other, Hm in Et by done. injection Et as <- <-.
    eexists true, _, _, _. split_and!; [by left|reflexivity..].
Qed.

Lemma enter_host p s : host_state (enter_post p s) =
  mkHost (copy_pt_regs (h_regs (host_state s)) (frame (kmach s))) (csrs_save kom_csrs (csrs (kmach s)) (h_csr (host_state s))).
Proof. reflexivity. Qed.

(** The host gets its context back: when a call of the host enters an enclave
    (enter or resume) and the enclave, after any computation, leaves it by exit,
    an exception or an interrupt, the host continues after its ecall with all its
    registers but a0 and a1, and all the CSRs of csrs.h, as they were. *)
Theorem komodo_host_roundtrip s0 s r1 s1 sn s2 cause r s' : reachable s0 -> user s0 s ->
  enclave_mode s = false -> trap_pre s EXC_ECALL_S -> trap EXC_ECALL_S s = Mret r1 s1 ->
  rtc enclave_step s1 sn -> user sn s2 -> trap_pre s2 cause -> trap cause s2 = Mret r s' ->
  enclave_mode s1 = true /\ enclave_mode s' = false /\
  (forall g, g <> R_a0 -> g <> R_a1 -> r g = frame (kmach s) g) /\
  (forall c, c ∈ kom_csrs -> c <> CSR_mepc -> csr_get (csrs (kmach s')) c = csr_get (csrs (kmach s)) c) /\
  csr_get (csrs (kmach s')) CSR_mepc = u64 (csr_get (csrs (kmach s)) CSR_mepc + 4).
Proof.
  intros I0%k_reachable_inv Hu Hm Hp Et Hs Hu2 Hp2 Et2. pose proof (kom_user_inv _ _ I0 Hu) as I.
  assert (inv s1) as I1 by (eapply k_step_inv; [exact I|]; exists s, EXC_ECALL_S; split_and!; [apply rtc_refl|done|by eapply to_other]).
  destruct (mret_enter s r1 s1 I Hp Hm Et) as (p & sx & _ & _ & _ & Hx & _ & E1).
  assert (enclave_mode s1 = true) as Hm1 by (by rewrite E1).
  destruct (kom_enclave_steps_host s1 sn I1 Hm1 Hs) as (In & Hmn & Hhn).
  pose proof (kom_user_inv _ _ In Hu2) as I2. destruct (user_host sn s2 Hu2) as [Hh2 Hm2]. rewrite Hmn in Hm2.
  destruct (mret_leave s2 cause r s' I2 Hp2 Hm2 Et2) as (b & x & y & sy & Hy & -> & ->).
  assert (frame (kmach sx) = frame (kmach s) /\ csrs (kmach sx) = csrs (kmach (past_ecall s))) as [Ef Ec]
    by (destruct Hx as [(_ & _ & ->)|(_ & a0 & a1 & a2 & ->)]; done).
  assert (host_state sy = host_state s2 /\ csrs_wf (csrs (kmach sy))) as [Eh Hwy].
  { destruct Hy as [(_ & _ & ->)|(_ & _ & ->)]; split; try done; [apply (inv_csrs _ I2)|apply csr_put_wf, (inv_csrs _ I2)]. }
  rewrite Hh2, Hhn, E1, enter_host in Eh |- *. rewrite Ef, Ec in Eh. rewrite Ef, Ec.
  assert (forall c, c ∈ kom_csrs -> csr_get (csrs (kmach (leave_post b (answered x y sy)))) c = csr_get (csrs (kmach (past_ecall s))) c) as Hcs.
  { intros c Hc. unfold leave_post. cbn [with_db with_mach answered kmach csrs host_state h_csr]. rewrite Eh. cbn [h_csr].
    apply world_csrs_restored; [apply csr_put_wf, (inv_csrs _ I)|done|done]. }
  split_and!; [by rewrite E1 in Hm1|done|..].
  - intros g H1 H2. cbn [h_regs]. rewrite !fn_lookup_insert_ne by congruence. apply copy_pt_regs_eq.
  - intros c Hc Hne. by rewrite Hcs, past_ecall_csr, decide_False.
  - by rewrite Hcs, past_ecall_csr, decide_True by in_csrs.
Qed.

(** * The enclave *)

Definition runs_in s (a : Z) : Prop := enclave_mode s = true /\ cur_as s = a.

(** A step during which address space [a] neither runs nor starts running keeps
    its sealed pages, dispatchers included. *)
Lemma step_keeps s s' p : inv s -> trap_step s s' -> sealed (g_pagedb s) (secure_pages s) p ->
  ~ runs_in s (own (g_pagedb s) p) -> ~ runs_in s' (own (g_pagedb s) p) ->
  g_pagedb s' p = g_pagedb s p /\ secure_pages s' p = secure_pages s p.
Proof.
  intros I (s1 & cause & Hu & Hp & Ht) Hs Hn Hn'. unfold runs_in in *.
  pose proof (kom_user_inv _ _ I Hu) as I1.
  assert (forall q, g_pagedb s1 = g_pagedb s /\ enclave_mode s1 = enclave_mode s /\
    g_cur_dispatcher_pageno s1 = g_cur_dispatcher_pageno s /\
    (q = p \/ q = own (g_pagedb s) p -> secure_pages s1 q = secure_pages s q)) as Hq.
  { intros q. destruct Hs as (Hv & Hf & Ha & Hst).
    destruct (user_sealed s s1 p I Hu) as (E1 & E2 & E3 & E4); [by intros (? & _ & ?); auto|].
    split_and!; try done. intros [->| ->]; [done|].
    apply (user_sealed s s1 _ I Hu). intros (_ & Hty & _).
    destruct (db_owner _ _ (inv_db s I) p Hv Hf) as [_ Ha']. by rewrite Hty in Ha'. }
  destruct (Hq p) as (Et & Em & Ec & Ew). specialize (Ew (or_introl eq_refl)).
  destruct (Hq (own (g_pagedb s) p)) as (_ & _ & _ & Eo). specialize (Eo (or_intror eq_refl)).
  assert (sealed (g_pagedb s1) (secure_pages s1) p) as Hs1 by (unfold sealed in *; by rewrite Et, Eo).
  unfold cur_as in *. rewrite <- Et, <- Ew in *. rewrite <- Em, <- Ec in Hn.
  destruct (trap_split s1 cause s' I1 Hp Ht) as [E1 E2 _ _ _|_ _ _ D|q s2 _ Hv Hty _ Hs2 -> _|b x y s2 cause' Hm Hs2 -> _].
  - by rewrite E1, E2.
  - by eapply db_step_sealed; [apply (inv_db _ I1)|exact D|].
  - assert (g_pagedb s2 = g_pagedb s1) as E2 by (by destruct Hs2 as [->|(a0 & a1 & a2 & ->)]).
    assert (p <> q) by (intros ->; apply Hn'; cbn; by rewrite E2).
    destruct Hs2 as [->|(a0 & a1 & a2 & ->)]; [done|]. cbn. by fn_simpl.
  - assert (p <> g_cur_dispatcher_pageno s1) by (intros ->; auto).
    destruct Hs2 as [->| ->]; cbn; by fn_simpl.
Qed.

(** Dispatcher [d] of address space [a] can be entered, and [a] does not run. *)
Definition suspended (d a : Z) s : Prop :=
  valid d /\ typ (g_pagedb s) d = KOM_PAGE_DISPATCHER /\ own (g_pagedb s) d = a /\
  secure_pages s a AS_state = KOM_ADDRSPACE_FINAL /\ ~ runs_in s a.

Definition suspended_step (d a : Z) s s' : Prop := trap_step s s' /\ suspended d a s'.

(** The pages of the enclave that hold its state. *)
Definition enclave_page (d a : Z) s (p : Z) : Prop :=
  valid p /\ own (g_pagedb s) p = a /\ (p = d \/ typ (g_pagedb s) p = KOM_PAGE_DATA).

Lemma kom_suspended_keeps d a s s' : inv s -> suspended d a s -> rtc (suspended_step d a) s s' ->
  inv s' /\ suspended d a s' /\
  forall p, enclave_page d a s p -> g_pagedb s' p = g_pagedb s p /\ secure_pages s' p = secure_pages s p.
Proof.
  intros I Hd Hs. induction Hs as [|s s1 s' [Hs1 Hd1] _ IH]; [done|].
  destruct IH as (I' & Hd' & Hk); [by eapply k_step_inv|done|]. split_and!; [done..|].
  intros p Hp. assert (g_pagedb s1 p = g_pagedb s p /\ secure_pages s1 p = secure_pages s p) as [Et Ew].
  { destruct Hp as (Hv & Ho & Hp), Hd as (Hvd & Htd & Hod & Hf & Hn), Hd1 as (_ & _ & _ & _ & Hn1).
    apply step_keeps; rewrite ?Ho; try done. unfold sealed. rewrite Ho.
    split_and!; try done; destruct Hp as [->|Hp]; by rewrite ?Htd, ?Hp. }
  rewrite <- Et, <- Ew. apply Hk. unfold enclave_page, own, typ in *. by rewrite Et.
Qed.

(** What a dispatcher holds after its enclave was interrupted. *)
Lemma put_fields_lookup {A} base (l : list A) v w i a : l !! i = Some a -> put_fields base l v w (base + Z.of_nat i) = v a.
Proof.
  intros E. unfold put_fields. rewrite (proj2 (Z.leb_le _ _)) by lia.
  replace (base + Z.of_nat i - base) with (Z.of_nat i) by lia. by rewrite Nat2Z.id, E.
Qed.

Lemma put_fields_below {A} base (l : list A) v w i : i < base -> put_fields base l v w i = w i.
Proof. intros Hi. unfold put_fields. by rewrite (proj2 (Z.leb_gt _ _)). Qed.

Lemma leave_words_regs b (k : machine) w g : disp_regs (leave_words b k w) g = frame k g.
Proof.
  unfold leave_words, disp_regs, put_disp_csr. cbn zeta.
  rewrite put_fields_below by (by destruct g).
  assert (exists i, gpr_slot g = Z.of_nat i /\ all_gprs !! i = Some g) as (i & -> & E).
  { exists (Z.to_nat (gpr_slot g)). by destruct g. }
  unfold put_disp_regs. rewrite (put_fields_lookup _ _ _ _ i g E). apply copy_pt_regs_eq.
Qed.

Lemma leave_words_csr b (k : machine) w c : c ∈ kom_csrs -> disp_csr (leave_words b k w) c = csr_get (csrs k) c.
Proof.
  intros Hc. unfold leave_words, disp_csr, put_disp_csr. cbn zeta.
  assert (exists i, csr_slot c = Z.of_nat i /\ kom_csrs !! i = Some c) as (i & -> & E).
  { exists (Z.to_nat (csr_slot c)). destruct c; first [done | by exfalso; revert Hc; in_csrs]. }
  rewrite (put_fields_lookup _ _ _ _ i c E), csrs_save_spec. by rewrite decide_True.
Qed.

(** C17: an interrupted enclave continues where it stopped: when an exception or an
    interrupt takes a running enclave out, and after any steps of the host and of
    other enclaves during which it stays suspended the host resumes its
    dispatcher, the enclave continues with all its registers, all the CSRs of
    csrs.h (mepc included) and all its data pages as they were. *)
Theorem komodo_enclave_roundtrip d a s0 s cause r1 s1 sn s2 r s' : reachable s0 -> user s0 s ->
  enclave_mode s = true -> g_cur_dispatcher_pageno s = d -> own (g_pagedb s) d = a ->
  trap_pre s cause -> cause <> EXC_ECALL_S -> trap cause s = Mret r1 s1 ->
  rtc (suspended_step d a) s1 sn -> user sn s2 -> enclave_mode s2 = false -> trap_pre s2 EXC_ECALL_S ->
  s64 (frame (kmach s2) R_a7) = KOM_SMC_RESUME -> frame (kmach s2) R_a0 = d -> trap EXC_ECALL_S s2 = Mret r s' ->
  enclave_mode s' = true /\ (forall g, r g = frame (kmach s) g) /\
  (forall c, c ∈ kom_csrs -> csr_get (csrs (kmach s')) c = csr_get (csrs (kmach s)) c) /\
  (forall p, valid p -> typ (g_pagedb s) p = KOM_PAGE_DATA -> own (g_pagedb s) p = a ->
     secure_pages s' p = secure_pages s p).
Proof.
  intros I0%k_reachable_inv Hu Hm Hd Ha Hp Hc Et Hs Hu2 Hm2 Hp2 Hnr Ha0 Et2.
  pose proof (kom_user_inv _ _ I0 Hu) as I.
  assert (inv s1) as I1 by (eapply k_step_inv; [exact I|]; exists s, cause; split_and!; [apply rtc_refl|done|by eapply to_other]).
  destruct (mret_leave s cause r1 s1 I Hp Hm Et) as (b & x & y & sy & [(_ & -> & ->)|(? & _)] & _ & E1); [|done].
  destruct (inv_mode s I Hm) as [Rv Rt Rf _ _]. rewrite Hd in *. rewrite Ha in Rf.
  destruct (db_owner _ _ (inv_db s I) d Rv) as [_ Hta]; [by rewrite Rt|]. rewrite Ha in Hta.
  assert (d <> a) as Hda by (intros ->; by rewrite Rt in Hta).
  assert (g_pagedb s1 = g_pagedb s /\ secure_pages s1 = <[d := leave_words true (kmach s) (secure_pages s d)]> (secure_pages s)) as [Et1 Ew1]
    by (rewrite E1; unfold leave_post; cbn; by rewrite Hd).
  assert (suspended d a s1) as Hd1.
  { split_and!; [done|by rewrite Et1|by rewrite Et1|rewrite Ew1; by fn_simpl|]. rewrite E1. by intros []. }
  destruct (kom_suspended_keeps d a s1 sn I1 Hd1 Hs) as (In & Hdn & Hk).
  pose proof (kom_user_inv _ _ In Hu2) as I2. destruct (user_host sn s2 Hu2) as [_ Em2]. rewrite Hm2 in Em2.
  assert (forall p, enclave_page d a s1 p -> secure_pages s2 p = secure_pages s1 p) as Hk2.
  { intros p Hpg. destruct (user_sealed sn s2 p In Hu2) as (_ & _ & _ & ->); [intros (E & _); congruence|by apply Hk]. }
  destruct (mret_enter s2 r s' I2 Hp2 Hm2 Et2) as (p & sx & _ & _ & _ & [(_ & -> & ->)|(E & _)] & -> & ->);
    [|rewrite Hnr in E; done]. rewrite Ha0.
  assert (secure_pages s2 d = leave_words true (kmach s) (secure_pages s d)) as Ed.
  { rewrite Hk2, Ew1; [by fn_simpl|]. split_and!; [done|by rewrite Et1|by left]. }
  split_and!; [done| | |].
  - intros g. cbn [past_ecall on_csrs set_mach kom_machine secure_pages]. rewrite Ed. apply leave_words_regs.
  - intros c Hcc. cbn [enter_post with_mach kmach csrs past_ecall on_csrs set_mach get_mach kom_machine secure_pages].
    rewrite Ed, world_csrs_view by (done || apply csr_put_wf, (inv_csrs _ I2)).
    apply csrs_put_get; [in_csrs|apply (inv_csrs _ I)|done|]. intros c' Hc'. by apply leave_words_csr.
  - intros q Hq Hqt Hqo. cbn [enter_post with_mach past_ecall on_csrs set_mach kom_machine secure_pages].
    rewrite Hk2, Ew1; [|split_and!; [done|by rewrite Et1|right; by rewrite Et1]].
    rewrite fn_lookup_insert_ne; [done|]. intros <-. by rewrite Rt in Hqt.
Qed.
End komodo.
