(* ===== verification/KomodoWitness.v ===== *)
(** Komodo: the theorems at concrete states.  The host builds an enclave with one
    mapped page, finalises it and enters it; an interrupt takes the enclave out,
    the host resumes it, and the enclave exits. *)

From S2P Require Import Prelude.
From S2P Require Import Console.
From S2P Require Import Machine.
From S2P Require Import Mcall.
From S2P Require Import Sv39.
From S2P Require Import Komodo.
From S2P Require Import KomodoDb.
From S2P Require Import KomodoCalls.
From S2P Require Import KomodoInv.
From S2P Require Import KomodoSafety.
From S2P Require Import KomodoProps.
From S2P Require Import KomodoContext.

#[local] Existing Instance log_console.

#[local] Instance sample_layout : Layout.
Proof. by refine {| secure_base := 0x80100000; payload_start := 0x80600000 |}. Defined.

(** The hart at reset; page [n] of the payload holds [n] everywhere. *)
Definition reset_state : kom :=
  mkKom (fun _ => mkEntry 7 7) (fun _ _ => 7) (fun n _ => n) (mkHost zero_regs (fun _ => 0)) false 0
    (mkMachine zero_regs (fun _ => 0) []).

Definition reached {A} (s : kom) (o : outcome kom A) : kom :=
  match o with Ret _ s' | Mret _ s' => s' | Halt _ => s end.

Definition booted : kom := reached reset_state (main 0 0 reset_state).

Definition call_regs (nr a0 a1 a2 a3 a4 : Z) : pt_regs :=
  <[R_a7 := nr]> (<[R_a0 := a0]> (<[R_a1 := a1]> (<[R_a2 := a2]> (<[R_a3 := a3]> (<[R_a4 := a4]> zero_regs))))).

Definition with_regs (regs : pt_regs) (s : kom) : kom := on_frame (fun _ => regs) s.
Definition ecall (regs : pt_regs) (s : kom) : kom := reached s (trap EXC_ECALL_S (with_regs regs s)).

Definition enter_regs : pt_regs := call_regs KOM_SMC_ENTER 5 1 2 3 0.
Definition resume_regs : pt_regs := call_regs KOM_SMC_RESUME 5 0 0 0 0.
Definition exit_regs : pt_regs := call_regs KOM_SVC_EXIT 42 0 0 0 0.

Definition st1 : kom := ecall (call_regs KOM_SMC_INIT_ADDRSPACE 0 1 0 0 0) booted.
Definition st2 : kom := ecall (call_regs KOM_SMC_INIT_L2PTABLE 2 1 0 0 0) st1.
Definition st3 : kom := ecall (call_regs KOM_SMC_INIT_L3PTABLE 3 2 0 0 0) st2.
Definition st4 : kom := ecall (call_regs KOM_SMC_MAP_SECURE 4 3 0 KOM_MAPPING_RWX 9) st3.
Definition st5 : kom := ecall (call_regs KOM_SMC_INIT_DISPATCHER 5 0 0 0 0) st4.
Definition final : kom := ecall (call_regs KOM_SMC_FINALISE 0 0 0 0 0) st5.
Definition inside : kom := ecall enter_regs final.
Definition timer : Z := 2 ^ 63 + 5.
Definition outside : kom := reached inside (trap timer (with_regs zero_regs inside)).
Definition inside2 : kom := ecall resume_regs outside.
Definition exited2 : kom := ecall exit_regs inside2.

(** How an operation ended. *)
Definition returned {A} (o : outcome kom A) : bool := match o with Ret _ _ => true | _ => false end.
Definition switched {A} (o : outcome kom A) : bool := match o with Mret _ _ => true | _ => false end.
Definition regs_of {A} (o : outcome kom A) : pt_regs := match o with Mret r _ => r | _ => zero_regs end.

Lemma returned_eq (o : outcome kom unit) s : returned o = true -> o = Ret tt (reached s o).
Proof. by destruct o as [[]| |]. Qed.

Lemma switched_eq {A} (o : outcome kom A) s : switched o = true -> o = Mret (regs_of o) (reached s o).
Proof. by destruct o. Qed.

Lemma k_call_regs_wf nr a0 a1 a2 a3 a4 :
  uint 64 nr -> uint 64 a0 -> uint 64 a1 -> uint 64 a2 -> uint 64 a3 -> uint 64 a4 ->
  regs_wf (call_regs nr a0 a1 a2 a3 a4).
Proof. intros. intros g. unfold call_regs. rewrite !fn_insert_spec. by repeat case_decide. Qed.

Lemma k_booted_reachable : reachable booted.
Proof.
  apply (reach_boot 0 0 reset_state (regs_of (main 0 0 reset_state))); [|by apply switched_eq; vm_compute].
  split; [split; [by intros c|]|].
  - intros i _. unfold pmp_cfg_byte. cbn [csrs kmach reset_state]. by rewrite Z.shiftr_0_l.
  - intros n Hn i _. cbn. unfold uint. change KOM_INSECURE_NPAGES with 256 in Hn. lia.
Qed.

Lemma with_regs_user regs s : reachable s -> regs_wf regs -> user s (with_regs regs s).
Proof.
  intros R Hr. apply rtc_once. apply (user_cpu s regs (csrs (kmach s))); [done|].
  by split; try apply (inv_csrs s (k_reachable_inv s R)).
Qed.

Definition from_s (s : kom) : bool := csr_get (csrs (kmach s)) CSR_mstatus .& SR_MPP =? SR_MPP_S.

Lemma with_regs_pre regs s cause : regs_wf regs -> from_s s = true -> trap_pre (with_regs regs s) cause.
Proof. intros Hr Hm. split; [done|]. intros _. by apply Z.eqb_eq. Qed.

Definition not_halted {A} (o : outcome kom A) : bool := returned o || switched o.

Lemma kom_sample_step regs s cause : reachable s -> regs_wf regs -> from_s s = true ->
  not_halted (trap cause (with_regs regs s)) = true -> trap_step s (reached s (trap cause (with_regs regs s))).
Proof.
  intros R Hr Hm E. exists (with_regs regs s), cause.
  split_and!; [by apply with_regs_user|by apply with_regs_pre|].
  unfold not_halted in E. apply orb_true_iff in E as [E|E]; [apply to_caller; by apply returned_eq|].
  eapply to_other. by apply switched_eq.
Qed.

Ltac next_state R := eapply reach_step; [apply R|apply kom_sample_step; [apply R|by apply k_call_regs_wf|by vm_compute..]].

Lemma st1_reachable : reachable st1. Proof. next_state k_booted_reachable. Qed.
Lemma st2_reachable : reachable st2. Proof. next_state st1_reachable. Qed.
Lemma st3_reachable : reachable st3. Proof. next_state st2_reachable. Qed.
Lemma st4_reachable : reachable st4. Proof. next_state st3_reachable. Qed.
Lemma st5_reachable : reachable st5. Proof. next_state st4_reachable. Qed.
Lemma final_reachable : reachable final. Proof. next_state st5_reachable. Qed.
Lemma inside_reachable : reachable inside. Proof. next_state final_reachable. Qed.

Lemma zero_regs_wf : regs_wf zero_regs.
Proof. by intros g. Qed.

Lemma outside_step : trap_step inside outside.
Proof. apply kom_sample_step; [apply inside_reachable|apply zero_regs_wf|by vm_compute..]. Qed.
Lemma outside_reachable : reachable outside.
Proof. eapply reach_step; [apply inside_reachable|apply outside_step]. Qed.

Lemma enter_user : user final (with_regs enter_regs final).
Proof. apply with_regs_user; [apply final_reachable|by apply k_call_regs_wf]. Qed.
Lemma enter_pre : trap_pre (with_regs enter_regs final) EXC_ECALL_S.
Proof. apply with_regs_pre; [by apply k_call_regs_wf|by vm_compute]. Qed.

Lemma komodo_trap_total_witness :
  trap EXC_ECALL_S (with_regs enter_regs final) = Halt Shutdown \/
  exists s', trap_to (with_regs enter_regs final) EXC_ECALL_S s' /\ reachable s' /\ inv s'.
Proof. exact (komodo_trap_total final _ _ final_reachable enter_user enter_pre). Defined.

Lemma komodo_pmp_witness : pmp_privs (csrs (kmach outside)) 0x80104000 1 = Some 0.
Proof. rewrite (komodo_pmp outside 0x80104000 outside_reachable ltac:(done)). by vm_compute. Defined.

Lemma komodo_confinement_witness : in_insecure 0x80104018 = true \/ own_data inside 0x80104018.
Proof.
  apply (komodo_confinement inside inside 0x18 0x80104018 (secure_pages inside 3 0));
    [apply inside_reachable|apply rtc_refl|by vm_compute|by vm_compute].
Defined.

Lemma komodo_db_typed_witness : dbinv (g_pagedb inside) (secure_pages inside).
Proof. apply (komodo_db_typed inside), inside_reachable. Defined.

Lemma final_step : trap_step final (ecall (call_regs KOM_SMC_REMOVE 4 0 0 0 0) final).
Proof. apply kom_sample_step; [apply final_reachable|by apply k_call_regs_wf|by vm_compute..]. Qed.

Lemma komodo_integrity_witness :
  g_pagedb (ecall (call_regs KOM_SMC_REMOVE 4 0 0 0 0) final) 4 = g_pagedb final 4 /\
  secure_pages (ecall (call_regs KOM_SMC_REMOVE 4 0 0 0 0) final) 4 = secure_pages final 4.
Proof.
  apply (komodo_integrity final _ 4 final_reachable final_step).
  - split_and!; by vm_compute.
  - by vm_compute.
  - intros [E _]. by vm_compute in E.
Defined.

Lemma komodo_lifecycle_witness :
  life_step (secure_pages final 0 AS_state)
    (secure_pages (ecall (call_regs KOM_SMC_REMOVE 4 0 0 0 0) final) 0 AS_state).
Proof. apply (komodo_lifecycle final _ 0 final_reachable final_step); [done|by vm_compute]. Defined.

Definition refused_regs : pt_regs := call_regs KOM_SMC_REMOVE 4 0 0 0 0.

Lemma komodo_error_atomic_witness : g_pagedb (ecall refused_regs final) = g_pagedb (with_regs refused_regs final).
Proof.
  refine (proj1 (komodo_error_atomic final (with_regs refused_regs final) (ecall refused_regs final) final_reachable _ _ _ _ _ _)).
  - apply with_regs_user; [apply final_reachable|by apply k_call_regs_wf].
  - by vm_compute.
  - apply with_regs_pre; [by apply k_call_regs_wf|by vm_compute].
  - by vm_compute.
  - apply returned_eq. by vm_compute.
  - by vm_compute.
Defined.

Definition mapped : kom := reached st3 (kom_smc_map_secure 4 3 7 KOM_MAPPING_R 9 st3).

Lemma komodo_map_secure_witness : secure_pages mapped 4 = insecure_pages st3 9.
Proof.
  assert (kom_smc_map_secure 4 3 7 KOM_MAPPING_R 9 st3 = Ret KOM_ERR_SUCCESS mapped) as E.
  { unfold mapped. destruct (kom_smc_map_secure 4 3 7 KOM_MAPPING_R 9 st3) as [r s|r s|h] eqn:E.
    - apply (f_equal (fun o => match o with Ret r _ => r | _ => 1 end)) in E. vm_compute in E. by subst r.
    - apply (f_equal switched) in E. by vm_compute in E.
    - apply (f_equal not_halted) in E. by vm_compute in E. }
  exact (proj1 (proj2 (komodo_map_secure 4 3 7 KOM_MAPPING_R 9 st3 mapped st3_reachable ltac:(done) ltac:(done)
    ltac:(done) ltac:(done) E))).
Defined.

Lemma trap_enter_eq : trap EXC_ECALL_S (with_regs enter_regs final) =
  Mret (regs_of (trap EXC_ECALL_S (with_regs enter_regs final))) inside.
Proof. apply switched_eq. by vm_compute. Qed.
Lemma trap_timer_eq : trap timer (with_regs zero_regs inside) =
  Mret (regs_of (trap timer (with_regs zero_regs inside))) outside.
Proof. apply switched_eq. by vm_compute. Qed.
Lemma trap_resume_eq : trap EXC_ECALL_S (with_regs resume_regs outside) =
  Mret (regs_of (trap EXC_ECALL_S (with_regs resume_regs outside))) inside2.
Proof. apply switched_eq. by vm_compute. Qed.

Lemma timer_user : user inside (with_regs zero_regs inside).
Proof. apply with_regs_user; [apply inside_reachable|apply zero_regs_wf]. Qed.
Lemma timer_pre : trap_pre (with_regs zero_regs inside) timer.
Proof. apply with_regs_pre; [apply zero_regs_wf|by vm_compute]. Qed.
Lemma host_mode_final : enclave_mode (with_regs enter_regs final) = false.
Proof. by vm_compute. Qed.

Lemma komodo_host_roundtrip_witness : enclave_mode inside = true /\ enclave_mode outside = false.
Proof.
  destruct (komodo_host_roundtrip final _ _ inside inside _ timer _ outside final_reachable enter_user host_mode_final
    enter_pre trap_enter_eq (rtc_refl _ _) timer_user timer_pre trap_timer_eq) as (H1 & H2 & _).
  exact (conj H1 H2).
Defined.

Lemma resume_facts : enclave_mode (with_regs zero_regs inside) = true /\
  g_cur_dispatcher_pageno (with_regs zero_regs inside) = 5 /\ own (g_pagedb (with_regs zero_regs inside)) 5 = 0 /\
  enclave_mode (with_regs resume_regs outside) = false /\ s64 (frame (kmach (with_regs resume_regs outside)) R_a7) = KOM_SMC_RESUME /\
  frame (kmach (with_regs resume_regs outside)) R_a0 = 5.
Proof. split_and!; by vm_compute. Qed.

Lemma resume_user : user outside (with_regs resume_regs outside).
Proof. apply with_regs_user; [apply outside_reachable|by apply k_call_regs_wf]. Qed.
Lemma resume_pre : trap_pre (with_regs resume_regs outside) EXC_ECALL_S.
Proof. apply with_regs_pre; [by apply k_call_regs_wf|by vm_compute]. Qed.

Lemma komodo_enclave_roundtrip_witness : enclave_mode inside2 = true.
Proof.
  destruct resume_facts as (F1 & F2 & F3 & F4 & F5 & F6).
  exact (proj1 (komodo_enclave_roundtrip 5 0 inside _ timer _ outside outside _ _ inside2 inside_reachable timer_user
    F1 F2 F3 timer_pre ltac:(done) trap_timer_eq (rtc_refl _ _) resume_user F4 resume_pre F5 F6 trap_resume_eq)).
Defined.
