(* ===== verification/Bpf.v ===== *)
(** The eBPF instruction set and its interpreter: the instruction encodings of
    bpf/jit/bpf_common.h and bpf/jit/filter.h with the macros that build
    instructions, and the interpreter of bpf/kbpf.c, macro by macro. *)

From S2P Require Import Prelude Cstring Bytes.

(** * Opcode fields

    Each field of the opcode byte is an enumeration; the coercion of a member to
    its bits lets an opcode be written as in C, as a disjunction of members. *)

Inductive bpf_class := BPF_LD | BPF_LDX | BPF_ST | BPF_STX | BPF_ALU | BPF_JMP | BPF_JMP32 | BPF_ALU64.

Definition class_code (c : bpf_class) : Z :=
  match c with
  | BPF_LD => 0x00 | BPF_LDX => 0x01 | BPF_ST => 0x02 | BPF_STX => 0x03
  | BPF_ALU => 0x04 | BPF_JMP => 0x05 | BPF_JMP32 => 0x06 | BPF_ALU64 => 0x07
  end.
Coercion class_code : bpf_class >-> Z.

Inductive bpf_size := BPF_W | BPF_H | BPF_B | BPF_DW.

Definition size_code (s : bpf_size) : Z :=
  match s with BPF_W => 0x00 | BPF_H => 0x08 | BPF_B => 0x10 | BPF_DW => 0x18 end.
Coercion size_code : bpf_size >-> Z.

Inductive bpf_mode := BPF_IMM | BPF_ABS | BPF_IND | BPF_MEM | BPF_LEN | BPF_MSH | BPF_XADD.

Definition mode_code (m : bpf_mode) : Z :=
  match m with
  | BPF_IMM => 0x00 | BPF_ABS => 0x20 | BPF_IND => 0x40 | BPF_MEM => 0x60
  | BPF_LEN => 0x80 | BPF_MSH => 0xa0 | BPF_XADD => 0xc0
  end.
Coercion mode_code : bpf_mode >-> Z.

Inductive bpf_alu_op :=
| BPF_ADD | BPF_SUB | BPF_MUL | BPF_DIV | BPF_OR | BPF_AND | BPF_LSH | BPF_RSH
| BPF_NEG | BPF_MOD | BPF_XOR | BPF_MOV | BPF_ARSH | BPF_END.

Definition alu_code (o : bpf_alu_op) : Z :=
  match o with
  | BPF_ADD => 0x00 | BPF_SUB => 0x10 | BPF_MUL => 0x20 | BPF_DIV => 0x30
  | BPF_OR => 0x40 | BPF_AND => 0x50 | BPF_LSH => 0x60 | BPF_RSH => 0x70
  | BPF_NEG => 0x80 | BPF_MOD => 0x90 | BPF_XOR => 0xa0
  | BPF_MOV => 0xb0 | BPF_ARSH => 0xc0 | BPF_END => 0xd0
  end.
Coercion alu_code : bpf_alu_op >-> Z.

Inductive bpf_jmp_op :=
| BPF_JA | BPF_JEQ | BPF_JGT | BPF_JGE | BPF_JSET
| BPF_JNE | BPF_JSGT | BPF_JSGE | BPF_CALL | BPF_EXIT | BPF_JLT | BPF_JLE | BPF_JSLT | BPF_JSLE.

Definition jmp_code (o : bpf_jmp_op) : Z :=
  match o with
  | BPF_JA => 0x00 | BPF_JEQ => 0x10 | BPF_JGT => 0x20 | BPF_JGE => 0x30 | BPF_JSET => 0x40
  | BPF_JNE => 0x50 | BPF_JSGT => 0x60 | BPF_JSGE => 0x70 | BPF_CALL => 0x80 | BPF_EXIT => 0x90
  | BPF_JLT => 0xa0 | BPF_JLE => 0xb0 | BPF_JSLT => 0xc0 | BPF_JSLE => 0xd0
  end.
Coercion jmp_code : bpf_jmp_op >-> Z.

Inductive bpf_src := BPF_K | BPF_X.

Definition src_code (s : bpf_src) : Z := match s with BPF_K => 0x00 | BPF_X => 0x08 end.
Coercion src_code : bpf_src >-> Z.

#[global] Instance bpf_size_eq_dec : EqDecision bpf_size.
Proof. solve_decision. Defined.
#[global] Instance bpf_alu_op_eq_dec : EqDecision bpf_alu_op.
Proof. solve_decision. Defined.
#[global] Instance bpf_src_eq_dec : EqDecision bpf_src.
Proof. solve_decision. Defined.
#[global] Instance bpf_jmp_op_eq_dec : EqDecision bpf_jmp_op.
Proof. solve_decision. Defined.

Definition BPF_TO_LE : Z := 0x00.
Definition BPF_TO_BE : Z := 0x08.
Definition BPF_FROM_LE : Z := BPF_TO_LE.
Definition BPF_FROM_BE : Z := BPF_TO_BE.
Definition BPF_TAIL_CALL : Z := 0xf0.

Definition BPF_CLASS (code : Z) : Z := code .& 0x07.
Definition BPF_SIZE (code : Z) : Z := code .& 0x18.
Definition BPF_MODE (code : Z) : Z := code .& 0xe0.
Definition BPF_OP (code : Z) : Z := code .& 0xf0.
Definition BPF_SRC (code : Z) : Z := code .& 0x08.

(** * Registers and instructions *)

(** BPF_REG_0 to BPF_REG_10 are 0 to 10; BPF_REG_AX is the hidden register. *)
Definition MAX_BPF_REG : Z := 11.
Definition BPF_REG_FP : Z := 10.
Definition BPF_REG_ARG1 : Z := 1.
Definition BPF_REG_AX : Z := MAX_BPF_REG.
Definition MAX_BPF_EXT_REG : Z := MAX_BPF_REG + 1.
Definition MAX_BPF_STACK : Z := 512.

Record bpf_insn := Insn { code : Z; dst_reg : Z; src_reg : Z; off : Z; imm : Z }.

(** The values the bit-fields and integers of the structure can hold. *)
Definition insn_wf (i : bpf_insn) : Prop :=
  uint 8 (code i) /\ uint 4 (dst_reg i) /\ uint 4 (src_reg i) /\
  - 2 ^ 15 <= off i < 2 ^ 15 /\ - 2 ^ 31 <= imm i < 2 ^ 31.

(** Selects the case of a switch whose labels contain [c]. *)
Definition has_label (c : Z) (labels : list Z) : bool :=
  existsb (fun l => match c ?= l with Eq => true | _ => false end) labels.

Fixpoint switch {A} (c : Z) (cases : list (list Z * A)) (default : A) : A :=
  match cases with
  | [] => default
  | (labels, body) :: cases => if has_label c labels then body else switch c cases default
  end.

(** ** The macros that build instructions *)

Definition BPF_ALU64_REG (OP : Z) (DST SRC : Z) : bpf_insn := Insn (BPF_ALU64 .| BPF_OP OP .| BPF_X) DST SRC 0 0.
Definition BPF_ALU32_REG (OP : Z) (DST SRC : Z) : bpf_insn := Insn (BPF_ALU .| BPF_OP OP .| BPF_X) DST SRC 0 0.
Definition BPF_ALU64_IMM (OP : Z) (DST IMM : Z) : bpf_insn := Insn (BPF_ALU64 .| BPF_OP OP .| BPF_K) DST 0 0 (s32 IMM).
Definition BPF_ALU32_IMM (OP : Z) (DST IMM : Z) : bpf_insn := Insn (BPF_ALU .| BPF_OP OP .| BPF_K) DST 0 0 (s32 IMM).
Definition BPF_ENDIAN (TYPE DST LEN : Z) : bpf_insn := Insn (BPF_ALU .| BPF_END .| BPF_SRC TYPE) DST 0 0 (s32 LEN).
Definition BPF_MOV64_REG (DST SRC : Z) : bpf_insn := Insn (BPF_ALU64 .| BPF_MOV .| BPF_X) DST SRC 0 0.
Definition BPF_MOV32_REG (DST SRC : Z) : bpf_insn := Insn (BPF_ALU .| BPF_MOV .| BPF_X) DST SRC 0 0.
Definition BPF_MOV64_IMM (DST IMM : Z) : bpf_insn := Insn (BPF_ALU64 .| BPF_MOV .| BPF_K) DST 0 0 (s32 IMM).
Definition BPF_MOV32_IMM (DST IMM : Z) : bpf_insn := Insn (BPF_ALU .| BPF_MOV .| BPF_K) DST 0 0 (s32 IMM).

(** A 64-bit immediate takes two instructions: low half, then high half. *)
Definition BPF_LD_IMM64_RAW (DST SRC IMM : Z) : list bpf_insn :=
  [Insn (BPF_LD .| BPF_DW .| BPF_IMM) DST SRC 0 (s32 (u32 IMM)); Insn 0 0 0 0 (s32 (u64 IMM ≫ 32))].
Definition BPF_LD_IMM64 (DST IMM : Z) : list bpf_insn := BPF_LD_IMM64_RAW DST 0 IMM.

Definition BPF_LDX_MEM (SIZE DST SRC OFF : Z) : bpf_insn := Insn (BPF_LDX .| BPF_SIZE SIZE .| BPF_MEM) DST SRC (s16 OFF) 0.
Definition BPF_STX_MEM (SIZE DST SRC OFF : Z) : bpf_insn := Insn (BPF_STX .| BPF_SIZE SIZE .| BPF_MEM) DST SRC (s16 OFF) 0.
Definition BPF_STX_XADD (SIZE DST SRC OFF : Z) : bpf_insn := Insn (BPF_STX .| BPF_SIZE SIZE .| BPF_XADD) DST SRC (s16 OFF) 0.
Definition BPF_ST_MEM (SIZE DST OFF IMM : Z) : bpf_insn := Insn (BPF_ST .| BPF_SIZE SIZE .| BPF_MEM) DST 0 (s16 OFF) (s32 IMM).
Definition BPF_JMP_REG (OP DST SRC OFF : Z) : bpf_insn := Insn (BPF_JMP .| BPF_OP OP .| BPF_X) DST SRC (s16 OFF) 0.
Definition BPF_JMP_IMM (OP DST IMM OFF : Z) : bpf_insn := Insn (BPF_JMP .| BPF_OP OP .| BPF_K) DST 0 (s16 OFF) (s32 IMM).
Definition BPF_JMP32_REG (OP DST SRC OFF : Z) : bpf_insn := Insn (BPF_JMP32 .| BPF_OP OP .| BPF_X) DST SRC (s16 OFF) 0.
Definition BPF_JMP32_IMM (OP DST IMM OFF : Z) : bpf_insn := Insn (BPF_JMP32 .| BPF_OP OP .| BPF_K) DST 0 (s16 OFF) (s32 IMM).
Definition BPF_JMP_A (OFF : Z) : bpf_insn := Insn (BPF_JMP .| BPF_JA) 0 0 (s16 OFF) 0.
Definition BPF_RAW_INSN (CODE DST SRC OFF IMM : Z) : bpf_insn := Insn CODE DST SRC (s16 OFF) (s32 IMM).
Definition BPF_EXIT_INSN : bpf_insn := Insn (BPF_JMP .| BPF_EXIT) 0 0 0 0.

(** Access sizes in bytes; -EINVAL (22) for other values. *)
Definition bytes_to_bpf_size (bytes : Z) : Z :=
  if bytes =? 1 then BPF_B else if bytes =? 2 then BPF_H
  else if bytes =? 4 then BPF_W else if bytes =? 8 then BPF_DW else -22.

Definition bpf_size_to_bytes (bpf_size : Z) : Z :=
  if bpf_size =? BPF_B then 1 else if bpf_size =? BPF_H then 2
  else if bpf_size =? BPF_W then 4 else if bpf_size =? BPF_DW then 8 else -22.

(** The opcodes the switch of ___bpf_prog_run has a label for. *)
Definition BPF_INSN_MAP : list Z :=
  [ (* Register based. *)
    BPF_ALU .| BPF_ADD .| BPF_X; BPF_ALU .| BPF_SUB .| BPF_X; BPF_ALU .| BPF_AND .| BPF_X;
    BPF_ALU .| BPF_OR .| BPF_X; BPF_ALU .| BPF_LSH .| BPF_X; BPF_ALU .| BPF_RSH .| BPF_X;
    BPF_ALU .| BPF_XOR .| BPF_X; BPF_ALU .| BPF_MUL .| BPF_X; BPF_ALU .| BPF_MOV .| BPF_X;
    BPF_ALU .| BPF_ARSH .| BPF_X; BPF_ALU .| BPF_DIV .| BPF_X; BPF_ALU .| BPF_MOD .| BPF_X;
    BPF_ALU .| BPF_NEG; BPF_ALU .| BPF_END .| BPF_TO_BE; BPF_ALU .| BPF_END .| BPF_TO_LE;
    (* Immediate based. *)
    BPF_ALU .| BPF_ADD .| BPF_K; BPF_ALU .| BPF_SUB .| BPF_K; BPF_ALU .| BPF_AND .| BPF_K;
    BPF_ALU .| BPF_OR .| BPF_K; BPF_ALU .| BPF_LSH .| BPF_K; BPF_ALU .| BPF_RSH .| BPF_K;
    BPF_ALU .| BPF_XOR .| BPF_K; BPF_ALU .| BPF_MUL .| BPF_K; BPF_ALU .| BPF_MOV .| BPF_K;
    BPF_ALU .| BPF_ARSH .| BPF_K; BPF_ALU .| BPF_DIV .| BPF_K; BPF_ALU .| BPF_MOD .| BPF_K;
    (* Register based. *)
    BPF_ALU64 .| BPF_ADD .| BPF_X; BPF_ALU64 .| BPF_SUB .| BPF_X; BPF_ALU64 .| BPF_AND .| BPF_X;
    BPF_ALU64 .| BPF_OR .| BPF_X; BPF_ALU64 .| BPF_LSH .| BPF_X; BPF_ALU64 .| BPF_RSH .| BPF_X;
    BPF_ALU64 .| BPF_XOR .| BPF_X; BPF_ALU64 .| BPF_MUL .| BPF_X; BPF_ALU64 .| BPF_MOV .| BPF_X;
    BPF_ALU64 .| BPF_ARSH .| BPF_X; BPF_ALU64 .| BPF_DIV .| BPF_X; BPF_ALU64 .| BPF_MOD .| BPF_X;
    BPF_ALU64 .| BPF_NEG;
    (* Immediate based. *)
    BPF_ALU64 .| BPF_ADD .| BPF_K; BPF_ALU64 .| BPF_SUB .| BPF_K; BPF_ALU64 .| BPF_AND .| BPF_K;
    BPF_ALU64 .| BPF_OR .| BPF_K; BPF_ALU64 .| BPF_LSH .| BPF_K; BPF_ALU64 .| BPF_RSH .| BPF_K;
    BPF_ALU64 .| BPF_XOR .| BPF_K; BPF_ALU64 .| BPF_MUL .| BPF_K; BPF_ALU64 .| BPF_MOV .| BPF_K;
    BPF_ALU64 .| BPF_ARSH .| BPF_K; BPF_ALU64 .| BPF_DIV .| BPF_K; BPF_ALU64 .| BPF_MOD .| BPF_K;
    (* Call instruction. *)
    BPF_JMP .| BPF_CALL;
    (* Exit instruction. *)
    BPF_JMP .| BPF_EXIT;
    (* Register based. *)
    BPF_JMP32 .| BPF_JEQ .| BPF_X; BPF_JMP32 .| BPF_JNE .| BPF_X; BPF_JMP32 .| BPF_JGT .| BPF_X;
    BPF_JMP32 .| BPF_JLT .| BPF_X; BPF_JMP32 .| BPF_JGE .| BPF_X; BPF_JMP32 .| BPF_JLE .| BPF_X;
    BPF_JMP32 .| BPF_JSGT .| BPF_X; BPF_JMP32 .| BPF_JSLT .| BPF_X; BPF_JMP32 .| BPF_JSGE .| BPF_X;
    BPF_JMP32 .| BPF_JSLE .| BPF_X; BPF_JMP32 .| BPF_JSET .| BPF_X;
    (* Immediate based. *)
    BPF_JMP32 .| BPF_JEQ .| BPF_K; BPF_JMP32 .| BPF_JNE .| BPF_K; BPF_JMP32 .| BPF_JGT .| BPF_K;
    BPF_JMP32 .| BPF_JLT .| BPF_K; BPF_JMP32 .| BPF_JGE .| BPF_K; BPF_JMP32 .| BPF_JLE .| BPF_K;
    BPF_JMP32 .| BPF_JSGT .| BPF_K; BPF_JMP32 .| BPF_JSLT .| BPF_K; BPF_JMP32 .| BPF_JSGE .| BPF_K;
    BPF_JMP32 .| BPF_JSLE .| BPF_K; BPF_JMP32 .| BPF_JSET .| BPF_K;
    (* Register based. *)
    BPF_JMP .| BPF_JEQ .| BPF_X; BPF_JMP .| BPF_JNE .| BPF_X; BPF_JMP .| BPF_JGT .| BPF_X;
    BPF_JMP .| BPF_JLT .| BPF_X; BPF_JMP .| BPF_JGE .| BPF_X; BPF_JMP .| BPF_JLE .| BPF_X;
    BPF_JMP .| BPF_JSGT .| BPF_X; BPF_JMP .| BPF_JSLT .| BPF_X; BPF_JMP .| BPF_JSGE .| BPF_X;
    BPF_JMP .| BPF_JSLE .| BPF_X; BPF_JMP .| BPF_JSET .| BPF_X;
    (* Immediate based. *)
    BPF_JMP .| BPF_JEQ .| BPF_K; BPF_JMP .| BPF_JNE .| BPF_K; BPF_JMP .| BPF_JGT .| BPF_K;
    BPF_JMP .| BPF_JLT .| BPF_K; BPF_JMP .| BPF_JGE .| BPF_K; BPF_JMP .| BPF_JLE .| BPF_K;
    BPF_JMP .| BPF_JSGT .| BPF_K; BPF_JMP .| BPF_JSLT .| BPF_K; BPF_JMP .| BPF_JSGE .| BPF_K;
    BPF_JMP .| BPF_JSLE .| BPF_K; BPF_JMP .| BPF_JSET .| BPF_K; BPF_JMP .| BPF_JA;
    (* Register based. *)
    BPF_STX .| BPF_MEM .| BPF_B; BPF_STX .| BPF_MEM .| BPF_H; BPF_STX .| BPF_MEM .| BPF_W;
    BPF_STX .| BPF_MEM .| BPF_DW; BPF_STX .| BPF_XADD .| BPF_W; BPF_STX .| BPF_XADD .| BPF_DW;
    (* Immediate based. *)
    BPF_ST .| BPF_MEM .| BPF_B; BPF_ST .| BPF_MEM .| BPF_H; BPF_ST .| BPF_MEM .| BPF_W;
    BPF_ST .| BPF_MEM .| BPF_DW;
    (* Register based. *)
    BPF_LDX .| BPF_MEM .| BPF_B; BPF_LDX .| BPF_MEM .| BPF_H; BPF_LDX .| BPF_MEM .| BPF_W;
    BPF_LDX .| BPF_MEM .| BPF_DW;
    (* Immediate based. *)
    BPF_LD .| BPF_IMM .| BPF_DW ].

(** * The interpreter

    The state is the register array, the memory and the index of the current
    instruction. Behaviour that C leaves undefined (a shift by the width or
    more, a division by zero, a register index outside the array, an
    instruction outside the program) is [None]. *)

Record bpf_state := BpfSt { bregs : Z -> Z; bmem : mem; bpc : Z }.

Inductive bpf_out :=
| Cont (s : bpf_state)    (** goto select_insn *)
| Return (r0 : Z)         (** return from the program *)
| Bug.                    (** BUG_ON(1) *)

Definition handler := (Z -> option bpf_insn) -> bpf_insn -> bpf_state -> option bpf_out.

Definition get_reg (r : Z) (s : bpf_state) : option Z :=
  if r <? MAX_BPF_EXT_REG then Some (bregs s r) else None.
Definition set_reg (r v : Z) (s : bpf_state) : option bpf_state :=
  if r <? MAX_BPF_EXT_REG then Some (BpfSt (<[r := v]> (bregs s)) (bmem s) (bpc s)) else None.
Definition set_bmem (m : mem) (s : bpf_state) : bpf_state := BpfSt (bregs s) m (bpc s).
Definition set_bpc (p : Z) (s : bpf_state) : bpf_state := BpfSt (bregs s) (bmem s) p.

(** insn++; goto select_insn *)
Definition CONT (s : bpf_state) : option bpf_out := Some (Cont (set_bpc (bpc s + 1) s)).

(** DST = f(DST, SRC) or f(DST, IMM), and then the next instruction. *)
Definition dst_src (f : Z -> Z -> option Z) : handler := fun _ insn s =>
  d ← get_reg (dst_reg insn) s; x ← get_reg (src_reg insn) s; v ← f d x;
  s' ← set_reg (dst_reg insn) v s; CONT s'.
Definition dst_imm (f : Z -> Z -> option Z) : handler := fun _ insn s =>
  d ← get_reg (dst_reg insn) s; v ← f d (imm insn); s' ← set_reg (dst_reg insn) v s; CONT s'.

(** The shifts of C on [w]-bit unsigned operands. *)
Definition c_shl (w a n : Z) : option Z := if (0 <=? n) && (n <? w) then Some (wrap w (a ≪ n)) else None.
Definition c_shr (w a n : Z) : option Z := if (0 <=? n) && (n <? w) then Some (a ≫ n) else None.
(** The shift of a [w]-bit signed operand, as a bit pattern. *)
Definition c_sar (w a n : Z) : option Z :=
  if (0 <=? n) && (n <? w) then Some (wrap w (sgn w a ≫ n)) else None.

(** The operators the ALU macro is instantiated with, on operands of the same
    unsigned type of [w] bits; the shifts take the count as it is. *)
Definition c_add (w a b : Z) : option Z := Some (wrap w (a + b)).
Definition c_sub (w a b : Z) : option Z := Some (wrap w (a - b)).
Definition c_and (w a b : Z) : option Z := Some (a .& wrap w b).
Definition c_or (w a b : Z) : option Z := Some (a .| wrap w b).
Definition c_xor (w a b : Z) : option Z := Some (Z.lxor a (wrap w b)).
Definition c_mul (w a b : Z) : option Z := Some (wrap w (a * b)).

(** ALU(OPCODE, OP) *)
Definition ALU (OPCODE : bpf_alu_op) (OP : Z -> Z -> Z -> option Z) : list (list Z * handler) :=
  [([BPF_ALU64 .| OPCODE .| BPF_X], dst_src (fun d s => OP 64 d s));
   ([BPF_ALU .| OPCODE .| BPF_X], dst_src (fun d s => OP 32 (u32 d) (u32 s)));
   ([BPF_ALU64 .| OPCODE .| BPF_K], dst_imm (fun d k => OP 64 d k));
   ([BPF_ALU .| OPCODE .| BPF_K], dst_imm (fun d k => OP 32 (u32 d) (u32 k)))].

(** do_div(n, base): the quotient, left in n, and the 32-bit remainder. *)
Definition do_div (n base : Z) : option (Z * Z) :=
  let __base := u32 base in
  if __base =? 0 then None else Some (n / __base, u32 (n mod __base)).

Definition div64_u64 (dividend divisor : Z) : option Z :=
  if u64 divisor =? 0 then None else Some (dividend / u64 divisor).

(** The quotient and the remainder left in *remainder. *)
Definition div64_u64_rem (dividend divisor : Z) : option (Z * Z) :=
  if u64 divisor =? 0 then None else Some (dividend / u64 divisor, dividend mod u64 divisor).

(** The operand of a division: SRC or IMM. *)
Definition operand (x : bpf_src) (insn : bpf_insn) (s : bpf_state) : option Z :=
  match x with BPF_X => get_reg (src_reg insn) s | BPF_K => Some (imm insn) end.

(** ALU64_MOD: div64_u64_rem(DST, operand, &AX); DST = AX *)
Definition alu64_mod (x : bpf_src) : handler := fun _ insn s =>
  d ← get_reg (dst_reg insn) s; v ← operand x insn s; qr ← div64_u64_rem d v;
  s ← set_reg BPF_REG_AX qr.2 s; ax ← get_reg BPF_REG_AX s; s ← set_reg (dst_reg insn) ax s; CONT s.

(** ALU_MOD: AX = (u32) DST; DST = do_div(AX, (u32) operand) *)
Definition alu_mod (x : bpf_src) : handler := fun _ insn s =>
  d ← get_reg (dst_reg insn) s; s ← set_reg BPF_REG_AX (u32 d) s;
  v ← operand x insn s; ax ← get_reg BPF_REG_AX s; qr ← do_div ax (u32 v);
  s ← set_reg BPF_REG_AX qr.1 s; s ← set_reg (dst_reg insn) qr.2 s; CONT s.

(** ALU64_DIV: DST = div64_u64(DST, operand) *)
Definition alu64_div (x : bpf_src) : handler := fun _ insn s =>
  d ← get_reg (dst_reg insn) s; v ← operand x insn s; q ← div64_u64 d v;
  s ← set_reg (dst_reg insn) q s; CONT s.

(** ALU_DIV: AX = (u32) DST; do_div(AX, (u32) operand); DST = (u32) AX *)
Definition alu_div (x : bpf_src) : handler := fun _ insn s =>
  d ← get_reg (dst_reg insn) s; s ← set_reg BPF_REG_AX (u32 d) s;
  v ← operand x insn s; ax ← get_reg BPF_REG_AX s; qr ← do_div ax (u32 v);
  s ← set_reg BPF_REG_AX qr.1 s; ax ← get_reg BPF_REG_AX s; s ← set_reg (dst_reg insn) (u32 ax) s; CONT s.

(** ALU_END_TO_BE and ALU_END_TO_LE: a size other than 16, 32 and 64 leaves DST alone. *)
Definition alu_end (f16 f32 f64 : Z -> Z) : handler := fun _ insn s =>
  d ← get_reg (dst_reg insn) s;
  s ← (if imm insn =? 16 then set_reg (dst_reg insn) (u16 (f16 d)) s
       else if imm insn =? 32 then set_reg (dst_reg insn) (u32 (f32 d)) s
       else if imm insn =? 64 then set_reg (dst_reg insn) (u64 (f64 d)) s
       else Some s);
  CONT s.

(** LD_IMM_DW reads the second half from the next instruction and skips it. *)
Definition ld_imm_dw : handler := fun prog insn s =>
  insn1 ← prog (bpc s + 1);
  s ← set_reg (dst_reg insn) (u32 (imm insn) .| u64 (u32 (imm insn1) ≪ 32)) s;
  CONT (set_bpc (bpc s + 1) s).

(** insn += insn->off *)
Definition jmp_ja : handler := fun _ insn s => CONT (set_bpc (bpc s + off insn) s).

(** COND_JMP(SIGN, OPCODE, CMP_OP): [conv w] is the cast to the [w]-bit type. *)
Definition cond (CMP : Z -> Z -> bool) (conv : Z -> Z) (x : bpf_src) : handler := fun _ insn s =>
  d ← get_reg (dst_reg insn) s; v ← operand x insn s;
  if CMP (conv d) (conv v) then CONT (set_bpc (bpc s + off insn) s) else CONT s.

Definition COND_JMP (conv : Z -> Z -> Z) (OPCODE : bpf_jmp_op) (CMP : Z -> Z -> bool) : list (list Z * handler) :=
  [([BPF_JMP .| OPCODE .| BPF_X], cond CMP (conv 64) BPF_X);
   ([BPF_JMP32 .| OPCODE .| BPF_X], cond CMP (conv 32) BPF_X);
   ([BPF_JMP .| OPCODE .| BPF_K], cond CMP (conv 64) BPF_K);
   ([BPF_JMP32 .| OPCODE .| BPF_K], cond CMP (conv 32) BPF_K)].

(** LDST(SIZEOP, SIZE): a store of a register or of an immediate, and a load, of
    [n] bytes. *)
Definition LDST (SIZEOP : bpf_size) (n : nat) : list (list Z * handler) :=
  [([BPF_STX .| BPF_MEM .| SIZEOP], fun _ insn s =>
      d ← get_reg (dst_reg insn) s; v ← get_reg (src_reg insn) s;
      CONT (set_bmem (store_le 64 n (bmem s) (d + off insn) v) s));
   ([BPF_ST .| BPF_MEM .| SIZEOP], fun _ insn s =>
      d ← get_reg (dst_reg insn) s; CONT (set_bmem (store_le 64 n (bmem s) (d + off insn) (imm insn)) s));
   ([BPF_LDX .| BPF_MEM .| SIZEOP], fun _ insn s =>
      b ← get_reg (src_reg insn) s;
      s ← set_reg (dst_reg insn) (load_le 64 n (bmem s) (b + off insn)) s; CONT s)].

(** v->counter += i on a counter of [n] bytes. *)
Definition atomic_add (n : nat) (m : mem) (i v : Z) : mem := store_le 64 n m v (load_le 64 n m v + i).

(** STX_XADD_W and STX_XADD_DW *)
Definition stx_xadd (n : nat) : handler := fun _ insn s =>
  d ← get_reg (dst_reg insn) s; x ← get_reg (src_reg insn) s;
  CONT (set_bmem (atomic_add n (bmem s) (wrap (8 * Z.of_nat n) x) (d + off insn)) s).

(** All labels of ___bpf_prog_run. *)
Definition bpf_labels : list (list Z * handler) :=
  ALU BPF_ADD c_add ++ ALU BPF_SUB c_sub ++ ALU BPF_AND c_and ++ ALU BPF_OR c_or ++
  ALU BPF_LSH c_shl ++ ALU BPF_RSH c_shr ++ ALU BPF_XOR c_xor ++ ALU BPF_MUL c_mul ++
  [([BPF_ALU .| BPF_NEG], dst_imm (fun d _ => Some (u32 (- d))));
   ([BPF_ALU64 .| BPF_NEG], dst_imm (fun d _ => Some (u64 (- d))));
   ([BPF_ALU .| BPF_MOV .| BPF_X], dst_src (fun _ s => Some (u32 s)));
   ([BPF_ALU .| BPF_MOV .| BPF_K], dst_imm (fun _ k => Some (u32 k)));
   ([BPF_ALU64 .| BPF_MOV .| BPF_X], dst_src (fun _ s => Some s));
   ([BPF_ALU64 .| BPF_MOV .| BPF_K], dst_imm (fun _ k => Some (u64 k)));
   ([BPF_LD .| BPF_IMM .| BPF_DW], ld_imm_dw);
   ([BPF_ALU .| BPF_ARSH .| BPF_X], dst_src (fun d s => c_sar 32 (u32 d) s));
   ([BPF_ALU .| BPF_ARSH .| BPF_K], dst_imm (fun d k => c_sar 32 (u32 d) k));
   ([BPF_ALU64 .| BPF_ARSH .| BPF_X], dst_src (fun d s => c_sar 64 d s));
   ([BPF_ALU64 .| BPF_ARSH .| BPF_K], dst_imm (fun d k => c_sar 64 d k));
   ([BPF_ALU64 .| BPF_MOD .| BPF_X], alu64_mod BPF_X);
   ([BPF_ALU .| BPF_MOD .| BPF_X], alu_mod BPF_X);
   ([BPF_ALU64 .| BPF_MOD .| BPF_K], alu64_mod BPF_K);
   ([BPF_ALU .| BPF_MOD .| BPF_K], alu_mod BPF_K);
   ([BPF_ALU64 .| BPF_DIV .| BPF_X], alu64_div BPF_X);
   ([BPF_ALU .| BPF_DIV .| BPF_X], alu_div BPF_X);
   ([BPF_ALU64 .| BPF_DIV .| BPF_K], alu64_div BPF_K);
   ([BPF_ALU .| BPF_DIV .| BPF_K], alu_div BPF_K);
   ([BPF_ALU .| BPF_END .| BPF_TO_BE], alu_end cpu_to_be16 cpu_to_be32 cpu_to_be64);
   ([BPF_ALU .| BPF_END .| BPF_TO_LE], alu_end cpu_to_le16 cpu_to_le32 cpu_to_le64);
   ([BPF_JMP .| BPF_CALL], fun _ _ s => CONT s);
   ([BPF_JMP .| BPF_JA], jmp_ja);
   ([BPF_JMP .| BPF_EXIT], fun _ _ s => Some (Return (bregs s 0)))] ++
  COND_JMP wrap BPF_JEQ Z.eqb ++ COND_JMP wrap BPF_JNE (fun a b => negb (a =? b)) ++
  COND_JMP wrap BPF_JGT Z.gtb ++ COND_JMP wrap BPF_JLT Z.ltb ++
  COND_JMP wrap BPF_JGE Z.geb ++ COND_JMP wrap BPF_JLE Z.leb ++
  COND_JMP wrap BPF_JSET (fun a b => negb (a .& b =? 0)) ++
  COND_JMP sgn BPF_JSGT Z.gtb ++ COND_JMP sgn BPF_JSLT Z.ltb ++
  COND_JMP sgn BPF_JSGE Z.geb ++ COND_JMP sgn BPF_JSLE Z.leb ++
  LDST BPF_B 1 ++ LDST BPF_H 2 ++ LDST BPF_W 4 ++ LDST BPF_DW 8 ++
  [([BPF_STX .| BPF_XADD .| BPF_W], stx_xadd 4);
   ([BPF_STX .| BPF_XADD .| BPF_DW], stx_xadd 8)].

(** select_insn: one instruction; an opcode without a label is a bug. *)
Definition bpf_step (prog : Z -> option bpf_insn) (s : bpf_state) : option bpf_out :=
  insn ← prog (bpc s);
  if has_label (code insn) BPF_INSN_MAP
  then switch (code insn) bpf_labels (fun _ _ _ => None) prog insn s
  else Some Bug.

(** ___bpf_prog_run: at most [fuel] instructions; [Some (Cont s)] when they did
    not reach the end of the program. *)
Fixpoint ___bpf_prog_run (fuel : nat) (prog : Z -> option bpf_insn) (s : bpf_state) : option bpf_out :=
  match fuel with
  | O => Some (Cont s)
  | S fuel =>
      o ← bpf_step prog s;
      match o with
      | Cont s => ___bpf_prog_run fuel prog s
      | _ => Some o
      end
  end.

(** bpf_prog_run: the frame pointer is the end of the stack at [stack], and the
    first argument the context [ctx]; the result is truncated to unsigned int. *)
Definition bpf_prog_run (ctx stack : Z) (fuel : nat) (prog : Z -> option bpf_insn)
    (regs : Z -> Z) (m : mem) : option bpf_out :=
  let regs := <[BPF_REG_FP := stack + MAX_BPF_STACK]> regs in
  let regs := <[BPF_REG_ARG1 := ctx]> regs in
  o ← ___bpf_prog_run fuel prog (BpfSt regs m 0);
  Some match o with Return r => Return (u32 r) | _ => o end.

(** Every opcode of the table has exactly one handler, and every handler is in it. *)
Lemma bpf_labels_map : Permutation (concat (bpf_labels.*1)) BPF_INSN_MAP.
Proof. apply (bool_decide_unpack _). vm_compute. exact I. Qed.
