(* ===== verification/BpfSteps.v ===== *)
(** The interpreter, instruction class by instruction class: the values its
    instructions compute, the conditions of its jumps, and what a step that
    continues has done to the registers below AX, the memory and the pc. The
    proofs of both compilers start from these facts. *)

From S2P Require Import Prelude Cstring Bytes Bpf.

(** * Values, conditions and sizes *)

(** The value an arithmetic instruction gives its destination [a]; [b] is the
    source register, or the immediate. *)
Definition alu_val (is64 : bool) (op : bpf_alu_op) (a b : Z) : option Z :=
  let w := if is64 then 64 else 32 in
  let a' := if is64 then a else u32 a in
  let b' := if is64 then b else u32 b in
  match op with
  | BPF_ADD => c_add w a' b'
  | BPF_SUB => c_sub w a' b'
  | BPF_AND => c_and w a' b'
  | BPF_OR => c_or w a' b'
  | BPF_XOR => c_xor w a' b'
  | BPF_MUL => c_mul w a' b'
  | BPF_LSH => c_shl w a' b'
  | BPF_RSH => c_shr w a' b'
  | BPF_ARSH => c_sar w a' b
  | BPF_MOV => Some (wrap w b)
  | BPF_NEG => Some (wrap w (- a))
  | BPF_DIV => if is64 then div64_u64 a b else qr ← do_div a' b'; Some (u32 qr.1)
  | BPF_MOD => if is64 then qr ← div64_u64_rem a b; Some qr.2 else qr ← do_div a' b'; Some qr.2
  | BPF_END => None
  end.

(** The condition of a jump instruction in the interpreter; [b] is the source
    register or the immediate. *)
Definition jmp_holds (is64 : bool) (op : bpf_jmp_op) (a b : Z) : bool :=
  let w := if is64 then 64 else 32 in
  match op with
  | BPF_JEQ => wrap w a =? wrap w b
  | BPF_JNE => negb (wrap w a =? wrap w b)
  | BPF_JGT => wrap w a >? wrap w b
  | BPF_JLT => wrap w a <? wrap w b
  | BPF_JGE => wrap w a >=? wrap w b
  | BPF_JLE => wrap w a <=? wrap w b
  | BPF_JSET => negb (wrap w a .& wrap w b =? 0)
  | BPF_JSGT => sgn w a >? sgn w b
  | BPF_JSLT => sgn w a <? sgn w b
  | BPF_JSGE => sgn w a >=? sgn w b
  | BPF_JSLE => sgn w a <=? sgn w b
  | _ => false
  end.

Definition cond_ops : list bpf_jmp_op :=
  [BPF_JEQ; BPF_JNE; BPF_JGT; BPF_JLT; BPF_JGE; BPF_JLE; BPF_JSET; BPF_JSGT; BPF_JSLT; BPF_JSGE; BPF_JSLE].

(** The bytes of an access. *)
Definition size_bytes (z : bpf_size) : nat :=
  match z with BPF_B => 1 | BPF_H => 2 | BPF_W => 4 | BPF_DW => 8 end.

Lemma size_bytes_64 z : 8 * Z.of_nat (size_bytes z) <= 64.
Proof. destruct z; cbn; lia. Qed.

(** ** Values fit the registers *)

Lemma uint_mono v w x : v <= w -> uint v x -> uint w x.
Proof.
  intros Hle [H0 H1]. split; [done|]. eapply Z.lt_le_trans; [done|]. destruct (Z_lt_ge_dec v 0).
  - rewrite Z.pow_neg_r in H1; lia.
  - apply Z.pow_le_mono_r; lia.
Qed.

Lemma uint_div w a b : uint w a -> 0 < b -> uint w (a / b).
Proof.
  intros [H0 H1] Hb. split; [apply Z.div_pos; lia|]. eapply Z.le_lt_trans; [apply Z.div_le_upper_bound with (q := a)|]; nia.
Qed.

Lemma alu_val_width is64 op a b v : uint 64 a -> alu_val is64 op a b = Some v -> uint (if is64 then 64 else 32) v.
Proof.
  intros Ha Hv. set (w := if is64 then 64 else 32). set (a' := if is64 then a else u32 a).
  assert (0 <= w <= 64) as Hw by (subst w; destruct is64; lia).
  assert (uint w a') as Ha' by (subst w a'; destruct is64; [done|by apply uint_wrap]).
  destruct op; cbn [alu_val] in Hv; fold w a' in Hv;
    unfold c_add, c_sub, c_and, c_or, c_xor, c_mul, c_shl, c_shr, c_sar in Hv;
    repeat match type of Hv with context [if ?b then _ else _] =>
      lazymatch b with is64 => fail | _ => destruct b eqn:?; try discriminate Hv end end;
    try (injection Hv as <-; first [apply uint_wrap; lia | apply uint_lor; [lia|done|apply uint_wrap; lia]
      | apply uint_lxor; [lia|done|apply uint_wrap; lia] | apply uint_shiftr; [lia|lia|done]
      | apply uint_land; [lia|apply Ha'|apply uint_wrap; lia] ]); [..|done].
  all: pose proof (wrap_range 64 b ltac:(lia)); subst w a'; destruct is64;
    unfold div64_u64, div64_u64_rem, do_div in Hv; destruct (_ =? 0) eqn:E; try discriminate Hv;
    cbn [mbind option_bind fst snd] in Hv; injection Hv as <-; try (by apply uint_wrap).
  - apply uint_div; [done|lia].
  - pose proof (Z.mod_pos_bound a (u64 b) ltac:(lia)). unfold uint. lia.
Qed.

Lemma alu_val_range is64 op a b v : uint 64 a -> alu_val is64 op a b = Some v -> uint 64 v.
Proof. intros Ha Hv. eapply uint_mono; [|by eapply alu_val_width]. destruct is64; lia. Qed.

(** An immediate may be read as the 64-bit value it extends to. *)
Lemma alu_val_imm is64 op a imm v : alu_val is64 op a imm = Some v -> alu_val is64 op a (u64 imm) = Some v.
Proof.
  intros Hv. destruct is64, op; cbn [alu_val] in *;
    unfold c_add, c_sub, c_and, c_or, c_xor, c_mul, c_shl, c_shr, c_sar, div64_u64, div64_u64_rem, do_div in *;
    rewrite ?wrap_wrap_le, ?wrap_wrap by lia; try done; autorewrite with cint in *; try done.
  all: destruct (_ && _) eqn:E in Hv; [|discriminate Hv]; rewrite (wrap_small 64 imm) by (unfold uint; lia); by rewrite E.
Qed.

(** * Kinds of instructions *)

(** The class of an operation of 64 or 32 bits. *)
Definition alu_class (is64 : bool) : bpf_class := if is64 then BPF_ALU64 else BPF_ALU.
Definition jmp_class (is64 : bool) : bpf_class := if is64 then BPF_JMP else BPF_JMP32.

Inductive kind :=
| KAlu (is64 : bool) (op : bpf_alu_op) (x : bpf_src)
| KNeg (is64 : bool)
| KEnd (be : bool)
| KLdImm
| KLdx (z : bpf_size)
| KSt (z : bpf_size)
| KStx (z : bpf_size)
| KXadd (z : bpf_size)
| KJa
| KJmp (is64 : bool) (op : bpf_jmp_op) (x : bpf_src).

Definition kind_code (k : kind) : Z :=
  match k with
  | KAlu is64 op x => alu_class is64 .| op .| x
  | KNeg is64 => alu_class is64 .| BPF_NEG
  | KEnd be => BPF_ALU .| BPF_END .| (if be then BPF_TO_BE else BPF_TO_LE)
  | KLdImm => BPF_LD .| BPF_IMM .| BPF_DW
  | KLdx z => BPF_LDX .| BPF_MEM .| z
  | KSt z => BPF_ST .| BPF_MEM .| z
  | KStx z => BPF_STX .| BPF_MEM .| z
  | KXadd z => BPF_STX .| BPF_XADD .| z
  | KJa => BPF_JMP .| BPF_JA
  | KJmp is64 op x => jmp_class is64 .| op .| x
  end.

Definition alu_ops : list bpf_alu_op :=
  [BPF_MOV; BPF_ADD; BPF_SUB; BPF_AND; BPF_OR; BPF_XOR; BPF_MUL; BPF_DIV; BPF_MOD; BPF_LSH; BPF_RSH; BPF_ARSH].
Definition sizes : list bpf_size := [BPF_B; BPF_H; BPF_W; BPF_DW].

Definition kind_ok (k : kind) : Prop :=
  match k with
  | KAlu _ op _ => op ∈ alu_ops
  | KXadd z => z = BPF_W \/ z = BPF_DW
  | KJmp _ op _ => op ∈ cond_ops
  | _ => True
  end.

(** * Steps *)

Lemma reg_cases r : 0 <= r <= 10 -> r ∈ [0; 1; 2; 3; 4; 5; 6; 7; 8; 9; 10].
Proof. intros. rewrite !elem_of_cons. lia. Qed.

Section interp.
Context (prog : Z -> option bpf_insn) (insn : bpf_insn) (s : bpf_state).
Hypothesis Hprog : prog (bpc s) = Some insn.
Hypothesis Hdst : 0 <= dst_reg insn <= 10.
Hypothesis Hsrc : 0 <= src_reg insn <= 10.
Hypothesis Hregs : forall r, 0 <= r <= 10 -> uint 64 (bregs s r).

(** The step wrote [v] to the destination, at most. *)
Definition wrote (s' : bpf_state) (v : Z) : Prop :=
  bmem s' = bmem s /\ forall r, 0 <= r <= 10 -> bregs s' r = <[dst_reg insn := v]> (bregs s) r.

(** The source operand: a register or the immediate. *)
Definition src_val (x : bpf_src) : Z := match x with BPF_X => bregs s (src_reg insn) | BPF_K => imm insn end.

(** Evaluates the switch of the interpreter on a known opcode. *)
Ltac pick_label Hc :=
  let H := fresh "H" in
  lazymatch goal with Hs : bpf_step _ _ = _ |- _ => pose proof Hs as H; clear Hs end; unfold bpf_step in H; rewrite Hprog in H; cbn [mbind option_bind] in H; rewrite Hc in H;
  match type of H with context [has_label ?c BPF_INSN_MAP] => change (has_label c BPF_INSN_MAP) with true in H end;
  cbv iota in H;
  lazy [switch has_label existsb orb app bpf_labels ALU COND_JMP LDST
        Z.compare Pos.compare Pos.compare_cont Z.lor Pos.lor Pos.Nsucc_double Pos.Ndouble
        class_code size_code mode_code alu_code jmp_code src_code BPF_TO_LE BPF_TO_BE alu_class jmp_class] in H.

(** Register accesses that are in bounds. *)
Ltac in_bounds H :=
  unfold get_reg, set_reg, BPF_REG_AX, MAX_BPF_EXT_REG, MAX_BPF_REG in H;
  repeat match type of H with
    | context [?r <? 11 + 1] => rewrite (proj2 (Z.ltb_lt r (11 + 1))) in H by lia
    end;
  cbn [mbind option_bind fst snd bregs bmem bpc] in H.

Lemma operand_val x : operand x insn s = Some (src_val x).
Proof. destruct x; [done|]. cbn. unfold get_reg, MAX_BPF_EXT_REG, MAX_BPF_REG. by rewrite (proj2 (Z.ltb_lt _ _)) by lia. Qed.

(** The value of a handler that writes [v] and goes on. *)
Ltac handler_done H := injection H as <-; eexists; (split; [reflexivity|]); (split; [split; [reflexivity|]|reflexivity]).

Lemma dst_src_step f s' : dst_src f prog insn s = Some (Cont s') ->
  exists v, f (bregs s (dst_reg insn)) (bregs s (src_reg insn)) = Some v /\ wrote s' v /\ bpc s' = bpc s + 1.
Proof.
  intros H. unfold dst_src in H. in_bounds H. destruct (f _ _) as [v|]; [|done]. in_bounds H. by handler_done H.
Qed.

Lemma dst_imm_step f s' : dst_imm f prog insn s = Some (Cont s') ->
  exists v, f (bregs s (dst_reg insn)) (imm insn) = Some v /\ wrote s' v /\ bpc s' = bpc s + 1.
Proof.
  intros H. unfold dst_imm in H. in_bounds H. destruct (f _ _) as [v|]; [|done]. in_bounds H. by handler_done H.
Qed.

Lemma alu64_div_step x s' : alu64_div x prog insn s = Some (Cont s') ->
  exists v, alu_val true BPF_DIV (bregs s (dst_reg insn)) (src_val x) = Some v /\ wrote s' v /\ bpc s' = bpc s + 1.
Proof.
  intros H. unfold alu64_div in H. rewrite operand_val in H. in_bounds H. cbn [alu_val].
  destruct (div64_u64 _ _) as [v|]; [|done]. in_bounds H. by handler_done H.
Qed.

Lemma alu64_mod_step x s' : alu64_mod x prog insn s = Some (Cont s') ->
  exists v, alu_val true BPF_MOD (bregs s (dst_reg insn)) (src_val x) = Some v /\ wrote s' v /\ bpc s' = bpc s + 1.
Proof.
  intros H. unfold alu64_mod in H. rewrite operand_val in H. in_bounds H. cbn [alu_val].
  destruct (div64_u64_rem _ _) as [[q r]|]; [|done]. in_bounds H. handler_done H.
  intros n Hn. cbn [bregs set_bpc]. rewrite fn_lookup_insert, !fn_insert_spec. repeat case_decide; (done || lia).
Qed.

(** AX is scratch: the operand is not read from it. *)
Lemma operand_ax x v : operand x insn (BpfSt (<[11 := v]> (bregs s)) (bmem s) (bpc s)) = Some (src_val x).
Proof.
  destruct x; [done|]. cbn. unfold get_reg, MAX_BPF_EXT_REG, MAX_BPF_REG. rewrite (proj2 (Z.ltb_lt _ _)) by lia.
  cbn [bregs]. by rewrite fn_lookup_insert_ne by lia.
Qed.

Lemma alu_div_step x s' : alu_div x prog insn s = Some (Cont s') ->
  exists v, alu_val false BPF_DIV (bregs s (dst_reg insn)) (src_val x) = Some v /\ wrote s' v /\ bpc s' = bpc s + 1.
Proof.
  intros H. unfold alu_div in H. in_bounds H. rewrite operand_ax in H. in_bounds H. cbn [alu_val].
  rewrite fn_lookup_insert in H. destruct (do_div _ _) as [[q r]|]; [|done]. in_bounds H. handler_done H.
  intros n Hn. cbn [bregs set_bpc]. rewrite fn_lookup_insert, !fn_insert_spec. repeat case_decide; (done || lia).
Qed.

Lemma alu_mod_step x s' : alu_mod x prog insn s = Some (Cont s') ->
  exists v, alu_val false BPF_MOD (bregs s (dst_reg insn)) (src_val x) = Some v /\ wrote s' v /\ bpc s' = bpc s + 1.
Proof.
  intros H. unfold alu_mod in H. in_bounds H. rewrite operand_ax in H. in_bounds H. cbn [alu_val].
  rewrite fn_lookup_insert in H. destruct (do_div _ _) as [[q r]|]; [|done]. in_bounds H. handler_done H.
  intros n Hn. cbn [bregs set_bpc]. rewrite !fn_insert_spec. repeat case_decide; (done || lia).
Qed.

Lemma step_alu is64 (op : bpf_alu_op) (x : bpf_src) s' : bpf_step prog s = Some (Cont s') -> op <> BPF_NEG -> op <> BPF_END ->
  code insn = alu_class is64 .| op .| x ->
  exists v, alu_val is64 op (bregs s (dst_reg insn)) (src_val x) = Some v /\ wrote s' v /\ bpc s' = bpc s + 1.
Proof.
  intros Hstep Hn He Hc. destruct op, x, is64; try done; pick_label Hc;
    first [ by apply dst_src_step in H | by apply dst_imm_step in H | by apply alu64_div_step | by apply alu64_mod_step
          | by apply alu_div_step | by apply alu_mod_step | idtac ].
  apply dst_src_step in H as (v & [= <-] & H). eexists. split; [|done]. cbn. by rewrite wrap_small by (by apply Hregs).
Qed.

Lemma step_neg is64 s' : bpf_step prog s = Some (Cont s') -> code insn = alu_class is64 .| BPF_NEG ->
  wrote s' (wrap (if is64 then 64 else 32) (- bregs s (dst_reg insn))) /\ bpc s' = bpc s + 1.
Proof. intros Hstep Hc. destruct is64; pick_label Hc; by apply dst_imm_step in H as (v & [= <-] & H). Qed.

Lemma step_end (be : bool) s' : bpf_step prog s = Some (Cont s') -> code insn = BPF_ALU .| BPF_END .| (if be then BPF_TO_BE else BPF_TO_LE) ->
  imm insn ∈ [16; 32; 64] ->
  wrote s' (let d := bregs s (dst_reg insn) in
         if be then (if imm insn =? 16 then u16 (cpu_to_be16 d) else if imm insn =? 32 then u32 (cpu_to_be32 d)
                     else u64 (cpu_to_be64 d))
         else wrap (imm insn) d) /\ bpc s' = bpc s + 1.
Proof.
  intros Hstep Hc Hi. destruct be; pick_label Hc; unfold alu_end in H; in_bounds H.
  all: repeat (apply elem_of_cons in Hi as [E|Hi]); [..|by apply not_elem_of_nil in Hi]; rewrite E in *;
    cbn [Z.eqb Pos.eqb] in *; in_bounds H; injection H as <-; by split.
Qed.

Lemma step_ld_imm64 insn1 s' : bpf_step prog s = Some (Cont s') -> code insn = BPF_LD .| BPF_IMM .| BPF_DW -> prog (bpc s + 1) = Some insn1 ->
  wrote s' (u32 (imm insn) .| u64 (u32 (imm insn1) ≪ 32)) /\ bpc s' = bpc s + 2.
Proof.
  intros Hstep Hc H1. pick_label Hc. unfold ld_imm_dw in H. rewrite H1 in H. in_bounds H. injection H as <-.
  split; [by split|]. cbn. lia.
Qed.

Lemma step_ldx (z : bpf_size) s' : bpf_step prog s = Some (Cont s') -> code insn = BPF_LDX .| BPF_MEM .| z ->
  wrote s' (load_le 64 (size_bytes z) (bmem s) (bregs s (src_reg insn) + off insn)) /\ bpc s' = bpc s + 1.
Proof. intros Hstep Hc. destruct z; pick_label Hc; in_bounds H; injection H as <-; by split. Qed.

(** The step stored [n] bytes of [v] at dst + off. *)
Definition stored_bpf (s' : bpf_state) (m : mem) : Prop := bmem s' = m /\ bregs s' = bregs s /\ bpc s' = bpc s + 1.

Lemma step_st (z : bpf_size) s' : bpf_step prog s = Some (Cont s') -> code insn = BPF_ST .| BPF_MEM .| z ->
  stored_bpf s' (store_le 64 (size_bytes z) (bmem s) (bregs s (dst_reg insn) + off insn) (imm insn)).
Proof. intros Hstep Hc. destruct z; pick_label Hc; in_bounds H; injection H as <-; by split. Qed.

Lemma step_stx (z : bpf_size) s' : bpf_step prog s = Some (Cont s') -> code insn = BPF_STX .| BPF_MEM .| z ->
  stored_bpf s' (store_le 64 (size_bytes z) (bmem s) (bregs s (dst_reg insn) + off insn) (bregs s (src_reg insn))).
Proof. intros Hstep Hc. destruct z; pick_label Hc; in_bounds H; injection H as <-; by split. Qed.

Lemma step_xadd (z : bpf_size) s' : bpf_step prog s = Some (Cont s') -> z = BPF_W \/ z = BPF_DW -> code insn = BPF_STX .| BPF_XADD .| z ->
  stored_bpf s' (atomic_add (size_bytes z) (bmem s) (wrap (8 * Z.of_nat (size_bytes z)) (bregs s (src_reg insn)))
                (bregs s (dst_reg insn) + off insn)).
Proof.
  intros Hstep [-> | ->] Hc; pick_label Hc; unfold stx_xadd in H; in_bounds H; injection H as <-; by split.
Qed.

Lemma step_ja s' : bpf_step prog s = Some (Cont s') -> code insn = BPF_JMP .| BPF_JA ->
  bmem s' = bmem s /\ bregs s' = bregs s /\ bpc s' = bpc s + off insn + 1.
Proof. intros Hstep Hc. pick_label Hc. injection H as <-. by split. Qed.

Lemma cond_step CMP conv x s' : cond CMP conv x prog insn s = Some (Cont s') ->
  bmem s' = bmem s /\ bregs s' = bregs s /\
  bpc s' = if CMP (conv (bregs s (dst_reg insn))) (conv (src_val x)) then bpc s + off insn + 1 else bpc s + 1.
Proof.
  intros H. unfold cond in H. rewrite operand_val in H. in_bounds H. destruct (CMP _ _); injection H as <-; by split.
Qed.

Lemma step_jmp is64 (op : bpf_jmp_op) (x : bpf_src) s' : bpf_step prog s = Some (Cont s') -> op ∈ cond_ops -> code insn = jmp_class is64 .| op .| x ->
  bmem s' = bmem s /\ bregs s' = bregs s /\
  bpc s' = if jmp_holds is64 op (bregs s (dst_reg insn)) (src_val x) then bpc s + off insn + 1 else bpc s + 1.
Proof.
  intros Hstep Hop Hc. each_of Hop; destruct x, is64; pick_label Hc; by apply cond_step in H.
Qed.
End interp.
