(* ===== verification/BpfProps.v ===== *)
(** The interpreter of kbpf.c implements the BPF instruction set: the instructions as
    operations on integers, and the proof that every step of the interpreter does
    what its instruction says, and is undefined where that is. *)

From S2P Require Import Prelude Cstring Bytes Bpf BpfSteps.

(** * The instruction set, on integers *)

(** The value of [x] as a signed number of [w] bits. *)
Definition isa_signed (w x : Z) : Z :=
  if x mod 2 ^ w <? 2 ^ (w - 1) then x mod 2 ^ w else x mod 2 ^ w - 2 ^ w.

(** Arithmetic on [w] bits. Division by zero and shifts by [w] or more are undefined. *)
Definition isa_alu (w : Z) (op : bpf_alu_op) (a b : Z) : option Z :=
  let x := a mod 2 ^ w in
  let y := b mod 2 ^ w in
  let n := b mod 2 ^ 64 in
  match op with
  | BPF_ADD => Some ((x + y) mod 2 ^ w)
  | BPF_SUB => Some ((x - y) mod 2 ^ w)
  | BPF_MUL => Some ((x * y) mod 2 ^ w)
  | BPF_DIV => if y =? 0 then None else Some (x / y)
  | BPF_MOD => if y =? 0 then None else Some (x mod y)
  | BPF_AND => Some (Z.land x y)
  | BPF_OR => Some (Z.lor x y)
  | BPF_XOR => Some (Z.lxor x y)
  | BPF_LSH => if y <? w then Some ((x * 2 ^ y) mod 2 ^ w) else None
  | BPF_RSH => if y <? w then Some (x / 2 ^ y) else None
  | BPF_ARSH => if n <? w then Some ((isa_signed w a / 2 ^ n) mod 2 ^ w) else None
  | BPF_MOV => Some y
  | BPF_NEG => Some ((- x) mod 2 ^ w)
  | BPF_END => None
  end.

(** Comparisons of [w] bits. *)
Definition isa_cond (w : Z) (op : bpf_jmp_op) (a b : Z) : bool :=
  let x := a mod 2 ^ w in
  let y := b mod 2 ^ w in
  match op with
  | BPF_JEQ => x =? y
  | BPF_JNE => negb (x =? y)
  | BPF_JGT => y <? x
  | BPF_JGE => y <=? x
  | BPF_JLT => x <? y
  | BPF_JLE => x <=? y
  | BPF_JSGT => isa_signed w b <? isa_signed w a
  | BPF_JSGE => isa_signed w b <=? isa_signed w a
  | BPF_JSLT => isa_signed w a <? isa_signed w b
  | BPF_JSLE => isa_signed w a <=? isa_signed w b
  | BPF_JSET => negb (Z.land x y =? 0)
  | _ => false
  end.

(** The [n] low bytes of [x] in reverse. *)
Fixpoint isa_swap (n : nat) (x : Z) : Z :=
  match n with
  | O => 0
  | S n => x mod 256 * 256 ^ Z.of_nat n + isa_swap n (x / 256)
  end.

(** Little-endian accesses of [n] bytes, with addresses of 64 bits. *)
Fixpoint isa_load (n : nat) (m : mem) (a : Z) : Z :=
  match n with
  | O => 0
  | S n => m (a mod 2 ^ 64) mod 256 + 256 * isa_load n m (a + 1)
  end.

Definition isa_store (n : nat) (m : mem) (a v : Z) : mem := fun x =>
  let i := (x - a) mod 2 ^ 64 in
  if i <? Z.of_nat n then (v / 256 ^ i) mod 256 else m x.

(** What an instruction does: the value for the destination register, if there is
    one, the memory, and the next instruction. [insn1] is the one after [insn]. *)
Definition isa_effect (k : kind) (insn insn1 : bpf_insn) (s : bpf_state) : option (option Z * mem * Z) :=
  let d := bregs s (dst_reg insn) in
  let r := bregs s (src_reg insn) in
  let b x := match x with BPF_X => r | BPF_K => imm insn end in
  let w (is64 : bool) := if is64 then 64 else 32 in
  let next := bpc s + 1 in
  match k with
  | KAlu is64 op x => v ← isa_alu (w is64) op d (b x); Some (Some v, bmem s, next)
  | KNeg is64 => v ← isa_alu (w is64) BPF_NEG d 0; Some (Some v, bmem s, next)
  | KEnd true => Some (Some (isa_swap (Z.to_nat (imm insn / 8)) d), bmem s, next)
  | KEnd false => Some (Some (d mod 2 ^ imm insn), bmem s, next)
  | KLdImm => Some (Some (imm insn mod 2 ^ 32 + 2 ^ 32 * (imm insn1 mod 2 ^ 32)), bmem s, next + 1)
  | KLdx z => Some (Some (isa_load (size_bytes z) (bmem s) (r + off insn)), bmem s, next)
  | KSt z => Some (None, isa_store (size_bytes z) (bmem s) (d + off insn) (imm insn), next)
  | KStx z => Some (None, isa_store (size_bytes z) (bmem s) (d + off insn) r, next)
  | KXadd z => Some (None, isa_store (size_bytes z) (bmem s) (d + off insn) (isa_load (size_bytes z) (bmem s) (d + off insn) + r), next)
  | KJa => Some (None, bmem s, next + off insn)
  | KJmp is64 op x => Some (None, bmem s, if isa_cond (w is64) op d (b x) then next + off insn else next)
  end.

(** A step has the effect [e]: the registers other than AX, which the interpreter uses
    for itself, the memory and the next instruction are as [e] says. *)
Definition obeys (insn : bpf_insn) (s : bpf_state) (o : option bpf_out) (e : option (option Z * mem * Z)) : Prop :=
  match e with
  | None => o = None
  | Some (v, m, p) => exists s', o = Some (Cont s') /\ bpc s' = p /\ (forall x, uint 64 x -> bmem s' x = m x) /\
      forall r, 0 <= r <= 10 -> bregs s' r = match v with Some v => <[dst_reg insn := v]> (bregs s) r | None => bregs s r end
  end.

(** * The values of the interpreter *)

Lemma isa_signed_sgn w x : isa_signed w x = sgn w x.
Proof. reflexivity. Qed.

Lemma isa_cond_ok is64 op a b : jmp_holds is64 op a b = isa_cond (if is64 then 64 else 32) op a b.
Proof. destruct op; cbn [jmp_holds isa_cond]; rewrite ?Z.gtb_ltb, ?Z.geb_leb, ?isa_signed_sgn; reflexivity. Qed.

(** An operand: a register, or an immediate. *)
Definition operand_ok (b : Z) : Prop := uint 64 b \/ - 2 ^ 31 <= b < 2 ^ 31.

(** A shift count in range, before and after the reduction. *)
Lemma count_ok w b : operand_ok b -> 0 <= w <= 64 -> (0 <=? b) && (b <? w) = (u64 b <? w).
Proof.
  intros Hb Hw. unfold wrap. destruct (Z_lt_ge_dec b 0).
  - destruct Hb as [[? ?]|Hb]; [lia|]. rewrite <- (Z_mod_plus_full b 1), Z.mod_small by lia.
    rewrite (proj2 (Z.leb_gt 0 b)) by lia. symmetry. apply Z.ltb_ge. lia.
  - rewrite (proj2 (Z.leb_le 0 b)), Z.mod_small by (destruct Hb as [[? ?]|Hb]; lia). done.
Qed.

Lemma count_id b w : operand_ok b -> 0 <= w <= 64 -> (u64 b <? w) = true -> u64 b = b.
Proof. intros Hb Hw H. rewrite <- count_ok in H by done. apply wrap_small. unfold uint. lia. Qed.

Lemma isa_alu_ok is64 op a b : uint 64 a -> operand_ok b -> op <> BPF_END ->
  alu_val is64 op a b = isa_alu (if is64 then 64 else 32) op a b.
Proof.
  intros Ha Hb He. pose proof (wrap_small 64 a Ha) as Ea. pose proof (wrap_range 32 b ltac:(lia)) as Hb32.
  unfold isa_alu. rewrite isa_signed_sgn. change (b mod 2 ^ 64) with (u64 b). destruct is64;
    [change (a mod 2 ^ 64) with (u64 a); change (b mod 2 ^ 64) with (u64 b); rewrite Ea|change (a mod 2 ^ 32) with (u32 a); change (b mod 2 ^ 32) with (u32 b)];
    destruct op; try done; cbn [alu_val]; unfold c_add, c_sub, c_and, c_or, c_xor, c_mul, div64_u64, div64_u64_rem, do_div, c_shl, c_shr, c_sar;
    rewrite ?wrap_wrap, ?(count_ok 64 b), ?(count_ok 32 b) by (done || lia); try done.
  all: try (by destruct (_ =? 0)).
  all: try (f_equal; change (?x mod 2 ^ 64) with (u64 x); change (?x mod 2 ^ 32) with (u32 x); by autorewrite with cint).
  1-3,8: destruct (u64 b <? _) eqn:E; [|done]; pose proof (fun H => count_id b _ Hb H E) as Ei; specialize (Ei ltac:(lia)); pose proof (wrap_range 64 b ltac:(lia)); rewrite Ei in *;
    rewrite ?sgn_of_wrap; first [by rewrite Z.shiftl_mul_pow2 by lia|by rewrite Z.shiftr_div_pow2 by lia].
  2-3: rewrite (proj2 (Z.leb_le 0 (u32 b))) by lia; cbn [andb]; destruct (u32 b <? 32); [|done];
    first [by rewrite Z.shiftl_mul_pow2 by lia|by rewrite Z.shiftr_div_pow2 by lia].
  all: pose proof (wrap_range 32 a ltac:(lia)) as Ha32; destruct (Z.eqb_spec (u32 b) 0); [done|]; cbn [mbind option_bind fst snd]; f_equal.
  - apply wrap_small. by apply uint_div; [|lia].
  - apply wrap_small. pose proof (Z.mod_pos_bound (u32 a) (u32 b) ltac:(lia)). unfold uint. lia.
Qed.

(** ** Bytes *)

Lemma byte_cons b y : uint 8 b -> b .| (y ≪ 8) = b + 256 * y.
Proof. intros Hb. rewrite Z.lor_comm. symmetry. by apply (add_field 8). Qed.

Lemma isa_load_ok n m a : load_le 64 n m a = isa_load n m a.
Proof.
  unfold load_le. revert a. induction n as [|n IH]; intros a; [done|]. cbn [read_bytes of_bytes isa_load].
  rewrite byte_cons by (by apply uint_wrap). by rewrite IH.
Qed.

Lemma of_bytes_snoc l b : (forall x, x ∈ l -> uint 8 x) -> uint 8 b -> of_bytes (l ++ [b]) = of_bytes l + b * 256 ^ Z.of_nat (length l).
Proof.
  induction l as [|y l IH]; intros Hl Hb; cbn [app of_bytes length].
  - rewrite byte_cons by done. lia.
  - assert (uint 8 y) as Hy by (apply Hl; by left).
    rewrite !byte_cons, IH by (done || intros; apply Hl; by right). rewrite Nat2Z.inj_succ, Z.pow_succ_r by lia. lia.
Qed.

Lemma isa_swap_ok n x : of_bytes (rev (to_bytes n x)) = isa_swap n x.
Proof.
  revert x. induction n as [|n IH]; intros x; [done|]. cbn [to_bytes rev isa_swap].
  rewrite of_bytes_snoc, IH, length_rev, to_bytes_length.
  - rewrite Z.shiftr_div_pow2 by lia. apply Z.add_comm.
  - intros b Hb. apply (to_bytes_uint n (x ≫ 8)). apply list_elem_of_In. apply list_elem_of_In in Hb. by apply in_rev in Hb.
  - by apply uint_wrap.
Qed.

Lemma isa_swap_uint n x : uint (8 * Z.of_nat n) (isa_swap n x).
Proof.
  rewrite <- isa_swap_ok. assert (length (rev (to_bytes n x)) = n) as Hl by (rewrite length_rev; apply to_bytes_length).
  rewrite <- Hl at 1. apply of_bytes_range. intros b Hb. apply (to_bytes_uint n x). apply list_elem_of_In. apply list_elem_of_In in Hb. by apply in_rev in Hb.
Qed.

Lemma isa_store_ok n m a v x : (n <= 8)%nat -> uint 64 x -> store_le 64 n m a v x = isa_store n m a v x.
Proof.
  intros Hn Hx. rewrite store_le_byte by (done || lia). unfold isa_store. change ((x - a) mod 2 ^ 64) with (u64 (x - a)).
  pose proof (wrap_range 64 (x - a) ltac:(lia)). destruct (_ <? _); [|done].
  rewrite Z.shiftr_div_pow2, Z.pow_mul_r by lia. done.
Qed.

(** * Steps *)

Section step.
Context (prog : Z -> option bpf_insn) (insn insn1 : bpf_insn) (s : bpf_state).
Hypothesis Hprog : prog (bpc s) = Some insn.
Hypothesis Hdst : 0 <= dst_reg insn <= 10.
Hypothesis Hsrc : 0 <= src_reg insn <= 10.
Hypothesis Hregs : forall r, 0 <= r <= 10 -> uint 64 (bregs s r).

(** Evaluates the switch of the interpreter on a known opcode. *)
Ltac run_label Hc :=
  unfold bpf_step; rewrite Hprog; cbn [mbind option_bind]; rewrite Hc;
  match goal with |- context [has_label ?c BPF_INSN_MAP] => change (has_label c BPF_INSN_MAP) with true end; cbv iota;
  lazy [switch has_label existsb orb app bpf_labels ALU COND_JMP LDST
        Z.compare Pos.compare Pos.compare_cont Z.lor Pos.lor Pos.Nsucc_double Pos.Ndouble kind_code
        class_code size_code mode_code alu_code jmp_code src_code BPF_TO_LE BPF_TO_BE alu_class jmp_class].

(** Register accesses that are in bounds. *)
Ltac bounds :=
  unfold get_reg, set_reg, BPF_REG_AX, MAX_BPF_EXT_REG, MAX_BPF_REG;
  repeat match goal with |- context [?r <? 11 + 1] => rewrite (proj2 (Z.ltb_lt r (11 + 1))) by lia end;
  cbn [mbind option_bind fst snd bregs bmem bpc].

(** The step is defined where the value is. *)
Lemma step_alu_defined is64 (op : bpf_alu_op) (x : bpf_src) : op <> BPF_NEG -> op <> BPF_END -> code insn = alu_class is64 .| op .| x ->
  match alu_val is64 op (bregs s (dst_reg insn)) (src_val insn s x) with
  | Some _ => exists s', bpf_step prog s = Some (Cont s')
  | None => bpf_step prog s = None
  end.
Proof.
  intros Hn He Hc. destruct op, x, is64; try done; run_label Hc; cbn [alu_val src_val];
    unfold dst_src, dst_imm, alu64_div, alu64_mod, alu_div, alu_mod; rewrite ?(operand_val insn s Hsrc); bounds;
    rewrite ?(operand_ax insn s Hsrc), ?fn_lookup_insert; cbn [mbind option_bind src_val]; try (eexists; reflexivity).
  all: match goal with
    | |- context [c_shl ?w ?a ?b] => destruct (c_shl w a b)
    | |- context [c_shr ?w ?a ?b] => destruct (c_shr w a b)
    | |- context [c_sar ?w ?a ?b] => destruct (c_sar w a b)
    | |- context [div64_u64 ?a ?b] => destruct (div64_u64 a b)
    | |- context [div64_u64_rem ?a ?b] => destruct (div64_u64_rem a b)
    | |- context [do_div ?a ?b] => destruct (do_div a b)
    end; bounds; try done; by eexists.
Qed.

(** The other instructions are always defined. *)
Lemma step_defined k : code insn = kind_code k -> kind_ok k -> (forall is64 op x, k <> KAlu is64 op x) ->
  (k = KLdImm -> prog (bpc s + 1) = Some insn1) -> exists s', bpf_step prog s = Some (Cont s').
Proof.
  intros Hc Hk Ha Hn. destruct k as [is64 op x|is64|be| |z|z|z|z| |is64 op x]; [by destruct (Ha is64 op x)|..]; cbn [kind_ok] in Hk.
  - destruct is64; run_label Hc; unfold dst_imm; bounds; by eexists.
  - destruct be; run_label Hc; unfold alu_end; bounds; repeat case_match; bounds; by eexists.
  - run_label Hc. unfold ld_imm_dw. rewrite Hn by done. bounds. by eexists.
  - destruct z; run_label Hc; bounds; by eexists.
  - destruct z; run_label Hc; bounds; by eexists.
  - destruct z; run_label Hc; bounds; by eexists.
  - destruct Hk as [-> | ->]; run_label Hc; unfold stx_xadd; bounds; by eexists.
  - run_label Hc. by eexists.
  - each_of Hk; destruct is64, x; run_label Hc; unfold cond; rewrite (operand_val insn s Hsrc); bounds; case_match; by eexists.
Qed.

(** From a step to its effect. *)
Lemma obeys_wrote s' v p : bpf_step prog s = Some (Cont s') -> wrote insn s s' v -> bpc s' = p ->
  obeys insn s (bpf_step prog s) (Some (Some v, bmem s, p)).
Proof. intros E [Hm Hr] Hp. exists s'. rewrite Hm. auto. Qed.

Lemma obeys_stored s' m m' p : bpf_step prog s = Some (Cont s') -> stored_bpf s s' m -> (forall x, uint 64 x -> m x = m' x) -> p = bpc s + 1 ->
  obeys insn s (bpf_step prog s) (Some (None, m', p)).
Proof. intros E (Hm & Hr & Hp) Hx ->. exists s'. rewrite Hm, Hr. auto. Qed.

Hypothesis Hwf : insn_wf insn.

Lemma src_operand x : operand_ok (src_val insn s x).
Proof. destruct x; [right; apply Hwf|left; by apply Hregs]. Qed.

Lemma alu_obeys is64 op x : op ∈ alu_ops -> code insn = kind_code (KAlu is64 op x) ->
  obeys insn s (bpf_step prog s) (isa_effect (KAlu is64 op x) insn insn1 s).
Proof.
  intros Hop Hc. assert (op <> BPF_NEG /\ op <> BPF_END) as [Hn He] by (clear -Hop; unfold alu_ops in Hop; by each_of Hop).
  pose proof (step_alu_defined is64 op x Hn He Hc) as Hd. cbn [isa_effect].
  change (match x with BPF_K => imm insn | BPF_X => bregs s (src_reg insn) end) with (src_val insn s x).
  rewrite <- isa_alu_ok by (done || apply src_operand || by apply Hregs).
  destruct (alu_val _ _ _ _) as [v|] eqn:Ev; [|exact Hd]. destruct Hd as [s' Hs]. cbn [mbind option_bind].
  destruct (step_alu prog insn s Hprog Hdst Hsrc Hregs is64 op x s' Hs Hn He Hc) as (v' & Ev' & Hw & Hp). rewrite Ev in Ev'. injection Ev' as <-.
  by eapply obeys_wrote.
Qed.

Lemma neg_obeys is64 : code insn = kind_code (KNeg is64) -> obeys insn s (bpf_step prog s) (isa_effect (KNeg is64) insn insn1 s).
Proof.
  intros Hc. destruct (step_defined (KNeg is64)) as [s' Hs]; [done..|]. destruct (step_neg prog insn s Hprog Hdst is64 s' Hs Hc) as [Hw Hp].
  rewrite <- wrap_opp in Hw. by eapply obeys_wrote.
Qed.

Lemma end_obeys be : code insn = kind_code (KEnd be) -> imm insn ∈ [16; 32; 64] ->
  obeys insn s (bpf_step prog s) (isa_effect (KEnd be) insn insn1 s).
Proof.
  intros Hc Hi. destruct (step_defined (KEnd be)) as [s' Hs]; [done..|].
  destruct (step_end prog insn s Hprog Hdst be s' Hs Hc Hi) as [Hw Hp]. destruct be; (eapply obeys_wrote; [exact Hs| |exact Hp]); [|exact Hw].
  destruct (byteorder_roundtrip (bregs s (dst_reg insn))) as (E16 & _ & E32 & _ & E64 & _). cbn zeta in Hw.
  rewrite E16, E32, E64, !isa_swap_ok in Hw. rewrite !wrap_small in Hw by apply isa_swap_uint.
  revert Hw. clear - Hi. each_of Hi; exact id.
Qed.

Lemma mem_obeys k : code insn = kind_code k -> kind_ok k -> match k with KLdx _ | KSt _ | KStx _ | KXadd _ => True | _ => False end ->
  obeys insn s (bpf_step prog s) (isa_effect k insn insn1 s).
Proof.
  intros Hc Hk Hm. destruct (step_defined k) as [s' Hs]; [done|done|by intros ? ? ? ->|by intros ->|].
  destruct k as [| | | |z|z|z|z| |]; try done; cbn [isa_effect].
  - destruct (step_ldx prog insn s Hprog Hdst Hsrc z s' Hs Hc) as [Hw Hp]. rewrite isa_load_ok in Hw. by eapply obeys_wrote.
  - eapply obeys_stored; [exact Hs|by apply (step_st prog)| |done]. intros x Hx. apply isa_store_ok; [destruct z; cbn; lia|done].
  - eapply obeys_stored; [exact Hs|by apply (step_stx prog)| |done]. intros x Hx. apply isa_store_ok; [destruct z; cbn; lia|done].
  - eapply obeys_stored; [exact Hs|by apply (step_xadd prog)| |done]. intros x Hx.
    rewrite <- isa_store_ok by (done || (destruct z; cbn; lia)). unfold atomic_add. rewrite isa_load_ok.
    rewrite (store_le_eq 64 _ _ _ _ _ (isa_load (size_bytes z) (bmem s) (bregs s (dst_reg insn) + off insn) + bregs s (src_reg insn)) eq_refl); [done|].
    apply wrap_add_r.
Qed.

Lemma jmp_obeys is64 op x : op ∈ cond_ops -> code insn = kind_code (KJmp is64 op x) ->
  obeys insn s (bpf_step prog s) (isa_effect (KJmp is64 op x) insn insn1 s).
Proof.
  intros Hop Hc. destruct (step_defined (KJmp is64 op x)) as [s' Hs]; [done..|].
  destruct (step_jmp prog insn s Hprog Hdst Hsrc is64 op x s' Hs Hop Hc) as (Hm & Hr & Hp). cbn [isa_effect].
  change (match x with BPF_K => imm insn | BPF_X => bregs s (src_reg insn) end) with (src_val insn s x). rewrite <- isa_cond_ok.
  exists s'. rewrite Hm, Hr, Hp. split; [done|]. split; [case_match; lia|done].
Qed.

Lemma ja_obeys : code insn = kind_code KJa -> obeys insn s (bpf_step prog s) (isa_effect KJa insn insn1 s).
Proof.
  intros Hc. destruct (step_defined KJa) as [s' Hs]; [done..|]. destruct (step_ja prog insn s Hprog s' Hs Hc) as (Hm & Hr & Hp).
  cbn [isa_effect]. exists s'. rewrite Hm, Hr, Hp. split; [done|]. split; [lia|done].
Qed.

Lemma ld_imm_obeys : code insn = kind_code KLdImm -> prog (bpc s + 1) = Some insn1 ->
  obeys insn s (bpf_step prog s) (isa_effect KLdImm insn insn1 s).
Proof.
  intros Hc Hn. destruct (step_defined KLdImm) as [s' Hs]; [done..|].
  destruct (step_ld_imm64 prog insn s Hprog Hdst insn1 s' Hs Hc Hn) as [Hw Hp]. eapply obeys_wrote; [exact Hs| |cbn [isa_effect]; lia].
  pose proof (wrap_range 32 (imm insn1) ltac:(lia)). pose proof (uint_wrap 32 (imm insn) ltac:(lia)) as Hu.
  replace (imm insn mod 2 ^ 32 + 2 ^ 32 * (imm insn1 mod 2 ^ 32)) with (u32 (imm insn) .| u64 (u32 (imm insn1) ≪ 32)); [exact Hw|].
  rewrite (wrap_small 64) by (rewrite Z.shiftl_mul_pow2 by lia; unfold uint; lia).
  rewrite Z.lor_comm. symmetry. apply (add_field 32); [lia|exact Hu].
Qed.
End step.

(** C24: one step of the interpreter is the instruction. Take any instruction of the
    instruction set but a call or an exit, with register numbers and an immediate that
    the verifier accepts. A step of the interpreter writes the value that the
    instruction defines to the destination register, or the bytes that it defines to
    memory, goes on with the instruction that it names, and changes nothing else but
    AX; and the step is undefined exactly for divisions by zero and shifts by the width
    or more. *)
Theorem bpf_step_correct prog insn insn1 s k : prog (bpc s) = Some insn -> (k = KLdImm -> prog (bpc s + 1) = Some insn1) ->
  insn_wf insn -> code insn = kind_code k -> kind_ok k -> 0 <= dst_reg insn <= 10 -> 0 <= src_reg insn <= 10 ->
  (forall be, k = KEnd be -> imm insn ∈ [16; 32; 64]) -> (forall r, 0 <= r <= 10 -> uint 64 (bregs s r)) ->
  obeys insn s (bpf_step prog s) (isa_effect k insn insn1 s).
Proof.
  intros Hp Hn Hwf Hc Hk Hd Hs He Hr. destruct k as [is64 op x|is64|be| |z|z|z|z| |is64 op x].
  - by apply alu_obeys.
  - by apply neg_obeys.
  - apply end_obeys; [done..|]. by apply (He be).
  - apply ld_imm_obeys; auto.
  - by apply mem_obeys.
  - by apply mem_obeys.
  - by apply mem_obeys.
  - by apply mem_obeys.
  - by apply ja_obeys.
  - by apply jmp_obeys.
Qed.

(** An arithmetic shift of a negative number, in 32 bits. *)
Lemma bpf_step_correct_witness :
  let insn := BPF_ALU32_IMM BPF_ARSH 1 4 in
  let s := BpfSt (fun r => if r =? 1 then 0xffffffff80000010 else 0) (fun _ => 0) 0 in
  obeys insn s (bpf_step (fun _ => Some insn) s) (Some (Some 0xf8000001, fun _ => 0, 1)).
Proof.
  intros insn s. apply (bpf_step_correct (fun _ => Some insn) insn insn s (KAlu false BPF_ARSH BPF_K)).
  - reflexivity.
  - reflexivity.
  - repeat split; by vm_compute.
  - reflexivity.
  - apply (bool_decide_unpack _). by vm_compute.
  - by vm_compute.
  - by vm_compute.
  - done.
  - intros r _. cbn. unfold uint. destruct (r =? 1); lia.
Defined.
