(* ===== verification/Riscv.v ===== *)
(** The RISC-V instructions that the BPF compilers emit: their encodings
    (serval/serval/riscv/encoder.rkt), the decoding the processor performs, and
    their effect on a processor with byte-addressed memory
    (serval/serval/riscv/interp.rkt). [XLEN] is 32 or 64. *)

From S2P Require Import Prelude Cstring Bytes.

(** * Instructions *)

Inductive op :=
| op_add | op_sub | op_sll | op_slt | op_sltu | op_xor | op_srl | op_sra | op_or | op_and
| op_mul | op_mulh | op_mulhsu | op_mulhu | op_div | op_divu | op_rem | op_remu
| op_mulw | op_divw | op_divuw | op_remw | op_remuw
| op_addw | op_subw | op_sllw | op_srlw | op_sraw
| op_addi | op_slti | op_sltiu | op_xori | op_ori | op_andi | op_slli | op_srli | op_srai
| op_addiw | op_slliw | op_srliw | op_sraiw
| op_lui | op_auipc | op_jal | op_jalr
| op_beq | op_bne | op_blt | op_bge | op_bltu | op_bgeu
| op_lb | op_lbu | op_lh | op_lhu | op_lw | op_lwu | op_ld
| op_sb | op_sh | op_sw | op_sd
| op_amoadd_w | op_amoadd_d.

Definition all_ops : list op :=
  [op_add; op_sub; op_sll; op_slt; op_sltu; op_xor; op_srl; op_sra; op_or; op_and;
   op_mul; op_mulh; op_mulhsu; op_mulhu; op_div; op_divu; op_rem; op_remu;
   op_mulw; op_divw; op_divuw; op_remw; op_remuw;
   op_addw; op_subw; op_sllw; op_srlw; op_sraw;
   op_addi; op_slti; op_sltiu; op_xori; op_ori; op_andi; op_slli; op_srli; op_srai;
   op_addiw; op_slliw; op_srliw; op_sraiw;
   op_lui; op_auipc; op_jal; op_jalr;
   op_beq; op_bne; op_blt; op_bge; op_bltu; op_bgeu;
   op_lb; op_lbu; op_lh; op_lhu; op_lw; op_lwu; op_ld;
   op_sb; op_sh; op_sw; op_sd;
   op_amoadd_w; op_amoadd_d].

(** The instruction formats with the fields that select the operation:
    funct7, funct3 and opcode; [Fshift] is an I-type whose immediate holds a
    shift amount of [n] bits below a selector. *)
Inductive format :=
| FR (funct7 funct3 opcode : Z)
| FI (funct3 opcode : Z)
| Fshift (n sel funct3 opcode : Z)
| FS (funct3 opcode : Z)
| FB (funct3 opcode : Z)
| FU (opcode : Z)
| FJ (opcode : Z)
| FA (funct5 funct3 opcode : Z).

Definition op_format (o : op) : format :=
  match o with
  | op_add => FR 0x00 0 0x33
  | op_sub => FR 0x20 0 0x33
  | op_sll => FR 0x00 1 0x33
  | op_slt => FR 0x00 2 0x33
  | op_sltu => FR 0x00 3 0x33
  | op_xor => FR 0x00 4 0x33
  | op_srl => FR 0x00 5 0x33
  | op_sra => FR 0x20 5 0x33
  | op_or => FR 0x00 6 0x33
  | op_and => FR 0x00 7 0x33
  | op_mul => FR 0x01 0 0x33
  | op_mulh => FR 0x01 1 0x33
  | op_mulhsu => FR 0x01 2 0x33
  | op_mulhu => FR 0x01 3 0x33
  | op_div => FR 0x01 4 0x33
  | op_divu => FR 0x01 5 0x33
  | op_rem => FR 0x01 6 0x33
  | op_remu => FR 0x01 7 0x33
  | op_mulw => FR 0x01 0 0x3b
  | op_divw => FR 0x01 4 0x3b
  | op_divuw => FR 0x01 5 0x3b
  | op_remw => FR 0x01 6 0x3b
  | op_remuw => FR 0x01 7 0x3b
  | op_addw => FR 0x00 0 0x3b
  | op_subw => FR 0x20 0 0x3b
  | op_sllw => FR 0x00 1 0x3b
  | op_srlw => FR 0x00 5 0x3b
  | op_sraw => FR 0x20 5 0x3b
  | op_addi => FI 0 0x13
  | op_slti => FI 2 0x13
  | op_sltiu => FI 3 0x13
  | op_xori => FI 4 0x13
  | op_ori => FI 6 0x13
  | op_andi => FI 7 0x13
  | op_slli => Fshift 6 0x00 1 0x13
  | op_srli => Fshift 6 0x00 5 0x13
  | op_srai => Fshift 6 0x10 5 0x13
  | op_addiw => FI 0 0x1b
  | op_slliw => Fshift 5 0x00 1 0x1b
  | op_srliw => Fshift 5 0x00 5 0x1b
  | op_sraiw => Fshift 5 0x20 5 0x1b
  | op_lui => FU 0x37
  | op_auipc => FU 0x17
  | op_jal => FJ 0x6f
  | op_jalr => FI 0 0x67
  | op_beq => FB 0 0x63
  | op_bne => FB 1 0x63
  | op_blt => FB 4 0x63
  | op_bge => FB 5 0x63
  | op_bltu => FB 6 0x63
  | op_bgeu => FB 7 0x63
  | op_lb => FI 0 0x03
  | op_lbu => FI 4 0x03
  | op_lh => FI 1 0x03
  | op_lhu => FI 5 0x03
  | op_lw => FI 2 0x03
  | op_lwu => FI 6 0x03
  | op_ld => FI 3 0x03
  | op_sb => FS 0 0x23
  | op_sh => FS 1 0x23
  | op_sw => FS 2 0x23
  | op_sd => FS 3 0x23
  | op_amoadd_w => FA 0 2 0x2f
  | op_amoadd_d => FA 0 3 0x2f
  end.

(** A decoded instruction. Fields an operation does not have are 0. *)
Record instr := Instr { i_op : op; i_dst : Z; i_src1 : Z; i_src2 : Z; i_imm : Z }.

(** * Encoding *)

Definition r_type (funct7 rs2 rs1 funct3 rd opcode : Z) : Z :=
  (funct7 ≪ 25) .| (rs2 ≪ 20) .| (rs1 ≪ 15) .| (funct3 ≪ 12) .| (rd ≪ 7) .| opcode.

Definition i_type (imm rs1 funct3 rd opcode : Z) : Z :=
  (imm ≪ 20) .| (rs1 ≪ 15) .| (funct3 ≪ 12) .| (rd ≪ 7) .| opcode.

(** Bits [hi] down to [lo] of [x]. *)
Definition extract (hi lo x : Z) : Z := wrap (hi - lo + 1) (x ≫ lo).

Definition s_type (imm rs2 rs1 funct3 opcode : Z) : Z :=
  (extract 11 5 imm ≪ 25) .| (rs2 ≪ 20) .| (rs1 ≪ 15) .| (funct3 ≪ 12) .|
  (extract 4 0 imm ≪ 7) .| opcode.

Definition u_type (imm rd opcode : Z) : Z := (imm ≪ 12) .| (rd ≪ 7) .| opcode.

Definition b_type (imm rs2 rs1 funct3 opcode : Z) : Z :=
  (extract 11 11 imm ≪ 31) .| (extract 9 4 imm ≪ 25) .| (rs2 ≪ 20) .| (rs1 ≪ 15) .|
  (funct3 ≪ 12) .| (extract 3 0 imm ≪ 8) .| (extract 10 10 imm ≪ 7) .| opcode.

Definition j_type (imm rd opcode : Z) : Z :=
  (extract 19 19 imm ≪ 31) .| (extract 9 0 imm ≪ 21) .| (extract 10 10 imm ≪ 20) .|
  (extract 18 11 imm ≪ 12) .| (rd ≪ 7) .| opcode.

Definition encode_instr (i : instr) : Z :=
  let 'Instr o rd rs1 rs2 imm := i in
  match op_format o with
  | FR f7 f3 opc => r_type f7 rs2 rs1 f3 rd opc
  | FI f3 opc => i_type imm rs1 f3 rd opc
  | Fshift n sel f3 opc => i_type ((sel ≪ n) .| imm) rs1 f3 rd opc
  | FS f3 opc => s_type imm rs2 rs1 f3 opc
  | FB f3 opc => b_type imm rs2 rs1 f3 opc
  | FU opc => u_type imm rd opc
  | FJ opc => j_type imm rd opc
  | FA f5 f3 opc => r_type (f5 ≪ 2) rs2 rs1 f3 rd opc
  end.

(** * Decoding *)

Definition d_opcode (w : Z) : Z := extract 6 0 w.
Definition d_rd (w : Z) : Z := extract 11 7 w.
Definition d_funct3 (w : Z) : Z := extract 14 12 w.
Definition d_rs1 (w : Z) : Z := extract 19 15 w.
Definition d_rs2 (w : Z) : Z := extract 24 20 w.
Definition d_funct7 (w : Z) : Z := extract 31 25 w.

(** Does the operation's format agree with these selector fields? *)
Definition selects (opcode f3 f7 : Z) (o : op) : bool :=
  match op_format o with
  | FR g7 g3 opc => (opcode =? opc) && (f3 =? g3) && (f7 =? g7)
  | FI g3 opc | FS g3 opc | FB g3 opc => (opcode =? opc) && (f3 =? g3)
  | Fshift n sel g3 opc => (opcode =? opc) && (f3 =? g3) && (f7 ≫ (n - 5) =? sel)
  | FU opc | FJ opc => opcode =? opc
  | FA g5 g3 opc => (opcode =? opc) && (f3 =? g3) && (f7 ≫ 2 =? g5)
  end.

Definition decode_op (opcode f3 f7 : Z) : option op := List.find (selects opcode f3 f7) all_ops.

Definition decode (w : Z) : option instr :=
  o ← decode_op (d_opcode w) (d_funct3 w) (d_funct7 w);
  Some match op_format o with
  | FR _ _ _ | FA _ _ _ => Instr o (d_rd w) (d_rs1 w) (d_rs2 w) 0
  | FI _ _ => Instr o (d_rd w) (d_rs1 w) 0 (extract 31 20 w)
  | Fshift n _ _ _ => Instr o (d_rd w) (d_rs1 w) 0 (wrap n (w ≫ 20))
  | FS _ _ => Instr o 0 (d_rs1 w) (d_rs2 w) ((extract 31 25 w ≪ 5) .| extract 11 7 w)
  | FB _ _ => Instr o 0 (d_rs1 w) (d_rs2 w)
      ((extract 31 31 w ≪ 11) .| (extract 7 7 w ≪ 10) .| (extract 30 25 w ≪ 4) .| extract 11 8 w)
  | FU _ => Instr o (d_rd w) 0 0 (extract 31 12 w)
  | FJ _ => Instr o (d_rd w) 0 0
      ((extract 31 31 w ≪ 19) .| (extract 19 12 w ≪ 11) .| (extract 20 20 w ≪ 10) .| extract 30 21 w)
  end.

(** The instructions each format can express. *)
Definition instr_wf (i : instr) : Prop :=
  let 'Instr o rd rs1 rs2 imm := i in
  match op_format o with
  | FR _ _ _ | FA _ _ _ => uint 5 rd /\ uint 5 rs1 /\ uint 5 rs2 /\ imm = 0
  | FI _ _ => uint 5 rd /\ uint 5 rs1 /\ rs2 = 0 /\ uint 12 imm
  | Fshift n _ _ _ => uint 5 rd /\ uint 5 rs1 /\ rs2 = 0 /\ uint n imm
  | FS _ _ | FB _ _ => rd = 0 /\ uint 5 rs1 /\ uint 5 rs2 /\ uint 12 imm
  | FU _ | FJ _ => uint 5 rd /\ rs1 = 0 /\ rs2 = 0 /\ uint 20 imm
  end.

(** * The processor *)

Record cpu := Cpu { pc : Z; gprs : Z -> Z; cmem : mem }.

(** Register x0 reads as zero and ignores writes. *)
Definition gpr_ref (c : cpu) (r : Z) : Z := if r =? 0 then 0 else gprs c r.
Definition gpr_set (c : cpu) (r v : Z) : cpu :=
  if r =? 0 then c else Cpu (pc c) (<[r := v]> (gprs c)) (cmem c).
Definition set_cpu_pc (c : cpu) (p : Z) : cpu := Cpu p (gprs c) (cmem c).
Definition set_cmem (c : cpu) (m : mem) : cpu := Cpu (pc c) (gprs c) m.

Definition memop_size (o : op) : option nat :=
  match o with
  | op_lb | op_lbu | op_sb => Some 1%nat
  | op_lh | op_lhu | op_sh => Some 2%nat
  | op_lw | op_lwu | op_sw => Some 4%nat
  | op_ld | op_sd => Some 8%nat
  | _ => None
  end.

Definition load_signed (o : op) : option bool :=
  match o with
  | op_lb | op_lh | op_lw | op_ld => Some true
  | op_lbu | op_lhu | op_lwu => Some false
  | _ => None
  end.

Section interp.
Context (XLEN : Z).

(** Sign extension of an [n]-bit value to the register width. *)
Definition sign_extend (n x : Z) : Z := wrap XLEN (sgn n x).

Definition cpu_next (c : cpu) : cpu := set_cpu_pc c (wrap XLEN (pc c + 4)).

Definition evaluate_binary_conditional (o : op) (val1 val2 : Z) : option bool :=
  match o with
  | op_bge => Some (sgn XLEN val2 <=? sgn XLEN val1)
  | op_blt => Some (sgn XLEN val1 <? sgn XLEN val2)
  | op_bgeu => Some (val2 <=? val1)
  | op_bltu => Some (val1 <? val2)
  | op_bne => Some (negb (val1 =? val2))
  | op_beq => Some (val1 =? val2)
  | _ => None
  end.

(** Operands and result are [w]-bit values; the shift amount is masked, and
    division by zero has the result RISC-V prescribes. *)
Definition evaluate_binary_op (w : Z) (o : op) (v1 v2 : Z) : option Z :=
  match o with
  | op_addi | op_addw | op_add => Some (wrap w (v1 + v2))
  | op_subw | op_sub => Some (wrap w (v1 - v2))
  | op_ori | op_or => Some (v1 .| v2)
  | op_andi | op_and => Some (v1 .& v2)
  | op_xori | op_xor => Some (Z.lxor v1 v2)
  | op_slliw | op_slli | op_sllw | op_sll => Some (wrap w (v1 ≪ ((w - 1) .& v2)))
  | op_srliw | op_srli | op_srlw | op_srl => Some (v1 ≫ ((w - 1) .& v2))
  | op_sraiw | op_srai | op_sraw | op_sra => Some (wrap w (sgn w v1 ≫ ((w - 1) .& v2)))
  | op_mulw | op_mul => Some (wrap w (v1 * v2))
  | op_divw | op_div => Some (wrap w (if v2 =? 0 then -1 else Z.quot (sgn w v1) (sgn w v2)))
  | op_remw | op_rem => Some (if v2 =? 0 then v1 else wrap w (Z.rem (sgn w v1) (sgn w v2)))
  | op_divuw | op_divu => Some (if v2 =? 0 then wrap w (-1) else v1 / v2)
  | op_remuw | op_remu => Some (if v2 =? 0 then v1 else v1 mod v2)
  | _ => None
  end.

Definition jump_and_link (c : cpu) (reg addr w : Z) : cpu :=
  let target := wrap XLEN (pc c + sgn w addr * 2) in
  set_cpu_pc (gpr_set c reg (wrap XLEN (pc c + 4))) target.

(** The instructions of the interpreter, on 4-byte encodings and a flat memory. *)
Definition interpret_instr (i : instr) (c : cpu) : option cpu :=
  let 'Instr o dst src1 src2 imm := i in
  match o with
  | op_auipc => Some (cpu_next (gpr_set c dst (wrap XLEN (sgn 32 (imm ≪ 12) + pc c))))
  | op_lui => Some (cpu_next (gpr_set c dst (sign_extend 32 (imm ≪ 12))))
  | op_sltiu => Some (cpu_next (gpr_set c dst (Z.b2z (gpr_ref c src1 <? sign_extend 12 imm))))
  | op_sltu => Some (cpu_next (gpr_set c dst (Z.b2z (gpr_ref c src1 <? gpr_ref c src2))))
  | op_addiw =>
      if XLEN =? 64
      then Some (cpu_next (gpr_set c dst (sign_extend 32 (wrap 32 (gpr_ref c src1) + sgn 12 imm))))
      else None
  | op_slliw | op_srliw | op_sraiw =>
      if XLEN =? 64
      then v ← evaluate_binary_op 32 o (wrap 32 (gpr_ref c src1)) (wrap 32 (sgn 12 imm) .& 31);
           Some (cpu_next (gpr_set c dst (sign_extend 32 v)))
      else None
  | op_jal => Some (jump_and_link c dst imm 20)
  | op_jalr =>
      let target := Z.ldiff (wrap XLEN (gpr_ref c src1 + sgn 12 imm)) 1 in
      Some (set_cpu_pc (gpr_set c dst (wrap XLEN (pc c + 4))) target)
  | op_ld | op_lw | op_lwu | op_lh | op_lhu | op_lb | op_lbu =>
      n ← memop_size o;
      s ← load_signed o;
      let v := load_le XLEN n (cmem c) (gpr_ref c src1 + sgn 12 imm) in
      Some (cpu_next (gpr_set c dst (if (s : bool) then sign_extend (8 * Z.of_nat n) v else v)))
  | op_sd | op_sw | op_sh | op_sb =>
      n ← memop_size o;
      Some (cpu_next (set_cmem c
        (store_le XLEN n (cmem c) (gpr_ref c src1 + sgn 12 imm) (gpr_ref c src2))))
  | op_bge | op_blt | op_bgeu | op_bltu | op_bne | op_beq =>
      b ← evaluate_binary_conditional o (gpr_ref c src1) (gpr_ref c src2);
      Some (if (b : bool) then jump_and_link c 0 imm 12 else cpu_next c)
  | op_addi | op_ori | op_andi | op_xori | op_srli | op_srai | op_slli =>
      v ← evaluate_binary_op XLEN o (gpr_ref c src1) (sign_extend 12 imm);
      Some (cpu_next (gpr_set c dst v))
  | op_add | op_sub | op_or | op_and | op_xor | op_srl | op_sra | op_sll
  | op_mul | op_div | op_rem | op_divu | op_remu =>
      v ← evaluate_binary_op XLEN o (gpr_ref c src1) (gpr_ref c src2);
      Some (cpu_next (gpr_set c dst v))
  | op_mulh => Some (cpu_next (gpr_set c dst
      (wrap XLEN ((sgn XLEN (gpr_ref c src1) * sgn XLEN (gpr_ref c src2)) ≫ XLEN))))
  | op_mulhu => Some (cpu_next (gpr_set c dst
      (wrap XLEN ((gpr_ref c src1 * gpr_ref c src2) ≫ XLEN))))
  | op_mulhsu => Some (cpu_next (gpr_set c dst
      (wrap XLEN ((sgn XLEN (gpr_ref c src1) * gpr_ref c src2) ≫ XLEN))))
  | op_addw | op_subw | op_sllw | op_srlw | op_sraw | op_mulw
  | op_divw | op_remw | op_divuw | op_remuw =>
      if XLEN =? 64
      then v ← evaluate_binary_op 32 o (wrap 32 (gpr_ref c src1)) (wrap 32 (gpr_ref c src2));
           Some (cpu_next (gpr_set c dst (sign_extend 32 v)))
      else None
  | _ => None
  end.

(** The atomic additions, which trap on an address that is not aligned. *)
Definition amoadd (n : nat) (c : cpu) (dst addr v : Z) : option cpu :=
  if addr mod Z.of_nat n =? 0 then
    let old := load_le XLEN n (cmem c) addr in
    let c' := gpr_set c dst (sign_extend (8 * Z.of_nat n) old) in
    Some (cpu_next (set_cmem c' (store_le XLEN n (cmem c) addr (old + v))))
  else None.

Definition exec_instr (i : instr) (c : cpu) : option cpu :=
  match i_op i with
  | op_amoadd_w => amoadd 4 c (i_dst i) (gpr_ref c (i_src1 i)) (gpr_ref c (i_src2 i))
  | op_amoadd_d => amoadd 8 c (i_dst i) (gpr_ref c (i_src1 i)) (gpr_ref c (i_src2 i))
  | _ => interpret_instr i c
  end.

(** Executing one instruction word. *)
Definition exec_word (w : Z) (c : cpu) : option cpu := i ← decode w; exec_instr i c.

(** One step of a processor whose code is the array [code] of words at [base],
    and [n] such steps. *)
Definition rv_step (code : Z -> Z) (base : Z) (c : cpu) : option cpu :=
  let k := wrap XLEN (pc c - base) in
  if k mod 4 =? 0 then exec_word (code (k / 4)) c else None.

Fixpoint rv_steps (code : Z -> Z) (base : Z) (n : nat) (c : cpu) : option cpu :=
  match n with
  | O => Some c
  | S n => c' ← rv_step code base c; rv_steps code base n c'
  end.
End interp.

(** * Decoding inverts encoding *)

(** The selector fields determine the operation. *)
Lemma decode_op_selects o opc f3 f7 : selects opc f3 f7 o = true -> decode_op opc f3 f7 = Some o.
Proof.
  intros H. unfold decode_op.
  destruct o; cbv [selects op_format] in H;
    repeat (apply andb_prop in H as [H ?]); rewrite ?Z.eqb_eq in *; subst;
    try reflexivity.
  all: match goal with E : ?f ≫ ?k = ?c |- _ =>
         let k' := eval compute in k in change (f ≫ k' = c) in E; cbv -[Z.shiftr]; by rewrite ?E
       end.
Qed.

(** The selector fields of every format fit their places. *)
Definition format_wf (f : format) : Prop :=
  match f with
  | FR f7 f3 opc => uint 7 f7 /\ uint 3 f3 /\ uint 7 opc
  | FI f3 opc | FS f3 opc | FB f3 opc => uint 3 f3 /\ uint 7 opc
  | Fshift n sel f3 opc => 5 <= n <= 6 /\ uint (12 - n) sel /\ uint 3 f3 /\ uint 7 opc
  | FU opc | FJ opc => uint 7 opc
  | FA f5 f3 opc => uint 5 f5 /\ uint 3 f3 /\ uint 7 opc
  end.

Lemma op_format_wf o : format_wf (op_format o).
Proof. destruct o; cbv -[Z.le Z.lt]; repeat split; lia. Qed.

Ltac fields := unfold d_opcode, d_rd, d_funct3, d_rs1, d_rs2, d_funct7, extract, r_type, i_type, s_type,
  u_type, b_type, j_type, extract; zbits.

Lemma r_type_fields f7 rs2 rs1 f3 rd opc :
  uint 7 f7 -> uint 5 rs2 -> uint 5 rs1 -> uint 3 f3 -> uint 5 rd -> uint 7 opc ->
  let w := r_type f7 rs2 rs1 f3 rd opc in
  d_opcode w = opc /\ d_rd w = rd /\ d_funct3 w = f3 /\ d_rs1 w = rs1 /\ d_rs2 w = rs2 /\ d_funct7 w = f7.
Proof. intros. subst w. repeat split; fields. Qed.

Lemma i_type_fields imm rs1 f3 rd opc :
  uint 12 imm -> uint 5 rs1 -> uint 3 f3 -> uint 5 rd -> uint 7 opc ->
  let w := i_type imm rs1 f3 rd opc in
  d_opcode w = opc /\ d_rd w = rd /\ d_funct3 w = f3 /\ d_rs1 w = rs1 /\ extract 31 20 w = imm /\
  w ≫ 20 = imm /\ d_funct7 w = imm ≫ 5.
Proof. intros. subst w. repeat split; fields. Qed.

Lemma s_type_fields imm rs2 rs1 f3 opc :
  uint 12 imm -> uint 5 rs2 -> uint 5 rs1 -> uint 3 f3 -> uint 7 opc ->
  let w := s_type imm rs2 rs1 f3 opc in
  d_opcode w = opc /\ d_funct3 w = f3 /\ d_rs1 w = rs1 /\ d_rs2 w = rs2 /\
  (extract 31 25 w ≪ 5) .| extract 11 7 w = imm.
Proof. intros. subst w. repeat split; fields. Qed.

Lemma b_type_fields imm rs2 rs1 f3 opc :
  uint 12 imm -> uint 5 rs2 -> uint 5 rs1 -> uint 3 f3 -> uint 7 opc ->
  let w := b_type imm rs2 rs1 f3 opc in
  d_opcode w = opc /\ d_funct3 w = f3 /\ d_rs1 w = rs1 /\ d_rs2 w = rs2 /\
  (extract 31 31 w ≪ 11) .| (extract 7 7 w ≪ 10) .| (extract 30 25 w ≪ 4) .| extract 11 8 w = imm.
Proof. intros. subst w. repeat split; fields. Qed.

Lemma u_type_fields imm rd opc : uint 20 imm -> uint 5 rd -> uint 7 opc ->
  let w := u_type imm rd opc in d_opcode w = opc /\ d_rd w = rd /\ extract 31 12 w = imm.
Proof. intros. subst w. repeat split; fields. Qed.

Lemma j_type_fields imm rd opc : uint 20 imm -> uint 5 rd -> uint 7 opc ->
  let w := j_type imm rd opc in
  d_opcode w = opc /\ d_rd w = rd /\
  (extract 31 31 w ≪ 19) .| (extract 19 12 w ≪ 11) .| (extract 20 20 w ≪ 10) .| extract 30 21 w = imm.
Proof. intros. subst w. repeat split; fields. Qed.

(** A value shifted above the bits of another one. *)
Lemma field_above w n hi lo : 0 <= n <= w -> uint (w - n) hi -> uint n lo ->
  uint w (hi ≪ n .| lo) /\ (hi ≪ n .| lo) ≫ n = hi /\ wrap n (hi ≪ n .| lo) = lo.
Proof.
  intros Hn Hh Hl. repeat split; [..|zbits|zbits].
  - apply Z.lor_nonneg. split; [apply Z.shiftl_nonneg, Hh|apply Hl].
  - eapply uint_bits; [lia|]. split; [apply Z.lor_nonneg; split; [apply Z.shiftl_nonneg, Hh|apply Hl]|].
    intros m Hm. bit_rewrite. rewrite (testbit_uint (w - n) hi), (testbit_uint n lo) by (done || lia). done.
Qed.

(** Every expressible instruction is decoded from its encoding. *)
Lemma decode_encode i : instr_wf i -> decode (encode_instr i) = Some i.
Proof.
  destruct i as [o rd rs1 rs2 imm]. cbn [encode_instr instr_wf]. pose proof (op_format_wf o) as Hf.
  destruct (op_format o) eqn:F; cbn [format_wf] in Hf; intros Hw; destruct_conjs; subst; unfold decode.
  - destruct (r_type_fields funct7 rs2 rs1 funct3 rd opcode) as (-> & -> & -> & -> & -> & ->); [done..|].
    rewrite (decode_op_selects o); [cbn; by rewrite F|]. unfold selects. by rewrite F, !Z.eqb_refl.
  - destruct (i_type_fields imm rs1 funct3 rd opcode) as (-> & -> & -> & -> & -> & _ & ->); [done..|].
    rewrite (decode_op_selects o); [cbn; by rewrite F|]. unfold selects. by rewrite F, !Z.eqb_refl.
  - destruct (field_above 12 n sel imm) as (? & Hs & Hi); [lia|done..|].
    destruct (i_type_fields (sel ≪ n .| imm) rs1 funct3 rd opcode) as (-> & -> & -> & -> & _ & -> & ->); [done..|].
    rewrite (decode_op_selects o); [cbn; by rewrite F, Hi|]. unfold selects.
    rewrite F, Z.shiftr_shiftr by lia. replace (5 + (n - 5)) with n by lia. by rewrite Hs, !Z.eqb_refl.
  - destruct (s_type_fields imm rs2 rs1 funct3 opcode) as (-> & -> & -> & -> & ->); [done..|].
    rewrite (decode_op_selects o); [cbn; by rewrite F|]. unfold selects. by rewrite F, !Z.eqb_refl.
  - destruct (b_type_fields imm rs2 rs1 funct3 opcode) as (-> & -> & -> & -> & ->); [done..|].
    rewrite (decode_op_selects o); [cbn; by rewrite F|]. unfold selects. by rewrite F, !Z.eqb_refl.
  - destruct (u_type_fields imm rd opcode) as (-> & -> & ->); [done..|].
    rewrite (decode_op_selects o); [cbn; by rewrite F|]. unfold selects. by rewrite F, !Z.eqb_refl.
  - destruct (j_type_fields imm rd opcode) as (-> & -> & ->); [done..|].
    rewrite (decode_op_selects o); [cbn; by rewrite F|]. unfold selects. by rewrite F, !Z.eqb_refl.
  - destruct (field_above 7 2 funct5 0) as (Hr & Hs & _); [lia|done..|]. rewrite Z.lor_0_r in Hr, Hs.
    destruct (r_type_fields (funct5 ≪ 2) rs2 rs1 funct3 rd opcode) as (-> & -> & -> & -> & -> & ->); [done..|].
    rewrite (decode_op_selects o); [cbn; by rewrite F|]. unfold selects. by rewrite F, Hs, !Z.eqb_refl.
Qed.

#[global] Arguments decode : simpl never.
#[global] Arguments exec_word : simpl never.
