(* ===== verification/RvEmit.v ===== *)
(** What the two BPF compilers share, bpf/jit/bpf_jit_riscv64.c and
    bpf/jit/bpf_jit_comp32.c: registers, the context and the emission of
    instructions, the instruction encoders and the offsets of jumps. Signed
    arithmetic wraps around, as in the kernel build the files are written for;
    arguments are converted to the parameter types by the functions that encode
    the instruction formats. *)

From S2P Require Import Prelude.

(** * Registers *)

Abbreviation RV_REG_ZERO := 0%Z (only parsing).
Abbreviation RV_REG_RA := 1%Z (only parsing).
Abbreviation RV_REG_SP := 2%Z (only parsing).
Abbreviation RV_REG_T0 := 5%Z (only parsing).
Abbreviation RV_REG_T1 := 6%Z (only parsing).
Abbreviation RV_REG_T2 := 7%Z (only parsing).
Abbreviation RV_REG_FP := 8%Z (only parsing).
Abbreviation RV_REG_S1 := 9%Z (only parsing).
Abbreviation RV_REG_A0 := 10%Z (only parsing).
Abbreviation RV_REG_A1 := 11%Z (only parsing).
Abbreviation RV_REG_A2 := 12%Z (only parsing).
Abbreviation RV_REG_A3 := 13%Z (only parsing).
Abbreviation RV_REG_A4 := 14%Z (only parsing).
Abbreviation RV_REG_A5 := 15%Z (only parsing).
Abbreviation RV_REG_A6 := 16%Z (only parsing).
Abbreviation RV_REG_A7 := 17%Z (only parsing).
Abbreviation RV_REG_S2 := 18%Z (only parsing).
Abbreviation RV_REG_S3 := 19%Z (only parsing).
Abbreviation RV_REG_S4 := 20%Z (only parsing).
Abbreviation RV_REG_S5 := 21%Z (only parsing).
Abbreviation RV_REG_S6 := 22%Z (only parsing).
Abbreviation RV_REG_T3 := 28%Z (only parsing).
Abbreviation RV_REG_T4 := 29%Z (only parsing).
Abbreviation RV_REG_T5 := 30%Z (only parsing).

(** * The context and the operations on it *)

Record rv_jit_context := Ctx {
  insns : option (Z -> Z);      (** the output buffer, or NULL *)
  ninsns : Z;                   (** instructions emitted so far *)
  epilogue_offset : Z;
  offset : Z -> option Z;       (** the table from BPF to RV instructions *)
  flags : Z;
  stack_size : Z
}.

(** Operations take the context and may run into undefined behaviour. *)
Definition M (A : Type) : Type := rv_jit_context -> option (A * rv_jit_context).
Definition ret {A} (a : A) : M A := fun ctx => Some (a, ctx).
Definition bind {A B} (m : M A) (k : A -> M B) : M B := fun ctx => r ← m ctx; k r.1 r.2.
Definition undef {A} : M A := fun _ => None.

Declare Scope jit_scope.
Notation "x <- m ; k" := (bind m (fun x => k)) (at level 100, m at next level, right associativity) : jit_scope.
Notation "m ;; k" := (bind m (fun _ => k)) (at level 100, right associativity) : jit_scope.
Open Scope jit_scope.

Definition when (b : bool) (m : M unit) : M unit := if b then m else ret ().

(** ninsns counts at most 64 instructions for each of the at most BPF_MAXINSNS
    instructions of a program, so its increment does not overflow. *)
Definition emit (insn : Z) : M unit := fun ctx =>
  let buf := match insns ctx with Some b => Some (<[ninsns ctx := insn]> b) | None => None end in
  Some ((), Ctx buf (ninsns ctx + 1) (epilogue_offset ctx) (offset ctx) (flags ctx) (stack_size ctx)).

(** * Instruction formats *)

Definition rv_r_insn (funct7 rs2 rs1 funct3 rd opcode : Z) : Z :=
  u32 ((funct7 ≪ 25) .| (rs2 ≪ 20) .| (rs1 ≪ 15) .| (funct3 ≪ 12) .| (rd ≪ 7) .| opcode).

Definition rv_i_insn (imm11_0 rs1 funct3 rd opcode : Z) : Z :=
  u32 ((u16 imm11_0 ≪ 20) .| (rs1 ≪ 15) .| (funct3 ≪ 12) .| (rd ≪ 7) .| opcode).

Definition rv_s_insn (imm11_0 rs2 rs1 funct3 opcode : Z) : Z :=
  let imm11_0 := u16 imm11_0 in
  let imm11_5 := u8 (imm11_0 ≫ 5) in
  let imm4_0 := u8 (imm11_0 .& 0x1f) in
  u32 ((imm11_5 ≪ 25) .| (rs2 ≪ 20) .| (rs1 ≪ 15) .| (funct3 ≪ 12) .| (imm4_0 ≪ 7) .| opcode).

Definition rv_sb_insn (imm12_1 rs2 rs1 funct3 opcode : Z) : Z :=
  let imm12_1 := u16 imm12_1 in
  let imm12 := u8 (((imm12_1 .& 0x800) ≫ 5) .| ((imm12_1 .& 0x3f0) ≫ 4)) in
  let imm4_1 := u8 (((imm12_1 .& 0xf) ≪ 1) .| ((imm12_1 .& 0x400) ≫ 10)) in
  u32 ((imm12 ≪ 25) .| (rs2 ≪ 20) .| (rs1 ≪ 15) .| (funct3 ≪ 12) .| (imm4_1 ≪ 7) .| opcode).

Definition rv_u_insn (imm31_12 rd opcode : Z) : Z :=
  u32 ((u32 imm31_12 ≪ 12) .| (rd ≪ 7) .| opcode).

Definition rv_uj_insn (imm20_1 rd opcode : Z) : Z :=
  let imm20_1 := u32 imm20_1 in
  let imm := (imm20_1 .& 0x80000) .| u32 ((imm20_1 .& 0x3ff) ≪ 9) .|
             ((imm20_1 .& 0x400) ≫ 2) .| ((imm20_1 .& 0x7f800) ≫ 11) in
  u32 ((imm ≪ 12) .| (rd ≪ 7) .| opcode).

Definition rv_amo_insn (funct5 aq rl rs2 rs1 funct3 rd opcode : Z) : Z :=
  let funct7 := u8 ((funct5 ≪ 2) .| (aq ≪ 1) .| rl) in
  rv_r_insn funct7 rs2 rs1 funct3 rd opcode.

(** * Instructions *)

Definition rv_addiw (rd rs1 imm11_0 : Z) : Z := rv_i_insn imm11_0 rs1 0 rd 0x1b.
Definition rv_addi (rd rs1 imm11_0 : Z) : Z := rv_i_insn imm11_0 rs1 0 rd 0x13.
Definition rv_addw (rd rs1 rs2 : Z) : Z := rv_r_insn 0 rs2 rs1 0 rd 0x3b.
Definition rv_add (rd rs1 rs2 : Z) : Z := rv_r_insn 0 rs2 rs1 0 rd 0x33.
Definition rv_subw (rd rs1 rs2 : Z) : Z := rv_r_insn 0x20 rs2 rs1 0 rd 0x3b.
Definition rv_sub (rd rs1 rs2 : Z) : Z := rv_r_insn 0x20 rs2 rs1 0 rd 0x33.
Definition rv_and (rd rs1 rs2 : Z) : Z := rv_r_insn 0 rs2 rs1 7 rd 0x33.
Definition rv_or (rd rs1 rs2 : Z) : Z := rv_r_insn 0 rs2 rs1 6 rd 0x33.
Definition rv_xor (rd rs1 rs2 : Z) : Z := rv_r_insn 0 rs2 rs1 4 rd 0x33.
Definition rv_mulw (rd rs1 rs2 : Z) : Z := rv_r_insn 1 rs2 rs1 0 rd 0x3b.
Definition rv_mul (rd rs1 rs2 : Z) : Z := rv_r_insn 1 rs2 rs1 0 rd 0x33.
Definition rv_mulhu (rd rs1 rs2 : Z) : Z := rv_r_insn 1 rs2 rs1 3 rd 0x33.
Definition rv_divuw (rd rs1 rs2 : Z) : Z := rv_r_insn 1 rs2 rs1 5 rd 0x3b.
Definition rv_divu (rd rs1 rs2 : Z) : Z := rv_r_insn 1 rs2 rs1 5 rd 0x33.
Definition rv_remuw (rd rs1 rs2 : Z) : Z := rv_r_insn 1 rs2 rs1 7 rd 0x3b.
Definition rv_remu (rd rs1 rs2 : Z) : Z := rv_r_insn 1 rs2 rs1 7 rd 0x33.
Definition rv_sllw (rd rs1 rs2 : Z) : Z := rv_r_insn 0 rs2 rs1 1 rd 0x3b.
Definition rv_sll (rd rs1 rs2 : Z) : Z := rv_r_insn 0 rs2 rs1 1 rd 0x33.
Definition rv_srlw (rd rs1 rs2 : Z) : Z := rv_r_insn 0 rs2 rs1 5 rd 0x3b.
Definition rv_srl (rd rs1 rs2 : Z) : Z := rv_r_insn 0 rs2 rs1 5 rd 0x33.
Definition rv_sraw (rd rs1 rs2 : Z) : Z := rv_r_insn 0x20 rs2 rs1 5 rd 0x3b.
Definition rv_sra (rd rs1 rs2 : Z) : Z := rv_r_insn 0x20 rs2 rs1 5 rd 0x33.
Definition rv_sltu (rd rs1 rs2 : Z) : Z := rv_r_insn 0 rs2 rs1 3 rd 0x33.
Definition rv_lui (rd imm31_12 : Z) : Z := rv_u_insn imm31_12 rd 0x37.
Definition rv_slli (rd rs1 imm11_0 : Z) : Z := rv_i_insn imm11_0 rs1 1 rd 0x13.
Definition rv_andi (rd rs1 imm11_0 : Z) : Z := rv_i_insn imm11_0 rs1 7 rd 0x13.
Definition rv_ori (rd rs1 imm11_0 : Z) : Z := rv_i_insn imm11_0 rs1 6 rd 0x13.
Definition rv_xori (rd rs1 imm11_0 : Z) : Z := rv_i_insn imm11_0 rs1 4 rd 0x13.
Definition rv_slliw (rd rs1 imm11_0 : Z) : Z := rv_i_insn imm11_0 rs1 1 rd 0x1b.
Definition rv_srliw (rd rs1 imm11_0 : Z) : Z := rv_i_insn imm11_0 rs1 5 rd 0x1b.
Definition rv_srli (rd rs1 imm11_0 : Z) : Z := rv_i_insn imm11_0 rs1 5 rd 0x13.
Definition rv_sraiw (rd rs1 imm11_0 : Z) : Z := rv_i_insn (0x400 .| imm11_0) rs1 5 rd 0x1b.
Definition rv_srai (rd rs1 imm11_0 : Z) : Z := rv_i_insn (0x400 .| imm11_0) rs1 5 rd 0x13.
Definition rv_jal (rd imm20_1 : Z) : Z := rv_uj_insn imm20_1 rd 0x6f.
Definition rv_jalr (rd rs1 imm11_0 : Z) : Z := rv_i_insn imm11_0 rs1 0 rd 0x67.
Definition rv_beq (rs1 rs2 imm12_1 : Z) : Z := rv_sb_insn imm12_1 rs2 rs1 0 0x63.
Definition rv_bltu (rs1 rs2 imm12_1 : Z) : Z := rv_sb_insn imm12_1 rs2 rs1 6 0x63.
Definition rv_bgeu (rs1 rs2 imm12_1 : Z) : Z := rv_sb_insn imm12_1 rs2 rs1 7 0x63.
Definition rv_bne (rs1 rs2 imm12_1 : Z) : Z := rv_sb_insn imm12_1 rs2 rs1 1 0x63.
Definition rv_blt (rs1 rs2 imm12_1 : Z) : Z := rv_sb_insn imm12_1 rs2 rs1 4 0x63.
Definition rv_bge (rs1 rs2 imm12_1 : Z) : Z := rv_sb_insn imm12_1 rs2 rs1 5 0x63.
Definition rv_sb (rs1 imm11_0 rs2 : Z) : Z := rv_s_insn imm11_0 rs2 rs1 0 0x23.
Definition rv_sh (rs1 imm11_0 rs2 : Z) : Z := rv_s_insn imm11_0 rs2 rs1 1 0x23.
Definition rv_sw (rs1 imm11_0 rs2 : Z) : Z := rv_s_insn imm11_0 rs2 rs1 2 0x23.
Definition rv_sd (rs1 imm11_0 rs2 : Z) : Z := rv_s_insn imm11_0 rs2 rs1 3 0x23.
Definition rv_lbu (rd imm11_0 rs1 : Z) : Z := rv_i_insn imm11_0 rs1 4 rd 0x03.
Definition rv_lhu (rd imm11_0 rs1 : Z) : Z := rv_i_insn imm11_0 rs1 5 rd 0x03.
Definition rv_lw (rd imm11_0 rs1 : Z) : Z := rv_i_insn imm11_0 rs1 2 rd 0x03.
Definition rv_lwu (rd imm11_0 rs1 : Z) : Z := rv_i_insn imm11_0 rs1 6 rd 0x03.
Definition rv_ld (rd imm11_0 rs1 : Z) : Z := rv_i_insn imm11_0 rs1 3 rd 0x03.
Definition rv_amoadd_w (rd rs2 rs1 aq rl : Z) : Z := rv_amo_insn 0 aq rl rs2 rs1 2 rd 0x2f.
Definition rv_amoadd_d (rd rs2 rs1 aq rl : Z) : Z := rv_amo_insn 0 aq rl rs2 rs1 3 rd 0x2f.

(** * Ranges of immediates and offsets *)

Definition is_12b_int (val : Z) : bool := (- 2 ^ 11 <=? val) && (val <? 2 ^ 11).
Definition is_13b_int (val : Z) : bool := (- 2 ^ 12 <=? val) && (val <? 2 ^ 12).
Definition is_21b_int (val : Z) : bool := (- 2 ^ 20 <=? val) && (val <? 2 ^ 20).
Definition is_32b_int (val : Z) : bool := (- 2 ^ 31 <=? val) && (val <? 2 ^ 31).

Definition is_12b_check (off insn : Z) : Z := if is_12b_int off then 0 else -1.
Definition is_13b_check (off insn : Z) : Z := if is_13b_int off then 0 else -1.
Definition is_21b_check (off insn : Z) : Z := if is_21b_int off then 0 else -1.

(** * Offsets of jumps *)

(** ctx->offset[k] *)
Definition get_offset (k : Z) : M Z := fun ctx =>
  match offset ctx k with Some o => Some (o, ctx) | None => None end.

Definition rv_offset (bpf_to bpf_from : Z) : M Z :=
  from <- get_offset bpf_from;
  to <- get_offset bpf_to;
  ret (s32 (s32 (to - s32 (from - 1)) ≪ 2)).

(** The offset of a jump, and whether it can be encoded. *)
Definition rv_offset_check (off insn : Z) : M (Z * Z) :=
  rvoff <- rv_offset (insn + off) insn;
  ret (rvoff, is_13b_check rvoff insn).
