(* ===== verification/RvEnc.v ===== *)
(** The instruction encoders of the BPF compilers: each agrees with Serval's
    encoder, hence the processor decodes the instruction that was meant. *)

From S2P Require Import Prelude Cstring Bytes Riscv RvEmit.

(** * The C formats and the encoder's formats *)

(** Masks of the encoders as runs of ones. *)
Ltac mask c m := repeat match goal with |- context [?a .& c] => change (a .& c) with (a .& m) end.
Ltac rv_masks :=
  mask 0x800 (Z.ones 1 ≪ 11); mask 0x3f0 (Z.ones 6 ≪ 4); mask 0x400 (Z.ones 1 ≪ 10);
  mask 0xf (Z.ones 4); mask 0x1f (Z.ones 5); mask 0x80000 (Z.ones 1 ≪ 19);
  mask 0x3ff (Z.ones 10); mask 0x7f800 (Z.ones 8 ≪ 11).

Ltac rv_bits := rv_masks; zbits.

Lemma rv_r_insn_eq f7 rs2 rs1 f3 rd opc :
  uint 7 f7 -> uint 5 rs2 -> uint 5 rs1 -> uint 3 f3 -> uint 5 rd -> uint 7 opc ->
  rv_r_insn f7 rs2 rs1 f3 rd opc = r_type f7 rs2 rs1 f3 rd opc.
Proof. intros. unfold rv_r_insn, r_type. rv_bits. Qed.

Lemma rv_i_insn_eq imm rs1 f3 rd opc : uint 5 rs1 -> uint 3 f3 -> uint 5 rd -> uint 7 opc ->
  rv_i_insn imm rs1 f3 rd opc = i_type (wrap 12 imm) rs1 f3 rd opc.
Proof. intros. unfold rv_i_insn, i_type. rv_bits. Qed.

Lemma rv_s_insn_eq imm rs2 rs1 f3 opc : uint 5 rs2 -> uint 5 rs1 -> uint 3 f3 -> uint 7 opc ->
  rv_s_insn imm rs2 rs1 f3 opc = s_type (wrap 12 imm) rs2 rs1 f3 opc.
Proof. intros. unfold rv_s_insn, s_type, extract. rv_bits. Qed.

Lemma rv_sb_insn_eq imm rs2 rs1 f3 opc : uint 5 rs2 -> uint 5 rs1 -> uint 3 f3 -> uint 7 opc ->
  rv_sb_insn imm rs2 rs1 f3 opc = b_type (wrap 12 imm) rs2 rs1 f3 opc.
Proof. intros. unfold rv_sb_insn, b_type, extract. rv_bits. Qed.

Lemma rv_u_insn_eq imm rd opc : uint 5 rd -> uint 7 opc ->
  rv_u_insn imm rd opc = u_type (wrap 20 imm) rd opc.
Proof. intros. unfold rv_u_insn, u_type. rv_bits. Qed.

Lemma rv_uj_insn_eq imm rd opc : uint 5 rd -> uint 7 opc ->
  rv_uj_insn imm rd opc = j_type (wrap 20 imm) rd opc.
Proof. intros. unfold rv_uj_insn, j_type, extract. rv_bits. Qed.

(** * Decoding of the C formats *)

Ltac use_format H :=
  match type of H with op_format ?o = _ =>
    let W := fresh "W" in
    pose proof (op_format_wf o) as W; rewrite H in W; cbn [format_wf] in W; destruct_conjs
  end.

Lemma decode_r o f7 f3 opc rd rs1 rs2 : op_format o = FR f7 f3 opc ->
  uint 5 rd -> uint 5 rs1 -> uint 5 rs2 -> decode (rv_r_insn f7 rs2 rs1 f3 rd opc) = Some (Instr o rd rs1 rs2 0).
Proof.
  intros E ???. use_format E. rewrite rv_r_insn_eq by done.
  rewrite <- (decode_encode (Instr o rd rs1 rs2 0)); cbn; by rewrite E.
Qed.

Lemma decode_i o f3 opc rd rs1 k : op_format o = FI f3 opc -> uint 5 rd -> uint 5 rs1 ->
  decode (rv_i_insn k rs1 f3 rd opc) = Some (Instr o rd rs1 0 (wrap 12 k)).
Proof.
  intros E ??. use_format E. rewrite rv_i_insn_eq by done.
  rewrite <- (decode_encode (Instr o rd rs1 0 (wrap 12 k))); cbn; rewrite E; [done|].
  refine (conj _ (conj _ (conj _ _))); (done || by apply uint_wrap).
Qed.

Lemma decode_shift o n sel f3 opc rd rs1 k : op_format o = Fshift n sel f3 opc -> uint 5 rd -> uint 5 rs1 -> uint n k ->
  decode (rv_i_insn ((sel ≪ n) .| k) rs1 f3 rd opc) = Some (Instr o rd rs1 0 k).
Proof.
  intros E ???. use_format E. rewrite rv_i_insn_eq by done.
  destruct (field_above 12 n sel k) as (Hu & _ & _); [lia|done..|]. rewrite wrap_small by done.
  rewrite <- (decode_encode (Instr o rd rs1 0 k)); cbn; by rewrite E.
Qed.

Lemma decode_s o f3 opc rs1 rs2 k : op_format o = FS f3 opc -> uint 5 rs1 -> uint 5 rs2 ->
  decode (rv_s_insn k rs2 rs1 f3 opc) = Some (Instr o 0 rs1 rs2 (wrap 12 k)).
Proof.
  intros E ??. use_format E. rewrite rv_s_insn_eq by done.
  rewrite <- (decode_encode (Instr o 0 rs1 rs2 (wrap 12 k))); cbn; rewrite E; [done|].
  refine (conj _ (conj _ (conj _ _))); (done || by apply uint_wrap).
Qed.

Lemma decode_b o f3 opc rs1 rs2 k : op_format o = FB f3 opc -> uint 5 rs1 -> uint 5 rs2 ->
  decode (rv_sb_insn k rs2 rs1 f3 opc) = Some (Instr o 0 rs1 rs2 (wrap 12 k)).
Proof.
  intros E ??. use_format E. rewrite rv_sb_insn_eq by done.
  rewrite <- (decode_encode (Instr o 0 rs1 rs2 (wrap 12 k))); cbn; rewrite E; [done|].
  refine (conj _ (conj _ (conj _ _))); (done || by apply uint_wrap).
Qed.

Lemma decode_u o opc rd k : op_format o = FU opc -> uint 5 rd ->
  decode (rv_u_insn k rd opc) = Some (Instr o rd 0 0 (wrap 20 k)).
Proof.
  intros E ?. use_format E. rewrite rv_u_insn_eq by done.
  rewrite <- (decode_encode (Instr o rd 0 0 (wrap 20 k))); cbn; rewrite E; [done|].
  refine (conj _ (conj _ (conj _ _))); (done || by apply uint_wrap).
Qed.

Lemma decode_j o opc rd k : op_format o = FJ opc -> uint 5 rd ->
  decode (rv_uj_insn k rd opc) = Some (Instr o rd 0 0 (wrap 20 k)).
Proof.
  intros E ?. use_format E. rewrite rv_uj_insn_eq by done.
  rewrite <- (decode_encode (Instr o rd 0 0 (wrap 20 k))); cbn; rewrite E; [done|].
  refine (conj _ (conj _ (conj _ _))); (done || by apply uint_wrap).
Qed.

Lemma decode_amo o f3 opc rd rs1 rs2 : op_format o = FA 0 f3 opc ->
  uint 5 rd -> uint 5 rs1 -> uint 5 rs2 -> decode (rv_amo_insn 0 0 0 rs2 rs1 f3 rd opc) = Some (Instr o rd rs1 rs2 0).
Proof.
  intros E ???. use_format E. unfold rv_amo_insn. rewrite rv_r_insn_eq by done.
  rewrite <- (decode_encode (Instr o rd rs1 rs2 0)); cbn; by rewrite E.
Qed.

(** The shift amount below its selector. *)
Lemma shift_enc n sel k rs1 f3 rd opc : 5 <= n <= 6 -> uint (12 - n) sel -> uint n k ->
  uint 5 rs1 -> uint 3 f3 -> uint 5 rd -> uint 7 opc ->
  rv_i_insn ((sel ≪ n) .| k) rs1 f3 rd opc = i_type ((sel ≪ n) .| k) rs1 f3 rd opc.
Proof.
  intros. rewrite rv_i_insn_eq by done. destruct (field_above 12 n sel k) as (Hu & _); [lia|done..|].
  by rewrite wrap_small by apply Hu.
Qed.

(** Opens the named instructions to their formats. *)
Ltac rv_unfold :=
  cbv beta delta [rv_addiw rv_addi rv_addw rv_add rv_subw rv_sub rv_and rv_or rv_xor rv_mulw
    rv_mul rv_mulhu rv_divuw rv_divu rv_remuw rv_remu rv_sllw rv_sll rv_srlw rv_srl rv_sraw
    rv_sra rv_sltu rv_lui rv_slli rv_andi rv_ori rv_xori rv_slliw rv_srliw rv_srli rv_sraiw
    rv_srai rv_jal rv_jalr rv_beq rv_bltu rv_bgeu rv_bne rv_blt rv_bge rv_sb
    rv_sh rv_sw rv_sd rv_lbu rv_lhu rv_lw rv_lwu rv_ld rv_amoadd_w rv_amoadd_d].

(** The word of an atomic memory operation in the architecture: the opcode is below
    rd, funct3, rs1, rs2, the bits rl and aq, and funct5, in this order. *)
Definition amo_word (funct5 aq rl rs2 rs1 funct3 rd opcode : Z) : Z :=
  opcode + 2 ^ 7 * (rd + 2 ^ 5 * (funct3 + 2 ^ 3 * (rs1 + 2 ^ 5 * (rs2 + 2 ^ 5 * (rl + 2 ^ 1 * (aq + 2 ^ 1 * funct5)))))).

Lemma amo_insn_word funct5 aq rl rs2 rs1 funct3 rd opcode : uint 5 funct5 -> uint 1 aq -> uint 1 rl ->
  uint 5 rs2 -> uint 5 rs1 -> uint 3 funct3 -> uint 5 rd -> uint 7 opcode ->
  rv_amo_insn funct5 aq rl rs2 rs1 funct3 rd opcode = amo_word funct5 aq rl rs2 rs1 funct3 rd opcode.
Proof.
  intros. unfold rv_amo_insn, amo_word. rewrite !add_field by (lia || done).
  unfold rv_r_insn. zbits.
  all: repeat (f_equal; try lia).
Qed.

(** C22: every encoder of the compilers produces, for registers that exist and shift
    amounts below the width, the word that Serval's encoder produces for the
    instruction of that name; immediates count modulo their field. Serval's encoder
    does not have the atomic additions: their words are those of the architecture,
    funct5 0 and opcode 0x2f, with funct3 2 for words and 3 for double words. *)
Theorem rv_encoders rd rs1 rs2 k : uint 5 rd -> uint 5 rs1 -> uint 5 rs2 ->
  (forall aq rl, uint 1 aq -> uint 1 rl ->
     rv_amoadd_w rd rs2 rs1 aq rl = amo_word 0 aq rl rs2 rs1 2 rd 0x2f /\
     rv_amoadd_d rd rs2 rs1 aq rl = amo_word 0 aq rl rs2 rs1 3 rd 0x2f) /\
  Forall (fun '(w, i) => w = encode_instr i)
   ([ (rv_addw rd rs1 rs2, Instr op_addw rd rs1 rs2 0); (rv_add rd rs1 rs2, Instr op_add rd rs1 rs2 0);
      (rv_subw rd rs1 rs2, Instr op_subw rd rs1 rs2 0); (rv_sub rd rs1 rs2, Instr op_sub rd rs1 rs2 0);
      (rv_and rd rs1 rs2, Instr op_and rd rs1 rs2 0); (rv_or rd rs1 rs2, Instr op_or rd rs1 rs2 0);
      (rv_xor rd rs1 rs2, Instr op_xor rd rs1 rs2 0); (rv_mulw rd rs1 rs2, Instr op_mulw rd rs1 rs2 0);
      (rv_mul rd rs1 rs2, Instr op_mul rd rs1 rs2 0); (rv_divuw rd rs1 rs2, Instr op_divuw rd rs1 rs2 0);
      (rv_divu rd rs1 rs2, Instr op_divu rd rs1 rs2 0); (rv_remuw rd rs1 rs2, Instr op_remuw rd rs1 rs2 0);
      (rv_remu rd rs1 rs2, Instr op_remu rd rs1 rs2 0); (rv_sllw rd rs1 rs2, Instr op_sllw rd rs1 rs2 0);
      (rv_sll rd rs1 rs2, Instr op_sll rd rs1 rs2 0); (rv_srlw rd rs1 rs2, Instr op_srlw rd rs1 rs2 0);
      (rv_srl rd rs1 rs2, Instr op_srl rd rs1 rs2 0); (rv_sraw rd rs1 rs2, Instr op_sraw rd rs1 rs2 0);
      (rv_sra rd rs1 rs2, Instr op_sra rd rs1 rs2 0); (rv_mulhu rd rs1 rs2, Instr op_mulhu rd rs1 rs2 0);
      (rv_sltu rd rs1 rs2, Instr op_sltu rd rs1 rs2 0);
      (rv_addiw rd rs1 k, Instr op_addiw rd rs1 0 (wrap 12 k)); (rv_addi rd rs1 k, Instr op_addi rd rs1 0 (wrap 12 k));
      (rv_andi rd rs1 k, Instr op_andi rd rs1 0 (wrap 12 k)); (rv_ori rd rs1 k, Instr op_ori rd rs1 0 (wrap 12 k));
      (rv_xori rd rs1 k, Instr op_xori rd rs1 0 (wrap 12 k)); (rv_jalr rd rs1 k, Instr op_jalr rd rs1 0 (wrap 12 k));
      (rv_lbu rd k rs1, Instr op_lbu rd rs1 0 (wrap 12 k)); (rv_lhu rd k rs1, Instr op_lhu rd rs1 0 (wrap 12 k));
      (rv_lw rd k rs1, Instr op_lw rd rs1 0 (wrap 12 k)); (rv_lwu rd k rs1, Instr op_lwu rd rs1 0 (wrap 12 k)); (rv_ld rd k rs1, Instr op_ld rd rs1 0 (wrap 12 k));
      (rv_sb rs1 k rs2, Instr op_sb 0 rs1 rs2 (wrap 12 k)); (rv_sh rs1 k rs2, Instr op_sh 0 rs1 rs2 (wrap 12 k));
      (rv_sw rs1 k rs2, Instr op_sw 0 rs1 rs2 (wrap 12 k)); (rv_sd rs1 k rs2, Instr op_sd 0 rs1 rs2 (wrap 12 k));
      (rv_beq rs1 rs2 k, Instr op_beq 0 rs1 rs2 (wrap 12 k)); (rv_bne rs1 rs2 k, Instr op_bne 0 rs1 rs2 (wrap 12 k));
      (rv_blt rs1 rs2 k, Instr op_blt 0 rs1 rs2 (wrap 12 k)); (rv_bge rs1 rs2 k, Instr op_bge 0 rs1 rs2 (wrap 12 k));
      (rv_bltu rs1 rs2 k, Instr op_bltu 0 rs1 rs2 (wrap 12 k)); (rv_bgeu rs1 rs2 k, Instr op_bgeu 0 rs1 rs2 (wrap 12 k));
      (rv_lui rd k, Instr op_lui rd 0 0 (wrap 20 k)); (rv_jal rd k, Instr op_jal rd 0 0 (wrap 20 k)) ] ++
    (if (0 <=? k) && (k <? 64) then
      [ (rv_slli rd rs1 k, Instr op_slli rd rs1 0 k); (rv_srli rd rs1 k, Instr op_srli rd rs1 0 k);
        (rv_srai rd rs1 k, Instr op_srai rd rs1 0 k) ] else []) ++
    (if (0 <=? k) && (k <? 32) then
      [ (rv_slliw rd rs1 k, Instr op_slliw rd rs1 0 k); (rv_srliw rd rs1 k, Instr op_srliw rd rs1 0 k);
        (rv_sraiw rd rs1 k, Instr op_sraiw rd rs1 0 k) ] else [])).
Proof.
  intros ???. split; [intros aq rl ??; split; rv_unfold; (rewrite amo_insn_word; [reflexivity|..]); first [assumption|unfold uint; lia]|]. rewrite !Forall_app. split; [|split].
  - rv_unfold. repeat (apply Forall_cons_2; [unfold encode_instr; cbn [op_format]|]); [..|apply Forall_nil_2];
      lazymatch goal with
      | |- rv_r_insn _ _ _ _ _ _ = _ => apply rv_r_insn_eq
      | |- rv_i_insn _ _ _ _ _ = _ => apply rv_i_insn_eq
      | |- rv_s_insn _ _ _ _ _ = _ => apply rv_s_insn_eq
      | |- rv_sb_insn _ _ _ _ _ = _ => apply rv_sb_insn_eq
      | |- rv_u_insn _ _ _ = _ => apply rv_u_insn_eq
      | |- rv_uj_insn _ _ _ = _ => apply rv_uj_insn_eq
      end; first [assumption|unfold uint; lia].
  - destruct (_ && _) eqn:E; [|by apply Forall_nil_2]. assert (uint 6 k) as Hk by (unfold uint; lia).
    repeat (apply Forall_cons_2; [first [refine (shift_enc 6 0 k rs1 _ rd _ _ _ _ _ _ _ _)|refine (shift_enc 6 0x10 k rs1 _ rd _ _ _ _ _ _ _ _)]|]); (assumption || apply Forall_nil_2 || (unfold uint; lia)).
  - destruct (_ && _) eqn:E; [|by apply Forall_nil_2]. assert (uint 5 k) as Hk by (unfold uint; lia).
    repeat (apply Forall_cons_2; [first [refine (shift_enc 5 0 k rs1 _ rd _ _ _ _ _ _ _ _)|refine (shift_enc 5 0x20 k rs1 _ rd _ _ _ _ _ _ _ _)]|]); (assumption || apply Forall_nil_2 || (unfold uint; lia)).
Qed.
