(* ===== verification/RvExec.v ===== *)
(** Emission and execution of single words, for either compiler: the context
    after the emission of a list of words, and the effect of every instruction on
    a processor in closed form. *)

From S2P Require Import Prelude Cstring Bytes Riscv RvEmit RvEnc.

(** * Emission *)

Definition emit_ctx (ctx : rv_jit_context) (w : Z) : rv_jit_context :=
  Ctx (match insns ctx with Some b => Some (<[ninsns ctx := w]> b) | None => None end)
    (ninsns ctx + 1) (epilogue_offset ctx) (offset ctx) (flags ctx) (stack_size ctx).

(** The context after emitting all of [ws]. *)
Definition emit_all (ws : list Z) (ctx : rv_jit_context) : rv_jit_context := foldl emit_ctx ctx ws.

Lemma emit_all_offset ws ctx : offset (emit_all ws ctx) = offset ctx.
Proof. revert ctx. induction ws as [|w ws IH]; intros ctx; [done|]. apply (IH (emit_ctx ctx w)). Qed.

Lemma emit_all_ninsns ws ctx : ninsns (emit_all ws ctx) = ninsns ctx + Z.of_nat (length ws).
Proof.
  revert ctx. induction ws as [|w ws IH]; intros ctx; [cbn; lia|].
  change (emit_all (w :: ws) ctx) with (emit_all ws (emit_ctx ctx w)). rewrite IH. cbn. lia.
Qed.

(** The words are at the positions that follow those emitted before. *)
Lemma emit_all_insns ws ctx buf : insns ctx = Some buf -> exists buf', insns (emit_all ws ctx) = Some buf' /\
  (forall j w, ws !! j = Some w -> buf' (ninsns ctx + Z.of_nat j) = w) /\
  (forall k, k < ninsns ctx -> buf' k = buf k).
Proof.
  revert ctx buf. induction ws as [|w ws IH]; intros ctx buf Hb; [by exists buf|].
  change (emit_all (w :: ws) ctx) with (emit_all ws (emit_ctx ctx w)).
  destruct (IH (emit_ctx ctx w) (<[ninsns ctx := w]> buf)) as (buf' & E & Hw & Hk); [cbn; by rewrite Hb|].
  exists buf'. split; [done|]. cbn [emit_ctx ninsns] in *. split.
  - intros [|j] x Hx; cbn in Hx.
    + injection Hx as <-. rewrite Z.add_0_r, Hk by lia. apply fn_lookup_insert.
    + rewrite <- (Hw j x Hx). f_equal. lia.
  - intros k Hlt. rewrite Hk by lia. apply fn_lookup_insert_ne. lia.
Qed.

(** * Closed forms of the instructions *)

(** The value of a register of a register file. *)
Definition rget (g : Z -> Z) (r : Z) : Z := if r =? 0 then 0 else g r.

Lemma rget_nz g r : r <> 0 -> rget g r = g r.
Proof. intros. unfold rget. by rewrite (proj2 (Z.eqb_neq r 0)). Qed.

Lemma gpr_set_cpu p g m rd v : rd <> 0 -> gpr_set (Cpu p g m) rd v = Cpu p (<[rd := v]> g) m.
Proof. intros. unfold gpr_set. by rewrite (proj2 (Z.eqb_neq rd 0)). Qed.

Lemma gpr_ref_cpu p g m r : gpr_ref (Cpu p g m) r = rget g r.
Proof. reflexivity. Qed.

Lemma land_mask_shift w b : (w = 32 \/ w = 64) -> 0 <= b < w -> (w - 1) .& b = b.
Proof.
  intros Hw Hb. rewrite Z.land_comm. destruct Hw as [-> | ->].
  - change (32 - 1) with (Z.ones 5). rewrite Z.land_ones by lia. apply Z.mod_small. lia.
  - change (64 - 1) with (Z.ones 6). rewrite Z.land_ones by lia. apply Z.mod_small. lia.
Qed.

Lemma shift_imm w k : (w = 32 \/ w = 64) -> 0 <= k < w -> (w - 1) .& wrap w (sgn 12 k) = k.
Proof. intros [-> | ->] Hk; rewrite sgn_small by lia; rewrite wrap_small by lia; apply land_mask_shift; auto. Qed.

Lemma shift_imm32 k : 0 <= k < 32 -> (32 - 1) .& (u32 (sgn 12 k) .& 31) = k.
Proof.
  intros. rewrite sgn_small by lia. rewrite wrap_small by lia. rewrite (Z.land_comm k).
  change 31 with (32 - 1). by rewrite !(land_mask_shift 32 k) by (auto || lia).
Qed.

Lemma x_branch w p g m (b : bool) k :
  Some (if b then jump_and_link w (Cpu p g m) 0 (wrap 12 k) 12 else Cpu (wrap w (p + 4)) g m) =
  Some (Cpu (if b then wrap w (p + sgn 12 k * 2) else wrap w (p + 4)) g m).
Proof. destruct b; [|done]. unfold jump_and_link. cbn [gpr_set Z.eqb set_cpu_pc pc gprs cmem]. by rewrite sgn_of_wrap. Qed.

(** The word is decoded, its instruction evaluated, and the pc advanced. *)
Ltac rv_exec D :=
  intros; rv_unfold; unfold exec_word; rewrite D by (reflexivity || assumption);
  cbn [mbind option_bind exec_instr i_op interpret_instr evaluate_binary_op evaluate_binary_conditional
       memop_size load_signed Z.eqb Pos.eqb];
  rewrite ?gpr_ref_cpu, ?gpr_set_cpu by assumption; unfold cpu_next, set_cpu_pc, set_cmem; cbn [pc gprs cmem];
  unfold sign_extend; rewrite ?sgn_of_wrap, ?wrap_add_r.

Section word.
Context (XLEN : Z).
Context (p : Z) (g : Z -> Z) (m : mem) (rd rs1 rs2 : Z).
Hypothesis Hrd : uint 5 rd.
Hypothesis Hne : rd <> 0.
Hypothesis Hrs1 : uint 5 rs1.
Hypothesis Hrs2 : uint 5 rs2.

(** The processor after rd has received [v]. *)
Definition wr (v : Z) : option cpu := Some (Cpu (wrap XLEN (p + 4)) (<[rd := v]> g) m).

(** *** Register operands *)
Lemma x_add : exec_word XLEN (rv_add rd rs1 rs2) (Cpu p g m) = wr (wrap XLEN (rget g rs1 + rget g rs2)).
Proof. rv_exec (decode_r op_add). done. Qed.
Lemma x_sub : exec_word XLEN (rv_sub rd rs1 rs2) (Cpu p g m) = wr (wrap XLEN (rget g rs1 - rget g rs2)).
Proof. rv_exec (decode_r op_sub). done. Qed.
Lemma x_and : exec_word XLEN (rv_and rd rs1 rs2) (Cpu p g m) = wr (rget g rs1 .& rget g rs2).
Proof. rv_exec (decode_r op_and). done. Qed.
Lemma x_or : exec_word XLEN (rv_or rd rs1 rs2) (Cpu p g m) = wr (rget g rs1 .| rget g rs2).
Proof. rv_exec (decode_r op_or). done. Qed.
Lemma x_xor : exec_word XLEN (rv_xor rd rs1 rs2) (Cpu p g m) = wr (Z.lxor (rget g rs1) (rget g rs2)).
Proof. rv_exec (decode_r op_xor). done. Qed.
Lemma x_mul : exec_word XLEN (rv_mul rd rs1 rs2) (Cpu p g m) = wr (wrap XLEN (rget g rs1 * rget g rs2)).
Proof. rv_exec (decode_r op_mul). done. Qed.
Lemma x_mulhu : exec_word XLEN (rv_mulhu rd rs1 rs2) (Cpu p g m) = wr (wrap XLEN ((rget g rs1 * rget g rs2) ≫ XLEN)).
Proof. rv_exec (decode_r op_mulhu). done. Qed.
Lemma x_sltu : exec_word XLEN (rv_sltu rd rs1 rs2) (Cpu p g m) = wr (Z.b2z (rget g rs1 <? rget g rs2)).
Proof. rv_exec (decode_r op_sltu). done. Qed.
Lemma x_divu : exec_word XLEN (rv_divu rd rs1 rs2) (Cpu p g m) = wr (if rget g rs2 =? 0 then wrap XLEN (-1) else rget g rs1 / rget g rs2).
Proof. rv_exec (decode_r op_divu). done. Qed.
Lemma x_remu : exec_word XLEN (rv_remu rd rs1 rs2) (Cpu p g m) = wr (if rget g rs2 =? 0 then rget g rs1 else rget g rs1 mod rget g rs2).
Proof. rv_exec (decode_r op_remu). done. Qed.
Lemma x_sll : exec_word XLEN (rv_sll rd rs1 rs2) (Cpu p g m) = wr (wrap XLEN (rget g rs1 ≪ ((XLEN - 1) .& rget g rs2))).
Proof. rv_exec (decode_r op_sll). done. Qed.
Lemma x_srl : exec_word XLEN (rv_srl rd rs1 rs2) (Cpu p g m) = wr (rget g rs1 ≫ ((XLEN - 1) .& rget g rs2)).
Proof. rv_exec (decode_r op_srl). done. Qed.
Lemma x_sra : exec_word XLEN (rv_sra rd rs1 rs2) (Cpu p g m) = wr (wrap XLEN (sgn XLEN (rget g rs1) ≫ ((XLEN - 1) .& rget g rs2))).
Proof. rv_exec (decode_r op_sra). done. Qed.

(** *** Immediate operands *)
Lemma x_addi k : exec_word XLEN (rv_addi rd rs1 k) (Cpu p g m) = wr (wrap XLEN (rget g rs1 + sgn 12 k)).
Proof. rv_exec (decode_i op_addi). done. Qed.
Lemma x_andi k : exec_word XLEN (rv_andi rd rs1 k) (Cpu p g m) = wr (rget g rs1 .& wrap XLEN (sgn 12 k)).
Proof. rv_exec (decode_i op_andi). done. Qed.
Lemma x_ori k : exec_word XLEN (rv_ori rd rs1 k) (Cpu p g m) = wr (rget g rs1 .| wrap XLEN (sgn 12 k)).
Proof. rv_exec (decode_i op_ori). done. Qed.
Lemma x_xori k : exec_word XLEN (rv_xori rd rs1 k) (Cpu p g m) = wr (Z.lxor (rget g rs1) (wrap XLEN (sgn 12 k))).
Proof. rv_exec (decode_i op_xori). done. Qed.
Lemma x_lui k : exec_word XLEN (rv_lui rd k) (Cpu p g m) = wr (wrap XLEN (s32 (wrap 20 k ≪ 12))).
Proof. rv_exec (decode_u op_lui). done. Qed.
Lemma x_slli k : XLEN = 32 \/ XLEN = 64 -> 0 <= k < XLEN -> exec_word XLEN (rv_slli rd rs1 k) (Cpu p g m) = wr (wrap XLEN (rget g rs1 ≪ k)).
Proof.
  intros HX Hk. assert (uint 6 k) by (unfold uint; lia). change (rv_slli rd rs1 k) with (rv_i_insn ((0 ≪ 6) .| k) rs1 1 rd 0x13).
  rv_exec (decode_shift op_slli). rewrite shift_imm by (done || lia). done.
Qed.
Lemma x_srli k : XLEN = 32 \/ XLEN = 64 -> 0 <= k < XLEN -> exec_word XLEN (rv_srli rd rs1 k) (Cpu p g m) = wr (rget g rs1 ≫ k).
Proof.
  intros HX Hk. assert (uint 6 k) by (unfold uint; lia). change (rv_srli rd rs1 k) with (rv_i_insn ((0 ≪ 6) .| k) rs1 5 rd 0x13).
  rv_exec (decode_shift op_srli). rewrite shift_imm by (done || lia). done.
Qed.
Lemma x_srai k : XLEN = 32 \/ XLEN = 64 -> 0 <= k < XLEN -> exec_word XLEN (rv_srai rd rs1 k) (Cpu p g m) = wr (wrap XLEN (sgn XLEN (rget g rs1) ≫ k)).
Proof.
  intros HX Hk. assert (uint 6 k) by (unfold uint; lia). change (rv_srai rd rs1 k) with (rv_i_insn ((0x10 ≪ 6) .| k) rs1 5 rd 0x13).
  rv_exec (decode_shift op_srai). rewrite shift_imm by (done || lia). done.
Qed.

(** *** Memory *)
Lemma x_lbu k : exec_word XLEN (rv_lbu rd k rs1) (Cpu p g m) = wr (load_le XLEN 1 m (rget g rs1 + sgn 12 k)).
Proof. rv_exec (decode_i op_lbu). done. Qed.
Lemma x_lhu k : exec_word XLEN (rv_lhu rd k rs1) (Cpu p g m) = wr (load_le XLEN 2 m (rget g rs1 + sgn 12 k)).
Proof. rv_exec (decode_i op_lhu). done. Qed.
Lemma x_lw k : exec_word XLEN (rv_lw rd k rs1) (Cpu p g m) = wr (sign_extend XLEN 32 (load_le XLEN 4 m (rget g rs1 + sgn 12 k))).
Proof. rv_exec (decode_i op_lw). done. Qed.
Lemma x_sb k : exec_word XLEN (rv_sb rs1 k rs2) (Cpu p g m) =
  Some (Cpu (wrap XLEN (p + 4)) g (store_le XLEN 1 m (rget g rs1 + sgn 12 k) (rget g rs2))).
Proof. rv_exec (decode_s op_sb). done. Qed.
Lemma x_sh k : exec_word XLEN (rv_sh rs1 k rs2) (Cpu p g m) =
  Some (Cpu (wrap XLEN (p + 4)) g (store_le XLEN 2 m (rget g rs1 + sgn 12 k) (rget g rs2))).
Proof. rv_exec (decode_s op_sh). done. Qed.
Lemma x_sw k : exec_word XLEN (rv_sw rs1 k rs2) (Cpu p g m) =
  Some (Cpu (wrap XLEN (p + 4)) g (store_le XLEN 4 m (rget g rs1 + sgn 12 k) (rget g rs2))).
Proof. rv_exec (decode_s op_sw). done. Qed.
Lemma x_amoadd_w : rget g rs1 mod 4 = 0 -> exec_word XLEN (rv_amoadd_w 0 rs2 rs1 0 0) (Cpu p g m) =
  Some (Cpu (wrap XLEN (p + 4)) g (store_le XLEN 4 m (rget g rs1) (load_le XLEN 4 m (rget g rs1) + rget g rs2))).
Proof.
  intros Ha. rv_unfold. unfold exec_word. rewrite (decode_amo op_amoadd_w) by done.
  cbn [mbind option_bind exec_instr i_op i_dst i_src1 i_src2]. rewrite !gpr_ref_cpu. unfold amoadd.
  change (Z.of_nat 4) with 4. by rewrite Ha.
Qed.

(** *** Branches *)

(** The processor after a branch by [k] half-words that is taken when [b]. *)
Definition br (b : bool) (k : Z) : option cpu :=
  Some (Cpu (if b then wrap XLEN (p + sgn 12 k * 2) else wrap XLEN (p + 4)) g m).
Lemma x_beq k : exec_word XLEN (rv_beq rs1 rs2 k) (Cpu p g m) = br (rget g rs1 =? rget g rs2) k.
Proof. rv_exec (decode_b op_beq). apply x_branch. Qed.
Lemma x_bne k : exec_word XLEN (rv_bne rs1 rs2 k) (Cpu p g m) = br (negb (rget g rs1 =? rget g rs2)) k.
Proof. rv_exec (decode_b op_bne). apply x_branch. Qed.
Lemma x_bltu k : exec_word XLEN (rv_bltu rs1 rs2 k) (Cpu p g m) = br (rget g rs1 <? rget g rs2) k.
Proof. rv_exec (decode_b op_bltu). apply x_branch. Qed.
Lemma x_bgeu k : exec_word XLEN (rv_bgeu rs1 rs2 k) (Cpu p g m) = br (rget g rs2 <=? rget g rs1) k.
Proof. rv_exec (decode_b op_bgeu). apply x_branch. Qed.
Lemma x_blt k : exec_word XLEN (rv_blt rs1 rs2 k) (Cpu p g m) = br (sgn XLEN (rget g rs1) <? sgn XLEN (rget g rs2)) k.
Proof. rv_exec (decode_b op_blt). apply x_branch. Qed.
Lemma x_bge k : exec_word XLEN (rv_bge rs1 rs2 k) (Cpu p g m) = br (sgn XLEN (rget g rs2) <=? sgn XLEN (rget g rs1)) k.
Proof. rv_exec (decode_b op_bge). apply x_branch. Qed.
Lemma x_jalr k : exec_word XLEN (rv_jalr 0 rs1 k) (Cpu p g m) =
  Some (Cpu (Z.ldiff (wrap XLEN (rget g rs1 + sgn 12 k)) 1) g m).
Proof.
  rv_unfold. unfold exec_word. rewrite (decode_i op_jalr) by done. cbn [mbind option_bind exec_instr i_op interpret_instr].
  rewrite gpr_ref_cpu, sgn_of_wrap. reflexivity.
Qed.
Lemma x_jal k : exec_word XLEN (rv_jal 0 k) (Cpu p g m) = Some (Cpu (wrap XLEN (p + sgn 20 k * 2)) g m).
Proof.
  rv_unfold. unfold exec_word. rewrite (decode_j op_jal) by done.
  cbn. unfold jump_and_link, set_cpu_pc. cbn [pc gprs cmem gpr_set Z.eqb]. by rewrite sgn_of_wrap.
Qed.
End word.

(** ** The instructions of RV64 *)

Section word64.
Context (p : Z) (g : Z -> Z) (m : mem) (rd rs1 rs2 : Z).
Hypothesis Hrd : uint 5 rd.
Hypothesis Hne : rd <> 0.
Hypothesis Hrs1 : uint 5 rs1.
Hypothesis Hrs2 : uint 5 rs2.

Lemma x_addw : exec_word 64 (rv_addw rd rs1 rs2) (Cpu p g m) = wr 64 p g m rd (u64 (s32 (u32 (rget g rs1) + u32 (rget g rs2)))).
Proof. rv_exec (decode_r op_addw). done. Qed.
Lemma x_subw : exec_word 64 (rv_subw rd rs1 rs2) (Cpu p g m) = wr 64 p g m rd (u64 (s32 (u32 (rget g rs1) - u32 (rget g rs2)))).
Proof. rv_exec (decode_r op_subw). done. Qed.
Lemma x_mulw : exec_word 64 (rv_mulw rd rs1 rs2) (Cpu p g m) = wr 64 p g m rd (u64 (s32 (u32 (rget g rs1) * u32 (rget g rs2)))).
Proof. rv_exec (decode_r op_mulw). done. Qed.
Lemma x_divuw : exec_word 64 (rv_divuw rd rs1 rs2) (Cpu p g m) = wr 64 p g m rd (u64 (s32 (if u32 (rget g rs2) =? 0 then u32 (-1) else u32 (rget g rs1) / u32 (rget g rs2)))).
Proof. rv_exec (decode_r op_divuw). done. Qed.
Lemma x_remuw : exec_word 64 (rv_remuw rd rs1 rs2) (Cpu p g m) = wr 64 p g m rd (u64 (s32 (if u32 (rget g rs2) =? 0 then u32 (rget g rs1) else u32 (rget g rs1) mod u32 (rget g rs2)))).
Proof. rv_exec (decode_r op_remuw). done. Qed.
Lemma x_sllw : exec_word 64 (rv_sllw rd rs1 rs2) (Cpu p g m) = wr 64 p g m rd (u64 (s32 (u32 (rget g rs1) ≪ (31 .& u32 (rget g rs2))))).
Proof. rv_exec (decode_r op_sllw). done. Qed.
Lemma x_srlw : exec_word 64 (rv_srlw rd rs1 rs2) (Cpu p g m) = wr 64 p g m rd (u64 (s32 (u32 (rget g rs1) ≫ (31 .& u32 (rget g rs2))))).
Proof. rv_exec (decode_r op_srlw). done. Qed.
Lemma x_sraw : exec_word 64 (rv_sraw rd rs1 rs2) (Cpu p g m) = wr 64 p g m rd (u64 (s32 (s32 (rget g rs1) ≫ (31 .& u32 (rget g rs2))))).
Proof. rv_exec (decode_r op_sraw). done. Qed.
Lemma x_addiw k : exec_word 64 (rv_addiw rd rs1 k) (Cpu p g m) = wr 64 p g m rd (u64 (s32 (u32 (rget g rs1) + sgn 12 k))).
Proof. rv_exec (decode_i op_addiw). done. Qed.
Lemma x_slliw k : 0 <= k < 32 -> exec_word 64 (rv_slliw rd rs1 k) (Cpu p g m) = wr 64 p g m rd (u64 (s32 (u32 (rget g rs1) ≪ k))).
Proof.
  intros Hk. change (rv_slliw rd rs1 k) with (rv_i_insn ((0 ≪ 5) .| k) rs1 1 rd 0x1b).
  rv_exec (decode_shift op_slliw). rewrite shift_imm32 by lia. done.
Qed.
Lemma x_srliw k : 0 <= k < 32 -> exec_word 64 (rv_srliw rd rs1 k) (Cpu p g m) = wr 64 p g m rd (u64 (s32 (u32 (rget g rs1) ≫ k))).
Proof.
  intros Hk. change (rv_srliw rd rs1 k) with (rv_i_insn ((0 ≪ 5) .| k) rs1 5 rd 0x1b).
  rv_exec (decode_shift op_srliw). rewrite shift_imm32 by lia. done.
Qed.
Lemma x_sraiw k : 0 <= k < 32 -> exec_word 64 (rv_sraiw rd rs1 k) (Cpu p g m) = wr 64 p g m rd (u64 (s32 (s32 (rget g rs1) ≫ k))).
Proof.
  intros Hk. change (rv_sraiw rd rs1 k) with (rv_i_insn ((0x20 ≪ 5) .| k) rs1 5 rd 0x1b).
  rv_exec (decode_shift op_sraiw). rewrite shift_imm32 by lia. done.
Qed.
Lemma x_lwu k : exec_word 64 (rv_lwu rd k rs1) (Cpu p g m) = wr 64 p g m rd (load_le 64 4 m (rget g rs1 + sgn 12 k)).
Proof. rv_exec (decode_i op_lwu). done. Qed.
Lemma x_ld k : exec_word 64 (rv_ld rd k rs1) (Cpu p g m) = wr 64 p g m rd (load_le 64 8 m (rget g rs1 + sgn 12 k)).
Proof. rv_exec (decode_i op_ld). change (8 * Z.of_nat 8) with 64. rewrite sgn_wrap, (wrap_small 64 (load_le _ _ _ _)) by apply (load_le_range 64 8). done. Qed.
Lemma x_sd k : exec_word 64 (rv_sd rs1 k rs2) (Cpu p g m) =
  Some (Cpu (u64 (p + 4)) g (store_le 64 8 m (rget g rs1 + sgn 12 k) (rget g rs2))).
Proof. rv_exec (decode_s op_sd). done. Qed.
Lemma x_amoadd_d : rget g rs1 mod 8 = 0 -> exec_word 64 (rv_amoadd_d 0 rs2 rs1 0 0) (Cpu p g m) =
  Some (Cpu (u64 (p + 4)) g (store_le 64 8 m (rget g rs1) (load_le 64 8 m (rget g rs1) + rget g rs2))).
Proof.
  intros Ha. rv_unfold. unfold exec_word. rewrite (decode_amo op_amoadd_d) by done.
  cbn [mbind option_bind exec_instr i_op i_dst i_src1 i_src2]. rewrite !gpr_ref_cpu. unfold amoadd.
  change (Z.of_nat 8) with 8. by rewrite Ha.
Qed.
End word64.

(** * Offsets of jumps *)

(** The distance in bytes between the branch at the end of instruction [i] and
    the end of the instruction before the target. *)
Definition jmp_dist (oi ot : Z) : Z := 4 * (ot - oi + 1).

(** A table entry counts instructions. *)
Definition entry_ok (o : Z) : Prop := 0 <= o < 2 ^ 28.

Lemma rv_offset_val oi ot : entry_ok oi -> entry_ok ot ->
  s32 (s32 (ot - s32 (oi - 1)) ≪ 2) = jmp_dist oi ot.
Proof.
  unfold entry_ok, jmp_dist. intros. rewrite (sgn_small 32 (oi - 1)) by lia.
  rewrite (sgn_small 32 (ot - (oi - 1))) by lia. rewrite Z.shiftl_mul_pow2 by lia.
  rewrite sgn_small by lia. lia.
Qed.

(** The branch immediate counts half-words. *)
Lemma half_dist n d : 12 <= n -> - 2 ^ n <= 4 * d < 2 ^ n -> sgn n ((4 * d) ≫ 1) * 2 = 4 * d.
Proof.
  intros Hn Hd. replace ((4 * d) ≫ 1) with (2 * d).
  - assert (2 ^ n = 2 * 2 ^ (n - 1)) by (rewrite <- Z.pow_succ_r by lia; f_equal; lia).
    rewrite sgn_small by lia. lia.
  - rewrite Z.shiftr_div_pow2 by lia. apply (Z.div_unique _ _ _ 0); lia.
Qed.
