(* ===== verification/BpfJit64.v ===== *)
(** The BPF compiler for RV64 of bpf/jit/bpf_jit_riscv64.c: the emission of
    immediates and the translation of each BPF instruction. The code under
    "#if 0" is not part of the build and is left out. *)

From S2P Require Import Prelude Cstring Bytes Bitops Bpf RvEmit.

(** * Registers *)

(** The RISC-V register that holds each BPF register. *)
Definition regmap : list Z :=
  [RV_REG_A5; RV_REG_A0; RV_REG_A1; RV_REG_A2; RV_REG_A3; RV_REG_A4;
   RV_REG_S1; RV_REG_S2; RV_REG_S3; RV_REG_S4; RV_REG_S5; RV_REG_T0].

Definition bpf_to_rv_reg (bpf_reg : Z) : M Z :=
  match regmap !! Z.to_nat bpf_reg with Some reg => ret reg | None => undef end.

(** * Immediates *)

(** emit_imm calls itself on the upper part of a wide value; [fuel] bounds the
    depth of the calls. *)
Fixpoint emit_imm_rec (fuel : nat) (rd val : Z) : M unit :=
  match fuel with
  | O => undef
  | S fuel =>
      let upper := s64 (val + 2 ^ 11) ≫ 12 in
      let lower := val .& 0xfff in
      if is_32b_int val then
        when (negb (upper =? 0)) (emit (rv_lui rd upper));;
        if upper =? 0 then emit (rv_addi rd RV_REG_ZERO lower)
        else emit (rv_addiw rd rd lower)
      else
        let shift := __ffs (u64 upper) in
        let upper := upper ≫ shift in
        let shift := shift + 12 in
        emit_imm_rec fuel rd upper;;
        emit (rv_slli rd rd shift);;
        when (negb (lower =? 0)) (emit (rv_addi rd rd lower))
  end.

(** A 64-bit value needs at most four calls. *)
Definition emit_imm (rd val : Z) : M unit := emit_imm_rec 4 rd val.

(** * Offsets, extensions and operands *)

Definition emit_zext_32 (reg : Z) : M unit :=
  emit (rv_slli reg reg 32);;
  emit (rv_srli reg reg 32).

(** The RISC-V registers of the operands; 255 when an operand is not set. *)
Definition init_regs (insn : bpf_insn) : M (Z * Z) :=
  let code := code insn in
  rd <- (if has_label code [BPF_JMP .| BPF_JA; BPF_JMP .| BPF_CALL; BPF_JMP .| BPF_EXIT; BPF_JMP .| BPF_TAIL_CALL]
         then ret 255 else bpf_to_rv_reg (dst_reg insn));
  rs <- (if negb (code .& (BPF_ALU .| BPF_X) =? 0) || negb (code .& (BPF_ALU64 .| BPF_X) =? 0) ||
            negb (code .& (BPF_JMP .| BPF_X) =? 0) || negb (code .& (BPF_JMP32 .| BPF_X) =? 0) ||
            negb (code .& BPF_LDX =? 0) || negb (code .& BPF_STX =? 0)
         then bpf_to_rv_reg (src_reg insn) else ret 255);
  ret (rd, rs).

(** The extended copies of the operands of a 32-bit comparison. *)
Definition emit_zext_32_rd_rs (rd rs : Z) : M (Z * Z) :=
  emit (rv_addi RV_REG_T2 rd 0);;
  emit_zext_32 RV_REG_T2;;
  emit (rv_addi RV_REG_T1 rs 0);;
  emit_zext_32 RV_REG_T1;;
  ret (RV_REG_T2, RV_REG_T1).

Definition emit_sext_32_rd_rs (rd rs : Z) : M (Z * Z) :=
  emit (rv_addiw RV_REG_T2 rd 0);;
  emit (rv_addiw RV_REG_T1 rs 0);;
  ret (RV_REG_T2, RV_REG_T1).

Definition emit_zext_32_rd_t1 (rd : Z) : M Z :=
  emit (rv_addi RV_REG_T2 rd 0);;
  emit_zext_32 RV_REG_T2;;
  emit_zext_32 RV_REG_T1;;
  ret RV_REG_T2.

Definition emit_sext_32_rd (rd : Z) : M Z :=
  emit (rv_addiw RV_REG_T2 rd 0);;
  ret RV_REG_T2.

(** * The translation of an instruction

    The cases of the switch of emit_insn, in groups; a case is its labels and
    its body, whose result is the value emit_insn returns. *)

Definition case := (list Z * M Z)%type.

(** The two labels of an ALU or jump operation, 32-bit and 64-bit. *)
Definition alu2 (OP : bpf_alu_op) (x : bpf_src) : list Z := [BPF_ALU .| OP .| x; BPF_ALU64 .| OP .| x].
Definition jmp2 (OP : bpf_jmp_op) (x : bpf_src) : list Z := [BPF_JMP .| OP .| x; BPF_JMP32 .| OP .| x].

(** dst = src; dst = dst OP src *)
Definition emit_alu_x (is64 : bool) (rd rs : Z) : list case :=
  [ (alu2 BPF_MOV BPF_X,
      emit (if is64 then rv_addi rd rs 0 else rv_addiw rd rs 0);;
      when (negb is64) (emit_zext_32 rd);; ret 0);
    (alu2 BPF_ADD BPF_X,
      emit (if is64 then rv_add rd rd rs else rv_addw rd rd rs);; ret 0);
    (alu2 BPF_SUB BPF_X,
      emit (if is64 then rv_sub rd rd rs else rv_subw rd rd rs);; ret 0);
    (alu2 BPF_AND BPF_X, emit (rv_and rd rd rs);; ret 0);
    (alu2 BPF_OR BPF_X, emit (rv_or rd rd rs);; ret 0);
    (alu2 BPF_XOR BPF_X, emit (rv_xor rd rd rs);; ret 0);
    (alu2 BPF_MUL BPF_X,
      emit (if is64 then rv_mul rd rd rs else rv_mulw rd rd rs);;
      when (negb is64) (emit_zext_32 rd);; ret 0);
    (alu2 BPF_DIV BPF_X,
      emit (if is64 then rv_divu rd rd rs else rv_divuw rd rd rs);;
      when (negb is64) (emit_zext_32 rd);; ret 0);
    (alu2 BPF_MOD BPF_X,
      emit (if is64 then rv_remu rd rd rs else rv_remuw rd rd rs);;
      when (negb is64) (emit_zext_32 rd);; ret 0);
    (alu2 BPF_LSH BPF_X,
      emit (if is64 then rv_sll rd rd rs else rv_sllw rd rd rs);; ret 0);
    (alu2 BPF_RSH BPF_X,
      emit (if is64 then rv_srl rd rd rs else rv_srlw rd rd rs);; ret 0);
    (alu2 BPF_ARSH BPF_X,
      emit (if is64 then rv_sra rd rd rs else rv_sraw rd rd rs);; ret 0) ].

(** One byte moved from the bottom of rd to the bottom of T2. *)
Definition emit_be_byte (rd : Z) : M unit :=
  emit (rv_andi RV_REG_T1 rd 0xff);;
  emit (rv_add RV_REG_T2 RV_REG_T2 RV_REG_T1);;
  emit (rv_slli RV_REG_T2 RV_REG_T2 8);;
  emit (rv_srli rd rd 8).

(** dst = -dst; dst = BSWAP##imm(dst) *)
Definition emit_neg_end (is64 : bool) (rd imm : Z) : list case :=
  [ ([BPF_ALU .| BPF_NEG; BPF_ALU64 .| BPF_NEG],
      emit (if is64 then rv_sub rd RV_REG_ZERO rd else rv_subw rd RV_REG_ZERO rd);; ret 0);
    ([BPF_ALU .| BPF_END .| BPF_FROM_LE],
      let shift := s32 (64 - imm) in
      emit (rv_slli rd rd shift);; emit (rv_srli rd rd shift);; ret 0);
    ([BPF_ALU .| BPF_END .| BPF_FROM_BE],
      emit (rv_addi RV_REG_T2 RV_REG_ZERO 0);;
      emit_be_byte rd;;
      (if imm =? 16 then ret ()
       else
         emit_be_byte rd;;
         emit_be_byte rd;;
         if imm =? 32 then ret ()
         else
           emit_be_byte rd;;
           emit_be_byte rd;;
           emit_be_byte rd;;
           emit_be_byte rd);;
      emit (rv_andi RV_REG_T1 rd 0xff);;
      emit (rv_add RV_REG_T2 RV_REG_T2 RV_REG_T1);;
      emit (rv_addi rd RV_REG_T2 0);; ret 0) ].

(** dst = imm; dst = dst OP imm *)
Definition emit_alu_k (is64 : bool) (rd imm : Z) : list case :=
  [ (alu2 BPF_MOV BPF_K, emit_imm rd imm;; when (negb is64) (emit_zext_32 rd);; ret 0);
    (alu2 BPF_ADD BPF_K,
      (if is_12b_int imm then emit (if is64 then rv_addi rd rd imm else rv_addiw rd rd imm)
       else emit_imm RV_REG_T1 imm;;
            emit (if is64 then rv_add rd rd RV_REG_T1 else rv_addw rd rd RV_REG_T1));;
      when (negb is64) (emit_zext_32 rd);; ret 0);
    (alu2 BPF_SUB BPF_K,
      (if is_12b_int (s32 (- imm))
       then emit (if is64 then rv_addi rd rd (s32 (- imm)) else rv_addiw rd rd (s32 (- imm)))
       else emit_imm RV_REG_T1 imm;;
            emit (if is64 then rv_sub rd rd RV_REG_T1 else rv_subw rd rd RV_REG_T1));;
      when (negb is64) (emit_zext_32 rd);; ret 0);
    (alu2 BPF_AND BPF_K,
      (if is_12b_int imm then emit (rv_andi rd rd imm)
       else emit_imm RV_REG_T1 imm;; emit (rv_and rd rd RV_REG_T1));;
      when (negb is64) (emit_zext_32 rd);; ret 0);
    (alu2 BPF_OR BPF_K,
      (if is_12b_int imm then emit (rv_ori rd rd imm)
       else emit_imm RV_REG_T1 imm;; emit (rv_or rd rd RV_REG_T1));;
      when (negb is64) (emit_zext_32 rd);; ret 0);
    (alu2 BPF_XOR BPF_K,
      (if is_12b_int imm then emit (rv_xori rd rd imm)
       else emit_imm RV_REG_T1 imm;; emit (rv_xor rd rd RV_REG_T1));;
      when (negb is64) (emit_zext_32 rd);; ret 0);
    (alu2 BPF_MUL BPF_K,
      emit_imm RV_REG_T1 imm;;
      emit (if is64 then rv_mul rd rd RV_REG_T1 else rv_mulw rd rd RV_REG_T1);;
      when (negb is64) (emit_zext_32 rd);; ret 0);
    (alu2 BPF_DIV BPF_K,
      emit_imm RV_REG_T1 imm;;
      emit (if is64 then rv_divu rd rd RV_REG_T1 else rv_divuw rd rd RV_REG_T1);;
      when (negb is64) (emit_zext_32 rd);; ret 0);
    (alu2 BPF_MOD BPF_K,
      emit_imm RV_REG_T1 imm;;
      emit (if is64 then rv_remu rd rd RV_REG_T1 else rv_remuw rd rd RV_REG_T1);;
      when (negb is64) (emit_zext_32 rd);; ret 0);
    (alu2 BPF_LSH BPF_K,
      emit (if is64 then rv_slli rd rd imm else rv_slliw rd rd imm);; ret 0);
    (alu2 BPF_RSH BPF_K,
      emit (if is64 then rv_srli rd rd imm else rv_srliw rd rd imm);; ret 0);
    (alu2 BPF_ARSH BPF_K,
      emit (if is64 then rv_srai rd rd imm else rv_sraiw rd rd imm);; ret 0) ].

(** JUMP off *)
Definition emit_ja (off i : Z) : list case :=
  [ ([BPF_JMP .| BPF_JA],
      rvoff <- rv_offset (i + off) i;
      if negb (is_21b_int rvoff) then ret (-1)
      else emit (rv_jal RV_REG_ZERO (rvoff ≫ 1));; ret 0) ].

(** A case that starts with the offset check; [k] gets the immediate of the branch. *)
Definition with_offset (off i : Z) (k : Z -> M unit) : M Z :=
  r <- rv_offset_check off i;
  let '(rvoff, err) := r in
  if negb (err =? 0) then ret (-1) else k (rvoff ≫ 1);; ret 0.

(** if (!is64) ext(&rd, &rs) *)
Definition ext2 (is64 : bool) (ext : Z -> Z -> M (Z * Z)) (rd rs : Z) : M (Z * Z) :=
  if is64 then ret (rd, rs) else ext rd rs.
Definition ext1 (is64 : bool) (ext : Z -> M Z) (rd : Z) : M Z :=
  if is64 then ret rd else ext rd.

(** IF (dst COND src) JUMP off *)
Definition emit_jmp_x (is64 : bool) (rd rs off i : Z) : list case :=
  [ (jmp2 BPF_JEQ BPF_X, with_offset off i (fun o =>
      r <- ext2 is64 emit_zext_32_rd_rs rd rs; emit (rv_beq r.1 r.2 o)));
    (jmp2 BPF_JGT BPF_X, with_offset off i (fun o =>
      r <- ext2 is64 emit_zext_32_rd_rs rd rs; emit (rv_bltu r.2 r.1 o)));
    (jmp2 BPF_JLT BPF_X, with_offset off i (fun o =>
      r <- ext2 is64 emit_zext_32_rd_rs rd rs; emit (rv_bltu r.1 r.2 o)));
    (jmp2 BPF_JGE BPF_X, with_offset off i (fun o =>
      r <- ext2 is64 emit_zext_32_rd_rs rd rs; emit (rv_bgeu r.1 r.2 o)));
    (jmp2 BPF_JLE BPF_X, with_offset off i (fun o =>
      r <- ext2 is64 emit_zext_32_rd_rs rd rs; emit (rv_bgeu r.2 r.1 o)));
    (jmp2 BPF_JNE BPF_X, with_offset off i (fun o =>
      r <- ext2 is64 emit_zext_32_rd_rs rd rs; emit (rv_bne r.1 r.2 o)));
    (jmp2 BPF_JSGT BPF_X, with_offset off i (fun o =>
      r <- ext2 is64 emit_sext_32_rd_rs rd rs; emit (rv_blt r.2 r.1 o)));
    (jmp2 BPF_JSLT BPF_X, with_offset off i (fun o =>
      r <- ext2 is64 emit_sext_32_rd_rs rd rs; emit (rv_blt r.1 r.2 o)));
    (jmp2 BPF_JSGE BPF_X, with_offset off i (fun o =>
      r <- ext2 is64 emit_sext_32_rd_rs rd rs; emit (rv_bge r.1 r.2 o)));
    (jmp2 BPF_JSLE BPF_X, with_offset off i (fun o =>
      r <- ext2 is64 emit_sext_32_rd_rs rd rs; emit (rv_bge r.2 r.1 o)));
    (jmp2 BPF_JSET BPF_X, with_offset off i (fun o =>
      r <- ext2 is64 emit_zext_32_rd_rs rd rs;
      emit (rv_and RV_REG_T1 r.1 r.2);; emit (rv_bne RV_REG_T1 RV_REG_ZERO o))) ].

(** IF (dst COND imm) JUMP off *)
Definition emit_jmp_k (is64 : bool) (rd off imm i : Z) : list case :=
  [ (jmp2 BPF_JEQ BPF_K, with_offset off i (fun o => emit_imm RV_REG_T1 imm;;
      rd <- ext1 is64 emit_zext_32_rd_t1 rd; emit (rv_beq rd RV_REG_T1 o)));
    (jmp2 BPF_JGT BPF_K, with_offset off i (fun o => emit_imm RV_REG_T1 imm;;
      rd <- ext1 is64 emit_zext_32_rd_t1 rd; emit (rv_bltu RV_REG_T1 rd o)));
    (jmp2 BPF_JLT BPF_K, with_offset off i (fun o => emit_imm RV_REG_T1 imm;;
      rd <- ext1 is64 emit_zext_32_rd_t1 rd; emit (rv_bltu rd RV_REG_T1 o)));
    (jmp2 BPF_JGE BPF_K, with_offset off i (fun o => emit_imm RV_REG_T1 imm;;
      rd <- ext1 is64 emit_zext_32_rd_t1 rd; emit (rv_bgeu rd RV_REG_T1 o)));
    (jmp2 BPF_JLE BPF_K, with_offset off i (fun o => emit_imm RV_REG_T1 imm;;
      rd <- ext1 is64 emit_zext_32_rd_t1 rd; emit (rv_bgeu RV_REG_T1 rd o)));
    (jmp2 BPF_JNE BPF_K, with_offset off i (fun o => emit_imm RV_REG_T1 imm;;
      rd <- ext1 is64 emit_zext_32_rd_t1 rd; emit (rv_bne rd RV_REG_T1 o)));
    (jmp2 BPF_JSGT BPF_K, with_offset off i (fun o => emit_imm RV_REG_T1 imm;;
      rd <- ext1 is64 emit_sext_32_rd rd; emit (rv_blt RV_REG_T1 rd o)));
    (jmp2 BPF_JSLT BPF_K, with_offset off i (fun o => emit_imm RV_REG_T1 imm;;
      rd <- ext1 is64 emit_sext_32_rd rd; emit (rv_blt rd RV_REG_T1 o)));
    (jmp2 BPF_JSGE BPF_K, with_offset off i (fun o => emit_imm RV_REG_T1 imm;;
      rd <- ext1 is64 emit_sext_32_rd rd; emit (rv_bge rd RV_REG_T1 o)));
    (jmp2 BPF_JSLE BPF_K, with_offset off i (fun o => emit_imm RV_REG_T1 imm;;
      rd <- ext1 is64 emit_sext_32_rd rd; emit (rv_bge RV_REG_T1 rd o)));
    (jmp2 BPF_JSET BPF_K, with_offset off i (fun o => emit_imm RV_REG_T1 imm;;
      rd <- ext1 is64 emit_zext_32_rd_t1 rd;
      emit (rv_and RV_REG_T1 rd RV_REG_T1);; emit (rv_bne RV_REG_T1 RV_REG_ZERO o))) ].

(** dst = imm64, whose upper half is in the next instruction *)
Definition emit_ld_imm64 (rd imm imm1 : Z) : list case :=
  [ ([BPF_LD .| BPF_IMM .| BPF_DW],
      let imm64 := u64 (u64 imm1 ≪ 32) .| u32 imm in
      emit_imm rd (s64 imm64);; ret 1) ].

(** LDX: dst = *(size * )(src + off) *)
Definition ldx_case (rv_l : Z -> Z -> Z -> Z) (rd rs off : Z) : M Z :=
  if is_12b_int off then emit (rv_l rd off rs);; ret 0
  else
    emit_imm RV_REG_T1 off;;
    emit (rv_add RV_REG_T1 RV_REG_T1 rs);;
    emit (rv_l rd 0 RV_REG_T1);; ret 0.

Definition emit_ldx (rd rs off : Z) : list case :=
  [ ([BPF_LDX .| BPF_MEM .| BPF_B], ldx_case rv_lbu rd rs off);
    ([BPF_LDX .| BPF_MEM .| BPF_H], ldx_case rv_lhu rd rs off);
    ([BPF_LDX .| BPF_MEM .| BPF_W], ldx_case rv_lwu rd rs off);
    ([BPF_LDX .| BPF_MEM .| BPF_DW], ldx_case rv_ld rd rs off) ].

(** ST: *(size * )(dst + off) = imm *)
Definition st_case (rv_s : Z -> Z -> Z -> Z) (rd off imm : Z) : M Z :=
  emit_imm RV_REG_T1 imm;;
  if is_12b_int off then emit (rv_s rd off RV_REG_T1);; ret 0
  else
    emit_imm RV_REG_T2 off;;
    emit (rv_add RV_REG_T2 RV_REG_T2 rd);;
    emit (rv_s RV_REG_T2 0 RV_REG_T1);; ret 0.

Definition emit_st (rd off imm : Z) : list case :=
  [ ([BPF_ST .| BPF_MEM .| BPF_B], st_case rv_sb rd off imm);
    ([BPF_ST .| BPF_MEM .| BPF_H], st_case rv_sh rd off imm);
    ([BPF_ST .| BPF_MEM .| BPF_W], st_case rv_sw rd off imm);
    ([BPF_ST .| BPF_MEM .| BPF_DW], st_case rv_sd rd off imm) ].

(** STX: *(size * )(dst + off) = src *)
Definition stx_case (rv_s : Z -> Z -> Z -> Z) (rd rs off : Z) : M Z :=
  if is_12b_int off then emit (rv_s rd off rs);; ret 0
  else
    emit_imm RV_REG_T1 off;;
    emit (rv_add RV_REG_T1 RV_REG_T1 rd);;
    emit (rv_s RV_REG_T1 0 rs);; ret 0.

Definition emit_stx (rd rs off : Z) : list case :=
  [ ([BPF_STX .| BPF_MEM .| BPF_B], stx_case rv_sb rd rs off);
    ([BPF_STX .| BPF_MEM .| BPF_H], stx_case rv_sh rd rs off);
    ([BPF_STX .| BPF_MEM .| BPF_W], stx_case rv_sw rd rs off);
    ([BPF_STX .| BPF_MEM .| BPF_DW], stx_case rv_sd rd rs off) ].

(** STX XADD: lock *(u32 * or u64 * )(dst + off) += src *)
Definition emit_xadd (code rd rs off : Z) : list case :=
  [ ([BPF_STX .| BPF_XADD .| BPF_W; BPF_STX .| BPF_XADD .| BPF_DW],
      rd <- (if negb (off =? 0) then
               (if is_12b_int off then emit (rv_addi RV_REG_T1 rd off)
                else emit_imm RV_REG_T1 off;; emit (rv_add RV_REG_T1 RV_REG_T1 rd));;
               ret RV_REG_T1
             else ret rd);
      emit (if BPF_SIZE code =? BPF_W then rv_amoadd_w RV_REG_ZERO rs rd 0 0
            else rv_amoadd_d RV_REG_ZERO rs rd 0 0);; ret 0) ].

Definition is64_of (code : Z) : bool := (BPF_CLASS code =? BPF_ALU64) || (BPF_CLASS code =? BPF_JMP).

(** All the cases of the switch. *)
Definition emit_cases (code off imm imm1 i rd rs : Z) : list case :=
  let is64 := is64_of code in
  emit_alu_x is64 rd rs ++ emit_neg_end is64 rd imm ++ emit_alu_k is64 rd imm ++
  emit_ja off i ++ emit_jmp_x is64 rd rs off i ++ emit_jmp_k is64 rd off imm i ++
  emit_ld_imm64 rd imm imm1 ++ emit_ldx rd rs off ++ emit_st rd off imm ++
  emit_stx rd rs off ++ emit_xadd code rd rs off.

(** emit_insn; [insn1] is insn[1], which only the 64-bit immediate reads. *)
Definition emit_insn (insn insn1 : bpf_insn) (i : Z) : M Z :=
  r <- init_regs insn;
  switch (code insn) (emit_cases (code insn) (off insn) (imm insn) (imm insn1) i r.1 r.2) (ret (-1)).
