(* ===== verification/BpfJit64Exec.v ===== *)
(** Running emitted code. [straight m a c c'] says that the compiler operation
    [m] returns [a] after emitting words that take the processor from [c] to
    [c'], one after the other; [jumps] is the same for code that ends in a
    branch. The rules below derive such facts along the structure of the
    compiler, and each emitted instruction has its closed form. *)

From S2P Require Import Prelude Cstring Bytes Bpf BpfSteps Riscv RvEmit RvEnc RvExec BpfJit64.

(** * Execution of words *)

(** The pc after [n] instructions in sequence. *)
Fixpoint adv (p : Z) (n : nat) : Z :=
  match n with O => p | S n => adv (u64 (p + 4)) n end.

(** Executes the words at [p], [p + 4], ... in sequence. *)
Fixpoint run (p : Z) (ws : list Z) (c : cpu) : option cpu :=
  match ws with
  | [] => Some c
  | w :: ws => if pc c =? p then c' ← exec_word 64 w c; run (u64 (p + 4)) ws c' else None
  end.

Lemma adv_add p n k : adv p (n + k) = adv (adv p n) k.
Proof. revert p. induction n as [|n IH]; intros p; cbn; [done|apply IH]. Qed.

Lemma adv_spec p n : uint 64 p -> adv p n = u64 (p + 4 * Z.of_nat n).
Proof.
  revert p. induction n as [|n IH]; intros p Hp; cbn [adv].
  - rewrite Z.add_0_r. by rewrite wrap_small.
  - rewrite IH by (by apply uint_wrap). unfold wrap. rewrite Zplus_mod_idemp_l. f_equal. lia.
Qed.

Lemma run_app p ws1 ws2 c c1 : run p ws1 c = Some c1 -> run p (ws1 ++ ws2) c = run (adv p (length ws1)) ws2 c1.
Proof.
  revert p c. induction ws1 as [|w ws IH]; intros p c; cbn; [by intros [= ->]|].
  destruct (_ =? _); [|done]. destruct (exec_word 64 w c); cbn; [apply IH|done].
Qed.

Section rules.
Context (T : Z -> option Z).

(** [m] emits [ws] and returns [a], whenever the offset table is [T]. *)
Definition emitted {A} (m : M A) (a : A) (ws : list Z) : Prop :=
  forall ctx, offset ctx = T -> m ctx = Some (a, emit_all ws ctx).

Definition straight {A} (m : M A) (a : A) (c c' : cpu) : Prop :=
  exists ws, emitted m a ws /\ run (pc c) ws c = Some c' /\ pc c' = adv (pc c) (length ws).

(** [pb] is the address of the last instruction, which may jump. *)
Definition jumps {A} (m : M A) (a : A) (c : cpu) (pb : Z) (c' : cpu) : Prop :=
  exists ws, emitted m a ws /\ run (pc c) ws c = Some c' /\ ws <> [] /\ pb = adv (pc c) (pred (length ws)).

Lemma emitted_bind {A B} (m : M A) (k : A -> M B) a b ws1 ws2 :
  emitted m a ws1 -> emitted (k a) b ws2 -> emitted (bind m k) b (ws1 ++ ws2).
Proof.
  intros H1 H2 ctx Hc. unfold bind. rewrite H1 by done. cbn.
  rewrite H2 by (by rewrite emit_all_offset). unfold emit_all. by rewrite foldl_app.
Qed.

Lemma emitted_ret {A} (a : A) : emitted (ret a) a [].
Proof. by intros ctx _. Qed.

Lemma straight_ret {A} (a : A) c : straight (ret a) a c c.
Proof. exists []. by split; [apply emitted_ret|]. Qed.

Lemma straight_emit w c c' : exec_word 64 w c = Some c' -> pc c' = u64 (pc c + 4) -> straight (emit w) () c c'.
Proof.
  intros E Hp. exists [w]. split; [by intros ctx _|]. cbn. rewrite Z.eqb_refl, E. by split.
Qed.

Lemma straight_bind {A B} (m : M A) (k : A -> M B) a b c c1 c2 :
  straight m a c c1 -> straight (k a) b c1 c2 -> straight (bind m k) b c c2.
Proof.
  intros (ws1 & E1 & R1 & P1) (ws2 & E2 & R2 & P2). exists (ws1 ++ ws2).
  split; [by eapply emitted_bind|]. rewrite (run_app _ _ _ _ _ R1), <- P1, length_app, adv_add, <- P1. by split.
Qed.

Lemma jumps_emit w c c' : exec_word 64 w c = Some c' -> jumps (emit w) () c (pc c) c'.
Proof. intros E. exists [w]. split; [by intros ctx _|]. cbn. rewrite Z.eqb_refl, E. by repeat split. Qed.

Lemma jumps_bind {A B} (m : M A) (k : A -> M B) a b c c1 pb c2 :
  straight m a c c1 -> jumps (k a) b c1 pb c2 -> jumps (bind m k) b c pb c2.
Proof.
  intros (ws1 & E1 & R1 & P1) (ws2 & E2 & R2 & N2 & P2). exists (ws1 ++ ws2).
  split; [by eapply emitted_bind|]. rewrite (run_app _ _ _ _ _ R1), <- P1. split; [done|].
  split; [by destruct ws1|]. rewrite P2, P1, <- adv_add, length_app. f_equal.
  destruct ws2; [done|]. cbn. lia.
Qed.

Lemma jumps_ret {A B} (m : M A) (a : A) (b : B) c pb c' :
  jumps m a c pb c' -> jumps (bind m (fun _ => ret b)) b c pb c'.
Proof.
  intros (ws & E & R & N & P). exists ws. split; [|by repeat split].
  rewrite <- (app_nil_r ws). by eapply emitted_bind; [|apply emitted_ret].
Qed.
End rules.

(** An instruction that writes [v] to rd. *)
Lemma straight_wr T w p g m rd v : exec_word 64 w (Cpu p g m) = wr 64 p g m rd v ->
  straight T (emit w) () (Cpu p g m) (Cpu (u64 (p + 4)) (<[rd := v]> g) m).
Proof. intros E. by eapply straight_emit. Qed.

Lemma straight_eq {A} T (m : M A) a c c1 c2 : straight T m a c c1 -> c1 = c2 -> straight T m a c c2.
Proof. by intros ? <-. Qed.
