(* ===== verification/BpfJit64Imm.v ===== *)
(** Immediates of the RV64 BPF compiler: the code emit_imm produces loads any
    64-bit value, with a bounded recursion. *)

From S2P Require Import Prelude Cstring Bytes Bitops Bpf BpfSteps Riscv RvEmit RvEnc RvExec BpfJit64 BpfJit64Exec.

(** * Splitting a value *)

(** The 12 low bits, read as signed, complete the rounded upper part. *)
Lemma imm_split val : exists c, (s64 (val + 2 ^ 11) ≫ 12) * 2 ^ 12 + sgn 12 (val .& 0xfff) = val + c * 2 ^ 64.
Proof.
  assert (sgn 12 (val .& 0xfff) = (val + 2 ^ 11) mod 2 ^ 12 - 2 ^ 11) as ->.
  { change 0xfff with (Z.ones 12). rewrite Z.land_ones by lia.
    change (val mod 2 ^ 12) with (wrap 12 val). by rewrite sgn_of_wrap, sgn_alt. }
  set (x := val + 2 ^ 11). rewrite Z.shiftr_div_pow2 by lia.
  assert (exists c, s64 x = x + c * 2 ^ 64) as [c Hc].
  { unfold sgn. pose proof (Z.div_mod x (2 ^ 64)). destruct (_ <? _).
    - exists (- (x / 2 ^ 64)). lia.
    - exists (- (x / 2 ^ 64) - 1). lia. }
  exists c. pose proof (Z.div_mod (s64 x) (2 ^ 12)). 
  assert (s64 x mod 2 ^ 12 = x mod 2 ^ 12) as E.
  { rewrite Hc. replace (c * 2 ^ 64) with (c * 2 ^ 52 * 2 ^ 12) by ring. apply Z_mod_plus_full. }
  rewrite E in *. lia.
Qed.

(** The upper part of a value of [b + 12] bits has [b] bits, up to rounding. *)
Lemma imm_upper_range val b : 0 <= b <= 51 -> - 2 ^ (b + 12) <= val < 2 ^ (b + 12) ->
  - 2 ^ b <= s64 (val + 2 ^ 11) ≫ 12 <= 2 ^ b.
Proof.
  intros Hb Hr. rewrite Z.shiftr_div_pow2 by lia.
  assert (2 ^ (b + 12) <= 2 ^ 63) by (apply Z.pow_le_mono_r; lia).
  assert (2 ^ (b + 12) = 2 ^ b * 2 ^ 12) as E by (apply Z.pow_add_r; lia).
  destruct (Z_lt_ge_dec (val + 2 ^ 11) (2 ^ 63)) as [Hs|Hs].
  - rewrite sgn_small by lia. split; [apply Z.div_le_lower_bound; lia|].
    apply Z.lt_succ_r. apply Z.div_lt_upper_bound; lia.
  - assert (b = 51) as ->.
    { destruct (decide (b <= 50)); [|lia]. assert (2 ^ (b + 12) <= 2 ^ 62) by (apply Z.pow_le_mono_r; lia). lia. }
    assert (s64 (val + 2 ^ 11) = val + 2 ^ 11 - 2 ^ 64) as ->.
    { unfold sgn. rewrite Z.mod_small by lia. destruct (Z.ltb_spec (val + 2 ^ 11) (2 ^ (64 - 1))); lia. }
    rewrite <- (Z.div_unique _ (2 ^ 12) (- 2 ^ 51) (val + 2 ^ 11 - 2 ^ 63)); lia.
Qed.

(** The lowest set bit of a signed value. *)
Lemma ffs_signed u : - 2 ^ 51 <= u <= 2 ^ 51 -> u <> 0 ->
  let s := __ffs (u64 u) in 0 <= s <= 51 /\ exists q, u = q * 2 ^ s /\ u ≫ s = q /\ q mod 2 = 1.
Proof.
  intros Hu Hne s. destruct (ffs_spec (u64 u)) as (Hs & q & Eq & Hq); [by apply uint_wrap| |].
  { unfold wrap. intros E. destruct (Z_lt_ge_dec u 0); [rewrite <- (Z_mod_plus_full u 1) in E|];
      rewrite Z.mod_small in E; lia. }
  fold s in Hs, Eq. pose proof (wrap_range 64 u ltac:(lia)) as Hw.
  assert (0 < 2 ^ s) by (apply Z.pow_pos_nonneg; lia).
  assert (1 <= q) by (assert (q <> 0) by (by intros ->); nia).
  assert (s < 64) by (apply Z.nle_gt; intros Hge; assert (2 ^ 64 <= 2 ^ s) by (apply Z.pow_le_mono_r; lia); nia).
  assert (2 ^ 64 = 2 * 2 ^ (63 - s) * 2 ^ s) as Ep.
  { rewrite <- Z.mul_assoc, <- Z.pow_add_r by lia. replace (63 - s + s) with 63 by lia. done. }
  set (k := u / 2 ^ 64). assert (u = (q + k * (2 * 2 ^ (63 - s))) * 2 ^ s) as E.
  { pose proof (Z.div_mod u (2 ^ 64)) as D. unfold wrap in Eq. fold k in D. rewrite Eq in D. nia. }
  split.
  - split; [done|]. apply Z.nlt_ge. intros Hlt. assert (2 ^ 52 <= 2 ^ s) by (apply Z.pow_le_mono_r; lia).
    clear Eq Ep Hw. generalize dependent (q + k * (2 * 2 ^ (63 - s))). intros Q E.
    assert (Q <> 0) by (intros ->; lia). destruct (Z_lt_ge_dec Q 0); nia.
  - exists (q + k * (2 * 2 ^ (63 - s))). split; [done|]. split.
    + rewrite E at 1. rewrite Z.shiftr_div_pow2 by lia. apply Z.div_mul. lia.
    + replace (k * (2 * 2 ^ (63 - s))) with (k * 2 ^ (63 - s) * 2) by ring. by rewrite Z_mod_plus_full.
Qed.

(** * The emitted code *)

Lemma u64_eq x c : u64 (x + c * 2 ^ 64) = u64 x.
Proof. apply Z_mod_plus_full. Qed.

Lemma u32_eq x c : u32 (x + c * 2 ^ 64) = u32 x.
Proof. unfold wrap. replace (c * 2 ^ 64) with (c * 2 ^ 32 * 2 ^ 32) by ring. apply Z_mod_plus_full. Qed.

(** lui, then addiw. *)
Lemma lui_addiw_val u lo : u64 (s32 (u32 (u64 (s32 (wrap 20 u ≪ 12))) + lo)) = u64 (s32 (u * 2 ^ 12 + lo)).
Proof.
  f_equal. apply sgn_eq. rewrite wrap_wrap_le, sgn_wrap by lia.
  replace (u32 (wrap 20 u ≪ 12)) with (u32 (u * 2 ^ 12)).
  - unfold wrap. by rewrite Zplus_mod_idemp_l.
  - rewrite <- Z.shiftl_mul_pow2 by lia. zbits.
Qed.

(** The shift left that follows the recursive call. *)
Lemma slli_val q s : 0 <= s -> u64 (u64 q ≪ (s + 12)) = u64 (q * 2 ^ s * 2 ^ 12).
Proof.
  intros. rewrite <- Z.mul_assoc, <- Z.pow_add_r, Z.shiftl_mul_pow2 by lia. unfold wrap.
  by rewrite Zmult_mod_idemp_l.
Qed.
Section imm.
Context (T : Z -> option Z) (rd : Z).
Hypothesis Hrd : uint 5 rd.
Hypothesis Hne : rd <> 0.

Lemma rget_insert g v : rget (<[rd := v]> g) rd = v.
Proof. unfold rget. rewrite (proj2 (Z.eqb_neq rd 0)) by done. apply fn_lookup_insert. Qed.

(** The code for a 32-bit value. *)
Lemma emit_imm_small n val p g m : is_32b_int val = true ->
  exists p', straight T (emit_imm_rec (S n) rd val) () (Cpu p g m) (Cpu p' (<[rd := u64 val]> g) m).
Proof.
  intros H32. cbn [emit_imm_rec]. rewrite H32. destruct (imm_split val) as [c Hc].
  unfold is_32b_int in H32. apply andb_prop in H32 as [L1%Z.leb_le L2%Z.ltb_lt].
  destruct (Z.eqb_spec (s64 (val + 2 ^ 11) ≫ 12) 0) as [E|E]; cbn [negb when]; eexists.
  - eapply straight_bind; [apply straight_ret|]. rewrite E in Hc.
    eapply straight_eq; [by eapply straight_wr, x_addi|]. do 2 f_equal.
    replace (rget g RV_REG_ZERO + sgn 12 (val .& 0xfff)) with (val + c * 2 ^ 64) by (cbn; lia). apply u64_eq.
  - eapply straight_bind; [by eapply straight_wr, x_lui|].
    eapply straight_eq; [by eapply straight_wr, x_addiw|].
    rewrite fn_insert_insert, rget_insert, lui_addiw_val, Hc. do 2 f_equal.
    rewrite (sgn_eq 32 _ val) by apply u32_eq. by rewrite sgn_small by lia.
Qed.

(** A value of [b] bits, with fuel for the recursive calls that takes. *)
Lemma emit_imm_rec_spec n b val p g m : 12 <= b <= 63 -> b <= 31 + 12 * Z.of_nat n -> - 2 ^ b <= val < 2 ^ b ->
  exists p', straight T (emit_imm_rec (S n) rd val) () (Cpu p g m) (Cpu p' (<[rd := u64 val]> g) m).
Proof.
  revert b val p g. induction n as [|n IH]; intros b val p g Hb Hn Hv.
  - apply emit_imm_small. assert (2 ^ b <= 2 ^ 31) by (apply Z.pow_le_mono_r; lia). unfold is_32b_int. lia.
  - destruct (is_32b_int val) eqn:H32; [by apply emit_imm_small|].
    cbn [emit_imm_rec]. rewrite H32. destruct (imm_split val) as [c Hc].
    set (u := s64 (val + 2 ^ 11) ≫ 12) in *.
    assert (- 2 ^ (b - 12) <= u <= 2 ^ (b - 12)) as Hu.
    { apply imm_upper_range; [lia|]. by replace (b - 12 + 12) with b by lia. }
    assert (u <> 0) as Hu0.
    { intros E. rewrite E in Hc. pose proof (sgn_range 12 (val .& 0xfff) ltac:(lia)).
      assert (2 ^ b <= 2 ^ 63) by (apply Z.pow_le_mono_r; lia). unfold is_32b_int in H32. lia. }
    assert (2 ^ (b - 12) <= 2 ^ 51) by (apply Z.pow_le_mono_r; lia).
    destruct (ffs_signed u) as (Hs & q & Eq & Eqs & Hodd); [lia|done|]. rewrite Eqs.
    set (s := __ffs (u64 u)) in *. 
    assert (1 <= 2 ^ s) by (pose proof (Z.pow_pos_nonneg 2 s); lia).
    assert (- 2 ^ (b - 12) <= q < 2 ^ (b - 12)) as Hq.
    { split; [nia|]. destruct (Z_lt_ge_dec q (2 ^ (b - 12))); [done|]. exfalso.
      assert (q = 2 ^ (b - 12)) as E by nia. destruct (decide (b = 12)) as [->|].
      - cbn in E. subst q. unfold is_32b_int in H32. lia.
      - rewrite E in Hodd. replace (b - 12) with (Z.succ (b - 13)) in Hodd by lia.
        rewrite Z.pow_succ_r, Z.mul_comm, Z_mod_mult in Hodd by lia. done. }
    destruct (IH (Z.max 12 (b - 12)) q p g) as [p1 Hrec]; [lia..| |].
    { assert (2 ^ (b - 12) <= 2 ^ Z.max 12 (b - 12)) by (apply Z.pow_le_mono_r; lia). lia. }
    destruct (Z.eqb_spec (val .& 0xfff) 0) as [E0|E0]; cbn [negb when]; eexists.
    all: eapply straight_bind; [apply Hrec|].
    all: eapply straight_bind; [eapply straight_wr, x_slli; (done || lia)|].
    + eapply straight_eq; [apply straight_ret|]. rewrite fn_insert_insert, rget_insert, slli_val by lia.
      rewrite E0 in Hc. change (sgn 12 0) with 0 in Hc. rewrite <- Eq, <- (u64_eq val c), <- Hc, Z.add_0_r. done.
    + eapply straight_eq; [by eapply straight_wr, x_addi|].
      rewrite fn_insert_insert, fn_insert_insert, !rget_insert, slli_val by lia. do 2 f_equal.
      rewrite Z.add_comm, wrap_add_r, Z.add_comm, <- Eq, Hc. apply u64_eq.
Qed.

(** Loading a 64-bit value. *)
Lemma emit_imm_spec val p g m : - 2 ^ 63 <= val < 2 ^ 63 ->
  exists p', straight T (emit_imm rd val) () (Cpu p g m) (Cpu p' (<[rd := u64 val]> g) m).
Proof. intros. apply (emit_imm_rec_spec 3 63); lia. Qed.
End imm.

(** * Weakest preconditions for compiler operations: [wp T m c Q] says that [m]
    emits code that takes the processor [c], in sequence, to one that satisfies
    [Q] together with the value [m] returns; [wpj] is for code that ends in a
    branch, and [Q] gets the address of the branch. *)

Section wp.
Context (T : Z -> option Z).

Definition wp {A} (m : M A) (c : cpu) (Q : A -> cpu -> Prop) : Prop :=
  exists a c', straight T m a c c' /\ Q a c'.

Definition wpj {A} (m : M A) (c : cpu) (Q : A -> Z -> cpu -> Prop) : Prop :=
  exists a pb c', jumps T m a c pb c' /\ Q a pb c'.

Lemma wp_ret {A} (a : A) c (Q : A -> cpu -> Prop) : Q a c -> wp (ret a) c Q.
Proof. intros H. exists a, c. by split; [apply straight_ret|]. Qed.

Lemma wpc_bind {A B} (m : M A) (k : A -> M B) c (Q : B -> cpu -> Prop) :
  wp m c (fun a c' => wp (k a) c' Q) -> wp (bind m k) c Q.
Proof.
  intros (a & c1 & H1 & b & c2 & H2 & HQ). exists b, c2. by split; [eapply straight_bind|].
Qed.

Lemma wpc_mono {A} (m : M A) c (Q Q' : A -> cpu -> Prop) : wp m c Q -> (forall a c', Q a c' -> Q' a c') -> wp m c Q'.
Proof. intros (a & c' & H & HQ) HI. exists a, c'. auto. Qed.

Lemma wp_when (b : bool) (m : M unit) c (Q : unit -> cpu -> Prop) :
  (if b then wp m c Q else Q () c) -> wp (when b m) c Q.
Proof. destruct b; [done|apply wp_ret]. Qed.

Lemma wp_emit w c c' (Q : unit -> cpu -> Prop) : exec_word 64 w c = Some c' -> pc c' = u64 (pc c + 4) ->
  Q () c' -> wp (emit w) c Q.
Proof. intros E Hp HQ. exists (), c'. by split; [apply straight_emit|]. Qed.

(** An instruction that writes [v] to [rd]. *)
Lemma wp_wr w p g m rd v (Q : unit -> cpu -> Prop) : exec_word 64 w (Cpu p g m) = wr 64 p g m rd v ->
  Q () (Cpu (u64 (p + 4)) (<[rd := v]> g) m) -> wp (emit w) (Cpu p g m) Q.
Proof. intros E HQ. by eapply wp_emit. Qed.

Lemma wp_imm rd val p g m (Q : unit -> cpu -> Prop) : uint 5 rd -> rd <> 0 -> - 2 ^ 63 <= val < 2 ^ 63 ->
  (forall p', Q () (Cpu p' (<[rd := u64 val]> g) m)) -> wp (emit_imm rd val) (Cpu p g m) Q.
Proof.
  intros Hrd Hne Hv HQ. destruct (emit_imm_spec T rd Hrd Hne val p g m Hv) as [p' H]. by exists (), (Cpu p' (<[rd := u64 val]> g) m).
Qed.

Lemma zext_val v : u64 (v ≪ 32) ≫ 32 = u32 v.
Proof. zbits. Qed.

Lemma wp_zext_32 reg p g m (Q : unit -> cpu -> Prop) : uint 5 reg -> reg <> 0 ->
  (forall p', Q () (Cpu p' (<[reg := u32 (g reg)]> g) m)) -> wp (emit_zext_32 reg) (Cpu p g m) Q.
Proof.
  intros Hr Hne HQ. apply wpc_bind. eapply wp_wr; [apply x_slli; (done || lia)|]. eapply wp_wr; [apply x_srli; (done || lia)|].
  rewrite fn_insert_insert, rget_insert by done. unfold rget. rewrite (proj2 (Z.eqb_neq reg 0)), zext_val by done.
  apply HQ.
Qed.

Lemma wpj_bind {A B} (m : M A) (k : A -> M B) c (Q : B -> Z -> cpu -> Prop) :
  wp m c (fun a c' => wpj (k a) c' Q) -> wpj (bind m k) c Q.
Proof.
  intros (a & c1 & H1 & b & pb & c2 & H2 & HQ). exists b, pb, c2. by split; [eapply jumps_bind|].
Qed.

Lemma wpj_ret {A B} (m : M A) (b : B) c (Q : B -> Z -> cpu -> Prop) :
  wpj m c (fun _ pb c' => Q b pb c') -> wpj (bind m (fun _ => ret b)) c Q.
Proof. intros (a & pb & c' & H & HQ). exists b, pb, c'. by split; [eapply jumps_ret|]. Qed.

Lemma wpj_emit w p g m c' (Q : unit -> Z -> cpu -> Prop) : exec_word 64 w (Cpu p g m) = Some c' ->
  Q () p c' -> wpj (emit w) (Cpu p g m) Q.
Proof. intros E HQ. exists (), p, c'. split; [by apply (jumps_emit T w (Cpu p g m))|done]. Qed.

(** Reading the offset table emits nothing. *)
Lemma wp_get_offset k o c (Q : Z -> cpu -> Prop) : T k = Some o -> Q o c -> wp (get_offset k) c Q.
Proof.
  intros E HQ. exists o, c. split; [|done]. exists []. split; [|done].
  intros ctx Hc. unfold get_offset. by rewrite Hc, E.
Qed.
End wp.
