(* ===== verification/BpfJit64Alu.v ===== *)
(** Arithmetic instructions of the RV64 BPF compiler: the code of each case
    computes the value the interpreter computes. The 32-bit operations that the
    compiler does not zero-extend are in a section of their own. *)

From S2P Require Import Prelude Cstring Bytes Bpf BpfSteps Riscv RvEmit RvEnc RvExec BpfJit64 BpfJit64Exec BpfJit64Imm.

(** * Registers and scratch registers *)

(** A register that may hold a BPF register: not x0, T1 or T2. *)
Definition bpf_held (r : Z) : Prop := 0 < r < 32 /\ r <> RV_REG_T1 /\ r <> RV_REG_T2.

(** Equal but for the scratch registers. *)
Definition eqx (g g' : Z -> Z) : Prop := forall r, r <> RV_REG_T1 -> r <> RV_REG_T2 -> g r = g' r.

Lemma eqx_refl g : eqx g g.
Proof. by intros r. Qed.

Lemma eqx_trans g1 g2 g3 : eqx g1 g2 -> eqx g2 g3 -> eqx g1 g3.
Proof. intros H1 H2 r ??. rewrite H1 by done. by apply H2. Qed.

Lemma eqx_wr g g' r v v' : v = v' -> eqx g g' -> eqx (<[r := v]> g) (<[r := v']> g').
Proof. intros -> H r' ??. rewrite !fn_insert_spec. case_decide; auto. Qed.

Lemma eqx_wr_over g g' r v v' w : v = v' -> eqx g (<[r := w]> g') -> eqx (<[r := v]> g) (<[r := v']> g').
Proof.
  intros -> H r' H1 H2. specialize (H r' H1 H2). rewrite !fn_insert_spec in *. case_decide; auto.
Qed.

Lemma eqx_t1 g g' v : eqx g g' -> eqx (<[RV_REG_T1 := v]> g) g'.
Proof. intros H r ??. rewrite fn_insert_spec. case_decide; [done|auto]. Qed.

Lemma eqx_t2 g g' v : eqx g g' -> eqx (<[RV_REG_T2 := v]> g) g'.
Proof. intros H r ??. rewrite fn_insert_spec. case_decide; [done|auto]. Qed.

Create HintDb jit.
#[export] Hint Resolve eqx_refl eqx_t1 eqx_t2 : jit.

(** * Steps through emitted code *)

Ltac rvside :=
  first [ assumption | reflexivity
        | unfold bpf_held, uint in *; lia ].

Ltac wstep :=
  lazymatch goal with
  | |- wp _ (bind _ _) _ _ => apply wpc_bind
  | |- wp _ (ret _) _ _ => apply wp_ret
  | |- wp _ (when _ _) _ _ => apply wp_when; cbn [negb]
  | |- wp _ (emit_zext_32 _) _ _ => apply wp_zext_32; [rvside..|intros ?]
  | |- wp _ (emit_imm _ _) _ _ => apply wp_imm; [rvside..|intros ?]
  | |- wp _ (emit (rv_add _ _ _)) _ _ => eapply wp_wr; [apply x_add; rvside|]
  | |- wp _ (emit (rv_sub _ _ _)) _ _ => eapply wp_wr; [apply x_sub; rvside|]
  | |- wp _ (emit (rv_and _ _ _)) _ _ => eapply wp_wr; [apply x_and; rvside|]
  | |- wp _ (emit (rv_or _ _ _)) _ _ => eapply wp_wr; [apply x_or; rvside|]
  | |- wp _ (emit (rv_xor _ _ _)) _ _ => eapply wp_wr; [apply x_xor; rvside|]
  | |- wp _ (emit (rv_mul _ _ _)) _ _ => eapply wp_wr; [apply x_mul; rvside|]
  | |- wp _ (emit (rv_divu _ _ _)) _ _ => eapply wp_wr; [apply x_divu; rvside|]
  | |- wp _ (emit (rv_remu _ _ _)) _ _ => eapply wp_wr; [apply x_remu; rvside|]
  | |- wp _ (emit (rv_sll _ _ _)) _ _ => eapply wp_wr; [apply x_sll; rvside|change (64 - 1) with 63]
  | |- wp _ (emit (rv_srl _ _ _)) _ _ => eapply wp_wr; [apply x_srl; rvside|change (64 - 1) with 63]
  | |- wp _ (emit (rv_sra _ _ _)) _ _ => eapply wp_wr; [apply x_sra; rvside|change (64 - 1) with 63]
  | |- wp _ (emit (rv_addw _ _ _)) _ _ => eapply wp_wr; [apply x_addw; rvside|]
  | |- wp _ (emit (rv_subw _ _ _)) _ _ => eapply wp_wr; [apply x_subw; rvside|]
  | |- wp _ (emit (rv_mulw _ _ _)) _ _ => eapply wp_wr; [apply x_mulw; rvside|]
  | |- wp _ (emit (rv_divuw _ _ _)) _ _ => eapply wp_wr; [apply x_divuw; rvside|]
  | |- wp _ (emit (rv_remuw _ _ _)) _ _ => eapply wp_wr; [apply x_remuw; rvside|]
  | |- wp _ (emit (rv_sllw _ _ _)) _ _ => eapply wp_wr; [apply x_sllw; rvside|]
  | |- wp _ (emit (rv_srlw _ _ _)) _ _ => eapply wp_wr; [apply x_srlw; rvside|]
  | |- wp _ (emit (rv_sraw _ _ _)) _ _ => eapply wp_wr; [apply x_sraw; rvside|]
  | |- wp _ (emit (rv_addi _ _ _)) _ _ => eapply wp_wr; [apply x_addi; rvside|]
  | |- wp _ (emit (rv_addiw _ _ _)) _ _ => eapply wp_wr; [apply x_addiw; rvside|]
  | |- wp _ (emit (rv_andi _ _ _)) _ _ => eapply wp_wr; [apply x_andi; rvside|]
  | |- wp _ (emit (rv_ori _ _ _)) _ _ => eapply wp_wr; [apply x_ori; rvside|]
  | |- wp _ (emit (rv_xori _ _ _)) _ _ => eapply wp_wr; [apply x_xori; rvside|]
  | |- wp _ (emit (rv_slli _ _ _)) _ _ => eapply wp_wr; [apply x_slli; rvside|]
  | |- wp _ (emit (rv_srli _ _ _)) _ _ => eapply wp_wr; [apply x_srli; rvside|]
  | |- wp _ (emit (rv_srai _ _ _)) _ _ => eapply wp_wr; [apply x_srai; rvside|]
  | |- wp _ (emit (rv_slliw _ _ _)) _ _ => eapply wp_wr; [apply x_slliw; rvside|]
  | |- wp _ (emit (rv_srliw _ _ _)) _ _ => eapply wp_wr; [apply x_srliw; rvside|]
  | |- wp _ (emit (rv_sraiw _ _ _)) _ _ => eapply wp_wr; [apply x_sraiw; rvside|]
  end.

(** Reads of registers after the writes of emitted code. *)
Ltac rsimpl :=
  repeat match goal with
    | |- context [rget ?g RV_REG_ZERO] => change (rget g RV_REG_ZERO) with 0
    | |- context [rget ?g ?r] => rewrite (rget_nz g r) by rvside
    | |- context [<[?a := ?t]> ?f ?b] =>
        first [rewrite (fn_lookup_insert f a t) | rewrite (fn_lookup_insert_ne f a b t) by rvside]
    | |- context [<[?a := ?t]> (<[?a := ?t']> ?f)] => rewrite (fn_insert_insert f a t t')
    end.

(** * The values of the interpreter *)

Lemma land63 b : 0 <= b < 64 -> 63 .& b = b.
Proof. intros. apply (land_mask_shift 64); auto. Qed.

Lemma land31 b : 0 <= b < 32 -> 31 .& b = b.
Proof. intros. apply (land_mask_shift 32); auto. Qed.

Lemma sgn_12 k : is_12b_int k = true -> sgn 12 k = k.
Proof. unfold is_12b_int. intros. apply sgn_small; lia. Qed.

Lemma u32_small k : - 2 ^ 31 <= k < 2 ^ 31 -> u32 k < 2 ^ 31 -> u32 k = k.
Proof.
  intros Hk Hs. destruct (Z_lt_ge_dec k 0); [|apply wrap_small; lia]. unfold wrap in *.
  rewrite <- (Z_mod_plus_full k 1), Z.mod_small in Hs; lia.
Qed.

Lemma s32_opp_12 k : - 2 ^ 31 <= k < 2 ^ 31 -> is_12b_int (s32 (- k)) = true -> s32 (- k) = - k.
Proof.
  intros Hk E. destruct (decide (k = - 2 ^ 31)) as [->|]; [by vm_compute in E|]. apply sgn_small; lia.
Qed.

(** Evaluates the switch of emit_insn on a known opcode. *)
Ltac pick_case :=
  lazymatch goal with |- context [emit_cases ?c] =>
    let b := eval vm_compute in (is64_of c) in
    let c' := eval vm_compute in c in
    unfold emit_cases; change (is64_of c) with b; cbv zeta;
    lazy [switch has_label existsb orb app emit_alu_x emit_neg_end emit_alu_k emit_ja emit_jmp_x emit_jmp_k
          emit_ld_imm64 emit_ldx emit_st emit_stx emit_xadd alu2 jmp2
          Z.compare Pos.compare Pos.compare_cont Z.lor Pos.lor Pos.Nsucc_double Pos.Ndouble
          class_code size_code mode_code alu_code jmp_code src_code
          BPF_FROM_LE BPF_FROM_BE BPF_TO_LE BPF_TO_BE]
  end.

(** * Computing a value into a register *)

Section computes.
Context (T : Z -> option Z).

(** The code of [body] leaves [v] in [rd], and all else but the scratch
    registers as it was. *)
Definition computes (body : M Z) (rd v : Z) (g : Z -> Z) (m : mem) : Prop :=
  forall p, wp T body (Cpu p g m) (fun a c' => a = 0 /\ cmem c' = m /\ eqx (gprs c') (<[rd := v]> g)).

Context (rd rs : Z) (g : Z -> Z) (m : mem).
Hypothesis Hrd : bpf_held rd.
Hypothesis Hrs : bpf_held rs.
Hypothesis Ha : uint 64 (g rd).
Hypothesis Hb : uint 64 (g rs).

Context (off imm imm1 i : Z).
Hypothesis Himm : - 2 ^ 31 <= imm < 2 ^ 31.

(** The code emit_insn emits for the opcode [c]. *)
Definition body_of (c : Z) : M Z := switch c (emit_cases c off imm imm1 i rd rs) (ret (-1)).

(** Runs the code of a case to its end, leaving the equation of the value. *)
Ltac run_case :=
  intros p; cbn [negb]; repeat wstep; cbn [pc gprs cmem]; rsimpl;
  (split; [reflexivity|]); (split; [reflexivity|]); apply eqx_wr; [|auto with jit].

(** The interpreter's value, with the conditions under which it is defined. *)
Ltac alu_value Hv :=
  cbn [alu_val] in Hv;
  unfold c_add, c_sub, c_and, c_or, c_xor, c_mul, c_shl, c_shr, c_sar, div64_u64, div64_u64_rem, do_div in Hv;
  repeat match type of Hv with
    | context [if ?b then _ else _] => destruct b eqn:?; cbn [mbind option_bind] in Hv; try discriminate Hv
    end; cbn [mbind option_bind fst snd] in Hv; injection Hv as <-.

(** Closes the equations of values. *)
Ltac alu_close :=
  change (sgn 12 0) with 0; rewrite ?Z.add_0_r; rewrite ?wrap_wrap in *; rewrite ?(wrap_wrap_le 32 64) by lia;
  repeat match goal with
    | E : u64 _ = _ |- _ => rewrite ?E in *; clear E
    | E : (_ =? 0) = false |- _ => rewrite E; clear E
    | E : is_12b_int ?k = true |- context [sgn 12 ?k] => rewrite (sgn_12 k) by exact E
    | E : is_12b_int (s32 (- ?k)) = true |- context [s32 (- ?k)] => rewrite (s32_opp_12 k) by (lia || exact E)
    end;
  rewrite ?(wrap_small 32 (g rs)) by lia; rewrite ?land63, ?land31 by lia; autorewrite with cint;
  first [ reflexivity | f_equal; lia | zbits ].

(** dst = dst OP src, 64 bits *)
Lemma alu_x64 op v : op <> BPF_NEG -> alu_val true op (g rd) (g rs) = Some v ->
  computes (body_of (BPF_ALU64 .| op .| BPF_X)) rd v g m.
Proof.
  intros Hop Hv. pose proof (wrap_small 64 (g rs) Hb) as Eb. unfold body_of.
  destruct op; try done; pick_case; alu_value Hv; run_case; alu_close.
Qed.

(** Both forms of an operation with an immediate. *)
Ltac imm_case :=
  try (match goal with |- context [is_12b_int ?k] => destruct (is_12b_int k) eqn:E12 end); run_case.

(** dst = dst OP imm, 64 bits *)
Lemma alu_k64 op v : op <> BPF_NEG -> alu_val true op (g rd) imm = Some v ->
  computes (body_of (BPF_ALU64 .| op .| BPF_K)) rd v g m.
Proof.
  intros Hop Hv. unfold body_of. destruct op; try done; pick_case; alu_value Hv; imm_case; alu_close.
Qed.

(** dst = dst OP src, 32 bits, where the code zero-extends the result *)
Lemma alu_x32 op v : op ∈ [BPF_MOV; BPF_MUL; BPF_DIV; BPF_MOD] -> alu_val false op (g rd) (g rs) = Some v ->
  computes (body_of (BPF_ALU .| op .| BPF_X)) rd v g m.
Proof.
  intros Hop Hv. unfold body_of.
  each_of Hop; pick_case; alu_value Hv; run_case; alu_close.
Qed.

(** dst = dst OP imm, 32 bits, where the code zero-extends the result *)
Lemma alu_k32 op v : op ∈ [BPF_MOV; BPF_ADD; BPF_SUB; BPF_AND; BPF_OR; BPF_XOR; BPF_MUL; BPF_DIV; BPF_MOD] ->
  alu_val false op (g rd) imm = Some v -> computes (body_of (BPF_ALU .| op .| BPF_K)) rd v g m.
Proof.
  intros Hop Hv. unfold body_of.
  each_of Hop; pick_case; alu_value Hv; imm_case; alu_close.
Qed.

(** dst = -dst, 64 bits *)
Lemma neg64 : computes (body_of (BPF_ALU64 .| BPF_NEG)) rd (u64 (- g rd)) g m.
Proof. unfold body_of. pick_case. run_case. by rewrite Z.sub_0_l. Qed.

(** ** Operations whose 32-bit result is not zero-extended

    The low half of the destination is right; the upper half is not always zero. *)

(** What the code leaves in the register, where the interpreter has [v]: the logical
    operations are on all 64 bits, and the others extend the sign of the result. *)
Definition low_val (op : bpf_alu_op) (a b v : Z) : Z :=
  match op with
  | BPF_AND => a .& b
  | BPF_OR => a .| b
  | BPF_XOR => Z.lxor a b
  | _ => u64 (s32 v)
  end.

(** Runs the code; the value it leaves is [low_val]. *)
Ltac run_low := cbn [low_val]; run_case;
  first [f_equal; apply sgn_eq; autorewrite with cint; (reflexivity || (f_equal; lia)) | alu_close].

Lemma alu_x32_low op v : op ∈ [BPF_ADD; BPF_SUB; BPF_AND; BPF_OR; BPF_XOR; BPF_LSH; BPF_RSH; BPF_ARSH] ->
  alu_val false op (g rd) (g rs) = Some v -> computes (body_of (BPF_ALU .| op .| BPF_X)) rd (low_val op (g rd) (g rs) v) g m.
Proof. intros Hop Hv. unfold body_of. each_of Hop; pick_case; alu_value Hv; run_low. Qed.

Lemma alu_k32_low op v : op ∈ [BPF_LSH; BPF_RSH; BPF_ARSH] ->
  alu_val false op (g rd) imm = Some v -> computes (body_of (BPF_ALU .| op .| BPF_K)) rd (low_val op (g rd) (g rs) v) g m.
Proof.
  intros Hop Hv. unfold body_of. 
  each_of Hop; pick_case; alu_value Hv;
    (assert (u32 imm = imm) as Ei by (first [apply wrap_small; lia|apply u32_small; lia])); rewrite ?Ei in *; run_low.
Qed.

Lemma neg32_low : computes (body_of (BPF_ALU .| BPF_NEG)) rd (low_val BPF_NEG (g rd) (g rs) (u32 (- g rd))) g m.
Proof. unfold body_of. pick_case. run_low. Qed.
End computes.

(** ** When the value is zero-extended *)

(** The operands and the result for which the upper half is zero: the upper halves of
    the operands cancel out, or the sign bit of the result is clear. *)
Definition low_exact (op : bpf_alu_op) (a b v : Z) : Prop :=
  match op with
  | BPF_AND => (a ≫ 32) .& (b ≫ 32) = 0
  | BPF_OR => (a ≫ 32) .| (b ≫ 32) = 0
  | BPF_XOR => Z.lxor (a ≫ 32) (b ≫ 32) = 0
  | _ => v < 2 ^ 31
  end.

Lemma low_val_uint op a b v : uint 64 a -> uint 64 b -> uint 64 (low_val op a b v).
Proof.
  intros Ha Hb. destruct op; cbn [low_val];
    first [by apply uint_wrap|apply uint_land; [lia|apply Ha|done]|apply uint_lor; [lia|done..]|apply uint_lxor; [lia|done..]].
Qed.

Lemma sext_u32 v : uint 32 v -> u32 (u64 (s32 v)) = v.
Proof. intros Hv. rewrite (wrap_wrap_le 32 64) by lia. rewrite sgn_wrap. by apply wrap_small. Qed.

Lemma sext_exact v : uint 32 v -> u64 (s32 v) = v <-> v < 2 ^ 31.
Proof.
  intros [H0 H1]. unfold sgn. rewrite (Z.mod_small v) by lia. destruct (Z.ltb_spec v (2 ^ (32 - 1))).
  - rewrite wrap_small by (unfold uint; lia). lia.
  - unfold wrap. rewrite <- (Z_mod_plus_full _ 1), Z.mod_small by lia. lia.
Qed.

Lemma shiftr_32_zero x : uint 64 x -> x = u32 x <-> x ≫ 32 = 0.
Proof.
  intros [H0 H1]. unfold wrap. rewrite Z.shiftr_div_pow2 by lia. pose proof (Z.div_mod x (2 ^ 32) ltac:(lia)). lia.
Qed.

(** The low half is the interpreter's result. *)
Lemma low_val_u32 op a b v : uint 32 v -> (op ∈ [BPF_AND; BPF_OR; BPF_XOR] -> alu_val false op a b = Some v) ->
  u32 (low_val op a b v) = v.
Proof.
  intros Hv Hop. destruct op; cbn [low_val]; first [by apply sext_u32|specialize (Hop ltac:(set_solver))].
  all: cbn [alu_val] in Hop; unfold c_and, c_or, c_xor in Hop; injection Hop as <-; zbits.
Qed.

Lemma low_val_exact op a b v : uint 64 a -> uint 64 b -> uint 32 v -> u32 (low_val op a b v) = v ->
  low_val op a b v = v <-> low_exact op a b v.
Proof.
  intros Ha Hb Hv E. pose proof (low_val_uint op a b v Ha Hb) as Hu.
  destruct op; cbn [low_val low_exact] in *; try (by apply sext_exact).
  all: rewrite <- E at 1; rewrite (shiftr_32_zero _ Hu), ?Z.shiftr_land, ?Z.shiftr_lor, ?Z.shiftr_lxor; done.
Qed.
