(* ===== verification/BpfJit64Mem.v ===== *)
(** Loads, stores and atomic additions of the RV64 BPF compiler. *)

From S2P Require Import Prelude Cstring Bytes Bpf BpfSteps Riscv RvEmit RvEnc RvExec BpfJit64 BpfJit64Exec BpfJit64Imm BpfJit64Alu.

(** The load and store instructions of each size. *)
Definition rv_load (z : bpf_size) : Z -> Z -> Z -> Z :=
  match z with BPF_B => rv_lbu | BPF_H => rv_lhu | BPF_W => rv_lwu | BPF_DW => rv_ld end.
Definition rv_store (z : bpf_size) : Z -> Z -> Z -> Z :=
  match z with BPF_B => rv_sb | BPF_H => rv_sh | BPF_W => rv_sw | BPF_DW => rv_sd end.
Lemma x_load z p g m rd rs1 k : uint 5 rd -> rd <> 0 -> uint 5 rs1 ->
  exec_word 64 (rv_load z rd k rs1) (Cpu p g m) = wr 64 p g m rd (load_le 64 (size_bytes z) m (rget g rs1 + sgn 12 k)).
Proof. intros. destruct z; [apply x_lwu|apply x_lhu|apply x_lbu|apply x_ld]; done. Qed.

Lemma x_store z p g m rs1 rs2 k : uint 5 rs1 -> uint 5 rs2 ->
  exec_word 64 (rv_store z rs1 k rs2) (Cpu p g m) =
  Some (Cpu (u64 (p + 4)) g (store_le 64 (size_bytes z) m (rget g rs1 + sgn 12 k) (rget g rs2))).
Proof. intros. destruct z; [apply x_sw|apply x_sh|apply x_sb|apply x_sd]; done. Qed.

Section mem.
Context (T : Z -> option Z) (rd rs : Z) (g : Z -> Z) (m : mem).
Hypothesis Hrd : bpf_held rd.
Hypothesis Hrs : bpf_held rs.
Hypothesis Ha : uint 64 (g rd).
Context (off imm imm1 i : Z).
Hypothesis Hoff : - 2 ^ 15 <= off < 2 ^ 15.
Hypothesis Himm : - 2 ^ 31 <= imm < 2 ^ 31.

Abbreviation body := (body_of rd rs off imm imm1 i).

(** The addresses and values of the two forms of an access agree. *)
Ltac access_eq :=
  rsimpl; change (sgn 12 0) with 0;
  try (rewrite sgn_12 by assumption); rewrite ?Z.add_0_r; autorewrite with cint; apply (f_equal (wrap 64)); lia.

(** dst = *(size * )(src + off) *)
Lemma ldx (z : bpf_size) : computes T (body (BPF_LDX .| BPF_MEM .| z)) rd (load_le 64 (size_bytes z) m (g rs + off)) g m.
Proof.
  intros p. unfold body_of.
  replace (switch _ _ _) with (ldx_case (rv_load z) rd rs off) by (by destruct z).
  unfold ldx_case. destruct (is_12b_int off) eqn:E.
  - wstep. eapply wp_wr; [apply x_load; rvside|]. wstep. split; [done|]. split; [done|].
    apply eqx_wr; [|apply eqx_refl]. apply load_le_eq. access_eq.
  - repeat wstep. eapply wp_wr; [apply x_load; rvside|]. wstep. split; [done|]. split; [done|]. cbn [gprs cmem].
    apply eqx_wr; [|auto with jit]. apply load_le_eq. access_eq.
Qed.

(** The processor after a store of [v] to dst + off. *)
Definition stored (n : nat) (v : Z) (a : Z) (c' : cpu) : Prop :=
  a = 0 /\ cmem c' = store_le 64 n m (g rd + off) v /\ eqx (gprs c') g.

(** *(size * )(dst + off) = imm *)
Lemma st (z : bpf_size) p : wp T (body (BPF_ST .| BPF_MEM .| z)) (Cpu p g m) (stored (size_bytes z) imm).
Proof.
  pose proof (size_bytes_64 z). unfold body_of.
  replace (switch _ _ _) with (st_case (rv_store z) rd off imm) by (by destruct z).
  unfold st_case. do 2 wstep. destruct (is_12b_int off) eqn:E; repeat wstep.
  all: eapply wp_emit; [apply x_store; rvside|done|]; wstep; (split; [done|]); (split; [|cbn [gprs]; auto with jit]).
  all: apply store_le_eq; [access_eq|rsimpl; autorewrite with cint; done].
Qed.

(** *(size * )(dst + off) = src *)
Lemma stx (z : bpf_size) p : wp T (body (BPF_STX .| BPF_MEM .| z)) (Cpu p g m) (stored (size_bytes z) (g rs)).
Proof.
  unfold body_of. replace (switch _ _ _) with (stx_case (rv_store z) rd rs off) by (by destruct z).
  unfold stx_case. destruct (is_12b_int off) eqn:E; repeat wstep.
  all: eapply wp_emit; [apply x_store; rvside|done|]; wstep; (split; [done|]); (split; [|cbn [gprs]; auto with jit]).
  all: apply store_le_eq; [access_eq|by rsimpl].
Qed.

(** The address of an atomic addition, in rd or in T1. *)
Definition xadd_addr : M Z :=
  if negb (off =? 0) then
    (if is_12b_int off then emit (rv_addi RV_REG_T1 rd off)
     else emit_imm RV_REG_T1 off;; emit (rv_add RV_REG_T1 RV_REG_T1 rd));; ret RV_REG_T1
  else ret rd.

Lemma wp_xadd_addr p (Q : Z -> cpu -> Prop) :
  (forall r p' g', 0 < r < 32 -> eqx g' g -> g' r = u64 (g rd + off) -> Q r (Cpu p' g' m)) ->
  wp T xadd_addr (Cpu p g m) Q.
Proof.
  intros HQ. unfold xadd_addr. destruct (Z.eqb_spec off 0) as [->|]; cbn [negb].
  - apply wp_ret, HQ; [apply Hrd|auto with jit|]. rewrite Z.add_0_r. symmetry. by apply wrap_small.
  - apply wpc_bind. destruct (is_12b_int off) eqn:E; repeat wstep.
    all: apply HQ; [lia|auto with jit|access_eq].
Qed.

(** The amoadd instruction of a size. *)
Definition rv_amoadd (z : bpf_size) (rs rd : Z) : Z :=
  match z with BPF_W => rv_amoadd_w RV_REG_ZERO rs rd 0 0 | _ => rv_amoadd_d RV_REG_ZERO rs rd 0 0 end.

(** lock *(size * )(dst + off) += src, at an aligned address *)
Lemma xadd (z : bpf_size) p : z = BPF_W \/ z = BPF_DW -> u64 (g rd + off) mod Z.of_nat (size_bytes z) = 0 ->
  wp T (body (BPF_STX .| BPF_XADD .| z)) (Cpu p g m)
    (fun a c' => a = 0 /\ cmem c' = atomic_add (size_bytes z) m (wrap (8 * Z.of_nat (size_bytes z)) (g rs)) (g rd + off) /\
                 eqx (gprs c') g).
Proof.
  intros Hz Hal. unfold body_of.
  replace (switch _ _ _) with (r <- xadd_addr; emit (rv_amoadd z rs r);; ret 0) by (by destruct Hz as [-> | ->]).
  apply wpc_bind, wp_xadd_addr. intros r p' g' Hr Hx Er. apply wpc_bind.
  assert (g' rs = g rs) as Es by (apply Hx; apply Hrs).
  eapply (wp_emit _ _ _ (Cpu (u64 (p' + 4)) g'
    (store_le 64 (size_bytes z) m (rget g' r) (load_le 64 (size_bytes z) m (rget g' r) + rget g' rs)))); [|done|].
  - destruct Hz as [-> | ->]; [apply x_amoadd_w|apply x_amoadd_d]; first [rvside|by rewrite rget_nz, Er by lia].
  - wstep. split; [done|]. split; [|done]. rewrite !rget_nz, Er, Es by rvside. unfold atomic_add. cbn [cmem].
    apply store_le_eq; [apply wrap_wrap|]. rewrite load_le_wrap. by rewrite wrap_add_r.
Qed.
End mem.

(** * Byte swaps and 64-bit immediates of the RV64 BPF compiler. *)

(** Adding a byte below a value shifted by eight bits. *)
Lemma add_byte y b : uint 8 b -> u64 (u64 (y ≪ 8) + b) = u64 (y ≪ 8) .| b.
Proof.
  intros Hb. assert (u64 (y ≪ 8) .& b = 0) as E.
  { apply Z.bits_inj'. intros n Hn. bit_rewrite. destruct (Z_lt_ge_dec n 8).
    - rewrite (Z.testbit_neg_r y) by lia. by rewrite andb_false_r.
    - rewrite (testbit_uint 8 b) by (done || lia). apply andb_false_r. }
  rewrite Z.add_nocarry_lxor by done. rewrite Z.lxor_lor by done. apply wrap_small.
  apply uint_lor; [lia|by apply uint_wrap|]. unfold uint in *. lia.
Qed.

Lemma and_byte x : x .& u64 (sgn 12 0xff) = u8 x.
Proof. change (u64 (sgn 12 0xff)) with (Z.ones 8). by rewrite Z.land_ones. Qed.

(** The accumulator of the byte swap: the bytes of [x] so far, last one first. *)
Fixpoint be_acc (n : nat) (x : Z) : Z :=
  match n with
  | O => 0
  | S n => u64 ((be_acc n x .| u8 (x ≫ (8 * Z.of_nat n))) ≪ 8)
  end.

Lemma be_acc_add n x b : uint 8 b -> u64 (be_acc n x + b) = be_acc n x .| b.
Proof.
  intros Hb. destruct n as [|n]; [|by apply add_byte]. change (be_acc 0 x) with 0.
  rewrite Z.add_0_l, Z.lor_0_l. apply wrap_small. unfold uint in *. lia.
Qed.

Section bswap.
Context (T : Z -> option Z) (rd rs : Z) (g : Z -> Z) (m : mem).
Hypothesis Hrd : bpf_held rd.
Context (off imm imm1 i : Z).

(** The state after [n] bytes: T2 holds the accumulator and rd the rest. *)
Definition be_state (n : nat) (c : cpu) : Prop :=
  cmem c = m /\ gprs c RV_REG_T2 = be_acc n (g rd) /\
  eqx (gprs c) (<[rd := g rd ≫ (8 * Z.of_nat n)]> g).

Lemma wp_be_byte n c (Q : unit -> cpu -> Prop) : be_state n c ->
  (forall c', be_state (S n) c' -> Q () c') -> wp T (emit_be_byte rd) c Q.
Proof.
  destruct c as [p g1 m1]. intros (Em & E2 & Ex) HQ. cbn [cmem gprs] in *. subst m1.
  assert (g1 rd = g rd ≫ (8 * Z.of_nat n)) as Erd.
  { rewrite (Ex rd) by (unfold bpf_held in Hrd; lia). apply fn_lookup_insert. }
  unfold emit_be_byte. repeat wstep. apply HQ. split; [done|]. cbn [gprs]. rsimpl. split.
  - rewrite E2, and_byte, be_acc_add, Erd by (by apply uint_wrap). done.
  - apply eqx_wr_over with (g rd ≫ (8 * Z.of_nat n)); [|auto with jit].
    rewrite Erd, Z.shiftr_shiftr by lia. f_equal. lia.
Qed.

(** The last byte, and the move of the result to rd. *)
Lemma wp_be_last n c v : be_state n c -> be_acc n (g rd) .| u8 (g rd ≫ (8 * Z.of_nat n)) = v ->
  wp T (emit (rv_andi RV_REG_T1 rd 0xff);; emit (rv_add RV_REG_T2 RV_REG_T2 RV_REG_T1);;
        emit (rv_addi rd RV_REG_T2 0);; ret 0) c
    (fun a c' => a = 0 /\ cmem c' = m /\ eqx (gprs c') (<[rd := v]> g)).
Proof.
  destruct c as [p g1 m1]. intros (Em & E2 & Ex) Hv. cbn [cmem gprs] in *. subst m1.
  assert (g1 rd = g rd ≫ (8 * Z.of_nat n)) as Erd.
  { rewrite (Ex rd) by (unfold bpf_held in Hrd; lia). apply fn_lookup_insert. }
  repeat wstep. split; [done|]. split; [done|]. cbn [gprs]. rsimpl.
  apply eqx_wr_over with (g rd ≫ (8 * Z.of_nat n)); [|auto with jit].
  rewrite E2, and_byte, Erd, be_acc_add by (by apply uint_wrap). change (sgn 12 0) with 0. rewrite Z.add_0_r, Hv.
  subst v. rewrite <- be_acc_add by (by apply uint_wrap). apply wrap_wrap.
Qed.

(** One more byte. *)
Ltac be_byte :=
  lazymatch goal with H : be_state _ ?c |- wp _ (emit_be_byte _) ?c _ =>
    eapply wp_be_byte; [exact H|]; clear H; intros ? ?
  end.

(** dst = be16/32/64(dst) *)
Lemma end_be v : (imm = 16 /\ v = u16 (cpu_to_be16 (g rd))) \/ (imm = 32 /\ v = u32 (cpu_to_be32 (g rd))) \/
    (imm = 64 /\ v = u64 (cpu_to_be64 (g rd))) ->
  computes T (body_of rd rs off imm imm1 i (BPF_ALU .| BPF_END .| BPF_FROM_BE)) rd v g m.
Proof.
  intros Hv p. unfold body_of. pick_case. apply wpc_bind. wstep.
  assert (be_state 0 (Cpu (u64 (p + 4)) (<[RV_REG_T2 := u64 (rget g RV_REG_ZERO + sgn 12 0)]> g) m)) as H0.
  { split; [done|]. cbn [gprs]. rsimpl. split; [done|]. apply eqx_t2. rewrite Z.shiftr_0_r, fn_insert_id; [apply eqx_refl|done]. }
  apply wpc_bind. eapply wp_be_byte; [done|]. clear H0. intros c1 H1.
  destruct Hv as [[-> ->]|[[-> ->]|[-> ->]]]; cbn [Z.eqb Pos.eqb]; apply wpc_bind.
  - apply wp_ret. eapply wp_be_last; [done|]. unfold cpu_to_be16. rewrite swab16_bytes. cbn. byte_masks. zbits.
  - do 2 (apply wpc_bind; be_byte). apply wp_ret.
    eapply wp_be_last; [done|]. unfold cpu_to_be32. rewrite swab32_bytes. cbn. byte_masks. zbits.
  - do 5 (apply wpc_bind; be_byte). be_byte.
    eapply wp_be_last; [done|]. unfold cpu_to_be64. rewrite swab64_bytes. cbn. byte_masks. zbits.
Qed.

(** dst = le16/32/64(dst) *)
Lemma end_le : imm ∈ [16; 32; 64] ->
  computes T (body_of rd rs off imm imm1 i (BPF_ALU .| BPF_END .| BPF_FROM_LE)) rd (wrap imm (g rd)) g m.
Proof.
  intros Hi. unfold body_of. each_of Hi; pick_case; intros p.
  all: match goal with |- context [s32 (64 - ?k)] =>
         let n := eval vm_compute in (s32 (64 - k)) in change (s32 (64 - k)) with n end.
  all: repeat wstep; cbn [gprs cmem]; rsimpl; (split; [done|]); (split; [done|]); (apply eqx_wr; [zbits|auto with jit]).
Qed.

(** dst = imm64 *)
Lemma ld_imm64 p : wp T (body_of rd rs off imm imm1 i (BPF_LD .| BPF_IMM .| BPF_DW)) (Cpu p g m)
  (fun a c' => a = 1 /\ cmem c' = m /\ eqx (gprs c') (<[rd := u32 imm .| u64 (u32 imm1 ≪ 32)]> g)).
Proof.
  unfold body_of.
  replace (switch _ _ _) with (emit_imm rd (s64 (u64 (u64 imm1 ≪ 32) .| u32 imm));; ret 1) by reflexivity.
  pose proof (sgn_range 64 (u64 (u64 imm1 ≪ 32) .| u32 imm) ltac:(lia)).
  repeat wstep. split; [done|]. split; [done|]. cbn [gprs]. apply eqx_wr; [|apply eqx_refl].
  rewrite sgn_wrap. zbits.
Qed.
End bswap.
