(* ===== verification/BpfJit64Jmp.v ===== *)
(** Jumps of the RV64 BPF compiler: the emitted branch is taken exactly when the
    BPF condition holds, and leads to the instruction the offset table gives. *)

From S2P Require Import Prelude Cstring Bytes Bpf BpfSteps Riscv RvEmit RvEnc RvExec BpfJit64 BpfJit64Exec BpfJit64Imm BpfJit64Alu.

Lemma sgn64_s32 x : s64 (s32 x) = s32 x.
Proof. pose proof (sgn_range 32 x ltac:(lia)). apply sgn_small; lia. Qed.

Section jmp.
Context (T : Z -> option Z) (rd rs : Z) (g : Z -> Z) (m : mem).
Hypothesis Hrd : bpf_held rd.
Hypothesis Hrs : bpf_held rs.
Hypothesis Ha : uint 64 (g rd).
Hypothesis Hb : uint 64 (g rs).
Context (off imm imm1 i oi ot : Z).
Hypothesis Himm : - 2 ^ 31 <= imm < 2 ^ 31.
Hypothesis Hoi : T i = Some oi.
Hypothesis Hot : T (i + off) = Some ot.
Hypothesis Eoi : entry_ok oi.
Hypothesis Eot : entry_ok ot.

Abbreviation body := (body_of rd rs off imm imm1 i).

Lemma wp_rv_offset c (Q : Z -> cpu -> Prop) : Q (jmp_dist oi ot) c -> wp T (rv_offset (i + off) i) c Q.
Proof.
  intros HQ. apply wpc_bind. eapply wp_get_offset; [done|]. apply wpc_bind. eapply wp_get_offset; [done|].
  apply wp_ret. by rewrite rv_offset_val.
Qed.

(** The processor after a conditional jump at [pb]. *)
Definition branched (b : bool) (a pb : Z) (c' : cpu) : Prop :=
  a = 0 /\ cmem c' = m /\ eqx (gprs c') g /\ pc c' = if b then u64 (pb + jmp_dist oi ot) else u64 (pb + 4).

Lemma wpj_with_offset k b c : is_13b_int (jmp_dist oi ot) = true ->
  wpj T (k (jmp_dist oi ot ≫ 1)) c (fun _ pb c' => branched b 0 pb c') ->
  wpj T (with_offset off i k) c (branched b).
Proof.
  intros H13 Hk. apply wpj_bind. apply wpc_bind, wp_rv_offset, wp_ret.
  unfold is_13b_check. rewrite H13. cbn [Z.eqb negb]. by apply wpj_ret.
Qed.

(** The final branch instruction, with the condition it evaluates. *)
Lemma branch_to (b b' : bool) p g' k : is_13b_int (jmp_dist oi ot) = true -> k = jmp_dist oi ot ≫ 1 -> b' = b -> eqx g' g ->
  branched b 0 p (Cpu (if b' then u64 (p + sgn 12 k * 2) else u64 (p + 4)) g' m).
Proof.
  intros H13 -> -> Hx. split; [done|]. split; [done|]. split; [done|]. cbn [pc].
  unfold is_13b_int in H13. unfold jmp_dist in *. by rewrite half_dist by lia.
Qed.

Ltac jstep :=
  lazymatch goal with
  | |- wpj _ (bind _ _) _ _ => apply wpj_bind
  | |- wpj _ (emit (rv_beq _ _ _)) _ _ => eapply wpj_emit; [apply x_beq; rvside|]
  | |- wpj _ (emit (rv_bne _ _ _)) _ _ => eapply wpj_emit; [apply x_bne; rvside|]
  | |- wpj _ (emit (rv_bltu _ _ _)) _ _ => eapply wpj_emit; [apply x_bltu; rvside|]
  | |- wpj _ (emit (rv_bgeu _ _ _)) _ _ => eapply wpj_emit; [apply x_bgeu; rvside|]
  | |- wpj _ (emit (rv_blt _ _ _)) _ _ => eapply wpj_emit; [apply x_blt; rvside|]
  | |- wpj _ (emit (rv_bge _ _ _)) _ _ => eapply wpj_emit; [apply x_bge; rvside|]
  | |- wp _ _ _ _ => wstep
  end.

(** Runs the case, leaving the equation between the conditions. *)
Ltac run_jmp H13 :=
  apply (wpj_with_offset _ _ _ H13);
  unfold ext1, ext2, emit_zext_32_rd_rs, emit_sext_32_rd_rs, emit_zext_32_rd_t1, emit_sext_32_rd;
  repeat (jstep; cbn [fst snd]); apply (branch_to _ _ _ _ _ H13); [reflexivity| |cbn [gprs]; auto 10 with jit];
  cbn [jmp_holds]; rsimpl; change (sgn 12 0) with 0; rewrite ?Z.add_0_r, ?Z.gtb_ltb, ?Z.geb_leb.

Lemma jmp_x64 (op : bpf_jmp_op) p : op ∈ cond_ops -> is_13b_int (jmp_dist oi ot) = true ->
  wpj T (body (BPF_JMP .| op .| BPF_X)) (Cpu p g m) (branched (jmp_holds true op (g rd) (g rs))).
Proof.
  intros Hop H13. unfold body_of. each_of Hop; pick_case; run_jmp H13.
  all: rewrite ?(wrap_small 64 (g rd)), ?(wrap_small 64 (g rs)) by assumption; reflexivity.
Qed.

Lemma jmp_x32 (op : bpf_jmp_op) p : op ∈ cond_ops -> is_13b_int (jmp_dist oi ot) = true ->
  wpj T (body (BPF_JMP32 .| op .| BPF_X)) (Cpu p g m) (branched (jmp_holds false op (g rd) (g rs))).
Proof.
  intros Hop H13. unfold body_of. each_of Hop; pick_case; run_jmp H13.
  all: autorewrite with cint; rewrite ?sgn64_s32, ?(sgn_small 64 imm), ?(sgn_small 32 imm) by lia; reflexivity.
Qed.

Lemma jmp_k64 (op : bpf_jmp_op) p : op ∈ cond_ops -> is_13b_int (jmp_dist oi ot) = true ->
  wpj T (body (BPF_JMP .| op .| BPF_K)) (Cpu p g m) (branched (jmp_holds true op (g rd) imm)).
Proof.
  intros Hop H13. unfold body_of. each_of Hop; pick_case; run_jmp H13.
  all: rewrite ?(wrap_small 64 (g rd)) by assumption; autorewrite with cint; reflexivity.
Qed.

Lemma jmp_k32 (op : bpf_jmp_op) p : op ∈ cond_ops -> is_13b_int (jmp_dist oi ot) = true ->
  wpj T (body (BPF_JMP32 .| op .| BPF_K)) (Cpu p g m) (branched (jmp_holds false op (g rd) imm)).
Proof.
  intros Hop H13. unfold body_of. each_of Hop; pick_case; run_jmp H13.
  all: autorewrite with cint; rewrite ?sgn64_s32, ?(sgn_small 64 imm), ?(sgn_small 32 imm) by lia; reflexivity.
Qed.

(** JUMP off *)
Lemma jmp_a p : is_21b_int (jmp_dist oi ot) = true ->
  wpj T (body (BPF_JMP .| BPF_JA)) (Cpu p g m)
    (fun a pb c' => a = 0 /\ c' = Cpu (u64 (pb + jmp_dist oi ot)) g m).
Proof.
  intros H21. unfold body_of. pick_case. apply wpj_bind, wp_rv_offset. rewrite H21. cbn [negb]. apply wpj_ret.
  eapply wpj_emit; [by apply x_jal|]. split; [done|].
  unfold is_21b_int in H21. unfold jmp_dist in *. by rewrite half_dist by lia.
Qed.
End jmp.
