(* ===== verification/BpfJit64Sim.v ===== *)
(** Simulation of one instruction: whatever the interpreter does with a BPF
    instruction, the code emit_insn emits for it does on the processor, with the
    BPF registers in the RISC-V registers of regmap. *)

From S2P Require Import Prelude Cstring Bytes Bpf BpfSteps Riscv RvEmit RvEnc RvExec BpfJit64 BpfJit64Exec BpfJit64Imm BpfJit64Alu BpfJit64Mem.
From S2P Require Import BpfJit64Jmp.

(** * Related states *)

Definition rv_reg (r : Z) : Z := default 0 (regmap !! Z.to_nat r).

Lemma rv_reg_held r : 0 <= r <= 10 -> bpf_held (rv_reg r).
Proof. intros H%reg_cases. each_of H; by vm_compute. Qed.

Lemma rv_reg_lookup r : 0 <= r <= 10 -> regmap !! Z.to_nat r = Some (rv_reg r).
Proof. intros H%reg_cases. each_of H; reflexivity. Qed.

Lemma rv_reg_inj r r' : 0 <= r <= 10 -> 0 <= r' <= 10 -> rv_reg r = rv_reg r' -> r = r'.
Proof. intros H%reg_cases H'%reg_cases. each_of H; each_of H'; by vm_compute. Qed.

(** The registers and the memory of a processor represent those of the
    interpreter; AX is the interpreter's own scratch register. *)
Definition rel (s : bpf_state) (c : cpu) : Prop :=
  cmem c = bmem s /\ forall r, 0 <= r <= 10 -> gprs c (rv_reg r) = bregs s r /\ uint 64 (bregs s r).

Lemma rel_wrote insn s s' c c' v : 0 <= dst_reg insn <= 10 -> rel s c -> wrote insn s s' v -> uint 64 v ->
  cmem c' = cmem c -> eqx (gprs c') (<[rv_reg (dst_reg insn) := v]> (gprs c)) -> rel s' c'.
Proof.
  intros Hd [Em Er] [Wm Wr] Hv Cm Cx. split; [congruence|]. intros r Hr.
  pose proof (rv_reg_held r Hr) as (_ & H1 & H2). rewrite (Cx _ H1 H2), (Wr r Hr), !fn_insert_spec.
  destruct (decide (dst_reg insn = r)) as [->|Hne].
  - by rewrite decide_True.
  - rewrite decide_False by (intros E; by apply rv_reg_inj in E). by apply Er.
Qed.

Lemma rel_same s s' c c' : rel s c -> bregs s' = bregs s -> cmem c' = bmem s' -> eqx (gprs c') (gprs c) -> rel s' c'.
Proof.
  intros [Em Er] Eb Cm Cx. split; [done|]. intros r Hr. pose proof (rv_reg_held r Hr) as (_ & H1 & H2).
  rewrite (Cx _ H1 H2), Eb. by apply Er.
Qed.

(** * The opcodes the compiler supports *)

(** The operations whose 32-bit result the compiler zero-extends, or has no
    need to. *)
Definition zext_x_ops : list bpf_alu_op := [BPF_MOV; BPF_MUL; BPF_DIV; BPF_MOD].
Definition zext_k_ops : list bpf_alu_op :=
  [BPF_MOV; BPF_ADD; BPF_SUB; BPF_AND; BPF_OR; BPF_XOR; BPF_MUL; BPF_DIV; BPF_MOD].

Definition kind_zext (k : kind) : Prop :=
  match k with
  | KAlu false op BPF_X => op ∈ zext_x_ops
  | KAlu false op BPF_K => op ∈ zext_k_ops
  | KNeg is64 => is64 = true
  | _ => True
  end.

Definition low_ops (x : bpf_src) : list bpf_alu_op :=
  match x with
  | BPF_X => [BPF_ADD; BPF_SUB; BPF_AND; BPF_OR; BPF_XOR; BPF_LSH; BPF_RSH; BPF_ARSH]
  | BPF_K => [BPF_LSH; BPF_RSH; BPF_ARSH]
  end.

(** The 32-bit operations whose code in emit_insn does not end in emit_zext_32. *)
Definition kind_low (k : kind) : Prop :=
  match k with
  | KAlu false op x => op ∈ low_ops x
  | KNeg false => True
  | _ => False
  end.

(** Every supported opcode is translated in full, or is one of these. *)
Lemma kind_zext_or_low k : kind_ok k -> kind_zext k \/ kind_low k.
Proof.
  destruct k as [is64 op x|is64|be| |z|z|z|z| |is64 op x]; cbn; auto.
  - unfold alu_ops. destruct is64; [auto|]. intros H. destruct x; apply (bool_decide_unpack _); each_of H; vm_compute; exact I.
  - destruct is64; auto.
Qed.

Definition kind_op (k : kind) : bpf_alu_op := match k with KAlu _ op _ => op | _ => BPF_NEG end.

(** The value the code of such an operation leaves in the destination, when the
    interpreter goes from [s] to [s']; and when that is the interpreter's value. *)
Definition low_result (k : kind) (insn : bpf_insn) (s s' : bpf_state) : Z :=
  low_val (kind_op k) (bregs s (dst_reg insn)) (bregs s (src_reg insn)) (bregs s' (dst_reg insn)).
Definition zero_extended (k : kind) (insn : bpf_insn) (s s' : bpf_state) : Prop :=
  low_exact (kind_op k) (bregs s (dst_reg insn)) (bregs s (src_reg insn)) (bregs s' (dst_reg insn)).

(** What the BPF verifier guarantees of an instruction that is executed. *)
Definition insn_verified (k : kind) (insn : bpf_insn) (s : bpf_state) : Prop :=
  0 <= dst_reg insn <= 10 /\ 0 <= src_reg insn <= 10 /\
  match k with
  | KEnd _ => imm insn ∈ [16; 32; 64]
  | KXadd z => u64 (bregs s (dst_reg insn) + off insn) mod Z.of_nat (size_bytes z) = 0
  | _ => True
  end.

(** * One instruction *)

Lemma cpu_eta c : Cpu (pc c) (gprs c) (cmem c) = c.
Proof. by destruct c. Qed.

Section sim.
Context (T : Z -> option Z) (prog : Z -> option bpf_insn) (insn insn1 : bpf_insn) (s s' : bpf_state) (k : kind) (c : cpu).
Hypothesis Hwf : insn_wf insn.
Hypothesis Hprog : prog (bpc s) = Some insn.
Hypothesis Hstep : bpf_step prog s = Some (Cont s').
Hypothesis Hcode : code insn = kind_code k.
Hypothesis Hkind : kind_ok k.
Hypothesis Hver : insn_verified k insn s.
Hypothesis Hrel : rel s c.

Abbreviation rd := (rv_reg (dst_reg insn)).
Abbreviation rs := (rv_reg (src_reg insn)).
Abbreviation body := (body_of rd rs (off insn) (imm insn) (imm insn1) (bpc s) (kind_code k)).

Lemma sim_regs r : 0 <= r <= 10 -> uint 64 (bregs s r).
Proof. intros Hr. by apply Hrel. Qed.

(** Enumerates the supported opcodes. *)
Ltac kind_cases :=
  destruct k as [is64 op x|is64|be| |z|z|z|z| |is64 op x]; cbn [kind_ok] in Hkind;
  [each_of Hkind; destruct is64, x|destruct is64|destruct be| |destruct z|destruct z|destruct z|destruct Hkind as [-> | ->]|
  |each_of Hkind; destruct is64, x].

(** The operands of the compiled instruction. *)
Lemma wp_init_regs (Q : Z * Z -> cpu -> Prop) : k <> KJa -> Q (rd, rs) c -> wp T (init_regs insn) c Q.
Proof.
  intros Hk HQ. destruct Hver as (Hd & Hs & _).
  assert (has_label (code insn) [BPF_JMP .| BPF_JA; BPF_JMP .| BPF_CALL; BPF_JMP .| BPF_EXIT; BPF_JMP .| BPF_TAIL_CALL] = false) as E1.
  { rewrite Hcode. clear -Hkind Hk. by kind_cases. }
  assert ((code insn .& (BPF_ALU64 .| BPF_X) =? 0) = false) as E2.
  { rewrite Hcode. clear -Hkind. by kind_cases. }
  apply wpc_bind. rewrite E1. unfold bpf_to_rv_reg. rewrite (rv_reg_lookup _ Hd), (rv_reg_lookup _ Hs). apply wp_ret.
  apply wpc_bind. rewrite E2. cbn [negb]. rewrite orb_true_r. cbn [orb]. by do 2 apply wp_ret.
Qed.

(** From the body of the case to the whole of emit_insn. *)
Lemma wp_emit_insn (Q : Z -> cpu -> Prop) : k <> KJa -> wp T body c Q -> wp T (emit_insn insn insn1 (bpc s)) c Q.
Proof. intros Hk HQ. apply wpc_bind, wp_init_regs; [done|]. cbn [fst snd]. by rewrite Hcode. Qed.

Lemma wpj_emit_insn (Q : Z -> Z -> cpu -> Prop) : k <> KJa -> wpj T body c Q -> wpj T (emit_insn insn insn1 (bpc s)) c Q.
Proof. intros Hk HQ. apply wpj_bind, wp_init_regs; [done|]. cbn [fst snd]. by rewrite Hcode. Qed.

(** Instructions that write a register. *)
Lemma sim_computes v : k <> KJa -> wrote insn s s' v -> uint 64 v -> computes T body rd v (gprs c) (cmem c) ->
  wp T (emit_insn insn insn1 (bpc s)) c (fun a c' => a = 0 /\ rel s' c').
Proof.
  intros Hk Hw Hv Hc. apply wp_emit_insn; [done|]. specialize (Hc (pc c)). rewrite cpu_eta in Hc.
  eapply wpc_mono; [apply Hc|]. intros a c' (-> & Em & Ex). split; [done|].
  by apply (rel_wrote insn s s' c c' v); [apply Hver|..].
Qed.

(** The facts about the operands. *)
Ltac operands :=
  pose proof Hver as (Hd & Hs & Hx); pose proof Hwf as (_ & _ & _ & Ho & Hi);
  pose proof Hcode as Hc; pose proof Hkind as Hk;
  destruct (proj2 Hrel _ Hd) as [Ed Ud], (proj2 Hrel _ Hs) as [Es Us];
  pose proof (rv_reg_held _ Hd); pose proof (rv_reg_held _ Hs); pose proof (proj1 Hrel) as Em.

Definition falls (n : Z) : Prop :=
  wp T (emit_insn insn insn1 (bpc s)) c (fun a c' => a = n /\ rel s' c') /\ bpc s' = bpc s + 1 + n.

Lemma sim_alu is64 op x : k = KAlu is64 op x -> kind_zext k -> falls 0.
Proof.
  intros Ek Hz. operands. rewrite Ek in Hc, Hk, Hz. cbn [kind_ok kind_code] in *.
  assert (op <> BPF_NEG /\ op <> BPF_END) as [Hn He] by (unfold alu_ops in Hk; clear -Hk; by each_of Hk).
  destruct (step_alu prog insn s Hprog Hd Hs sim_regs is64 op x s' Hstep Hn He Hc) as (v & Hv & Hw & Hpc).
  split; [|lia]. apply (sim_computes v); [by rewrite Ek|done|exact (alu_val_range _ _ _ _ _ Ud Hv)|]. rewrite Ek.
  destruct x; cbn [src_val] in Hv; rewrite <- ?Ed, <- ?Es in *.
  - destruct is64; cbn [kind_zext] in Hz; [apply alu_k64|apply alu_k32]; done.
  - destruct is64; cbn [kind_zext] in Hz; [apply alu_x64|apply alu_x32]; done.
Qed.

Lemma sim_neg is64 : k = KNeg is64 -> kind_zext k -> falls 0.
Proof.
  intros Ek Hz. operands. rewrite Ek in Hc, Hz. cbn [kind_code kind_zext] in *. subst is64.
  destruct (step_neg prog insn s Hprog Hd true s' Hstep Hc) as (Hw & Hpc). split; [|lia].
  apply (sim_computes _ ltac:(by rewrite Ek) Hw); [by apply uint_wrap|]. rewrite Ek, <- Ed. by apply neg64.
Qed.

(** ** The 32-bit operations without zero-extension *)

Lemma sim_low_step : kind_low k -> exists v, wrote insn s s' v /\ uint 32 v /\ bpc s' = bpc s + 1 /\
  u32 (low_result k insn s s') = v /\ computes T body rd (low_result k insn s s') (gprs c) (cmem c).
Proof.
  intros Hl. operands. destruct k as [[] op x|[]|be| |z|z|z|z| |is64 op x] eqn:Ek; try done; cbn [kind_low kind_code] in *.
  - assert (op <> BPF_NEG /\ op <> BPF_END) as [Hn He] by (clear -Hl; destruct x; by each_of Hl).
    destruct (step_alu prog insn s Hprog Hd Hs sim_regs false op x s' Hstep Hn He Hc) as (v & Hv & Hw & Hpc).
    assert (bregs s' (dst_reg insn) = v) as Ev by (rewrite (proj2 Hw _ Hd); apply fn_lookup_insert).
    exists v. pose proof (alu_val_width false op _ _ v Ud Hv) as Uv. unfold low_result. cbn [kind_op]. rewrite Ev.
    split; [done|]. split; [done|]. split; [done|]. split.
    + apply low_val_u32; [done|]. intros Hop. destruct x; [|done]. exfalso. clear -Hl Hop. set_solver.
    + destruct x; cbn [src_val] in Hv; rewrite <- ?Ed, <- ?Es in *; [by apply alu_k32_low|by apply alu_x32_low].
  - destruct (step_neg prog insn s Hprog Hd false s' Hstep Hc) as (Hw & Hpc).
    assert (bregs s' (dst_reg insn) = u32 (- bregs s (dst_reg insn))) as Ev by (rewrite (proj2 Hw _ Hd); apply fn_lookup_insert).
    eexists. split; [done|]. split; [by apply uint_wrap|]. split; [done|]. unfold low_result. rewrite Ev.
    split; [apply low_val_u32; [by apply uint_wrap|intros Hop; exfalso; clear -Hop; cbn [kind_op] in Hop; set_solver]|].
    rewrite <- Ed, <- Es. by apply neg32_low.
Qed.

(** Where the result needs no zero-extension, the instruction is translated. *)
Lemma low_result_exact v : wrote insn s s' v -> uint 32 v -> u32 (low_result k insn s s') = v ->
  low_result k insn s s' = v <-> zero_extended k insn s s'.
Proof.
  intros Hw Hv E. pose proof Hver as (Hd & Hs & _).
  assert (bregs s' (dst_reg insn) = v) as Ev by (rewrite (proj2 Hw _ Hd); apply fn_lookup_insert).
  unfold low_result, zero_extended in *. rewrite Ev in *. apply low_val_exact; [by apply Hrel..|done|done].
Qed.

Lemma sim_low : kind_low k -> zero_extended k insn s s' -> falls 0.
Proof.
  intros Hl Hz. destruct (sim_low_step Hl) as (v & Hw & Hv & Hpc & Eu & Hc). split; [|lia].
  apply (low_result_exact v Hw Hv Eu) in Hz. rewrite Hz in Hc.
  apply (sim_computes v); [by intros ->|done|by eapply uint_mono; [|done]|done].
Qed.

Lemma sim_end be : k = KEnd be -> falls 0.
Proof.
  intros Ek. operands. rewrite Ek in Hc, Hx. cbn [kind_code] in *.
  destruct (step_end prog insn s Hprog Hd be s' Hstep Hc Hx) as (Hw & Hpc). split; [|lia].
  apply (sim_computes _ ltac:(by rewrite Ek) Hw).
  - clear -Hx. repeat (apply elem_of_cons in Hx as [E|Hx]); [..|by apply not_elem_of_nil in Hx]; rewrite E;
      destruct be; cbn [Z.eqb Pos.eqb]; (eapply uint_mono; [|by apply uint_wrap]; lia).
  - rewrite Ek, <- Ed. destruct be; [|by apply end_le]. apply end_be; [done|]. clear -Hx.
    repeat (apply elem_of_cons in Hx as [E|Hx]); [..|by apply not_elem_of_nil in Hx]; rewrite E; auto.
Qed.

Lemma sim_ldx z : k = KLdx z -> falls 0.
Proof.
  intros Ek. operands. rewrite Ek in Hc. cbn [kind_code] in *.
  destruct (step_ldx prog insn s Hprog Hd Hs z s' Hstep Hc) as (Hw & Hpc). split; [|lia].
  apply (sim_computes _ ltac:(by rewrite Ek) Hw).
  - eapply uint_mono; [apply size_bytes_64|apply load_le_range].
  - rewrite Ek, <- Es, <- Em. by apply ldx.
Qed.

Lemma sim_ld_imm64 : k = KLdImm -> prog (bpc s + 1) = Some insn1 -> falls 1.
Proof.
  intros Ek H1. operands. rewrite Ek in Hc. cbn [kind_code] in *.
  destruct (step_ld_imm64 prog insn s Hprog Hd insn1 s' Hstep Hc H1) as (Hw & Hpc). split; [|lia].
  apply wp_emit_insn; [by rewrite Ek|]. rewrite Ek, <- (cpu_eta c).
  eapply wpc_mono; [by apply ld_imm64|]. intros a c' (-> & Em' & Ex). split; [done|].
  eapply (rel_wrote insn s s' c c'); [done|done|done| |done|done].
  apply uint_lor; [lia| |by apply uint_wrap]. eapply uint_mono; [|by apply uint_wrap]. lia.
Qed.

(** Instructions that write memory. *)
Lemma sim_stored m : k <> KJa -> stored_bpf s s' m ->
  wp T body c (fun a c' => a = 0 /\ cmem c' = m /\ eqx (gprs c') (gprs c)) -> falls 0.
Proof.
  intros Hk (Em & Er & Hpc) Hb. split; [|lia]. apply wp_emit_insn; [done|]. eapply wpc_mono; [apply Hb|].
  intros a c' (-> & Em' & Ex). split; [done|]. eapply rel_same; [apply Hrel|done|congruence|done].
Qed.

Lemma sim_st z : k = KSt z -> falls 0.
Proof.
  intros Ek. operands. rewrite Ek in Hc. cbn [kind_code] in *.
  pose proof (step_st prog insn s Hprog Hd z s' Hstep Hc) as Hw.
  apply (sim_stored _ ltac:(by rewrite Ek) Hw). rewrite Ek, <- Ed, <- Em, <- (cpu_eta c). by apply st.
Qed.

Lemma sim_stx z : k = KStx z -> falls 0.
Proof.
  intros Ek. operands. rewrite Ek in Hc. cbn [kind_code] in *.
  pose proof (step_stx prog insn s Hprog Hd Hs z s' Hstep Hc) as Hw.
  apply (sim_stored _ ltac:(by rewrite Ek) Hw). rewrite Ek, <- Ed, <- Es, <- Em, <- (cpu_eta c). by apply stx.
Qed.

Lemma sim_xadd z : k = KXadd z -> falls 0.
Proof.
  intros Ek. operands. rewrite Ek in Hc, Hk, Hx. cbn [kind_code kind_ok] in *.
  pose proof (step_xadd prog insn s Hprog Hd Hs z s' Hstep Hk Hc) as Hw.
  apply (sim_stored _ ltac:(by rewrite Ek) Hw). rewrite Ek, <- Es, <- Em. rewrite <- Ed in *. rewrite <- (cpu_eta c).
  by apply xadd.
Qed.

(** Jumps. *)
Definition jumped (oi ot : Z) : Prop :=
  wpj T (emit_insn insn insn1 (bpc s)) c (fun a pb c' => a = 0 /\ rel s' c' /\
    ((bpc s' = bpc s + 1 /\ pc c' = u64 (pb + 4)) \/
     (bpc s' = bpc s + off insn + 1 /\ pc c' = u64 (pb + jmp_dist oi ot)))).

Lemma wpj_mono {A} (m : M A) c0 (Q Q' : A -> Z -> cpu -> Prop) :
  wpj T m c0 Q -> (forall a pb c', Q a pb c' -> Q' a pb c') -> wpj T m c0 Q'.
Proof. intros (a & pb & c' & H & HQ) HI. exists a, pb, c'. auto. Qed.

Lemma sim_jmp is64 op x oi ot : k = KJmp is64 op x -> T (bpc s) = Some oi -> T (bpc s + off insn) = Some ot ->
  entry_ok oi -> entry_ok ot -> is_13b_int (jmp_dist oi ot) = true -> jumped oi ot.
Proof.
  intros Ek Hoi Hot Eoi Eot H13. operands. rewrite Ek in Hc, Hk. cbn [kind_ok kind_code] in *.
  destruct (step_jmp prog insn s Hprog Hd Hs is64 op x s' Hstep Hk Hc) as (Wm & Wr & Hpc).
  apply wpj_emit_insn; [by rewrite Ek|]. rewrite Ek.
  assert (wpj T (body_of rd rs (off insn) (imm insn) (imm insn1) (bpc s) (kind_code (KJmp is64 op x))) c
    (branched (gprs c) (cmem c) oi ot (jmp_holds is64 op (bregs s (dst_reg insn)) (src_val insn s x)))) as Hb.
  { destruct x; cbn [src_val]; rewrite <- ?Ed, <- ?Es in *; rewrite <- (cpu_eta c).
    - destruct is64; [apply jmp_k64|apply jmp_k32]; done.
    - destruct is64; [apply jmp_x64|apply jmp_x32]; done. }
  eapply wpj_mono; [apply Hb|]. intros a pb c' (-> & Em' & Ex & Ep). split; [done|]. split.
  - eapply rel_same; [apply Hrel|done|congruence|done].
  - destruct (jmp_holds _ _ _ _); [by right|by left].
Qed.

Lemma sim_ja oi ot : k = KJa -> T (bpc s) = Some oi -> T (bpc s + off insn) = Some ot ->
  entry_ok oi -> entry_ok ot -> is_21b_int (jmp_dist oi ot) = true -> jumped oi ot.
Proof.
  intros Ek Hoi Hot Eoi Eot H21. operands. rewrite Ek in Hc. cbn [kind_code] in *.
  destruct (step_ja prog insn s Hprog s' Hstep Hc) as (Wm & Wr & Hpc).
  apply wpj_bind. apply wpc_bind. rewrite Hc. apply wp_ret. apply wpc_bind.
  unfold bpf_to_rv_reg. rewrite (rv_reg_lookup _ Hs). do 2 apply wp_ret. cbn [fst snd].
  rewrite <- (cpu_eta c) at 1. eapply wpj_mono; [by apply (jmp_a T 255 rs (gprs c) (cmem c) (off insn) (imm insn) (imm insn1) (bpc s) oi ot)|].
  intros a pb c' (-> & ->). split; [done|]. split; [|by right].
  eapply rel_same; [apply Hrel|done|cbn; congruence|apply eqx_refl].
Qed.
End sim.
