(* ===== verification/BpfJit64Count.v ===== *)
(** Emission counts of the RV64 BPF compiler. The number of instructions emitted
    for a BPF instruction depends on that instruction alone: not on its
    position, on the offset table, or on whether there is a buffer. A first pass
    without a buffer therefore computes the layout of the second. *)

From S2P Require Import Prelude Cstring Bytes Bitops Bpf BpfSteps Riscv RvEmit RvEnc RvExec BpfJit64 BpfJit64Exec BpfJit64Imm BpfJit64Alu BpfJit64Jmp BpfJit64Sim.

(** [m] emits [n] instructions whenever it is defined. *)
Definition steady {A} (m : M A) (n : nat) : Prop :=
  forall ctx a ctx', m ctx = Some (a, ctx') -> exists ws, length ws = n /\ ctx' = emit_all ws ctx.

(** The outcomes of emit_insn: an error that leaves the context alone, or [n]
    instructions. *)
Definition steady_result (m : M Z) (n : nat) : Prop :=
  forall ctx a ctx', m ctx = Some (a, ctx') ->
    (a = -1 /\ ctx' = ctx) \/ (0 <= a <= 1 /\ exists ws, length ws = n /\ ctx' = emit_all ws ctx).

Lemma steady_ret {A} (a : A) : steady (ret a) 0.
Proof. intros ctx b ctx' [= <- <-]. by exists []. Qed.

Lemma steady_emit w : steady (emit w) 1.
Proof. intros ctx b ctx' [= <- <-]. by exists [w]. Qed.

Lemma steady_bind {A B} (m : M A) (k : A -> M B) n n' :
  steady m n -> (forall a, steady (k a) n') -> steady (bind m k) (n + n').
Proof.
  intros Hm Hk ctx b ctx'. unfold bind. destruct (m ctx) as [[a ctx1]|] eqn:E; [|done]. cbn.
  apply Hm in E as (ws & <- & ->). intros (ws' & <- & ->)%Hk. exists (ws ++ ws').
  rewrite length_app. unfold emit_all. by rewrite foldl_app.
Qed.

Lemma steady_when b (m : M unit) n : steady m n -> steady (when b m) (if b then n else 0).
Proof. destruct b; [done|]. intros _. apply steady_ret. Qed.

Lemma steady_zext r : steady (emit_zext_32 r) 2.
Proof. apply (steady_bind _ _ 1 1); [apply steady_emit|intros; apply steady_emit]. Qed.

Lemma steady_get_offset k : steady (get_offset k) 0.
Proof. intros ctx a ctx'. unfold get_offset. destruct (offset ctx k); [|done]. intros [= <- <-]. by exists []. Qed.

(** The instructions of emit_imm. *)
Fixpoint imm_count (fuel : nat) (val : Z) : nat :=
  match fuel with
  | O => 0
  | S fuel =>
      let upper := s64 (val + 2 ^ 11) ≫ 12 in
      if is_32b_int val then (if negb (upper =? 0) then 1 else 0) + 1
      else imm_count fuel (upper ≫ __ffs (u64 upper)) + (1 + (if negb (val .& 0xfff =? 0) then 1 else 0))
  end.

Lemma steady_imm_rec fuel rd val : steady (emit_imm_rec fuel rd val) (imm_count fuel val).
Proof.
  revert val. induction fuel as [|fuel IH]; intros val; [by intros ctx a ctx'|]. cbn [emit_imm_rec imm_count].
  destruct (is_32b_int val).
  - apply steady_bind; [apply steady_when, steady_emit|]. intros _. destruct (_ =? 0); apply steady_emit.
  - apply steady_bind; [apply IH|]. intros _. apply (steady_bind _ _ 1); [apply steady_emit|]. intros _.
    apply steady_when, steady_emit.
Qed.

Lemma imm_count_le fuel val : (imm_count fuel val <= 2 * fuel)%nat.
Proof.
  revert val. induction fuel as [|fuel IH]; intros val; [done|]. cbn [imm_count].
  destruct (is_32b_int val); [destruct (negb _); lia|].
  specialize (IH ((s64 (val + 2 ^ 11) ≫ 12) ≫ __ffs (u64 (s64 (val + 2 ^ 11) ≫ 12)))). destruct (negb _); lia.
Qed.

Lemma steady_imm rd val : steady (emit_imm rd val) (imm_count 4 val).
Proof. apply steady_imm_rec. Qed.

(** ** Results *)

(** [n] instructions and a result without error. *)
Definition steady_ok (m : M Z) (n : nat) : Prop :=
  forall ctx a ctx', m ctx = Some (a, ctx') -> 0 <= a <= 1 /\ exists ws, length ws = n /\ ctx' = emit_all ws ctx.

Lemma ok_ret b : 0 <= b <= 1 -> steady_ok (ret b) 0.
Proof. intros Hb ctx a ctx' [= <- <-]. split; [done|]. by exists []. Qed.

Lemma ok_bind {A} (m : M A) (k : A -> M Z) n n' :
  steady m n -> (forall a, steady_ok (k a) n') -> steady_ok (bind m k) (n + n').
Proof.
  intros Hm Hk ctx b ctx'. unfold bind. destruct (m ctx) as [[a ctx1]|] eqn:E; [|done]. cbn.
  apply Hm in E as (ws & <- & ->). intros (Hb & ws' & <- & ->)%Hk. split; [done|]. exists (ws ++ ws').
  rewrite length_app. unfold emit_all. by rewrite foldl_app.
Qed.

Lemma result_ok m n : steady_ok m n -> steady_result m n.
Proof. intros H ctx a ctx' E. right. by eapply H. Qed.

Lemma result_error n : steady_result (ret (-1)) n.
Proof. intros ctx a ctx' [= <- <-]. by left. Qed.

Lemma result_bind {A} (m : M A) (k : A -> M Z) n : steady m 0 -> (forall a, steady_result (k a) n) ->
  steady_result (bind m k) n.
Proof.
  intros Hm Hk ctx b ctx'. unfold bind. destruct (m ctx) as [[a ctx1]|] eqn:E; [|done]. cbn.
  apply Hm in E as (ws & Hl & ->). destruct ws; [|done]. apply Hk.
Qed.

Lemma steady_rv_offset a b : steady (rv_offset a b) 0.
Proof.
  apply (steady_bind _ _ 0 0); [apply steady_get_offset|]. intros ?.
  apply (steady_bind _ _ 0 0); [apply steady_get_offset|]. intros ?. apply steady_ret.
Qed.

(** A conditional jump is an error, or the code that follows the check. *)
Lemma result_with_offset off i k n : (forall o, steady (k o) n) -> steady_result (with_offset off i k) n.
Proof.
  intros Hk. apply result_bind.
  - apply (steady_bind _ _ 0 0); [apply steady_rv_offset|]. intros ?. apply steady_ret.
  - intros [o err]. destruct (negb _); [apply result_error|]. apply result_ok. rewrite <- (Nat.add_0_r n).
    apply ok_bind; [apply Hk|]. intros _. by apply ok_ret.
Qed.

Lemma steady_to_reg r : steady (bpf_to_rv_reg r) 0.
Proof. intros ctx a ctx'. unfold bpf_to_rv_reg. destruct (_ !! _); [|done]. intros [= <- <-]. by exists []. Qed.

Lemma steady_init_regs insn : steady (init_regs insn) 0.
Proof.
  apply (steady_bind _ _ 0 0); [destruct (has_label _ _); [apply steady_ret|apply steady_to_reg]|]. intros rd.
  apply (steady_bind _ _ 0 0); [destruct (_ || _); [apply steady_to_reg|apply steady_ret]|]. intros rs. apply steady_ret.
Qed.

Lemma steady_if {A} (b : bool) (m m' : M A) n n' : steady m n -> steady m' n' ->
  steady (if b then m else m') (if b then n else n').
Proof. by destruct b. Qed.

Lemma ok_if (b : bool) (m m' : M Z) n n' : steady_ok m n -> steady_ok m' n' ->
  steady_ok (if b then m else m') (if b then n else n').
Proof. by destruct b. Qed.

Ltac count_step :=
  lazymatch goal with
  | |- steady (bind _ _) _ => eapply steady_bind; [|intros ?]
  | |- steady (ret _) _ => apply steady_ret
  | |- steady (emit _) _ => apply steady_emit
  | |- steady (when _ _) _ => eapply steady_when
  | |- steady (emit_zext_32 _) _ => apply steady_zext
  | |- steady (emit_imm _ _) _ => apply steady_imm
  | |- steady_ok (bind _ _) _ => eapply ok_bind; [|intros ?]
  | |- steady_ok (ret _) _ => by apply ok_ret
  | |- steady (if _ then _ else _) _ => eapply steady_if
  | |- steady_ok (if _ then _ else _) _ => eapply ok_if
  | |- steady_result (with_offset _ _ _) _ => eapply result_with_offset; intros ?
  | |- steady_result _ _ => apply result_ok
  end.

(** ** The opcodes *)

Lemma switch_default {A} c (cases : list (list Z * A)) d :
  (forall ls, ls ∈ cases.*1 -> has_label c ls = false) -> switch c cases d = d.
Proof.
  induction cases as [|[ls b] cases IH]; intros H; cbn; [done|].
  rewrite (H ls) by (cbn; by apply elem_of_cons; left). apply IH. intros l Hl. apply H. cbn. by apply elem_of_cons; right.
Qed.

(** Counts the instructions of a case, and bounds the count. *)
Ltac count_bound :=
  repeat match goal with
    | |- context [imm_count 4 ?v] => let n := fresh "n" in
        pose proof (imm_count_le 4 v); set (n := imm_count 4 v) in *; clearbody n
    | |- context [if ?b then _ else _] => destruct b
    end; cbn [Nat.add Nat.le Nat.mul] in *; lia.

Ltac count_case :=
  cbn [alu_class jmp_class]; eexists; (split; [|intros rd rs i; pick_case;
    unfold ldx_case, st_case, stx_case, ext1, ext2, emit_zext_32_rd_rs, emit_sext_32_rd_rs, emit_zext_32_rd_t1,
      emit_sext_32_rd, emit_be_byte; cbv zeta; repeat count_step]); count_bound.

Lemma count_kind k insn insn1 : kind_ok k -> exists n, (n <= 32)%nat /\
  forall rd rs i, steady_result (body_of rd rs (off insn) (imm insn) (imm insn1) i (kind_code k)) n.
Proof.
  intros Hkind. unfold body_of. 
  destruct k as [is64 op x|is64|be| |z|z|z|z| |is64 op x]; cbn [kind_ok kind_code] in *.
  - unfold alu_ops in Hkind. each_of Hkind; destruct is64, x; count_case.
  - destruct is64; count_case.
  - destruct be; count_case.
  - count_case.
  - destruct z; count_case.
  - destruct z; count_case.
  - destruct z; count_case.
  - destruct Hkind as [-> | ->]; count_case.
  - exists 1%nat. split; [lia|]. intros rd rs i. pick_case. apply result_bind; [apply steady_rv_offset|].
    intros o. destruct (negb _); [apply result_error|]. apply result_ok. apply (ok_bind _ _ 1 0); [apply steady_emit|intros _; by apply ok_ret].
  - each_of Hkind; destruct is64, x; count_case.
Qed.

(** The opcodes of the cases, and the supported ones. *)
Definition jit_labels : list Z := concat ((emit_cases 0 0 0 0 0 0 0).*1).

Lemma emit_cases_labels c off imm imm1 i rd rs : (emit_cases c off imm imm1 i rd rs).*1 = (emit_cases 0 0 0 0 0 0 0).*1.
Proof. reflexivity. Qed.

Definition all_kinds : list kind :=
  flat_map (fun is64 => flat_map (fun op => [KAlu is64 op BPF_X; KAlu is64 op BPF_K]) alu_ops) [true; false] ++
  [KNeg true; KNeg false; KEnd true; KEnd false; KLdImm; KJa; KXadd BPF_W; KXadd BPF_DW] ++
  flat_map (fun z => [KLdx z; KSt z; KStx z]) sizes ++
  flat_map (fun is64 => flat_map (fun op => [KJmp is64 op BPF_X; KJmp is64 op BPF_K]) cond_ops) [true; false].

#[global] Instance kind_ok_dec k : Decision (kind_ok k).
Proof. destruct k; cbn [kind_ok]; apply _. Defined.

Lemma all_kinds_ok k : k ∈ all_kinds -> kind_ok k.
Proof. revert k. apply Forall_forall. apply (bool_decide_unpack _). vm_compute. exact I. Qed.

Lemma has_label_true c ls : has_label c ls = true -> c ∈ ls.
Proof.
  unfold has_label. rewrite existsb_exists. intros (l & Hl & E). destruct (Z.compare_spec c l); [|done..].
  subst l. by apply list_elem_of_In.
Qed.

(** An opcode that no kind has falls through to the default case. *)
Lemma kind_or_default c : (exists k, kind_ok k /\ c = kind_code k) \/
  forall off imm imm1 i rd rs, body_of rd rs off imm imm1 i c = ret (-1).
Proof.
  destruct (decide (c ∈ map kind_code all_kinds)) as [H|H].
  - left. apply list_elem_of_fmap in H as (k & -> & Hk). exists k. split; [by apply all_kinds_ok|done].
  - right. intros. apply switch_default. rewrite emit_cases_labels. intros ls Hls.
    destruct (has_label c ls) eqn:E; [|done]. destruct H.
    assert (forall x, x ∈ jit_labels -> x ∈ map kind_code all_kinds) as Hsub
      by (apply Forall_forall; apply (bool_decide_unpack _); vm_compute; exact I).
    apply Hsub. apply list_elem_of_In, in_concat. exists ls. split; apply list_elem_of_In; [done|by apply has_label_true].
Qed.

(** * The RV64 BPF compiler returns on every instruction: the recursion of
    emit_imm ends, and every array access of a well-formed instruction is in
    bounds once its two table entries are there. *)

Section total.
Context (T : Z -> option Z).

(** [m] is defined whenever the offset table is [T], and leaves the table alone. *)
Definition total {A} (m : M A) : Prop :=
  forall ctx, offset ctx = T -> exists a ctx', m ctx = Some (a, ctx') /\ offset ctx' = T.

Lemma total_ret {A} (a : A) : total (ret a).
Proof. intros ctx H. by exists a, ctx. Qed.

Lemma total_emit w : total (emit w).
Proof. intros ctx H. by exists (), (emit_ctx ctx w). Qed.

Lemma total_bind {A B} (m : M A) (k : A -> M B) : total m -> (forall a, total (k a)) -> total (bind m k).
Proof.
  intros Hm Hk ctx H. destruct (Hm ctx H) as (a & ctx1 & E & H1). destruct (Hk a ctx1 H1) as (b & ctx2 & E2 & H2).
  exists b, ctx2. unfold bind. by rewrite E.
Qed.

Lemma total_when b (m : M unit) : total m -> total (when b m).
Proof. destruct b; [done|]. intros _. apply total_ret. Qed.

Lemma total_if {A} (b : bool) (m m' : M A) : total m -> total m' -> total (if b then m else m').
Proof. by destruct b. Qed.

Lemma total_zext r : total (emit_zext_32 r).
Proof. apply total_bind; [apply total_emit|intros; apply total_emit]. Qed.

Lemma total_get_offset k : (exists o, T k = Some o) -> total (get_offset k).
Proof. intros [o Ho] ctx H. exists o, ctx. unfold get_offset. by rewrite H, Ho. Qed.

(** Whether emit_imm is defined does not depend on the register. *)
Lemma imm_rec_defined fuel rd rd' val ctx a ctx' : emit_imm_rec fuel rd val ctx = Some (a, ctx') ->
  exists ctx2, emit_imm_rec fuel rd' val ctx = Some (a, ctx2) /\ offset ctx2 = offset ctx.
Proof.
  revert val ctx a ctx'. induction fuel as [|fuel IH]; intros val ctx a ctx'; [done|]. cbn [emit_imm_rec].
  destruct (is_32b_int val).
  - intros _. destruct (negb _), (_ =? 0), a; cbn; eexists; split; reflexivity.
  - unfold bind at 1. destruct (emit_imm_rec fuel rd _ ctx) as [[b ctx1]|] eqn:E; [|done]. intros _.
    apply IH in E as (ctx2 & E & Ho). unfold bind at 1. rewrite E, <- Ho. destruct (negb _), a; cbn; eexists; split; reflexivity.
Qed.

Lemma total_imm rd val : - 2 ^ 63 <= val < 2 ^ 63 -> total (emit_imm rd val).
Proof.
  intros Hv ctx H. 
  destruct (emit_imm_spec T 1 ltac:(done) ltac:(done) val 0 (fun _ => 0) (fun _ => 0) Hv) as (p & ws & Em & _).
  specialize (Em ctx H). apply (imm_rec_defined 4 1 rd) in Em as (ctx2 & E & Ho). exists (), ctx2. by rewrite Ho.
Qed.

Context (off imm imm1 i : Z).
Hypothesis Hoff : - 2 ^ 15 <= off < 2 ^ 15.
Hypothesis Himm : - 2 ^ 31 <= imm < 2 ^ 31.
Hypothesis Hoi : exists o, T i = Some o.
Hypothesis Hot : exists o, T (i + off) = Some o.

Lemma total_rv_offset : total (rv_offset (i + off) i).
Proof.
  apply total_bind; [by apply total_get_offset|]. intros ?.
  apply total_bind; [by apply total_get_offset|]. intros ?. apply total_ret.
Qed.

Lemma total_with_offset k : (forall o, total (k o)) -> total (with_offset off i k).
Proof.
  intros Hk. apply total_bind; [apply total_bind; [apply total_rv_offset|intros; apply total_ret]|].
  intros [o err]. apply total_if; [apply total_ret|]. apply total_bind; [apply Hk|intros; apply total_ret].
Qed.

Ltac total_step :=
  lazymatch goal with
  | |- total (bind _ _) => apply total_bind; [|intros ?]
  | |- total (ret _) => apply total_ret
  | |- total (emit _) => apply total_emit
  | |- total (when _ _) => apply total_when
  | |- total (if _ then _ else _) => apply total_if
  | |- total (emit_zext_32 _) => apply total_zext
  | |- total (emit_imm _ _) => apply total_imm; first [lia|apply (sgn_range 64); lia]
  | |- total (with_offset _ _ _) => apply total_with_offset; intros ?
  | |- total (rv_offset _ _) => apply total_rv_offset
  end.

Ltac total_case :=
  cbn [alu_class jmp_class]; pick_case;
  unfold ldx_case, st_case, stx_case, ext1, ext2, emit_zext_32_rd_rs, emit_sext_32_rd_rs, emit_zext_32_rd_t1,
    emit_sext_32_rd, emit_be_byte; cbv zeta; repeat total_step.

Lemma total_kind k rd rs : kind_ok k -> total (body_of rd rs off imm imm1 i (kind_code k)).
Proof.
  intros Hkind. unfold body_of.
  destruct k as [is64 op x|is64|be| |z|z|z|z| |is64 op x]; cbn [kind_ok kind_code] in *.
  - unfold alu_ops in Hkind. each_of Hkind; destruct is64, x; total_case.
  - destruct is64; total_case.
  - destruct be; total_case.
  - total_case.
  - destruct z; total_case.
  - destruct z; total_case.
  - destruct z; total_case.
  - destruct Hkind as [-> | ->]; total_case.
  - total_case.
  - each_of Hkind; destruct is64, x; total_case.
Qed.

Lemma total_body c rd rs : total (body_of rd rs off imm imm1 i c).
Proof.
  destruct (kind_or_default c) as [(k & Hk & ->)|H]; [by apply total_kind|]. rewrite H. apply total_ret.
Qed.
End total.

Lemma total_init_regs T insn : 0 <= dst_reg insn <= 10 -> 0 <= src_reg insn <= 10 -> total T (init_regs insn).
Proof.
  intros Hd Hs. unfold init_regs, bpf_to_rv_reg. rewrite (rv_reg_lookup _ Hd), (rv_reg_lookup _ Hs).
  apply total_bind; [apply total_if; apply total_ret|]. intros rd.
  apply total_bind; [apply total_if; apply total_ret|]. intros rs. apply total_ret.
Qed.

Lemma total_emit_insn T insn insn1 i : insn_wf insn -> 0 <= dst_reg insn <= 10 -> 0 <= src_reg insn <= 10 ->
  (exists o, T i = Some o) -> (exists o, T (i + off insn) = Some o) -> total T (emit_insn insn insn1 i).
Proof.
  intros (_ & _ & _ & Ho & Hi) Hd Hs Hoi Hot. apply total_bind; [by apply total_init_regs|]. intros [rd rs].
  by apply total_body.
Qed.
