(* ===== verification/BpfJit64Props.v ===== *)
(** The theorems on the RV64 BPF compiler: layout, immediates, simulation of
    instructions and of programs, and exactly when the 32-bit operations whose
    results are not zero-extended are right. *)

From S2P Require Import Prelude Cstring Bytes Bpf BpfSteps Riscv RvEmit RvEnc RvExec BpfJit64 BpfJit64Exec BpfJit64Imm BpfJit64Alu.
From S2P Require Import BpfJit64Mem BpfJit64Jmp BpfJit64Sim BpfJit64Count.

(** * Running the output buffer *)

(** Running words that are in the code array, in sequence. *)
Lemma run_steps code base n ws c c' : 0 <= n -> 4 * (n + Z.of_nat (length ws)) < 2 ^ 64 ->
  (forall j w, ws !! j = Some w -> code (n + Z.of_nat j) = w) ->
  pc c = u64 (base + 4 * n) -> run (pc c) ws c = Some c' -> rv_steps 64 code base (length ws) c = Some c'.
Proof.
  revert n c. induction ws as [|w ws IH]; intros n c Hn Hl Hw Hpc; cbn [run length rv_steps]; [done|].
  rewrite Z.eqb_refl. destruct (exec_word 64 w c) as [c1|] eqn:E; [|done]. cbn [mbind option_bind]. intros R.
  assert (rv_step 64 code base c = Some c1) as ->.
  { unfold rv_step. assert (wrap 64 (pc c - base) = 4 * n) as ->.
    { rewrite Hpc, wrap_sub_l. replace (base + 4 * n - base) with (4 * n) by lia. apply wrap_small. cbn [length] in Hl. lia. }
    replace (4 * n) with (n * 4) by lia. rewrite Z_mod_mult, Z.div_mul by lia. cbn [Z.eqb].
    specialize (Hw 0%nat w eq_refl). rewrite Z.add_0_r in Hw. by rewrite Hw. }
  cbn. destruct ws as [|w' ws]; [by injection R as <-|].
  cbn [run] in R. destruct (Z.eqb_spec (pc c1) (u64 (pc c + 4))) as [Ep|]; [|done].
  apply (IH (n + 1)); [lia|cbn [length] in *; lia| | |].
  - intros j x Hx. rewrite <- (Hw (S j) x Hx). f_equal. lia.
  - rewrite Ep, Hpc, wrap_add_l. f_equal. lia.
  - cbn [run]. rewrite Z.eqb_refl, Ep. done.
Qed.

(** * One instruction *)

(** The step from [s] to [s'] executes an opcode that the compiler supports, as the
    verifier accepts it, and if the opcode is one whose 32-bit result the compiler
    forgets to zero-extend, the result needs no zero-extension. *)
Definition jit_pre (insn : bpf_insn) (s s' : bpf_state) : Prop :=
  exists k, kind_ok k /\ code insn = kind_code k /\ insn_verified k insn s /\ (kind_low k -> zero_extended k insn s s').

Lemma with_offset_ok off i k ctx r ctx' : with_offset off i k ctx = Some (r, ctx') -> 0 <= r ->
  exists oi ot, offset ctx i = Some oi /\ offset ctx (i + off) = Some ot /\
    is_13b_int (s32 (s32 (ot - s32 (oi - 1)) ≪ 2)) = true.
Proof.
  unfold with_offset, rv_offset_check, rv_offset, bind, get_offset.
  destruct (offset ctx i) as [oi|]; [|done]. cbn. destruct (offset ctx (i + off)) as [ot|]; [|done]. cbn.
  unfold is_13b_check. destruct (is_13b_int _) eqn:E; cbn; [by exists oi, ot|]. intros [= <- _]. lia.
Qed.

Lemma jmp_body is64 (op : bpf_jmp_op) (x : bpf_src) rd rs off imm imm1 i : op ∈ cond_ops -> exists k,
  body_of rd rs off imm imm1 i (jmp_class is64 .| op .| x) = with_offset off i k.
Proof.
  intros H. unfold body_of. each_of H; destruct is64, x; cbn [jmp_class]; pick_case; by eexists.
Qed.

Lemma emit_insn_body insn insn1 i ctx r ctx' : emit_insn insn insn1 i ctx = Some (r, ctx') ->
  exists rd rs, body_of rd rs (off insn) (imm insn) (imm insn1) i (code insn) ctx = Some (r, ctx').
Proof.
  unfold emit_insn, bind. destruct (init_regs insn ctx) as [[[rd rs] ctx1]|] eqn:E; [|done].
  apply steady_init_regs in E as ([|] & Hl & ->); [|done]. intros H. by exists rd, rs.
Qed.

(** A compiled conditional jump had its offsets in the table and in range. *)
Lemma jmp_emitted is64 (op : bpf_jmp_op) (x : bpf_src) insn insn1 i ctx r ctx' : op ∈ cond_ops -> code insn = jmp_class is64 .| op .| x ->
  emit_insn insn insn1 i ctx = Some (r, ctx') -> 0 <= r -> exists oi ot,
    offset ctx i = Some oi /\ offset ctx (i + off insn) = Some ot /\ is_13b_int (s32 (s32 (ot - s32 (oi - 1)) ≪ 2)) = true.
Proof.
  intros Hop Hc (rd & rs & E)%emit_insn_body Hr. rewrite Hc in E.
  destruct (jmp_body is64 op x rd rs (off insn) (imm insn) (imm insn1) i Hop) as [k Ek]. rewrite Ek in E.
  by apply with_offset_ok in E.
Qed.

Lemma ja_emitted insn insn1 i ctx r ctx' : code insn = BPF_JMP .| BPF_JA ->
  emit_insn insn insn1 i ctx = Some (r, ctx') -> 0 <= r -> exists oi ot,
    offset ctx i = Some oi /\ offset ctx (i + off insn) = Some ot /\ is_21b_int (s32 (s32 (ot - s32 (oi - 1)) ≪ 2)) = true.
Proof.
  intros Hc (rd & rs & E)%emit_insn_body Hr. rewrite Hc in E. revert E. unfold body_of. pick_case.
  unfold rv_offset, bind, get_offset.
  destruct (offset ctx i) as [oi|]; [|done]. cbn. destruct (offset ctx (i + off insn)) as [ot|]; [|done]. cbn.
  destruct (is_21b_int _) eqn:E; cbn; [by exists oi, ot|]. intros [= <- _]. lia.
Qed.

Section insn.
Context (prog : Z -> option bpf_insn) (insn insn1 : bpf_insn) (s s' : bpf_state) (c : cpu).
Context (ctx ctx' : rv_jit_context) (r : Z).
Hypothesis Hwf : insn_wf insn.
Hypothesis Hprog : prog (bpc s) = Some insn.
Hypothesis Hnext : code insn = BPF_LD .| BPF_IMM .| BPF_DW -> prog (bpc s + 1) = Some insn1.
Hypothesis Hpre : jit_pre insn s s'.
Hypothesis Htab : forall j o, offset ctx j = Some o -> entry_ok o.
Hypothesis Hemit : emit_insn insn insn1 (bpc s) ctx = Some (r, ctx').
Hypothesis Hr : 0 <= r.
Hypothesis Hstep : bpf_step prog s = Some (Cont s').
Hypothesis Hrel : rel s c.

(** What the emitted words do. *)
Definition insn_outcome (ws : list Z) (c' : cpu) : Prop :=
  ctx' = emit_all ws ctx /\ run (pc c) ws c = Some c' /\ rel s' c' /\
  ((bpc s' = bpc s + 1 + r /\ pc c' = adv (pc c) (length ws)) \/
   (ws <> [] /\ r = 0 /\ exists oi ot, offset ctx (bpc s) = Some oi /\ offset ctx (bpc s + off insn) = Some ot /\
      let pb := adv (pc c) (pred (length ws)) in
      (bpc s' = bpc s + 1 /\ pc c' = u64 (pb + 4)) \/
      (bpc s' = bpc s + off insn + 1 /\ pc c' = u64 (pb + jmp_dist oi ot)))).

Lemma falls_outcome n : falls (offset ctx) insn insn1 s s' c n -> exists ws c', insn_outcome ws c'.
Proof.
  intros ((a & c' & (ws & Em & R & P) & -> & Rel) & Hpc). exists ws, c'. specialize (Em ctx eq_refl).
  rewrite Hemit in Em. injection Em as Er Ec. split; [done|]. split; [done|]. split; [done|]. left. by rewrite Er.
Qed.

Lemma jumped_outcome oi ot : offset ctx (bpc s) = Some oi -> offset ctx (bpc s + off insn) = Some ot ->
  jumped (offset ctx) insn insn1 s s' c oi ot -> exists ws c', insn_outcome ws c'.
Proof.
  intros Hoi Hot (a & pb & c' & (ws & Em & R & N & ->) & -> & Rel & Hpc). exists ws, c'. specialize (Em ctx eq_refl).
  rewrite Hemit in Em. injection Em as Er Ec. split; [done|]. split; [done|]. split; [done|]. right. eauto 10.
Qed.

Lemma emit_insn_outcome : exists ws c', insn_outcome ws c'.
Proof.
  destruct Hpre as (k & Hk & Hc & Hv & Hlow). destruct (kind_zext_or_low k Hk) as [Hz|Hl].
  2: { eapply falls_outcome, (sim_low _ prog insn insn1 s s' k); eauto. }
  destruct k as [is64 op x|is64|be| |z|z|z|z| |is64 op x] eqn:Ek.
  - eapply falls_outcome, (sim_alu _ prog); eauto.
  - eapply falls_outcome, (sim_neg _ prog); eauto.
  - eapply falls_outcome, (sim_end _ prog); eauto.
  - eapply falls_outcome, (sim_ld_imm64 _ prog); eauto.
  - eapply falls_outcome, (sim_ldx _ prog); eauto.
  - eapply falls_outcome, (sim_st _ prog); eauto.
  - eapply falls_outcome, (sim_stx _ prog); eauto.
  - eapply falls_outcome, (sim_xadd _ prog); eauto.
  - destruct (ja_emitted _ _ _ _ _ _ Hc Hemit Hr) as (oi & ot & Hoi & Hot & H21).
    rewrite rv_offset_val in H21 by eauto. eapply jumped_outcome, (sim_ja _ prog); eauto.
  - destruct (jmp_emitted is64 op x _ _ _ _ _ _ Hk Hc Hemit Hr) as (oi & ot & Hoi & Hot & H13).
    rewrite rv_offset_val in H13 by eauto. eapply jumped_outcome, (sim_jmp _ prog); eauto.
Qed.
End insn.

(** The processor at the start of the code of the instruction the interpreter is at. *)
Definition at_insn (T : Z -> option Z) (base : Z) (s : bpf_state) (c : cpu) : Prop :=
  exists o, T (bpc s - 1) = Some o /\ pc c = u64 (base + 4 * o).

(** The code and the table are those of a compilation: emit_insn put the
    instructions of BPF instruction [i] where the table says they are. *)
Definition compiled_at (T : Z -> option Z) (buf : Z -> Z) (i : Z) (insn insn1 : bpf_insn) : Prop :=
  exists ctx r ctx' b b', offset ctx = T /\ T (i - 1) = Some (ninsns ctx) /\ 0 <= ninsns ctx <= 2 ^ 28 /\
    insns ctx = Some b /\ emit_insn insn insn1 i ctx = Some (r, ctx') /\ 0 <= r /\
    T (i + r) = Some (ninsns ctx') /\ insns ctx' = Some b' /\
    forall k, ninsns ctx <= k < ninsns ctx' -> buf k = b' k.

Section simulation.
Context (T : Z -> option Z) (prog : Z -> option bpf_insn) (buf : Z -> Z) (base : Z).
Hypothesis Htab : forall j o, T j = Some o -> entry_ok o.

Lemma insn_sim insn insn1 s s' c : insn_wf insn -> prog (bpc s) = Some insn ->
  (code insn = BPF_LD .| BPF_IMM .| BPF_DW -> prog (bpc s + 1) = Some insn1) -> jit_pre insn s s' ->
  compiled_at T buf (bpc s) insn insn1 -> bpf_step prog s = Some (Cont s') -> rel s c -> at_insn T base s c ->
  exists n c', rv_steps 64 buf base n c = Some c' /\ rel s' c' /\ at_insn T base s' c'.
Proof.
  intros Hwf Hp Hn Hpre (ctx & r & ctx' & b & b' & HT & Ho & Hr0 & Hb & He & Hr & Ho' & Hb' & Hbuf) Hs Hrel (o & Ho2 & Hpc).
  rewrite Ho in Ho2. injection Ho2 as <-. rewrite <- HT in Htab, Ho, Ho'.
  destruct (emit_insn_outcome prog insn insn1 s s' c ctx ctx' r Hwf Hp Hn Hpre Htab He Hr Hs Hrel) as (ws & c' & Ec & Rn & Rel & Hout).
  pose proof (emit_all_ninsns ws ctx) as Hcnt. rewrite <- Ec in Hcnt.
  destruct (emit_all_insns ws ctx b Hb) as (b2 & E2 & Hw & _). rewrite <- Ec, Hb' in E2. injection E2 as <-.
  destruct (Htab _ _ Ho') as [_ Hlt].
  exists (length ws), c'. split; [|split; [done|]].
  - apply (run_steps buf base (ninsns ctx)); [lia|lia| |done|done].
    intros j w Hj. rewrite Hbuf; [by apply Hw|]. apply lookup_lt_Some in Hj. lia.
  - unfold at_insn. rewrite <- HT. rewrite Hpc in Hout.
    rewrite !adv_spec in Hout by (by apply uint_wrap). rewrite !wrap_add_l in Hout.
    destruct Hout as [[E1 E2]|(Hne & -> & oi & ot & Hoi & Hot & [[E1 E2]|[E1 E2]])].
    + exists (ninsns ctx'). split; [rewrite E1; by replace (bpc s + 1 + r - 1) with (bpc s + r) by lia|].
      rewrite E2. f_equal. lia.
    + exists (ninsns ctx'). split; [rewrite E1; by replace (bpc s + 1 - 1) with (bpc s + 0) by lia|].
      rewrite E2, wrap_add_l. f_equal. destruct ws; [done|]. cbn [length pred] in *. lia.
    + exists ot. split; [rewrite E1; by replace (bpc s + off insn + 1 - 1) with (bpc s + off insn) by lia|].
      rewrite Z.add_0_r, Hoi in Ho'. injection Ho' as ->.
      rewrite E2, wrap_add_l. f_equal. unfold jmp_dist. destruct ws; [done|]. cbn [length pred] in *. lia.
Qed.

(** Runs of the interpreter over compiled instructions that the verifier has
    accepted. *)
Inductive bpf_run : bpf_state -> bpf_state -> Prop :=
| run_refl s : bpf_run s s
| run_step insn insn1 s s1 s2 : insn_wf insn -> prog (bpc s) = Some insn ->
    (code insn = BPF_LD .| BPF_IMM .| BPF_DW -> prog (bpc s + 1) = Some insn1) -> jit_pre insn s s1 ->
    compiled_at T buf (bpc s) insn insn1 -> bpf_step prog s = Some (Cont s1) -> bpf_run s1 s2 -> bpf_run s s2.

Lemma rv_steps_add n k c c1 : rv_steps 64 buf base n c = Some c1 ->
  rv_steps 64 buf base (n + k) c = rv_steps 64 buf base k c1.
Proof.
  revert c. induction n as [|n IH]; intros c; cbn; [by intros [= ->]|].
  destruct (rv_step 64 buf base c); cbn; [apply IH|done].
Qed.

Lemma run_sim s s' c : bpf_run s s' -> rel s c -> at_insn T base s c ->
  exists n c', rv_steps 64 buf base n c = Some c' /\ rel s' c' /\ at_insn T base s' c'.
Proof.
  intros Hrun. revert c. induction Hrun as [s|insn insn1 s s1 s2 Hwf Hp Hn Hpre Hc Hs _ IH]; intros c Hrel Hat.
  - by exists 0%nat, c.
  - destruct (insn_sim insn insn1 s s1 c Hwf Hp Hn Hpre Hc Hs Hrel Hat) as (n1 & c1 & R1 & Rel1 & At1).
    destruct (IH c1 Rel1 At1) as (n2 & c2 & R2 & Rel2 & At2).
    exists (n1 + n2)%nat, c2. by rewrite (rv_steps_add _ _ _ _ R1).
Qed.
End simulation.

(** * The 32-bit operations without zero-extension *)

Section low.
Context (T : Z -> option Z) (prog : Z -> option bpf_insn) (insn insn1 : bpf_insn) (s s' : bpf_state) (k : kind) (c : cpu).
Hypothesis Hwf : insn_wf insn.
Hypothesis Hprog : prog (bpc s) = Some insn.
Hypothesis Hstep : bpf_step prog s = Some (Cont s').
Hypothesis Hcode : code insn = kind_code k.
Hypothesis Hlow : kind_low k.
Hypothesis Hver : insn_verified k insn s.
Hypothesis Hrel : rel s c.

(** The code leaves [low_result], and emit_zext_32 completes it. *)
Lemma low_run : kind_ok k -> exists ws c1 ws' c2,
  emitted T (emit_insn insn insn1 (bpc s)) 0 ws /\ run (pc c) ws c = Some c1 /\ pc c1 = adv (pc c) (length ws) /\
  gprs c1 (rv_reg (dst_reg insn)) = low_result k insn s s' /\ u32 (low_result k insn s s') = bregs s' (dst_reg insn) /\
  (rel s' c1 <-> zero_extended k insn s s') /\
  emitted T (emit_zext_32 (rv_reg (dst_reg insn))) () ws' /\ run (pc c1) ws' c1 = Some c2 /\ rel s' c2.
Proof.
  intros Hok. destruct (sim_low_step T prog insn insn1 s s' k c Hwf Hprog Hstep Hcode Hok Hver Hrel Hlow) as (v & Hw & Uv & _ & Ex & Hc).
  pose proof Hver as (Hd & Hs & _). pose proof (rv_reg_held _ Hd) as (Hr & H1 & H2).
  assert (k <> KJa) as Hk by (clear -Hlow; by intros ->).
  specialize (Hc (pc c)). rewrite cpu_eta in Hc.
  destruct (wp_emit_insn T insn insn1 s k c Hcode Hok Hver _ Hk Hc) as (a & c1 & (ws & Em & R & P) & -> & Cm & Cx).
  destruct (wp_zext_32 T (rv_reg (dst_reg insn)) (pc c1) (gprs c1) (cmem c1)
    (fun _ c2 => cmem c2 = cmem c1 /\ gprs c2 = <[rv_reg (dst_reg insn) := u32 (gprs c1 (rv_reg (dst_reg insn)))]> (gprs c1)))
    as ([] & c2 & (ws' & Em' & R' & _) & Cm2 & Cg2); [unfold uint; lia|lia|done|].
  rewrite cpu_eta in R'. exists ws, c1, ws', c2.
  assert (gprs c1 (rv_reg (dst_reg insn)) = low_result k insn s s') as Eg by (rewrite (Cx _ H1 H2); apply fn_lookup_insert).
  assert (bregs s' (dst_reg insn) = v) as Eb by (rewrite (proj2 Hw _ Hd), fn_lookup_insert; done).
  assert (uint 64 v) as Uv' by (by eapply uint_mono; [|done]).
  rewrite Eb. refine (conj Em (conj R (conj P (conj Eg (conj Ex (conj _ (conj Em' (conj R' _)))))))).
  - rewrite <- (low_result_exact insn s s' k c Hver Hrel v Hw Uv Ex). split.
    + intros [_ Hr']. destruct (Hr' _ Hd) as [E _]. congruence.
    + intros E. rewrite E in Cx. by apply (rel_wrote insn s s' c c1 v).
  - apply (rel_wrote insn s s' c c2 v Hd Hrel Hw Uv'); [congruence|].
    intros r Hr1 Hr2. rewrite Cg2, Eg, Ex, !fn_insert_spec. destruct (decide _) as [|Hne]; [done|].
    rewrite (Cx r Hr1 Hr2). by rewrite fn_lookup_insert_ne.
Qed.
End low.

(** * Theorems *)

(** C3: the code of a program simulates the interpreter. Take any run of the
    interpreter of kbpf.c over instructions that the verifier accepts, that emit_insn
    supports and whose code is where the offset table says, in which the twelve
    32-bit operations that emit_insn does not zero-extend, if they occur, have
    results that need no zero-extension. The processor that starts at the code of the
    first instruction with the BPF registers and memory reaches the code of the next
    instruction to execute with the registers and memory of the interpreter. *)
Theorem jit_program_simulation T prog buf base s s' c :
  (forall j o, T j = Some o -> entry_ok o) -> bpf_run T prog buf s s' -> rel s c -> at_insn T base s c ->
  exists n c', rv_steps 64 buf base n c = Some c' /\ rel s' c' /\ at_insn T base s' c'.
Proof. intros Ht Hr. by apply (run_sim T prog). Qed.

(** The code of one instruction does what the interpreter does. The words
    emit_insn appends to the buffer, run by a processor that holds the state of
    the interpreter and whose pc is at the first of them, lead to the state after
    the BPF instruction, with the pc at the table's entry for the instruction the
    interpreter goes on with, also when that is the target of a jump. *)
Theorem jit_insn_simulation prog insn insn1 s s' c ctx r ctx' buf base :
  insn_wf insn -> prog (bpc s) = Some insn ->
  (code insn = BPF_LD .| BPF_IMM .| BPF_DW -> prog (bpc s + 1) = Some insn1) -> jit_pre insn s s' ->
  (forall j o, offset ctx j = Some o -> entry_ok o) ->
  offset ctx (bpc s - 1) = Some (ninsns ctx) -> insns ctx = Some buf ->
  emit_insn insn insn1 (bpc s) ctx = Some (r, ctx') -> 0 <= r -> offset ctx (bpc s + r) = Some (ninsns ctx') ->
  bpf_step prog s = Some (Cont s') -> rel s c -> pc c = u64 (base + 4 * ninsns ctx) ->
  exists buf' n c' o, insns ctx' = Some buf' /\ rv_steps 64 buf' base n c = Some c' /\ rel s' c' /\
    offset ctx (bpc s' - 1) = Some o /\ pc c' = u64 (base + 4 * o).
Proof.
  intros Hwf Hp Hn Hpre Ht Ho Hb He Hr Ho' Hs Hrel Hpc.
  destruct (emit_insn_outcome prog insn insn1 s s' c ctx ctx' r Hwf Hp Hn Hpre Ht He Hr Hs Hrel) as (ws & _ & Ec & _).
  destruct (emit_all_insns ws ctx buf Hb) as (buf' & Hb' & _). rewrite <- Ec in Hb'.
  destruct (insn_sim (offset ctx) prog buf' base Ht insn insn1 s s' c Hwf Hp Hn Hpre) as (n & c' & R & Rel & o & Hat); [|done|done|by exists (ninsns ctx)|].
  - exists ctx, r, ctx', buf, buf'. pose proof (Ht _ _ Ho) as [? ?]. by repeat (split; [done || lia|]).
  - exists buf', n, c', o. tauto.
Qed.

(** C20: emit_insn returns, its result is -1, 0 or 1, and an error leaves the
    context as it was. The number of instructions it emits is at most 32 and
    depends on the BPF instruction alone, so that a pass without a buffer and
    with any other offset table computes the layout of the final pass. *)
Theorem jit_layout insn insn1 : insn_wf insn -> 0 <= dst_reg insn <= 10 -> 0 <= src_reg insn <= 10 ->
  exists n : nat, (n <= 32)%nat /\ forall i ctx,
    (exists o, offset ctx i = Some o) -> (exists o, offset ctx (i + off insn) = Some o) ->
    exists r ctx', emit_insn insn insn1 i ctx = Some (r, ctx') /\ offset ctx' = offset ctx /\
      ((r = -1 /\ ctx' = ctx) \/ (0 <= r <= 1 /\ ninsns ctx' = ninsns ctx + Z.of_nat n)).
Proof.
  intros Hwf Hd Hs.
  assert (exists n, (n <= 32)%nat /\ forall rd rs i, steady_result (body_of rd rs (off insn) (imm insn) (imm insn1) i (code insn)) n)
    as (n & Hn & Hb).
  { destruct (kind_or_default (code insn)) as [(k & Hk & ->)|H]; [by apply count_kind|].
    exists 0%nat. split; [lia|]. intros. rewrite H. apply result_error. }
  exists n. split; [done|]. intros i ctx Hoi Hot.
  destruct (total_emit_insn (offset ctx) insn insn1 i Hwf Hd Hs Hoi Hot ctx eq_refl) as (r & ctx' & E & Ho).
  exists r, ctx'. split; [done|]. split; [done|].
  apply emit_insn_body in E as (rd & rs & [H|(Hr & ws & <- & ->)]%Hb); [by left|right]. split; [done|]. apply emit_all_ninsns.
Qed.

(** C21: emit_imm returns on every 64-bit value, after at most 8 instructions,
    and these load the value into the register and change nothing else. *)
Theorem emit_imm_correct rd val c ctx : uint 5 rd -> rd <> 0 -> - 2 ^ 63 <= val < 2 ^ 63 ->
  exists ws c', emit_imm rd val ctx = Some ((), emit_all ws ctx) /\ (length ws <= 8)%nat /\
    run (pc c) ws c = Some c' /\ cmem c' = cmem c /\ gprs c' = <[rd := u64 val]> (gprs c).
Proof.
  intros Hrd Hne Hv. destruct (emit_imm_spec (offset ctx) rd Hrd Hne val (pc c) (gprs c) (cmem c) Hv) as (p' & ws & Em & R & _).
  specialize (Em ctx eq_refl). rewrite cpu_eta in R. eexists ws, _. split; [done|]. split; [|by split].
  destruct (steady_imm rd val _ _ _ Em) as (ws' & Hl & E). pose proof (imm_count_le 4 val).
  apply (f_equal ninsns) in E. rewrite !emit_all_ninsns in E. lia.
Qed.

(** C39: the twelve 32-bit operations that emit_insn does not zero-extend: ADD, SUB,
    AND, OR, XOR, LSH, RSH and ARSH of registers, LSH, RSH and ARSH by an immediate,
    and NEG. Whatever their operands, the code leaves the low half of the
    interpreter's result. The processor is in the state of the interpreter exactly
    when bit 31 of the result is clear, or, for AND, OR and XOR, when the upper halves
    of the operands combine to zero: in all other cases the operation is
    miscompiled. With emit_zext_32 after it, the patch that jit/riscv64.rkt applies,
    it leaves the state of the interpreter in every case. *)
Theorem jit_alu32_zero_extension T prog insn insn1 s s' k c :
  insn_wf insn -> prog (bpc s) = Some insn -> bpf_step prog s = Some (Cont s') ->
  code insn = kind_code k -> kind_ok k -> kind_low k -> insn_verified k insn s -> rel s c ->
  exists ws c1 ws' c2,
    emitted T (emit_insn insn insn1 (bpc s)) 0 ws /\ run (pc c) ws c = Some c1 /\
    gprs c1 (rv_reg (dst_reg insn)) = low_result k insn s s' /\ u32 (low_result k insn s s') = bregs s' (dst_reg insn) /\
    (rel s' c1 <-> zero_extended k insn s s') /\
    emitted T (emit_zext_32 (rv_reg (dst_reg insn))) () ws' /\ run (pc c1) ws' c1 = Some c2 /\ rel s' c2.
Proof.
  intros Hwf Hp Hs Hc Hok Hl Hv Hrel.
  destruct (low_run T prog insn insn1 s s' k c Hwf Hp Hs Hc Hl Hv Hrel Hok) as (ws & c1 & ws' & c2 & H1 & H2 & _ & H3).
  by exists ws, c1, ws', c2.
Qed.
