(* ===== verification/BpfJit64Witness.v ===== *)
(** Concrete instances of the theorems on the RV64 BPF compiler: a two-instruction
    loop, compiled and run, and single instructions. *)

From S2P Require Import Prelude Cstring Bytes Bpf BpfSteps Riscv RvEmit RvEnc RvExec BpfJit64 BpfJit64Exec BpfJit64Alu BpfJit64Jmp.
From S2P Require Import BpfJit64Sim BpfJit64Count BpfJit64Props.

(** 0: r0 = 5; 1: if r0 != 0 goto 0 *)
Definition w_insn0 : bpf_insn := BPF_MOV64_IMM 0 5.
Definition w_insn1 : bpf_insn := BPF_JMP_IMM BPF_JNE 0 0 (-2).
Definition w_prog (i : Z) : option bpf_insn := if i =? 0 then Some w_insn0 else if i =? 1 then Some w_insn1 else None.

Definition w_table (i : Z) : option Z :=
  if i =? -1 then Some 0 else if i =? 0 then Some 1 else if i =? 1 then Some 3 else None.

Definition w_ctx (n : Z) (buf : Z -> Z) : rv_jit_context := Ctx (Some buf) n 0 w_table 0 0.

Definition w_words : list Z :=
  [rv_addi (rv_reg 0) RV_REG_ZERO 5; rv_addi RV_REG_T1 RV_REG_ZERO 0; rv_bne (rv_reg 0) RV_REG_T1 ((-8) ≫ 1)].
Definition w_buf0 : Z -> Z := fun _ => 0.
Definition w_buf1 : Z -> Z := <[0 := default 0 (w_words !! 0%nat)]> w_buf0.
Definition w_buf : Z -> Z := <[2 := default 0 (w_words !! 2%nat)]> (<[1 := default 0 (w_words !! 1%nat)]> w_buf1).

Definition w_state : bpf_state := BpfSt (fun _ => 0) (fun _ => 0) 0.
Definition w_cpu : cpu := Cpu 0x1000 (fun _ => 0) (fun _ => 0).

Lemma w_table_ok j o : w_table j = Some o -> entry_ok o.
Proof.
  unfold w_table, entry_ok. repeat (destruct (_ =? _); [intros [= <-]; lia|]). done.
Qed.

Lemma w_emit0 : emit_insn w_insn0 w_insn1 0 (w_ctx 0 w_buf0) = Some (0, w_ctx 1 w_buf1).
Proof. reflexivity. Qed.

Lemma w_emit1 : emit_insn w_insn1 w_insn1 1 (w_ctx 1 w_buf1) = Some (0, w_ctx 3 w_buf).
Proof. reflexivity. Qed.

Definition w_state1 : bpf_state := BpfSt (<[0 := 5]> (fun _ => 0)) (fun _ => 0) 1.
Definition w_state2 : bpf_state := BpfSt (<[0 := 5]> (fun _ => 0)) (fun _ => 0) 0.

Lemma w_rel : rel w_state w_cpu.
Proof. split; [reflexivity|]. intros r _. split; [reflexivity|]. by vm_compute. Qed.

Lemma w_step0 : bpf_step w_prog w_state = Some (Cont w_state1).
Proof. reflexivity. Qed.

Lemma w_step1 : bpf_step w_prog w_state1 = Some (Cont w_state2).
Proof. reflexivity. Qed.

Lemma w_pre0 : jit_pre w_insn0 w_state w_state1.
Proof. exists (KAlu true BPF_MOV BPF_K). by repeat (split; [vm_compute; first [by repeat constructor|done]|]). Qed.

Lemma w_pre1 : jit_pre w_insn1 w_state1 w_state2.
Proof.
  exists (KJmp true BPF_JNE BPF_K). split; [apply (bool_decide_unpack _); by vm_compute|].
  by repeat (split; [vm_compute; done|]).
Qed.

Lemma w_insn_wf0 : insn_wf w_insn0. Proof. repeat split; by vm_compute. Qed.
Lemma w_insn_wf1 : insn_wf w_insn1. Proof. repeat split; by vm_compute. Qed.

Lemma w_compiled0 : compiled_at w_table w_buf 0 w_insn0 w_insn1.
Proof.
  exists (w_ctx 0 w_buf0), 0, (w_ctx 1 w_buf1), w_buf0, w_buf1. repeat (split; [reflexivity || (cbn; lia)|]).
  intros k Hk. cbn in Hk. assert (k = 0) as -> by lia. reflexivity.
Qed.

Lemma w_compiled1 : compiled_at w_table w_buf 1 w_insn1 w_insn1.
Proof.
  exists (w_ctx 1 w_buf1), 0, (w_ctx 3 w_buf), w_buf1, w_buf. by repeat (split; [reflexivity || (cbn; lia)|]).
Qed.

Lemma w_run : bpf_run w_table w_prog w_buf w_state w_state2.
Proof.
  apply (run_step w_table w_prog w_buf w_insn0 w_insn1 _ w_state1); [apply w_insn_wf0|done|done|apply w_pre0|apply w_compiled0|apply w_step0|].
  apply (run_step w_table w_prog w_buf w_insn1 w_insn1 _ w_state2); [apply w_insn_wf1|done|done|apply w_pre1|apply w_compiled1|apply w_step1|].
  apply run_refl.
Qed.

(** The loop, once around. *)
Lemma jit_program_simulation_witness : exists n c',
  rv_steps 64 w_buf 0x1000 n w_cpu = Some c' /\ rel w_state2 c' /\ at_insn w_table 0x1000 w_state2 c'.
Proof.
  apply (jit_program_simulation w_table w_prog w_buf 0x1000 w_state w_state2 w_cpu w_table_ok w_run w_rel).
  exists 0. split; reflexivity.
Defined.

Definition w_cpu1 : cpu := Cpu 0x1004 (<[rv_reg 0 := 5]> (fun _ => 0)) (fun _ => 0).

Lemma w_rel1 : rel w_state1 w_cpu1.
Proof. split; [reflexivity|]. intros r Hr%reg_cases. each_of Hr; by vm_compute. Qed.

(** The conditional jump, taken. *)
Lemma jit_insn_simulation_witness : exists buf' n c' o,
  insns (w_ctx 3 w_buf) = Some buf' /\ rv_steps 64 buf' 0x1000 n w_cpu1 = Some c' /\ rel w_state2 c' /\
  offset (w_ctx 1 w_buf1) (bpc w_state2 - 1) = Some o /\ pc c' = u64 (0x1000 + 4 * o).
Proof.
  apply (jit_insn_simulation w_prog w_insn1 w_insn1 w_state1 w_state2 w_cpu1 (w_ctx 1 w_buf1) 0 (w_ctx 3 w_buf) w_buf1 0x1000
    w_insn_wf1 eq_refl ltac:(done) w_pre1 w_table_ok eq_refl eq_refl w_emit1 ltac:(lia) eq_refl w_step1 w_rel1 eq_refl).
Defined.

Lemma jit_layout_witness : exists n : nat, (n <= 32)%nat /\ forall i ctx,
    (exists o, offset ctx i = Some o) -> (exists o, offset ctx (i + off w_insn1) = Some o) ->
    exists r ctx', emit_insn w_insn1 w_insn1 i ctx = Some (r, ctx') /\ offset ctx' = offset ctx /\
      ((r = -1 /\ ctx' = ctx) \/ (0 <= r <= 1 /\ ninsns ctx' = ninsns ctx + Z.of_nat n)).
Proof. apply (jit_layout w_insn1 w_insn1 w_insn_wf1); cbn; lia. Defined.

(** A value that takes all the recursive calls. *)
Lemma emit_imm_correct_witness : exists ws c',
  emit_imm 5 0x123456789abcdef1 (w_ctx 0 w_buf0) = Some ((), emit_all ws (w_ctx 0 w_buf0)) /\ (length ws <= 8)%nat /\
  run (pc w_cpu) ws w_cpu = Some c' /\ cmem c' = cmem w_cpu /\ gprs c' = <[5 := u64 0x123456789abcdef1]> (gprs w_cpu).
Proof. apply (emit_imm_correct 5 0x123456789abcdef1 w_cpu (w_ctx 0 w_buf0)); [by vm_compute|lia|lia]. Defined.

(** An interpreter and a processor with 0x7fffffff in R1, about to add 1. *)
Definition zext_state : bpf_state := BpfSt (fun r => if r =? 1 then 0x7fffffff else if r =? 2 then 1 else 0) (fun _ => 0) 0.
Definition zext_cpu : cpu := Cpu 0 (fun r => if r =? rv_reg 1 then 0x7fffffff else if r =? rv_reg 2 then 1 else 0) (fun _ => 0).
Definition zext_insn : bpf_insn := BPF_ALU32_REG BPF_ADD 1 2.
Definition zext_state1 : bpf_state := BpfSt (<[1 := 0x80000000]> (bregs zext_state)) (fun _ => 0) 1.

Lemma zext_rel : rel zext_state zext_cpu.
Proof. split; [reflexivity|]. intros r Hr%reg_cases. each_of Hr; by vm_compute. Qed.

(** The sum is sign-extended. *)
Lemma jit_alu32_zero_extension_witness : exists ws c1,
  emitted w_table (emit_insn zext_insn zext_insn 0) 0 ws /\ run 0 ws zext_cpu = Some c1 /\
  gprs c1 (rv_reg 1) = 0xffffffff80000000 /\ ~ rel zext_state1 c1.
Proof.
  assert (insn_wf zext_insn) as Hwf by (repeat split; by vm_compute).
  assert (kind_ok (KAlu false BPF_ADD BPF_X)) as Hok by (apply (bool_decide_unpack _); by vm_compute).
  assert (kind_low (KAlu false BPF_ADD BPF_X)) as Hlow by (apply (bool_decide_unpack _); by vm_compute).
  assert (insn_verified (KAlu false BPF_ADD BPF_X) zext_insn zext_state) as Hver by (repeat split; by vm_compute).
  destruct (jit_alu32_zero_extension w_table (fun _ => Some zext_insn) zext_insn zext_insn zext_state zext_state1
    (KAlu false BPF_ADD BPF_X) zext_cpu Hwf eq_refl eq_refl eq_refl Hok Hlow Hver zext_rel) as (ws & c1 & _ & _ & H1 & H2 & H3 & _ & H4 & _).
  exists ws, c1. split; [exact H1|]. split; [exact H2|]. split; [exact H3|]. rewrite H4. vm_compute. discriminate.
Defined.

Lemma rv_encoders_witness : rv_addw 10 11 12 = encode_instr (Instr op_addw 10 11 12 0).
Proof. exact (Forall_inv (proj2 (rv_encoders 10 11 12 4 ltac:(by vm_compute) ltac:(by vm_compute) ltac:(by vm_compute)))). Defined.
