(* ===== verification/BpfJit32.v ===== *)
(** The BPF compiler for RV32 of bpf/jit/bpf_jit_comp32.c: a BPF register is a
    pair of RISC-V registers or a pair of stack slots, and each 64-bit operation
    is a sequence of 32-bit ones. The encoders and the offsets of jumps, which
    the file has in common with the RV64 compiler, are in RvEmit. *)

From S2P Require Import Prelude Cstring Bytes Bpf RvEmit.

(** * Registers *)

(** The stack slots, as offsets from (top of stack - 4) in words. *)
Inductive stack_slot :=
| BPF_R6_HI | BPF_R6_LO | BPF_R7_HI | BPF_R7_LO | BPF_R8_HI | BPF_R8_LO
| BPF_R9_HI | BPF_R9_LO | BPF_TC_HI | BPF_TC_LO | BPF_AX_HI | BPF_AX_LO
| BPF_JIT_SCRATCH_REGS.

Definition slot_index (k : stack_slot) : Z :=
  match k with
  | BPF_R6_HI => 0 | BPF_R6_LO => 1 | BPF_R7_HI => 2 | BPF_R7_LO => 3 | BPF_R8_HI => 4 | BPF_R8_LO => 5
  | BPF_R9_HI => 6 | BPF_R9_LO => 7 | BPF_TC_HI => 8 | BPF_TC_LO => 9 | BPF_AX_HI => 10 | BPF_AX_LO => 11
  | BPF_JIT_SCRATCH_REGS => 12
  end.
Coercion slot_index : stack_slot >-> Z.

Definition STACK_OFFSET (k : Z) : Z := -4 - k * 4.

Abbreviation MAX_BPF_JIT_REG := (MAX_BPF_EXT_REG) (only parsing).
Abbreviation TMP_REG_1 := (MAX_BPF_JIT_REG + 0) (only parsing).
Abbreviation TMP_REG_2 := (MAX_BPF_JIT_REG + 1) (only parsing).
Abbreviation TCALL_CNT := (MAX_BPF_JIT_REG + 2) (only parsing).

(** The pair of each BPF register: [.1] is element 0, the high half, and [.2] is
    element 1, the low half; a negative number is a stack slot. *)
Definition bpf2rv32 : list (Z * Z) :=
  [ (RV_REG_S2, RV_REG_S1);
    (RV_REG_A1, RV_REG_A0);
    (RV_REG_A3, RV_REG_A2);
    (RV_REG_A5, RV_REG_A4);
    (RV_REG_A7, RV_REG_A6);
    (RV_REG_S4, RV_REG_S3);
    (STACK_OFFSET BPF_R6_HI, STACK_OFFSET BPF_R6_LO);
    (STACK_OFFSET BPF_R7_HI, STACK_OFFSET BPF_R7_LO);
    (STACK_OFFSET BPF_R8_HI, STACK_OFFSET BPF_R8_LO);
    (STACK_OFFSET BPF_R9_HI, STACK_OFFSET BPF_R9_LO);
    (RV_REG_S6, RV_REG_S5);                             (* BPF_REG_FP *)
    (STACK_OFFSET BPF_AX_HI, STACK_OFFSET BPF_AX_LO);   (* BPF_REG_AX *)
    (RV_REG_T3, RV_REG_T2);                             (* TMP_REG_1 *)
    (RV_REG_T5, RV_REG_T4);                             (* TMP_REG_2 *)
    (STACK_OFFSET BPF_TC_HI, STACK_OFFSET BPF_TC_LO) ]. (* TCALL_CNT *)

Definition bpf2rv (r : Z) : M (Z * Z) :=
  match bpf2rv32 !! Z.to_nat r with Some reg => ret reg | None => undef end.

(** bpf2rv32[TMP_REG_1] and bpf2rv32[TMP_REG_2], which are never on the stack. *)
Definition tmp1 : Z * Z := Eval cbv in default (0, 0) (bpf2rv32 !! Z.to_nat TMP_REG_1).
Definition tmp2 : Z * Z := Eval cbv in default (0, 0) (bpf2rv32 !! Z.to_nat TMP_REG_2).

(** * Immediates *)

Definition emit_imm (rd imm : Z) : M unit :=
  let upper := u32 (s32 (imm + 2 ^ 11) ≫ 12) in
  let lower := u32 (imm .& 0xfff) in
  if negb (upper =? 0) then
    emit (rv_lui rd upper);;
    emit (rv_addi rd rd lower)
  else emit (rv_addi rd RV_REG_ZERO lower).

Definition emit_imm32 (rd : Z * Z) (imm : Z) : M unit :=
  emit_imm rd.2 imm;;
  emit (rv_addi rd.1 rd.2 0);;
  emit (rv_srai rd.1 rd.1 31).

Definition emit_imm64 (rd : Z * Z) (imm_hi imm_lo : Z) : M unit :=
  emit_imm rd.2 imm_lo;;
  emit_imm rd.1 imm_hi.

(** epilogue_offset(ctx) *)
Definition epilogue_off : M Z := fun ctx =>
  let to := epilogue_offset ctx in
  let from := ninsns ctx in
  Some (s32 (s32 (to - from) ≪ 2), ctx).

(** * Operands *)

Definition is_stacked (reg : Z) : bool := reg <? 0.

Definition rv32_bpf_get_reg64 (reg tmp : Z * Z) : M (Z * Z) :=
  if is_stacked reg.1 then
    emit (rv_lw tmp.1 reg.1 RV_REG_FP);;
    emit (rv_lw tmp.2 reg.2 RV_REG_FP);;
    ret tmp
  else ret reg.

Definition rv32_bpf_put_reg64 (reg src : Z * Z) : M unit :=
  when (is_stacked reg.1)
    (emit (rv_sw RV_REG_FP reg.1 src.1);;
     emit (rv_sw RV_REG_FP reg.2 src.2)).

Definition rv32_bpf_get_reg32 (reg tmp : Z * Z) : M (Z * Z) :=
  if is_stacked reg.2 then
    emit (rv_lw tmp.2 reg.2 RV_REG_FP);;
    ret tmp
  else ret reg.

(** [zext] is ctx->prog->aux->verifier_zext: the verifier has inserted the
    instructions that clear the upper halves. *)
Definition rv32_bpf_put_reg32 (zext : bool) (reg src : Z * Z) : M unit :=
  if is_stacked reg.2 then
    emit (rv_sw RV_REG_FP reg.2 src.2);;
    when (negb zext) (emit (rv_sw RV_REG_FP reg.1 RV_REG_ZERO))
  else when (negb zext) (emit (rv_addi reg.1 RV_REG_ZERO 0)).

(** * Arithmetic *)

(** The labels of a switch on the operation. *)
Definition op_case (op : bpf_alu_op) (body : M unit) : list Z * M unit := ([alu_code op], body).

(** The operations of emit_rv32_alu_i64 on an operand in registers. *)
Definition alu_i64_code (rd : Z * Z) (imm op : Z) : M unit :=
  switch op
    [ op_case BPF_MOV (emit_imm32 rd imm);
      op_case BPF_LSH
        (if imm >=? 32 then
           emit (rv_slli rd.1 rd.2 (imm - 32));;
           emit (rv_addi rd.2 RV_REG_ZERO 0)
         else if imm =? 0 then ret ()
         else
           emit (rv_srli RV_REG_T0 rd.2 (32 - imm));;
           emit (rv_slli rd.1 rd.1 imm);;
           emit (rv_or rd.1 RV_REG_T0 rd.1);;
           emit (rv_slli rd.2 rd.2 imm));
      op_case BPF_RSH
        (if imm >=? 32 then
           emit (rv_srli rd.2 rd.1 (imm - 32));;
           emit (rv_addi rd.1 RV_REG_ZERO 0)
         else if imm =? 0 then ret ()
         else
           emit (rv_slli RV_REG_T0 rd.1 (32 - imm));;
           emit (rv_srli rd.2 rd.2 imm);;
           emit (rv_or rd.2 RV_REG_T0 rd.2);;
           emit (rv_srli rd.1 rd.1 imm));
      op_case BPF_ARSH
        (if imm >=? 32 then
           emit (rv_srai rd.2 rd.1 (imm - 32));;
           emit (rv_srai rd.1 rd.1 31)
         else if imm =? 0 then ret ()
         else
           emit (rv_slli RV_REG_T0 rd.1 (32 - imm));;
           emit (rv_srli rd.2 rd.2 imm);;
           emit (rv_or rd.2 RV_REG_T0 rd.2);;
           emit (rv_srai rd.1 rd.1 imm)) ]
    (ret ()).

Definition emit_rv32_alu_i64 (dst : Z * Z) (imm op : Z) : M unit :=
  rd <- rv32_bpf_get_reg64 dst tmp1;
  alu_i64_code rd imm op;;
  rv32_bpf_put_reg64 dst rd.

Definition emit_rv32_alu_i32 (zext : bool) (dst : Z * Z) (imm op : Z) : M unit :=
  rd <- rv32_bpf_get_reg32 dst tmp1;
  switch op [ op_case BPF_MOV (emit_imm32 rd imm) ] (ret ());;
  rv32_bpf_put_reg32 zext dst rd.

(** The code of the shifts of a pair by a register: [large] shifts by 32 or
    more, [small] by less. *)
Definition shift64 (rs : Z * Z) (large small : M unit) : M unit :=
  emit (rv_addi RV_REG_T0 rs.2 (-32));;
  emit (rv_blt RV_REG_T0 RV_REG_ZERO (16 ≫ 1));;
  large;;
  emit (rv_jal RV_REG_ZERO (32 ≫ 1));;
  small.

(** The operations of emit_rv32_alu_r64 on operands in registers. *)
Definition alu_r64_code (rd rs : Z * Z) (op : Z) : M unit :=
  switch op
    [ op_case BPF_MOV
        (emit (rv_addi rd.1 rs.1 0);;
         emit (rv_addi rd.2 rs.2 0));
      op_case BPF_ADD
        (emit (rv_addi RV_REG_T0 rd.2 0);;
         emit (rv_add rd.2 rd.2 rs.2);;
         emit (rv_sltu RV_REG_T0 rd.2 RV_REG_T0);;
         emit (rv_add rd.1 rd.1 rs.1);;
         emit (rv_add rd.1 rd.1 RV_REG_T0));
      op_case BPF_SUB
        (emit (rv_addi RV_REG_T0 rd.2 0);;
         emit (rv_sub rd.2 rd.2 rs.2);;
         emit (rv_sltu RV_REG_T0 RV_REG_T0 rd.2);;
         emit (rv_sub rd.1 rd.1 rs.1);;
         emit (rv_sub rd.1 rd.1 RV_REG_T0));
      op_case BPF_AND
        (emit (rv_and rd.1 rd.1 rs.1);;
         emit (rv_and rd.2 rd.2 rs.2));
      op_case BPF_OR
        (emit (rv_or rd.1 rd.1 rs.1);;
         emit (rv_or rd.2 rd.2 rs.2));
      op_case BPF_XOR
        (emit (rv_xor rd.1 rd.1 rs.1);;
         emit (rv_xor rd.2 rd.2 rs.2));
      op_case BPF_MUL
        (emit (rv_mul RV_REG_T0 rs.1 rd.2);;
         emit (rv_mul rd.1 rd.1 rs.2);;
         emit (rv_mulhu RV_REG_T1 rd.2 rs.2);;
         emit (rv_add rd.1 rd.1 RV_REG_T0);;
         emit (rv_mul rd.2 rd.2 rs.2);;
         emit (rv_add rd.1 rd.1 RV_REG_T1));
      op_case BPF_LSH (shift64 rs
        (emit (rv_sll rd.1 rd.2 RV_REG_T0);;
         emit (rv_addi rd.2 RV_REG_ZERO 0))
        (emit (rv_addi RV_REG_T1 RV_REG_ZERO 31);;
         emit (rv_srli RV_REG_T0 rd.2 1);;
         emit (rv_sub RV_REG_T1 RV_REG_T1 rs.2);;
         emit (rv_srl RV_REG_T0 RV_REG_T0 RV_REG_T1);;
         emit (rv_sll rd.1 rd.1 rs.2);;
         emit (rv_or rd.1 RV_REG_T0 rd.1);;
         emit (rv_sll rd.2 rd.2 rs.2)));
      op_case BPF_RSH (shift64 rs
        (emit (rv_srl rd.2 rd.1 RV_REG_T0);;
         emit (rv_addi rd.1 RV_REG_ZERO 0))
        (emit (rv_addi RV_REG_T1 RV_REG_ZERO 31);;
         emit (rv_slli RV_REG_T0 rd.1 1);;
         emit (rv_sub RV_REG_T1 RV_REG_T1 rs.2);;
         emit (rv_sll RV_REG_T0 RV_REG_T0 RV_REG_T1);;
         emit (rv_srl rd.2 rd.2 rs.2);;
         emit (rv_or rd.2 RV_REG_T0 rd.2);;
         emit (rv_srl rd.1 rd.1 rs.2)));
      op_case BPF_ARSH (shift64 rs
        (emit (rv_sra rd.2 rd.1 RV_REG_T0);;
         emit (rv_srai rd.1 rd.1 0x1f))
        (emit (rv_addi RV_REG_T1 RV_REG_ZERO 31);;
         emit (rv_slli RV_REG_T0 rd.1 1);;
         emit (rv_sub RV_REG_T1 RV_REG_T1 rs.2);;
         emit (rv_sll RV_REG_T0 RV_REG_T0 RV_REG_T1);;
         emit (rv_srl rd.2 rd.2 rs.2);;
         emit (rv_or rd.2 RV_REG_T0 rd.2);;
         emit (rv_sra rd.1 rd.1 rs.2)));
      op_case BPF_NEG
        (emit (rv_sub rd.2 RV_REG_ZERO rd.2);;
         emit (rv_sltu RV_REG_T0 RV_REG_ZERO rd.2);;
         emit (rv_sub rd.1 RV_REG_ZERO rd.1);;
         emit (rv_sub rd.1 rd.1 RV_REG_T0)) ]
    (ret ()).

Definition emit_rv32_alu_r64 (dst src : Z * Z) (op : Z) : M unit :=
  rd <- rv32_bpf_get_reg64 dst tmp1;
  rs <- rv32_bpf_get_reg64 src tmp2;
  alu_r64_code rd rs op;;
  rv32_bpf_put_reg64 dst rd.

(** The operations of emit_rv32_alu_r32 on operands in registers. *)
Definition alu_r32_code (rd rs : Z * Z) (op : Z) : M unit :=
  switch op
    [ op_case BPF_MOV (emit (rv_addi rd.2 rs.2 0));
      op_case BPF_ADD (emit (rv_add rd.2 rd.2 rs.2));
      op_case BPF_SUB (emit (rv_sub rd.2 rd.2 rs.2));
      op_case BPF_AND (emit (rv_and rd.2 rd.2 rs.2));
      op_case BPF_OR (emit (rv_or rd.2 rd.2 rs.2));
      op_case BPF_XOR (emit (rv_xor rd.2 rd.2 rs.2));
      op_case BPF_MUL (emit (rv_mul rd.2 rd.2 rs.2));
      op_case BPF_DIV (emit (rv_divu rd.2 rd.2 rs.2));
      op_case BPF_MOD (emit (rv_remu rd.2 rd.2 rs.2));
      op_case BPF_LSH (emit (rv_sll rd.2 rd.2 rs.2));
      op_case BPF_RSH (emit (rv_srl rd.2 rd.2 rs.2));
      op_case BPF_ARSH (emit (rv_sra rd.2 rd.2 rs.2));
      op_case BPF_NEG (emit (rv_sub rd.2 RV_REG_ZERO rd.2)) ]
    (ret ()).

Definition emit_rv32_alu_r32 (zext : bool) (dst src : Z * Z) (op : Z) : M unit :=
  rd <- rv32_bpf_get_reg32 dst tmp1;
  rs <- rv32_bpf_get_reg32 src tmp2;
  alu_r32_code rd rs op;;
  rv32_bpf_put_reg32 zext dst rd.

(** * Jumps *)

Definition jmp_case (op : bpf_jmp_op) (body : M unit) : list Z * M unit := ([jmp_code op], body).

(** The comparisons of emit_rv32_jump_r64, with the branch offset [rvoff]. *)
Definition jump_r64_code (rs1 rs2 : Z * Z) (rvoff op : Z) : M unit :=
  switch op
    [ jmp_case BPF_JEQ
        (emit (rv_bne rs1.1 rs2.1 (8 ≫ 1));;
         emit (rv_beq rs1.2 rs2.2 (rvoff ≫ 1)));
      jmp_case BPF_JNE
        (emit (rv_bne rs1.1 rs2.1 (s32 (rvoff + 4) ≫ 1));;
         emit (rv_bne rs1.2 rs2.2 (rvoff ≫ 1)));
      jmp_case BPF_JLE
        (emit (rv_bltu rs1.1 rs2.1 (s32 (rvoff + 8) ≫ 1));;
         emit (rv_bltu rs2.1 rs1.1 (8 ≫ 1));;
         emit (rv_bgeu rs2.2 rs1.2 (rvoff ≫ 1)));
      jmp_case BPF_JLT
        (emit (rv_bltu rs1.1 rs2.1 (s32 (rvoff + 8) ≫ 1));;
         emit (rv_bltu rs2.1 rs1.1 (8 ≫ 1));;
         emit (rv_bltu rs1.2 rs2.2 (rvoff ≫ 1)));
      jmp_case BPF_JGE
        (emit (rv_bltu rs2.1 rs1.1 (s32 (rvoff + 8) ≫ 1));;
         emit (rv_bltu rs1.1 rs2.1 (8 ≫ 1));;
         emit (rv_bgeu rs1.2 rs2.2 (rvoff ≫ 1)));
      jmp_case BPF_JGT
        (emit (rv_bltu rs2.1 rs1.1 (s32 (rvoff + 8) ≫ 1));;
         emit (rv_bltu rs1.1 rs2.1 (8 ≫ 1));;
         emit (rv_bltu rs2.2 rs1.2 (rvoff ≫ 1)));
      jmp_case BPF_JSLE
        (emit (rv_blt rs1.1 rs2.1 (s32 (rvoff + 8) ≫ 1));;
         emit (rv_bne rs2.1 rs1.1 (8 ≫ 1));;
         emit (rv_bgeu rs2.2 rs1.2 (rvoff ≫ 1)));
      jmp_case BPF_JSLT
        (emit (rv_blt rs1.1 rs2.1 (s32 (rvoff + 8) ≫ 1));;
         emit (rv_bne rs2.1 rs1.1 (8 ≫ 1));;
         emit (rv_bltu rs1.2 rs2.2 (rvoff ≫ 1)));
      jmp_case BPF_JSGE
        (emit (rv_blt rs2.1 rs1.1 (s32 (rvoff + 8) ≫ 1));;
         emit (rv_bne rs1.1 rs2.1 (8 ≫ 1));;
         emit (rv_bgeu rs1.2 rs2.2 (rvoff ≫ 1)));
      jmp_case BPF_JSGT
        (emit (rv_blt rs2.1 rs1.1 (s32 (rvoff + 8) ≫ 1));;
         emit (rv_bne rs1.1 rs2.1 (8 ≫ 1));;
         emit (rv_bltu rs2.2 rs1.2 (rvoff ≫ 1)));
      jmp_case BPF_JSET
        (emit (rv_and RV_REG_T0 rs1.1 rs2.1);;
         emit (rv_bne RV_REG_T0 RV_REG_ZERO (s32 (rvoff + 8) ≫ 1));;
         emit (rv_and RV_REG_T0 rs1.2 rs2.2);;
         emit (rv_bne RV_REG_T0 RV_REG_ZERO (rvoff ≫ 1))) ]
    (ret ()).

(** The comparisons of emit_rv32_jump_r32. *)
Definition jump_r32_code (rs1 rs2 : Z * Z) (rvoff op : Z) : M unit :=
  switch op
    [ jmp_case BPF_JEQ (emit (rv_beq rs1.2 rs2.2 (rvoff ≫ 1)));
      jmp_case BPF_JNE (emit (rv_bne rs1.2 rs2.2 (rvoff ≫ 1)));
      jmp_case BPF_JLE (emit (rv_bgeu rs2.2 rs1.2 (rvoff ≫ 1)));
      jmp_case BPF_JLT (emit (rv_bltu rs1.2 rs2.2 (rvoff ≫ 1)));
      jmp_case BPF_JGE (emit (rv_bgeu rs1.2 rs2.2 (rvoff ≫ 1)));
      jmp_case BPF_JGT (emit (rv_bltu rs2.2 rs1.2 (rvoff ≫ 1)));
      jmp_case BPF_JSLE (emit (rv_bge rs2.2 rs1.2 (rvoff ≫ 1)));
      jmp_case BPF_JSLT (emit (rv_blt rs1.2 rs2.2 (rvoff ≫ 1)));
      jmp_case BPF_JSGE (emit (rv_bge rs1.2 rs2.2 (rvoff ≫ 1)));
      jmp_case BPF_JSGT (emit (rv_blt rs2.2 rs1.2 (rvoff ≫ 1)));
      jmp_case BPF_JSET
        (emit (rv_and RV_REG_T0 rs1.2 rs2.2);;
         emit (rv_bne RV_REG_T0 RV_REG_ZERO (rvoff ≫ 1))) ]
    (ret ()).

Definition emit_rv32_jump_r64 (src1 src2 : Z * Z) (off insn op : Z) : M Z :=
  rs1 <- rv32_bpf_get_reg64 src1 tmp1;
  rs2 <- rv32_bpf_get_reg64 src2 tmp2;
  r <- rv_offset_check off insn;
  let '(rvoff, err) := r in
  if negb (err =? 0) then ret (-1) else jump_r64_code rs1 rs2 rvoff op;; ret 0.

Definition emit_rv32_jump_r32 (src1 src2 : Z * Z) (off insn op : Z) : M Z :=
  rs1 <- rv32_bpf_get_reg32 src1 tmp1;
  rs2 <- rv32_bpf_get_reg32 src2 tmp2;
  r <- rv_offset_check off insn;
  let '(rvoff, err) := r in
  if negb (err =? 0) then ret (-1) else jump_r32_code rs1 rs2 rvoff op;; ret 0.

(** * Loads and stores *)

Definition size_case (z : bpf_size) (body : M unit) : list Z * M unit := ([size_code z], body).

Definition emit_rv32_load_r64 (dst src : Z * Z) (off size : Z) : M Z :=
  rd <- rv32_bpf_get_reg64 dst tmp1;
  rs <- rv32_bpf_get_reg64 src tmp2;
  emit_imm RV_REG_T0 off;;
  emit (rv_add RV_REG_T0 RV_REG_T0 rs.2);;
  switch size
    [ size_case BPF_B
        (emit (rv_lbu rd.2 0 RV_REG_T0);;
         emit (rv_addi rd.1 RV_REG_ZERO 0));
      size_case BPF_H
        (emit (rv_lhu rd.2 0 RV_REG_T0);;
         emit (rv_addi rd.1 RV_REG_ZERO 0));
      size_case BPF_W
        (emit (rv_lw rd.2 0 RV_REG_T0);;
         emit (rv_addi rd.1 RV_REG_ZERO 0));
      size_case BPF_DW
        (emit (rv_lw rd.2 0 RV_REG_T0);;
         emit (rv_lw rd.1 4 RV_REG_T0)) ]
    (ret ());;
  rv32_bpf_put_reg64 dst rd;;
  ret 0.

Definition emit_rv32_store_r64 (dst src : Z * Z) (off size mode : Z) : M Z :=
  rd <- rv32_bpf_get_reg64 dst tmp1;
  rs <- rv32_bpf_get_reg64 src tmp2;
  if (mode =? BPF_XADD) && negb (size =? BPF_W) then ret (-1)
  else
    emit_imm RV_REG_T0 off;;
    emit (rv_add RV_REG_T0 RV_REG_T0 rd.2);;
    switch size
      [ size_case BPF_B (emit (rv_sb RV_REG_T0 0 rs.2));
        size_case BPF_H (emit (rv_sh RV_REG_T0 0 rs.2));
        size_case BPF_W
          (if mode =? BPF_MEM then emit (rv_sw RV_REG_T0 0 rs.2)
           else if mode =? BPF_XADD then emit (rv_amoadd_w RV_REG_ZERO rs.2 RV_REG_T0 0 0)
           else ret ());
        size_case BPF_DW
          (emit (rv_sw RV_REG_T0 0 rs.2);;
           emit (rv_sw RV_REG_T0 4 rs.1)) ]
      (ret ());;
    ret 0.

(** * Byte swaps *)

(** One byte moved from the bottom of rd to the bottom of T1. *)
Definition emit_rev_byte (rd : Z) : M unit :=
  emit (rv_andi RV_REG_T0 rd 0xff);;
  emit (rv_add RV_REG_T1 RV_REG_T1 RV_REG_T0);;
  emit (rv_slli RV_REG_T1 RV_REG_T1 8);;
  emit (rv_srli rd rd 8).

Definition emit_rv32_rev16 (rd : Z) : M unit :=
  emit (rv_addi RV_REG_T1 RV_REG_ZERO 0);;
  emit_rev_byte rd;;
  emit (rv_andi RV_REG_T0 rd 0xff);;
  emit (rv_add RV_REG_T1 RV_REG_T1 RV_REG_T0);;
  emit (rv_addi rd RV_REG_T1 0).

Definition emit_rv32_rev32 (rd : Z) : M unit :=
  emit (rv_addi RV_REG_T1 RV_REG_ZERO 0);;
  emit_rev_byte rd;;
  emit_rev_byte rd;;
  emit_rev_byte rd;;
  emit (rv_andi RV_REG_T0 rd 0xff);;
  emit (rv_add RV_REG_T1 RV_REG_T1 RV_REG_T0);;
  emit (rv_addi rd RV_REG_T1 0).

Definition emit_rv32_zext64 (dst : Z * Z) : M unit :=
  rd <- rv32_bpf_get_reg64 dst tmp1;
  emit (rv_addi rd.1 RV_REG_ZERO 0);;
  rv32_bpf_put_reg64 dst rd.

(** The two cases of BPF_END: the code on a pair in registers, or an error. *)
Definition end_le_code (rd : Z * Z) (imm : Z) : option (M unit) :=
  switch imm
    [ ([16], Some (emit (rv_slli rd.2 rd.2 16);;
                   emit (rv_srli rd.2 rd.2 16);;
                   emit (rv_addi rd.1 RV_REG_ZERO 0)));
      ([32], Some (emit (rv_addi rd.1 RV_REG_ZERO 0)));
      ([64], Some (ret ())) ]
    None.

Definition end_be_code (rd : Z * Z) (imm : Z) : option (M unit) :=
  switch imm
    [ ([16], Some (emit_rv32_rev16 rd.2;;
                   emit (rv_addi rd.1 RV_REG_ZERO 0)));
      ([32], Some (emit_rv32_rev32 rd.2;;
                   emit (rv_addi rd.1 RV_REG_ZERO 0)));
      ([64], Some (emit (rv_addi RV_REG_T0 rd.2 0);;
                   emit (rv_addi rd.2 rd.1 0);;
                   emit (rv_addi rd.1 RV_REG_T0 0);;
                   emit_rv32_rev32 rd.2;;
                   emit_rv32_rev32 rd.1)) ]
    None.

Definition emit_end (end_code : Z * Z -> Z -> option (M unit)) (dst : Z * Z) (imm : Z) : M Z :=
  rd <- rv32_bpf_get_reg64 dst tmp1;
  match end_code rd imm with
  | None => ret (-1)
  | Some m => m;; rv32_bpf_put_reg64 dst rd;; ret 0
  end.

(** * The translation of an instruction *)

Abbreviation EFAULT := 14%Z (only parsing).
Abbreviation EINVAL := 22%Z (only parsing).

(** What the compiler reads and writes of a program. jit_data is the context that
    aux->jit_data keeps between the compilations of a program with calls to
    other BPF functions; its offset table is then allocated. *)
Record bpf_prog := Prog {
  insnsi : list bpf_insn;
  verifier_zext : bool;                 (** aux->verifier_zext *)
  stack_depth : Z;                      (** aux->stack_depth *)
  jit_requested : bool;
  is_func : bool;
  jit_data : option rv_jit_context;     (** aux->jit_data, or NULL *)
  bpf_func : option (Z -> Z);           (** the image, or the interpreter *)
  jited : bool;
  jited_len : Z
}.

Definition len (prog : bpf_prog) : Z := Z.of_nat (length (insnsi prog)).

Section jit.

(** The kernel's resolution of a call target: an error, or the address and
    whether it is that of a helper. *)
Context (bpf_jit_get_func_addr : bpf_insn -> bool -> Z + Z * bool).

(** BPF_JMP | BPF_CALL *)
Definition emit_call (insn : bpf_insn) (extra_pass : bool) : M Z :=
  r0 <- bpf2rv 0;
  r5 <- bpf2rv 5;
  match bpf_jit_get_func_addr insn extra_pass with
  | inl err => ret err
  | inr (addr, fixed) =>
      if fixed : bool then
        emit_imm RV_REG_T0 (s32 (u32 addr));;
        emit (rv_addi RV_REG_SP RV_REG_SP (-8));;
        emit (rv_sw RV_REG_SP 0 r5.2);;
        emit (rv_sw RV_REG_SP 4 r5.1);;
        emit (rv_jalr RV_REG_RA RV_REG_T0 0);;
        emit (rv_addi r0.2 RV_REG_A0 0);;
        emit (rv_addi r0.1 RV_REG_A1 0);;
        emit (rv_addi RV_REG_SP RV_REG_SP 8);;
        ret 0
      else ret (-1)
  end.

(** An operand that is a register, or an immediate in TMP_REG_2. *)
Definition src_or_imm (is_imm : bool) (src : Z * Z) (imm : Z) : M (Z * Z) :=
  if is_imm then emit_imm32 tmp2 imm;; ret tmp2 else ret src.

(** The shared bodies of the cases of 64-bit arithmetic, of 32-bit arithmetic
    and of the conditional jumps. *)
Definition emit_alu64 (code : Z) (dst src : Z * Z) (imm : Z) : M Z :=
  src <- src_or_imm (BPF_SRC code =? BPF_K) src imm;
  emit_rv32_alu_r64 dst src (BPF_OP code);; ret 0.

Definition emit_alu32 (zext : bool) (code : Z) (dst src : Z * Z) (imm : Z) : M Z :=
  src <- src_or_imm (BPF_SRC code =? BPF_K) src imm;
  emit_rv32_alu_r32 zext dst src (BPF_OP code);; ret 0.

Definition emit_jmp (code : Z) (dst src : Z * Z) (off imm i : Z) : M Z :=
  src <- src_or_imm (BPF_SRC code =? BPF_K) src imm;
  r <- (if BPF_CLASS code =? BPF_JMP then emit_rv32_jump_r64 dst src off i (BPF_OP code)
        else if BPF_CLASS code =? BPF_JMP32 then emit_rv32_jump_r32 dst src off i (BPF_OP code)
        else ret 0);
  if negb (r =? 0) then ret (-1) else ret 0.

(** The labels of an operation with a register and with an immediate. *)
Definition both (c : bpf_class) (op : Z) : list Z := [c .| op .| BPF_X; c .| op .| BPF_K].
Definition jmp_labels (op : bpf_jmp_op) : list Z :=
  [BPF_JMP .| op .| BPF_X; BPF_JMP .| op .| BPF_K; BPF_JMP32 .| op .| BPF_X; BPF_JMP32 .| op .| BPF_K].

Definition alu64_cases (code : Z) (dst src : Z * Z) (imm : Z) : list (list Z * M Z) :=
  [ ([BPF_ALU64 .| BPF_MOV .| BPF_X],
      if imm =? 1 then emit_rv32_zext64 dst;; ret 0 else emit_alu64 code dst src imm);
    (both BPF_ALU64 BPF_ADD ++ both BPF_ALU64 BPF_SUB ++ both BPF_ALU64 BPF_AND ++
     both BPF_ALU64 BPF_OR ++ both BPF_ALU64 BPF_XOR ++ both BPF_ALU64 BPF_MUL ++
     [BPF_ALU64 .| BPF_LSH .| BPF_X; BPF_ALU64 .| BPF_RSH .| BPF_X; BPF_ALU64 .| BPF_ARSH .| BPF_X],
      emit_alu64 code dst src imm);
    ([BPF_ALU64 .| BPF_NEG], emit_rv32_alu_r64 dst tmp2 (BPF_OP code);; ret 0);
    (both BPF_ALU64 BPF_DIV ++ both BPF_ALU64 BPF_MOD, ret (- EFAULT));
    ([BPF_ALU64 .| BPF_MOV .| BPF_K; BPF_ALU64 .| BPF_LSH .| BPF_K;
      BPF_ALU64 .| BPF_RSH .| BPF_K; BPF_ALU64 .| BPF_ARSH .| BPF_K],
      emit_rv32_alu_i64 dst imm (BPF_OP code);; ret 0) ].

Definition alu32_cases (zext : bool) (code : Z) (dst src : Z * Z) (imm : Z) : list (list Z * M Z) :=
  [ ([BPF_ALU .| BPF_MOV .| BPF_X],
      if imm =? 1 then emit_rv32_zext64 dst;; ret 0 else emit_alu32 zext code dst src imm);
    (both BPF_ALU BPF_ADD ++ both BPF_ALU BPF_SUB ++ both BPF_ALU BPF_AND ++ both BPF_ALU BPF_OR ++
     both BPF_ALU BPF_XOR ++ both BPF_ALU BPF_MUL ++ both BPF_ALU BPF_DIV ++ both BPF_ALU BPF_MOD ++
     both BPF_ALU BPF_LSH ++ both BPF_ALU BPF_RSH ++ both BPF_ALU BPF_ARSH,
      emit_alu32 zext code dst src imm);
    ([BPF_ALU .| BPF_MOV .| BPF_K], emit_rv32_alu_i32 zext dst imm (BPF_OP code);; ret 0);
    ([BPF_ALU .| BPF_NEG], emit_rv32_alu_r32 zext dst tmp2 (BPF_OP code);; ret 0);
    ([BPF_ALU .| BPF_END .| BPF_FROM_LE], emit_end end_le_code dst imm);
    ([BPF_ALU .| BPF_END .| BPF_FROM_BE], emit_end end_be_code dst imm) ].

Definition jmp_cases (insn : bpf_insn) (extra_pass : bool) (len : Z) (dst src : Z * Z) (i : Z) : list (list Z * M Z) :=
  [ ([BPF_JMP .| BPF_JA],
      rvoff <- rv_offset (i + off insn) i;
      if negb (is_21b_int rvoff) then ret (-1)
      else emit (rv_jal RV_REG_ZERO (rvoff ≫ 1));; ret 0);
    ([BPF_JMP .| BPF_CALL], emit_call insn extra_pass);
    (jmp_labels BPF_JEQ ++ jmp_labels BPF_JNE ++ jmp_labels BPF_JLE ++ jmp_labels BPF_JLT ++
     jmp_labels BPF_JGE ++ jmp_labels BPF_JGT ++ jmp_labels BPF_JSLE ++ jmp_labels BPF_JSLT ++
     jmp_labels BPF_JSGE ++ jmp_labels BPF_JSGT ++ jmp_labels BPF_JSET,
      emit_jmp (code insn) dst src (off insn) (imm insn) i);
    ([BPF_JMP .| BPF_EXIT],
      if i =? len - 1 then ret 0
      else
        rvoff <- epilogue_off;
        if negb (is_21b_check rvoff i =? 0) then ret (-1)
        else emit (rv_jal RV_REG_ZERO (rvoff ≫ 1));; ret 0) ].

(** [insn1] is insn[1], when there is one. *)
Definition mem_cases (insn : bpf_insn) (insn1 : option bpf_insn) (dst src : Z * Z) : list (list Z * M Z) :=
  [ ([BPF_LD .| BPF_IMM .| BPF_DW],
      match insn1 with
      | None => undef
      | Some insn1 =>
          let imm_lo := imm insn in
          let imm_hi := imm insn1 in
          rd <- rv32_bpf_get_reg64 dst tmp1;
          emit_imm64 rd imm_hi imm_lo;;
          rv32_bpf_put_reg64 dst rd;;
          ret 1
      end);
    ([BPF_LDX .| BPF_MEM .| BPF_B; BPF_LDX .| BPF_MEM .| BPF_H; BPF_LDX .| BPF_MEM .| BPF_W; BPF_LDX .| BPF_MEM .| BPF_DW],
      r <- emit_rv32_load_r64 dst src (off insn) (BPF_SIZE (code insn));
      if negb (r =? 0) then ret (-1) else ret 0);
    ([BPF_ST .| BPF_MEM .| BPF_B; BPF_STX .| BPF_MEM .| BPF_B; BPF_ST .| BPF_MEM .| BPF_H; BPF_STX .| BPF_MEM .| BPF_H;
      BPF_ST .| BPF_MEM .| BPF_W; BPF_STX .| BPF_MEM .| BPF_W; BPF_ST .| BPF_MEM .| BPF_DW; BPF_STX .| BPF_MEM .| BPF_DW;
      BPF_STX .| BPF_XADD .| BPF_W],
      src <- src_or_imm (BPF_CLASS (code insn) =? BPF_ST) src (imm insn);
      r <- emit_rv32_store_r64 dst src (off insn) (BPF_SIZE (code insn)) (BPF_MODE (code insn));
      if negb (r =? 0) then ret (-1) else ret 0);
    ([BPF_STX .| BPF_XADD .| BPF_DW], ret (- EFAULT)) ].

(** All the cases of the switch. *)
Definition emit_cases (prog : bpf_prog) (insn : bpf_insn) (insn1 : option bpf_insn) (i : Z) (extra_pass : bool)
    (dst src : Z * Z) : list (list Z * M Z) :=
  alu64_cases (code insn) dst src (imm insn) ++
  alu32_cases (verifier_zext prog) (code insn) dst src (imm insn) ++
  jmp_cases insn extra_pass (len prog) dst src i ++
  mem_cases insn insn1 dst src.

Definition emit_insn (prog : bpf_prog) (insn : bpf_insn) (insn1 : option bpf_insn) (i : Z) (extra_pass : bool) : M Z :=
  dst <- bpf2rv (dst_reg insn);
  src <- bpf2rv (src_reg insn);
  switch (code insn) (emit_cases prog insn insn1 i extra_pass dst src) (ret (- EINVAL)).

(** * Prologue, body and epilogue *)

Definition round_up (x y : Z) : Z := ((x + y - 1) / y) * y.

Definition set_stack_size (n : Z) : M unit := fun ctx =>
  Some ((), Ctx (insns ctx) (ninsns ctx) (epilogue_offset ctx) (offset ctx) (flags ctx) n).

(** The space for the program's stack, and for all of the frame. *)
Definition bpf_stack_adjust (prog : bpf_prog) : Z := round_up (stack_depth prog) 16.
Definition stack_adjust (prog : bpf_prog) : Z := round_up 32 16 + bpf_stack_adjust prog + 4 * BPF_JIT_SCRATCH_REGS.

(** The instructions of the prologue. *)
Definition prologue_code (prog : bpf_prog) : M unit :=
  let store_offset := round_up 32 16 + bpf_stack_adjust prog - 8 in
  fp <- bpf2rv BPF_REG_FP;
  r1 <- bpf2rv 1;
  emit (rv_addi RV_REG_SP RV_REG_SP (- stack_adjust prog));;
  emit (rv_sw RV_REG_SP (store_offset - 0) RV_REG_RA);;
  emit (rv_sw RV_REG_SP (store_offset - 4) RV_REG_FP);;
  emit (rv_sw RV_REG_SP (store_offset - 8) RV_REG_S1);;
  emit (rv_sw RV_REG_SP (store_offset - 12) RV_REG_S2);;
  emit (rv_sw RV_REG_SP (store_offset - 16) RV_REG_S3);;
  emit (rv_sw RV_REG_SP (store_offset - 20) RV_REG_S4);;
  emit (rv_sw RV_REG_SP (store_offset - 24) RV_REG_S5);;
  emit (rv_sw RV_REG_SP (store_offset - 28) RV_REG_S6);;
  emit (rv_addi RV_REG_FP RV_REG_SP (stack_adjust prog));;
  emit (rv_addi fp.2 RV_REG_SP (bpf_stack_adjust prog));;
  emit (rv_addi fp.1 RV_REG_ZERO 0);;
  emit (rv_addi r1.2 RV_REG_A0 0);;
  emit (rv_addi r1.1 RV_REG_ZERO 0).

Definition build_prologue (prog : bpf_prog) : M unit :=
  prologue_code prog;;
  set_stack_size (stack_adjust prog).

(** The instructions of the epilogue, for a frame of [stack_adjust] bytes. *)
Definition epilogue_code (stack_adjust : Z) : M unit :=
  let store_offset := stack_adjust - 8 in
  let store_offset := store_offset - 4 * BPF_JIT_SCRATCH_REGS in
  r0 <- bpf2rv 0;
  emit (rv_addi RV_REG_A0 r0.2 0);;
  emit (rv_addi RV_REG_A1 r0.1 0);;
  emit (rv_lw RV_REG_RA (store_offset - 0) RV_REG_SP);;
  emit (rv_lw RV_REG_FP (store_offset - 4) RV_REG_SP);;
  emit (rv_lw RV_REG_S1 (store_offset - 8) RV_REG_SP);;
  emit (rv_lw RV_REG_S2 (store_offset - 12) RV_REG_SP);;
  emit (rv_lw RV_REG_S3 (store_offset - 16) RV_REG_SP);;
  emit (rv_lw RV_REG_S4 (store_offset - 20) RV_REG_SP);;
  emit (rv_lw RV_REG_S5 (store_offset - 24) RV_REG_SP);;
  emit (rv_lw RV_REG_S6 (store_offset - 28) RV_REG_SP);;
  emit (rv_addi RV_REG_SP RV_REG_SP stack_adjust);;
  emit (rv_jalr RV_REG_ZERO RV_REG_RA 0).

Definition build_epilogue : M unit := fun ctx => epilogue_code (stack_size ctx) ctx.

(** if (ctx->insns == NULL) ctx->offset[i] = ctx->ninsns; *)
Definition record_offset (i : Z) : M unit := fun ctx =>
  match insns ctx with
  | Some _ => Some ((), ctx)
  | None =>
      match offset ctx i with
      | Some _ => Some ((), Ctx None (ninsns ctx) (epilogue_offset ctx) (<[i := Some (ninsns ctx)]> (offset ctx))
                              (flags ctx) (stack_size ctx))
      | None => None
      end
  end.

(** The loop over the instructions from index [i] on. *)
Fixpoint build_body_from (prog : bpf_prog) (extra_pass : bool) (i : Z) (l : list bpf_insn) : M Z :=
  match l with
  | [] => ret 0
  | insn :: l =>
      r <- emit_insn prog insn (head l) i extra_pass;
      if r >? 0 then
        record_offset (i + 1);;
        match l with
        | [] => ret 0
        | _ :: l => build_body_from prog extra_pass (i + 2) l
        end
      else
        record_offset i;;
        if negb (r =? 0) then ret r else build_body_from prog extra_pass (i + 1) l
  end.

Definition build_body (prog : bpf_prog) (extra_pass : bool) : M Z :=
  build_body_from prog extra_pass 0 (insnsi prog).

(** * The compiler *)

Definition bpf_jit_needs_zext : bool := true.

(** Setting the output buffer, the epilogue and the count of instructions. *)
Definition set_epilogue_offset : M unit := fun ctx =>
  Some ((), Ctx (insns ctx) (ninsns ctx) (ninsns ctx) (offset ctx) (flags ctx) (stack_size ctx)).
Definition set_image (image : Z -> Z) (ctx : rv_jit_context) : rv_jit_context :=
  Ctx (Some image) (ninsns ctx) (epilogue_offset ctx) (offset ctx) (flags ctx) (stack_size ctx).
Definition reset_ninsns : M unit := fun ctx =>
  Some ((), Ctx (insns ctx) 0 (epilogue_offset ctx) (offset ctx) (flags ctx) (stack_size ctx)).

(** The context of a program that has not been compiled: everything is zero,
    and the offset table has an entry for each instruction. *)
Definition new_ctx (prog : bpf_prog) : rv_jit_context :=
  Ctx None 0 0 (fun i => if (0 <=? i) && (i <? len prog) then Some 0 else None) 0 0.

(** The first pass: offsets and sizes, no image. *)
Definition first_pass (prog : bpf_prog) : M Z :=
  r <- build_body prog false;
  if negb (r =? 0) then ret r
  else
    build_prologue prog;;
    set_epilogue_offset;;
    build_epilogue;;
    ret 0.

(** The second pass: the image. *)
Definition second_pass (prog : bpf_prog) (extra_pass : bool) : M Z :=
  reset_ninsns;;
  build_prologue prog;;
  r <- build_body prog extra_pass;
  if negb (r =? 0) then ret r
  else build_epilogue;; ret 0.

(** The services of the kernel: constant blinding, which may fail, and the
    allocations, which may return NULL; the image is allocated with its initial
    contents. *)
Context (bpf_jit_blind_constants : bpf_prog -> option bpf_prog).
Context (kzalloc_ok kcalloc_ok : bool).
Context (bpf_jit_binary_alloc : Z -> option (Z -> Z)).

Definition set_jit_data (d : option rv_jit_context) (p : bpf_prog) : bpf_prog :=
  Prog (insnsi p) (verifier_zext p) (stack_depth p) (jit_requested p) (is_func p) d (bpf_func p) (jited p) (jited_len p).

(** skip_init_ctx: the image is written, and the program made to use it. *)
Definition finish_compile (orig_prog prog : bpf_prog) (extra_pass : bool) (image_size : Z) (ctx : rv_jit_context) :
    option bpf_prog :=
  r ← second_pass prog extra_pass ctx;
  let '(err, ctx) := r in
  if negb (err =? 0) then Some (set_jit_data None orig_prog)
  else
    let data := if negb (is_func prog) || extra_pass then None else Some ctx in
    Some (Prog (insnsi prog) (verifier_zext prog) (stack_depth prog) (jit_requested prog) (is_func prog) data
               (insns ctx) true image_size).

(** The program the kernel goes on with: compiled, or the original one. *)
Definition bpf_int_jit_compile (prog : bpf_prog) : option bpf_prog :=
  let orig_prog := prog in
  if negb (jit_requested prog) then Some orig_prog
  else
    match bpf_jit_blind_constants prog with
    | None => Some orig_prog
    | Some prog =>
        match jit_data prog with
        | Some ctx => finish_compile orig_prog prog true (4 * ninsns ctx) ctx
        | None =>
            if negb kzalloc_ok then Some orig_prog
            else if negb kcalloc_ok then Some (set_jit_data None orig_prog)
            else
              r ← first_pass prog (new_ctx prog);
              let '(err, ctx) := r in
              if negb (err =? 0) then Some (set_jit_data None orig_prog)
              else
                let image_size := 4 * ninsns ctx in
                match bpf_jit_binary_alloc image_size with
                | None => Some (set_jit_data None orig_prog)
                | Some image => finish_compile orig_prog prog false image_size (set_image image ctx)
                end
        end
    end.
End jit.
