(* ===== verification/BpfJit32Half.v ===== *)
(** 64-bit arithmetic on the halves of a value: the equations that the RV32 BPF
    compiler's instruction sequences rest on. *)

From S2P Require Import Prelude.

Definition hi (x : Z) : Z := x ≫ 32.
Definition lo (x : Z) : Z := u32 x.

Lemma hi_div x : hi x = x / 2 ^ 32.
Proof. unfold hi. by rewrite Z.shiftr_div_pow2. Qed.

Lemma hi_uint x : uint 64 x -> uint 32 (hi x).
Proof.
  intros [H0 H1]. rewrite hi_div. split; [apply Z.div_pos; lia|]. apply Z.div_lt_upper_bound; lia.
Qed.

Lemma hi_val x : hi x = x ≫ 32.
Proof. done. Qed.

Lemma lo_val x : lo x = u32 x.
Proof. done. Qed.

Lemma lo_uint x : uint 32 (lo x).
Proof. by apply uint_wrap. Qed.

Lemma halves x : x = hi x * 2 ^ 32 + lo x.
Proof. rewrite hi_div. unfold lo, wrap. pose proof (Z.div_mod x (2 ^ 32)). lia. Qed.

Lemma halves_unique h l x : x = h * 2 ^ 32 + l -> uint 32 l -> hi x = h /\ lo x = l.
Proof.
  intros -> [H0 H1]. rewrite hi_div. unfold lo, wrap. split.
  - rewrite Z.add_comm, Z.div_add, Z.div_small by lia. lia.
  - rewrite Z.add_comm, Z_mod_plus_full. apply Z.mod_small. lia.
Qed.

Lemma hi_u64 x : hi (u64 x) = u32 (hi x).
Proof. unfold hi. zbits. Qed.

Lemma lo_u64 x : lo (u64 x) = u32 x.
Proof. unfold lo. by rewrite wrap_wrap_le by lia. Qed.

Lemma u32_lo x : u32 (lo x) = lo x.
Proof. apply wrap_wrap. Qed.

Lemma u32_hi x : uint 64 x -> u32 (hi x) = hi x.
Proof. intros. by apply wrap_small, hi_uint. Qed.

Lemma halves_inj x y : hi x = hi y -> lo x = lo y -> x = y.
Proof. intros Eh El. by rewrite (halves x), (halves y), Eh, El. Qed.

Lemma hi_small x : uint 32 x -> hi x = 0.
Proof. intros [? ?]. rewrite hi_div. apply Z.div_small. lia. Qed.

Lemma lo_small x : uint 32 x -> lo x = x.
Proof. intros. by apply wrap_small. Qed.

(** Equations of wrapped values from equations up to a multiple. *)
Lemma u32_eq_mult x y k : x = y + k * 2 ^ 32 -> u32 x = u32 y.
Proof. intros ->. apply Z_mod_plus_full. Qed.

(** * Addition, subtraction, multiplication *)

Lemma carry a b : uint 32 a -> uint 32 b -> (a + b) / 2 ^ 32 = Z.b2z (u32 (a + b) <? a).
Proof.
  unfold uint, wrap. intros Ha Hb. destruct (Z_lt_ge_dec (a + b) (2 ^ 32)).
  - rewrite Z.div_small, Z.mod_small by lia. destruct (Z.ltb_spec (a + b) a); cbn; lia.
  - rewrite <- (Z.mod_unique (a + b) (2 ^ 32) 1 (a + b - 2 ^ 32)) by lia.
    rewrite <- (Z.div_unique (a + b) (2 ^ 32) 1 (a + b - 2 ^ 32)) by lia.
    destruct (Z.ltb_spec (a + b - 2 ^ 32) a); cbn; lia.
Qed.

Lemma borrow a b : uint 32 a -> uint 32 b -> (a - b) / 2 ^ 32 = - Z.b2z (a <? u32 (a - b)).
Proof.
  unfold uint, wrap. intros Ha Hb. destruct (Z_lt_ge_dec (a - b) 0).
  - rewrite <- (Z.mod_unique (a - b) (2 ^ 32) (-1) (a - b + 2 ^ 32)) by lia.
    rewrite <- (Z.div_unique (a - b) (2 ^ 32) (-1) (a - b + 2 ^ 32)) by lia.
    destruct (Z.ltb_spec a (a - b + 2 ^ 32)); cbn; lia.
  - rewrite Z.div_small, Z.mod_small by lia. destruct (Z.ltb_spec a (a - b)); cbn; lia.
Qed.

Lemma hi_sum h l : hi (h * 2 ^ 32 + l) = h + l / 2 ^ 32.
Proof. rewrite hi_div, Z.add_comm, Z.div_add by lia. lia. Qed.

Lemma lo_add a b : lo (u64 (a + b)) = u32 (lo a + lo b).
Proof. rewrite lo_u64. unfold lo. by rewrite wrap_add_l, wrap_add_r. Qed.

Lemma hi_add a b : hi (u64 (a + b)) = u32 (u32 (hi a + hi b) + Z.b2z (u32 (lo a + lo b) <? lo a)).
Proof.
  rewrite hi_u64, wrap_add_l. f_equal. rewrite <- carry by apply lo_uint.
  rewrite (halves a), (halves b) at 1. rewrite <- hi_sum. f_equal. lia.
Qed.

Lemma lo_sub a b : lo (u64 (a - b)) = u32 (lo a - lo b).
Proof. rewrite lo_u64. unfold lo. by rewrite wrap_sub_l, wrap_sub_r. Qed.

Lemma hi_sub a b : hi (u64 (a - b)) = u32 (u32 (hi a - hi b) - Z.b2z (lo a <? u32 (lo a - lo b))).
Proof.
  rewrite hi_u64, wrap_sub_l. f_equal.
  replace (hi a - hi b - Z.b2z (lo a <? u32 (lo a - lo b))) with (hi a - hi b + (lo a - lo b) / 2 ^ 32)
    by (rewrite borrow by apply lo_uint; lia).
  rewrite (halves a), (halves b) at 1. rewrite <- hi_sum. f_equal. lia.
Qed.

Lemma lo_neg a : lo (u64 (- a)) = u32 (0 - lo a).
Proof. rewrite <- Z.sub_0_l. apply (lo_sub 0). Qed.

Lemma hi_neg a : hi (u64 (- a)) = u32 (u32 (0 - hi a) - Z.b2z (0 <? u32 (0 - lo a))).
Proof. rewrite <- Z.sub_0_l. apply (hi_sub 0). Qed.

Lemma lo_mul a b : lo (u64 (a * b)) = u32 (lo a * lo b).
Proof. rewrite lo_u64. unfold lo. by rewrite wrap_mul_l, wrap_mul_r. Qed.

Lemma hi_mul a b :
  hi (u64 (a * b)) = u32 (u32 (u32 (hi a * lo b) + u32 (hi b * lo a)) + u32 ((lo a * lo b) ≫ 32)).
Proof.
  rewrite hi_u64.
  assert (a * b = (hi a * hi b * 2 ^ 32 + hi a * lo b + hi b * lo a) * 2 ^ 32 + lo a * lo b) as ->.
  { assert (forall ha la hb lb, (ha * 2 ^ 32 + la) * (hb * 2 ^ 32 + lb) =
      (ha * hb * 2 ^ 32 + ha * lb + hb * la) * 2 ^ 32 + la * lb) as <- by (intros; ring). by rewrite <- !halves. }
  rewrite hi_sum. generalize (hi a), (lo a), (hi b), (lo b). intros ha la hb lb.
  rewrite (wrap_add_l 32 (ha * lb)), (wrap_add_r 32 (ha * lb)), wrap_add_l, wrap_add_r.
  rewrite Z.shiftr_div_pow2 by lia. apply (u32_eq_mult _ _ (ha * hb)). ring.
Qed.

(** * Bitwise operations *)

Lemma hi_land a b : hi (a .& b) = hi a .& hi b.
Proof. apply Z.shiftr_land. Qed.
Lemma lo_land a b : lo (a .& b) = lo a .& lo b.
Proof. unfold lo. zbits. Qed.
Lemma hi_lor a b : hi (a .| b) = hi a .| hi b.
Proof. apply Z.shiftr_lor. Qed.
Lemma lo_lor a b : lo (a .| b) = lo a .| lo b.
Proof. unfold lo. zbits. Qed.
Lemma hi_lxor a b : hi (Z.lxor a b) = Z.lxor (hi a) (hi b).
Proof. apply Z.shiftr_lxor. Qed.
Lemma lo_lxor a b : lo (Z.lxor a b) = Z.lxor (lo a) (lo b).
Proof. unfold lo. zbits. Qed.

(** * Shifts *)

Section shifts.
Context (a n : Z).
Hypothesis Ha : uint 64 a.

Ltac shift_bits := intros; unfold hi, lo; zbits.

Lemma shl_large_lo : 32 <= n < 64 -> lo (u64 (a ≪ n)) = 0.
Proof. shift_bits. Qed.
Lemma shl_large_hi : 32 <= n < 64 -> hi (u64 (a ≪ n)) = u32 (lo a ≪ (n - 32)).
Proof. shift_bits. Qed.
Lemma shl_small_lo : 0 <= n < 32 -> lo (u64 (a ≪ n)) = u32 (lo a ≪ n).
Proof. shift_bits. Qed.
Lemma shl_small_hi : 0 <= n < 32 -> hi (u64 (a ≪ n)) = (lo a ≫ 1) ≫ (31 - n) .| u32 (hi a ≪ n).
Proof. shift_bits. Qed.
Lemma shl_imm_hi : 0 < n < 32 -> hi (u64 (a ≪ n)) = lo a ≫ (32 - n) .| u32 (hi a ≪ n).
Proof. shift_bits. Qed.

Lemma shr_large_lo : 32 <= n < 64 -> lo (a ≫ n) = hi a ≫ (n - 32).
Proof. shift_bits. Qed.
Lemma shr_large_hi : 32 <= n < 64 -> hi (a ≫ n) = 0.
Proof. shift_bits. Qed.
Lemma shr_small_lo : 0 <= n < 32 -> lo (a ≫ n) = u32 (u32 (hi a ≪ 1) ≪ (31 - n)) .| lo a ≫ n.
Proof. shift_bits. Qed.
Lemma shr_small_hi : 0 <= n < 32 -> hi (a ≫ n) = hi a ≫ n.
Proof. shift_bits. Qed.
Lemma shr_imm_lo : 0 < n < 32 -> lo (a ≫ n) = u32 (hi a ≪ (32 - n)) .| lo a ≫ n.
Proof. shift_bits. Qed.

Lemma sar_large_lo : 32 <= n < 64 -> lo (u64 (sgn 64 a ≫ n)) = u32 (sgn 32 (hi a) ≫ (n - 32)).
Proof. shift_bits. Qed.
Lemma sar_large_hi : 32 <= n < 64 -> hi (u64 (sgn 64 a ≫ n)) = u32 (sgn 32 (hi a) ≫ 31).
Proof. shift_bits. Qed.
Lemma sar_small_lo : 0 <= n < 32 -> lo (u64 (sgn 64 a ≫ n)) = u32 (u32 (hi a ≪ 1) ≪ (31 - n)) .| lo a ≫ n.
Proof. shift_bits. Qed.
Lemma sar_small_hi : 0 <= n < 32 -> hi (u64 (sgn 64 a ≫ n)) = u32 (sgn 32 (hi a) ≫ n).
Proof. shift_bits. Qed.
Lemma sar_imm_lo : 0 < n < 32 -> lo (u64 (sgn 64 a ≫ n)) = u32 (hi a ≪ (32 - n)) .| lo a ≫ n.
Proof. shift_bits. Qed.
End shifts.

(** * Immediates *)

Lemma lo_imm k : lo (u64 k) = u32 k.
Proof. apply lo_u64. Qed.

Lemma hi_imm k : - 2 ^ 31 <= k < 2 ^ 31 -> hi (u64 k) = u32 (sgn 32 (u32 k) ≫ 31).
Proof. intros. rewrite sgn_of_wrap, sgn_small by lia. unfold hi. rewrite <- (sgn_small 32 k) by lia. zbits. Qed.

(** * Comparisons *)

Section compare.
Context (a b : Z).
Hypothesis Ha : uint 64 a.
Hypothesis Hb : uint 64 b.

Ltac split_halves :=
  pose proof (hi_uint a Ha) as [? ?]; pose proof (hi_uint b Hb) as [? ?];
  pose proof (lo_uint a) as [? ?]; pose proof (lo_uint b) as [? ?];
  pose proof (halves a); pose proof (halves b).

Lemma eqb_halves : (a =? b) = (hi a =? hi b) && (lo a =? lo b).
Proof. split_halves. apply eq_true_iff_eq. rewrite andb_true_iff, !Z.eqb_eq. split; [by intros ->|lia]. Qed.

Lemma ltb_halves : (a <? b) = (hi a <? hi b) || (hi a =? hi b) && (lo a <? lo b).
Proof. split_halves. apply eq_true_iff_eq. rewrite orb_true_iff, andb_true_iff, !Z.ltb_lt, Z.eqb_eq. lia. Qed.

Lemma leb_halves : (a <=? b) = (hi a <? hi b) || (hi a =? hi b) && (lo a <=? lo b).
Proof. split_halves. apply eq_true_iff_eq. rewrite orb_true_iff, andb_true_iff, Z.ltb_lt, !Z.leb_le, Z.eqb_eq. lia. Qed.

Lemma sgn_halves x : uint 64 x -> sgn 64 x = sgn 32 (hi x) * 2 ^ 32 + lo x.
Proof.
  intros Hx. pose proof (hi_uint x Hx) as [? ?]. pose proof (lo_uint x) as [? ?]. pose proof (halves x).
  unfold sgn. rewrite !Z.mod_small by (unfold uint in *; lia).
  destruct (Z.ltb_spec x (2 ^ (64 - 1))), (Z.ltb_spec (hi x) (2 ^ (32 - 1))); lia.
Qed.

Lemma sgn_hi_eqb : (sgn 32 (hi a) =? sgn 32 (hi b)) = (hi a =? hi b).
Proof.
  apply eq_true_iff_eq. rewrite !Z.eqb_eq. split; [|congruence]. intros E.
  pose proof (hi_uint a Ha). pose proof (hi_uint b Hb).
  rewrite <- (wrap_small 32 (hi a)), <- (wrap_small 32 (hi b)) by done.
  by rewrite <- (sgn_wrap 32 (hi a)), <- (sgn_wrap 32 (hi b)), E.
Qed.

Lemma slt_halves : (sgn 64 a <? sgn 64 b) = (sgn 32 (hi a) <? sgn 32 (hi b)) || (hi a =? hi b) && (lo a <? lo b).
Proof.
  split_halves. rewrite <- sgn_hi_eqb, !sgn_halves by done. apply eq_true_iff_eq.
  rewrite orb_true_iff, andb_true_iff, !Z.ltb_lt, Z.eqb_eq. lia.
Qed.

Lemma sle_halves : (sgn 64 a <=? sgn 64 b) = (sgn 32 (hi a) <? sgn 32 (hi b)) || (hi a =? hi b) && (lo a <=? lo b).
Proof.
  split_halves. rewrite <- sgn_hi_eqb, !sgn_halves by done. apply eq_true_iff_eq.
  rewrite orb_true_iff, andb_true_iff, Z.ltb_lt, !Z.leb_le, Z.eqb_eq. lia.
Qed.

Lemma jset_halves : (a .& b =? 0) = (hi a .& hi b =? 0) && (lo a .& lo b =? 0).
Proof.
  rewrite <- hi_land, <- lo_land. pose proof (halves (a .& b)). pose proof (lo_uint (a .& b)) as [? ?].
  apply eq_true_iff_eq. rewrite andb_true_iff, !Z.eqb_eq. split; [by intros ->|lia].
Qed.
End compare.

#[global] Opaque hi lo.
