(* ===== verification/BpfJit32Mem.v ===== *)
(** Little-endian accesses byte by byte: what a store leaves at an address, when
    two loads agree, and the halves of a load of eight bytes. The proofs on the
    RV32 BPF compiler relate an interpreter with 64-bit addresses to a processor
    with 32-bit ones through these facts. *)

From S2P Require Import Prelude Cstring Bytes BpfJit32Half.

(** * Bytes of an access *)

Lemma le_bytes_lookup n v i : (i < n)%nat -> to_bytes n v !! i = Some (u8 (v ≫ (8 * Z.of_nat i))).
Proof.
  revert v i. induction n as [|n IH]; intros v i Hi; [lia|]. cbn [to_bytes]. destruct i as [|i]; cbn [lookup list_lookup].
  - by rewrite Z.shiftr_0_r.
  - rewrite IH by lia. rewrite Z.shiftr_shiftr by lia. do 3 f_equal. lia.
Qed.

Lemma read_bytes_lookup aw n m a i : (i < n)%nat -> read_bytes aw n m a !! i = Some (u8 (m (wrap aw (a + Z.of_nat i)))).
Proof.
  revert a i. induction n as [|n IH]; intros a i Hi; [lia|]. cbn [read_bytes]. destruct i as [|i]; cbn [lookup list_lookup].
  - by rewrite Z.add_0_r.
  - rewrite IH by lia. do 4 f_equal. lia.
Qed.

(** Loads of equal bytes are equal. *)
Lemma load_le_ext aw aw' n m m' a a' :
  (forall i, 0 <= i < Z.of_nat n -> m (wrap aw (a + i)) = m' (wrap aw' (a' + i))) -> load_le aw n m a = load_le aw' n m' a'.
Proof.
  intros H. unfold load_le. f_equal. apply list_eq. intros i. destruct (decide (i < n)%nat).
  - rewrite !read_bytes_lookup by done. by rewrite H by lia.
  - rewrite !lookup_ge_None_2 by (rewrite read_bytes_length; lia). done.
Qed.

(** A load of the bytes just stored, and one of other bytes. *)
Lemma load_store_same aw n m a v : 0 <= aw -> Z.of_nat n <= 2 ^ aw ->
  load_le aw n (store_le aw n m a v) a = wrap (8 * Z.of_nat n) v.
Proof.
  intros Haw Hn. unfold load_le at 1. rewrite <- of_to_bytes. f_equal. apply list_eq. intros i. destruct (decide (i < n)%nat).
  - rewrite read_bytes_lookup, le_bytes_lookup by done. rewrite store_le_byte by (done || (by apply uint_wrap) || lia).
    rewrite wrap_sub_l, (Z.add_simpl_l a), (wrap_small aw (Z.of_nat i)) by (unfold uint; lia).
    rewrite (proj2 (Z.ltb_lt _ _)) by lia. by rewrite wrap_wrap.
  - rewrite !lookup_ge_None_2; [done|rewrite to_bytes_length; lia|rewrite read_bytes_length; lia].
Qed.

Lemma load_store_other aw n n' m a b v : 0 <= aw -> Z.of_nat n <= 2 ^ aw ->
  (forall i, 0 <= i < Z.of_nat n' -> Z.of_nat n <= wrap aw (b + i - a)) ->
  load_le aw n' (store_le aw n m a v) b = load_le aw n' m b.
Proof.
  intros Haw Hn Hd. apply load_le_ext. intros i Hi. rewrite store_le_byte by (done || (by apply uint_wrap) || lia).
  rewrite wrap_sub_l. specialize (Hd i Hi). by rewrite (proj2 (Z.ltb_ge _ _)) by lia.
Qed.

(** ** Halves of eight bytes *)

Lemma of_bytes_app l1 l2 : of_bytes (l1 ++ l2) = of_bytes l1 .| of_bytes l2 ≪ (8 * Z.of_nat (length l1)).
Proof.
  induction l1 as [|x l1 IH]; cbn [app of_bytes length].
  - by rewrite Z.lor_0_l, Z.mul_0_r, Z.shiftl_0_r.
  - rewrite IH, Z.shiftl_lor, Z.shiftl_shiftl, Z.lor_assoc by lia. do 2 f_equal. lia.
Qed.

Lemma load_le_halves aw m a : hi (load_le aw 8 m a) = load_le aw 4 m (a + 4) /\ lo (load_le aw 8 m a) = load_le aw 4 m a.
Proof.
  apply halves_unique; [|apply (load_le_range aw 4)]. unfold load_le.
  assert (read_bytes aw 8 m a = read_bytes aw 4 m a ++ read_bytes aw 4 m (a + 4)) as ->.
  { cbn [read_bytes app]. by rewrite <- !Z.add_assoc. }
  rewrite of_bytes_app, read_bytes_length. change (8 * Z.of_nat 4) with 32. rewrite Z.lor_comm.
  pose proof (load_le_range aw 4 m a) as Hl. unfold load_le in Hl. set (x := of_bytes (read_bytes aw 4 m a)) in *.
  rewrite <- Z.shiftl_mul_pow2 by lia. symmetry. rewrite Z.add_nocarry_lxor, Z.lxor_lor; [done|..].
  all: apply Z.bits_inj'; intros n Hn; rewrite Z.land_spec, Z.shiftl_spec, Z.bits_0 by lia;
    destruct (Z_lt_ge_dec n 32); [by rewrite Z.testbit_neg_r by lia|rewrite (testbit_uint 32 x) by (done || lia); apply andb_false_r].
Qed.

(** A store of eight bytes is two stores of four. *)
Lemma store_le_halves aw m a v x : 3 <= aw -> uint aw x ->
  store_le aw 4 (store_le aw 4 m a (lo v)) (a + 4) (hi v) x = store_le aw 8 m a v x.
Proof.
  intros Haw Hx. assert (2 ^ 3 <= 2 ^ aw) by (apply Z.pow_le_mono_r; lia).
  rewrite !store_le_byte by (done || lia). change (Z.of_nat 4) with 4. change (Z.of_nat 8) with 8.
  set (d := wrap aw (x - a)). pose proof (wrap_range aw (x - a) ltac:(lia)) as Hr. fold d in Hr.
  assert (wrap aw (x - (a + 4)) = if 4 <=? d then d - 4 else d - 4 + 2 ^ aw) as ->.
  { replace (x - (a + 4)) with (x - a - 4) by lia. rewrite <- wrap_sub_l. fold d. unfold wrap. destruct (Z.leb_spec 4 d).
    - apply Z.mod_small. lia.
    - symmetry. apply (Z.mod_unique _ _ (-1)); lia. }
  destruct (Z.leb_spec 4 d), (Z.ltb_spec d 4), (Z.ltb_spec d 8); try lia.
  - rewrite (proj2 (Z.ltb_lt _ _)) by lia. rewrite hi_val, Z.shiftr_shiftr by lia. do 2 f_equal. lia.
  - by rewrite (proj2 (Z.ltb_ge _ _)) by lia.
  - rewrite (proj2 (Z.ltb_ge _ _)) by lia. rewrite lo_val. zbits.
Qed.
