(* ===== verification/BpfJit32Exec.v ===== *)
(** Running the code of the RV32 BPF compiler. The code of one BPF instruction
    may branch within itself, so execution is reachability over the words at
    their places. [wp m k c Q] says that the compiler operation [m], called with
    [k] instructions emitted, emits words that take the processor [c] to one that
    satisfies [Q], together with the value [m] returns and the new count. *)

From S2P Require Import Prelude Cstring Bytes Bpf Riscv RvEmit RvEnc RvExec BpfJit32.

Section exec.
Context (T : Z -> option Z) (E base : Z).

(** The address of instruction [k] of the image. *)
Definition addr (k : Z) : Z := u32 (base + 4 * k).

Lemma addr_uint k : uint 32 (addr k).
Proof. by apply uint_wrap. Qed.

Lemma addr_add k d : u32 (addr k + 4 * d) = addr (k + d).
Proof. unfold addr. rewrite wrap_add_l. f_equal. lia. Qed.

Lemma addr_next k : u32 (addr k + 4) = addr (k + 1).
Proof. apply (addr_add k 1). Qed.

(** Steps through partial code. *)
Inductive reach (code : Z -> option Z) : cpu -> cpu -> Prop :=
| reach_refl c : reach code c c
| reach_step k w c c1 c2 : pc c = addr k -> code k = Some w -> exec_word 32 w c = Some c1 ->
    reach code c1 c2 -> reach code c c2.

Lemma reach_trans code c1 c2 c3 : reach code c1 c2 -> reach code c2 c3 -> reach code c1 c3.
Proof. induction 1; eauto using reach. Qed.

Lemma reach_mono code code' c c' : (forall k w, code k = Some w -> code' k = Some w) -> reach code c c' -> reach code' c c'.
Proof. intros H. induction 1; eauto using reach. Qed.

(** Steps of the processor whose memory holds the code. *)
Lemma reach_steps code image c c' : (forall k w, code k = Some w -> image k = w /\ 0 <= k < 2 ^ 30) ->
  reach code c c' -> exists n, rv_steps 32 image base n c = Some c'.
Proof.
  intros H. induction 1 as [c|k w c c1 c2 Hpc Hw Hx _ [n IH]]; [by exists 0%nat|]. exists (S n).
  apply H in Hw as [Hi Hk]. cbn [rv_steps]. unfold rv_step.
  assert (wrap 32 (pc c - base) = k * 4) as ->.
  { rewrite Hpc. unfold addr. rewrite wrap_sub_l. replace (base + 4 * k - base) with (k * 4) by lia. apply wrap_small. lia. }
  rewrite Z_mod_mult, Z.div_mul, Hi by lia. cbn [Z.eqb]. by rewrite Hx.
Qed.

(** The words [ws] from index [k] on. *)
Definition seg (k : Z) (ws : list Z) (j : Z) : option Z :=
  if k <=? j then ws !! Z.to_nat (j - k) else None.

Lemma seg_at k ws i : 0 <= i -> seg k ws (k + i) = ws !! Z.to_nat i.
Proof. intros. unfold seg. rewrite (proj2 (Z.leb_le k (k + i))) by lia. f_equal. lia. Qed.

Lemma seg_app_l k ws1 ws2 j w : seg k ws1 j = Some w -> seg k (ws1 ++ ws2) j = Some w.
Proof. unfold seg. destruct (_ <=? _); [|done]. by apply lookup_app_l_Some. Qed.

Lemma seg_app_r k ws1 ws2 j w : seg (k + Z.of_nat (length ws1)) ws2 j = Some w -> seg k (ws1 ++ ws2) j = Some w.
Proof.
  unfold seg. destruct (Z.leb_spec (k + Z.of_nat (length ws1)) j); [|done]. intros Hw.
  rewrite (proj2 (Z.leb_le k j)) by lia. rewrite lookup_app_r by lia. rewrite <- Hw. f_equal. lia.
Qed.

(** * Emission *)

(** [m] emits [ws] and returns [a], whenever the tables are those of the final
    pass and [k] instructions have been emitted. *)
Definition emits {A} (k : Z) (m : M A) (a : A) (ws : list Z) : Prop :=
  forall ctx, offset ctx = T -> epilogue_offset ctx = E -> ninsns ctx = k -> m ctx = Some (a, emit_all ws ctx).

Lemma emit_all_epilogue ws ctx : epilogue_offset (emit_all ws ctx) = epilogue_offset ctx.
Proof. revert ctx. induction ws as [|w ws IH]; intros ctx; [done|]. apply (IH (emit_ctx ctx w)). Qed.

Lemma emits_ret {A} k (a : A) : emits k (ret a) a [].
Proof. by intros ctx _ _ _. Qed.

Lemma emits_emit k w : emits k (emit w) () [w].
Proof. by intros ctx _ _ _. Qed.

Lemma emits_bind {A B} k (m : M A) (f : A -> M B) a b ws1 ws2 :
  emits k m a ws1 -> emits (k + Z.of_nat (length ws1)) (f a) b ws2 -> emits k (bind m f) b (ws1 ++ ws2).
Proof.
  intros H1 H2 ctx HT HE Hk. unfold bind. rewrite H1 by done. cbn.
  rewrite H2; [unfold emit_all; by rewrite foldl_app| | |].
  - by rewrite emit_all_offset.
  - by rewrite emit_all_epilogue.
  - by rewrite emit_all_ninsns, Hk.
Qed.

(** * Weakest preconditions *)

Definition wp {A} (m : M A) (k : Z) (c : cpu) (Q : A -> Z -> cpu -> Prop) : Prop :=
  exists a ws c', emits k m a ws /\ reach (seg k ws) c c' /\ Q a (k + Z.of_nat (length ws)) c'.

Lemma wp32_ret {A} (a : A) k c (Q : A -> Z -> cpu -> Prop) : Q a k c -> wp (ret a) k c Q.
Proof. intros H. exists a, [], c. split; [apply emits_ret|]. split; [apply reach_refl|]. by rewrite Z.add_0_r. Qed.

Lemma wp32_bind {A B} (m : M A) (f : A -> M B) k c (Q : B -> Z -> cpu -> Prop) :
  wp m k c (fun a k1 c1 => wp (f a) k1 c1 Q) -> wp (bind m f) k c Q.
Proof.
  intros (a & ws1 & c1 & E1 & R1 & b & ws2 & c2 & E2 & R2 & HQ). exists b, (ws1 ++ ws2), c2.
  split; [by eapply emits_bind|]. split.
  - eapply reach_trans; (eapply reach_mono; [|eassumption]); intros j w; [apply seg_app_l|apply seg_app_r].
  - rewrite length_app, Nat2Z.inj_add, Z.add_assoc. done.
Qed.

Lemma wp32_mono {A} (m : M A) k c (Q Q' : A -> Z -> cpu -> Prop) :
  wp m k c Q -> (forall a k' c', Q a k' c' -> Q' a k' c') -> wp m k c Q'.
Proof. intros (a & ws & c' & H1 & H2 & HQ) HI. exists a, ws, c'. auto. Qed.

Lemma wp32_ext {A} (m m' : M A) k c (Q : A -> Z -> cpu -> Prop) : (forall ctx, m ctx = m' ctx) -> wp m k c Q -> wp m' k c Q.
Proof. intros H (a & ws & c' & He & R). exists a, ws, c'. split; [|done]. intros ctx HT HE Hk. rewrite <- H. by apply He. Qed.

Lemma wp32_when (b : bool) (m : M unit) k c (Q : unit -> Z -> cpu -> Prop) :
  (if b then wp m k c Q else Q () k c) -> wp (when b m) k c Q.
Proof. destruct b; [done|apply wp32_ret]. Qed.

Lemma wp32_emit w k c c' (Q : unit -> Z -> cpu -> Prop) : pc c = addr k -> exec_word 32 w c = Some c' ->
  Q () (k + 1) c' -> wp (emit w) k c Q.
Proof.
  intros Hpc Hx HQ. exists (), [w], c'. split; [apply emits_emit|]. split; [|done].
  eapply (reach_step _ k w); [done| |done|apply reach_refl]. rewrite <- (Z.add_0_r k) at 2. by rewrite seg_at.
Qed.

(** An instruction that writes [v] to [rd]. *)
Lemma wp32_wr w k g m rd v (Q : unit -> Z -> cpu -> Prop) : exec_word 32 w (Cpu (addr k) g m) = wr 32 (addr k) g m rd v ->
  Q () (k + 1) (Cpu (addr (k + 1)) (<[rd := v]> g) m) -> wp (emit w) k (Cpu (addr k) g m) Q.
Proof. intros Hx HQ. eapply wp32_emit; [done|apply Hx|]. by rewrite addr_next. Qed.

Lemma wp32_get_offset j o k c (Q : Z -> Z -> cpu -> Prop) : T j = Some o -> Q o k c -> wp (get_offset j) k c Q.
Proof.
  intros Ho HQ. exists o, [], c. split; [|split; [apply reach_refl|by rewrite Z.add_0_r]].
  intros ctx Hc _ _. unfold get_offset. by rewrite Hc, Ho.
Qed.

Lemma wp32_epilogue_off k c (Q : Z -> Z -> cpu -> Prop) : Q (s32 (s32 (E - k) ≪ 2)) k c -> wp epilogue_off k c Q.
Proof.
  intros HQ. eexists _, [], c. split; [|split; [apply reach_refl|by rewrite Z.add_0_r]].
  intros ctx _ HE Hk. unfold epilogue_off. by rewrite HE, Hk.
Qed.

(** ** Code that branches within itself *)

(** From [c], somewhere in the words [ws] at [k], to a state of [Q]. *)
Definition rx (k : Z) (ws : list Z) (c : cpu) (Q : cpu -> Prop) : Prop := exists c', reach (seg k ws) c c' /\ Q c'.

Lemma rx_done k ws c (Q : cpu -> Prop) : Q c -> rx k ws c Q.
Proof. intros H. exists c. split; [apply reach_refl|done]. Qed.

Lemma rx_step k ws i w c c1 (Q : cpu -> Prop) : 0 <= i -> ws !! Z.to_nat i = Some w -> pc c = addr (k + i) ->
  exec_word 32 w c = Some c1 -> rx k ws c1 Q -> rx k ws c Q.
Proof.
  intros Hi Hw Hpc Hx (c' & R & HQ). exists c'. split; [|done]. eapply (reach_step _ (k + i) w); [done| |done|done].
  by rewrite seg_at.
Qed.

(** An instruction that writes [v] to [rd], a branch by [4 * d] bytes, and a jump. *)
Lemma rx_wr k ws i w g m rd v (Q : cpu -> Prop) : 0 <= i -> ws !! Z.to_nat i = Some w ->
  exec_word 32 w (Cpu (addr (k + i)) g m) = wr 32 (addr (k + i)) g m rd v ->
  rx k ws (Cpu (addr (k + (i + 1))) (<[rd := v]> g) m) Q -> rx k ws (Cpu (addr (k + i)) g m) Q.
Proof.
  intros Hi Hw Hx HQ. eapply rx_step; [done..|apply Hx|]. by rewrite addr_next, <- Z.add_assoc.
Qed.

Lemma rx_br k ws i w g m (b : bool) imm d (Q : cpu -> Prop) : 0 <= i -> ws !! Z.to_nat i = Some w ->
  exec_word 32 w (Cpu (addr (k + i)) g m) = br 32 (addr (k + i)) g m b imm -> sgn 12 imm * 2 = 4 * d ->
  rx k ws (Cpu (addr (k + (if b then i + d else i + 1))) g m) Q -> rx k ws (Cpu (addr (k + i)) g m) Q.
Proof.
  intros Hi Hw Hx Hd HQ. eapply rx_step; [done..|apply Hx|]. destruct b.
  - by rewrite Hd, addr_add, <- Z.add_assoc.
  - by rewrite addr_next, <- Z.add_assoc.
Qed.

Lemma rx_jal k ws i g m imm d (Q : cpu -> Prop) : 0 <= i -> ws !! Z.to_nat i = Some (rv_jal RV_REG_ZERO imm) ->
  sgn 20 imm * 2 = 4 * d ->
  rx k ws (Cpu (addr (k + (i + d))) g m) Q -> rx k ws (Cpu (addr (k + i)) g m) Q.
Proof.
  intros Hi Hw Hd HQ. eapply rx_step; [done..|by apply x_jal|]. by rewrite Hd, addr_add, <- Z.add_assoc.
Qed.

Lemma wp32_block {A} (m : M A) a ws k c (Q : A -> Z -> cpu -> Prop) : emits k m a ws ->
  rx k ws c (Q a (k + Z.of_nat (length ws))) -> wp m k c Q.
Proof. intros He (c' & R & HQ). by exists a, ws, c'. Qed.
End exec.

#[global] Arguments addr : simpl never.
