(* ===== verification/BpfJit32Ops.v ===== *)
(** Arithmetic of the RV32 BPF compiler on operands in registers: the sequences
    of alu_r64_code, alu_r32_code and emit_rv32_alu_i64 compute the halves of the
    value of the interpreter. *)

From S2P Require Import Prelude Cstring Bytes Bpf BpfSteps Riscv RvEmit RvEnc RvExec BpfJit32 BpfJit32Half BpfJit32Exec.

(** * Steps through emitted code *)

(** Register numbers differ: by a hypothesis or by computation. *)
Ltac neq := first [ assumption | apply not_eq_sym; assumption | discriminate ].

Ltac rvside :=
  first [ assumption | reflexivity | neq | split; [discriminate|reflexivity] | lia ].

Ltac open_regs := cbn [fst snd] in *.

(** The effect of a word, with its side conditions. *)
Ltac x_word :=
  lazymatch goal with
  | |- exec_word _ (rv_add _ _ _) _ = _ => apply x_add; rvside
  | |- exec_word _ (rv_sub _ _ _) _ = _ => apply x_sub; rvside
  | |- exec_word _ (rv_and _ _ _) _ = _ => apply x_and; rvside
  | |- exec_word _ (rv_or _ _ _) _ = _ => apply x_or; rvside
  | |- exec_word _ (rv_xor _ _ _) _ = _ => apply x_xor; rvside
  | |- exec_word _ (rv_mul _ _ _) _ = _ => apply x_mul; rvside
  | |- exec_word _ (rv_mulhu _ _ _) _ = _ => apply x_mulhu; rvside
  | |- exec_word _ (rv_sltu _ _ _) _ = _ => apply x_sltu; rvside
  | |- exec_word _ (rv_divu _ _ _) _ = _ => apply x_divu; rvside
  | |- exec_word _ (rv_remu _ _ _) _ = _ => apply x_remu; rvside
  | |- exec_word _ (rv_sll _ _ _) _ = _ => apply x_sll; rvside
  | |- exec_word _ (rv_srl _ _ _) _ = _ => apply x_srl; rvside
  | |- exec_word _ (rv_sra _ _ _) _ = _ => apply x_sra; rvside
  | |- exec_word _ (rv_addi _ _ _) _ = _ => apply x_addi; rvside
  | |- exec_word _ (rv_andi _ _ _) _ = _ => apply x_andi; rvside
  | |- exec_word _ (rv_lui _ _) _ = _ => apply x_lui; rvside
  | |- exec_word _ (rv_slli _ _ _) _ = _ => apply x_slli; rvside
  | |- exec_word _ (rv_srli _ _ _) _ = _ => apply x_srli; rvside
  | |- exec_word _ (rv_srai _ _ _) _ = _ => apply x_srai; rvside
  | |- exec_word _ (rv_beq _ _ _) _ = _ => apply x_beq; rvside
  | |- exec_word _ (rv_bne _ _ _) _ = _ => apply x_bne; rvside
  | |- exec_word _ (rv_blt _ _ _) _ = _ => apply x_blt; rvside
  | |- exec_word _ (rv_bge _ _ _) _ = _ => apply x_bge; rvside
  | |- exec_word _ (rv_bltu _ _ _) _ = _ => apply x_bltu; rvside
  | |- exec_word _ (rv_bgeu _ _ _) _ = _ => apply x_bgeu; rvside
  end.

(** Reads of registers after writes. *)
Ltac rsimpl :=
  repeat match goal with
    | |- context [rget ?g 0] => change (rget g 0) with 0
    | |- context [rget ?g ?r] => rewrite (rget_nz g r) by neq
    | |- context [<[?a := ?t]> ?f ?b] =>
        first [rewrite (fn_lookup_insert f a t) | rewrite (fn_lookup_insert_ne f a b t) by neq]
    end.

Ltac wstep :=
  lazymatch goal with
  | |- wp _ _ _ (bind _ _) _ _ _ => apply wp32_bind
  | |- wp _ _ _ (ret _) _ _ _ => apply wp32_ret
  | |- wp _ _ _ (when _ _) _ _ _ => apply wp32_when; cbn [negb]
  | |- wp _ _ _ (emit _) _ _ _ => eapply wp32_wr; [x_word|]; rsimpl
  end.

(** The words of a sequence of emissions. *)
Ltac emits_words :=
  repeat (cbv beta; lazymatch goal with
    | |- emits _ _ _ (emit _) _ _ => apply emits_emit
    | |- emits _ _ _ (bind _ _) _ _ => eapply emits_bind
    end).
Ltac block := eapply wp32_block; [emits_words|]; cbn [app length Z.of_nat Pos.of_succ_nat Pos.succ].

(** Steps within a block, from the word at index [i]. *)
Ltac rstep i := eapply (rx_wr _ _ _ i); [discriminate|reflexivity|x_word|]; rsimpl;
  let j := eval compute in (i + 1) in change (i + 1) with j.

(** * Counts of shifts *)

(** The count in its low half, and the test whether it is below 32. *)
Lemma shift_count b : 0 <= b < 64 -> lo b = b.
Proof. intros. apply lo_small. unfold uint. lia. Qed.

Lemma shift_test b : 0 <= b < 64 -> (sgn 32 (u32 (b + sgn 12 (-32))) <? sgn 32 0) = (b <? 32).
Proof.
  intros. change (sgn 12 (-32)) with (-32). change (sgn 32 0) with 0. rewrite sgn_of_wrap, sgn_small by lia.
  apply eq_true_iff_eq. rewrite !Z.ltb_lt. lia.
Qed.

Lemma shift_large b : 32 <= b < 64 -> (32 - 1) .& u32 (b + sgn 12 (-32)) = b - 32.
Proof.
  intros. change (sgn 12 (-32)) with (-32). rewrite wrap_small by (unfold uint; lia). apply land_mask_shift; [auto|lia].
Qed.

Lemma shift_small b : 0 <= b < 32 -> (32 - 1) .& b = b.
Proof. intros. apply land_mask_shift; auto. Qed.

Lemma shift_rest b : 0 <= b < 32 -> (32 - 1) .& u32 (u32 (0 + sgn 12 31) - b) = 31 - b.
Proof.
  intros. change (u32 (0 + sgn 12 31)) with 31. rewrite wrap_small by (unfold uint; lia). apply land_mask_shift; [auto|lia].
Qed.

(** * Pairs of registers *)

(** A register that may hold half of an operand: not x0, T0 or T1. *)
Definition held (r : Z) : Prop := uint 5 r /\ r <> 0 /\ r <> 5 /\ r <> 6.

Section ops.
Context (T : Z -> option Z) (E base : Z).
Context (h l hs ls : Z).
Hypothesis Hh : held h.
Hypothesis Hl : held l.
Hypothesis Hhs : held hs.
Hypothesis Hls : held ls.
Hypothesis Hhl : h <> l.
Hypothesis Hhls : hs <> ls.

(** The operands are the same pair, or have no register in common. *)
Hypothesis Halias : (hs = h /\ ls = l) \/ (hs <> h /\ hs <> l /\ ls <> h /\ ls <> l).

Context (g : Z -> Z) (m : mem) (a b : Z).
Hypothesis Ha : uint 64 a.
Hypothesis Hb : uint 64 b.
Hypothesis Egh : g h = hi a.
Hypothesis Egl : g l = lo a.
Hypothesis Eghs : g hs = hi b.
Hypothesis Egls : g ls = lo b.

(** The code of [body] leaves the halves of [v] in the pair, and all else but
    T0 and T1 as it was. *)
Definition computed (v : Z) (k' : Z) (c' : cpu) : Prop :=
  pc c' = addr base k' /\ cmem c' = m /\ gprs c' h = hi v /\ gprs c' l = lo v /\
  forall r, r <> h -> r <> l -> r <> 5 -> r <> 6 -> gprs c' r = g r.

Definition computes (body : M unit) (v : Z) : Prop :=
  forall k, wp T E base body k (Cpu (addr base k) g m) (fun _ => computed v).

Ltac facts :=
  pose proof Hh as (? & ? & ? & ?); pose proof Hl as (? & ? & ? & ?);
  pose proof Hhs as (? & ? & ? & ?); pose proof Hls as (? & ? & ? & ?); open_regs.

Ltac finish := unfold computed; cbn [pc cmem gprs]; rsimpl; rewrite ?Egh, ?Egl, ?Eghs, ?Egls;
  (split; [reflexivity|]); (split; [reflexivity|]); (split; [|split; [|intros; by rsimpl]]).

Ltac run_pair := intros k; open_regs; repeat wstep; finish.

Ltac pick_op := unfold alu_r64_code, alu_r32_code, op_case;
  lazy [switch has_label existsb orb alu_code Z.compare Pos.compare Pos.compare_cont].

Ltac value Hv :=
  cbn [alu_val] in Hv;
  unfold c_add, c_sub, c_and, c_or, c_xor, c_mul, c_shl, c_shr, c_sar in Hv;
  repeat match type of Hv with
    | context [if ?b then _ else _] => destruct b eqn:?; try discriminate Hv
    end; injection Hv as <-.

(** Values of one pair are equal. *)
Lemma alias_eq : hs = h -> ls = l -> b = a.
Proof. intros -> ->. apply halves_inj; congruence. Qed.

Ltac alias := destruct Halias as [[Eh El]|(? & ? & ? & ?)]; [pose proof (alias_eq Eh El) as Eba; subst hs ls; subst b|].

Ltac close_halves :=
  change (sgn 12 0) with 0; rewrite ?Z.add_0_r, ?u32_lo, ?u32_hi by assumption;
  rewrite ?hi_add, ?lo_add, ?hi_sub, ?lo_sub, ?hi_mul, ?lo_mul, ?hi_land, ?lo_land, ?hi_lor, ?lo_lor, ?hi_lxor, ?lo_lxor;
  rewrite ?hi_neg, ?lo_neg; congruence.

Lemma alu_r64_linear (op : bpf_alu_op) v : op ∈ [BPF_MOV; BPF_ADD; BPF_SUB; BPF_AND; BPF_OR; BPF_XOR; BPF_MUL] ->
  alu_val true op a b = Some v -> computes (alu_r64_code (h, l) (hs, ls) op) v.
Proof.
  intros Hop Hv. facts. pose proof (wrap_small 64 b Hb) as Eb.
  each_of Hop; pick_op; value Hv; rewrite ?Eb; alias; run_pair. all: close_halves.
Qed.

Lemma alu_r64_neg : computes (alu_r64_code (h, l) (hs, ls) BPF_NEG) (u64 (- a)).
Proof. facts. pick_op. run_pair; close_halves. Qed.

(** * Shifts by a register *)

(** Runs a shift: the test, and then one of the two parts. *)
Ltac run_shift H64 :=
  intros k; unfold shift64; open_regs; block; rewrite <- (Z.add_0_r k) at 2; rstep 0;
  (eapply (rx_br _ _ _ 1); [discriminate|reflexivity|x_word|instantiate (1 := 4); reflexivity|]); rsimpl;
  rewrite Egls, (shift_count _ H64), (shift_test _ H64);
  match type of H64 with 0 <= ?n < _ => destruct (Z.ltb_spec n 32) end; cbn [Z.add Pos.add Pos.succ];
  [rstep 5; rstep 6; rstep 7; rstep 8; rstep 9; rstep 10; rstep 11
  |rstep 2; rstep 3; (eapply (rx_jal _ _ _ 4); [discriminate|reflexivity|instantiate (1 := 8); reflexivity|]); cbn [Z.add Pos.add Pos.succ]];
  apply rx_done; finish; rewrite ?(shift_count _ H64).

(** Closes the equations of shifted halves. *)
Ltac close_shift H64 :=
  clear dependent h; try clear dependent l; try clear dependent hs; try clear dependent ls;
  change (u32 (0 + sgn 12 0)) with 0;
  rewrite ?shl_small_hi, ?shl_small_lo, ?shl_large_hi, ?shl_large_lo, ?shr_small_hi, ?shr_small_lo,
    ?shr_large_hi, ?shr_large_lo, ?sar_small_hi, ?sar_small_lo, ?sar_large_hi, ?sar_large_lo by (assumption || lia);
  match type of H64 with 0 <= ?n < _ =>
    rewrite ?(shift_count _ H64), ?(shift_small n), ?(shift_large n), ?(shift_rest n) by lia end; reflexivity.

Lemma alu_r64_lsh : 0 <= b < 64 -> computes (alu_r64_code (h, l) (hs, ls) BPF_LSH) (u64 (a ≪ b)).
Proof. intros H64. facts. pick_op. alias; run_shift H64; close_shift H64. Qed.

(** A count that is its own operand has an upper half of zero. *)
Ltac close_self H64 :=
  rewrite ?shr_small_hi, ?sar_small_hi by (assumption || lia);
  rewrite hi_small by (split; lia); change (sgn 32 0) with 0; rewrite ?Z.shiftr_0_l; reflexivity.

Lemma alu_r64_rsh : 0 <= b < 64 -> computes (alu_r64_code (h, l) (hs, ls) BPF_RSH) (a ≫ b).
Proof. intros H64. facts. pick_op. alias; run_shift H64; first [close_shift H64 | close_self H64]. Qed.

Lemma alu_r64_arsh : 0 <= b < 64 -> computes (alu_r64_code (h, l) (hs, ls) BPF_ARSH) (u64 (sgn 64 a ≫ b)).
Proof.
  intros H64. facts. pick_op.
  alias; run_shift H64; first [close_shift H64 | close_self H64 | by rewrite sar_large_hi by (assumption || lia)].
Qed.

(** dst = dst OP src *)
Lemma alu_r64_ok (op : bpf_alu_op) v :
  op ∈ [BPF_MOV; BPF_ADD; BPF_SUB; BPF_AND; BPF_OR; BPF_XOR; BPF_MUL; BPF_LSH; BPF_RSH; BPF_ARSH] ->
  alu_val true op a b = Some v -> computes (alu_r64_code (h, l) (hs, ls) op) v.
Proof.
  intros Hop Hv. destruct (decide (op ∈ [BPF_LSH; BPF_RSH; BPF_ARSH])) as [Hs|Hs].
  - each_of Hs; value Hv; [apply alu_r64_lsh|apply alu_r64_rsh|apply alu_r64_arsh]; lia.
  - apply alu_r64_linear; [|done]. each_of Hop; first [apply (bool_decide_unpack _); exact I|
      destruct Hs; apply (bool_decide_unpack _); exact I].
Qed.

(** ** Shifts by an immediate *)

Ltac pick_imm := unfold alu_i64_code, op_case;
  lazy [switch has_label existsb orb alu_code Z.compare Pos.compare Pos.compare_cont].

Ltac by_half lem := rewrite lem by (assumption || lia); reflexivity.

Ltac close_imm :=
  first [ by_half shl_imm_hi | by_half shl_small_lo | by_half shl_large_hi | by_half shl_large_lo
        | by_half shr_small_hi | by_half shr_imm_lo | by_half shr_large_hi | by_half shr_large_lo
        | by_half sar_small_hi | by_half sar_imm_lo | by_half sar_large_hi | by_half sar_large_lo ].

Lemma alu_i64_shift (op : bpf_alu_op) imm v : op ∈ [BPF_LSH; BPF_RSH; BPF_ARSH] ->
  alu_val true op a imm = Some v -> computes (alu_i64_code (h, l) imm op) v.
Proof.
  intros Hop Hv. facts. each_of Hop; pick_imm; value Hv; intros k; open_regs; rewrite Z.geb_leb.
  all: assert (0 <= imm < 64) as H64 by (clear - Heqb0; lia).
  all: destruct (Z.leb_spec 32 imm); [repeat wstep; finish; clear - Ha H64 H15; close_imm|].
  all: destruct (Z.eqb_spec imm 0) as [->|]; [wstep; finish|repeat wstep; finish; clear - Ha H64 H15 n; close_imm].
  all: rewrite ?Z.shiftl_0_r, ?Z.shiftr_0_r, ?sgn_wrap, ?wrap_small by done; reflexivity.
Qed.
End ops.
