(* ===== verification/BpfJit32Word.v ===== *)
(** Immediates, 32-bit arithmetic and byte swaps of the RV32 BPF compiler, on
    operands in registers. *)

From S2P Require Import Prelude Cstring Bytes Bitops Bpf BpfSteps Riscv RvEmit RvEnc RvExec BpfJit32 BpfJit32Half BpfJit32Exec BpfJit32Ops.

(** * Immediates *)

(** The rounded upper part and the 12 low bits, read as signed, make the value. *)
Lemma imm_split32 val : u32 ((s32 (val + 2 ^ 11) ≫ 12) * 2 ^ 12 + sgn 12 (u32 (val .& 0xfff))) = u32 val.
Proof.
  assert (sgn 12 (u32 (val .& 0xfff)) = (val + 2 ^ 11) mod 2 ^ 12 - 2 ^ 11) as ->.
  { change 0xfff with (Z.ones 12). rewrite Z.land_ones by lia. change (val mod 2 ^ 12) with (wrap 12 val).
    rewrite (wrap_small 32) by (pose proof (wrap_range 12 val); unfold uint; lia). by rewrite sgn_of_wrap, sgn_alt. }
  set (x := val + 2 ^ 11). rewrite Z.shiftr_div_pow2 by lia.
  assert (exists c, s32 x = x + c * 2 ^ 32) as [c Hc].
  { unfold sgn. pose proof (Z.div_mod x (2 ^ 32)). destruct (_ <? _).
    - exists (- (x / 2 ^ 32)). lia.
    - exists (- (x / 2 ^ 32) - 1). lia. }
  apply (u32_eq_mult _ _ c). pose proof (Z.div_mod (s32 x) (2 ^ 12)).
  assert (s32 x mod 2 ^ 12 = x mod 2 ^ 12) as E.
  { rewrite Hc. replace (c * 2 ^ 32) with (c * 2 ^ 20 * 2 ^ 12) by ring. apply Z_mod_plus_full. }
  rewrite E in *. lia.
Qed.

(** lui, then addi. *)
Lemma lui_addi_val u lo : u32 (u32 (s32 (wrap 20 (u32 u) ≪ 12)) + lo) = u32 (u * 2 ^ 12 + lo).
Proof.
  rewrite wrap_add_l, <- (wrap_add_l _ (u * 2 ^ 12)), <- (wrap_add_l _ (s32 _)), sgn_wrap. do 2 f_equal.
  rewrite <- Z.shiftl_mul_pow2 by lia. zbits.
Qed.

Section imm.
Context (T : Z -> option Z) (E base : Z) (m : mem).

Lemma wp32_imm rd imm k g (Q : unit -> Z -> cpu -> Prop) : uint 5 rd -> rd <> 0 ->
  (forall k', Q () k' (Cpu (addr base k') (<[rd := u32 imm]> g) m)) ->
  wp T E base (emit_imm rd imm) k (Cpu (addr base k) g m) Q.
Proof.
  intros Hrd Hne HQ. unfold emit_imm. pose proof (imm_split32 imm) as Hs.
  destruct (Z.eqb_spec (u32 (s32 (imm + 2 ^ 11) ≫ 12)) 0) as [Eu|Eu]; cbn [negb].
  - wstep. assert (s32 (imm + 2 ^ 11) ≫ 12 = 0) as E0.
    { pose proof (sgn_range 32 (imm + 2 ^ 11) ltac:(lia)) as Hr. rewrite Z.shiftr_div_pow2 in * by lia.
      pose proof (Z.div_mod (s32 (imm + 2 ^ 11)) (2 ^ 12)). pose proof (Z.mod_pos_bound (s32 (imm + 2 ^ 11)) (2 ^ 12)).
      set (q := s32 (imm + 2 ^ 11) / 2 ^ 12) in *. unfold wrap in Eu. clear Hs HQ.
      destruct (Z_lt_ge_dec q 0); [rewrite <- (Z_mod_plus_full q 1) in Eu|]; rewrite Z.mod_small in Eu; lia. }
    rewrite E0 in Hs. rsimpl. rewrite Z.add_0_l. rewrite Z.mul_0_l, Z.add_0_l in Hs. rewrite Hs. apply HQ.
  - repeat wstep. rewrite fn_insert_insert, lui_addi_val, Hs. apply HQ.
Qed.

Lemma wp32_imm32 h l imm k g (Q : unit -> Z -> cpu -> Prop) : held h -> held l -> h <> l -> - 2 ^ 31 <= imm < 2 ^ 31 ->
  (forall k' g', g' h = hi (u64 imm) -> g' l = lo (u64 imm) -> (forall r, r <> h -> r <> l -> g' r = g r) ->
     Q () k' (Cpu (addr base k') g' m)) ->
  wp T E base (emit_imm32 (h, l) imm) k (Cpu (addr base k) g m) Q.
Proof.
  intros (? & ? & ? & ?) (? & ? & ? & ?) Hhl Himm HQ. unfold emit_imm32. cbn [fst snd]. wstep.
  apply wp32_imm; [done..|]. intros k1. repeat wstep. apply HQ.
  - rsimpl. rewrite hi_imm by done. change (sgn 12 0) with 0. by rewrite Z.add_0_r, wrap_wrap.
  - rsimpl. by rewrite lo_imm.
  - intros. by rsimpl.
Qed.

Lemma wp32_imm64 h l ih il k g (Q : unit -> Z -> cpu -> Prop) : held h -> held l -> h <> l ->
  (forall k' g', g' h = u32 ih -> g' l = u32 il -> (forall r, r <> h -> r <> l -> g' r = g r) ->
     Q () k' (Cpu (addr base k') g' m)) ->
  wp T E base (emit_imm64 (h, l) ih il) k (Cpu (addr base k) g m) Q.
Proof.
  intros (? & ? & ? & ?) (? & ? & ? & ?) Hhl HQ. unfold emit_imm64. cbn [fst snd]. wstep.
  apply wp32_imm; [done..|]. intros k1. apply wp32_imm; [done..|]. intros k2. apply HQ; intros; by rsimpl.
Qed.
End imm.

(** * 32-bit arithmetic *)

Section word.
Context (T : Z -> option Z) (E base : Z) (m : mem) (h l hs ls : Z) (g : Z -> Z) (a b : Z).
Hypothesis Hl : held l.
Hypothesis Hls : held ls.
Hypothesis Egl : g l = lo a.
Hypothesis Egls : g ls = u32 b.

Ltac pick_word := unfold alu_r32_code, op_case;
  lazy [switch has_label existsb orb alu_code Z.compare Pos.compare Pos.compare_cont]; cbn [fst snd].

(** The amount of a shift by a register. *)
Lemma word_shift : (0 <=? u32 b) && (u32 b <? 32) = true -> (32 - 1) .& u32 b = u32 b.
Proof. intros. apply shift_small. lia. Qed.

(** dst = (u32) dst OP (u32) src *)
Lemma alu_r32_ok (op : bpf_alu_op) v k (Q : unit -> Z -> cpu -> Prop) : op ∈ alu_ops -> alu_val false op a b = Some v ->
  (forall k', Q () k' (Cpu (addr base k') (<[l := v]> g) m)) ->
  wp T E base (alu_r32_code (h, l) (hs, ls) op) k (Cpu (addr base k) g m) Q.
Proof.
  intros Hop Hv HQ. pose proof Hl as (? & ? & ? & ?). pose proof Hls as (? & ? & ? & ?).
  each_of Hop; pick_word; wstep; rewrite ?Egl, ?Egls, ?(lo_val a);
    match goal with |- Q _ _ (Cpu _ (<[_ := ?x]> _) _) => enough (x = v) as -> by apply HQ end;
    clear HQ; cbn [alu_val] in Hv; unfold c_add, c_sub, c_and, c_or, c_xor, c_mul, c_shl, c_shr, c_sar, do_div in Hv.
  all: repeat match type of Hv with context [if ?c then _ else _] => destruct c eqn:?; try discriminate Hv end;
    injection Hv as <-; try (by autorewrite with cint).
  - change (sgn 12 0) with 0. by rewrite Z.add_0_r, wrap_wrap.
  - rewrite wrap_wrap in *. rewrite Heqb0. pose proof (wrap_range 32 b). symmetry. apply wrap_small, uint_div; [by apply uint_wrap|lia].
  - rewrite wrap_wrap in *. rewrite Heqb0. pose proof (wrap_range 32 b). pose proof (Z.mod_pos_bound (u32 a) (u32 b)).
    symmetry. apply wrap_small. unfold uint. lia.
  - by rewrite word_shift.
  - by rewrite word_shift.
  - rewrite (wrap_small 32 b) by (unfold uint; lia). by rewrite shift_small by lia.
Qed.

Lemma alu_r32_neg k (Q : unit -> Z -> cpu -> Prop) : (forall k', Q () k' (Cpu (addr base k') (<[l := u32 (- a)]> g) m)) ->
  wp T E base (alu_r32_code (h, l) (hs, ls) BPF_NEG) k (Cpu (addr base k) g m) Q.
Proof.
  intros HQ. pose proof Hl as (? & ? & ? & ?). pick_word. wstep. rsimpl.
  rewrite Egl, (lo_val a), wrap_sub_r, Z.sub_0_l. apply HQ.
Qed.
End word.

(** * Byte swaps *)

(** Adding a byte below a value shifted by eight bits. *)
Lemma add_byte32 y b : u32 (u32 (y ≪ 8) + u8 b) = u32 (y ≪ 8) .| u8 b.
Proof.
  assert (uint 8 (u8 b)) as Hb by (by apply uint_wrap).
  assert (u32 (y ≪ 8) .& u8 b = 0) as E.
  { apply Z.bits_inj'. intros n Hn. bit_rewrite. destruct (Z_lt_ge_dec n 8).
    - rewrite (Z.testbit_neg_r y) by lia. by destruct (_ <? _).
    - rewrite andb_comm. bit_cases. }
  rewrite Z.add_nocarry_lxor by done. rewrite Z.lxor_lor by done. apply wrap_small.
  apply uint_lor; [lia|by apply uint_wrap|]. unfold uint in *. lia.
Qed.

Lemma and_byte32 x : x .& u32 (sgn 12 0xff) = u8 x.
Proof. change (u32 (sgn 12 0xff)) with (Z.ones 8). by rewrite Z.land_ones. Qed.

Section rev.
Context (T : Z -> option Z) (E base : Z) (m : mem).

Lemma wp32_rev32 rd k g (Q : unit -> Z -> cpu -> Prop) : held rd ->
  (forall k' g', g' rd = swab32 (g rd) -> (forall r, r <> rd -> r <> 5 -> r <> 6 -> g' r = g r) ->
     Q () k' (Cpu (addr base k') g' m)) ->
  wp T E base (emit_rv32_rev32 rd) k (Cpu (addr base k) g m) Q.
Proof.
  intros (? & ? & ? & ?) HQ. unfold emit_rv32_rev32, emit_rev_byte. open_regs. repeat wstep. apply HQ.
  - rsimpl. rewrite !and_byte32. change (u32 (0 + sgn 12 0)) with 0. rewrite Z.add_0_l. change (sgn 12 0) with 0.
    rewrite Z.add_0_r, !add_byte32. rewrite swab32_bytes. cbn -[Z.shiftl Z.shiftr Z.land Z.lor]. byte_masks. zbits.
  - intros. by rsimpl.
Qed.

Lemma wp32_rev16 rd k g (Q : unit -> Z -> cpu -> Prop) : held rd ->
  (forall k' g', g' rd = swab16 (g rd) -> (forall r, r <> rd -> r <> 5 -> r <> 6 -> g' r = g r) ->
     Q () k' (Cpu (addr base k') g' m)) ->
  wp T E base (emit_rv32_rev16 rd) k (Cpu (addr base k) g m) Q.
Proof.
  intros (? & ? & ? & ?) HQ. unfold emit_rv32_rev16, emit_rev_byte. open_regs. repeat wstep. apply HQ.
  - rsimpl. rewrite !and_byte32. change (u32 (0 + sgn 12 0)) with 0. rewrite Z.add_0_l. change (sgn 12 0) with 0.
    rewrite Z.add_0_r, !add_byte32. rewrite swab16_bytes. cbn -[Z.shiftl Z.shiftr Z.land Z.lor]. byte_masks. zbits.
  - intros. by rsimpl.
Qed.

(** ** BPF_END on a pair *)

(** The value of BPF_END. *)
Definition end_val (be : bool) (n d : Z) : Z :=
  if be then (if n =? 16 then u16 (cpu_to_be16 d) else if n =? 32 then u32 (cpu_to_be32 d) else u64 (cpu_to_be64 d))
  else wrap n d.

Definition end_code (be : bool) : Z * Z -> Z -> option (M unit) := if be then end_be_code else end_le_code.

Lemma swap64_halves d : hi (u64 (cpu_to_be64 d)) = swab32 (lo d) /\ lo (u64 (cpu_to_be64 d)) = swab32 (hi d).
Proof.
  unfold cpu_to_be64. rewrite lo_u64, hi_val, (lo_val d), (hi_val d), !swab32_bytes, !swab64_bytes.
  cbn -[Z.shiftl Z.shiftr Z.land Z.lor]. byte_masks. split; zbits.
Qed.

Lemma swap32_lo d : swab32 (lo d) = u32 (cpu_to_be32 d).
Proof.
  unfold cpu_to_be32. rewrite (lo_val d), !swab32_bytes. cbn -[Z.shiftl Z.shiftr Z.land Z.lor]. byte_masks. zbits.
Qed.

Lemma swap16_lo d : swab16 (lo d) = u16 (cpu_to_be16 d).
Proof.
  unfold cpu_to_be16. rewrite (lo_val d), !swab16_bytes. cbn -[Z.shiftl Z.shiftr Z.land Z.lor]. byte_masks. zbits.
Qed.

(** Halves of a value of 16 or 32 bits. *)
Lemma narrow_halves w x : 0 <= w <= 32 -> hi (wrap w x) = 0 /\ lo (wrap w x) = wrap w x.
Proof.
  intros Hw. assert (uint 32 (wrap w x)) by (apply (uint_mono w); [lia|apply uint_wrap; lia]).
  split; [by apply hi_small|by apply lo_small].
Qed.

Section pair.
Context (h l : Z) (g : Z -> Z) (d : Z).
Hypothesis Hh : held h.
Hypothesis Hl : held l.
Hypothesis Hhl : h <> l.
Hypothesis Hd : uint 64 d.
Hypothesis Egl : g l = lo d.

Ltac rev_tac lem := apply lem; [assumption|]; let k := fresh "k" in let g' := fresh "g'" in intros k g' ? ?.

(** The pair of an intermediate state. *)
Ltac others := repeat match goal with
  | H : forall r, r <> _ -> r <> 5 -> r <> 6 -> ?g' r = _ |- context [?g' ?r] => rewrite (H r) by neq
  | H : ?g' ?r = _ |- context [?g' ?r] => rewrite H end.

Ltac narrow w x := unfold computed; pose proof (narrow_halves w x ltac:(lia)) as [-> ->].

Ltac finish_pair := unfold computed; cbn [pc cmem gprs]; rsimpl; open_regs; rsimpl;
  (split; [reflexivity|]); (split; [reflexivity|]); (split; [|split; [|intros; repeat progress (rsimpl; others); done]]);
  repeat progress (rsimpl; others); change (u32 (0 + sgn 12 0)) with 0; try done.

Lemma end_ok be n : n ∈ [16; 32; 64] -> (n = 64 -> g h = hi d) ->
  exists body, end_code be (h, l) n = Some body /\ computes T E base h l g m body (end_val be n d).
Proof.
  intros Hn Egh. pose proof Hh as (? & ? & ? & ?). pose proof Hl as (? & ? & ? & ?).
  each_of Hn; try specialize (Egh eq_refl); destruct be; unfold end_code, end_val; eexists; (split; [reflexivity|]); intros k; cbn [fst snd Z.eqb Pos.eqb].
  - wstep. rev_tac wp32_rev16. wstep. narrow 16 (cpu_to_be16 d). finish_pair. apply swap16_lo.
  - repeat wstep. narrow 16 d. finish_pair. rewrite (lo_val d). zbits.
  - wstep. rev_tac wp32_rev32. wstep. narrow 32 (cpu_to_be32 d). finish_pair. apply swap32_lo.
  - repeat wstep. narrow 32 d. finish_pair. 
  - repeat wstep. rev_tac wp32_rev32. rev_tac wp32_rev32. unfold computed.
    destruct (swap64_halves d) as [-> ->]. finish_pair; rsimpl; others; change (sgn 12 0) with 0;
      by rewrite ?Z.add_0_r, ?u32_lo, ?u32_hi, ?u32_lo by done.
  - wstep. finish_pair; by rewrite wrap_small.
Qed.
End pair.
End rev.

(** * Conditional jumps of the RV32 BPF compiler, on operands in registers. *)

(** * The conditions, half by half *)

Lemma jmp_holds_halves (op : bpf_jmp_op) a b : uint 64 a -> uint 64 b -> op ∈ cond_ops ->
  jmp_holds true op a b =
  match op with
  | BPF_JEQ => (hi a =? hi b) && (lo a =? lo b)
  | BPF_JNE => negb ((hi a =? hi b) && (lo a =? lo b))
  | BPF_JGT => (hi b <? hi a) || (hi b =? hi a) && (lo b <? lo a)
  | BPF_JLT => (hi a <? hi b) || (hi a =? hi b) && (lo a <? lo b)
  | BPF_JGE => (hi b <? hi a) || (hi b =? hi a) && (lo b <=? lo a)
  | BPF_JLE => (hi a <? hi b) || (hi a =? hi b) && (lo a <=? lo b)
  | BPF_JSET => negb ((hi a .& hi b =? 0) && (lo a .& lo b =? 0))
  | BPF_JSGT => (s32 (hi b) <? s32 (hi a)) || (hi a =? hi b) && (lo b <? lo a)
  | BPF_JSLT => (s32 (hi a) <? s32 (hi b)) || (hi b =? hi a) && (lo a <? lo b)
  | BPF_JSGE => (s32 (hi b) <? s32 (hi a)) || (hi a =? hi b) && (lo b <=? lo a)
  | BPF_JSLE => (s32 (hi a) <? s32 (hi b)) || (hi b =? hi a) && (lo a <=? lo b)
  | _ => false
  end.
Proof.
  intros Ha Hb Hop. each_of Hop; cbn [jmp_holds]; rewrite ?(wrap_small 64 a), ?(wrap_small 64 b) by done;
    rewrite ?Z.gtb_ltb, ?Z.geb_leb;
    first [by rewrite eqb_halves | by rewrite ltb_halves | by rewrite leb_halves | by rewrite jset_halves
          | by rewrite slt_halves, Z.eqb_sym | by rewrite sle_halves, Z.eqb_sym].
Qed.

(** The bytes between the first branch to the target and the last one, in the
    code of a comparison of pairs. *)
Definition first_branch (op : bpf_jmp_op) : Z := match op with BPF_JEQ => 0 | BPF_JNE => 4 | _ => 8 end.

(** When the first branch to the target is taken: it looks at the upper halves. A test
    for equality has no such branch. *)
Definition first_taken (op : bpf_jmp_op) (a b : Z) : bool :=
  match op with
  | BPF_JNE => negb (hi a =? hi b)
  | BPF_JGT | BPF_JGE => hi b <? hi a
  | BPF_JLT | BPF_JLE => hi a <? hi b
  | BPF_JSET => negb (hi a .& hi b =? 0)
  | BPF_JSGT | BPF_JSGE => s32 (hi b) <? s32 (hi a)
  | BPF_JSLT | BPF_JSLE => s32 (hi a) <? s32 (hi b)
  | _ => false
  end.

(** Where a taken jump over [d] instructions goes, when its first branch, [n] bytes
    before the last, is [taken]: a distance that does not fit the branch wraps around
    at 2 ^ 13 bytes. *)
Definition lands (d : Z) (taken : bool) (n : Z) : Z := if taken && (2 ^ 12 <=? 4 * d + n) then d - 2048 else d.
Definition landing (op : bpf_jmp_op) (a b d : Z) : Z := lands d (first_taken op a b) (first_branch op).

(** A comparison that takes its first branch holds. *)
Lemma first_taken_holds op a b : op ∈ cond_ops -> uint 64 a -> uint 64 b -> first_taken op a b = true -> jmp_holds true op a b = true.
Proof.
  intros Hop Ha Hb H. rewrite jmp_holds_halves by done. revert H. clear Ha Hb. each_of Hop; cbn [first_taken]; try done.
  all: try (by intros ->).
  all: by rewrite ?negb_true_iff, ?negb_andb; intros ->.
Qed.

Lemma lands_false d n : lands d false n = d.
Proof. reflexivity. Qed.

Section jmp.
Context (T : Z -> option Z) (E base : Z) (h l hs ls : Z) (g : Z -> Z) (m : mem) (a b d : Z).
Hypothesis Hh : held h.
Hypothesis Hl : held l.
Hypothesis Hhs : held hs.
Hypothesis Hls : held ls.

(** The last branch is in range. *)
Hypothesis Hd : - 2 ^ 12 <= 4 * d < 2 ^ 12.

(** The code ends at its end or, when the condition holds, [dist] instructions
    after its last one; only T0 changes. *)
Definition jumps (cond : bool) (dist k' : Z) (c' : cpu) : Prop :=
  pc c' = addr base (if cond then k' - 1 + dist else k') /\ cmem c' = m /\ forall r, r <> 5 -> gprs c' r = g r.

Ltac jfacts :=
  pose proof Hh as (? & ? & ? & ?); pose proof Hl as (? & ? & ? & ?);
  pose proof Hhs as (? & ? & ? & ?); pose proof Hls as (? & ? & ? & ?).

Ltac pick_jmp := unfold jump_r64_code, jump_r32_code, jmp_case;
  lazy [switch has_label existsb orb jmp_code Z.compare Pos.compare Pos.compare_cont]; cbn [fst snd].

Lemma far_branch n : 0 <= n <= 2 -> sgn 12 (s32 (4 * d + 4 * n) ≫ 1) * 2 = 4 * (lands d true (4 * n) + n).
Proof.
  intros. rewrite (sgn_small 32) by lia. unfold lands. cbn [andb]. replace (4 * d + 4 * n) with (4 * (d + n)) by lia.
  destruct (Z.leb_spec (2 ^ 12) (4 * (d + n))); [|apply half_dist; lia].
  replace (4 * (d + n)) with (2 * (d + n) * 2 ^ 1) by lia. rewrite Z.shiftr_div_pow2, Z.div_mul by lia.
  unfold sgn. rewrite Z.mod_small, (proj2 (Z.ltb_ge _ _)) by lia. lia.
Qed.

Lemma near_branch : sgn 12 ((4 * d) ≫ 1) * 2 = 4 * d.
Proof. apply half_dist; lia. Qed.

Ltac jdone := apply rx_done; (split; [cbn [pc orb andb negb]; rewrite ?lands_false; change (4 * 2) with 8; change (4 * 1) with 4; apply (f_equal (addr base)); lia|]); (split; [reflexivity|]); intros; cbn [gprs]; by rsimpl.

(** Three branches: to the target, past the last one, and to the target. *)
Lemma three_branches k w1 w2 w3 (b1 b2 b3 : bool) :
  (forall p, exec_word 32 w1 (Cpu p g m) = br 32 p g m b1 (s32 (4 * d + 8) ≫ 1)) ->
  (forall p, exec_word 32 w2 (Cpu p g m) = br 32 p g m b2 (8 ≫ 1)) ->
  (forall p, exec_word 32 w3 (Cpu p g m) = br 32 p g m b3 ((4 * d) ≫ 1)) ->
  wp T E base (emit w1;; emit w2;; emit w3) k (Cpu (addr base k) g m) (fun _ => jumps (b1 || negb b2 && b3) (lands d b1 8)).
Proof.
  intros H1 H2 H3. block. rewrite <- (Z.add_0_r k) at 2.
  eapply (rx_br _ _ _ 0); [done..|apply (far_branch 2); lia|]. destruct b1; [jdone|].
  eapply (rx_br _ _ _ 1); [done..|by instantiate (1 := 2)|]. destruct b2; [jdone|].
  eapply (rx_br _ _ _ 2); [done..|apply near_branch|]. destruct b3; jdone.
Qed.

(** One branch. *)
Lemma one_branch k w (c : bool) : (forall p, exec_word 32 w (Cpu p g m) = br 32 p g m c ((4 * d) ≫ 1)) ->
  wp T E base (emit w) k (Cpu (addr base k) g m) (fun _ => jumps c d).
Proof.
  intros H1. block. rewrite <- (Z.add_0_r k) at 2.
  eapply (rx_br _ _ _ 0); [done..|apply near_branch|]. destruct c; jdone.
Qed.

(** The upper halves are equal when neither is below the other. *)
Lemma eq_ltb x y c : (x <? y) || (x =? y) && c = (x <? y) || negb (y <? x) && c.
Proof. destruct (Z.ltb_spec x y), (Z.ltb_spec y x), (Z.eqb_spec x y); (done || lia). Qed.

Section r64.
Hypothesis Ha : uint 64 a.
Hypothesis Hb : uint 64 b.
Hypothesis Egh : g h = hi a.
Hypothesis Egl : g l = lo a.
Hypothesis Eghs : g hs = hi b.
Hypothesis Egls : g ls = lo b.

Ltac branch := intros; etransitivity; [x_word|]; rsimpl; rewrite ?Egh, ?Egl, ?Eghs, ?Egls; reflexivity.

(** Steps within a sequence: a branch to the target or past the next word. *)
Ltac jbr i lem := eapply (rx_br _ _ _ i); [discriminate|reflexivity|x_word|apply lem; lia|]; rsimpl; rewrite ?Egh, ?Egl, ?Eghs, ?Egls.

Lemma jump_eq k : wp T E base (jump_r64_code (h, l) (hs, ls) (4 * d) BPF_JEQ) k (Cpu (addr base k) g m)
  (fun _ => jumps ((hi a =? hi b) && (lo a =? lo b)) d).
Proof.
  jfacts. pick_jmp. block. rewrite <- (Z.add_0_r k) at 2. eapply (rx_br _ _ _ 0); [done|done|x_word|by instantiate (1 := 2)|].
  rsimpl. rewrite Egh, Eghs. destruct (hi a =? hi b); [|jdone]. cbn [negb]. jbr 1 near_branch. destruct (lo a =? lo b); jdone.
Qed.

Lemma jump_ne k : wp T E base (jump_r64_code (h, l) (hs, ls) (4 * d) BPF_JNE) k (Cpu (addr base k) g m)
  (fun _ => jumps (negb ((hi a =? hi b) && (lo a =? lo b))) (lands d (negb (hi a =? hi b)) 4)).
Proof.
  jfacts. pick_jmp. block. rewrite <- (Z.add_0_r k) at 2. jbr 0 (far_branch 1).
  destruct (hi a =? hi b); [|jdone]. cbn [negb]. jbr 1 near_branch. destruct (lo a =? lo b); jdone.
Qed.

Lemma jump_set k : wp T E base (jump_r64_code (h, l) (hs, ls) (4 * d) BPF_JSET) k (Cpu (addr base k) g m)
  (fun _ => jumps (negb ((hi a .& hi b =? 0) && (lo a .& lo b =? 0))) (lands d (negb (hi a .& hi b =? 0)) 8)).
Proof.
  jfacts. pick_jmp. block. rewrite <- (Z.add_0_r k) at 2. rstep 0. jbr 1 (far_branch 2).
  destruct (hi a .& hi b =? 0); [|jdone]. cbn [negb Z.add Pos.add Pos.succ]. rstep 2. jbr 3 near_branch.
  destruct (lo a .& lo b =? 0); jdone.
Qed.

(** if dst OP src goto target *)
Lemma jump_r64_ok (op : bpf_jmp_op) k : op ∈ cond_ops ->
  wp T E base (jump_r64_code (h, l) (hs, ls) (4 * d) op) k (Cpu (addr base k) g m) (fun _ => jumps (jmp_holds true op a b) (landing op a b d)).
Proof.
  intros Hop. jfacts. pose proof (jmp_holds_halves op a b Ha Hb Hop) as Ec. unfold landing.
  each_of Hop; cbn iota in Ec; cbn [first_branch first_taken]; [rewrite Ec; apply jump_eq|rewrite Ec; by apply jump_ne|idtac|idtac|idtac|idtac|rewrite Ec; by apply jump_set|idtac..];
    pick_jmp; rewrite Ec; clear Ec.
  1-4: rewrite eq_ltb; (apply three_branches; branch).
  all: rewrite <- (negb_involutive (hi _ =? hi _)); (apply three_branches; branch).
Qed.
End r64.

Section r32.
Hypothesis Egl : g l = u32 a.
Hypothesis Egls : g ls = u32 b.

Ltac branch32 := intros; etransitivity; [x_word|]; rsimpl; rewrite ?Egl, ?Egls, ?sgn_of_wrap; reflexivity.

(** if (u32) dst OP (u32) src goto target *)
Lemma jump_r32_ok (op : bpf_jmp_op) k : op ∈ cond_ops ->
  wp T E base (jump_r32_code (h, l) (hs, ls) (4 * d) op) k (Cpu (addr base k) g m) (fun _ => jumps (jmp_holds false op a b) d).
Proof.
  intros Hop. jfacts. each_of Hop; pick_jmp; cbn [jmp_holds]; rewrite ?Z.gtb_ltb, ?Z.geb_leb.
  7: { block. rewrite <- (Z.add_0_r k) at 2. rstep 0. eapply (rx_br _ _ _ 1); [done|done|x_word|apply near_branch|]. rsimpl. rewrite Egl, Egls.
       destruct (u32 a .& u32 b =? 0); jdone. }
  all: apply one_branch; branch32.
Qed.
End r32.
End jmp.
