(* ===== verification/BpfJit32Rel.v ===== *)
(** States of the interpreter and of an RV32 processor: the BPF registers are
    pairs of registers or slots below the frame pointer, and the memory agrees
    outside the 80 bytes below the frame pointer, the slots and the saved
    registers. Reading an operand into registers and writing it back. *)

From stdpp Require Import gmap.
From S2P Require Import Prelude Cstring Bytes Bpf BpfSteps Riscv RvEmit RvEnc RvExec BpfJit32 BpfJit32Half BpfJit32Mem BpfJit32Exec BpfJit32Ops.

(** * Registers and slots *)

Definition pair_of (r : Z) : Z * Z := default (0, 0) (bpf2rv32 !! Z.to_nat r).

Lemma pair_lookup r : 0 <= r <= 10 -> bpf2rv32 !! Z.to_nat r = Some (pair_of r).
Proof. intros H%reg_cases. each_of H; reflexivity. Qed.

(** The registers the code of one instruction may change: T0 to T5. *)
Definition temps : list Z := [5; 6; 7; 28; 29; 30].

(** A pair of registers that are not temporary. *)
Definition reg_pair (p : Z * Z) : Prop :=
  held p.1 /\ held p.2 /\ p.1 <> p.2 /\ (p.1 ∉ temps) /\ (p.2 ∉ temps) /\ p.1 <> 8 /\ p.2 <> 8.

(** A pair of slots: offsets from the frame pointer. *)
Definition slot_pair (p : Z * Z) : Prop := -48 <= p.2 <= -8 /\ p.2 mod 8 = 0 /\ p.1 = p.2 + 4.

Lemma pair_cases r : 0 <= r <= 10 ->
  (is_stacked (pair_of r).1 = false /\ is_stacked (pair_of r).2 = false /\ reg_pair (pair_of r)) \/
  (is_stacked (pair_of r).1 = true /\ is_stacked (pair_of r).2 = true /\ slot_pair (pair_of r)).
Proof.
  intros H%reg_cases. each_of H; first [left; split_and!; [reflexivity|reflexivity|] | right; split_and!; [reflexivity|reflexivity|]].
  all: unfold reg_pair, slot_pair, held; vm_compute; split_and!;
    try done; try (intros E; repeat (apply elem_of_cons in E as [E|E]); [discriminate..|by apply not_elem_of_nil in E]).
Qed.

(** Different BPF registers are in different places. *)
Lemma pair_disjoint r r' : 0 <= r <= 10 -> 0 <= r' <= 10 -> r <> r' ->
  (pair_of r).1 <> (pair_of r').1 /\ (pair_of r).1 <> (pair_of r').2 /\
  (pair_of r).2 <> (pair_of r').1 /\ (pair_of r).2 <> (pair_of r').2.
Proof. intros H%reg_cases H'%reg_cases. each_of H; each_of H'; intros ?; vm_compute; split_and!; done. Qed.

(** * Related states *)

(** The word in a register, or in a slot. *)
Definition word_at (fp : Z) (c : cpu) (a : Z) : Z :=
  if is_stacked a then load_le 32 4 (cmem c) (fp + a) else gprs c a.

(** The distance of an address below the frame pointer; the frame is 80 bytes:
    the slots are the first 48 and the saved registers the rest. *)
Definition below (fp x : Z) : Z := u32 (fp - 1 - x).
Definition in_frame (fp x : Z) : Prop := below fp x < 80.

(** The registers that no BPF register is in and that no code changes. *)
Definition kept : list Z := [2; 3; 4; 23; 24; 25; 26; 27; 31].

(** [D] has the BPF registers whose upper halves are not up to date: when the
    verifier inserts the zero extensions, a 32-bit operation leaves them as they
    are. *)
Record rel32 (fp : Z) (g0 sm : Z -> Z) (D : gset Z) (s : bpf_state) (c : cpu) : Prop := {
  rel_fp : gprs c 8 = fp;
  rel_lo r : 0 <= r <= 10 -> word_at fp c (pair_of r).2 = lo (bregs s r);
  rel_hi r : 0 <= r <= 10 -> r ∉ D -> word_at fp c (pair_of r).1 = hi (bregs s r);
  rel_uint r : 0 <= r <= 10 -> uint 64 (bregs s r);
  rel_keep r : r ∈ kept -> gprs c r = g0 r;
  rel_mem x : uint 32 x -> ~ in_frame fp x -> cmem c x = bmem s x;
  rel_saved x : uint 32 x -> 48 <= below fp x < 80 -> cmem c x = sm x
}.

(** A slot is 4 bytes of the first 48 below the frame pointer. *)
Lemma slot_byte fp a x : -48 <= a <= -4 -> uint 32 x -> u32 (x - (fp + a)) < 4 -> below fp x < 48.
Proof.
  intros Ha Hx. unfold below. pose proof (wrap_range 32 (x - (fp + a)) ltac:(lia)) as [H0 _]. intros H4.
  replace (fp - 1 - x) with (- 1 - a - (x - (fp + a))) by lia. rewrite <- wrap_sub_r. rewrite wrap_small by (unfold uint; lia). lia.
Qed.

Lemma store_slot fp m a v x : -48 <= a <= -4 -> uint 32 x -> 48 <= below fp x -> store_le 32 4 m (fp + a) v x = m x.
Proof.
  intros Ha Hx Hb. rewrite store_le_byte by (done || lia). destruct (Z.ltb_spec (wrap 32 (x - (fp + a))) (Z.of_nat 4)); [|done].
  pose proof (slot_byte fp a x Ha Hx). lia.
Qed.

(** Two slots that differ have no byte in common. *)
Lemma load_slot fp m a b v : -48 <= a <= -4 -> -48 <= b <= -4 -> a mod 4 = 0 -> b mod 4 = 0 -> a <> b ->
  load_le 32 4 (store_le 32 4 m (fp + a) v) (fp + b) = load_le 32 4 m (fp + b).
Proof.
  intros Ha Hb Ma Mb Hne. apply load_store_other; [lia|lia|]. intros i Hi.
  replace (fp + b + i - (fp + a)) with (b - a + i) by lia.
  pose proof (Z.div_mod a 4). pose proof (Z.div_mod b 4). unfold wrap. destruct (Z_lt_ge_dec (b - a + i) 0).
  - rewrite <- (Z_mod_plus_full _ 1), Z.mod_small; lia.
  - rewrite Z.mod_small; lia.
Qed.

Lemma slot_halves p : slot_pair p ->
  (-48 <= p.1 <= -4 /\ p.1 mod 4 = 0) /\ (-48 <= p.2 <= -4 /\ p.2 mod 4 = 0) /\ p.1 <> p.2.
Proof.
  destruct p as [a b]. unfold slot_pair. cbn. intros (? & E & ->). pose proof (Z.div_mod b 8) as D. rewrite E in D.
  assert (b = b / 8 * 2 * 4) as Eb by lia. split_and!; try lia.
  - replace (b + 4) with ((b / 8 * 2 + 1) * 4) by lia. apply Z_mod_mult.
  - rewrite Eb. apply Z_mod_mult.
Qed.

(** * Writing a register back *)

(** The places of the words of the BPF registers. *)
Definition place (a : Z) : Prop := (is_stacked a = true /\ -48 <= a <= -4 /\ a mod 4 = 0) \/ (is_stacked a = false /\ (a ∉ temps)).

Lemma pair_place r : 0 <= r <= 10 -> place (pair_of r).1 /\ place (pair_of r).2.
Proof.
  intros Hr. destruct (pair_cases r Hr) as [(E1 & E2 & _ & _ & _ & ? & ? & _)|(E1 & E2 & Hp)].
  - split; right; done.
  - destruct (slot_halves _ Hp) as (? & ? & _). split; left; done.
Qed.

(** The processor after the lower half of [v] and, when [full], the upper one
    have been put in the pair [p]. Temporary registers may have changed, and the
    upper half too when not [full]. *)
Record put (fp : Z) (full : bool) (p : Z * Z) (v : Z) (c c' : cpu) : Prop := {
  put_lo : word_at fp c' p.2 = lo v;
  put_hi : full = true -> word_at fp c' p.1 = hi v;
  put_word a : place a -> a <> p.1 -> a <> p.2 -> word_at fp c' a = word_at fp c a;
  put_mem x : uint 32 x -> 48 <= below fp x -> cmem c' x = cmem c x
}.

(** Changes of temporary registers before the write do not matter. *)
Lemma put_temps fp full p v c0 c1 c' : cmem c1 = cmem c0 -> (forall r, r ∉ temps -> gprs c1 r = gprs c0 r) ->
  put fp full p v c1 c' -> put fp full p v c0 c'.
Proof.
  intros Em Eg [Plo Phi Pw Pm]. split; [done|done| |].
  - intros a Ha H1 H2. rewrite Pw by done. unfold word_at. rewrite Em. destruct Ha as [(-> & _)|(-> & Ha)]; [done|by apply Eg].
  - intros x Hx Hb. by rewrite Pm, Em.
Qed.

(** The upper halves that are out of date after the write. *)
Definition dirty (full : bool) (r : Z) (D : gset Z) : gset Z := if full then D ∖ {[r]} else D ∪ {[r]}.

Lemma kept_place q r : 0 <= r <= 10 -> q ∈ 8 :: kept -> place q /\ is_stacked q = false /\ q <> (pair_of r).1 /\ q <> (pair_of r).2.
Proof.
  intros Hr%reg_cases Hq. assert (is_stacked q = false /\ (q ∉ temps)) as [? ?]
    by (clear - Hq; each_of Hq; (split; [done|apply (bool_decide_unpack _); exact I])).
  split; [by right|]. split; [done|]. clear - Hq Hr. each_of Hq; each_of Hr; done.
Qed.

Lemma rel32_put fp g0 sm D full insn s s' v c c' : 0 <= dst_reg insn <= 10 -> rel32 fp g0 sm D s c -> wrote insn s s' v -> uint 64 v ->
  put fp full (pair_of (dst_reg insn)) v c c' -> rel32 fp g0 sm (dirty full (dst_reg insn) D) s' c'.
Proof.
  intros Hd [Hfp Hlo Hhi Hu Hkeep Hmem Hsaved] [Wm Wr] Hv [Plo Phi Pw Pm].
  assert (forall q, q ∈ 8 :: kept -> gprs c' q = gprs c q) as Hk.
  { intros q Hq. destruct (kept_place q _ Hd Hq) as (Hp & Es & ? & ?). specialize (Pw q Hp). unfold word_at in Pw. rewrite Es in Pw. auto. }
  split.
  - rewrite Hk; [done|]. by left.
  - intros r Hr. rewrite Wr by done. destruct (decide (r = dst_reg insn)) as [->|Hne]; [by rewrite fn_lookup_insert|].
    rewrite fn_lookup_insert_ne by (by apply not_eq_sym). destruct (pair_disjoint _ _ Hr Hd Hne) as (? & ? & ? & ?).
    rewrite Pw; [by apply Hlo|by apply pair_place|done..].
  - intros r Hr HD. rewrite Wr by done. unfold dirty in HD. destruct (decide (r = dst_reg insn)) as [->|Hne].
    + rewrite fn_lookup_insert. apply Phi. destruct full; [done|set_solver].
    + rewrite fn_lookup_insert_ne by (by apply not_eq_sym). destruct (pair_disjoint _ _ Hr Hd Hne) as (? & ? & ? & ?).
      rewrite Pw; [apply Hhi; [done|destruct full; set_solver]|by apply pair_place|done..].
  - intros r Hr. rewrite Wr by done. rewrite fn_insert_spec. case_decide; [done|by apply Hu].
  - intros r Hr. rewrite Hk; [by apply Hkeep|]. by right.
  - intros x Hx Hf. rewrite Pm, Wm; [by apply Hmem|done|]. unfold in_frame in Hf. lia.
  - intros x Hx Hf. rewrite Pm; [by apply Hsaved|done|lia].
Qed.

(** Nothing changed but temporary registers, and memory outside the frame with
    that of the interpreter. *)
Lemma rel32_same fp g0 sm D s s' c c' : rel32 fp g0 sm D s c -> bregs s' = bregs s ->
  (forall r, r ∉ temps -> gprs c' r = gprs c r) ->
  (forall x, uint 32 x -> in_frame fp x -> cmem c' x = cmem c x) ->
  (forall x, uint 32 x -> ~ in_frame fp x -> cmem c' x = bmem s' x) -> rel32 fp g0 sm D s' c'.
Proof.
  intros [Hfp Hlo Hhi Hu Hkeep Hmem Hsaved] Er Cg Cf Cm.
  assert (forall a, place a -> word_at fp c' a = word_at fp c a) as Hw.
  { intros a [(E1 & Ha & _)|(E1 & Ha)]; unfold word_at; rewrite E1; [|by apply Cg].
    apply load_le_ext. intros i Hi. apply Cf; [by apply uint_wrap|]. unfold in_frame, below.
    rewrite wrap_sub_r. rewrite wrap_small; [lia|unfold uint; lia]. }
  split; rewrite ?Er; try done.
  - rewrite Cg; [done|]. apply (bool_decide_unpack _). exact I.
  - intros r Hr. rewrite Hw by (by apply pair_place). by apply Hlo.
  - intros r Hr HD. rewrite Hw by (by apply pair_place). by apply Hhi.
  - intros r Hr. rewrite Cg; [by apply Hkeep|]. clear - Hr. each_of Hr; apply (bool_decide_unpack _); exact I.
  - intros x Hx Hf. rewrite Cf; [by apply Hsaved|done|unfold in_frame; lia].
Qed.

(** * Operands of the RV32 BPF compiler: a BPF register in a pair of registers is
    used in place, one in a pair of slots is loaded into a temporary pair and
    stored back. *)

(** Loads and stores of words. *)
Lemma x_lw32 p g m rd rs k : uint 5 rd -> rd <> 0 -> uint 5 rs ->
  exec_word 32 (rv_lw rd k rs) (Cpu p g m) = wr 32 p g m rd (load_le 32 4 m (rget g rs + sgn 12 k)).
Proof.
  intros. rewrite x_lw by done. unfold sign_extend. rewrite sgn_wrap, wrap_small; [done|]. apply (load_le_range 32 4).
Qed.

(** * Operands *)

(** A temporary pair. *)
Definition tmp_pair (t : Z * Z) : Prop := t = tmp1 \/ t = tmp2.

(** The pair [p] is in slots, or in registers other than the frame pointer. *)
Definition opnd (p : Z * Z) : Prop :=
  (is_stacked p.1 = true /\ is_stacked p.2 = true /\ slot_pair p) \/
  (is_stacked p.1 = false /\ is_stacked p.2 = false /\ held p.1 /\ held p.2 /\ p.1 <> p.2 /\ p.1 <> 8 /\ p.2 <> 8).

Lemma opnd_reg r : 0 <= r <= 10 -> opnd (pair_of r).
Proof.
  intros Hr. destruct (pair_cases r Hr) as [(? & ? & H1 & H2 & H3 & _ & _ & H6 & H7)|?]; [by right|by left].
Qed.

Lemma opnd_tmp2 : opnd tmp2.
Proof. right. unfold held. vm_compute. split_and!; done. Qed.

(** The registers in which an operand is used. *)
Definition used (t p : Z * Z) : Z * Z := if is_stacked p.1 then t else p.

Lemma used_held t p : tmp_pair t -> opnd p ->
  held (used t p).1 /\ held (used t p).2 /\ (used t p).1 <> (used t p).2 /\ (used t p).1 <> 8 /\ (used t p).2 <> 8.
Proof.
  intros Ht. unfold used. intros [(-> & _)|(-> & _ & Hp)]; [|tauto].
  destruct Ht as [-> | ->]; unfold held; vm_compute; split_and!; done.
Qed.

(** An operand in slots has small offsets. *)
Lemma slot_sgn p : slot_pair p -> sgn 12 p.1 = p.1 /\ sgn 12 p.2 = p.2.
Proof. intros (? & _ & E'). rewrite E'. split; apply sgn_small; lia. Qed.

Section opnd.
Context (T : Z -> option Z) (E base fp : Z).

(** A store. *)
Lemma wp32_sw rs1 rs2 off k g m (Q : unit -> Z -> cpu -> Prop) : uint 5 rs1 -> uint 5 rs2 ->
  Q () (k + 1) (Cpu (addr base (k + 1)) g (store_le 32 4 m (rget g rs1 + sgn 12 off) (rget g rs2))) ->
  wp T E base (emit (rv_sw rs1 off rs2)) k (Cpu (addr base k) g m) Q.
Proof. intros H1 H2 HQ. eapply wp32_emit; [done|by apply x_sw|]. by rewrite addr_next. Qed.

Lemma wp32_lw rd rs off k g m (Q : unit -> Z -> cpu -> Prop) : uint 5 rd -> rd <> 0 -> uint 5 rs ->
  Q () (k + 1) (Cpu (addr base (k + 1)) (<[rd := load_le 32 4 m (rget g rs + sgn 12 off)]> g) m) ->
  wp T E base (emit (rv_lw rd off rs)) k (Cpu (addr base k) g m) Q.
Proof. intros H1 H2 H3 HQ. eapply wp32_wr; [by apply x_lw32|done]. Qed.

Section get.
Context (t p : Z * Z) (x : Z) (g : Z -> Z) (m : mem).
Hypothesis Ht : tmp_pair t.
Hypothesis Hp : opnd p.
Hypothesis Hfp : g 8 = fp.

Lemma wp32_get64 k (Q : Z * Z -> Z -> cpu -> Prop) : word_at fp (Cpu (addr base k) g m) p.2 = lo x ->
  (forall k' g', (word_at fp (Cpu (addr base k) g m) p.1 = hi x -> g' (used t p).1 = hi x) -> g' (used t p).2 = lo x ->
     (forall r, r <> t.1 -> r <> t.2 -> g' r = g r) -> Q (used t p) k' (Cpu (addr base k') g' m)) ->
  wp T E base (rv32_bpf_get_reg64 p t) k (Cpu (addr base k) g m) Q.
Proof.
  intros Hx HQ. unfold rv32_bpf_get_reg64, word_at, used in *. cbn [cmem gprs] in Hx, HQ.
  destruct Hp as [(E1 & E2 & Hs)|(E1 & E2 & Hh)]; rewrite E1, ?E2 in *.
  - destruct (slot_sgn p Hs) as [S1 S2].
    assert (uint 5 t.1 /\ t.1 <> 0 /\ t.1 <> 8 /\ uint 5 t.2 /\ t.2 <> 0 /\ t.2 <> t.1) as (? & ? & ? & ? & ? & ?)
      by (destruct Ht as [-> | ->]; vm_compute; split_and!; done).
    wstep. apply wp32_lw; [done..|]. wstep. apply wp32_lw; [done..|]. apply wp32_ret. apply HQ.
    + rsimpl. by rewrite S1, Hfp.
    + rsimpl. by rewrite S2, Hfp.
    + intros. by rsimpl.
  - apply wp32_ret. by apply HQ.
Qed.

Lemma wp32_get32 k (Q : Z * Z -> Z -> cpu -> Prop) : word_at fp (Cpu (addr base k) g m) p.2 = lo x ->
  (forall k' g', g' (used t p).2 = lo x -> (forall r, r <> t.1 -> r <> t.2 -> g' r = g r) ->
     Q (used t p) k' (Cpu (addr base k') g' m)) ->
  wp T E base (rv32_bpf_get_reg32 p t) k (Cpu (addr base k) g m) Q.
Proof.
  intros Hx HQ. unfold rv32_bpf_get_reg32, word_at, used in *. cbn [cmem gprs] in Hx.
  destruct Hp as [(E1 & E2 & Hs)|(E1 & E2 & Hh)]; rewrite E1 in *; rewrite E2 in *.
  - destruct (slot_sgn p Hs) as [S1 S2].
    assert (uint 5 t.2 /\ t.2 <> 0) as (? & ?) by (destruct Ht as [-> | ->]; vm_compute; split_and!; done).
    wstep. apply wp32_lw; [done..|]. apply wp32_ret. apply HQ.
    + rsimpl. by rewrite S2, Hfp.
    + intros. by rsimpl.
  - apply wp32_ret. by apply HQ.
Qed.

(** ** Writing the registers back *)

(** The processor before the code of the instruction. *)
Context (c0 : cpu).
Hypothesis Hm0 : cmem c0 = m.
Hypothesis Hg0 : forall r, r ∉ temps -> r <> p.1 -> r <> p.2 -> g r = gprs c0 r.

(** The words in other places. *)
Lemma word_kept a pc0 : place a -> a <> p.1 -> a <> p.2 -> word_at fp (Cpu pc0 g m) a = word_at fp c0 a.
Proof.
  intros Ha H1 H2. unfold word_at. rewrite Hm0. cbn [cmem gprs]. destruct Ha as [(-> & _)|(-> & Ha)]; [done|by apply Hg0].
Qed.

(** Words of the slots after a store to one of them. *)
Lemma word_slot a b v pc0 g1 m1 : -48 <= a <= -4 -> a mod 4 = 0 -> is_stacked a = true -> place b -> a <> b ->
  word_at fp (Cpu pc0 g1 (store_le 32 4 m1 (fp + a) v)) b = word_at fp (Cpu pc0 g1 m1) b.
Proof.
  intros Ha Ma Ea Hb Hne. unfold word_at. cbn [cmem gprs]. destruct Hb as [(E1 & Hb & Mb)|(E1 & Hb)]; rewrite E1; [|done].
  by apply load_slot.
Qed.

Lemma word_stored a v pc0 g1 m1 : uint 32 v -> is_stacked a = true ->
  word_at fp (Cpu pc0 g1 (store_le 32 4 m1 (fp + a) v)) a = v.
Proof. intros Hv Ea. unfold word_at. cbn [cmem]. rewrite Ea, load_store_same by lia. by apply wrap_small. Qed.

Lemma put64_ok v k (Q : unit -> Z -> cpu -> Prop) : uint 64 v -> g (used t p).1 = hi v -> g (used t p).2 = lo v ->
  (forall k' c', pc c' = addr base k' -> put fp true p v c0 c' -> Q () k' c') ->
  wp T E base (rv32_bpf_put_reg64 p (used t p)) k (Cpu (addr base k) g m) Q.
Proof.
  intros Hv H1 H2 HQ. destruct (used_held t p Ht Hp) as ((? & ? & _) & (? & ? & _) & _).
  unfold rv32_bpf_put_reg64. wstep. unfold used in *.
  destruct Hp as [(E1 & E2 & Hs)|(E1 & E2 & Hh)]; rewrite E1 in *.
  - destruct (slot_sgn p Hs) as [S1 S2], (slot_halves p Hs) as ([? ?] & [? ?] & ?).
    assert (place p.1) by (by left). assert (place p.2) by (by left).
    wstep. apply wp32_sw; [done..|]. apply wp32_sw; [done..|]. rewrite !rget_nz, Hfp, H1, H2, S1, S2 by done.
    apply HQ; [done|]. split.
    + apply word_stored; [apply lo_uint|done].
    + intros _. rewrite word_slot by (assumption || (by apply not_eq_sym)). apply word_stored; [by apply hi_uint|done].
    + intros a Ha N1 N2. rewrite !word_slot by (assumption || (by apply not_eq_sym)). by apply word_kept.
    + intros y Hy Hb. cbn [cmem]. by rewrite !store_slot, Hm0 by assumption.
  - apply HQ; [done|]. split.
    + unfold word_at. by rewrite E2.
    + intros _. unfold word_at. by rewrite E1.
    + intros a Ha N1 N2. by apply word_kept.
    + intros y _ _. by rewrite Hm0.
Qed.

Lemma put32_ok zext v k (Q : unit -> Z -> cpu -> Prop) : uint 32 v -> g (used t p).2 = v ->
  (forall k' c', pc c' = addr base k' -> put fp (negb zext) p v c0 c' -> Q () k' c') ->
  wp T E base (rv32_bpf_put_reg32 zext p (used t p)) k (Cpu (addr base k) g m) Q.
Proof.
  intros Hv H2 HQ. destruct (used_held t p Ht Hp) as ((? & ? & _) & (? & ? & _) & _).
  unfold rv32_bpf_put_reg32. unfold used in *.
  destruct Hp as [(E1 & E2 & Hs)|(E1 & E2 & Hh)]; rewrite E1, ?E2 in *.
  - destruct (slot_sgn p Hs) as [S1 S2], (slot_halves p Hs) as ([? ?] & [? ?] & ?).
    assert (place p.1) by (by left). assert (place p.2) by (by left).
    wstep. apply wp32_sw; [done..|]. rewrite !rget_nz, Hfp, H2, S2 by done. wstep. destruct zext; cbn [negb] in *.
    + apply HQ; [done|]. split; [rewrite lo_small by done; by apply word_stored|done|..].
      * intros a Ha N1 N2. rewrite !word_slot by (assumption || (by apply not_eq_sym)). by apply word_kept.
      * intros y Hy Hb. cbn [cmem]. by rewrite !store_slot, Hm0 by assumption.
    + apply wp32_sw; [done..|]. rewrite (rget_nz _ 8), Hfp, S1 by done. change (rget g 0) with 0. apply HQ; [done|]. split.
      * rewrite lo_small, word_slot by (assumption || (by apply not_eq_sym)). by apply word_stored.
      * intros _. rewrite hi_small by done. by apply word_stored.
      * intros a Ha N1 N2. rewrite !word_slot by (assumption || (by apply not_eq_sym)). by apply word_kept.
      * intros y Hy Hb. cbn [cmem]. by rewrite !store_slot, Hm0 by assumption.
  - destruct Hh as ((? & ? & _) & _ & ? & _). wstep. destruct zext; cbn [negb] in *; [|wstep].
    all: apply HQ; [done|]; split; try done; try (intros y _ _; by rewrite Hm0).
    + unfold word_at. rewrite E2, (lo_small v) by done. done.
    + intros a Ha N1 N2. by apply word_kept.
    + unfold word_at. rewrite E2, (lo_small v) by done. cbn [gprs]. by rsimpl.
    + intros _. unfold word_at. rewrite E1, (hi_small v) by done. cbn [gprs]. by rsimpl.
    + intros a Ha N1 N2. rewrite <- (word_kept a (addr base k)) by done. unfold word_at. cbn [gprs cmem]. by rsimpl.
Qed.
End get.
End opnd.
