(* ===== verification/BpfJit32Bodies.v ===== *)
(** The operations of the RV32 BPF compiler on BPF registers, wherever they are:
    arithmetic, byte swaps, zero extension and immediates leave their value in
    the place of the destination and change no other. *)

From S2P Require Import Prelude Cstring Bytes Bpf BpfSteps Riscv RvEmit RvEnc RvExec BpfJit32 BpfJit32Half BpfJit32Mem BpfJit32Exec.
From S2P Require Import BpfJit32Ops BpfJit32Word BpfJit32Rel.

(** The pair of a source operand: a BPF register, or the immediate in tmp2. *)
Definition src_pair (q : Z * Z) : Prop := (exists r, 0 <= r <= 10 /\ q = pair_of r) \/ q = tmp2.

Lemma src_opnd q : src_pair q -> opnd q.
Proof. intros [(r & Hr & ->)| ->]; [by apply opnd_reg|apply opnd_tmp2]. Qed.

(** The registers of the operands are the same, or have nothing in common. *)
Lemma used_alias d q : 0 <= d <= 10 -> src_pair q ->
  let rd := used tmp1 (pair_of d) in let rs := used tmp2 q in
  (rs.1 = rd.1 /\ rs.2 = rd.2) \/ (rs.1 <> rd.1 /\ rs.1 <> rd.2 /\ rs.2 <> rd.1 /\ rs.2 <> rd.2).
Proof.
  intros Hd%reg_cases [(r & Hr%reg_cases & ->)| ->]; each_of Hd; try each_of Hr; vm_compute;
    first [left; split; reflexivity | right; split_and!; discriminate].
Qed.

(** The registers of the destination, read into tmp1, do not hold the source. *)
Lemma src_not_tmp1 q : src_pair q -> q.1 <> tmp1.1 /\ q.1 <> tmp1.2 /\ q.2 <> tmp1.1 /\ q.2 <> tmp1.2.
Proof. intros [(r & Hr%reg_cases & ->)| ->]; [each_of Hr|]; vm_compute; split_and!; discriminate. Qed.

Lemma temps_tmp r : r ∉ temps -> r <> 5 /\ r <> 6 /\ r <> tmp1.1 /\ r <> tmp1.2 /\ r <> tmp2.1 /\ r <> tmp2.2.
Proof. unfold temps. rewrite !not_elem_of_cons. cbn. tauto. Qed.

(** A register of the place of [p] that is used is not another register. *)
Lemma used_not p r : r ∉ temps -> r <> p.1 -> r <> p.2 -> r <> (used tmp1 p).1 /\ r <> (used tmp1 p).2.
Proof. intros (_ & _ & ? & ? & _)%temps_tmp ? ?. unfold used. by destruct (is_stacked p.1). Qed.

Section bodies.
Context (T : Z -> option Z) (E base fp : Z).

(** ** One operand *)

Section one.
Context (d : Z) (x : Z) (k : Z) (g : Z -> Z) (m : mem).
Hypothesis Hd : 0 <= d <= 10.
Hypothesis Hfp : g 8 = fp.
Abbreviation p := (pair_of d).
Abbreviation rd := (used tmp1 p).
Abbreviation c := (Cpu (addr base k) g m).
Hypothesis Hlo : word_at fp c p.2 = lo x.

(** The state after the destination has been read. *)
Definition loaded (g' : Z -> Z) : Prop :=
  (word_at fp c p.1 = hi x -> g' rd.1 = hi x) /\ g' rd.2 = lo x /\ forall r, r <> tmp1.1 -> r <> tmp1.2 -> g' r = g r.

Lemma dst_get64 {A} (body : Z * Z -> M A) (Q : A -> Z -> cpu -> Prop) :
  (forall k' g', loaded g' -> wp T E base (body rd) k' (Cpu (addr base k') g' m) Q) ->
  wp T E base (rd <- rv32_bpf_get_reg64 p tmp1; body rd) k c Q.
Proof.
  intros HQ. apply wp32_bind, (wp32_get64 T E base fp tmp1 p x); [by left|by apply opnd_reg|done|done|].
  intros k' g' H1 H2 H3. by apply HQ.
Qed.

Lemma dst_get32 {A} (body : Z * Z -> M A) (Q : A -> Z -> cpu -> Prop) :
  (forall k' g', g' rd.2 = lo x -> (forall r, r <> tmp1.1 -> r <> tmp1.2 -> g' r = g r) ->
    wp T E base (body rd) k' (Cpu (addr base k') g' m) Q) ->
  wp T E base (rd <- rv32_bpf_get_reg32 p tmp1; body rd) k c Q.
Proof. intros HQ. apply wp32_bind, (wp32_get32 T E base fp tmp1 p x); [by left|by apply opnd_reg|done|done|done]. Qed.

(** From the registers of the destination to its place. *)
Lemma dst_put64 v k' g' (Q : unit -> Z -> cpu -> Prop) : uint 64 v -> g' rd.1 = hi v -> g' rd.2 = lo v ->
  (forall r, r ∉ temps -> r <> rd.1 -> r <> rd.2 -> g' r = g r) ->
  (forall k' c', pc c' = addr base k' -> put fp true p v c c' -> Q () k' c') ->
  wp T E base (rv32_bpf_put_reg64 p rd) k' (Cpu (addr base k') g' m) Q.
Proof.
  intros Hv H1 H2 Hg HQ. destruct (used_held tmp1 p ltac:(by left) (opnd_reg d Hd)) as (? & ? & ? & ? & ?).
  apply (put64_ok T E base fp tmp1 p g' m) with (c0 := c) (v := v); [by left|by apply opnd_reg| |done| |done..].
  - rewrite Hg; [done|apply (bool_decide_unpack _); exact I|by apply not_eq_sym..].
  - intros r Hr Hn1 Hn2. destruct (used_not _ _ Hr Hn1 Hn2). by apply Hg.
Qed.

Lemma dst_put32 zext v k' g' (Q : unit -> Z -> cpu -> Prop) : uint 32 v -> g' rd.2 = v ->
  (forall r, r ∉ temps -> r <> rd.1 -> r <> rd.2 -> g' r = g r) ->
  (forall k' c', pc c' = addr base k' -> put fp (negb zext) p v c c' -> Q () k' c') ->
  wp T E base (rv32_bpf_put_reg32 zext p rd) k' (Cpu (addr base k') g' m) Q.
Proof.
  intros Hv H2 Hg HQ. destruct (used_held tmp1 p ltac:(by left) (opnd_reg d Hd)) as (? & ? & ? & ? & ?).
  apply (put32_ok T E base fp tmp1 p g' m) with (c0 := c) (v := v); [by left|by apply opnd_reg| |done| |done..].
  - rewrite Hg; [done|apply (bool_decide_unpack _); exact I|by apply not_eq_sym..].
  - intros r Hr Hn1 Hn2. destruct (used_not _ _ Hr Hn1 Hn2). by apply Hg.
Qed.

(** An operation on the registers of the destination. *)
Lemma dst_op64 (body : Z * Z -> M unit) v (Q : unit -> Z -> cpu -> Prop) : uint 64 v ->
  (forall g', loaded g' -> computes T E base rd.1 rd.2 g' m (body rd) v) ->
  (forall k' c', pc c' = addr base k' -> put fp true p v c c' -> Q () k' c') ->
  wp T E base (rd <- rv32_bpf_get_reg64 p tmp1; body rd;; rv32_bpf_put_reg64 p rd) k c Q.
Proof.
  intros Hv Hb HQ. apply dst_get64. intros k1 g1 Hl. wstep. eapply wp32_mono; [by apply Hb|].
  intros _ k2 [p2 g2 m2] (Hpc & Hm & H1 & H2 & Ho). cbn [pc cmem gprs] in *. subst p2 m2.
  apply (dst_put64 v); [done..| |done]. intros r (? & ? & ? & ? & _)%temps_tmp ? ?. rewrite Ho by done. by apply Hl.
Qed.

Lemma dst_held : held rd.1 /\ held rd.2 /\ rd.1 <> rd.2.
Proof. destruct (used_held tmp1 p ltac:(by left) (opnd_reg d Hd)) as (? & ? & ? & _). done. Qed.

(** The post-condition of an operation that writes the destination. *)
Definition puts (full : bool) (v : Z) (_ : unit) (k' : Z) (c' : cpu) : Prop := pc c' = addr base k' /\ put fp full p v c c'.

(** dst = (u32) dst *)
Lemma zext64_ok : wp T E base (emit_rv32_zext64 p) k c (puts true (u32 x)).
Proof.
  unfold emit_rv32_zext64. apply (dst_op64 (fun rd => emit (rv_addi rd.1 RV_REG_ZERO 0)) (u32 x)); [|intros g' (Hh1 & Hl1 & Ho1) k'|by split].
  { apply (uint_mono 32); [lia|by apply uint_wrap]. }
  destruct dst_held as ((? & ? & ? & ?) & (? & ? & ? & ?) & ?). wstep. unfold computed. cbn [pc cmem gprs]. rsimpl.
  destruct (narrow_halves 32 x ltac:(lia)) as [-> ->]. split_and!; [done|done|done| |intros; by rsimpl].
  by rewrite Hl1, lo_val.
Qed.

(** dst = imm64 *)
Lemma imm64_ok ih il : wp T E base (rd <- rv32_bpf_get_reg64 p tmp1; emit_imm64 rd ih il;; rv32_bpf_put_reg64 p rd) k c
  (puts true (u32 il .| u64 (u32 ih ≪ 32))).
Proof.
  apply (dst_op64 (fun rd => emit_imm64 rd ih il) (u32 il .| u64 (u32 ih ≪ 32))); [|intros g' (Hh1 & Hl1 & Ho1) k'|by split].
  { apply uint_lor; [lia| |by apply uint_wrap]. apply (uint_mono 32); [lia|by apply uint_wrap]. }
  destruct dst_held as (? & ? & ?). rewrite (surjective_pairing rd). apply wp32_imm64; [done..|].
  intros k1 g1 H1' H2' H3'. unfold computed. cbn [pc cmem gprs].
  assert (hi (u32 il .| u64 (u32 ih ≪ 32)) = u32 ih) as -> by (rewrite hi_val; zbits).
  assert (lo (u32 il .| u64 (u32 ih ≪ 32)) = u32 il) as -> by (rewrite lo_val; zbits).
  split_and!; [done..|]. intros. by apply H3'.
Qed.

(** dst = imm *)
Lemma alu_i64_mov imm : - 2 ^ 31 <= imm < 2 ^ 31 -> wp T E base (emit_rv32_alu_i64 p imm BPF_MOV) k c (puts true (u64 imm)).
Proof.
  intros Himm. apply (dst_op64 (fun rd => alu_i64_code rd imm BPF_MOV) (u64 imm)); [by apply uint_wrap|intros g' (Hh1 & Hl1 & Ho1) k'|by split].
  destruct dst_held as (? & ? & ?). change (alu_i64_code rd imm BPF_MOV) with (emit_imm32 rd imm).
  rewrite (surjective_pairing rd). apply wp32_imm32; [done..|].
  intros k1 g1 H1' H2' H3'. unfold computed. cbn [pc cmem gprs fst snd]. split_and!; [done..|]. intros. by apply H3'.
Qed.

(** dst OP= imm, for shifts *)
Lemma alu_i64_shift_ok (op : bpf_alu_op) imm v : word_at fp c p.1 = hi x -> uint 64 x -> op ∈ [BPF_LSH; BPF_RSH; BPF_ARSH] ->
  alu_val true op x imm = Some v -> wp T E base (emit_rv32_alu_i64 p imm op) k c (puts true v).
Proof.
  intros Hhi Hx Hop Hv. apply (dst_op64 (fun rd => alu_i64_code rd imm op) v); [by eapply alu_val_range|intros g' (Hh1 & Hl1 & Ho1)|by split].
  destruct dst_held as (? & ? & ?). rewrite (surjective_pairing rd). apply (alu_i64_shift T E base rd.1 rd.2 rd.1 rd.2) with (a := x); auto.
Qed.

(** dst = - dst *)
Lemma alu_r64_neg_ok : word_at fp c p.1 = hi x -> uint 64 x ->
  wp T E base (emit_rv32_alu_r64 p tmp2 BPF_NEG) k c (puts true (u64 (- x))).
Proof.
  intros Hhi Hx. apply (dst_op64 (fun rd => alu_r64_code rd tmp2 BPF_NEG) (u64 (- x)));
    [by apply uint_wrap|intros g' (Hh1 & Hl1 & Ho1)|by split].
  destruct dst_held as (? & ? & ?), (src_opnd tmp2 ltac:(by right)) as [(E1 & _)|(_ & _ & ? & ? & _)]; [discriminate E1|].
  rewrite (surjective_pairing rd). apply (alu_r64_neg T E base rd.1 rd.2); auto.
Qed.

(** dst = be/le(dst) *)
Lemma end_dst_ok be n : n ∈ [16; 32; 64] -> (n = 64 -> word_at fp c p.1 = hi x) -> uint 64 x ->
  wp T E base (emit_end (end_code be) p n) k c (fun a k' c' => a = 0 /\ puts true (end_val be n x) () k' c').
Proof.
  intros Hn Hhi Hx. unfold emit_end. apply dst_get64. intros k1 g1 (Hh1 & Hl1 & Ho1). destruct dst_held as (? & ? & ?).
  destruct (end_ok T E base m rd.1 rd.2 g1 x ltac:(done) ltac:(done) ltac:(done) Hx Hl1 be n Hn) as (body & Eb & Hb); [auto|].
  rewrite <- (surjective_pairing rd) in Eb. rewrite Eb. wstep. eapply wp32_mono; [apply Hb|].
  intros _ k2 [p2 g2 m2] (Hpc & Hm & H1' & H2' & Ho). cbn [pc cmem gprs] in *. subst p2 m2. wstep.
  apply (dst_put64 (end_val be n x)); [|done|done| |].
  - unfold end_val. clear - Hn Hx. each_of Hn; destruct be; cbn [Z.eqb Pos.eqb]; (eapply uint_mono; [|by apply uint_wrap]; lia).
  - intros r (? & ? & ? & ? & _)%temps_tmp ? ?. rewrite Ho by done. by apply Ho1.
  - intros k3 c3 ? ?. wstep. by split.
Qed.

(** (u32) dst = imm *)
Lemma alu_i32_mov zext imm : - 2 ^ 31 <= imm < 2 ^ 31 ->
  wp T E base (emit_rv32_alu_i32 zext p imm BPF_MOV) k c (puts (negb zext) (u32 imm)).
Proof.
  intros Himm. unfold emit_rv32_alu_i32. apply dst_get32. intros k1 g1 Hl1 Ho1. destruct dst_held as (? & ? & ?).
  change (switch BPF_MOV _ _) with (emit_imm32 rd imm). wstep. rewrite (surjective_pairing rd) at 1. apply wp32_imm32; [done..|].
  intros k2 g2 _ H2' H3'. apply (dst_put32 zext (u32 imm)); [by apply uint_wrap|by rewrite H2', lo_imm| |by split].
  intros r (? & ? & ? & ? & _)%temps_tmp ? ?. rewrite H3' by done. by apply Ho1.
Qed.

(** (u32) dst = - (u32) dst *)
Lemma alu_r32_neg_ok zext : wp T E base (emit_rv32_alu_r32 zext p tmp2 BPF_NEG) k c (puts (negb zext) (u32 (- x))).
Proof.
  unfold emit_rv32_alu_r32. apply dst_get32. intros k1 g1 Hl1 Ho1. destruct dst_held as (? & ? & ?).
  wstep. apply wp32_ret. wstep. rewrite (surjective_pairing rd) at 1.
  apply (alu_r32_neg T E base m rd.1 rd.2 tmp2.1 tmp2.2 g1 x); [done|done|]. intros k2.
  apply (dst_put32 zext (u32 (- x))); [by apply uint_wrap|by rewrite fn_lookup_insert| |by split].
  intros r (? & ? & ? & ? & _)%temps_tmp ? ?. rewrite fn_lookup_insert_ne by (by apply not_eq_sym). by apply Ho1.
Qed.
End one.

(** ** Two operands *)

Section two.
Context (d : Z) (q : Z * Z) (a b : Z) (k : Z) (g : Z -> Z) (m : mem).
Hypothesis Hd : 0 <= d <= 10.
Hypothesis Hq : src_pair q.
Hypothesis Hfp : g 8 = fp.
Abbreviation p := (pair_of d).
Abbreviation rd := (used tmp1 p).
Abbreviation rs := (used tmp2 q).
Abbreviation c := (Cpu (addr base k) g m).
Hypothesis Hlo : word_at fp c p.2 = lo a.
Hypothesis Hlos : word_at fp c q.2 = lo b.

Lemma src_held : held rs.1 /\ held rs.2 /\ rs.1 <> rs.2.
Proof. destruct (used_held tmp2 q ltac:(by right) (src_opnd q Hq)) as (? & ? & ? & _). done. Qed.

(** The source is where it was after the destination has been read. *)
Lemma src_word g' k' : (forall r, r <> tmp1.1 -> r <> tmp1.2 -> g' r = g r) ->
  word_at fp (Cpu (addr base k') g' m) q.1 = word_at fp c q.1 /\ word_at fp (Cpu (addr base k') g' m) q.2 = word_at fp c q.2.
Proof.
  intros Hg. destruct (src_not_tmp1 q Hq) as (? & ? & ? & ?). unfold word_at. cbn [cmem gprs]. by rewrite !Hg by done.
Qed.

(** The destination is where it was after the source has been read. *)
Lemma rd_not_tmp2 : rd.1 <> tmp2.1 /\ rd.1 <> tmp2.2 /\ rd.2 <> tmp2.1 /\ rd.2 <> tmp2.2.
Proof. clear - Hd. apply reg_cases in Hd. each_of Hd; vm_compute; split_and!; discriminate. Qed.

(** The state after both operands have been read. *)
Definition loaded2 (g' : Z -> Z) : Prop :=
  (word_at fp c p.1 = hi a -> g' rd.1 = hi a) /\ g' rd.2 = lo a /\
  (word_at fp c q.1 = hi b -> g' rs.1 = hi b) /\ g' rs.2 = lo b /\
  forall r, r <> tmp1.1 -> r <> tmp1.2 -> r <> tmp2.1 -> r <> tmp2.2 -> g' r = g r.

Lemma get2_64 {A} (body : Z * Z -> Z * Z -> M A) (Q : A -> Z -> cpu -> Prop) :
  (forall k' g', loaded2 g' -> wp T E base (body rd rs) k' (Cpu (addr base k') g' m) Q) ->
  wp T E base (rd <- rv32_bpf_get_reg64 p tmp1; rs <- rv32_bpf_get_reg64 q tmp2; body rd rs) k c Q.
Proof.
  intros HQ. apply (dst_get64 d a k g m Hd Hfp Hlo (fun rd => rs <- rv32_bpf_get_reg64 q tmp2; body rd rs)).
  intros k1 g1 (Hh1 & Hl1 & Ho1). destruct (src_word g1 k1 Ho1) as [W1 W2], rd_not_tmp2 as (? & ? & ? & ?).
  apply wp32_bind, (wp32_get64 T E base fp tmp2 q b); [by right|by apply src_opnd|by rewrite Ho1|by rewrite W2|].
  intros k2 g2 Hh2 Hl2 Ho2. apply HQ. rewrite W1 in Hh2. split_and!; [|by rewrite Ho2|done|done|].
  - intros Hh. rewrite Ho2 by done. auto.
  - intros. rewrite Ho2 by done. by apply Ho1.
Qed.

Lemma get2_32 {A} (body : Z * Z -> Z * Z -> M A) (Q : A -> Z -> cpu -> Prop) :
  (forall k' g', g' rd.2 = lo a -> g' rs.2 = lo b ->
    (forall r, r <> tmp1.1 -> r <> tmp1.2 -> r <> tmp2.1 -> r <> tmp2.2 -> g' r = g r) ->
    wp T E base (body rd rs) k' (Cpu (addr base k') g' m) Q) ->
  wp T E base (rd <- rv32_bpf_get_reg32 p tmp1; rs <- rv32_bpf_get_reg32 q tmp2; body rd rs) k c Q.
Proof.
  intros HQ. apply (dst_get32 d a k g m Hd Hfp Hlo (fun rd => rs <- rv32_bpf_get_reg32 q tmp2; body rd rs)).
  intros k1 g1 Hl1 Ho1. destruct (src_word g1 k1 Ho1) as [W1 W2], rd_not_tmp2 as (? & ? & ? & ?).
  apply wp32_bind, (wp32_get32 T E base fp tmp2 q b); [by right|by apply src_opnd|by rewrite Ho1|by rewrite W2|].
  intros k2 g2 Hl2 Ho2. apply HQ; [by rewrite Ho2|done|]. intros. rewrite Ho2 by done. by apply Ho1.
Qed.

(** Writing back after an operation on both operands. *)
Lemma op2_64 (op : Z) v : uint 64 v ->
  (forall g', loaded2 g' -> computes T E base rd.1 rd.2 g' m (alu_r64_code rd rs op) v) ->
  wp T E base (emit_rv32_alu_r64 p q op) k c (puts d k g m true v).
Proof.
  intros Hv Hb. apply get2_64. intros k1 g1 Hl. wstep. eapply wp32_mono; [by apply Hb|].
  intros _ k2 [p2 g2 m2] (Hpc & Hm & H1 & H2 & Ho). cbn [pc cmem gprs] in *. subst p2 m2.
  apply (dst_put64 d k g m Hd Hfp v); [done..| |by split]. intros r Hr ? ?. apply temps_tmp in Hr as (? & ? & ? & ? & ? & ?).
  rewrite Ho by done. by apply Hl.
Qed.

(** dst = src *)
Lemma alu_r64_mov_ok : word_at fp c q.1 = hi b -> uint 64 b -> wp T E base (emit_rv32_alu_r64 p q BPF_MOV) k c (puts d k g m true b).
Proof.
  intros Hhi Hb. apply op2_64; [done|]. intros g' (_ & _ & H1 & H2 & _) k'. specialize (H1 Hhi).
  destruct (dst_held d Hd) as ((? & ? & ? & ?) & (? & ? & ? & ?) & ?), src_held as ((? & ? & ? & ?) & (? & ? & ? & ?) & ?).
  change (alu_r64_code rd rs BPF_MOV) with (emit (rv_addi rd.1 rs.1 0);; emit (rv_addi rd.2 rs.2 0)).
  destruct (used_alias d q Hd Hq) as [(Eh & El)|(? & ? & ? & ?)]; repeat wstep; unfold computed; cbn [pc cmem gprs]; rsimpl.
  all: rewrite ?Eh, ?El in *; rsimpl; rewrite ?H1, ?H2; change (sgn 12 0) with 0; rewrite !Z.add_0_r, u32_hi, u32_lo by done.
  all: split_and!; [done..|]; intros; by rsimpl.
Qed.

(** dst OP= src *)
Lemma alu_r64_op_ok (op : bpf_alu_op) v : word_at fp c p.1 = hi a -> uint 64 a -> word_at fp c q.1 = hi b -> uint 64 b ->
  op ∈ [BPF_MOV; BPF_ADD; BPF_SUB; BPF_AND; BPF_OR; BPF_XOR; BPF_MUL; BPF_LSH; BPF_RSH; BPF_ARSH] ->
  alu_val true op a b = Some v -> wp T E base (emit_rv32_alu_r64 p q op) k c (puts d k g m true v).
Proof.
  intros Hhi Ha Hhis Hb Hop Hv. apply op2_64; [exact (alu_val_range _ _ _ _ _ Ha Hv)|]. intros g' (H1 & H2 & H3 & H4 & _).
  destruct (dst_held d Hd) as (? & ? & ?), src_held as (? & ? & ?). rewrite (surjective_pairing rd), (surjective_pairing rs).
  apply (alu_r64_ok T E base rd.1 rd.2 rs.1 rs.2) with (a := a) (b := b); auto. by apply used_alias.
Qed.

(** (u32) dst OP= (u32) src *)
Lemma alu_r32_op_ok zext (op : bpf_alu_op) v : op ∈ alu_ops -> alu_val false op a b = Some v -> uint 32 v ->
  wp T E base (emit_rv32_alu_r32 zext p q op) k c (puts d k g m (negb zext) v).
Proof.
  intros Hop Hv Hu. apply get2_32. intros k1 g1 H1 H2 Ho1. destruct (dst_held d Hd) as (? & ? & ?), src_held as (? & ? & ?).
  wstep. rewrite (surjective_pairing rd) at 1. rewrite (surjective_pairing rs).
  apply (alu_r32_ok T E base m rd.1 rd.2 rs.1 rs.2 g1 a b) with (v := v); [done|done|done|by rewrite H2, lo_val|done|done|].
  intros k2. apply (dst_put32 d k g m Hd Hfp zext v); [done|by rewrite fn_lookup_insert| |by split].
  intros r Hr ? ?. apply temps_tmp in Hr as (? & ? & ? & ? & ? & ?). rewrite fn_lookup_insert_ne by (by apply not_eq_sym). by apply Ho1.
Qed.

(** ** Jumps *)

(** A jump leaves everything but temporary registers as it was. *)
Definition branched (cond : bool) (dist k' : Z) (c' : cpu) : Prop :=
  pc c' = addr base (if cond then k' - 1 + dist else k') /\ cmem c' = m /\ forall r, r ∉ temps -> gprs c' r = g r.

Lemma jump_branched g' cond dist k' c' : (forall r, r <> tmp1.1 -> r <> tmp1.2 -> r <> tmp2.1 -> r <> tmp2.2 -> g' r = g r) ->
  jumps base g' m cond dist k' c' -> branched cond dist k' c'.
Proof.
  intros Hg (Hpc & Hm & Ho). split_and!; [done|done|]. intros r Hr. apply temps_tmp in Hr as (? & ? & ? & ? & ? & ?).
  rewrite Ho by done. by apply Hg.
Qed.

(** The offset of a jump from instruction [i] to [i + off]. *)
Section offsets.
Context (off i oi ot : Z).
Hypothesis Hoi : T i = Some oi.
Hypothesis Hot : T (i + off) = Some ot.
Hypothesis Eoi : entry_ok oi.
Hypothesis Eot : entry_ok ot.

Lemma wp32_rv_offset k1 c1 (Q : Z -> Z -> cpu -> Prop) : Q (jmp_dist oi ot) k1 c1 -> wp T E base (rv_offset (i + off) i) k1 c1 Q.
Proof.
  intros HQ. apply wp32_bind, (wp32_get_offset T E base _ oi); [done|]. apply wp32_bind, (wp32_get_offset T E base _ ot); [done|].
  apply wp32_ret. by rewrite rv_offset_val.
Qed.

(** The compiler checks that the last branch is in range. *)
Hypothesis Hrange : is_13b_int (jmp_dist oi ot) = true.

Lemma wp32_offset_check k1 c1 (Q : Z * Z -> Z -> cpu -> Prop) : Q (jmp_dist oi ot, 0) k1 c1 -> wp T E base (rv_offset_check off i) k1 c1 Q.
Proof. intros HQ. apply wp32_bind, wp32_rv_offset, wp32_ret. unfold is_13b_check. by rewrite Hrange. Qed.

(** if dst OP src goto *)
Lemma jump64_ok (op : bpf_jmp_op) : word_at fp c p.1 = hi a -> uint 64 a -> word_at fp c q.1 = hi b -> uint 64 b -> op ∈ cond_ops ->
  wp T E base (emit_rv32_jump_r64 p q off i op) k c
    (fun r k' c' => r = 0 /\ branched (jmp_holds true op a b) (landing op a b (ot - oi + 1)) k' c').
Proof.
  intros Hhi Ha Hhis Hb Hop. apply get2_64. intros k1 g1 (H1 & H2 & H3 & H4 & Ho).
  destruct (dst_held d Hd) as (? & ? & ?), src_held as (? & ? & ?).
  apply wp32_bind, wp32_offset_check. cbn [negb Z.eqb]. unfold jmp_dist in *. wstep.
  rewrite (surjective_pairing rd), (surjective_pairing rs). unfold is_13b_int in Hrange.
  eapply wp32_mono; [apply (jump_r64_ok T E base rd.1 rd.2 rs.1 rs.2 g1 m a b (ot - oi + 1)); auto; lia|].
  intros ? k2 c2 Hj. wstep. split; [done|]. by eapply jump_branched.
Qed.

Lemma jump32_ok (op : bpf_jmp_op) : op ∈ cond_ops ->
  wp T E base (emit_rv32_jump_r32 p q off i op) k c
    (fun r k' c' => r = 0 /\ branched (jmp_holds false op a b) (ot - oi + 1) k' c').
Proof.
  intros Hop. apply get2_32. intros k1 g1 H1 H2 Ho.
  destruct (dst_held d Hd) as (? & ? & ?), src_held as (? & ? & ?).
  apply wp32_bind, wp32_offset_check. cbn [negb Z.eqb]. unfold jmp_dist in *. wstep.
  rewrite (surjective_pairing rd), (surjective_pairing rs). unfold is_13b_int in Hrange.
  eapply wp32_mono; [apply (jump_r32_ok T E base rd.1 rd.2 rs.1 rs.2 g1 m a b (ot - oi + 1)); rewrite <- ?lo_val; auto; lia|].
  intros ? k2 c2 Hj. wstep. split; [done|]. by eapply jump_branched.
Qed.
End offsets.
End two.
End bodies.
