(* ===== verification/BpfJit32Access.v ===== *)
(** Loads, stores and atomic additions of the RV32 BPF compiler: the processor
    accesses the bytes the interpreter does when their addresses fit in 32 bits
    and are not in the frame of the compiled program. *)

From S2P Require Import Prelude Cstring Bytes Bpf BpfSteps Riscv RvEmit RvEnc RvExec BpfJit32 BpfJit32Half BpfJit32Mem BpfJit32Exec.
From S2P Require Import BpfJit32Ops BpfJit32Word BpfJit32Rel BpfJit32Bodies.

(** The [n] bytes at [A] are in reach of the processor and outside the frame. *)
Definition access_ok (fp A : Z) (n : nat) : Prop :=
  forall i, 0 <= i < Z.of_nat n -> u64 (A + i) < 2 ^ 32 /\ ~ in_frame fp (u64 (A + i)).

Lemma access_mono fp A n n' d : access_ok fp A n -> 0 <= d -> d + Z.of_nat n' <= Z.of_nat n -> access_ok fp (A + d) n'.
Proof. intros H Hd Hn i Hi. rewrite <- Z.add_assoc. apply H. lia. Qed.

Section access.
Context (fp A B : Z) (n : nat) (m bm : mem).
Hypothesis Hok : access_ok fp A n.
Hypothesis HB : u32 B = u32 A.
Hypothesis Hmem : forall x, uint 32 x -> ~ in_frame fp x -> m x = bm x.

(** The addresses of the bytes agree. *)
Lemma access_addr i : 0 <= i < Z.of_nat n -> u32 (B + i) = u64 (A + i) /\ uint 32 (u64 (A + i)).
Proof.
  intros Hi. destruct (Hok i Hi) as [Hlt _]. assert (uint 32 (u64 (A + i))) as Hu by (pose proof (wrap_range 64 (A + i)); unfold uint; lia).
  split; [|done]. rewrite <- (wrap_small 32 (u64 (A + i))) by done. rewrite wrap_wrap_le by lia.
  by rewrite <- wrap_add_l, HB, wrap_add_l.
Qed.

Lemma access_load : load_le 32 n m B = load_le 64 n bm A.
Proof.
  apply load_le_ext. intros i Hi. destruct (access_addr i Hi) as [-> Hu], (Hok i Hi) as [_ Hf]. by apply Hmem.
Qed.

(** The byte at [x] has the same index in both accesses. *)
Lemma access_index x : uint 32 x -> Z.of_nat n <= 2 ^ 32 ->
  (u32 (x - B) <? Z.of_nat n) = (u64 (x - A) <? Z.of_nat n) /\ (u64 (x - A) < Z.of_nat n -> u32 (x - B) = u64 (x - A)) /\
  (u64 (x - A) < Z.of_nat n -> ~ in_frame fp x).
Proof.
  intros Hx Hn. pose proof (wrap_range 64 (x - A) ltac:(lia)). pose proof (wrap_range 32 (x - B) ltac:(lia)).
  assert (forall j, 0 <= j < Z.of_nat n -> u64 (x - A) = j -> u32 (x - B) = j /\ ~ in_frame fp x) as H1.
  { intros j Hj Ej. destruct (access_addr j Hj) as [Ea Hu], (Hok j Hj) as [_ Hf].
    assert (u64 (A + j) = x) as Ex.
    { rewrite <- Ej, wrap_add_r. replace (A + (x - A)) with x by lia. apply wrap_small. unfold uint in *. lia. }
    rewrite Ex in *. split; [|done]. rewrite <- Ea, wrap_sub_l, Z.add_simpl_l. apply wrap_small. unfold uint. lia. }
  assert (forall j, 0 <= j < Z.of_nat n -> u32 (x - B) = j -> u64 (x - A) = j) as H2.
  { intros j Hj Ej. destruct (access_addr j Hj) as [Ea Hu].
    assert (u32 (B + j) = x) as Ex.
    { rewrite <- Ej, wrap_add_r. replace (B + (x - B)) with x by lia. by apply wrap_small. }
    rewrite <- Ex, Ea, wrap_sub_l, Z.add_simpl_l. apply wrap_small. unfold uint. lia. }
  split; [|split; intros Hj; by destruct (H1 (u64 (x - A)) ltac:(lia) eq_refl)].
  destruct (Z.ltb_spec (u32 (x - B)) (Z.of_nat n)), (Z.ltb_spec (u64 (x - A)) (Z.of_nat n)); try done.
  - specialize (H2 (u32 (x - B)) ltac:(lia) eq_refl). lia.
  - destruct (H1 (u64 (x - A)) ltac:(lia) eq_refl). lia.
Qed.

(** A store leaves the frame alone and does what the interpreter does elsewhere. *)
Lemma access_store v w x : Z.of_nat n <= 2 ^ 32 -> wrap (8 * Z.of_nat n) v = wrap (8 * Z.of_nat n) w -> uint 32 x ->
  (in_frame fp x -> store_le 32 n m B v x = m x) /\
  (~ in_frame fp x -> store_le 32 n m B v x = store_le 64 n bm A w x).
Proof.
  intros Hn Hv Hx. rewrite <- (store_le_val 64 n bm A (8 * Z.of_nat n) w), <- Hv, store_le_val by lia.
  destruct (access_index x Hx Hn) as (E1 & E2 & E3).
  rewrite !store_le_byte by ((unfold uint in *; lia) || done). rewrite E1. destruct (Z.ltb_spec (u64 (x - A)) (Z.of_nat n)).
  - rewrite E2 by done. specialize (E3 ltac:(done)). tauto.
  - split; [done|]. by apply Hmem.
Qed.
End access.

(** * The code of the accesses *)

Section bodies.
Context (T : Z -> option Z) (E base fp : Z).
Context (d : Z) (q : Z * Z) (a b : Z) (k : Z) (g : Z -> Z) (m bm : mem) (off : Z).
Hypothesis Hd : 0 <= d <= 10.
Hypothesis Hq : src_pair q.
Hypothesis Hfp : g 8 = fp.
Abbreviation p := (pair_of d).
Abbreviation rd := (used tmp1 p).
Abbreviation rs := (used tmp2 q).
Abbreviation c := (Cpu (addr base k) g m).
Hypothesis Hlo : word_at fp c p.2 = lo a.
Hypothesis Hlos : word_at fp c q.2 = lo b.
Hypothesis Hmem : forall x, uint 32 x -> ~ in_frame fp x -> m x = bm x.

(** The address in T0. *)
Lemma wp32_address {A} r x k1 g1 (rest : M A) (Q : A -> Z -> cpu -> Prop) : held r -> g1 r = lo x ->
  (forall k2, wp T E base rest k2 (Cpu (addr base k2) (<[5 := u32 (x + off)]> g1) m) Q) ->
  wp T E base (emit_imm RV_REG_T0 off;; emit (rv_add RV_REG_T0 RV_REG_T0 r);; rest) k1 (Cpu (addr base k1) g1 m) Q.
Proof.
  intros (? & ? & ? & ?) Hr HQ. wstep. apply wp32_imm; [done|done|]. intros k2. wstep. wstep.
  rewrite fn_insert_insert. replace (u32 (u32 off + g1 r)) with (u32 (x + off)); [apply HQ|].
  rewrite Hr, (lo_val x), wrap_add_l, wrap_add_r. f_equal. lia.
Qed.

(** ** Loads *)

(** The load instructions, at the address in T0. *)
Definition load_code (z : bpf_size) (rd : Z * Z) : M unit :=
  match z with
  | BPF_B => emit (rv_lbu rd.2 0 RV_REG_T0);; emit (rv_addi rd.1 RV_REG_ZERO 0)
  | BPF_H => emit (rv_lhu rd.2 0 RV_REG_T0);; emit (rv_addi rd.1 RV_REG_ZERO 0)
  | BPF_W => emit (rv_lw rd.2 0 RV_REG_T0);; emit (rv_addi rd.1 RV_REG_ZERO 0)
  | BPF_DW => emit (rv_lw rd.2 0 RV_REG_T0);; emit (rv_lw rd.1 4 RV_REG_T0)
  end.

Ltac lstep :=
  lazymatch goal with
  | |- wp _ _ _ (emit (rv_lbu _ _ _)) _ _ _ => eapply wp32_wr; [apply x_lbu; rvside|]; rsimpl
  | |- wp _ _ _ (emit (rv_lhu _ _ _)) _ _ _ => eapply wp32_wr; [apply x_lhu; rvside|]; rsimpl
  | |- wp _ _ _ (emit (rv_lw _ _ _)) _ _ _ => apply wp32_lw; [done..|]; rsimpl
  | _ => wstep
  end.

Lemma load_code_ok (z : bpf_size) h l B g1 : held h -> held l -> h <> l -> g1 5 = B ->
  computes T E base h l g1 m (load_code z (h, l)) (load_le 32 (size_bytes z) m B).
Proof.
  intros (? & ? & ? & ?) (? & ? & ? & ?) Hhl HB k1. pose proof (load_le_range 32 (size_bytes z) m B) as Hr.
  destruct z; cbn [load_code size_bytes fst snd] in *; repeat lstep.
  all: unfold computed; cbn [pc cmem gprs]; rsimpl; rewrite HB; change (sgn 12 0) with 0; change (sgn 12 4) with 4; rewrite ?Z.add_0_r.
  4: { destruct (load_le_halves 32 m B) as [-> ->]. split_and!; [done..|]. intros. by rsimpl. }
  all: rewrite (hi_small (load_le 32 _ m B)), (lo_small (load_le 32 _ m B)) by (eapply uint_mono; [|exact Hr]; cbn; lia); split_and!; [done..|]; intros; by rsimpl.
Qed.

(** dst = *(size * )(src + off) *)
Lemma load_ok (z : bpf_size) : access_ok fp (b + off) (size_bytes z) ->
  wp T E base (emit_rv32_load_r64 p q off z) k c
    (fun r k' c' => r = 0 /\ puts base fp d k g m true (load_le 64 (size_bytes z) bm (b + off)) () k' c').
Proof.
  intros Hok. apply (get2_64 T E base fp d q a b); [done..|]. intros k1 g1 (_ & _ & _ & H4 & Ho).
  destruct (dst_held d Hd) as (Hh & Hl & Hhl), (src_held q Hq) as (? & ? & ?). apply (wp32_address _ b); [done|done|]. intros k2.
  replace (switch z _ _) with (load_code z rd) by (by destruct z). wstep.
  eapply wp32_mono; [rewrite (surjective_pairing rd); by apply (load_code_ok z rd.1 rd.2 (u32 (b + off))); [..|apply fn_lookup_insert]|].
  intros [] k3 [p3 g3 m3] (Hpc & Hm & V1 & V2 & Ho3). cbn [pc cmem gprs] in *. subst p3 m3. wstep.
  rewrite (access_load fp (b + off) (u32 (b + off)) (size_bytes z) m bm Hok) in V1, V2 by (done || apply wrap_wrap).
  eapply (dst_put64 T E base fp d k g m); [done|done| |exact V1|exact V2| |].
  - eapply uint_mono; [apply (size_bytes_64 z)|apply load_le_range].
  - intros r Hr ? ?. apply temps_tmp in Hr as (? & ? & ? & ? & ? & ?).
    rewrite Ho3, fn_lookup_insert_ne by (done || by apply not_eq_sym). by apply Ho.
  - intros k4 c4 ? ?. wstep. by split.
Qed.

(** ** Stores *)

(** The memory is that of the interpreter after the store, the frame apart. *)
Definition stored32 (bm' : mem) (r k' : Z) (c' : cpu) : Prop :=
  r = 0 /\ pc c' = addr base k' /\ (forall x, x ∉ temps -> gprs c' x = g x) /\
  (forall x, uint 32 x -> in_frame fp x -> cmem c' x = m x) /\
  (forall x, uint 32 x -> ~ in_frame fp x -> cmem c' x = bm' x).

Definition store_code (z : bpf_size) (rs : Z * Z) : M unit :=
  match z with
  | BPF_B => emit (rv_sb RV_REG_T0 0 rs.2)
  | BPF_H => emit (rv_sh RV_REG_T0 0 rs.2)
  | BPF_W => emit (rv_sw RV_REG_T0 0 rs.2)
  | BPF_DW => emit (rv_sw RV_REG_T0 0 rs.2);; emit (rv_sw RV_REG_T0 4 rs.1)
  end.

Ltac sstep :=
  lazymatch goal with
  | |- wp _ _ _ (emit (rv_sb _ _ _)) _ _ _ => eapply wp32_emit; [done|apply x_sb; rvside|]; rewrite addr_next; rsimpl
  | |- wp _ _ _ (emit (rv_sh _ _ _)) _ _ _ => eapply wp32_emit; [done|apply x_sh; rvside|]; rewrite addr_next; rsimpl
  | |- wp _ _ _ (emit (rv_sw _ _ _)) _ _ _ => apply wp32_sw; [done..|]; rsimpl
  | _ => wstep
  end.

(** The code stores the value at the address in T0. *)
Lemma store_code_ok (z : bpf_size) hs ls g1 B k1 (Q : unit -> Z -> cpu -> Prop) : held hs -> held ls -> g1 5 = B ->
  (z = BPF_DW -> g1 hs = hi b) -> g1 ls = lo b ->
  (forall k2 m2, (forall x, uint 32 x -> m2 x = store_le 32 (size_bytes z) m B b x) -> Q () k2 (Cpu (addr base k2) g1 m2)) ->
  wp T E base (store_code z (hs, ls)) k1 (Cpu (addr base k1) g1 m) Q.
Proof.
  intros (? & ? & ? & ?) (? & ? & ? & ?) HB Hhi Hl HQ. pose proof (lo_val b) as El.
  destruct z; cbn [store_code size_bytes fst snd] in *; repeat sstep; apply HQ; intros x Hx.
  all: rewrite HB, Hl; change (sgn 12 0) with 0; change (sgn 12 4) with 4; rewrite ?Z.add_0_r.
  4: { rewrite Hhi by done. by apply store_le_halves. }
  all: rewrite El, store_le_val by (cbn; lia); done.
Qed.

(** *(size * )(dst + off) = src, or imm *)
Lemma store_ok (z : bpf_size) w : access_ok fp (a + off) (size_bytes z) -> (z = BPF_DW -> word_at fp c q.1 = hi b) -> b = u64 w ->
  wp T E base (emit_rv32_store_r64 p q off z BPF_MEM) k c (stored32 (store_le 64 (size_bytes z) bm (a + off) w)).
Proof.
  intros Hok Hhi Hw. apply (get2_64 T E base fp d q a b); [done..|]. intros k1 g1 (_ & V2 & V3 & V4 & Ho).
  destruct (dst_held d Hd) as (Hh & Hl & Hhl), (src_held q Hq) as (Hhs & Hls & ?). cbn [negb Z.eqb Pos.eqb mode_code andb].
  apply (wp32_address _ a); [done|done|]. intros k2. replace (switch z _ _) with (store_code z rs) by (by destruct z). wstep.
  rewrite (surjective_pairing rs). pose proof Hhs as (_ & _ & ? & _). pose proof Hls as (_ & _ & ? & _).
  apply (store_code_ok z rs.1 rs.2 _ (u32 (a + off))); [done|done|apply fn_lookup_insert| | |].
  - intros Ez. rewrite fn_lookup_insert_ne by (by apply not_eq_sym). auto.
  - by rewrite fn_lookup_insert_ne by (by apply not_eq_sym).
  - intros k3 m3 Hm3. wstep. pose proof (size_bytes_64 z).
    assert (forall x, uint 32 x -> (in_frame fp x -> m3 x = m x) /\ (~ in_frame fp x -> m3 x = store_le 64 (size_bytes z) bm (a + off) w x)) as HS.
    { intros x Hx. rewrite Hm3 by done. eapply access_store; [done|apply wrap_wrap|done|lia| |done]. rewrite Hw. apply wrap_wrap_le. lia. }
    split_and!; [done|done| |apply HS|apply HS]. intros r Hr. apply temps_tmp in Hr as (? & ? & ? & ? & ? & ?).
    cbn [gprs]. rewrite fn_lookup_insert_ne by (by apply not_eq_sym). by apply Ho.
Qed.

(** lock *(u32 * )(dst + off) += src, at an aligned address *)
Lemma xadd_ok : access_ok fp (a + off) 4 -> u64 (a + off) mod 4 = 0 ->
  wp T E base (emit_rv32_store_r64 p q off BPF_W BPF_XADD) k c (stored32 (atomic_add 4 bm (u32 b) (a + off))).
Proof.
  intros Hok Hal. apply (get2_64 T E base fp d q a b); [done..|]. intros k1 g1 (_ & V2 & _ & V4 & Ho).
  destruct (dst_held d Hd) as (Hh & Hl & Hhl), (src_held q Hq) as (Hhs & Hls & ?). cbn [negb Z.eqb Pos.eqb mode_code size_code andb].
  apply (wp32_address _ a); [done|done|]. intros k2. pose proof Hls as (? & ? & ? & _).
  match goal with |- context [switch ?x ?y ?z] => change (switch x y z) with (emit (rv_amoadd_w RV_REG_ZERO rs.2 RV_REG_T0 0 0)) end.
  assert (u32 (a + off) = u64 (a + off)) as Ea.
  { destruct (access_addr fp (a + off) (a + off) 4 Hok eq_refl 0 ltac:(lia)) as [E0 _]. by rewrite !Z.add_0_r in E0. }
  wstep. eapply wp32_emit; [done|apply x_amoadd_w; rvside || (rsimpl; by rewrite Ea)|]. rewrite addr_next. wstep. rsimpl.
  assert (forall x, uint 32 x -> (in_frame fp x -> store_le 32 4 m (u32 (a + off)) (load_le 32 4 m (u32 (a + off)) + g1 rs.2) x = m x) /\
    (~ in_frame fp x -> store_le 32 4 m (u32 (a + off)) (load_le 32 4 m (u32 (a + off)) + g1 rs.2) x = atomic_add 4 bm (u32 b) (a + off) x)) as HS.
  { intros x Hx. unfold atomic_add. eapply access_store; [done|apply wrap_wrap|done|lia| |done].
    rewrite V4, (lo_val b), (access_load fp (a + off) (u32 (a + off)) 4 m bm Hok) by (done || apply wrap_wrap). done. }
  split_and!; [done|done| |apply HS|apply HS]. intros r Hr. apply temps_tmp in Hr as (? & ? & ? & ? & ? & ?).
  cbn [gprs]. rewrite fn_lookup_insert_ne by (by apply not_eq_sym). by apply Ho.
Qed.
End bodies.
