(* ===== verification/BpfJit32Sim.v ===== *)
(** Simulation of one instruction by the RV32 BPF compiler: whatever the
    interpreter does with a BPF instruction, the code emit_insn emits for it does
    on the processor. *)

From stdpp Require Import gmap.
From S2P Require Import Prelude Cstring Bytes Bpf BpfSteps Riscv RvEmit RvEnc RvExec BpfJit32 BpfJit32Half BpfJit32Mem BpfJit32Exec.
From S2P Require Import BpfJit32Ops BpfJit32Word BpfJit32Rel BpfJit32Bodies BpfJit32Access.

(** * Supported instructions *)

Definition alu64_ops : list bpf_alu_op :=
  [BPF_MOV; BPF_ADD; BPF_SUB; BPF_AND; BPF_OR; BPF_XOR; BPF_MUL; BPF_LSH; BPF_RSH; BPF_ARSH].

(** What the verifier guarantees of an instruction that is executed. The immediate
    of a move between registers marks the zero extensions the verifier inserts;
    accesses are to memory the program may use, which is not the frame of the
    compiled code. *)
Definition verified32 (fp : Z) (k : kind) (insn : bpf_insn) (s : bpf_state) : Prop :=
  0 <= dst_reg insn <= 10 /\ 0 <= src_reg insn <= 10 /\
  match k with
  | KAlu true op x => op ∈ alu64_ops /\ (op = BPF_MOV -> x = BPF_X -> imm insn <> 1)
  | KAlu false op x => op ∈ alu_ops /\ (op = BPF_MOV -> x = BPF_X -> imm insn = 1 -> src_reg insn = dst_reg insn)
  | KEnd _ => imm insn ∈ [16; 32; 64]
  | KLdx z => access_ok fp (bregs s (src_reg insn) + off insn) (size_bytes z)
  | KSt z | KStx z => access_ok fp (bregs s (dst_reg insn) + off insn) (size_bytes z)
  | KXadd z => z = BPF_W /\ access_ok fp (bregs s (dst_reg insn) + off insn) 4 /\
               u64 (bregs s (dst_reg insn) + off insn) mod 4 = 0
  | KJmp _ op _ => op ∈ cond_ops
  | _ => True
  end.

(** The registers of which an instruction reads the upper halves. *)
Definition reads_hi (k : kind) (insn : bpf_insn) : list Z :=
  let src x := match x with BPF_X => [src_reg insn] | BPF_K => [] end in
  match k with
  | KAlu true BPF_MOV x => src x
  | KAlu true _ x => dst_reg insn :: src x
  | KNeg is64 => if is64 then [dst_reg insn] else []
  | KEnd _ => if imm insn =? 64 then [dst_reg insn] else []
  | KStx BPF_DW => [src_reg insn]
  | KJmp true _ x => dst_reg insn :: src x
  | _ => []
  end.

(** The upper halves that are out of date after an instruction. A 32-bit
    operation clears the upper half itself unless the verifier inserts the zero
    extensions; the marked move is one of those. *)
Definition zext_mov (op : bpf_alu_op) (x : bpf_src) (insn : bpf_insn) : bool :=
  match op, x with BPF_MOV, BPF_X => imm insn =? 1 | _, _ => false end.

Definition dirty_after (zext : bool) (k : kind) (insn : bpf_insn) (D : gset Z) : gset Z :=
  match k with
  | KAlu is64 op x =>
      dirty (is64 || negb zext || zext_mov op x insn) (dst_reg insn) D
  | KNeg is64 => dirty (is64 || negb zext) (dst_reg insn) D
  | KEnd _ | KLdImm | KLdx _ => dirty true (dst_reg insn) D
  | _ => D
  end.

(** The entries of the table for a jump, and the branch that the compiler checks, the
    last one of a conditional jump, in range. *)
Definition branch_ok (k : kind) (d : Z) : Prop :=
  match k with
  | KJmp _ _ _ => is_13b_int d = true
  | _ => is_21b_int d = true
  end.

Definition jump_ok (T : Z -> option Z) (k : kind) (i off : Z) : Prop :=
  match k with
  | KJa | KJmp _ _ _ => exists oi ot, T i = Some oi /\ T (i + off) = Some ot /\ entry_ok oi /\ entry_ok ot /\ branch_ok k (jmp_dist oi ot)
  | _ => True
  end.

(** The value of the source operand, with its extension. *)
Definition src_ext (insn : bpf_insn) (s : bpf_state) (x : bpf_src) : Z :=
  match x with BPF_X => bregs s (src_reg insn) | BPF_K => u64 (imm insn) end.

(** The step is a 64-bit comparison that takes its first branch, and that branch,
    which the compiler does not check, is out of range. *)
Definition overshoots (T : Z -> option Z) (k : kind) (insn : bpf_insn) (s : bpf_state) : Prop :=
  match k with
  | KJmp true op x => exists oi ot, T (bpc s) = Some oi /\ T (bpc s + off insn) = Some ot /\
      2 ^ 12 <= jmp_dist oi ot + first_branch op /\ first_taken op (bregs s (dst_reg insn)) (src_ext insn s x) = true
  | _ => False
  end.

(** * One instruction *)

(** Evaluates the switch of emit_insn on a known opcode. *)
Ltac pick_case32 :=
  unfold emit_cases, alu64_cases, alu32_cases, jmp_cases, mem_cases;
  lazy [switch has_label existsb orb app both jmp_labels kind_code alu_class jmp_class
        Z.compare Pos.compare Pos.compare_cont Z.lor Pos.lor Pos.Nsucc_double Pos.Ndouble
        class_code size_code mode_code alu_code jmp_code src_code BPF_FROM_LE BPF_FROM_BE BPF_TO_LE BPF_TO_BE].

Section sim.
Context (get_addr : bpf_insn -> bool -> Z + Z * bool) (bp : bpf_prog) (extra_pass : bool).
Context (T : Z -> option Z) (E base fp : Z) (g0 sm : Z -> Z) (D : gset Z).
Context (prog : Z -> option bpf_insn) (insn : bpf_insn) (insn1 : option bpf_insn) (s s' : bpf_state) (k : kind).
Context (i : Z) (g : Z -> Z) (m : mem).
Abbreviation c := (Cpu (addr base i) g m).
Abbreviation dp := (pair_of (dst_reg insn)).
Abbreviation sp := (pair_of (src_reg insn)).
Abbreviation zext := (verifier_zext bp).
Hypothesis Hwf : insn_wf insn.
Hypothesis Hprog : prog (bpc s) = Some insn.
Hypothesis Hstep : bpf_step prog s = Some (Cont s').
Hypothesis Hcode : code insn = kind_code k.
Hypothesis Hver : verified32 fp k insn s.
Hypothesis Hreads : forall r, r ∈ reads_hi k insn -> r ∉ D.
Hypothesis Hrel : rel32 fp g0 sm D s c.

(** The result [n], with the states related afterwards. *)
Definition falls32 (n : Z) (r k' : Z) (c' : cpu) : Prop :=
  r = n /\ pc c' = addr base k' /\ rel32 fp g0 sm (dirty_after zext k insn D) s' c'.

(** From the case of the switch to emit_insn. *)
Lemma wp32_emit_insn (Q : Z -> Z -> cpu -> Prop) :
  wp T E base (switch (kind_code k) (emit_cases get_addr bp insn insn1 (bpc s) extra_pass dp sp) (ret (- EINVAL))) i c Q ->
  wp T E base (emit_insn get_addr bp insn insn1 (bpc s) extra_pass) i c Q.
Proof.
  intros HQ. destruct Hver as (Hd & Hs & _). unfold emit_insn, bpf2rv.
  rewrite (pair_lookup _ Hd), (pair_lookup _ Hs), Hcode. apply wp32_bind, wp32_ret, wp32_bind, wp32_ret. exact HQ.
Qed.

(** Instructions that write the destination. *)
Lemma falls_put full v (body : M unit) : dirty_after zext k insn D = dirty full (dst_reg insn) D ->
  wrote insn s s' v -> uint 64 v -> wp T E base body i c (puts base fp (dst_reg insn) i g m full v) ->
  wp T E base (body;; ret 0) i c (falls32 0).
Proof.
  intros ED Hw Hv Hb. destruct Hver as (Hd & _). wstep. eapply wp32_mono; [exact Hb|]. intros [] k' c' [Hpc Hput]. wstep.
  split_and!; [done|done|]. rewrite ED. by eapply rel32_put.
Qed.

Lemma sim_uint r : 0 <= r <= 10 -> uint 64 (bregs s r).
Proof. intros Hr. by apply Hrel. Qed.

Lemma sim_lo r : 0 <= r <= 10 -> word_at fp c (pair_of r).2 = lo (bregs s r).
Proof. intros Hr. by apply Hrel. Qed.

Lemma sim_hi r : 0 <= r <= 10 -> r ∈ reads_hi k insn -> word_at fp c (pair_of r).1 = hi (bregs s r).
Proof. intros Hr Hin. apply Hrel; auto. Qed.

Lemma sim_fp : g 8 = fp.
Proof. apply Hrel. Qed.

Lemma src_reg_pair r : 0 <= r <= 10 -> src_pair (pair_of r).
Proof. intros. left. eauto. Qed.

Abbreviation sim_emit := (wp T E base (emit_insn get_addr bp insn insn1 (bpc s) extra_pass) i c).

Lemma sim32_neg is64 : k = KNeg is64 -> sim_emit (falls32 0).
Proof.
  intros Ek. apply wp32_emit_insn. pose proof Hver as (Hd & Hs & _). pose proof Hcode as Hc. rewrite Ek in Hc.
  destruct (step_neg prog insn s Hprog Hd is64 s' Hstep Hc) as (Hw & _). pose proof (sim_lo _ Hd) as Hlo. pose proof (sim_uint _ Hd) as Hu.
  rewrite Ek. destruct is64; pick_case32; rewrite Hc.
  - eapply falls_put; [by rewrite Ek|exact Hw|by apply uint_wrap|]. apply (alu_r64_neg_ok T E base fp); [done|apply sim_fp|done| |done].
    apply sim_hi; [done|]. rewrite Ek. by left.
  - eapply falls_put; [by rewrite Ek|exact Hw|eapply uint_mono; [|by apply uint_wrap]; lia|].
    apply (alu_r32_neg_ok T E base fp); [done|apply sim_fp|done].
Qed.

Lemma sim32_end be : k = KEnd be -> sim_emit (falls32 0).
Proof.
  intros Ek. apply wp32_emit_insn. pose proof Hver as (Hd & Hs & Hi). pose proof Hcode as Hc. rewrite Ek in Hc, Hi.
  destruct (step_end prog insn s Hprog Hd be s' Hstep Hc Hi) as (Hw & _). pose proof (sim_lo _ Hd) as Hlo. pose proof (sim_uint _ Hd) as Hu.
  rewrite Ek. replace (switch _ _ _) with (emit_end (end_code be) dp (imm insn)) by (destruct be; pick_case32; reflexivity).
  eapply wp32_mono; [apply (end_dst_ok T E base fp) with (x := bregs s (dst_reg insn)); [done|apply sim_fp|done|done| |done]|].
  - intros E64. apply sim_hi; [done|]. rewrite Ek. cbn. rewrite E64. by left.
  - intros r k' c' (-> & Hpc & Hput). split_and!; [done|done|]. rewrite Ek. eapply rel32_put; [done|exact Hrel|exact Hw| |exact Hput].
    clear - Hi. each_of Hi; destruct be; cbn [Z.eqb Pos.eqb]; (eapply uint_mono; [|by apply uint_wrap]; lia).
Qed.

(** ** Source operands *)

(** An immediate is loaded into tmp2; the states stay related. *)
Lemma sim_imm {A} (rest : M A) (Q : A -> Z -> cpu -> Prop) :
  (forall i1 g1, rel32 fp g0 sm D s (Cpu (addr base i1) g1 m) -> (forall r, r ∉ temps -> g1 r = g r) ->
     word_at fp (Cpu (addr base i1) g1 m) tmp2.1 = hi (u64 (imm insn)) ->
     word_at fp (Cpu (addr base i1) g1 m) tmp2.2 = lo (u64 (imm insn)) ->
     wp T E base rest i1 (Cpu (addr base i1) g1 m) Q) ->
  wp T E base (emit_imm32 tmp2 (imm insn);; rest) i c Q.
Proof.
  intros HQ. pose proof Hwf as (_ & _ & _ & _ & Hi). wstep.
  destruct (src_opnd tmp2 ltac:(by right)) as [(E1 & _)|(_ & _ & ? & ? & ? & _)]; [discriminate E1|].
  rewrite (surjective_pairing tmp2) at 1. apply wp32_imm32; [done|done|done|lia|].
  intros i1 g1 H1' H2' H3'. assert (forall r, r ∉ temps -> g1 r = g r) as Hg.
  { intros r (? & ? & ? & ? & ? & ?)%temps_tmp. by apply H3'. }
  apply HQ; [|done|done|done]. eapply (rel32_same fp g0 sm D s s c); [exact Hrel|done|done|done|apply Hrel].
Qed.

(** The source operand: a register, or an immediate in tmp2. *)
Lemma sim_src (x : bpf_src) {A} (rest : Z * Z -> M A) (Q : A -> Z -> cpu -> Prop) :
  (forall q i1 g1, src_pair q -> rel32 fp g0 sm D s (Cpu (addr base i1) g1 m) -> (forall r, r ∉ temps -> g1 r = g r) ->
     (x = BPF_K \/ src_reg insn ∈ reads_hi k insn -> word_at fp (Cpu (addr base i1) g1 m) q.1 = hi (src_ext insn s x)) ->
     word_at fp (Cpu (addr base i1) g1 m) q.2 = lo (src_ext insn s x) ->
     wp T E base (rest q) i1 (Cpu (addr base i1) g1 m) Q) ->
  wp T E base (q <- src_or_imm (x =? BPF_K) sp (imm insn); rest q) i c Q.
Proof.
  intros HQ. pose proof Hver as (Hd & Hs & _). destruct x; cbn [src_or_imm Z.eqb Pos.eqb src_code].
  - apply wp32_bind, sim_imm. intros i1 g1 R1 Hg Hh Hl. apply wp32_ret, HQ; auto. by right.
  - apply wp32_bind, wp32_ret, HQ; [by apply src_reg_pair|done|done| |by apply sim_lo]. intros [?|Hr]; [done|by apply sim_hi].
Qed.

(** Instructions that write the destination, after an operand has been read. *)
Lemma falls_op i1 g1 full v (body : M unit) : (forall r, r ∉ temps -> g1 r = g r) ->
  dirty_after zext k insn D = dirty full (dst_reg insn) D -> wrote insn s s' v -> uint 64 v ->
  wp T E base body i1 (Cpu (addr base i1) g1 m) (puts base fp (dst_reg insn) i1 g1 m full v) ->
  wp T E base (body;; ret 0) i1 (Cpu (addr base i1) g1 m) (falls32 0).
Proof.
  intros Hg ED Hw Hv Hb. destruct Hver as (Hd & _). wstep. eapply wp32_mono; [exact Hb|]. intros [] k' c' [Hpc Hput]. wstep.
  split_and!; [done|done|]. rewrite ED. eapply rel32_put; [done|exact Hrel|exact Hw|done|]. by eapply put_temps; [..|exact Hput].
Qed.

(** ** Arithmetic *)

(** The code of the operations whose source may be an immediate in tmp2. *)
Lemma alu64_case (op : bpf_alu_op) (x : bpf_src) : k = KAlu true op x -> op ∈ alu64_ops ->
  (x = BPF_K -> op ∉ [BPF_MOV; BPF_LSH; BPF_RSH; BPF_ARSH]) -> (op = BPF_MOV -> imm insn <> 1) ->
  switch (kind_code k) (emit_cases get_addr bp insn insn1 (bpc s) extra_pass dp sp) (ret (- EINVAL)) =
  (q <- src_or_imm (x =? BPF_K) sp (imm insn); emit_rv32_alu_r64 dp q op;; ret 0).
Proof.
  intros Ek Hop HK Hm. pose proof Hcode as Hc. rewrite Ek in *. each_of Hop; destruct x;
    try (exfalso; apply (HK eq_refl); apply (bool_decide_unpack _); exact I); pick_case32;
    rewrite ?(proj2 (Z.eqb_neq (imm insn) 1)) by auto; unfold emit_alu64; rewrite Hc; reflexivity.
Qed.

Lemma alu32_case (op : bpf_alu_op) (x : bpf_src) : k = KAlu false op x -> op ∈ alu_ops -> zext_mov op x insn = false ->
  (x = BPF_K -> op <> BPF_MOV) ->
  switch (kind_code k) (emit_cases get_addr bp insn insn1 (bpc s) extra_pass dp sp) (ret (- EINVAL)) =
  (q <- src_or_imm (x =? BPF_K) sp (imm insn); emit_rv32_alu_r32 zext dp q op;; ret 0).
Proof.
  intros Ek Hop Hz HK. pose proof Hcode as Hc. rewrite Ek in *. each_of Hop; destruct x; try (by destruct (HK eq_refl)); pick_case32;
    cbn [zext_mov] in Hz; rewrite ?Hz; unfold emit_alu32; rewrite Hc; reflexivity.
Qed.

(** The value of the instruction on the operand that the code reads. *)
Lemma alu_val_ext is64 op (x : bpf_src) v : alu_val is64 op (bregs s (dst_reg insn)) (src_val insn s x) = Some v ->
  alu_val is64 op (bregs s (dst_reg insn)) (src_ext insn s x) = Some v.
Proof. destruct x; [apply alu_val_imm|done]. Qed.

Lemma src_ext_uint (x : bpf_src) : uint 64 (src_ext insn s x).
Proof. destruct x; [by apply uint_wrap|]. pose proof Hver as (_ & Hs & _). by apply sim_uint. Qed.

(** What the interpreter does with an arithmetic instruction. *)
Lemma alu_facts is64 (op : bpf_alu_op) (x : bpf_src) : k = KAlu is64 op x -> op ∈ alu_ops ->
  exists v, alu_val is64 op (bregs s (dst_reg insn)) (src_val insn s x) = Some v /\ wrote insn s s' v /\
    uint (if is64 then 64 else 32) v.
Proof.
  intros Ek Hop. pose proof Hver as (Hd & Hs & _). pose proof Hcode as Hc. rewrite Ek in Hc.
  assert (op <> BPF_NEG /\ op <> BPF_END) as [Hn He] by (clear - Hop; by each_of Hop).
  destruct (step_alu prog insn s Hprog Hd Hs sim_uint is64 op x s' Hstep Hn He Hc) as (v & Hv & Hw & _).
  exists v. split_and!; [done|done|]. exact (alu_val_width _ _ _ _ _ (sim_uint _ Hd) Hv).
Qed.

Lemma sim32_alu_i64 (op : bpf_alu_op) : k = KAlu true op BPF_K -> op ∈ [BPF_MOV; BPF_LSH; BPF_RSH; BPF_ARSH] -> sim_emit (falls32 0).
Proof.
  intros Ek Hik. apply wp32_emit_insn. pose proof Hver as (Hd & _). pose proof Hcode as Hc. rewrite Ek in Hc.
  destruct (alu_facts true op BPF_K Ek) as (v & Hv & Hw & Hu); [clear - Hik; set_solver|].
  pose proof Hwf as (_ & _ & _ & _ & Hi).
  replace (switch _ _ _) with (emit_rv32_alu_i64 dp (imm insn) op;; ret 0).
  2:{ rewrite Ek. clear - Hik Hc. each_of Hik; pick_case32; by rewrite Hc. }
  eapply falls_put; [by rewrite Ek|exact Hw|done|]. destruct (decide (op = BPF_MOV)) as [->|Hne].
  - injection Hv as <-. by apply (alu_i64_mov T E base fp _ (bregs s (dst_reg insn))); [done|apply sim_fp|apply sim_lo|].
  - eapply (alu_i64_shift_ok T E base fp); [done|apply sim_fp|by apply sim_lo| |by apply sim_uint| |exact Hv].
    + apply sim_hi; [done|]. rewrite Ek. clear - Hne. destruct op; try done; by left.
    + clear - Hik Hne. each_of Hik; try done; apply (bool_decide_unpack _); exact I.
Qed.

Lemma sim32_alu64 (op : bpf_alu_op) (x : bpf_src) : k = KAlu true op x -> sim_emit (falls32 0).
Proof.
  intros Ek. pose proof Hver as (Hd & Hs & Hx). rewrite Ek in Hx. destruct Hx as [Hop Hm].
  destruct (decide (x = BPF_K /\ op ∈ [BPF_MOV; BPF_LSH; BPF_RSH; BPF_ARSH])) as [[-> Hik]|Hnk]; [by eapply sim32_alu_i64|].
  apply wp32_emit_insn. destruct (alu_facts true op x Ek) as (v & Hv & Hw & Hu); [clear - Hop; unfold alu64_ops, alu_ops in *; set_solver|].
  rewrite (alu64_case op x Ek Hop).
  2:{ intros Ex Ho. by apply Hnk. }
  2:{ intros ->. destruct x; [|by apply Hm]. destruct Hnk. split; [done|]. by left. }
  apply sim_src. intros q i1 g1 Hq R1 Hg Hh Hl. eapply falls_op; [exact Hg|by rewrite Ek|exact Hw|done|].
  apply alu_val_ext in Hv. pose proof (src_ext_uint x) as Hux.
  assert (word_at fp (Cpu (addr base i1) g1 m) q.1 = hi (src_ext insn s x)) as Hhi.
  { apply Hh. destruct x; [by left|right]. rewrite Ek. clear. destruct op; cbn; set_solver. }
  destruct (decide (op = BPF_MOV)) as [->|Hne].
  - cbn [alu_val] in Hv. injection Hv as <-. rewrite (wrap_small 64 (src_ext insn s x)) by done.
    eapply (alu_r64_mov_ok T E base fp); [done|done|apply R1|by apply R1|done|done|done].
  - eapply (alu_r64_op_ok T E base fp); [done|done|apply R1|by apply R1|exact Hl| |by apply sim_uint|done|done|done|exact Hv].
    apply R1; [done|]. apply Hreads. rewrite Ek. clear - Hne. destruct op; try done; by left.
Qed.

Lemma sim32_zext (op : bpf_alu_op) (x : bpf_src) : k = KAlu false op x -> zext_mov op x insn = true -> sim_emit (falls32 0).
Proof.
  intros Ek Hz. apply wp32_emit_insn. pose proof Hver as (Hd & Hs & Hx). rewrite Ek in Hx. destruct Hx as [Hop Hm].
  destruct (alu_facts false op x Ek Hop) as (v & Hv & Hw & Hu). pose proof (sim_lo _ Hd) as Hlo.
  destruct op, x; try discriminate Hz. cbn [zext_mov] in Hz. specialize (Hm eq_refl eq_refl (proj1 (Z.eqb_eq _ _) Hz)).
  replace (switch _ _ _) with (emit_rv32_zext64 dp;; ret 0) by (rewrite Ek; pick_case32; by rewrite Hz).
  eapply falls_put; [rewrite Ek; cbn [dirty_after zext_mov]; by rewrite Hz, orb_true_r|exact Hw|by apply (uint_mono 32); [lia|]|].
  cbn [alu_val src_val] in Hv. rewrite Hm in Hv. injection Hv as <-. by apply (zext64_ok T E base fp); [done|apply sim_fp|].
Qed.

Lemma sim32_alu32 (op : bpf_alu_op) (x : bpf_src) : k = KAlu false op x -> sim_emit (falls32 0).
Proof.
  intros Ek. destruct (zext_mov op x insn) eqn:Hz; [by eapply sim32_zext|].
  apply wp32_emit_insn. pose proof Hver as (Hd & Hs & Hx). rewrite Ek in Hx. destruct Hx as [Hop _].
  destruct (alu_facts false op x Ek Hop) as (v & Hv & Hw & Hu). assert (uint 64 v) by (apply (uint_mono 32); [lia|done]).
  assert (dirty_after zext k insn D = dirty (negb zext) (dst_reg insn) D) as ED by (rewrite Ek; cbn [dirty_after]; by rewrite Hz, orb_false_r).
  destruct (decide (x = BPF_K /\ op = BPF_MOV)) as [[-> ->]|Hnk].
  - pose proof Hwf as (_ & _ & _ & _ & Hi). pose proof Hcode as Hc. rewrite Ek in Hc.
    replace (switch _ _ _) with (emit_rv32_alu_i32 zext dp (imm insn) BPF_MOV;; ret 0) by (rewrite Ek; pick_case32; by rewrite Hc).
    eapply falls_put; [exact ED|exact Hw|done|]. injection Hv as <-.
    by apply (alu_i32_mov T E base fp _ (bregs s (dst_reg insn))); [done|apply sim_fp|apply sim_lo|].
  - rewrite (alu32_case op x Ek Hop Hz) by (intros ? ?; by apply Hnk).
    apply sim_src. intros q i1 g1 Hq R1 Hg Hh Hl. eapply falls_op; [exact Hg|exact ED|exact Hw|done|].
    eapply (alu_r32_op_ok T E base fp); [done|done|apply R1|by apply R1|exact Hl|done|by apply alu_val_ext|done].
Qed.

(** ** Memory *)

Lemma sim32_ld_imm64 n1 : k = KLdImm -> insn1 = Some n1 -> prog (bpc s + 1) = Some n1 -> sim_emit (falls32 1).
Proof.
  intros Ek E1 H1. apply wp32_emit_insn. pose proof Hver as (Hd & Hs & _). pose proof Hcode as Hc. rewrite Ek in Hc.
  destruct (step_ld_imm64 prog insn s Hprog Hd n1 s' Hstep Hc H1) as (Hw & _).
  rewrite Ek, E1. pick_case32.
  apply (wp32_ext T E base ((rd <- rv32_bpf_get_reg64 dp tmp1; emit_imm64 rd (imm n1) (imm insn);; rv32_bpf_put_reg64 dp rd);; ret 1)).
  { intros ctx. unfold bind. destruct (rv32_bpf_get_reg64 _ _ _) as [[rd ctx1]|]; [|done]. cbn. by destruct (emit_imm64 _ _ _ _) as [[? ctx2]|]. }
  wstep. eapply wp32_mono; [apply (imm64_ok T E base fp _ (bregs s (dst_reg insn))); [done|apply sim_fp|by apply sim_lo]|].
  intros [] k' c' [Hpc Hput]. wstep. split_and!; [done|done|]. rewrite Ek. eapply rel32_put; [done|exact Hrel|exact Hw| |exact Hput].
  apply uint_lor; [lia| |by apply uint_wrap]. apply (uint_mono 32); [lia|by apply uint_wrap].
Qed.

(** Checking the result of an operation that returns zero. *)
Lemma wp32_check i1 c1 (body : M Z) (Q : Z -> Z -> cpu -> Prop) :
  wp T E base body i1 c1 (fun r k' c' => r = 0 /\ Q 0 k' c') ->
  wp T E base (r <- body; if negb (r =? 0) then ret (-1) else ret 0) i1 c1 Q.
Proof. intros Hb. wstep. eapply wp32_mono; [exact Hb|]. intros r k' c' [-> HQ]. cbn [negb Z.eqb]. by apply wp32_ret. Qed.

Lemma sim32_ldx z : k = KLdx z -> sim_emit (falls32 0).
Proof.
  intros Ek. apply wp32_emit_insn. pose proof Hver as (Hd & Hs & Hx). pose proof Hcode as Hc. rewrite Ek in Hc, Hx.
  destruct (step_ldx prog insn s Hprog Hd Hs z s' Hstep Hc) as (Hw & _).
  replace (switch _ _ _) with (r <- emit_rv32_load_r64 dp sp (off insn) z; if negb (r =? 0) then ret (-1) else ret 0)
    by (rewrite Ek; destruct z; pick_case32; by rewrite Hc).
  apply wp32_check. eapply wp32_mono; [eapply (load_ok T E base fp) with (bm := bmem s);
    [done|by apply src_reg_pair|apply sim_fp|by apply sim_lo|by apply sim_lo|apply Hrel|exact Hx]|].
  intros r k' c' (-> & Hpc & Hput). split; [done|]. split_and!; [done|done|]. rewrite Ek.
  eapply rel32_put; [done|exact Hrel|exact Hw| |exact Hput]. eapply uint_mono; [apply (size_bytes_64 z)|apply load_le_range].
Qed.

(** Instructions that write memory, after an operand has been read. *)
Lemma falls_stored g1 bm' r k' c' : (forall x, x ∉ temps -> g1 x = g x) -> dirty_after zext k insn D = D ->
  stored_bpf s s' bm' -> stored32 base fp g1 m bm' r k' c' -> r = 0 /\ falls32 0 0 k' c'.
Proof.
  intros Hg ED (Em & Er & _) (-> & Hpc & Hgp & Hf & Ho). split; [done|]. split_and!; [done|done|]. rewrite ED.
  eapply rel32_same; [exact Hrel|done| |exact Hf|].
  - intros x Hx. by rewrite Hgp, Hg.
  - intros x Hx Hn. rewrite Em. by apply Ho.
Qed.

(** The code of the stores. *)
Lemma store_case (is_imm : bool) (z : bpf_size) (mode : bpf_mode) :
  (is_imm = true /\ mode = BPF_MEM /\ k = KSt z) \/ (is_imm = false /\ mode = BPF_MEM /\ k = KStx z) \/
  (is_imm = false /\ mode = BPF_XADD /\ z = BPF_W /\ k = KXadd z) ->
  switch (kind_code k) (emit_cases get_addr bp insn insn1 (bpc s) extra_pass dp sp) (ret (- EINVAL)) =
  (q <- src_or_imm is_imm sp (imm insn); r <- emit_rv32_store_r64 dp q (off insn) z mode; if negb (r =? 0) then ret (-1) else ret 0).
Proof.
  pose proof Hcode as Hc. intros [(-> & -> & Ek)|[(-> & -> & Ek)|(-> & -> & Ez & Ek)]]; rewrite Ek in *; try (rewrite Ez in *); try destruct z;
    pick_case32; rewrite ?Hc; reflexivity.
Qed.

Lemma sim32_st z : k = KSt z -> sim_emit (falls32 0).
Proof.
  intros Ek. apply wp32_emit_insn. pose proof Hver as (Hd & Hs & Hx). pose proof Hcode as Hc. rewrite Ek in Hc, Hx.
  pose proof (step_st prog insn s Hprog Hd z s' Hstep Hc) as Hw.
  rewrite (store_case true z BPF_MEM) by auto. apply (sim_src BPF_K). intros q i1 g1 Hq R1 Hg Hh Hl. apply wp32_check.
  eapply wp32_mono; [eapply (store_ok T E base fp) with (bm := bmem s) (w := imm insn);
    [done|done|apply R1|by apply R1|exact Hl|apply R1|exact Hx|auto|done]|].
  intros r k' c' Hst. eapply falls_stored; [exact Hg|by rewrite Ek|exact Hw|exact Hst].
Qed.

Lemma sim32_stx z : k = KStx z -> sim_emit (falls32 0).
Proof.
  intros Ek. apply wp32_emit_insn. pose proof Hver as (Hd & Hs & Hx). pose proof Hcode as Hc. rewrite Ek in Hc, Hx.
  pose proof (step_stx prog insn s Hprog Hd Hs z s' Hstep Hc) as Hw.
  rewrite (store_case false z BPF_MEM) by auto. apply (sim_src BPF_X). intros q i1 g1 Hq R1 Hg Hh Hl. apply wp32_check.
  eapply wp32_mono; [eapply (store_ok T E base fp) with (bm := bmem s) (w := bregs s (src_reg insn));
    [done|done|apply R1|by apply R1|exact Hl|apply R1|exact Hx| |]|].
  - intros Ez. apply Hh. right. rewrite Ek, Ez. by left.
  - symmetry. apply wrap_small. by apply sim_uint.
  - intros r k' c' Hst. eapply falls_stored; [exact Hg|by rewrite Ek|exact Hw|exact Hst].
Qed.

Lemma sim32_xadd z : k = KXadd z -> sim_emit (falls32 0).
Proof.
  intros Ek. apply wp32_emit_insn. pose proof Hver as (Hd & Hs & Hx). pose proof Hcode as Hc. rewrite Ek in Hc, Hx.
  destruct Hx as (Ez & Hok & Hal). pose proof (step_xadd prog insn s Hprog Hd Hs z s' Hstep (or_introl Ez) Hc) as Hw.
  rewrite (store_case false z BPF_XADD) by tauto. apply (sim_src BPF_X). intros q i1 g1 Hq R1 Hg Hh Hl. apply wp32_check.
  rewrite Ez in *. eapply wp32_mono; [eapply (xadd_ok T E base fp) with (bm := bmem s);
    [done|done|apply R1|by apply R1|exact Hl|apply R1|exact Hok|exact Hal]|].
  intros r k' c' Hst. eapply falls_stored; [exact Hg|by rewrite Ek|exact Hw|exact Hst].
Qed.

(** ** Jumps *)

(** The next instruction, or the target of the jump. *)
Definition goes (r k' : Z) (c' : cpu) : Prop :=
  rel32 fp g0 sm (dirty_after zext k insn D) s' c' /\
  ((bpc s' = bpc s + 1 + r /\ pc c' = addr base k') \/
   (r = 0 /\ exists oi ot, T (bpc s) = Some oi /\ T (bpc s + off insn) = Some ot /\
      bpc s' = bpc s + off insn + 1 /\ pc c' = addr base (k' + (ot - oi)))).

Lemma falls_goes n : bpc s' = bpc s + 1 + n -> sim_emit (falls32 n) -> sim_emit goes.
Proof. intros Hpc Hf. eapply wp32_mono; [exact Hf|]. intros r k' c' (-> & Hp & R). split; [done|]. by left. Qed.

Lemma jmp_case32 is64 (op : bpf_jmp_op) (x : bpf_src) : k = KJmp is64 op x -> op ∈ cond_ops ->
  switch (kind_code k) (emit_cases get_addr bp insn insn1 (bpc s) extra_pass dp sp) (ret (- EINVAL)) =
  (q <- src_or_imm (x =? BPF_K) sp (imm insn);
   r <- (if is64 then emit_rv32_jump_r64 dp q (off insn) (bpc s) op else emit_rv32_jump_r32 dp q (off insn) (bpc s) op);
   if negb (r =? 0) then ret (-1) else ret 0).
Proof.
  intros Ek Hop. pose proof Hcode as Hc. rewrite Ek in *. each_of Hop; destruct is64, x; pick_case32; rewrite Hc; reflexivity.
Qed.

Lemma jmp_holds_ext is64 op (x : bpf_src) : jmp_holds is64 op (bregs s (dst_reg insn)) (src_val insn s x) =
  jmp_holds is64 op (bregs s (dst_reg insn)) (src_ext insn s x).
Proof.
  destruct x; [|done]. cbn [src_val src_ext]. assert (sgn 32 (u64 (imm insn)) = sgn 32 (imm insn)) by (apply sgn_eq, wrap_wrap_le; lia).
  destruct is64, op; cbn [jmp_holds]; rewrite ?sgn_of_wrap, ?wrap_wrap, ?wrap_wrap_le by lia; congruence.
Qed.

(** A conditional jump, with where its branches go. *)
Lemma sim32_jmp_lands is64 (op : bpf_jmp_op) (x : bpf_src) : k = KJmp is64 op x -> jump_ok T k (bpc s) (off insn) ->
  exists oi ot, T (bpc s) = Some oi /\ T (bpc s + off insn) = Some ot /\
  bpc s' = (if jmp_holds is64 op (bregs s (dst_reg insn)) (src_ext insn s x) then bpc s + off insn + 1 else bpc s + 1) /\
  sim_emit (fun r k' c' => r = 0 /\ rel32 fp g0 sm (dirty_after zext k insn D) s' c' /\
    pc c' = addr base (if jmp_holds is64 op (bregs s (dst_reg insn)) (src_ext insn s x)
      then k' - 1 + (if is64 then landing op (bregs s (dst_reg insn)) (src_ext insn s x) (ot - oi + 1) else ot - oi + 1) else k')).
Proof.
  intros Ek Hj. pose proof Hver as (Hd & Hs & Hop). pose proof Hcode as Hc. rewrite Ek in Hc, Hop, Hj.
  destruct Hj as (oi & ot & Hoi & Hot & Eoi & Eot & H13). cbn [branch_ok] in H13.
  destruct (step_jmp prog insn s Hprog Hd Hs is64 op x s' Hstep Hop Hc) as (Wm & Wr & Hpc). rewrite jmp_holds_ext in Hpc.
  exists oi, ot. split; [done|]. split; [done|]. split; [exact Hpc|]. apply wp32_emit_insn.
  rewrite (jmp_case32 is64 op x Ek Hop). apply sim_src. intros q i1 g1 Hq R1 Hg Hh Hl. apply wp32_check.
  assert (wp T E base (if is64 then emit_rv32_jump_r64 dp q (off insn) (bpc s) op else emit_rv32_jump_r32 dp q (off insn) (bpc s) op)
    i1 (Cpu (addr base i1) g1 m)
    (fun r k' c' => r = 0 /\ branched base g1 m (jmp_holds is64 op (bregs s (dst_reg insn)) (src_ext insn s x))
       (if is64 then landing op (bregs s (dst_reg insn)) (src_ext insn s x) (ot - oi + 1) else ot - oi + 1) k' c')) as Hb.
  { destruct is64.
    - eapply (jump64_ok T E base fp); [done|done|apply R1|by apply R1|exact Hl|exact Hoi|exact Hot|done|done|done| |by apply sim_uint| |apply src_ext_uint|done].
      + apply R1; [done|]. apply Hreads. rewrite Ek. by left.
      + apply Hh. destruct x; [by left|right]. rewrite Ek. cbn. set_solver.
    - eapply (jump32_ok T E base fp); [done|done|apply R1|by apply R1|exact Hl|exact Hoi|exact Hot|done|done|done|done]. }
  eapply wp32_mono; [exact Hb|]. intros r k' c' (-> & Hp & Hm & Hgp). split; [done|]. split; [done|]. split; [|exact Hp].
  rewrite Ek. eapply rel32_same; [exact Hrel|done| |by rewrite Hm|].
  - intros r Hr. by rewrite Hgp, Hg.
  - intros y Hy Hn. rewrite Hm, Wm. by apply Hrel.
Qed.

Lemma landing_near op a b d : ~ (2 ^ 12 <= 4 * d + first_branch op /\ first_taken op a b = true) -> landing op a b d = d.
Proof. intros H. unfold landing, lands. destruct (first_taken op a b), (Z.leb_spec (2 ^ 12) (4 * d + first_branch op)); try done. by destruct H. Qed.

Lemma sim32_jmp is64 (op : bpf_jmp_op) (x : bpf_src) : k = KJmp is64 op x -> jump_ok T k (bpc s) (off insn) ->
  ~ overshoots T k insn s -> sim_emit goes.
Proof.
  intros Ek Hj Hn. destruct (sim32_jmp_lands is64 op x Ek Hj) as (oi & ot & Hoi & Hot & Hpc & Hw).
  eapply wp32_mono; [exact Hw|]. intros r k' c' (-> & R & Hp). split; [done|].
  destruct (jmp_holds _ _ _ _); [right|left; split; [lia|done]]. split; [done|]. exists oi, ot. split_and!; [done..|].
  rewrite Hp. f_equal. destruct is64; [|lia]. rewrite landing_near; [lia|]. intros [H1 H2]. apply Hn. rewrite Ek.
  exists oi, ot. unfold jmp_dist. split_and!; [done|done|lia|done].
Qed.

Lemma sim32_ja : k = KJa -> jump_ok T k (bpc s) (off insn) -> sim_emit goes.
Proof.
  intros Ek Hj. apply wp32_emit_insn. pose proof Hcode as Hc. rewrite Ek in Hc, Hj.
  destruct Hj as (oi & ot & Hoi & Hot & Eoi & Eot & H21). cbn [branch_ok] in H21.
  destruct (step_ja prog insn s Hprog s' Hstep Hc) as (Wm & Wr & Hpc).
  rewrite Ek. pick_case32. apply wp32_bind, (wp32_rv_offset T E base _ _ oi ot); [done..|]. rewrite H21. cbn [negb]. wstep.
  unfold is_21b_int in H21. eapply wp32_emit; [done|by apply x_jal|]. wstep. unfold jmp_dist in *.
  rewrite half_dist, addr_add by lia. split.
  - rewrite Ek. eapply rel32_same; [exact Hrel|done|done|done|]. intros y Hy Hn. rewrite Wm. by apply Hrel.
  - right. split; [done|]. exists oi, ot. split_and!; [done..|]. cbn [pc]. f_equal. lia.
Qed.

(** ** Every instruction *)

Lemma sim32_insn : jump_ok T k (bpc s) (off insn) -> ~ overshoots T k insn s ->
  (k = KLdImm -> exists n1, insn1 = Some n1 /\ prog (bpc s + 1) = Some n1) -> sim_emit goes.
Proof.
  intros Hj Hnear Hn. pose proof Hver as (Hd & Hs & Hx). pose proof Hcode as Hc.
  assert (exists k', k = k') as [k' Ek] by eauto. rewrite Ek in Hx, Hc.
  destruct k' as [is64 op x|is64|be| |z|z|z|z| |is64 op x].
  - assert (op ∈ alu_ops) as Hop by (destruct is64, Hx as [Ho _]; [clear - Ho; unfold alu64_ops, alu_ops in *; set_solver|done]).
    assert (op <> BPF_NEG /\ op <> BPF_END) as [? ?] by (clear - Hop; by each_of Hop).
    destruct (step_alu prog insn s Hprog Hd Hs sim_uint is64 op x s' Hstep) as (v & _ & _ & Hp); [done..|].
    apply (falls_goes 0); [lia|]. destruct is64; [by eapply sim32_alu64|by eapply sim32_alu32].
  - destruct (step_neg prog insn s Hprog Hd is64 s' Hstep Hc) as [_ Hp]. apply (falls_goes 0); [lia|by eapply sim32_neg].
  - destruct (step_end prog insn s Hprog Hd be s' Hstep Hc Hx) as [_ Hp]. apply (falls_goes 0); [lia|by eapply sim32_end].
  - destruct (Hn Ek) as (n1 & E1 & H1). destruct (step_ld_imm64 prog insn s Hprog Hd n1 s' Hstep Hc H1) as [_ Hp].
    apply (falls_goes 1); [lia|by eapply sim32_ld_imm64].
  - destruct (step_ldx prog insn s Hprog Hd Hs z s' Hstep Hc) as [_ Hp]. apply (falls_goes 0); [lia|by eapply sim32_ldx].
  - destruct (step_st prog insn s Hprog Hd z s' Hstep Hc) as (_ & _ & Hp). apply (falls_goes 0); [lia|by eapply sim32_st].
  - destruct (step_stx prog insn s Hprog Hd Hs z s' Hstep Hc) as (_ & _ & Hp). apply (falls_goes 0); [lia|by eapply sim32_stx].
  - destruct Hx as (Ez & _). destruct (step_xadd prog insn s Hprog Hd Hs z s' Hstep (or_introl Ez) Hc) as (_ & _ & Hp).
    apply (falls_goes 0); [lia|by eapply sim32_xadd].
  - by apply sim32_ja.
  - by eapply sim32_jmp.
Qed.
End sim.
