(* ===== verification/BpfJit32Frame.v ===== *)
(** The prologue and the epilogue of the RV32 BPF compiler: the registers that
    are saved below the frame, and what the return to the caller restores. *)

From stdpp Require Import gmap.
From S2P Require Import Prelude Cstring Bytes Bpf BpfSteps Riscv RvEmit RvEnc RvExec BpfJit32 BpfJit32Half BpfJit32Mem BpfJit32Exec.
From S2P Require Import BpfJit32Ops BpfJit32Rel.

(** * Bytes of the frame *)

(** A word at [fp + a] has the bytes at the distances from [-a - 4] to [-a - 1]. *)
Lemma frame_byte fp a x : -2048 <= a <= -4 -> uint 32 x ->
  (u32 (x - (fp + a)) <? 4) = (-a - 4 <=? below fp x) && (below fp x <=? -a - 1).
Proof.
  intros Ha Hx. assert (u32 (x - (fp + a)) = u32 (-1 - a - below fp x)) as ->.
  { unfold below. rewrite wrap_sub_r. f_equal. lia. }
  pose proof (wrap_range 32 (fp - 1 - x) ltac:(lia)) as Hb. fold (below fp x) in Hb. set (b := below fp x) in *. unfold wrap.
  destruct (Z.leb_spec (-a - 4) b), (Z.leb_spec b (-a - 1)); cbn [andb]; try lia.
  - rewrite Z.mod_small by lia. apply Z.ltb_lt. lia.
  - rewrite <- (Z_mod_plus_full _ 1), Z.mod_small by lia. apply Z.ltb_ge. lia.
  - rewrite Z.mod_small by lia. apply Z.ltb_ge. lia.
Qed.

Lemma store_frame fp a m v x : -2048 <= a <= -4 -> uint 32 x -> below fp x < -a - 4 \/ -a - 1 < below fp x ->
  store_le 32 4 m (fp + a) v x = m x.
Proof.
  intros Ha Hx Hb. rewrite store_le_byte by (done || lia). change (Z.of_nat 4) with 4. rewrite frame_byte by done.
  destruct (Z.leb_spec (-a - 4) (below fp x)), (Z.leb_spec (below fp x) (-a - 1)); (done || lia).
Qed.

Lemma below_add fp a i : -2048 <= a < 0 -> 0 <= i < 4 -> a + i < 0 -> below fp (u32 (fp + a + i)) = - a - 1 - i.
Proof. intros. unfold below. rewrite wrap_sub_r. replace (fp - 1 - (fp + a + i)) with (- a - 1 - i) by lia. apply wrap_small. unfold uint. lia. Qed.

Lemma load_frame fp a b m v : -2048 <= a <= -4 -> -2048 <= b <= -4 -> b + 4 <= a \/ a + 4 <= b ->
  load_le 32 4 (store_le 32 4 m (fp + a) v) (fp + b) = load_le 32 4 m (fp + b).
Proof.
  intros Ha Hb Hd. apply load_le_ext. intros i Hi. apply store_frame; [done|by apply uint_wrap|].
  rewrite below_add by lia. lia.
Qed.

(** * Saved registers *)

(** The registers the prologue saves, with the offsets from the frame pointer. *)
Definition saved_at : list (Z * Z) := [(-56, 1); (-60, 8); (-64, 9); (-68, 18); (-72, 19); (-76, 20); (-80, 21); (-84, 22)].

(** The memory after the stores. *)
Definition saves (fp : Z) (g : Z -> Z) (m : mem) : mem :=
  foldl (fun m p => store_le 32 4 m (fp + p.1) (g p.2)) m saved_at.

Lemma saves_load fp g m o r : (o, r) ∈ saved_at -> uint 32 (g r) -> load_le 32 4 (saves fp g m) (fp + o) = g r.
Proof.
  intros Hin Hg. unfold saves, saved_at in *. cbn [foldl fst snd]. repeat (apply elem_of_cons in Hin as [[= -> ->]|Hin]); [..|by apply not_elem_of_nil in Hin];
    rewrite ?load_frame by lia; rewrite load_store_same by lia; by apply wrap_small.
Qed.

(** Bytes outside the frame change at the place of S6 only, which is not in the
    frame but at the end of the program's stack. *)
Lemma saves_out fp g m x : uint 32 x -> ~ in_frame fp x -> saves fp g m x = store_le 32 4 m (fp + -84) (g 22) x.
Proof.
  intros Hx Hf. unfold in_frame in Hf. unfold saves, saved_at. cbn [foldl fst snd]. rewrite !(store_le_byte 32 4 _ (fp + -84)) by (done || lia).
  destruct (_ <? _); [done|]. by rewrite !store_frame by (done || lia).
Qed.

Lemma saves_slots fp g m x : uint 32 x -> below fp x < 48 -> saves fp g m x = m x.
Proof. intros Hx Hb. unfold saves, saved_at. cbn [foldl fst snd]. by rewrite !store_frame by (done || lia). Qed.

(** * The prologue *)

Lemma frame_size bp : 0 <= stack_depth bp <= 512 -> 0 <= bpf_stack_adjust bp <= 512 /\ stack_adjust bp = 80 + bpf_stack_adjust bp.
Proof.
  intros H. unfold stack_adjust, bpf_stack_adjust. change (round_up 32 16) with 32. change (4 * BPF_JIT_SCRATCH_REGS) with 48.
  split; [|lia]. unfold round_up. pose proof (Z.div_mod (stack_depth bp + 16 - 1) 16) as D.
  pose proof (Z.mod_pos_bound (stack_depth bp + 16 - 1) 16). lia.
Qed.

(** A store and a load relative to the stack pointer. *)
Lemma store_sp fp n m o v : 0 <= n <= 1024 -> -4 <= o <= 1024 ->
  store_le 32 4 m (u32 (fp - n) + sgn 12 o) v = store_le 32 4 m (fp + (o - n)) v.
Proof.
  intros Hn Ho. rewrite sgn_small by lia. apply store_le_eq; [|done]. rewrite wrap_add_l. f_equal. lia.
Qed.

Lemma load_sp fp n m o : 0 <= n <= 1024 -> -4 <= o <= 1024 ->
  load_le 32 4 m (u32 (fp - n) + sgn 12 o) = load_le 32 4 m (fp + (o - n)).
Proof.
  intros Hn Ho. rewrite sgn_small by lia. apply load_le_eq. rewrite wrap_add_l. f_equal. lia.
Qed.

Section frame.
Context (T : Z -> option Z) (E base : Z) (bp : bpf_prog).
Hypothesis Hdepth : 0 <= stack_depth bp <= 512.

(** The registers after the prologue: the stack pointer, the frame pointer, the
    BPF frame pointer in S6:S5 and the argument in A1:A0. *)
Definition entry_regs (g : Z -> Z) : Z -> Z :=
  <[11 := 0]> (<[10 := g 10]> (<[22 := 0]> (<[21 := u32 (g 2 - 80)]> (<[8 := g 2]> (<[2 := u32 (g 2 - stack_adjust bp)]> g))))).

Lemma prologue_wp k g m (Q : unit -> Z -> cpu -> Prop) : (forall r, uint 32 (g r)) ->
  Q () (k + 14) (Cpu (addr base (k + 14)) (entry_regs g) (saves (g 2) g m)) ->
  wp T E base (prologue_code bp) k (Cpu (addr base k) g m) Q.
Proof.
  intros Hg HQ. destruct (frame_size bp Hdepth) as [Ha EA]. unfold prologue_code. rewrite EA in *. change (round_up 32 16) with 32.
  set (n := bpf_stack_adjust bp) in *. wstep. change (bpf2rv BPF_REG_FP) with (ret (A := Z * Z) (22, 21)). wstep.
  wstep. change (bpf2rv 1) with (ret (A := Z * Z) (11, 10)). wstep. cbn [fst snd].
  wstep. wstep. rewrite sgn_small by lia. replace (g 2 + - (80 + n)) with (g 2 - (80 + n)) by lia.
  do 8 (wstep; apply wp32_sw; [done..|]; rsimpl). rewrite !store_sp by lia.
  wstep. wstep. wstep. wstep. wstep. wstep. wstep. wstep. wstep. cbv beta.
  rewrite (sgn_small 12 (80 + n)), (sgn_small 12 n), (sgn_small 12 0), !wrap_add_l by lia.
  replace (g 2 - (80 + n) + (80 + n)) with (g 2) by lia. replace (g 2 - (80 + n) + n) with (g 2 - 80) by lia.
  change (0 + 0) with 0. rewrite Z.add_0_r, !(wrap_small 32 (g _)), (wrap_small 32 0) by (apply Hg || (unfold uint; lia)).
  assert (forall a, 32 + n - 8 - a - (80 + n) = -56 - a) as Eo by lia. rewrite !Eo.
  replace (k + 1 + 1 + 1 + 1 + 1 + 1 + 1 + 1 + 1 + 1 + 1 + 1 + 1 + 1) with (k + 14) by lia.
  unfold entry_regs in HQ. rewrite EA in HQ. exact HQ.
Qed.

(** * The epilogue *)

(** The registers after the epilogue. *)
Definition exit_regs (fp : Z) (g : Z -> Z) (m : mem) : Z -> Z :=
  <[2 := u32 fp]> (foldl (fun g p => <[p.2 := load_le 32 4 m (fp + p.1)]> g) (<[11 := g 18]> (<[10 := g 9]> g)) saved_at).

Lemma epilogue_wp fp k g m (Q : unit -> Z -> cpu -> Prop) : uint 32 (g 9) -> uint 32 (g 18) -> g 2 = u32 (fp - stack_adjust bp) ->
  Q () (k + 12) (Cpu (Z.ldiff (load_le 32 4 m (fp + -56)) 1) (exit_regs fp g m) m) ->
  wp T E base (epilogue_code (stack_adjust bp)) k (Cpu (addr base k) g m) Q.
Proof.
  intros H9 H18 H2 HQ. destruct (frame_size bp Hdepth) as [Ha EA]. unfold epilogue_code. rewrite EA in *.
  change (4 * BPF_JIT_SCRATCH_REGS) with 48.
  set (n := bpf_stack_adjust bp) in *. wstep. change (bpf2rv 0) with (ret (A := Z * Z) (18, 9)). wstep. cbn [fst snd].
  wstep. wstep. wstep. wstep. do 8 (wstep; apply wp32_lw; [done..|]; rsimpl; rewrite H2, load_sp by lia).
  wstep. wstep. eapply wp32_emit; [done|by apply x_jalr|]. rsimpl.
  assert (forall a, 80 + n - 8 - 48 - a - (80 + n) = -56 - a) as Eo by lia. rewrite !Eo, H2, (sgn_small 12 (80 + n)), wrap_add_l by lia.
  change (sgn 12 0) with 0. rewrite !Z.add_0_r, !(wrap_small 32 (g _)), (wrap_small 32 (load_le _ _ _ _)) by first [assumption|apply (load_le_range 32 4)].
  replace (fp - (80 + n) + (80 + n)) with fp by lia.
  replace (k + 1 + 1 + 1 + 1 + 1 + 1 + 1 + 1 + 1 + 1 + 1 + 1) with (k + 12) by lia. exact HQ.
Qed.
End frame.
