(* ===== verification/BpfJit32Layout.v ===== *)
(** The layout of the code of the RV32 BPF compiler. The number of instructions
    emitted for a BPF instruction does not depend on the offset table or on
    whether there is an image, so the offsets that the first pass records are
    those of the second. *)

From stdpp Require Import gmap.
From S2P Require Import Prelude Cstring Bytes Bpf BpfSteps Riscv RvEmit RvEnc RvExec BpfJit32 BpfJit32Exec.

(** * Counts *)

(** [m], where it is defined, emits [n] instructions and returns a value of [P]. *)
Definition count {A} (m : M A) (n : nat) (P : A -> Prop) : Prop :=
  forall ctx a ctx', m ctx = Some (a, ctx') -> P a /\ exists ws, length ws = n /\ ctx' = emit_all ws ctx.

(** [m] fails with a negative number, or emits [n] instructions and returns [r]. *)
Definition countZ (m : M Z) (n : nat) (r : Z) : Prop :=
  forall ctx a ctx', m ctx = Some (a, ctx') -> 0 <= a -> a = r /\ exists ws, length ws = n /\ ctx' = emit_all ws ctx.

Lemma bind_inv {A B} (m : M A) (f : A -> M B) ctx b ctx' : bind m f ctx = Some (b, ctx') ->
  exists a ctx1, m ctx = Some (a, ctx1) /\ f a ctx1 = Some (b, ctx').
Proof. unfold bind. destruct (m ctx) as [[a ctx1]|]; [|done]. eauto. Qed.

Lemma emit_all_app ws ws' ctx : emit_all ws' (emit_all ws ctx) = emit_all (ws ++ ws') ctx.
Proof. unfold emit_all. by rewrite foldl_app. Qed.

Lemma count_ret {A} (a : A) : count (ret a) 0 (eq a).
Proof. intros ctx b ctx' [= <- <-]. split; [done|]. by exists []. Qed.

Lemma count_unit (m : M unit) n P : count m n P -> count m n (eq tt).
Proof. intros H ctx [] ctx' E. split; [done|]. by eapply H. Qed.

Lemma count_emit w : count (emit w) 1 (eq tt).
Proof. intros ctx [] ctx' [= <-]. split; [done|]. by exists [w]. Qed.

Lemma count_bind {A B} (m : M A) (f : A -> M B) n n' P P' :
  count m n P -> (forall a, P a -> count (f a) n' P') -> count (bind m f) (n + n') P'.
Proof.
  intros Hm Hf ctx b ctx' (a & ctx1 & E1 & E2)%bind_inv. apply Hm in E1 as (Ha & ws & <- & ->).
  apply (Hf a Ha) in E2 as (Hb & ws' & <- & ->). split; [done|]. exists (ws ++ ws'). by rewrite length_app, emit_all_app.
Qed.

Lemma count_if {A} (b : bool) (m m' : M A) n n' P : count m n P -> count m' n' P ->
  count (if b then m else m') (if b then n else n') P.
Proof. by destruct b. Qed.

Lemma count_when b (m : M unit) n : count m n (eq tt) -> count (when b m) (if b then n else 0) (eq tt).
Proof. destruct b; [done|]. intros _. apply count_ret. Qed.

Lemma countZ_ret r : countZ (ret r) 0 r.
Proof. intros ctx b ctx' [= <- <-] _. split; [done|]. by exists []. Qed.

Lemma countZ_neg e n r : e < 0 -> countZ (ret e) n r.
Proof. intros He ctx b ctx' [= <- <-]. lia. Qed.

Lemma countZ_undef n r : countZ undef n r.
Proof. by intros ctx a ctx'. Qed.

Lemma countZ_bind {A} (m : M A) (f : A -> M Z) n n' P r :
  count m n P -> (forall a, P a -> countZ (f a) n' r) -> countZ (bind m f) (n + n') r.
Proof.
  intros Hm Hf ctx b ctx' (a & ctx1 & E1 & E2)%bind_inv Hb. apply Hm in E1 as (Ha & ws & <- & ->).
  destruct (Hf a Ha _ _ _ E2 Hb) as (-> & ws' & <- & ->). split; [done|]. exists (ws ++ ws'). by rewrite length_app, emit_all_app.
Qed.

(** The result of a part is checked: only zero goes on. *)
Lemma countZ_check (m : M Z) n : countZ m n 0 -> countZ (r <- m; if negb (r =? 0) then ret (-1) else ret 0) n 0.
Proof.
  intros Hm ctx b ctx' (a & ctx1 & E1 & E2)%bind_inv Hb. destruct (Z.eqb_spec a 0) as [->|Ha]; cbn in E2; [|injection E2 as <- <-; lia].
  injection E2 as <- <-. split; [done|]. by apply (Hm ctx 0).
Qed.

Lemma countZ_if (b : bool) (m m' : M Z) n n' r : countZ m n r -> countZ m' n' r ->
  countZ (if b then m else m') (if b then n else n') r.
Proof. by destruct b. Qed.

(** A check of a value that depends on the table. *)
Lemma countZ_test (b : bool) e (m : M Z) n r : e < 0 -> countZ m n r -> countZ (if b then ret e else m) n r.
Proof. destruct b; [|done]. intros. by apply countZ_neg. Qed.

(** * Emitted code *)

Lemma emit_all_inj ws ws' ctx buf : insns ctx = Some buf -> emit_all ws ctx = emit_all ws' ctx -> ws = ws'.
Proof.
  intros Hb E. pose proof (f_equal ninsns E) as En. rewrite !emit_all_ninsns in En.
  destruct (emit_all_insns ws ctx buf Hb) as (b1 & B1 & W1 & _), (emit_all_insns ws' ctx buf Hb) as (b2 & B2 & W2 & _).
  rewrite E, B2 in B1. injection B1 as ->. apply list_eq. intros j. specialize (W1 j). specialize (W2 j).
  destruct (ws !! j) as [w|] eqn:E1, (ws' !! j) as [w'|] eqn:E2; try done.
  - f_equal. rewrite <- (W1 w), <- (W2 w') by done. done.
  - apply lookup_lt_Some in E1. apply lookup_ge_None in E2. lia.
  - apply lookup_lt_Some in E2. apply lookup_ge_None in E1. lia.
Qed.

(** The words that [m] emits at [k], in the second pass, are in the image. *)
Definition region {A} (image : Z -> Z) (T : Z -> option Z) (E : Z) (m : M A) (a : A) (k : Z) (n : nat) : Prop :=
  exists ctx buf ws, insns ctx = Some buf /\ offset ctx = T /\ epilogue_offset ctx = E /\ ninsns ctx = k /\
    m ctx = Some (a, emit_all ws ctx) /\ length ws = n /\
    forall j w, ws !! j = Some w -> image (k + Z.of_nat j) = w.

Lemma region_run {A} image T E base (m : M A) a k n c Q : region image T E m a k n -> 0 <= k -> k + Z.of_nat n <= 2 ^ 30 ->
  wp T E base m k c Q -> exists steps c', rv_steps 32 image base steps c = Some c' /\ Q a (k + Z.of_nat n) c'.
Proof.
  intros (ctx & buf & ws & Hb & HT & HE & Hk & Hm & <- & Hw) H0 Hn (a' & ws' & c' & He & R & HQ).
  pose proof (He ctx HT HE Hk) as Hm'. rewrite Hm in Hm'. injection Hm' as <- Ea. apply (emit_all_inj _ _ _ buf) in Ea as <-; [|done].
  eapply (reach_steps base _ image) in R as [steps R]; [by exists steps, c'|].
  intros j w. unfold seg. destruct (Z.leb_spec k j); [|done]. intros Hj. pose proof (lookup_lt_Some _ _ _ Hj) as Hlt.
  split; [|lia]. rewrite <- (Hw _ _ Hj). f_equal. lia.
Qed.

(** * The parts of the compiler *)

Lemma count_offset k : count (get_offset k) 0 (fun _ => True).
Proof. intros ctx a ctx'. unfold get_offset. destruct (offset ctx k); [|done]. intros [= <- <-]. split; [done|]. by exists []. Qed.

Lemma count_epilogue_off : count epilogue_off 0 (fun _ => True).
Proof. intros ctx a ctx' [= <- <-]. split; [done|]. by exists []. Qed.

Lemma count_rv_offset a b : count (rv_offset a b) 0 (fun _ => True).
Proof.
  eapply (count_bind _ _ 0 0); [apply count_offset|]. intros ? _. eapply (count_bind _ _ 0 0); [apply count_offset|]. intros ? _.
  intros ctx x ctx' [= <- <-]. split; [done|]. by exists [].
Qed.

Lemma count_offset_check off i : count (rv_offset_check off i) 0 (fun _ => True).
Proof.
  eapply (count_bind _ _ 0 0); [apply count_rv_offset|]. intros ? _. intros ctx x ctx' [= <- <-]. split; [done|]. by exists [].
Qed.

(** [m] emits a number of instructions and returns [v], or [r] if not an error. *)
Definition fixed {A} (m : M A) (v : A) : Prop := exists n, count m n (eq v).
Definition fixedZ (m : M Z) (r : Z) : Prop := exists n, countZ m n r.

Lemma fixed_bind {A B} (m : M A) (f : A -> M B) v w : fixed m v -> fixed (f v) w -> fixed (bind m f) w.
Proof. intros [n Hm] [n' Hf]. exists (n + n')%nat. eapply count_bind; [done|]. by intros a <-. Qed.

Lemma fixedZ_bind {A} (m : M A) (f : A -> M Z) v r : fixed m v -> fixedZ (f v) r -> fixedZ (bind m f) r.
Proof. intros [n Hm] [n' Hf]. exists (n + n')%nat. eapply countZ_bind; [done|]. by intros a <-. Qed.

(** A value from the table, on which the number does not depend. *)
Lemma fixedZ_table {A} (m : M A) (f : A -> M Z) r P : count m 0 P -> (exists n, forall a, countZ (f a) n r) -> fixedZ (bind m f) r.
Proof. intros Hm [n Hf]. exists n. by eapply (countZ_bind _ _ 0 n). Qed.

Lemma fixedZ_check (m : M Z) : fixedZ m 0 -> fixedZ (r <- m; if negb (r =? 0) then ret (-1) else ret 0) 0.
Proof. intros [n H]. exists n. by apply countZ_check. Qed.

Lemma fixedZ_done (m : M unit) r : fixed m tt -> fixedZ (m;; ret r) r.
Proof. intros H. eapply fixedZ_bind; [done|]. exists 0%nat. apply countZ_ret. Qed.

Lemma fixedZ_neg e r : e < 0 -> fixedZ (ret e) r.
Proof. exists 0%nat. by apply countZ_neg. Qed.

(** Counts a sequence of emissions. *)
Ltac count_step :=
  lazymatch goal with
  | |- count (bind _ _) _ _ => eapply count_bind; [|intros ? ?]
  | |- count (ret _) _ _ => apply count_ret
  | |- count (emit _) _ _ => apply count_emit
  | |- count (when _ _) _ _ => apply count_when
  | |- count (if _ then _ else _) _ _ => apply count_if
  end.

Ltac counts := unfold shift64; cbn [switch op_case jmp_case size_case]; eexists; repeat count_step.

Lemma fixed_get64 p t : fixed (rv32_bpf_get_reg64 p t) (if is_stacked p.1 then t else p).
Proof. unfold rv32_bpf_get_reg64. destruct (is_stacked _); counts. Qed.

Lemma fixed_get32 p t : fixed (rv32_bpf_get_reg32 p t) (if is_stacked p.2 then t else p).
Proof. unfold rv32_bpf_get_reg32. destruct (is_stacked _); counts. Qed.

Lemma fixed_put64 p x : fixed (rv32_bpf_put_reg64 p x) tt.
Proof. unfold rv32_bpf_put_reg64. counts. Qed.

Lemma fixed_put32 zext p x : fixed (rv32_bpf_put_reg32 zext p x) tt.
Proof. unfold rv32_bpf_put_reg32. counts. Qed.

Lemma fixed_imm rd v : fixed (emit_imm rd v) tt.
Proof. unfold emit_imm. counts. Qed.

Lemma fixed_imm32 rd v : fixed (emit_imm32 rd v) tt.
Proof. unfold emit_imm32, emit_imm. counts. Qed.

Lemma fixed_src b p v : fixed (src_or_imm b p v) (if b then tmp2 else p).
Proof. unfold src_or_imm, emit_imm32, emit_imm. destruct b; counts. Qed.

Lemma fixed_alu_r64 rd rs op : fixed (alu_r64_code rd rs op) tt.
Proof. unfold alu_r64_code. counts. Qed.

Lemma fixed_alu_r32 rd rs op : fixed (alu_r32_code rd rs op) tt.
Proof. unfold alu_r32_code. counts. Qed.

Lemma fixed_alu_i64 rd v op : fixed (alu_i64_code rd v op) tt.
Proof. unfold alu_i64_code, emit_imm32, emit_imm. counts. Qed.

(** The code of a conditional jump, for every offset. *)
Lemma count_jump_r64 rs1 rs2 op : exists n, forall o, count (jump_r64_code rs1 rs2 o op) n (eq tt).
Proof. unfold jump_r64_code. cbn [switch jmp_case]. eexists. intros o. repeat count_step. Qed.

Lemma count_jump_r32 rs1 rs2 op : exists n, forall o, count (jump_r32_code rs1 rs2 o op) n (eq tt).
Proof. unfold jump_r32_code. cbn [switch jmp_case]. eexists. intros o. repeat count_step. Qed.

(** * The cases of emit_insn *)

Ltac fixed_step :=
  lazymatch goal with
  | |- fixed (bind _ _) _ => eapply fixed_bind
  | |- fixedZ (bind _ (fun _ => ret _)) _ => apply fixedZ_done
  | |- fixedZ (bind _ (fun r => if negb (r =? 0) then ret (-1) else ret 0)) _ => apply fixedZ_check
  | |- fixedZ (bind (rv_offset_check _ _) _) _ => eapply fixedZ_table; [apply count_offset_check|]
  | |- fixedZ (bind (rv_offset _ _) _) _ => eapply fixedZ_table; [apply count_rv_offset|]
  | |- fixedZ (bind epilogue_off _) _ => eapply fixedZ_table; [apply count_epilogue_off|]
  | |- fixedZ (bind _ _) _ => eapply fixedZ_bind
  | |- fixedZ (ret (-1)) _ => by apply fixedZ_neg
  | |- fixed (rv32_bpf_get_reg64 _ _) _ => apply fixed_get64
  | |- fixed (rv32_bpf_get_reg32 _ _) _ => apply fixed_get32
  | |- fixed (rv32_bpf_put_reg64 _ _) _ => apply fixed_put64
  | |- fixed (rv32_bpf_put_reg32 _ _ _) _ => apply fixed_put32
  | |- fixed (emit_imm _ _) _ => apply fixed_imm
  | |- fixed (emit_imm32 _ _) _ => apply fixed_imm32
  | |- fixed (src_or_imm _ _ _) _ => apply fixed_src
  | |- fixed (alu_r64_code _ _ _) _ => apply fixed_alu_r64
  | |- fixed (alu_r32_code _ _ _) _ => apply fixed_alu_r32
  | |- fixed (alu_i64_code _ _ _) _ => apply fixed_alu_i64
  | |- fixed (emit_rv32_zext64 _) _ => unfold emit_rv32_zext64
  | |- fixed _ _ => solve [counts]
  end.

Lemma fixed_alu64 c p x v : fixedZ (emit_alu64 c p x v) 0.
Proof. unfold emit_alu64, emit_rv32_alu_r64. repeat fixed_step. Qed.

Lemma fixed_alu32 zext c p x v : fixedZ (emit_alu32 zext c p x v) 0.
Proof. unfold emit_alu32, emit_rv32_alu_r32. repeat fixed_step. Qed.

Lemma fixed_end_le p v : fixedZ (emit_end end_le_code p v) 0.
Proof.
  unfold emit_end, end_le_code. fixed_step; [fixed_step|]. cbn [switch].
  repeat destruct (has_label _ _); repeat fixed_step.
Qed.

Lemma fixed_end_be p v : fixedZ (emit_end end_be_code p v) 0.
Proof.
  unfold emit_end, end_be_code, emit_rv32_rev16, emit_rv32_rev32, emit_rev_byte. fixed_step; [fixed_step|]. cbn [switch].
  repeat destruct (has_label _ _); repeat fixed_step.
Qed.

Lemma fixed_load p x o z : fixedZ (emit_rv32_load_r64 p x o z) 0.
Proof. unfold emit_rv32_load_r64. repeat fixed_step. Qed.

Lemma fixed_store p x o z md : fixedZ (emit_rv32_store_r64 p x o z md) 0.
Proof. unfold emit_rv32_store_r64. do 2 (fixed_step; [fixed_step|]). destruct (_ && _); repeat fixed_step. Qed.

Lemma countZ_offset_test (e : Z) (m : M unit) n : count m n (eq tt) ->
  countZ (if negb (e =? 0) then ret (-1) else m;; ret 0) (n + 0) 0.
Proof. intros H. apply countZ_test; [lia|]. eapply countZ_bind; [done|]. intros _ _. apply countZ_ret. Qed.

Lemma fixed_jump64 p x o i op : fixedZ (emit_rv32_jump_r64 p x o i op) 0.
Proof.
  unfold emit_rv32_jump_r64. do 2 (fixed_step; [fixed_step|]). fixed_step. edestruct count_jump_r64 as [n H]. exists (n + 0)%nat.
  intros [rvoff e]. apply countZ_offset_test, H.
Qed.

Lemma fixed_jump32 p x o i op : fixedZ (emit_rv32_jump_r32 p x o i op) 0.
Proof.
  unfold emit_rv32_jump_r32. do 2 (fixed_step; [fixed_step|]). fixed_step. edestruct count_jump_r32 as [n H]. exists (n + 0)%nat.
  intros [rvoff e]. apply countZ_offset_test, H.
Qed.

Lemma fixed_jmp c p x o v i : fixedZ (emit_jmp c p x o v i) 0.
Proof.
  unfold emit_jmp. fixed_step; [fixed_step|]. fixed_step.
  destruct (_ =? _); [apply fixed_jump64|]. destruct (_ =? _); [apply fixed_jump32|]. exists 0%nat. apply countZ_ret.
Qed.

Lemma countZ_jal (b : bool) w : countZ (if b then ret (-1) else emit w;; ret 0) (1 + 0) 0.
Proof. apply countZ_test; [lia|]. eapply countZ_bind; [apply count_emit|]. intros _ _. apply countZ_ret. Qed.

(** The cases of a switch. *)
Lemma fixedZ_case c ls b cases d r : (has_label c ls = true -> fixedZ b r) -> fixedZ (switch c cases d) r ->
  fixedZ (switch c ((ls, b) :: cases) d) r.
Proof. intros H1 H2. cbn [switch]. destruct (has_label c ls); auto. Qed.

Lemma has_label_one c l : has_label c [l] = true -> c = l.
Proof. unfold has_label. cbn. destruct (Z.compare_spec c l); done. Qed.

Ltac fixed_case := apply fixedZ_case; [intros _|].

Section insn.
Context (get_addr : bpf_insn -> bool -> Z + Z * bool).

(** The kernel's errors are negative. *)
Hypothesis Haddr : forall insn x e, get_addr insn x = inl e -> e < 0.

Lemma fixed_call insn x : fixedZ (emit_call get_addr insn x) 0.
Proof.
  unfold emit_call. change (bpf2rv 0) with (ret (A := Z * Z) (18, 9)). change (bpf2rv 5) with (ret (A := Z * Z) (20, 19)).
  eapply fixedZ_bind; [eexists; apply count_ret|]. eapply fixedZ_bind; [eexists; apply count_ret|].
  destruct (get_addr insn x) as [e|[a []]] eqn:E; [apply fixedZ_neg; eauto| |by apply fixedZ_neg].
  repeat lazymatch goal with |- fixedZ (bind _ (fun _ => ret _)) _ => fail | |- fixedZ (bind _ _) _ => eapply fixedZ_bind; [fixed_step|] end.
  repeat fixed_step.
Qed.

(** The words of a BPF instruction that follow the first: the second half of a
    64-bit immediate. *)
Definition insn_extra (insn : bpf_insn) : Z := if code insn =? (BPF_LD .| BPF_IMM .| BPF_DW) then 1 else 0.

Lemma fixed_ld_imm p insn insn1 : fixedZ (match insn1 with
  | None => undef
  | Some insn1 => rd <- rv32_bpf_get_reg64 p tmp1; emit_imm64 rd (imm insn1) (imm insn);; rv32_bpf_put_reg64 p rd;; ret 1 end) 1.
Proof.
  destruct insn1; [|exists 0%nat; apply countZ_undef]. unfold emit_imm64. fixed_step; [fixed_step|].
  eapply fixedZ_bind; [|repeat fixed_step]. repeat fixed_step.
Qed.

Lemma fixed_insn bp insn insn1 i x : fixedZ (emit_insn get_addr bp insn insn1 i x) (insn_extra insn).
Proof.
  unfold emit_insn, bpf2rv. destruct (bpf2rv32 !! Z.to_nat (dst_reg insn)) as [dp|]; [|by exists 0%nat].
  destruct (bpf2rv32 !! Z.to_nat (src_reg insn)) as [sp|]; [|exists 0%nat; by intros ctx a ctx'].
  eapply fixedZ_bind; [eexists; apply count_ret|]. eapply fixedZ_bind; [eexists; apply count_ret|]. unfold insn_extra.
  unfold emit_cases, alu64_cases, alu32_cases, jmp_cases, mem_cases. cbn [app].
  destruct (Z.eqb_spec (code insn) (BPF_LD .| BPF_IMM .| BPF_DW)) as [E|E].
  - rewrite E. cbv -[fixedZ emit_imm64 rv32_bpf_get_reg64 rv32_bpf_put_reg64]. apply fixed_ld_imm.
  - fixed_case; [destruct (_ =? _); [repeat fixed_step|apply fixed_alu64]|]. fixed_case; [apply fixed_alu64|].
    fixed_case; [unfold emit_rv32_alu_r64; repeat fixed_step|]. fixed_case; [by apply fixedZ_neg|].
    fixed_case; [unfold emit_rv32_alu_i64; repeat fixed_step|].
    fixed_case; [destruct (_ =? _); [repeat fixed_step|apply fixed_alu32]|]. fixed_case; [apply fixed_alu32|].
    fixed_case; [unfold emit_rv32_alu_i32, emit_imm32, emit_imm; repeat fixed_step|]. fixed_case; [unfold emit_rv32_alu_r32; repeat fixed_step|].
    fixed_case; [apply fixed_end_le|]. fixed_case; [apply fixed_end_be|].
    fixed_case; [fixed_step; exists (1 + 0)%nat; intros a; apply countZ_jal|].
    fixed_case; [apply fixed_call|]. fixed_case; [apply fixed_jmp|].
    fixed_case; [destruct (_ =? _); [exists 0%nat; apply countZ_ret|fixed_step; exists (1 + 0)%nat; intros a; apply countZ_jal]|].
    apply fixedZ_case; [intros H%has_label_one; congruence|].
    fixed_case; [fixed_step; apply fixed_load|]. fixed_case; [eapply fixedZ_bind; [apply fixed_src|]; fixed_step; apply fixed_store|].
    fixed_case; by apply fixedZ_neg.
Qed.
(** * The two passes *)

(** The instruction that starts at index [j] of a program whose list is [l] from
    index [i] on, with the word after it. *)
Fixpoint insn_start (i : Z) (l : list bpf_insn) (j : Z) : option (bpf_insn * option bpf_insn) :=
  match l with
  | [] => None
  | insn :: l =>
      if j =? i then Some (insn, head l)
      else if code insn =? (BPF_LD .| BPF_IMM .| BPF_DW) then
        match l with [] => None | _ :: l => insn_start (i + 2) l j end
      else insn_start (i + 1) l j
  end.

(** The list after the instruction at its head. *)
Definition after (insn : bpf_insn) (l : list bpf_insn) : list bpf_insn :=
  if code insn =? (BPF_LD .| BPF_IMM .| BPF_DW) then tail l else l.

Lemma insn_start_cons i insn l j : insn_start i (insn :: l) j =
  if j =? i then Some (insn, head l) else insn_start (i + 1 + insn_extra insn) (after insn l) j.
Proof.
  cbn [insn_start]. unfold insn_extra, after. destruct (j =? i); [done|]. destruct (code insn =? _).
  - destruct l; [done|]. cbn [tail]. f_equal. lia.
  - f_equal. lia.
Qed.

Lemma after_ind (P : list bpf_insn -> Prop) : P [] -> (forall insn l, P (after insn l) -> P (insn :: l)) -> forall l, P l.
Proof.
  intros H0 HS l. assert (forall n l, (length l <= n)%nat -> P l) as H; [|by apply (H (length l))].
  clear l. induction n as [|n IH]; intros [|insn l] Hl; cbn in Hl; try done; [lia|]. apply HS, IH.
  unfold after. destruct (_ =? _); [|lia]. destruct l; cbn in *; lia.
Qed.

Lemma insn_extra_range insn : 0 <= insn_extra insn <= 1.
Proof. unfold insn_extra. destruct (_ =? _); lia. Qed.

Lemma insn_start_ge l : forall i j x, insn_start i l j = Some x -> i <= j.
Proof.
  induction l as [|insn l IH] using after_ind; intros i j x; [done|]. rewrite insn_start_cons.
  pose proof (insn_extra_range insn). destruct (Z.eqb_spec j i); [lia|]. intros ?%IH. lia.
Qed.

Context (bp : bpf_prog).
Abbreviation body := (build_body_from get_addr bp false).

Lemma body_step i insn l n ctx ctx' : countZ (emit_insn get_addr bp insn (head l) i false) n (insn_extra insn) ->
  body i (insn :: l) ctx = Some (0, ctx') ->
  exists ws ctx1, length ws = n /\ emit_insn get_addr bp insn (head l) i false ctx = Some (insn_extra insn, emit_all ws ctx) /\
    record_offset (i + insn_extra insn) (emit_all ws ctx) = Some ((), ctx1) /\
    body (i + 1 + insn_extra insn) (after insn l) ctx1 = Some (0, ctx').
Proof.
  cbn [build_body_from]. intros Hn (r & ctx0 & E1 & E2)%bind_inv.
  assert (0 <= r) as Hr.
  { destruct (Z.gtb_spec r 0); [lia|]. apply bind_inv in E2 as (? & ? & _ & E2). destruct (Z.eqb_spec r 0); [lia|].
    unfold ret in E2. cbn in E2. congruence. }
  destruct (Hn _ _ _ E1 Hr) as (-> & ws & Hl & ->).
  exists ws. unfold insn_extra, after in *. destruct (code insn =? _); cbn in E2; apply bind_inv in E2 as ([] & ctx1 & E2 & E3); exists ctx1.
  - do 3 (split; [done|]). destruct l; [done|]. replace (i + 1 + 1) with (i + 2) by lia. done.
  - rewrite Z.add_0_r. do 3 (split; [done|]). rewrite Z.add_0_r. done.
Qed.

Lemma emit_all_none ws ctx : insns ctx = None -> insns (emit_all ws ctx) = None.
Proof.
  revert ctx. induction ws as [|w ws IH]; intros ctx H; [done|]. apply (IH (emit_ctx ctx w)). unfold emit_ctx. by rewrite H.
Qed.

Lemma emit_all_some ws ctx buf : insns ctx = Some buf -> exists buf', insns (emit_all ws ctx) = Some buf'.
Proof. intros H. destruct (emit_all_insns ws ctx buf H) as (buf' & E & _). eauto. Qed.

(** Where the code of the instruction at [j] is, [o] words from the start of the
    code of the body: the first pass recorded the end of the instruction before
    it and its own, and the second put [wi] there after [pre]. *)
Definition placed (i o0 : Z) (ctx1' ctx2 : rv_jit_context) (ws : list Z) (j : Z) (insn : bpf_insn) (insn1 : option bpf_insn)
    (pre wi post : list Z) : Prop :=
  ws = pre ++ wi ++ post /\
  (if j =? i then pre = [] else offset ctx1' (j - 1) = Some (o0 + Z.of_nat (length pre))) /\
  emit_insn get_addr bp insn insn1 j false (emit_all pre ctx2) = Some (insn_extra insn, emit_all wi (emit_all pre ctx2)) /\
  offset ctx1' (j + insn_extra insn) = Some (o0 + Z.of_nat (length pre) + Z.of_nat (length wi)).

Lemma body_layout l : forall i ctx1 ctx1' ctx2 ctx2' buf, insns ctx1 = None -> insns ctx2 = Some buf ->
  body i l ctx1 = Some (0, ctx1') -> body i l ctx2 = Some (0, ctx2') ->
  insns ctx1' = None /\ (forall j, j < i -> offset ctx1' j = offset ctx1 j) /\
  exists ws, ctx2' = emit_all ws ctx2 /\ ninsns ctx1' = ninsns ctx1 + Z.of_nat (length ws) /\
    forall j insn insn1, insn_start i l j = Some (insn, insn1) -> exists pre wi post,
      placed i (ninsns ctx1) ctx1' ctx2 ws j insn insn1 pre wi post /\
      (j + 1 = i + Z.of_nat (length l) -> post = []).
Proof.
  induction l as [|insn l IH] using after_ind; intros i ctx1 ctx1' ctx2 ctx2' buf H1 H2 B1 B2.
  { injection B1 as <-. injection B2 as <-. split; [done|]. split; [done|]. exists []. split; [done|]. split; [cbn; lia|]. done. }
  destruct (fixed_insn bp insn (head l) i false) as [n Hn]. apply (body_step _ _ _ n) in B1 as (ws1 & c1 & L1 & E1 & R1 & B1); [|done].
  apply (body_step _ _ _ n) in B2 as (ws2 & c2 & L2 & E2 & R2 & B2); [|done].
  pose proof (insn_extra_range insn) as Hx. set (e := insn_extra insn) in *.
  unfold record_offset in R1, R2. rewrite (emit_all_none ws1 ctx1 H1) in R1. destruct (emit_all_some ws2 ctx2 buf H2) as [buf2 Hb2].
  rewrite Hb2 in R2. injection R2 as <-. destruct (offset (emit_all ws1 ctx1) (i + e)); [|done]. injection R1 as <-.
  destruct (fun H => IH _ _ _ _ _ buf2 H Hb2 B1 B2) as (N1 & Ho & ws & Ec & Hni & Hp); [done|]. subst ctx2'. cbn [ninsns offset] in *. clear IH.
  rewrite emit_all_ninsns in *. split; [done|]. split.
  { intros j Hj. rewrite Ho, fn_lookup_insert_ne, emit_all_offset by lia. done. }
  exists (ws2 ++ ws). split; [apply emit_all_app|]. rewrite length_app, Nat2Z.inj_add. split; [lia|].
  intros j insn' insn1'. rewrite insn_start_cons. destruct (Z.eqb_spec j i) as [->|Hne].
  - intros [= <- <-]. exists [], ws2, ws. split.
    + split; [done|]. rewrite Z.eqb_refl. split; [done|]. split; [done|]. fold e. rewrite Ho, fn_lookup_insert by lia. f_equal. cbn. lia.
    + cbn [length]. intros Hl. assert (l = []) as -> by (destruct l; [done|cbn in Hl; lia]).
      assert (after insn [] = []) as Ea by (unfold after; by destruct (_ =? _)). rewrite Ea in B2. injection B2 as Hw.
      apply (f_equal ninsns) in Hw. rewrite !emit_all_ninsns in Hw. destruct ws; [done|cbn in Hw; lia].
  - fold e. intros Hs. destruct (Hp _ _ _ Hs) as (pre & wi & post & (-> & Hpre & Em & Hoff) & Hlast).
    pose proof (insn_start_ge _ _ _ _ Hs) as Hge.
    exists (ws2 ++ pre), wi, post. split.
    + split; [by rewrite <- app_assoc|]. rewrite (proj2 (Z.eqb_neq j i)) by done. split_and!.
      * destruct (Z.eqb_spec j (i + 1 + e)) as [->|]; [|rewrite Hpre, length_app; f_equal; lia]. rewrite Hpre, app_nil_r.
        rewrite Ho by lia. replace (i + 1 + e - 1) with (i + e) by lia. rewrite fn_lookup_insert. f_equal. lia.
      * rewrite <- emit_all_app. done.
      * rewrite Hoff, length_app. f_equal. lia.
    + intros Hl. apply Hlast. unfold after, insn_extra in *. cbn [length] in Hl. subst e.
      destruct (code insn =? _); [|lia]. destruct l; [done|]. cbn [tail length] in *. lia.
Qed.

(** The entries of the table are for instructions, and at most the count. *)
Definition tabled (ctx : rv_jit_context) : Prop :=
  forall j o, offset ctx j = Some o -> 0 <= j /\ 0 <= o <= ninsns ctx.

Lemma body_tabled l : forall i ctx ctx', 0 <= i -> insns ctx = None -> 0 <= ninsns ctx -> tabled ctx -> body i l ctx = Some (0, ctx') -> tabled ctx'.
Proof.
  induction l as [|insn l IH] using after_ind; intros i ctx ctx' Hi Hn H0 Ht B; [by injection B as <-|].
  destruct (fixed_insn bp insn (head l) i false) as [n Hc]. destruct (body_step _ _ _ n _ _ Hc B) as (ws & c1 & _ & _ & R & B1).
  unfold record_offset in R. rewrite (emit_all_none ws ctx Hn) in R. destruct (offset _ _); [|done]. injection R as <-.
  pose proof (insn_extra_range insn). refine (IH _ _ _ _ _ _ _ B1); [lia|reflexivity|cbn [ninsns]; rewrite emit_all_ninsns; lia|].
  intros j o. cbn [offset ninsns]. rewrite emit_all_ninsns, emit_all_offset, fn_insert_spec. case_decide.
  - intros [= <-]. lia.
  - intros Ho%Ht. lia.
Qed.

(** ** The image *)

Lemma fixed_prologue : fixed (prologue_code bp) tt.
Proof.
  unfold prologue_code. change (bpf2rv BPF_REG_FP) with (ret (A := Z * Z) (22, 21)). change (bpf2rv 1) with (ret (A := Z * Z) (11, 10)).
  do 2 (eapply fixed_bind; [eexists; apply count_ret|]). counts.
Qed.

Lemma fixed_epilogue n : fixed (epilogue_code n) tt.
Proof.
  unfold epilogue_code. change (bpf2rv 0) with (ret (A := Z * Z) (18, 9)). eapply fixed_bind; [eexists; apply count_ret|]. counts.
Qed.

(** The offset of the code of the instruction at [j] from the start of the body. *)
Definition start_off (T : Z -> option Z) (j : Z) : option Z := if j =? 0 then Some 0 else T (j - 1).

(** An image: the prologue, [P] words, the code of the instructions, and the
    epilogue at [E]. *)
Record laid_out (image : Z -> Z) (size : Z) (T : Z -> option Z) (P E : Z) : Prop := {
  lay_pos : 0 <= P <= E /\ E <= size;
  lay_entries j o : T j = Some o -> 0 <= j /\ 0 <= o /\ P + o <= E;
  lay_prologue : region image T E (prologue_code bp) tt 0 (Z.to_nat P);
  lay_insn j insn insn1 : insn_start 0 (insnsi bp) j = Some (insn, insn1) -> exists o n,
    0 <= o /\ start_off T j = Some o /\
    region image T E (emit_insn get_addr bp insn insn1 j false) (insn_extra insn) (P + o) n /\
    T (j + insn_extra insn) = Some (o + Z.of_nat n) /\ P + o + Z.of_nat n <= E /\
    (j + 1 = len bp -> P + o + Z.of_nat n = E);
  lay_epilogue : region image T E (epilogue_code (stack_adjust bp)) tt E (Z.to_nat (size - E))
}.

#[local] Opaque prologue_code epilogue_code.

(** The context with another stack size. *)
Definition sized (n : Z) (ctx : rv_jit_context) : rv_jit_context :=
  Ctx (insns ctx) (ninsns ctx) (epilogue_offset ctx) (offset ctx) (flags ctx) n.

Lemma prologue_inv np ctx ctx' : count (prologue_code bp) np (eq tt) -> build_prologue bp ctx = Some ((), ctx') ->
  exists ws, length ws = np /\ prologue_code bp ctx = Some ((), emit_all ws ctx) /\ ctx' = sized (stack_adjust bp) (emit_all ws ctx).
Proof.
  intros Hn H. unfold build_prologue in H. apply bind_inv in H as ([] & ctx1 & E1 & E2). destruct (Hn _ _ _ E1) as (_ & ws & Hl & ->). injection E2 as <-. exists ws. split; [exact Hl|]. split; [exact E1|reflexivity].
Qed.

Lemma first_pass_inv np ne ctx ctx' : count (prologue_code bp) np (eq tt) -> count (epilogue_code (stack_adjust bp)) ne (eq tt) ->
  first_pass get_addr bp ctx = Some (0, ctx') -> exists ctx1, body 0 (insnsi bp) ctx = Some (0, ctx1) /\
    offset ctx' = offset ctx1 /\ epilogue_offset ctx' = ninsns ctx1 + Z.of_nat np /\
    ninsns ctx' = ninsns ctx1 + Z.of_nat np + Z.of_nat ne.
Proof.
  intros Hp He H. unfold first_pass in H. apply bind_inv in H as (r & ctx1 & E1 & E2). exists ctx1. destruct (Z.eqb_spec r 0) as [->|Hr]; cbn in E2; [|injection E2; lia].
  split; [exact E1|]. apply bind_inv in E2 as ([] & ctx2 & E2 & E3). apply (prologue_inv np) in E2 as (ws & <- & _ & ->); [|exact Hp].
  apply bind_inv in E3 as ([] & ctx3 & [= <-] & E3). apply bind_inv in E3 as ([] & ctx4 & E3 & [= <-]).
  unfold build_epilogue in E3. cbn [stack_size sized] in E3. destruct (He _ _ _ E3) as (_ & ws' & <- & ->). rewrite emit_all_offset, emit_all_epilogue, emit_all_ninsns. cbn [sized offset epilogue_offset ninsns].
  rewrite emit_all_offset, emit_all_ninsns. split; [reflexivity|]. split; reflexivity.
Qed.

Lemma second_pass_inv np ctx ctx' : count (prologue_code bp) np (eq tt) -> second_pass get_addr bp false ctx = Some (0, ctx') ->
  let c0 := Ctx (insns ctx) 0 (epilogue_offset ctx) (offset ctx) (flags ctx) (stack_size ctx) in
  exists ws ctx1, length ws = np /\ prologue_code bp c0 = Some ((), emit_all ws c0) /\
    body 0 (insnsi bp) (sized (stack_adjust bp) (emit_all ws c0)) = Some (0, ctx1) /\
    build_epilogue ctx1 = Some ((), ctx').
Proof.
  intros Hp H. unfold second_pass in H. apply bind_inv in H as ([] & ctx0 & [= <-] & E). apply bind_inv in E as ([] & ctx2 & E2 & E). intros c0.
  apply (prologue_inv np) in E2 as (ws & Hl & Ew & ->); [|exact Hp]. apply bind_inv in E as (r & ctx1 & E1 & E).
  destruct (Z.eqb_spec r 0) as [->|Hr]; cbn in E; [|injection E; lia]. apply bind_inv in E as ([] & ctx3 & E3 & [= <-]).
  exists ws, ctx1. split; [exact Hl|]. split; [exact Ew|]. split; [exact E1|exact E3].
Qed.

Lemma emit_all_size ws ctx : stack_size (emit_all ws ctx) = stack_size ctx.
Proof. revert ctx. induction ws as [|w ws IH]; intros ctx; [done|]. apply (IH (emit_ctx ctx w)). Qed.

(** Words emitted earlier stay. *)
Lemma words_kept ws ctx buf buf' k pre : insns ctx = Some buf -> insns (emit_all ws ctx) = Some buf' ->
  k + Z.of_nat (length pre) <= ninsns ctx -> (forall j w, pre !! j = Some w -> buf (k + Z.of_nat j) = w) ->
  forall j w, pre !! j = Some w -> buf' (k + Z.of_nat j) = w.
Proof.
  intros Hb Hb' Hk Hw j w Hj. destruct (emit_all_insns ws ctx buf Hb) as (b & E & _ & Hlow). rewrite Hb' in E. injection E as ->.
  pose proof (lookup_lt_Some _ _ _ Hj). rewrite Hlow by lia. by apply Hw.
Qed.

Lemma passes_layout image0 ctx1 ctx2 : first_pass get_addr bp (new_ctx bp) = Some (0, ctx1) ->
  second_pass get_addr bp false (set_image image0 ctx1) = Some (0, ctx2) ->
  exists image P, insns ctx2 = Some image /\ laid_out image (ninsns ctx1) (offset ctx1) P (epilogue_offset ctx1).
Proof.
  intros H1 H2. destruct fixed_prologue as [np Hp], (fixed_epilogue (stack_adjust bp)) as [ne He].
  apply (first_pass_inv np ne) in H1 as (b1 & B1 & ET & EE & EN); [|assumption..].
  apply (second_pass_inv np) in H2 as (wp & b2 & Lp & Ep & B2 & E2); [|assumption].
  cbn [set_image insns epilogue_offset offset flags stack_size] in *.
  set (c0 := Ctx (Some image0) 0 (epilogue_offset ctx1) (offset ctx1) (flags ctx1) (stack_size ctx1)) in *.
  destruct (emit_all_insns wp c0 image0 eq_refl) as (buf1 & Hb1 & Hw1 & _).
  destruct (body_layout (insnsi bp) 0 (new_ctx bp) b1 (sized (stack_adjust bp) (emit_all wp c0)) b2 buf1 eq_refl Hb1 B1 B2) as (_ & _ & wb & -> & Hn & Hpl).
  set (cb := sized (stack_adjust bp) (emit_all wp c0)) in *.
  unfold build_epilogue in E2. rewrite emit_all_size in E2. cbn [stack_size sized cb] in E2.
  destruct (He _ _ _ E2) as (_ & we & Le & ->).
  destruct (emit_all_insns wb cb buf1 Hb1) as (buf2 & Hb2 & Hw2 & _).
  destruct (emit_all_insns we (emit_all wb cb) buf2 Hb2) as (buf3 & Hb3 & Hw3 & _).
  assert (ninsns cb = Z.of_nat np) as Nc by (cbn [cb sized ninsns]; rewrite emit_all_ninsns, Lp; reflexivity).
  assert (ninsns (emit_all wb cb) = epilogue_offset ctx1) as Nb by (rewrite emit_all_ninsns, Nc, EE, Hn; cbn [new_ctx ninsns]; lia).
  cbn [new_ctx ninsns] in Hn. exists buf3, (Z.of_nat np). split; [exact Hb3|]. split.
  - lia.
  - assert (tabled b1) as Ht.
    { apply (body_tabled (insnsi bp) 0 (new_ctx bp)); [done|reflexivity|done| |exact B1]. intros j o. cbn [new_ctx offset ninsns].
      destruct (Z.leb_spec 0 j); [|done]. destruct (j <? len bp); [|done]. intros [= <-]. lia. }
    intros j o. rewrite ET. intros ?%Ht. lia.
  - exists c0, image0, wp. do 4 (split; [reflexivity|]). split; [exact Ep|]. split; [lia|]. change (ninsns c0) with 0 in Hw1.
    eapply (words_kept we _ buf2 buf3); [exact Hb2|exact Hb3|rewrite Nb; lia|].
    eapply (words_kept wb cb buf1 buf2); [exact Hb1|exact Hb2|rewrite Nc; lia|exact Hw1].
  - intros j insn insn1 Hs. destruct (Hpl _ _ _ Hs) as (pre & wi & post & (Ews & Hpre & Em & Hoff) & Hlast).
    pose proof (f_equal (@length Z) Ews) as Hlen. rewrite !length_app in Hlen. exists (Z.of_nat (length pre)), (length wi).
    split; [lia|]. split; [|split; [|split; [|split]]].
    + unfold start_off. destruct (j =? 0); [by rewrite Hpre|]. rewrite ET, Hpre. cbn [new_ctx ninsns]. f_equal; lia.
    + destruct (emit_all_some pre cb buf1 Hb1) as [bufp Hbp]. exists (emit_all pre cb), bufp, wi.
      rewrite emit_all_offset, emit_all_epilogue, emit_all_ninsns, Nc.
      split; [exact Hbp|]. do 3 (split; [cbn [cb sized offset epilogue_offset]; rewrite ?emit_all_offset, ?emit_all_epilogue; reflexivity|]).
      split; [exact Em|]. split; [reflexivity|].
      eapply (words_kept we _ buf2 buf3); [exact Hb2|exact Hb3|rewrite Nb, EE; lia|].
      intros i w Hi. rewrite <- (Hw2 (length pre + i)%nat w); [rewrite Nc; f_equal; lia|].
      rewrite Ews, lookup_app_r by lia. rewrite lookup_app_l by (eapply lookup_lt_Some; rewrite <- Hi; f_equal; lia). rewrite <- Hi. f_equal; lia.
    + rewrite ET, Hoff. cbn [new_ctx ninsns]. f_equal; lia.
    + lia.
    + intros Hl. rewrite (Hlast ltac:(unfold len in Hl; lia)) in Hlen. cbn [length] in Hlen. lia.
  - exists (emit_all wb cb), buf2, we. rewrite emit_all_offset, emit_all_epilogue.
    split; [exact Hb2|]. do 2 (split; [cbn [cb sized offset epilogue_offset]; rewrite ?emit_all_offset, ?emit_all_epilogue; reflexivity|]).
    split; [exact Nb|]. split; [exact E2|]. split; [lia|]. rewrite <- Nb. exact Hw3.
Qed.
End insn.
