(* ===== verification/BpfJit32Run.v ===== *)
(** Running a program that the RV32 BPF compiler has compiled: the image
    simulates the interpreter from the entry to the return. *)

From stdpp Require Import gmap.
From S2P Require Import Prelude Cstring Bytes Bpf BpfSteps Riscv RvEmit RvEnc RvExec BpfJit32 BpfJit32Half BpfJit32Mem BpfJit32Exec.
From S2P Require Import BpfJit32Ops BpfJit32Word BpfJit32Rel BpfJit32Bodies BpfJit32Access BpfJit32Sim BpfJit32Frame BpfJit32Layout.

(** * Jumps that were compiled *)

(** A jump that was emitted has its entries in the table and its distance was
    checked. *)
Lemma rv_offset_inv a b ctx x ctx' : rv_offset a b ctx = Some (x, ctx') ->
  ctx' = ctx /\ exists oi ot, offset ctx b = Some oi /\ offset ctx a = Some ot /\ x = s32 (s32 (ot - s32 (oi - 1)) ≪ 2).
Proof.
  unfold rv_offset, bind, get_offset. destruct (offset ctx b) as [oi|]; cbn; [|done]. destruct (offset ctx a) as [ot|]; cbn; [|done].
  intros [= <- <-]. split; [done|]. by exists oi, ot.
Qed.

(** The table where [m] was called. *)
Lemma fixed_inv {A} (m : M A) v ctx a ctx' : fixed m v -> m ctx = Some (a, ctx') -> a = v /\ offset ctx' = offset ctx.
Proof. intros [n H] E. destruct (H _ _ _ E) as (-> & ws & _ & ->). by rewrite emit_all_offset. Qed.

Lemma jump64_inv p q o i op ctx r ctx' : emit_rv32_jump_r64 p q o i op ctx = Some (r, ctx') -> r = 0 ->
  exists oi ot, offset ctx i = Some oi /\ offset ctx (i + o) = Some ot /\ is_13b_int (s32 (s32 (ot - s32 (oi - 1)) ≪ 2)) = true.
Proof.
  intros E ->. unfold emit_rv32_jump_r64 in E. apply bind_inv in E as (? & c1 & E1 & E). apply bind_inv in E as (? & c2 & E2 & E).
  apply bind_inv in E as ([vo e] & c3 & E3 & E). apply bind_inv in E3 as (y & c4 & (-> & oi & ot & H1 & H2 & ->)%rv_offset_inv & [= <- <- <-]).
  apply (fixed_inv _ _ _ _ _ (fixed_get64 _ _)) in E1 as [_ E1]. apply (fixed_inv _ _ _ _ _ (fixed_get64 _ _)) in E2 as [_ E2].
  rewrite E2, E1 in H1, H2. exists oi, ot. split; [done|]. split; [done|]. unfold is_13b_check in E. destruct (is_13b_int _); done.
Qed.

Lemma jump32_inv p q o i op ctx r ctx' : emit_rv32_jump_r32 p q o i op ctx = Some (r, ctx') -> r = 0 ->
  exists oi ot, offset ctx i = Some oi /\ offset ctx (i + o) = Some ot /\ is_13b_int (s32 (s32 (ot - s32 (oi - 1)) ≪ 2)) = true.
Proof.
  intros E ->. unfold emit_rv32_jump_r32 in E. apply bind_inv in E as (? & c1 & E1 & E). apply bind_inv in E as (? & c2 & E2 & E).
  apply bind_inv in E as ([vo e] & c3 & E3 & E). apply bind_inv in E3 as (y & c4 & (-> & oi & ot & H1 & H2 & ->)%rv_offset_inv & [= <- <- <-]).
  apply (fixed_inv _ _ _ _ _ (fixed_get32 _ _)) in E1 as [_ E1]. apply (fixed_inv _ _ _ _ _ (fixed_get32 _ _)) in E2 as [_ E2].
  rewrite E2, E1 in H1, H2. exists oi, ot. split; [done|]. split; [done|]. unfold is_13b_check in E. destruct (is_13b_int _); done.
Qed.

(** The distance is in range of the instruction used for the jump. *)
Definition in_range (k : kind) (d : Z) : Prop :=
  match k with KJa => is_21b_int d = true | KJmp _ _ _ => is_13b_int d = true | _ => True end.

Lemma kind_class is64 op y : BPF_CLASS (kind_code (KJmp is64 op y)) = if is64 then BPF_JMP else BPF_JMP32.
Proof. destruct is64, op, y; reflexivity. Qed.

Lemma emit_jmp_inv is64 op y c p q o v i ctx ctx' : c = kind_code (KJmp is64 op y) -> emit_jmp c p q o v i ctx = Some (0, ctx') ->
  exists oi ot, offset ctx i = Some oi /\ offset ctx (i + o) = Some ot /\ is_13b_int (s32 (s32 (ot - s32 (oi - 1)) ≪ 2)) = true.
Proof.
  intros -> E. unfold emit_jmp in E. rewrite kind_class in E.
  apply bind_inv in E as (? & c1 & E1 & E). apply (fixed_inv _ _ _ _ _ (fixed_src _ _ _)) in E1 as [_ E1]. rewrite <- E1.
  apply bind_inv in E as (r & c2 & E2 & E). destruct (Z.eqb_spec r 0) as [Hr|]; [|done].
  destruct is64; cbn in E2; [by eapply jump64_inv|by eapply jump32_inv].
Qed.

Lemma emitted_jump get_addr bp insn insn1 i x ctx ctx' k : code insn = kind_code k -> k = KJa \/ (exists is64 op y, k = KJmp is64 op y /\ op ∈ cond_ops) ->
  0 <= dst_reg insn <= 10 -> 0 <= src_reg insn <= 10 -> emit_insn get_addr bp insn insn1 i x ctx = Some (0, ctx') ->
  exists oi ot, offset ctx i = Some oi /\ offset ctx (i + off insn) = Some ot /\ in_range k (s32 (s32 (ot - s32 (oi - 1)) ≪ 2)).
Proof.
  intros Hc Hk Hd Hs. unfold emit_insn, bpf2rv. rewrite (pair_lookup _ Hd), (pair_lookup _ Hs). cbn [bind ret]. unfold ret at 1 2. unfold bind at 1. cbn [mbind option_bind].
  unfold bind at 1. cbn [mbind option_bind]. rewrite Hc.
  destruct Hk as [-> | (is64 & op & y & -> & Hop)].
  - pick_case32. intros E. apply bind_inv in E as (z & c1 & (-> & oi & ot & H1 & H2 & ->)%rv_offset_inv & E). exists oi, ot. cbn [in_range].
    destruct (is_21b_int _); done.
  - intros E. apply (emit_jmp_inv is64 op y (code insn) (pair_of (dst_reg insn)) (pair_of (src_reg insn)) _ (imm insn) _ _ ctx'); [exact Hc|].
    revert E. each_of Hop; destruct is64, y; pick_case32; exact id.
Qed.

(** * Programs *)

(** The instructions by index. *)
Definition prog_of (bp : bpf_prog) (j : Z) : option bpf_insn := if 0 <=? j then insnsi bp !! Z.to_nat j else None.

Lemma insn_start_lookup l : forall i j insn insn1, insn_start i l j = Some (insn, insn1) ->
  l !! Z.to_nat (j - i) = Some insn /\ insn1 = l !! Z.to_nat (j - i + 1).
Proof.
  induction l as [|x l IH] using after_ind; intros i j insn insn1; [done|]. rewrite insn_start_cons. destruct (Z.eqb_spec j i) as [->|Hne].
  - intros [= <- <-]. rewrite Z.sub_diag. split; [done|]. by destruct l.
  - intros Hs. pose proof (insn_start_ge _ _ _ _ Hs) as Hge. apply IH in Hs as [H1 H2]. unfold after, insn_extra in *. destruct (_ =? _).
    + destruct l as [|y l]; [done|]. cbn [tail] in *. replace (j - (i + 1 + 1)) with (j - i - 2) in * by lia.
      replace (Z.to_nat (j - i)) with (S (S (Z.to_nat (j - i - 2)))) by lia.
      replace (Z.to_nat (j - i + 1)) with (S (S (Z.to_nat (j - i - 2 + 1)))) by lia. done.
    + replace (j - (i + 1 + 0)) with (j - i - 1) in * by lia. replace (Z.to_nat (j - i)) with (S (Z.to_nat (j - i - 1))) by lia.
      replace (Z.to_nat (j - i + 1)) with (S (Z.to_nat (j - i - 1 + 1))) by lia. done.
Qed.

Lemma start_prog bp j insn insn1 : insn_start 0 (insnsi bp) j = Some (insn, insn1) ->
  0 <= j /\ prog_of bp j = Some insn /\ prog_of bp (j + 1) = insn1.
Proof.
  intros Hs. pose proof (insn_start_ge _ _ _ _ Hs) as Hge. apply insn_start_lookup in Hs as [H1 H2]. rewrite Z.sub_0_r in *.
  unfold prog_of. rewrite !(proj2 (Z.leb_le 0 _)) by lia. done.
Qed.

(** Runs of the interpreter over instructions that the verifier accepts, in which no
    comparison overshoots. [D] has the registers whose upper halves are out of date
    at the start, and [D'] those at the end. *)
Inductive steps32 (bp : bpf_prog) (T : Z -> option Z) (fp : Z) : gset Z -> bpf_state -> gset Z -> bpf_state -> Prop :=
| steps_refl D s : steps32 bp T fp D s D s
| steps_next D s s1 D' s2 k insn insn1 : insn_start 0 (insnsi bp) (bpc s) = Some (insn, insn1) -> insn_wf insn ->
    code insn = kind_code k -> verified32 fp k insn s -> (forall r, r ∈ reads_hi k insn -> r ∉ D) ->
    ~ overshoots T k insn s -> bpf_step (prog_of bp) s = Some (Cont s1) ->
    steps32 bp T fp (dirty_after (verifier_zext bp) k insn D) s1 D' s2 -> steps32 bp T fp D s D' s2.

(** The state is at an exit, and the result of the program is up to date. *)
Definition at_exit (bp : bpf_prog) (D : gset Z) (s : bpf_state) : Prop :=
  exists insn insn1, insn_start 0 (insnsi bp) (bpc s) = Some (insn, insn1) /\ code insn = BPF_JMP .| BPF_EXIT /\
    0 <= dst_reg insn <= 10 /\ 0 <= src_reg insn <= 10 /\ 0 ∉ D.

(** Runs to an exit. *)
Definition runs32 (bp : bpf_prog) (T : Z -> option Z) (fp : Z) (D : gset Z) (s s' : bpf_state) : Prop :=
  exists D', steps32 bp T fp D s D' s' /\ at_exit bp D' s'.

(** What the interpreter computes. *)
Lemma runs_returns bp T fp D s s' : runs32 bp T fp D s s' ->
  exists fuel, ___bpf_prog_run fuel (prog_of bp) s = Some (Return (bregs s' 0)).
Proof.
  intros (D' & Hrun & insn & insn1 & Hs & Hc & _).
  induction Hrun as [D s|D s s1 D' s2 k i i1 _ _ _ _ _ _ Hstep _ IH].
  - exists 1%nat. apply start_prog in Hs as (_ & Hp & _). cbn [___bpf_prog_run]. unfold bpf_step. rewrite Hp. cbn [mbind option_bind]. rewrite Hc. reflexivity.
  - destruct (IH Hs) as [fuel Hf]. exists (S fuel). cbn [___bpf_prog_run]. by rewrite Hstep.
Qed.

Section program.
Context (get_addr : bpf_insn -> bool -> Z + Z * bool) (bp : bpf_prog) (image : Z -> Z) (size : Z) (T : Z -> option Z) (P E base fp : Z).
Context (g0 sm : Z -> Z).
Hypothesis Hlay : laid_out get_addr bp image size T P E.
Hypothesis Hsize : size < 2 ^ 28.

(** The processor is at the code of the next instruction. *)
Definition at32 (s : bpf_state) (c : cpu) : Prop := exists o, start_off T (bpc s) = Some o /\ pc c = addr base (P + o).

Lemma table_ok j o : T j = Some o -> entry_ok o.
Proof. intros Ho. pose proof (lay_entries _ _ _ _ _ _ _ Hlay j o Ho). pose proof (lay_pos _ _ _ _ _ _ _ Hlay). unfold entry_ok. lia. Qed.

(** The jump conditions of the simulation hold of compiled code. *)
Lemma compiled_jump insn insn1 j k o n fp' s : 
  region image T E (emit_insn get_addr bp insn insn1 j false) (insn_extra insn) o n ->
  code insn = kind_code k -> verified32 fp' k insn s -> jump_ok T k j (off insn).
Proof.
  intros (ctx & buf & ws & _ & HT & _ & _ & Hm & _) Hc (Hd & Hs & Hx). destruct k as [| | | | | | | | |is64 op y]; try exact I.
  - assert (insn_extra insn = 0) as Ex by (unfold insn_extra; by rewrite Hc). rewrite Ex in Hm.
    destruct (emitted_jump _ _ _ _ _ _ _ _ KJa Hc (or_introl eq_refl) Hd Hs Hm) as (oi & ot & H1 & H2 & H3). rewrite HT in H1, H2.
    exists oi, ot. rewrite rv_offset_val in H3 by (by eapply table_ok). eauto 10 using table_ok.
  - assert (insn_extra insn = 0) as Ex by (unfold insn_extra; rewrite Hc; by destruct is64, op, y). rewrite Ex in Hm.
    destruct (emitted_jump _ _ _ _ _ _ _ _ (KJmp is64 op y) Hc ltac:(eauto 10) Hd Hs Hm) as (oi & ot & H1 & H2 & H3). rewrite HT in H1, H2.
    exists oi, ot. rewrite rv_offset_val in H3 by (by eapply table_ok). split_and!; [done|done|by eapply table_ok|by eapply table_ok|done].
Qed.

Lemma steps_add n k c c1 c2 : rv_steps 32 image base n c = Some c1 -> rv_steps 32 image base k c1 = Some c2 ->
  rv_steps 32 image base (n + k) c = Some c2.
Proof.
  revert c. induction n as [|n IH]; intros c; cbn; [by intros [= ->]|]. destruct (rv_step 32 image base c); cbn; [apply IH|done].
Qed.

(** The second half of a 64-bit immediate is there. *)
Lemma ld_imm_next insn j o n : 0 <= dst_reg insn <= 10 -> 0 <= src_reg insn <= 10 -> code insn = kind_code KLdImm ->
  ~ region image T E (emit_insn get_addr bp insn None j false) (insn_extra insn) o n.
Proof.
  intros Hd Hs Hc (ctx & buf & ws & _ & _ & _ & _ & Hm & _). unfold emit_insn, bpf2rv in Hm.
  rewrite (pair_lookup _ Hd), (pair_lookup _ Hs), Hc in Hm. discriminate Hm.
Qed.

(** The code of the instruction the interpreter is at. *)
Lemma insn_region s c insn insn1 : insn_start 0 (insnsi bp) (bpc s) = Some (insn, insn1) -> at32 s c -> exists o n,
  0 <= o /\ pc c = addr base (P + o) /\ region image T E (emit_insn get_addr bp insn insn1 (bpc s) false) (insn_extra insn) (P + o) n /\
  T (bpc s + insn_extra insn) = Some (o + Z.of_nat n) /\ P + o + Z.of_nat n <= E.
Proof.
  intros Hs (o & Ho & Hpc). destruct (lay_insn _ _ _ _ _ _ _ Hlay _ _ _ Hs) as (o' & n & H0 & Ho' & Hreg & Hend & HE & _).
  rewrite Ho in Ho'. injection Ho' as <-. by exists o, n.
Qed.

Section step.
Context (D : gset Z) (s s' : bpf_state) (c : cpu) (k : kind) (insn : bpf_insn) (insn1 : option bpf_insn).
Hypothesis Hs : insn_start 0 (insnsi bp) (bpc s) = Some (insn, insn1).
Hypothesis Hwf : insn_wf insn.
Hypothesis Hc : code insn = kind_code k.
Hypothesis Hver : verified32 fp k insn s.
Hypothesis Hr : forall r, r ∈ reads_hi k insn -> r ∉ D.
Hypothesis Hstep : bpf_step (prog_of bp) s = Some (Cont s').
Hypothesis Hrel : rel32 fp g0 sm D s c.
Hypothesis Hat : at32 s c.

Lemma step32_sim : ~ overshoots T k insn s ->
  exists n c', rv_steps 32 image base n c = Some c' /\ rel32 fp g0 sm (dirty_after (verifier_zext bp) k insn D) s' c' /\ at32 s' c'.
Proof.
  intros Hnear. destruct (start_prog _ _ _ _ Hs) as (Hj & Hp & Hp1).
  destruct (insn_region s c insn insn1 Hs Hat) as (o & n & H0 & Hpc & Hreg & Hend & HE). pose proof (lay_pos _ _ _ _ _ _ _ Hlay) as HP.
  pose proof (compiled_jump insn insn1 (bpc s) k (P + o) n fp s Hreg Hc Hver) as Hjump.
  clear Hat. destruct c as [p g m]. cbn [pc] in Hpc. subst p.
  assert (k = KLdImm -> exists n1, insn1 = Some n1 /\ prog_of bp (bpc s + 1) = Some n1) as Hn1.
  { intros Ek. rewrite Hp1. destruct insn1 as [n1|]; [eauto|]. destruct Hver as (Hd & Hs' & _). rewrite Ek in Hc. by apply ld_imm_next in Hreg. }
  pose proof (sim32_insn get_addr bp false T E base fp g0 sm D (prog_of bp) insn insn1 s s' k (P + o) g m Hwf Hp Hstep Hc Hver Hr Hrel Hjump Hnear Hn1) as Hw.
  destruct (region_run _ _ _ _ _ _ _ _ _ _ Hreg ltac:(lia) ltac:(lia) Hw) as (steps & c' & R & Hrel' & Hat').
  exists steps, c'. split; [exact R|]. split; [exact Hrel'|]. unfold at32, start_off.
  pose proof (insn_extra_range insn). destruct Hat' as [[Hb Hpc]|(Er & oi & ot & HTi & HTt & Hb & Hpc)]; rewrite Hb.
  - exists (o + Z.of_nat n). rewrite (proj2 (Z.eqb_neq _ 0)) by lia. split; [rewrite <- Hend; f_equal; lia|]. rewrite Hpc. f_equal. lia.
  - exists ot. destruct (lay_entries _ _ _ _ _ _ _ Hlay _ _ HTt) as [Hge _]. rewrite (proj2 (Z.eqb_neq _ 0)) by lia.
    split; [rewrite <- HTt; f_equal; lia|]. rewrite Er, Z.add_0_r, HTi in Hend. injection Hend as ->. rewrite Hpc. f_equal. lia.
Qed.

(** A comparison that overshoots leads 2048 instructions before its target. *)
Lemma step32_far : overshoots T k insn s ->
  exists n c' o, rv_steps 32 image base n c = Some c' /\ start_off T (bpc s') = Some o /\ pc c' = addr base (P + o - 2048).
Proof.
  intros Hfar. destruct k as [| | | | | | | | |[] op x] eqn:Ek; try done. destruct Hfar as (oi & ot & HTi & HTt & Hge & Htaken).
  destruct (start_prog _ _ _ _ Hs) as (Hj & Hp & Hp1).
  destruct (insn_region s c insn insn1 Hs Hat) as (o & n & H0 & Hpc & Hreg & Hend & HE). pose proof (lay_pos _ _ _ _ _ _ _ Hlay) as HP.
  pose proof (compiled_jump insn insn1 (bpc s) _ (P + o) n fp s Hreg Hc Hver) as Hjump.
  clear Hat. destruct c as [p g m]. cbn [pc] in Hpc. subst p.
  destruct (sim32_jmp_lands get_addr bp false T E base fp g0 sm D (prog_of bp) insn insn1 s s' _ (P + o) g m Hwf Hp Hstep Hc Hver Hr Hrel true op x eq_refl Hjump)
    as (oi' & ot' & HTi' & HTt' & Hpc' & Hw). rewrite HTi in HTi'. injection HTi' as <-. rewrite HTt in HTt'. injection HTt' as <-.
  destruct (region_run _ _ _ _ _ _ _ _ _ _ Hreg ltac:(lia) ltac:(lia) Hw) as (steps & c' & R & _ & _ & Hland).
  assert (jmp_holds true op (bregs s (dst_reg insn)) (src_ext insn s x) = true) as Hh.
  { pose proof Hver as (Hd & Hs' & Hop). apply first_taken_holds; [done|by apply Hrel| |done].
    destruct x; cbn [src_ext]; first [by apply uint_wrap|by apply Hrel]. }
  rewrite Hh in Hpc', Hland.
  exists steps, c', ot. split; [exact R|]. unfold start_off. destruct (lay_entries _ _ _ _ _ _ _ Hlay _ _ HTt) as [Hge' _].
  rewrite Hpc', (proj2 (Z.eqb_neq _ 0)) by lia. split; [rewrite <- HTt; f_equal; lia|]. rewrite Hland. f_equal.
  unfold landing, lands, jmp_dist in *. rewrite Htaken, (proj2 (Z.leb_le _ _)) by lia. cbn [andb].
  assert (insn_extra insn = 0) as Ex by (unfold insn_extra; rewrite Hc; by destruct op, x). rewrite Ex, Z.add_0_r, HTi in Hend. injection Hend as ->. lia.
Qed.
End step.

(** The run over the steps. *)
Lemma run32_sim D s D' s' c : steps32 bp T fp D s D' s' -> rel32 fp g0 sm D s c -> at32 s c ->
  exists n c', rv_steps 32 image base n c = Some c' /\ rel32 fp g0 sm D' s' c' /\ at32 s' c'.
Proof.
  intros Hrun. revert c. induction Hrun as [D s|D s s1 D' s2 k insn insn1 Hs Hwf Hc Hver Hr Hnear Hstep _ IH]; intros c Hrel Hat.
  - by exists 0%nat, c.
  - destruct (step32_sim D s s1 c k insn insn1 Hs Hwf Hc Hver Hr Hstep Hrel Hat Hnear) as (n & c1 & R1 & Hrel1 & Hat1).
    destruct (IH c1 Hrel1 Hat1) as (n' & c2 & R2 & H). exists (n + n')%nat, c2. split; [by eapply steps_add|exact H].
Qed.

(** An exit goes to the epilogue: it is the last instruction, or a jump. *)
Lemma exit32 s insn insn1 c : insn_start 0 (insnsi bp) (bpc s) = Some (insn, insn1) -> code insn = BPF_JMP .| BPF_EXIT ->
  0 <= dst_reg insn <= 10 -> 0 <= src_reg insn <= 10 -> at32 s c ->
  exists n, rv_steps 32 image base n c = Some (Cpu (addr base E) (gprs c) (cmem c)).
Proof.
  intros Hs Hc Hd Hs' (o & Ho & Hpc).
  destruct (lay_insn _ _ _ _ _ _ _ Hlay _ _ _ Hs) as (o' & n & H0 & Ho' & Hreg & Hend & HE & Hlast). rewrite Ho in Ho'. injection Ho' as <-.
  pose proof (lay_pos _ _ _ _ _ _ _ Hlay) as HP. assert (insn_extra insn = 0) as Ex by (unfold insn_extra; by rewrite Hc). rewrite Ex in Hreg.
  destruct c as [p g m]. cbn [pc gprs cmem] in *. subst p.
  assert (wp T E base (emit_insn get_addr bp insn insn1 (bpc s) false) (P + o) (Cpu (addr base (P + o)) g m)
    (fun r k' c' => r = 0 -> (if bpc s =? len bp - 1 then c' = Cpu (addr base k') g m else c' = Cpu (addr base E) g m))) as Hw.
  { unfold emit_insn, bpf2rv. rewrite (pair_lookup _ Hd), (pair_lookup _ Hs'). do 4 wstep. rewrite Hc. pick_case32.
    destruct (bpc s =? len bp - 1); [by wstep|]. apply wp32_bind, wp32_epilogue_off.
    assert (s32 (s32 (E - (P + o)) ≪ 2) = 4 * (E - (P + o))) as ->.
    { rewrite (sgn_small 32 (E - (P + o))), Z.shiftl_mul_pow2 by lia. rewrite sgn_small by lia. lia. }
    unfold is_21b_check. destruct (is_21b_int _) eqn:H21; cbn [negb Z.eqb]; [|by wstep]. wstep. eapply wp32_emit; [done|by apply x_jal|].
    wstep. intros _. unfold is_21b_int in H21. rewrite half_dist, addr_add by lia. f_equal. f_equal. lia. }
  destruct (region_run _ _ _ _ _ _ _ _ _ _ Hreg ltac:(lia) ltac:(lia) Hw) as (steps & c' & R & Hq). exists steps. rewrite R. f_equal.
  specialize (Hq eq_refl). destruct (Z.eqb_spec (bpc s) (len bp - 1)); [|done]. rewrite Hq. f_equal. f_equal. apply Hlast. lia.
Qed.
End program.

(** * Entry and return *)

(** The interpreter starts like the compiled code does: the argument is in A0,
    the frame pointer is 80 bytes below the stack pointer, other registers have
    what is in their places, and the memory is that of the processor with S6
    saved below the frame pointer. *)
Record entry32 (g : Z -> Z) (m : mem) (s : bpf_state) : Prop := {
  ent_pc : bpc s = 0;
  ent_arg : bregs s 1 = g 10;
  ent_fp : bregs s 10 = u32 (g 2 - 80);
  ent_uint r : 0 <= r <= 10 -> uint 64 (bregs s r);
  ent_lo r : 0 <= r <= 10 -> r <> 1 -> r <> 10 -> lo (bregs s r) = word_at (g 2) (Cpu 0 g m) (pair_of r).2;
  ent_hi r : 0 <= r <= 10 -> r <> 1 -> r <> 10 -> hi (bregs s r) = word_at (g 2) (Cpu 0 g m) (pair_of r).1;
  ent_mem x : uint 32 x -> ~ in_frame (g 2) x -> bmem s x = store_le 32 4 m (g 2 + -84) (g 22) x
}.

(** The registers of the caller that the call does not change: RA, SP, GP, TP,
    S0 to S5 and S7 to S11. *)
Definition preserved : list Z := [1; 2; 3; 4; 8; 9; 18; 19; 20; 21; 23; 24; 25; 26; 27].

(** The processor back in the caller: the result of the program is in A1:A0, and
    S6 has what the program left where it was saved. *)
Record returned32 (g : Z -> Z) (s : bpf_state) (c : cpu) : Prop := {
  ret_pc : pc c = g 1;
  ret_lo : gprs c 10 = lo (bregs s 0);
  ret_hi : gprs c 11 = hi (bregs s 0);
  ret_regs r : r ∈ preserved -> gprs c r = g r;
  ret_s6 : gprs c 22 = load_le 32 4 (bmem s) (g 2 + -84);
  ret_mem x : uint 32 x -> ~ in_frame (g 2) x -> cmem c x = bmem s x
}.

Lemma saves_word fp g m a p : place a -> is_stacked a = true -> word_at fp (Cpu p g (saves fp g m)) a = word_at fp (Cpu 0 g m) a.
Proof.
  intros [(E1 & Ha & _)|(E1 & _)] E; [|congruence]. unfold word_at. rewrite E1. cbn [cmem]. apply load_le_ext. intros i Hi.
  apply saves_slots; [by apply uint_wrap|]. rewrite below_add by lia. lia.
Qed.

(** The words of the registers that the prologue does not set. *)
Lemma entry_word bp g m p r a : 0 <= r <= 10 -> r <> 1 -> r <> 10 -> a = (pair_of r).1 \/ a = (pair_of r).2 ->
  word_at (g 2) (Cpu p (entry_regs bp g) (saves (g 2) g m)) a = word_at (g 2) (Cpu 0 g m) a.
Proof.
  intros Hr H1 H10 Ha. destruct (is_stacked a) eqn:Es.
  - rewrite <- (saves_word (g 2) g m a p); [unfold word_at; by rewrite Es| |done].
    destruct (pair_place r Hr) as [? ?]. by destruct Ha as [-> | ->].
  - unfold word_at. rewrite Es. cbn [gprs]. unfold entry_regs. apply reg_cases in Hr.
    assert (a <> 2 /\ a <> 8 /\ a <> 21 /\ a <> 22 /\ a <> 10 /\ a <> 11) as (? & ? & ? & ? & ? & ?)
      by (clear - Hr H1 H10 Ha Es; each_of Hr; destruct Ha as [-> | ->]; vm_compute in Es |- *; try done; split_and!; done).
    by rsimpl.
Qed.

Lemma entry_rel bp g m s p : (forall r, uint 32 (g r)) -> entry32 g m s ->
  rel32 (g 2) (<[2 := u32 (g 2 - stack_adjust bp)]> g) (saves (g 2) g m) ∅ s (Cpu p (entry_regs bp g) (saves (g 2) g m)).
Proof.
  intros Hg [Hpc Harg Hfp Hu Hlo Hhi Hmem]. split.
  - unfold entry_regs. cbn [gprs]. by rsimpl.
  - intros r Hr. destruct (decide (r = 1)) as [->|]; [|destruct (decide (r = 10)) as [->|]].
    + rewrite Harg, (lo_small (g 10)) by done. change (pair_of 1) with (11, 10). unfold word_at, entry_regs. cbn. by rsimpl.
    + rewrite Hfp, (lo_small (u32 (g 2 - 80))) by (by apply uint_wrap). change (pair_of 10) with (22, 21). unfold word_at, entry_regs. cbn. by rsimpl.
    + rewrite Hlo by done. apply entry_word with r; auto.
  - intros r Hr _. destruct (decide (r = 1)) as [->|]; [|destruct (decide (r = 10)) as [->|]].
    + rewrite Harg, (hi_small (g 10)) by done. change (pair_of 1) with (11, 10). unfold word_at, entry_regs. cbn. by rsimpl.
    + rewrite Hfp, (hi_small (u32 (g 2 - 80))) by (by apply uint_wrap). change (pair_of 10) with (22, 21). unfold word_at, entry_regs. cbn. by rsimpl.
    + rewrite Hhi by done. apply entry_word with r; auto.
  - done.
  - intros r Hr. unfold entry_regs. cbn [gprs]. each_of Hr; by rsimpl.
  - intros x Hx Hf. cbn [cmem]. rewrite saves_out by done. by rewrite Hmem.
  - done.
Qed.

Ltac by_dec := apply (bool_decide_unpack _); exact I.

Lemma ldiff_even x : x mod 2 = 0 -> Z.ldiff x 1 = x.
Proof.
  intros H. change 1 with (Z.ones 1). rewrite Z.ldiff_ones_r, Z.shiftr_div_pow2, Z.shiftl_mul_pow2 by lia.
  change (2 ^ 1) with 2. pose proof (Z.div_mod x 2 ltac:(lia)). lia.
Qed.

(** The epilogue restores what the prologue saved. *)
Lemma epilogue_returns bp g m D s c : (forall r, uint 32 (g r)) -> g 1 mod 2 = 0 -> 0 ∉ D ->
  rel32 (g 2) (<[2 := u32 (g 2 - stack_adjust bp)]> g) (saves (g 2) g m) D s c ->
  returned32 g s (Cpu (Z.ldiff (load_le 32 4 (cmem c) (g 2 + -56)) 1) (exit_regs (g 2) (gprs c) (cmem c)) (cmem c)).
Proof.
  intros Hg Hra HD [Hfp Hlo Hhi Hu Hkeep Hmem Hsaved].
  assert (forall o r, (o, r) ∈ saved_at -> r <> 22 -> load_le 32 4 (cmem c) (g 2 + o) = g r) as Hs.
  { intros o r Hin Hne. rewrite <- (saves_load (g 2) g m o r Hin (Hg r)). apply load_le_ext. intros i Hi. apply Hsaved; [by apply uint_wrap|].
    assert (-80 <= o <= -56) by (clear - Hin Hne; unfold saved_at in Hin; repeat (apply elem_of_cons in Hin as [[= -> ->]|Hin]); [lia..|done|by apply not_elem_of_nil in Hin]).
    rewrite below_add by lia. lia. }
  split; cbn [pc gprs cmem]; unfold exit_regs, saved_at; cbn [foldl fst snd].
  - rewrite (Hs (-56) 1) by (done || by_dec). by apply ldiff_even.
  - rsimpl. apply (Hlo 0). lia.
  - rsimpl. apply (Hhi 0); [lia|done].
  - intros r Hr. each_of Hr; rsimpl; first [apply Hs; [by_dec|done] | apply wrap_small, Hg | rewrite Hkeep by by_dec; by rsimpl].
  - rsimpl. apply load_le_ext. intros i Hi. apply Hmem; [by apply uint_wrap|]. unfold in_frame. rewrite below_add by lia. lia.
  - done.
Qed.

Section call.
Context (get_addr : bpf_insn -> bool -> Z + Z * bool) (bp : bpf_prog) (image : Z -> Z) (size : Z) (T : Z -> option Z) (P E : Z).
Hypothesis Hlay : laid_out get_addr bp image size T P E.
Hypothesis Hsize : size < 2 ^ 28.
Hypothesis Hdepth : 0 <= stack_depth bp <= 512.

(** The prologue, and a run from the entry. *)
Lemma enter32 base g m s D s' : (forall r, uint 32 (g r)) -> entry32 g m s -> steps32 bp T (g 2) ∅ s D s' ->
  exists n c, rv_steps 32 image base n (Cpu (addr base 0) g m) = Some c /\ at32 T P base s' c /\
    rel32 (g 2) (<[2 := u32 (g 2 - stack_adjust bp)]> g) (saves (g 2) g m) D s' c.
Proof.
  intros Hg Hent Hrun. pose proof (lay_pos _ _ _ _ _ _ _ Hlay) as HP.
  destruct (region_run _ _ _ base _ _ _ _ (Cpu (addr base 0) g m)
    (fun _ k' c' => c' = Cpu (addr base k') (entry_regs bp g) (saves (g 2) g m)) (lay_prologue _ _ _ _ _ _ _ Hlay)) as (n1 & c1 & R1 & ->);
    [lia|lia|by apply prologue_wp|]. rewrite Z2Nat.id, Z.add_0_l in R1 by lia.
  pose proof (entry_rel bp g m s (addr base P) Hg Hent) as Hrel.
  destruct (run32_sim get_addr bp image size T P E base (g 2) _ _ Hlay Hsize ∅ s D s' _ Hrun Hrel) as (n2 & c2 & R2 & Hrel2 & Hat2).
  { exists 0. unfold start_off. rewrite (ent_pc _ _ _ Hent). split; [done|]. cbn [pc]. by rewrite Z.add_0_r. }
  exists (n1 + n2)%nat, c2. split; [by eapply steps_add|done].
Qed.

(** A call of the image. *)
Lemma call32 base g m s s' : (forall r, uint 32 (g r)) -> g 1 mod 2 = 0 -> entry32 g m s -> runs32 bp T (g 2) ∅ s s' ->
  exists n c, rv_steps 32 image base n (Cpu (addr base 0) g m) = Some c /\ returned32 g s' c.
Proof.
  intros Hg Hra Hent (D & Hrun & insn & insn1 & Hs & Hc & Hd & Hs' & HD). pose proof (lay_pos _ _ _ _ _ _ _ Hlay) as HP.
  destruct (enter32 base g m s D s' Hg Hent Hrun) as (n2 & c2 & R2 & Hat2 & Hrel2).
  destruct (exit32 get_addr bp image size T P E base Hlay Hsize s' insn insn1 c2 Hs Hc Hd Hs' Hat2) as (n3 & R3).
  pose proof (epilogue_returns bp g m D s' c2 Hg Hra HD Hrel2) as Hret.
  destruct (region_run _ _ _ base _ _ _ _ (Cpu (addr base E) (gprs c2) (cmem c2))
    (fun _ _ c' => returned32 g s' c') (lay_epilogue _ _ _ _ _ _ _ Hlay)) as (n4 & c4 & R4 & Hr4).
  - lia.
  - lia.
  - apply epilogue_wp with (fp := g 2); [done| | | |exact Hret].
    + pose proof (rel_lo _ _ _ _ _ _ Hrel2 0 ltac:(lia)) as H. change (word_at (g 2) c2 (pair_of 0).2) with (gprs c2 9) in H. rewrite H. apply lo_uint.
    + pose proof (rel_hi _ _ _ _ _ _ Hrel2 0 ltac:(lia) HD) as H. change (word_at (g 2) c2 (pair_of 0).1) with (gprs c2 18) in H. rewrite H.
      apply hi_uint. by apply Hrel2.
    + rewrite (rel_keep _ _ _ _ _ _ Hrel2 2 ltac:(by_dec)). by rsimpl.
  - exists (n2 + (n3 + n4))%nat, c4. split; [|done]. eapply steps_add; [exact R2|]. eapply steps_add; [exact R3|exact R4].
Qed.

(** A call that comes to a comparison that overshoots. *)
Lemma call32_far base g m s D s1 s2 k insn insn1 : (forall r, uint 32 (g r)) -> entry32 g m s -> steps32 bp T (g 2) ∅ s D s1 ->
  insn_start 0 (insnsi bp) (bpc s1) = Some (insn, insn1) -> insn_wf insn -> code insn = kind_code k -> verified32 (g 2) k insn s1 ->
  (forall r, r ∈ reads_hi k insn -> r ∉ D) -> bpf_step (prog_of bp) s1 = Some (Cont s2) -> overshoots T k insn s1 ->
  exists n c o, rv_steps 32 image base n (Cpu (addr base 0) g m) = Some c /\ start_off T (bpc s2) = Some o /\ pc c = addr base (P + o - 2048).
Proof.
  intros Hg Hent Hrun Hs Hwf Hc Hver Hr Hstep Hfar. destruct (enter32 base g m s D s1 Hg Hent Hrun) as (n1 & c1 & R1 & Hat & Hrel).
  destruct (step32_far get_addr bp image size T P E base (g 2) _ _ Hlay Hsize D s1 s2 c1 k insn insn1 Hs Hwf Hc Hver Hr Hstep Hrel Hat Hfar)
    as (n2 & c2 & o & R2 & Ho & Hpc). exists (n1 + n2)%nat, c2, o. split; [by eapply steps_add|done].
Qed.
End call.
