(* ===== verification/BpfJit32Props.v ===== *)
(** Correctness of the RV32 BPF compiler: a program that bpf_int_jit_compile
    compiles does what the interpreter does, from the call to the return, unless a
    64-bit comparison takes a branch that is out of range; and what it does then. *)

From stdpp Require Import gmap.
From S2P Require Import Prelude Cstring Bytes Bpf BpfSteps Riscv RvEmit RvEnc RvExec BpfJit32 BpfJit32Half BpfJit32Mem BpfJit32Exec.
From S2P Require Import BpfJit32Ops BpfJit32Word BpfJit32Rel BpfJit32Sim BpfJit32Frame BpfJit32Layout BpfJit32Run.

(** The offsets that the first pass records. *)
Definition offsets (get_addr : bpf_insn -> bool -> Z + Z * bool) (bp : bpf_prog) : Z -> option Z :=
  match first_pass get_addr bp (new_ctx bp) with Some (_, ctx) => offset ctx | None => fun _ => None end.

(** What a compilation that succeeds has done. *)
Lemma finish_eq get_addr orig bp1 x size ctx : finish_compile get_addr orig bp1 x size ctx =
  match second_pass get_addr bp1 x ctx with
  | None => None
  | Some (err, ctx) =>
      if negb (err =? 0) then Some (set_jit_data None orig)
      else Some (Prog (insnsi bp1) (verifier_zext bp1) (stack_depth bp1) (jit_requested bp1) (is_func bp1)
                   (if negb (is_func bp1) || x then None else Some ctx) (insns ctx) true size)
  end.
Proof. reflexivity. Qed.

Lemma compile_eq get_addr blind kz kc alloc bp bp1 : blind bp = Some bp1 -> jit_data bp1 = None ->
  bpf_int_jit_compile get_addr blind kz kc alloc bp =
  if jit_requested bp then if kz then if kc then match first_pass get_addr bp1 (new_ctx bp1) with
  | None => None
  | Some (err, ctx) =>
      if negb (err =? 0) then Some (set_jit_data None bp)
      else match alloc (4 * ninsns ctx) with
           | None => Some (set_jit_data None bp)
           | Some image => finish_compile get_addr bp bp1 false (4 * ninsns ctx) (set_image image ctx)
           end
  end else Some (set_jit_data None bp) else Some bp else Some bp.
Proof. intros Hb Hd. unfold bpf_int_jit_compile. rewrite Hb, Hd. destruct (jit_requested bp), kz, kc; reflexivity. Qed.

Lemma finish_inv get_addr orig bp1 size ctx bp' image : finish_compile get_addr orig bp1 false size ctx = Some bp' ->
  jited orig = false -> jited bp' = true -> bpf_func bp' = Some image ->
  exists ctx2, second_pass get_addr bp1 false ctx = Some (0, ctx2) /\ insns ctx2 = Some image /\ jited_len bp' = size.
Proof.
  intros Hc Hj Hj' Hf. rewrite finish_eq in Hc. destruct (second_pass _ _ _ _) as [[err ctx2]|]; [|discriminate Hc].
  destruct (Z.eqb_spec err 0) as [->|]; injection Hc as <-; [|cbn in Hj'; congruence].
  by exists ctx2.
Qed.

Lemma first_inv (o : option (Z * rv_jit_context)) (alloc : Z -> option (Z -> Z)) (fin : (Z -> Z) -> rv_jit_context -> option bpf_prog)
    (requested kz kc : bool) bp bp' : jited bp = false -> jited bp' = true ->
  (if requested then if kz then if kc then match o with
   | None => None
   | Some (err, ctx) =>
       if negb (err =? 0) then Some (set_jit_data None bp)
       else match alloc (4 * ninsns ctx) with None => Some (set_jit_data None bp) | Some image => fin image ctx end
   end else Some (set_jit_data None bp) else Some bp else Some bp) = Some bp' ->
  exists image ctx, o = Some (0, ctx) /\ fin image ctx = Some bp'.
Proof.
  intros Hj Hj' Hc. assert (forall d, Some (set_jit_data d bp) = Some bp' -> False) as Hno by (intros d [= <-]; cbn in Hj'; congruence).
  destruct requested; [|congruence]. destruct kz; [|congruence]. destruct kc; [|by apply Hno in Hc].
  destruct o as [[err ctx]|]; [|discriminate]. destruct (Z.eqb_spec err 0) as [->|]; [|by apply Hno in Hc].
  destruct (alloc _) as [image|]; [|by apply Hno in Hc]. by exists image, ctx.
Qed.

Lemma compile_inv get_addr blind kz kc alloc bp bp1 bp' image :
  bpf_int_jit_compile get_addr blind kz kc alloc bp = Some bp' -> jited bp = false -> jited bp' = true ->
  blind bp = Some bp1 -> jit_data bp1 = None -> bpf_func bp' = Some image ->
  exists image0 ctx1 ctx2, first_pass get_addr bp1 (new_ctx bp1) = Some (0, ctx1) /\
    second_pass get_addr bp1 false (set_image image0 ctx1) = Some (0, ctx2) /\ insns ctx2 = Some image /\ jited_len bp' = 4 * ninsns ctx1.
Proof.
  intros Hc Hj Hj' Hb Hd Hf. rewrite (compile_eq _ _ _ _ _ _ bp1 Hb Hd) in Hc.
  destruct (first_inv _ alloc (fun image ctx => finish_compile get_addr bp bp1 false (4 * ninsns ctx) (set_image image ctx)) _ _ _ _ _ Hj Hj' Hc)
    as (image0 & ctx1 & H1 & H2).
  destruct (finish_inv _ _ _ _ _ _ _ H2 Hj Hj' Hf) as (ctx2 & H3 & H4).
  exact (ex_intro _ image0 (ex_intro _ ctx1 (ex_intro _ ctx2 (conj H1 (conj H3 H4))))).
Qed.

(** The image of a compilation, as the passes lay it out. *)
Lemma compiled_layout get_addr blind kz kc alloc bp bp1 bp' image : (forall insn x e, get_addr insn x = inl e -> e < 0) ->
  bpf_int_jit_compile get_addr blind kz kc alloc bp = Some bp' -> jited bp = false -> jited bp' = true ->
  blind bp = Some bp1 -> jit_data bp1 = None -> bpf_func bp' = Some image ->
  exists P E size, laid_out get_addr bp1 image size (offsets get_addr bp1) P E /\ jited_len bp' = 4 * size.
Proof.
  intros Haddr Hc Hj Hj' Hb Hd Hf. destruct (compile_inv _ _ _ _ _ _ _ _ _ Hc Hj Hj' Hb Hd Hf) as (image0 & ctx1 & ctx2 & H1 & H2 & Hi & Hl).
  unfold offsets. rewrite H1. destruct (passes_layout get_addr Haddr bp1 image0 ctx1 ctx2 H1 H2) as (image' & P & Hi' & Hlay).
  rewrite Hi in Hi'. injection Hi' as <-. exists P, (epilogue_offset ctx1), (ninsns ctx1). exact (conj Hlay Hl).
Qed.

(** In an image of less than 4084 bytes no comparison overshoots. *)
Lemma small_image get_addr blind kz kc alloc bp bp1 bp' image k insn s : (forall insn x e, get_addr insn x = inl e -> e < 0) ->
  bpf_int_jit_compile get_addr blind kz kc alloc bp = Some bp' -> jited bp = false -> jited bp' = true ->
  blind bp = Some bp1 -> jit_data bp1 = None -> bpf_func bp' = Some image -> jited_len bp' < 4084 -> ~ overshoots (offsets get_addr bp1) k insn s.
Proof.
  intros Haddr Hc Hj Hj' Hb Hd Hf Hl. destruct (compiled_layout _ _ _ _ _ _ _ _ _ Haddr Hc Hj Hj' Hb Hd Hf) as (P & E & size & Hlay & El).
  destruct k as [| | | | | | | | |[] op x]; cbn [overshoots]; try exact id. intros (oi & ot & Hoi & Hot & Hfar & _).
  apply (lay_entries _ _ _ _ _ _ _ Hlay) in Hoi as (_ & ? & ?), Hot as (_ & ? & ?). pose proof (lay_pos _ _ _ _ _ _ _ Hlay).
  assert (first_branch op <= 8) by (unfold first_branch; repeat case_match; lia). unfold jmp_dist in Hfar. lia.
Qed.

Lemma addr_start base : uint 32 base -> addr base 0 = base.
Proof. intros Hb. unfold addr. rewrite Z.add_0_r. by apply wrap_small. Qed.

(** C4: a program that bpf_int_jit_compile has compiled for RV32, in its first
    compilation, does what the interpreter does. Take any run of the interpreter of
    kbpf.c from the entry to an exit, over instructions other than calls that the
    verifier accepts, with accesses outside the frame of the compiled code, and in
    which no 64-bit comparison overshoots: none takes its first branch over a
    distance that does not fit a branch (in an image of less than 4084 bytes there is
    no such comparison, [small_image]). A call of the image then returns to the caller
    with the value of the interpreter in A1:A0, with the memory outside the
    frame as the interpreter left it, and with the stack pointer and the
    callee-saved registers as they were, except that S6 has what the program left in
    the last word of its stack. The upper half of a register may be out of date where
    the verifier inserts the zero extensions. *)
Theorem jit32_program get_addr blind kz kc alloc bp bp1 bp' image base g m s s' :
  (forall insn x e, get_addr insn x = inl e -> e < 0) ->
  bpf_int_jit_compile get_addr blind kz kc alloc bp = Some bp' -> jited bp = false -> jited bp' = true ->
  blind bp = Some bp1 -> jit_data bp1 = None -> bpf_func bp' = Some image -> jited_len bp' < 2 ^ 30 ->
  0 <= stack_depth bp1 <= 512 -> uint 32 base -> (forall r, uint 32 (g r)) -> g 1 mod 2 = 0 ->
  entry32 g m s -> runs32 bp1 (offsets get_addr bp1) (g 2) ∅ s s' ->
  (exists fuel, ___bpf_prog_run fuel (prog_of bp1) s = Some (Return (bregs s' 0))) /\
  exists n c, rv_steps 32 image base n (Cpu base g m) = Some c /\ returned32 g s' c.
Proof.
  intros Haddr Hc Hj Hj' Hb Hd Hf Hlen Hdepth Hbase Hg Hra Hent Hrun. split; [by eapply runs_returns|].
  destruct (compiled_layout _ _ _ _ _ _ _ _ _ Haddr Hc Hj Hj' Hb Hd Hf) as (P & E & size & Hlay & Hl).
  pose proof (call32 get_addr bp1 image size _ P E Hlay ltac:(lia) Hdepth base g m s s' Hg Hra Hent Hrun) as Hcall.
  rewrite addr_start in Hcall by exact Hbase. exact Hcall.
Qed.


(** * Programs that are compiled wrong *)

(** No BPF program calls another function here, and images are allocated. *)
Definition no_calls (insn : bpf_insn) (x : bool) : Z + Z * bool := inl (-22).
Definition any_image (n : Z) : option (Z -> Z) := Some (fun _ => 0).
Definition jit32 (bp : bpf_prog) : option bpf_prog := bpf_int_jit_compile no_calls Some true true any_image bp.
Definition new_prog (l : list bpf_insn) (depth : Z) : bpf_prog := Prog l false depth true false None None false 0.

(** A caller: the return address is in RA, the stack pointer in SP, and S6 has 77. *)
Definition caller_regs (r : Z) : Z := if r =? 1 then 1000 else if r =? 2 then 4096 else if r =? 22 then 77 else 0.
Definition caller_mem : mem := fun _ => 0.

(** The processor after [n] steps of the image, called at 0x10000. *)
Definition call_jit32 (bp : bpf_prog) (n : nat) : option cpu :=
  bp' ← jit32 bp; image ← bpf_func bp'; rv_steps 32 image 0x10000 n (Cpu 0x10000 caller_regs caller_mem).

(** r0 = 5; *(u32 * )(r10 - 4) = 7; exit *)
Definition s6_prog : bpf_prog := new_prog
  [ Insn (BPF_ALU64 .| BPF_MOV .| BPF_K) 0 0 0 5;
    Insn (BPF_ST .| BPF_MEM .| BPF_W) 10 0 (-4) 7;
    Insn (BPF_JMP .| BPF_EXIT) 0 0 0 0 ] 8.

(** An instance of what jit32_program says of S6: build_prologue saves S6 in the last
    word of the program's own stack, so a program that writes there returns to its
    caller with the value it wrote in S6 instead of the caller's. *)
Example jit32_s6_lost : exists c, call_jit32 s6_prog 35 = Some c /\ pc c = caller_regs 1 /\ gprs c 10 = 5 /\
  caller_regs 22 = 77 /\ gprs c 22 = 7.
Proof.
  assert (option_map (fun c => (pc c, gprs c 10, gprs c 22)) (call_jit32 s6_prog 35) = Some (1000, 5, 7)) as H by (vm_compute; reflexivity).
  destruct (call_jit32 s6_prog 35) as [c|]; [|discriminate H]. injection H as H1 H2 H3. exists c. auto.
Qed.
