(* ===== verification/BpfJit32Witness.v ===== *)
(** A program compiled for RV32 and run, for the theorems of BpfJit32Props. *)

From stdpp Require Import gmap.
From S2P Require Import Prelude Cstring Bytes Bpf BpfSteps Riscv RvEmit RvEnc RvExec BpfJit32 BpfJit32Half BpfJit32Mem BpfJit32Exec.
From S2P Require Import BpfJit32Ops BpfJit32Word BpfJit32Rel BpfJit32Access BpfJit32Sim BpfJit32Frame BpfJit32Layout BpfJit32Run BpfJit32Props.

(** r0 = 5; if (r0 == 5) goto +1; r0 = 0; *(u32 * )(r10 - 8) = 7; exit *)
Definition r_insns : list bpf_insn :=
  [ Insn (BPF_ALU64 .| BPF_MOV .| BPF_K) 0 0 0 5;
    Insn (BPF_JMP .| BPF_JEQ .| BPF_K) 0 0 1 5;
    Insn (BPF_ALU64 .| BPF_MOV .| BPF_K) 0 0 0 0;
    Insn (BPF_ST .| BPF_MEM .| BPF_W) 10 0 (-8) 7;
    Insn (BPF_JMP .| BPF_EXIT) 0 0 0 0 ].

Definition r_prog : bpf_prog := new_prog r_insns 8.
Definition r_prog' : bpf_prog := default r_prog (jit32 r_prog).
Definition r_image : Z -> Z := default (fun _ => 0) (bpf_func r_prog').
Definition r_entry : bpf_state := BpfSt (fun r => if r =? 10 then 4016 else 0) (store_le 32 4 caller_mem (4096 + -84) 77) 0.

Lemma r_compiled : bpf_int_jit_compile no_calls Some true true any_image r_prog = Some r_prog'.
Proof.
  unfold r_prog', jit32. assert (is_Some (bpf_int_jit_compile no_calls Some true true any_image r_prog)) as [p ->]; [|done].
  apply (bool_decide_unpack _). vm_compute. exact I.
Qed.

Lemma r_func : bpf_func r_prog' = Some r_image.
Proof. unfold r_image. assert (is_Some (bpf_func r_prog')) as [p ->]; [|done]. apply (bool_decide_unpack _). vm_compute. exact I. Qed.

Lemma caller_uint r : uint 32 (caller_regs r).
Proof. unfold caller_regs, uint. repeat (destruct (_ =? _); [lia|]). lia. Qed.

Lemma r_entry_ok : entry32 caller_regs caller_mem r_entry.
Proof.
  split; try done.
  - intros r _. cbn. unfold uint. destruct (_ =? _); lia.
  - intros r Hr H1 H10. apply reg_cases in Hr. each_of Hr; try done; reflexivity.
  - intros r Hr H1 H10. apply reg_cases in Hr. each_of Hr; try done; reflexivity.
Qed.

(** The run of the interpreter. *)
Ltac r_wf := repeat split; by vm_compute.
Ltac r_ver := cbn; split_and!; first [done | lia | set_solver].

Lemma r_run : exists s', runs32 r_prog (offsets no_calls r_prog) 4096 ∅ r_entry s' /\ bregs s' 0 = 5.
Proof.
  eexists. split.
  - eexists. split.
    eapply (steps_next _ _ _ _ _ _ _ _ (KAlu true BPF_MOV BPF_K)); [reflexivity|r_wf|reflexivity|r_ver|cbn; set_solver|by intros []|reflexivity|].
    eapply (steps_next _ _ _ _ _ _ _ _ (KJmp true BPF_JEQ BPF_K)); [reflexivity|r_wf|reflexivity|r_ver|cbn; set_solver| |reflexivity|].
    { intros (oi & ot & _ & _ & _ & H). by vm_compute in H. }
    eapply (steps_next _ _ _ _ _ _ _ _ (KSt BPF_W)); [reflexivity|r_wf|reflexivity| |cbn; set_solver|by intros []|reflexivity|].
    { split; [by vm_compute|]. split; [by vm_compute|]. intros i Hi. cbn in Hi.
      assert (i = 0 \/ i = 1 \/ i = 2 \/ i = 3) as [-> | [-> | [-> | ->]]] by lia; by vm_compute. }
    apply steps_refl.
    eexists _, _. split_and!; [reflexivity|reflexivity|by vm_compute..|cbn; set_solver].
  - reflexivity.
Qed.

Lemma jit32_program_witness : exists s',
  (exists fuel, ___bpf_prog_run fuel (prog_of r_prog) r_entry = Some (Return (bregs s' 0))) /\
  exists n c, rv_steps 32 r_image 0x10000 n (Cpu 0x10000 caller_regs caller_mem) = Some c /\ returned32 caller_regs s' c.
Proof.
  destruct r_run as (s' & Hrun & _). exists s'.
  apply (jit32_program no_calls Some true true any_image r_prog r_prog r_prog' r_image 0x10000 caller_regs caller_mem r_entry s').
  - by intros insn x e [= <-].
  - exact r_compiled.
  - reflexivity.
  - vm_compute. reflexivity.
  - reflexivity.
  - reflexivity.
  - exact r_func.
  - vm_compute. reflexivity.
  - by vm_compute.
  - by vm_compute.
  - exact caller_uint.
  - reflexivity.
  - exact r_entry_ok.
  - exact Hrun.
Defined.

(** r1 = 1 << 32; if (r1 > 5) goto end; r0 = 1, [n] times; (u32) r0 = r0; end: exit *)
Definition far_prog (n : nat) : bpf_prog := new_prog
  ([ Insn (BPF_LD .| BPF_IMM .| BPF_DW) 1 0 0 0; Insn 0 0 0 0 1;
     Insn (BPF_JMP .| BPF_JGT .| BPF_K) 1 0 (Z.of_nat n + 1) 5 ] ++
   repeat (Insn (BPF_ALU64 .| BPF_MOV .| BPF_K) 0 0 0 1) n ++
   [ Insn (BPF_ALU .| BPF_MOV .| BPF_X) 0 0 0 0; Insn (BPF_JMP .| BPF_EXIT) 0 0 0 0 ]) 0.

Definition f_prog : bpf_prog := far_prog 340.
Definition f_prog' : bpf_prog := default f_prog (jit32 f_prog).
Definition f_image : Z -> Z := default (fun _ => 0) (bpf_func f_prog').
Definition f_state : bpf_state := BpfSt (<[1 := 2 ^ 32]> (bregs r_entry)) (bmem r_entry) 2.
Definition f_state' : bpf_state := BpfSt (<[1 := 2 ^ 32]> (bregs r_entry)) (bmem r_entry) 344.

Lemma f_compiled : bpf_int_jit_compile no_calls Some true true any_image f_prog = Some f_prog'.
Proof.
  unfold f_prog', jit32. assert (is_Some (bpf_int_jit_compile no_calls Some true true any_image f_prog)) as [p ->]; [|done].
  apply (bool_decide_unpack _). vm_compute. exact I.
Qed.

Lemma f_func : bpf_func f_prog' = Some f_image.
Proof. unfold f_image. assert (is_Some (bpf_func f_prog')) as [p ->]; [|done]. apply (bool_decide_unpack _). vm_compute. exact I. Qed.

Lemma f_steps : steps32 f_prog (offsets no_calls f_prog) 4096 ∅ r_entry (dirty true 1 ∅) f_state.
Proof.
  eapply (steps_next _ _ _ _ _ f_state _ _ KLdImm); [reflexivity|r_wf|reflexivity|r_ver|cbn; set_solver|by intros []|reflexivity|].
  apply steps_refl.
Qed.

Lemma f_overshoots : overshoots (offsets no_calls f_prog) (KJmp true BPF_JGT BPF_K) (Insn (BPF_JMP .| BPF_JGT .| BPF_K) 1 0 341 5) f_state.
Proof.
  assert (exists oi ot, offsets no_calls f_prog 2 = Some oi /\ offsets no_calls f_prog 343 = Some ot /\ 2 ^ 12 <= jmp_dist oi ot + 8) as (oi & ot & H1 & H2 & H3).
  { eexists _, _. split; [vm_compute; reflexivity|]. split; [vm_compute; reflexivity|]. by vm_compute. }
  exists oi, ot. split; [exact H1|]. split; [exact H2|]. split; [exact H3|reflexivity].
Qed.

